(* ===== verification/_CoqProject ===== *)
-Q . S2P
Prelude.v
PyValue.v
Interleave.v
Codec.v
CodecLemmas.v
CodecTheorems.v
CodecTotal.v
Prefix.v
Store.v
SnapshotLaws.v
StoreTrace.v
RustStore.v
PyFloat.v
Observability.v
Condition.v
ConditionValues.v
ConditionGrammar.v
ConditionLexer.v
Graph.v
GraphCycles.v
GraphPaths.v
GraphTheorems.v
Crew.v
CrewTheorems.v
Portability.v
PortabilityTheorems.v
DumpTheorems.v
Snapshot.v
WireRows.v
RustStoreTheorems.v
RustStoreProps.v
RustThreads.v
RustThreadsTheorems.v
DiskStore.v
Redis.v
RedisLaws.v
RedisTheorems.v
RedisFake.v
RedisProps.v
Postgres.v
Sql.v
SqlParse.v
PostgresLaws.v
PostgresTheorems.v
PostgresFake.v
PostgresProps.v
AsyncPools.v
Saver.v
SaverOps.v
SaverRead.v
SaverLemmas.v
SaverSpec.v
SaverPut.v
SaverExample.v
DiskTheorems.v
DiskConns.v
SaverMeasure.v
ObservabilityTheorems.v
SaverTheorems.v
SaverWrites.v
SaverAdmin.v
SaverRetention.v
SaverList.v
SaverAsync.v
SnapshotBackends.v
SaverReference.v
SaverRefinement.v
SaverHistory.v
SaverCopy.v
SaverDrop.v
SaverSimulation.v
SaverRuns.v
Examples.v
