(* ===== verification/Prelude.v ===== *)
(** * swarmstate: a verification library

    [swarmstate] keeps the state of agent programs: values under (namespace, key) in
    a store, snapshots of a store, checkpoints of LangGraph threads on top of any
    store, a memory for CrewAI, a dump format, and a graph that routes between agents
    by conditions. This library models the Python package under
    [src/python/swarmstate/] and the Rust core under [src/rust/src/] as functions
    over explicit state, and proves what makes them correct.

    ** How the parts fit

    Every backend implements the interface of [protocols.py]: the class
    [Store.StoreOps], with [Store.StoreLaws] saying that each operation acts on one
    abstract map from (namespace, key) to values. The clients (LangGraph saver, CrewAI
    storage, copy and dump) are verified against that class only; the backends (the
    in-memory store of Rust, SQLite, Redis, Postgres) each give an instance of it, so
    a theorem about a client holds on every backend. [StoreTrace] turns an instance
    into the statement that a sequence of calls gets the answers of a reference store.
    The in-memory store and the dumps encode values with the codec, whose round trips
    are proved on bytes. The graph uses the condition language, and [handoff_router]
    the graph.

    ** Conventions

    Text is a list of code points, bytes are [Byte.byte], Python values are
    [PyValue.pyval] (floats as their 64 bits, dicts as association lists in insertion
    order), and integers that have a width carry their bounds or wrap explicitly. An
    operation is in [PyM S], from a state to a [result] (a value, an exception, or
    [OutOfFuel]) and a state; what was changed before an exception stays changed. The
    messages of exceptions are not modelled, only their classes. What the program calls
    but does not contain is a parameter, with its documented behaviour as named laws:
    LangGraph and its serializer ([Saver.LangGraph]), the [msgpack] package, the Redis
    client ([RedisLaws]), a Postgres server ([PgLaws]: the meaning of SQL, clause by
    clause, for every statement of the syntax of [Sql]; which of them the texts the
    store sends are is proved, not assumed), the SQLite statements' failures (a
    schedule), the objects of a routing state ([Graph.Objects]), Unicode's tables, the
    clock, the hash of Rust's standard library. Each such set of laws has a concrete
    instance on which the examples run ([SaverExample], [RedisFake], [PostgresFake]).

    ** Files

    Shared: [Prelude] (text, sorting, the result and state monads, [wp] and [steps]
    with their automation, ordered dictionaries, chunks), [PyValue] (Python values,
    equality, truth, [int] and [str]), [PyFloat] (correctly rounded ratios),
    [Interleave] (calls interleaved over a shared state, and the account of the
    connections they open).

    Codec ([rust/src/codec.rs]): [Codec] is [encode] and [decode]; [CodecLemmas],
    [CodecTheorems] and [CodecTotal] the round trips and totality.

    Interface ([protocols.py], [backends/_snapshot.py], [backends/_prefix.py]):
    [Store], [StoreTrace], [Snapshot], [Prefix], and [WireRows] for what the backends
    that keep packed rows share. [SnapshotLaws] is what [snapshot] and [restore]
    promise a client, [SnapshotBackends] that every backend keeps it.

    Backends: [RustStore], [RustStoreTheorems], [RustStoreProps], and for concurrent
    calls [RustThreads], [RustThreadsTheorems] ([rust/src/store.rs]); [DiskStore],
    [DiskTheorems] ([backends/disk.py]); [Redis], [RedisLaws], [RedisTheorems],
    [RedisFake], [RedisProps] ([backends/redis.py]); [Postgres], [Sql] and [SqlParse]
    (the SQL it is written in, and a reader of it), [PostgresLaws],
    [PostgresTheorems], [PostgresFake], [PostgresProps] ([backends/postgres.py]).
    Their connections are models of their own: [DiskConns] has [_connect] and [close]
    of [DiskStore], [AsyncPools] the pools and clients per event loop of
    [PostgresStore] and [RedisStore].

    LangGraph saver ([integrations/langgraph.py]): [Saver] (names, state, access to
    the store, hints), [SaverOps] (writing, retention), [SaverRead] (reading, listing,
    administration, async twins); [SaverLemmas], [SaverSpec] (what a read returns as a
    function of the content), [SaverPut], [SaverMeasure], [SaverTheorems],
    [SaverWrites], [SaverAdmin], [SaverRetention], [SaverList] (any configuration,
    filter, [before] and limit), [SaverAsync] (the
    native async methods). Its specification is [SaverReference], a checkpointer that
    knows nothing of stores: [SaverRefinement] relates what a store holds to its
    content; [SaverHistory], [SaverCopy] and [SaverDrop] do so for the history of delta
    channels, for copying a thread, and for pruning and deleting runs;
    [SaverSimulation] proves that any run of the saver answers as it does,
    [SaverRuns] draws consequences and shows what the hypotheses exclude. Its metrics
    sinks ([observability.py]): [Observability], [ObservabilityTheorems].

    Others: [Crew], [CrewTheorems] ([integrations/crewai.py]); [Portability],
    [PortabilityTheorems], [DumpTheorems] ([portability.py]); [Condition],
    [ConditionValues], [ConditionGrammar], [ConditionLexer] ([rust/src/condition.rs]); [Graph],
    [GraphCycles], [GraphPaths], [GraphTheorems] ([rust/src/graph.rs] and
    [handoff_router]); [Examples] ([examples/]).

    An operation is named as in the source; where two classes share a name it is
    prefixed with the class ([DiskStore_set], [RedisStore_aset]).

    ** What is shown

    - The saver as a whole: any sequence of calls (writing, reading, listing, deleting
      and copying threads, deleting runs, pruning, the history of delta channels), direct or awaited, with
      snapshots and restores of the store in between, gets the answers of a map from (thread,
      namespace, id) to checkpoints and writes (not incremental, without a retention
      bound, ids increasing; over several namespaces [list] is compared namespace by
      namespace, and has no limit); hence a restore rewinds every thread and threads do not
      see each other. This holds on every store that takes all text: the in-memory
      store, SQLite and Redis (Postgres refuses NUL, see [PostgresLaws]).
    - Checkpoints, incremental ones included: what [put] stores [get_tuple] returns, whole or split into channel
      blobs; the latest pointer stays behind no newer checkpoint; writes come back in
      order and are written once, sync and async alike; trimming keeps what survives
      readable and bounds the thread, by what trims had to keep; deleting a thread
      removes exactly its rows; listing is newest first, and exactly what the filter and
      [before] let through; instrumentation is transparent, and a summary counts
      every call once, with percentiles that are ranks of the samples.
    - Stores: each backend refines the reference store, the counts of batch deletes
      included; Postgres does so from the text of its SQL, table creation included; batches are atomic under
      failing statements or lost connections; [restore] undoes everything since
      [snapshot]; async twins are the sync methods; byte counts are exact; a diff
      describes the change.
    - Threads: no calls of the in-memory store deadlock, a snapshot is one moment of it,
      and its byte counts settle (but for [clear] and [restore]).
    - Connections: under any interleaving of threads or tasks no connection is lost or
      shared between threads, a loop has one pool, [close] closes everything, and every
      call ends.
    - Codec and dumps: encode and decode are inverse, decoding is total, a dump read
      back adds exactly what was dumped, failures leave no trace.
    - CrewAI: a memory never overwrites another; search returns the best, best first.
    - Conditions and routing: which Python values convert, and to what; the parser is
      its grammar, and ends; the graph has no cycle unless allowed, and [is_dag] says
      so; routing on part of the state decides as on the whole.

    ** Fuel and bounds

    A run of [DiskConns] or [AsyncPools] takes at most six steps a call, one of
    [RustThreads] at most 54 and one for each bucket of a batch. Loops without
    a structural argument take fuel, and each has a lemma that its fuel is enough: the
    parent-chain walks ([delta_ancestors_ends]: one round per record of the thread),
    the loops of the decoder (a byte a round, [CodecTotal]), the lexer (a character a
    round), the parser (64 levels and a unit per token, [ConditionGrammar]), the two
    graph searches (a round per edge, and per node, [GraphCycles]). Bounds the code has
    are kept: 128 levels of nesting in the codec, 64 in conditions, 899 parameters in an
    SQLite statement, 16 shards, 64-bit counters that wrap.

    ** Not modelled

    The backends other than the in-memory store run one operation at a time: their
    servers serialize statements and transactions. Poisoned locks and the effect of
    pragmas are not modelled, nor is a lock that keeps readers waiting behind a writer.
    An [await] is the awaited operation (except in [AsyncPools], whose tasks interleave at
    them), [gather] runs in order, a generator is the list of what it yields, and an
    iteration over Redis [SCAN] is the list it yields. Elapsed times and the clock are
    arguments or left out. [int] reads ASCII digits only, and not Python's limit on
    their number. Not modelled because there is nothing to prove: [__repr__], module
    registration and re-exports, the creation of OpenTelemetry's instruments and
    tracer, benchmarks. Of [examples/], [build_graph] and [main] of
    [support_triage.py] run LangGraph's [StateGraph], whose code is not here. The
    simulation leaves out [incremental] and the retention bound, which have theorems
    of their own ([SaverTheorems], [SaverRetention]). *)

From Stdlib Require Export ZArith Lia.
From Stdlib Require Import ZifyBool ZifyN.
From stdpp Require Export strings sorting gmap fin_maps numbers.
From stdpp Require Export base list.

#[global] Unset Printing Records.

(** ** Text: Python [str] as a sequence of code points

    A Python string is a sequence of Unicode code points; comparison is
    lexicographic by code point, which is also the order of Rust's [String]
    (UTF-8 preserves it), of SQLite's [BINARY] collation and of Postgres'
    [COLLATE "C"]. *)

Abbreviation pystr := (list N).
Abbreviation bytes := (list Byte.byte).

(** An ASCII literal of the source, as code points. *)
Definition lit (s : String.string) : pystr :=
  Ascii.N_of_ascii <$> String.list_ascii_of_string s.

#[global] Instance byte_eq_dec : EqDecision Byte.byte.
Proof. intros x y. apply Byte.byte_eq_dec. Defined.

(** A Unicode scalar value: a code point that is not a surrogate, which is what
    UTF-8 can carry and every backend can store. *)
Definition is_surrogate (c : N) : bool := (0xD800 <=? c)%N && (c <? 0xE000)%N.
Definition scalar (c : N) : bool := (c <=? 0x10FFFF)%N && negb (is_surrogate c).
Definition valid_text (s : pystr) : Prop := Forall (λ c, scalar c = true) s.

#[global] Instance valid_text_dec s : Decision (valid_text s).
Proof. unfold valid_text. apply _. Defined.

(** *** The order of strings *)

Fixpoint str_leb (a b : pystr) : bool :=
  match a, b with
  | [], _ => true
  | _ :: _, [] => false
  | x :: a', y :: b' =>
      if (x <? y)%N then true else if (y <? x)%N then false else str_leb a' b'
  end.

Definition str_ltb (a b : pystr) : bool := negb (str_leb b a).
Definition str_le (a b : pystr) : Prop := str_leb a b = true.
Definition str_lt (a b : pystr) : Prop := str_ltb a b = true.

#[global] Instance str_le_dec : RelDecision str_le.
Proof. intros a b. unfold str_le. apply _. Defined.
#[global] Instance str_lt_dec : RelDecision str_lt.
Proof. intros a b. unfold str_lt. apply _. Defined.

Declare Scope py_scope.
Delimit Scope py_scope with py.
Infix "≤ₛ" := str_le (at level 70) : py_scope.
Infix "<ₛ" := str_lt (at level 70) : py_scope.
#[global] Open Scope py_scope.

(** [max(keys)] of a list of strings; [None] on an empty list (where Python's
    [max] raises, and [max(..., default=None)] returns [None]). *)
Definition py_max (l : list pystr) : option pystr :=
  match l with
  | [] => None
  | x :: l' => Some (foldl (λ m y, if str_ltb m y then y else m) x l')
  end.

(** [sorted(l)] on strings. *)
Definition py_sorted (l : list pystr) : list pystr := merge_sort str_le l.

(** [sorted(l, reverse=True)]. *)
Definition py_sorted_rev (l : list pystr) : list pystr := merge_sort (flip str_le) l.

(** *** Prefixes, splitting and joining *)

(** [s.startswith(p)] *)
Fixpoint starts_with (p s : pystr) : bool :=
  match p, s with
  | [], _ => true
  | _ :: _, [] => false
  | x :: p', y :: s' => (x =? y)%N && starts_with p' s'
  end.

(** [s.split(c)] for a one-character separator: never the empty list. *)
Fixpoint split_on (c : N) (s : pystr) : list pystr :=
  match s with
  | [] => [[]]
  | x :: s' =>
      if (x =? c)%N then [] :: split_on c s'
      else match split_on c s' with
           | [] => [[x]]
           | p :: ps => (x :: p) :: ps
           end
  end.

(** [c.join(parts)] for a one-character separator. *)
Fixpoint join_with (c : N) (parts : list pystr) : pystr :=
  match parts with
  | [] => []
  | [p] => p
  | p :: ps => p ++ c :: join_with c ps
  end.

(** [head, _, tail = s.rpartition(c)]: split at the last [c]; without one the
    head is empty and the tail is the whole string. *)
Fixpoint rfind_split (c : N) (s : pystr) : option (pystr * pystr) :=
  match s with
  | [] => None
  | x :: s' =>
      match rfind_split c s' with
      | Some (h, t) => Some (x :: h, t)
      | None => if (x =? c)%N then Some ([], s') else None
      end
  end.

Definition rpartition (c : N) (s : pystr) : pystr * pystr :=
  match rfind_split c s with
  | Some ht => ht
  | None => ([], s)
  end.

(** ** Keys of a map *)

Lemma elem_of_map_to_list_fst `{Countable K} {A : Type} (m : gmap K A) k :
  k ∈ (map_to_list m).*1 ↔ is_Some (m !! k).
Proof.
  rewrite list_elem_of_fmap. split.
  - intros ([k' x]&->&Hin%elem_of_map_to_list). by exists x.
  - intros [x Hx]. exists (k, x). split; [done|]. by apply elem_of_map_to_list.
Qed.

(** ** Results, and the state-and-exception monad

    An operation of the program either returns, raises, or — for the two loops
    of the LangGraph adapter that walk a parent chain — runs out of the fuel the
    model gives it, which stands for not having returned yet. State changes made
    before an exception persist, as they do in Python. *)

Inductive exn :=
  | TypeError
  | ValueError
  | KeyError
  | IndexError
  | AttributeError
  | UnicodeEncodeError
  | UnicodeDecodeError
  | RuntimeError
  | StructError
  | AssertionError
  | StoreError.

#[global] Instance exn_eq_dec : EqDecision exn.
Proof. solve_decision. Defined.

Inductive result (A : Type) :=
  | Ok (a : A)
  | Raise (e : exn)
  | OutOfFuel.
Arguments Ok {A} a.
Arguments Raise {A} e.
Arguments OutOfFuel {A}.

#[global] Instance result_ret : MRet result := λ A a, Ok a.
#[global] Instance result_bind : MBind result := λ A B f m,
  match m with
  | Ok a => f a
  | Raise e => Raise e
  | OutOfFuel => OutOfFuel
  end.
#[global] Instance result_fmap : FMap result := λ A B f m,
  match m with
  | Ok a => Ok (f a)
  | Raise e => Raise e
  | OutOfFuel => OutOfFuel
  end.

Definition is_ok {A} (r : result A) : bool :=
  match r with Ok _ => true | _ => false end.

(** [or_raise e o]: the value, or exception [e]. *)
Definition or_raise {A} (e : exn) (o : option A) : result A :=
  match o with Some a => Ok a | None => Raise e end.

Definition PyM (S A : Type) : Type := S → result A * S.

#[global] Instance pym_ret {S} : MRet (PyM S) := λ A a s, (Ok a, s).
#[global] Instance pym_bind {S} : MBind (PyM S) := λ A B f m s,
  match m s with
  | (Ok a, s') => f a s'
  | (Raise e, s') => (Raise e, s')
  | (OutOfFuel, s') => (OutOfFuel, s')
  end.

(** A step given directly as a function of the state. *)
Definition act {S A} (f : S → result A * S) : PyM S A := f.

Definition get_state {S} : PyM S S := λ s, (Ok s, s).
Definition gets {S A} (f : S → A) : PyM S A := λ s, (Ok (f s), s).
Definition modify {S} (f : S → S) : PyM S unit := λ s, (Ok tt, f s).
Definition raise {S A} (e : exn) : PyM S A := λ s, (Raise e, s).
Definition out_of_fuel {S A} : PyM S A := λ s, (OutOfFuel, s).
Definition lift {S A} (r : result A) : PyM S A := λ s, (r, s).
Definition when {S} (b : bool) (m : PyM S unit) : PyM S unit :=
  if b then m else mret tt.

(** [try: m except e: h] *)
Definition catch {S A} (e : exn) (m h : PyM S A) : PyM S A := λ s,
  match m s with
  | (Raise e', s') => if decide (e' = e) then h s' else (Raise e', s')
  | r => r
  end.

(** [for x in l: body] *)
Fixpoint for_each {S A} (l : list A) (body : A → PyM S unit) : PyM S unit :=
  match l with
  | [] => mret tt
  | x :: l' => body x ;; for_each l' body
  end.

(** [for x in l: acc = body(acc, x)] *)
Fixpoint for_fold {S A B} (l : list A) (body : B → A → PyM S B) (acc : B) : PyM S B :=
  match l with
  | [] => mret acc
  | x :: l' => acc' ← body acc x; for_fold l' body acc'
  end.

(** The same loop where the body has no state. *)
Fixpoint foldR {A B} (l : list A) (body : B → A → result B) (acc : B) : result B :=
  match l with
  | [] => Ok acc
  | x :: l' => acc' ← body acc x; foldR l' body acc'
  end.

(** ** Lemmas on text *)

Lemma valid_text_app a b : valid_text (a ++ b) ↔ valid_text a ∧ valid_text b.
Proof. apply Forall_app. Qed.

Lemma valid_text_cons c s : valid_text (c :: s) ↔ scalar c = true ∧ valid_text s.
Proof. apply Forall_cons_iff. Qed.

Lemma valid_text_nil : valid_text [].
Proof. constructor. Qed.

Lemma str_leb_refl a : str_leb a a = true.
Proof. induction a as [|x a IH]; simpl; [done|]. by rewrite N.ltb_irrefl. Qed.

Lemma str_leb_total a b : str_leb a b = true ∨ str_leb b a = true.
Proof.
  revert b. induction a as [|x a IH]; intros [|y b]; simpl; auto.
  destruct (N.ltb_spec x y), (N.ltb_spec y x); auto; lia.
Qed.

Lemma str_leb_trans a b c :
  str_leb a b = true → str_leb b c = true → str_leb a c = true.
Proof.
  revert b c. induction a as [|x a IH]; intros [|y b] [|z c]; simpl; try done.
  destruct (N.ltb_spec x y), (N.ltb_spec y z), (N.ltb_spec x z); try done;
    destruct (N.ltb_spec y x), (N.ltb_spec z y), (N.ltb_spec z x); try done; try lia.
  apply IH.
Qed.

Lemma str_leb_antisym a b : str_leb a b = true → str_leb b a = true → a = b.
Proof.
  revert b. induction a as [|x a IH]; intros [|y b]; simpl; try done.
  destruct (N.ltb_spec x y), (N.ltb_spec y x); try done; try lia.
  intros ??. f_equal; [lia|auto].
Qed.

#[global] Instance str_le_order : TotalOrder str_le.
Proof.
  split; [|intros a b; unfold strict, str_le].
  - split; [split|].
    + intros a. apply str_leb_refl.
    + intros a b c. apply str_leb_trans.
    + intros a b. apply str_leb_antisym.
  - destruct (str_leb a b) eqn:E1, (str_leb b a) eqn:E2; auto.
    + right; left. by apply str_leb_antisym.
    + destruct (str_leb_total a b); congruence.
Qed.

#[global] Instance str_le_total : Total str_le.
Proof. intros a b. apply str_leb_total. Qed.
#[global] Instance str_le_flip_total : Total (flip str_le).
Proof. intros a b. unfold flip. destruct (str_leb_total a b); auto. Qed.
#[global] Instance str_le_flip_trans : Transitive (flip str_le).
Proof. intros a b c. unfold flip. intros. by etrans. Qed.
#[global] Instance str_le_flip_antisymm : AntiSymm (=) (flip str_le).
Proof. intros a b ??. by apply str_leb_antisym. Qed.

Lemma str_lt_le a b : str_lt a b ↔ str_le a b ∧ a ≠ b.
Proof.
  unfold str_lt, str_ltb, str_le. split.
  - intros H%negb_true_iff. split.
    + destruct (str_leb_total a b); congruence.
    + intros ->. by rewrite str_leb_refl in H.
  - intros [H Hne]. apply negb_true_iff. destruct (str_leb b a) eqn:E; [|done].
    destruct Hne. by apply str_leb_antisym.
Qed.

Lemma str_nle_lt a b : ¬ str_le a b ↔ str_lt b a.
Proof. unfold str_lt, str_ltb, str_le. by rewrite negb_true_iff, not_true_iff_false. Qed.

Lemma str_nlt_le a b : ¬ str_lt a b ↔ str_le b a.
Proof.
  unfold str_lt, str_ltb, str_le.
  by rewrite negb_true_iff, not_false_iff_true.
Qed.

Lemma str_lt_irrefl a : ¬ str_lt a a.
Proof. rewrite str_lt_le. by intros []. Qed.

Lemma str_le_lt_trans a b c : str_le a b → str_lt b c → str_lt a c.
Proof.
  rewrite !str_lt_le. intros ? [? Hne]. split; [by etrans|]. intros ->.
  destruct Hne. by apply (anti_symm str_le).
Qed.

Lemma str_lt_le_trans a b c : str_lt a b → str_le b c → str_lt a c.
Proof.
  rewrite !str_lt_le. intros [? Hne] ?. split; [by etrans|]. intros ->.
  destruct Hne. by apply (anti_symm str_le).
Qed.

Lemma str_lt_trans a b c : str_lt a b → str_lt b c → str_lt a c.
Proof. intros H1 H2%str_lt_le. eapply str_lt_le_trans; [done|apply H2]. Qed.

Lemma str_nil_le a : str_le [] a.
Proof. done. Qed.

(** *** [max] *)

Lemma py_max_foldl_spec x l :
  let m := foldl (λ m y, if str_ltb m y then y else m) x l in
  (m = x ∨ m ∈ l) ∧ str_le x m ∧ (∀ y, y ∈ l → str_le y m).
Proof.
  revert x. induction l as [|y l IH]; intros x; simpl.
  - split_and!; [by left|done|intros ? []%not_elem_of_nil].
  - destruct (str_ltb x y) eqn:E.
    + destruct (IH y) as (H1&H2&H3). split_and!.
      * right. rewrite elem_of_cons. tauto.
      * etrans; [|done]. apply str_lt_le in E. apply E.
      * intros z [->|?]%elem_of_cons; auto.
    + destruct (IH x) as (H1&H2&H3). split_and!; [|done|].
      * rewrite elem_of_cons. tauto.
      * intros z [->|?]%elem_of_cons; auto.
        etrans; [|done]. apply str_nlt_le. unfold str_lt. congruence.
Qed.

Lemma py_max_Some l m :
  py_max l = Some m ↔ m ∈ l ∧ (∀ y, y ∈ l → str_le y m).
Proof.
  destruct l as [|x l]; simpl.
  - split; [done|]. by intros [[]%not_elem_of_nil ?].
  - destruct (py_max_foldl_spec x l) as (H1&H2&H3). split.
    + intros [= <-]. rewrite elem_of_cons. split; [done|].
      intros y [->|?]%elem_of_cons; auto.
    + intros [Hm Hle]. f_equal. apply (anti_symm str_le).
      * apply Hle. rewrite elem_of_cons. tauto.
      * apply elem_of_cons in Hm as [->|?]; auto.
Qed.

Lemma py_max_None l : py_max l = None ↔ l = [].
Proof. destruct l; simpl; naive_solver. Qed.

Lemma py_max_perm l l' : l ≡ₚ l' → py_max l = py_max l'.
Proof.
  intros Hp. destruct (py_max l') as [m|] eqn:E.
  - apply py_max_Some in E. apply py_max_Some. setoid_rewrite Hp. done.
  - apply py_max_None in E. subst. apply Permutation_nil_r in Hp. by subst.
Qed.

(** *** Sorting *)

Lemma py_sorted_perm l : py_sorted l ≡ₚ l.
Proof. apply merge_sort_Permutation. Qed.

Lemma py_sorted_sorted l : StronglySorted str_le (py_sorted l).
Proof. apply StronglySorted_merge_sort; apply _. Qed.

Lemma elem_of_py_sorted x l : x ∈ py_sorted l ↔ x ∈ l.
Proof. by rewrite py_sorted_perm. Qed.

Lemma py_sorted_NoDup l : NoDup l → NoDup (py_sorted l).
Proof. by rewrite py_sorted_perm. Qed.

Lemma py_sorted_eq l l' : l ≡ₚ l' → py_sorted l = py_sorted l'.
Proof.
  intros Hp. apply (StronglySorted_unique str_le); auto using py_sorted_sorted.
  by rewrite !py_sorted_perm.
Qed.

Lemma py_sorted_rev_perm l : py_sorted_rev l ≡ₚ l.
Proof. apply merge_sort_Permutation. Qed.

Lemma py_sorted_rev_sorted l : StronglySorted (flip str_le) (py_sorted_rev l).
Proof. apply StronglySorted_merge_sort; apply _. Qed.

Lemma py_sorted_rev_eq l l' : l ≡ₚ l' → py_sorted_rev l = py_sorted_rev l'.
Proof.
  intros Hp. apply (StronglySorted_unique (flip str_le)); auto using py_sorted_rev_sorted.
  by rewrite !py_sorted_rev_perm.
Qed.

(** *** Prefixes, splitting, joining *)

Lemma starts_with_spec p s : starts_with p s = true ↔ ∃ t, s = p ++ t.
Proof.
  revert s. induction p as [|x p IH]; intros s; simpl.
  - split; [by exists s|done].
  - destruct s as [|y s]; simpl.
    + split; [done|]. by intros [? ?].
    + rewrite andb_true_iff, N.eqb_eq, IH. split.
      * intros [-> [t ->]]. by exists t.
      * intros [t [= -> ->]]. eauto.
Qed.

Lemma starts_with_app p t : starts_with p (p ++ t) = true.
Proof. apply starts_with_spec. by exists t. Qed.

Lemma split_on_nosep c p : c ∉ p → split_on c p = [p].
Proof.
  induction p as [|x p IH]; simpl; [done|].
  intros [Hx Hp]%not_elem_of_cons. rewrite IH by done.
  destruct (N.eqb_spec x c); congruence.
Qed.

Lemma split_on_app c p s : c ∉ p → split_on c (p ++ c :: s) = p :: split_on c s.
Proof.
  induction p as [|x p IH]; simpl.
  - intros _. by rewrite N.eqb_refl.
  - intros [Hx Hp]%not_elem_of_cons. rewrite IH by done.
    destruct (N.eqb_spec x c); congruence.
Qed.

Lemma split_on_join c parts :
  parts ≠ [] → Forall (λ p, c ∉ p) parts → split_on c (join_with c parts) = parts.
Proof.
  intros Hne Hall. induction Hall as [|p ps Hp Hps IH]; [done|].
  destruct ps as [|q ps]; simpl; [by apply split_on_nosep|].
  rewrite split_on_app by done. f_equal. by apply IH.
Qed.

Lemma split_on_parts_nosep c s : Forall (λ p, c ∉ p) (split_on c s).
Proof.
  induction s as [|x s IH]; simpl; [repeat constructor; apply not_elem_of_nil|].
  destruct (N.eqb_spec x c); [constructor; [apply not_elem_of_nil|done]|].
  destruct (split_on c s) as [|p ps]; inversion_clear IH; constructor;
    rewrite ?not_elem_of_cons; auto using not_elem_of_nil.
Qed.

Lemma split_on_not_nil c s : split_on c s ≠ [].
Proof. destruct s; simpl; [done|]. case_match; [done|]. by case_match. Qed.

Lemma join_split_on c s : join_with c (split_on c s) = s.
Proof.
  induction s as [|x s IH]; simpl; [done|].
  pose proof (split_on_not_nil c s) as Hne.
  destruct (N.eqb_spec x c) as [->|?].
  - destruct (split_on c s) as [|p ps] eqn:E; [done|]. by rewrite <-IH.
  - destruct (split_on c s) as [|p ps] eqn:E; [done|].
    rewrite <-IH. by destruct ps.
Qed.

Lemma rfind_split_None c s : c ∉ s → rfind_split c s = None.
Proof.
  induction s as [|x s IH]; simpl; [done|]. intros [Hx Hs]%not_elem_of_cons.
  rewrite IH by done. destruct (N.eqb_spec x c); congruence.
Qed.

Lemma rpartition_app c h t : c ∉ t → rpartition c (h ++ c :: t) = (h, t).
Proof.
  intros Ht. unfold rpartition. enough (rfind_split c (h ++ c :: t) = Some (h, t)) as -> by done.
  induction h as [|x h IH]; simpl; [|by rewrite IH].
  rewrite rfind_split_None by done. by rewrite N.eqb_refl.
Qed.

(** ** A weakest precondition for the monad (total correctness)

    [wp m s Q]: from state [s], [m] returns (no exception, no exhausted fuel) a
    value and a state satisfying [Q]. *)

Definition wp {S A} (m : PyM S A) (s : S) (Q : A → S → Prop) : Prop :=
  match m s with (Ok a, s') => Q a s' | _ => False end.

#[global] Arguments wp : simpl never.

Section wp.
Context {S : Type}.
Implicit Types s : S.

Lemma wp_elim {A} (m : PyM S A) s Q :
  wp m s Q → ∃ a s', m s = (Ok a, s') ∧ Q a s'.
Proof. unfold wp. destruct (m s) as [[a|e|] s']; naive_solver. Qed.

Lemma wp_intro {A} (m : PyM S A) s Q a s' : m s = (Ok a, s') → Q a s' → wp m s Q.
Proof. unfold wp. by intros ->. Qed.

Lemma wp_same {A} (m m' : PyM S A) s Q : m s = m' s → wp m' s Q → wp m s Q.
Proof. unfold wp. by intros ->. Qed.

Lemma wp_mono {A} (m : PyM S A) s (Q Q' : A → S → Prop) :
  wp m s Q → (∀ a s', Q a s' → Q' a s') → wp m s Q'.
Proof. unfold wp. destruct (m s) as [[]]; naive_solver. Qed.

Lemma wp_ret {A} (a : A) s (Q : A → S → Prop) : Q a s → wp (mret a) s Q.
Proof. done. Qed.

Lemma wp_bind {A B} (m : PyM S A) (f : A → PyM S B) s Q :
  wp m s (λ a s', wp (f a) s' Q) → wp (m ≫= f) s Q.
Proof. unfold wp, mbind, pym_bind. by destruct (m s) as [[]]. Qed.

Lemma wp_bind_mono {A B} (m : PyM S A) (f : A → PyM S B) s (R : A → S → Prop) Q :
  wp m s R → (∀ a s', R a s' → wp (f a) s' Q) → wp (m ≫= f) s Q.
Proof. intros Hm Hf. eapply wp_bind, wp_mono; eauto. Qed.

Lemma wp_gets {A} (f : S → A) s (Q : A → S → Prop) : Q (f s) s → wp (gets f) s Q.
Proof. done. Qed.

Lemma wp_get_state s (Q : S → S → Prop) : Q s s → wp get_state s Q.
Proof. done. Qed.

Lemma wp_modify (f : S → S) s (Q : unit → S → Prop) : Q tt (f s) → wp (modify f) s Q.
Proof. done. Qed.

Lemma wp_lift {A} (r : result A) a s (Q : A → S → Prop) :
  r = Ok a → Q a s → wp (lift r) s Q.
Proof. intros ->. done. Qed.

Lemma wp_when (b : bool) (m : PyM S unit) s (Q : unit → S → Prop) :
  (b = true → wp m s Q) → (b = false → Q tt s) → wp (when b m) s Q.
Proof. destruct b; simpl; auto. intros _ HQ. by apply HQ. Qed.

Lemma wp_catch_ok {A} e (m h : PyM S A) s Q : wp m s Q → wp (catch e m h) s Q.
Proof. unfold wp, catch. by destruct (m s) as [[]]. Qed.

Lemma wp_for_each {A} (I : list A → S → Prop) (l : list A) (body : A → PyM S unit) s :
  I [] s →
  (∀ l1 x l2 s', l = l1 ++ x :: l2 → I l1 s' → wp (body x) s' (λ _, I (l1 ++ [x]))) →
  wp (for_each l body) s (λ _, I l).
Proof.
  intros H0 Hstep.
  enough (Hgo : ∀ l2 l1 s', l = l1 ++ l2 → I l1 s' → wp (for_each l2 body) s' (λ _, I l))
    by (by apply (Hgo l [])).
  induction l2 as [|x l2 IH]; intros l1 s' ->; simpl.
  - rewrite app_nil_r. by intros.
  - intros Hl1. eapply wp_bind_mono; [by eapply Hstep|]. intros [] s'' HI.
    apply (IH (l1 ++ [x])); [by rewrite <-app_assoc|done].
Qed.

Lemma wp_for_fold {A B} (I : list A → B → S → Prop) (l : list A)
    (body : B → A → PyM S B) b s :
  I [] b s →
  (∀ l1 x l2 b' s', l = l1 ++ x :: l2 → I l1 b' s' →
     wp (body b' x) s' (I (l1 ++ [x]))) →
  wp (for_fold l body b) s (I l).
Proof.
  intros H0 Hstep.
  enough (Hgo : ∀ l2 l1 b' s', l = l1 ++ l2 → I l1 b' s' → wp (for_fold l2 body b') s' (I l))
    by (by apply (Hgo l [])).
  induction l2 as [|x l2 IH]; intros l1 b' s' ->; simpl.
  - rewrite app_nil_r. by intros.
  - intros Hl1. eapply wp_bind_mono; [by eapply Hstep|]. intros b'' s'' HI.
    apply (IH (l1 ++ [x])); [by rewrite <-app_assoc|done].
Qed.

Lemma wp_mapM {A B} (I : S → Prop) (R : A → B → Prop) (f : A → PyM S B) l s :
  I s → (∀ x s', x ∈ l → I s' → wp (f x) s' (λ y s'', R x y ∧ I s'')) →
  wp (mapM f l) s (λ ys s', Forall2 R l ys ∧ I s').
Proof.
  revert s. induction l as [|x l IH]; intros s Hs Hf; simpl.
  - apply wp_ret. by split; [constructor|].
  - eapply wp_bind_mono; [apply Hf; [left|done]|]. intros y s' [Hy Hs'].
    eapply wp_bind_mono; [apply IH; [done|]|].
    + intros x' s'' Hx'. apply Hf. by right.
    + intros ys s'' [Hys Hs'']. apply wp_ret. by split; [constructor|].
Qed.
End wp.

#[global] Arguments py_sorted : simpl never.
#[global] Arguments py_sorted_rev : simpl never.
#[global] Arguments py_max : simpl never.

(** Sequencing only sees what the first computation returns. *)
Lemma bind_same {S A B : Type} (m m' : PyM S A) (f : A → PyM S B) (s : S) :
  m s = m' s → (m ≫= f) s = (m' ≫= f) s.
Proof. unfold mbind, pym_bind. by intros ->. Qed.

(** [steps R m]: whatever way [m] ends, the state it leaves is related by [R] to
    the state it started in. *)
Definition steps {S A} (R : S → S → Prop) (m : PyM S A) : Prop := ∀ s, R s (m s).2.

Section steps.
Context {S : Type} (R : S → S → Prop) `{!PreOrder R}.

Lemma steps_gets {A} (f : S → A) : steps R (gets f).
Proof. intros s. reflexivity. Qed.

Lemma steps_ret {A} (a : A) : steps R (mret a).
Proof. intros s. reflexivity. Qed.

Lemma steps_raise {A} e : steps R (raise (A:=A) e).
Proof. intros s. reflexivity. Qed.

Lemma steps_lift {A} (r : result A) : steps R (lift r).
Proof. intros s. reflexivity. Qed.

Lemma steps_modify (f : S → S) : (∀ s, R s (f s)) → steps R (modify f).
Proof. intros Hf s. apply Hf. Qed.

Lemma steps_bind {A B} (m : PyM S A) (f : A → PyM S B) :
  steps R m → (∀ a, steps R (f a)) → steps R (m ≫= f).
Proof.
  intros Hm Hf s. specialize (Hm s). unfold mbind, pym_bind.
  destruct (m s) as [[a|e|] s']; [|exact Hm..]. etransitivity; [exact Hm|apply Hf].
Qed.

Lemma steps_for_fold {A B} (l : list A) (body : B → A → PyM S B) b :
  (∀ b x, steps R (body b x)) → steps R (for_fold l body b).
Proof.
  intros Hb. revert b. induction l as [|x l IH]; intros b; cbn; [apply steps_ret|].
  apply steps_bind; [apply Hb|intros b'; apply IH].
Qed.
End steps.

Create HintDb steps.
#[export] Hint Resolve steps_gets steps_ret steps_raise steps_lift : steps.

(** Decomposes a [steps] goal along the monadic structure. *)
Ltac steps_all :=
  repeat first [solve [eauto with steps typeclass_instances]
    | apply steps_for_fold; [apply _|intros ? ?] | apply steps_bind; [apply _| |intros ?]].

(** Steps through the monadic structure of a [wp] goal. *)
Ltac wp_pure :=
  lazymatch goal with
  | |- wp (mret _) _ _ => apply wp_ret
  | |- wp (_ ≫= _) _ _ => apply wp_bind
  | |- wp (gets _) _ _ => apply wp_gets
  | |- wp get_state _ _ => apply wp_get_state
  | |- wp (modify _) _ _ => apply wp_modify
  | |- wp (lift (Ok _)) _ _ => eapply wp_lift; [reflexivity|]
  end.
Ltac wp_pures := repeat (wp_pure; cbn beta).

Lemma result_bind_assoc {A B C : Type} (r : result A) (f : A → result B) (g : B → result C) :
  (r ≫= f) ≫= g = r ≫= (λ a, f a ≫= g).
Proof. by destruct r. Qed.

(** A loop that appends one item per round is a [mapM]. *)
Lemma foldR_append {A B : Type} (f : A → result B) (l : list A) (out : list B) :
  foldR l (λ out x, y ← f x; Ok (out ++ [y])) out = (ys ← mapM f l; Ok (out ++ ys)).
Proof.
  revert out. induction l as [|x l IH]; intros out; cbn [foldR mapM].
  - cbn. by rewrite app_nil_r.
  - rewrite !result_bind_assoc. destruct (f x) as [y| |]; cbn [mbind result_bind]; [|done..].
    rewrite IH, result_bind_assoc. destruct (mapM f l); cbn; [|done..]. by rewrite <-app_assoc.
Qed.

Lemma mapM_Ok_Forall2 {A B : Type} (f : A → result B) (l : list A) (ys : list B) :
  mapM f l = Ok ys → Forall2 (λ x y, f x = Ok y) l ys.
Proof.
  revert ys. induction l as [|x l IH]; intros ys; cbn [mapM]; [by intros [= <-]|].
  destruct (f x) as [y| |] eqn:E; cbn; [|done..].
  destruct (mapM f l) as [zs| |]; cbn; [|done..]. intros [= <-]. constructor; auto.
Qed.

(** ** Shared list lemmas *)

Lemma filter_all {A : Type} (P : A → Prop) `{∀ x, Decision (P x)} (l : list A) :
  Forall P l → filter P l = l.
Proof.
  induction 1 as [|x l Hx _ IH]; [done|]. rewrite filter_cons_True by done. by rewrite IH.
Qed.

Lemma filter_none {A : Type} (P : A → Prop) `{∀ x, Decision (P x)} (l : list A) :
  Forall (λ x, ¬ P x) l → filter P l = [].
Proof.
  induction 1 as [|x l Hx _ IH]; [done|]. by rewrite filter_cons_False by done.
Qed.

Lemma Forall2_fmap_r_eq {A B} (f : A → B) (l : list A) (k : list B) :
  Forall2 (λ x y, y = f x) l k ↔ k = f <$> l.
Proof.
  split.
  - induction 1 as [|x y l k -> _ ->]; done.
  - intros ->. induction l; simpl; constructor; auto.
Qed.

(** ** Insertion-ordered dictionaries

    A Python dict whose iteration order the program uses: [d[k] = v] overwrites in
    place, or appends. *)

Section odict.
Context {K V : Type} `{EqDecision K}.
Implicit Types d : list (K * V).

Fixpoint od_get d (k : K) : option V :=
  match d with
  | [] => None
  | (k', v) :: d' => if decide (k' = k) then Some v else od_get d' k
  end.

Fixpoint od_set d (k : K) (v : V) : list (K * V) :=
  match d with
  | [] => [(k, v)]
  | (k', v') :: d' => if decide (k' = k) then (k, v) :: d' else (k', v') :: od_set d' k v
  end.

Definition od_has d (k : K) : bool :=
  match od_get d k with Some _ => true | None => false end.

(** [{k: v for k, v in l}] *)
Definition od_of_list (l : list (K * V)) : list (K * V) :=
  foldl (λ d kv, od_set d kv.1 kv.2) [] l.

Lemma od_get_set d k v k' :
  od_get (od_set d k v) k' = if decide (k = k') then Some v else od_get d k'.
Proof.
  induction d as [|[k0 v0] d IH]; simpl; [done|].
  repeat (case_decide; simpl); congruence.
Qed.

Lemma od_get_Some_keys d k : is_Some (od_get d k) ↔ k ∈ d.*1.
Proof.
  induction d as [|[k0 v0] d IH]; simpl.
  - split; [by intros []|by intros ?%not_elem_of_nil].
  - rewrite elem_of_cons. case_decide; [naive_solver|].
    rewrite IH. split; [auto|]. intros [->|]; done.
Qed.

Lemma od_has_spec d k : od_has d k = true ↔ k ∈ d.*1.
Proof.
  rewrite <-od_get_Some_keys. unfold od_has. destruct (od_get d k); [naive_solver|].
  split; [done|]. by intros [].
Qed.

Lemma od_set_keys d k v k' : k' ∈ (od_set d k v).*1 ↔ k' = k ∨ k' ∈ d.*1.
Proof.
  rewrite <-!od_get_Some_keys, od_get_set. case_decide; [|naive_solver].
  subst. split; [by left|eauto].
Qed.

Lemma od_set_NoDup d k v : NoDup d.*1 → NoDup (od_set d k v).*1.
Proof.
  induction d as [|[k0 v0] d IH]; simpl; [intros; constructor; [apply not_elem_of_nil|done]|].
  intros [Hk0 Hd]%NoDup_cons. case_decide; simpl; [subst; by constructor|].
  constructor; [|auto]. rewrite od_set_keys. naive_solver.
Qed.

Lemma od_of_list_snoc l kv : od_of_list (l ++ [kv]) = od_set (od_of_list l) kv.1 kv.2.
Proof. unfold od_of_list. by rewrite foldl_app. Qed.

Lemma od_of_list_NoDup l : NoDup (od_of_list l).*1.
Proof.
  induction l as [|kv l IH] using rev_ind; [constructor|].
  rewrite od_of_list_snoc. by apply od_set_NoDup.
Qed.

Lemma od_of_list_keys l k : k ∈ (od_of_list l).*1 ↔ k ∈ l.*1.
Proof.
  induction l as [|[k0 v0] l IH] using rev_ind; [done|].
  rewrite od_of_list_snoc, od_set_keys, IH, fmap_app, elem_of_app. simpl.
  rewrite list_elem_of_singleton. tauto.
Qed.

Lemma od_get_elem_of d k v : NoDup d.*1 → (k, v) ∈ d ↔ od_get d k = Some v.
Proof.
  induction d as [|[k0 v0] d IH]; simpl.
  - intros _. split; [by intros ?%not_elem_of_nil|done].
  - intros [Hk0 Hd]%NoDup_cons. rewrite elem_of_cons, IH by done. case_decide.
    + subst. split; [|intros [= ->]; by left]. intros [[= ->]|Hg]; [done|].
      destruct Hk0. apply od_get_Some_keys. eauto.
    + split; [|auto]. intros [[= -> ->]|]; done.
Qed.

(** A value of the dict was in the list. *)
Lemma od_of_list_get l k v : od_get (od_of_list l) k = Some v → (k, v) ∈ l.
Proof.
  induction l as [|[k0 v0] l IH] using rev_ind; [done|].
  rewrite od_of_list_snoc, od_get_set, elem_of_app, list_elem_of_singleton. cbn [fst snd].
  case_decide; [|by left; apply IH]. subst. intros [= ->]. by right.
Qed.

(** Without repeated keys the dict is the list. *)
Lemma od_of_list_id l : NoDup l.*1 → od_of_list l = l.
Proof.
  intros Hnd. induction l as [|[k v] l IH] using rev_ind; [done|].
  rewrite fmap_app in Hnd. apply NoDup_app in Hnd as (Hl&Hk&_).
  rewrite od_of_list_snoc, IH by done. simpl. clear IH Hl.
  induction l as [|[k0 v0] l IH]; simpl; [done|]. case_decide as Hkk.
  - subst. destruct (Hk k); simpl; [by left|by left].
  - f_equal. apply IH. intros x Hx. apply Hk. simpl. by right.
Qed.
End odict.

(** ** Chunks

    [for start in range(0, len(l), n): l[start : start + n]] with [n >= 1]. *)

Fixpoint chunks_fuel {A} (fuel n : nat) (l : list A) : list (list A) :=
  match fuel, l with
  | O, _ | _, [] => []
  | S fuel', _ => take n l :: chunks_fuel fuel' n (drop n l)
  end.

Definition chunks {A} (n : nat) (l : list A) : list (list A) := chunks_fuel (length l) n l.

Lemma chunks_fuel_concat {A} fuel n (l : list A) :
  0 < n → length l ≤ fuel → concat (chunks_fuel fuel n l) = l.
Proof.
  intros Hn. revert l. induction fuel as [|fuel IH]; intros l Hl; simpl.
  - by destruct l; [|simpl in Hl; lia].
  - destruct l as [|x l]; [done|]. cbn [concat]. rewrite IH; [apply take_drop|].
    rewrite length_drop. simpl in *. lia.
Qed.

Lemma chunks_concat {A} n (l : list A) : 0 < n → concat (chunks n l) = l.
Proof. intros. by apply chunks_fuel_concat. Qed.

Lemma chunks_length {A} n (l : list A) : Forall (λ c, length c ≤ n) (chunks n l).
Proof.
  unfold chunks. generalize (length l) as fuel. intros fuel. revert l.
  induction fuel as [|fuel IH]; intros [|x l]; simpl; try constructor; [|apply IH].
  rewrite length_take. lia.
Qed.
