(* ===== verification/PyValue.v ===== *)
(** * Python values

    The dynamic values the program passes around: what a store holds, what the
    LangGraph serializer returns, what a condition is evaluated on. Dictionaries
    are association lists in insertion order, with keys distinct under Python's
    [==]. The file also has the two conversions between integers and strings the
    LangGraph and CrewAI adapters build keys with ([str(n)] and [int(s)]). *)

From Stdlib Require Import ZifyBool ZifyN.
From S2P Require Import Prelude.

Inductive pyval :=
  | PNone
  | PBool (b : bool)
  | PInt (z : Z)
  | PFloat (bits : Z)          (* IEEE 754 binary64, as its 64 bits *)
  | PStr (s : pystr)
  | PBytes (b : bytes)
  | PList (l : list pyval)
  | PTuple (l : list pyval)
  | PDict (d : list (pyval * pyval))
  | PObject (id : N).          (* any other object, by identity *)

Abbreviation pydict := (list (pyval * pyval)).

(** The induction principle that goes under the lists. *)
Definition pyval_nested_ind (P : pyval → Prop)
    (HNone : P PNone) (HBool : ∀ b, P (PBool b)) (HInt : ∀ z, P (PInt z))
    (HFloat : ∀ z, P (PFloat z)) (HStr : ∀ s, P (PStr s)) (HBytes : ∀ b, P (PBytes b))
    (HList : ∀ l, Forall P l → P (PList l)) (HTuple : ∀ l, Forall P l → P (PTuple l))
    (HDict : ∀ d, Forall (λ kv, P kv.1 ∧ P kv.2) d → P (PDict d))
    (HObject : ∀ n, P (PObject n)) : ∀ v, P v :=
  fix go v :=
    let goes := fix goes (l : list pyval) : Forall P l :=
      match l with
      | [] => Forall_nil_2 P
      | x :: l' => Forall_cons_2 P x l' (go x) (goes l')
      end in
    match v with
    | PNone => HNone | PBool b => HBool b | PInt z => HInt z | PFloat z => HFloat z
    | PStr s => HStr s | PBytes b => HBytes b
    | PList l => HList l (goes l)
    | PTuple l => HTuple l (goes l)
    | PDict d => HDict d ((fix goesd (d : pydict) : Forall (λ kv, P kv.1 ∧ P kv.2) d :=
        match d with
        | [] => Forall_nil_2 _
        | (k, x) :: d' => Forall_cons_2 _ (k, x) d' (conj (go k) (go x)) (goesd d')
        end) d)
    | PObject n => HObject n
    end.

(** ** Numbers, equality and truth *)

Fixpoint str_eqb (a b : pystr) : bool :=
  match a, b with
  | [], [] => true
  | x :: a', y :: b' => (x =? y)%N && str_eqb a' b'
  | _, _ => false
  end.

(** A number as mantissa and binary exponent, the way Python compares [int],
    [bool] and [float] exactly. *)
Inductive pynum :=
  | NFin (m e : Z)
  | NInf (neg : bool)
  | NNaN.

Definition num_of_bits (bits : Z) : pynum :=
  let neg := Z.testbit bits 63 in
  let ex := Z.land (Z.shiftr bits 52) 2047 in
  let man := Z.land bits (2 ^ 52 - 1) in
  let signed m := if neg then (- m)%Z else m in
  if (ex =? 2047)%Z then (if (man =? 0)%Z then NInf neg else NNaN)
  else if (ex =? 0)%Z then NFin (signed man) (-1074)
  else NFin (signed (man + 2 ^ 52)%Z) (ex - 1075).

Definition num_of (v : pyval) : option pynum :=
  match v with
  | PBool b => Some (NFin (if b then 1 else 0) 0)
  | PInt z => Some (NFin z 0)
  | PFloat bits => Some (num_of_bits bits)
  | _ => None
  end.

Definition num_eqb (x y : pynum) : bool :=
  match x, y with
  | NFin m1 e1, NFin m2 e2 =>
      let e := Z.min e1 e2 in
      (m1 * 2 ^ (e1 - e) =? m2 * 2 ^ (e2 - e))%Z
  | NInf a, NInf b => Bool.eqb a b
  | _, _ => false
  end.

(** Python's [==]. *)
Fixpoint py_eq (a b : pyval) {struct a} : bool :=
  let eqs := fix eqs (l k : list pyval) {struct l} : bool :=
    match l, k with
    | [], [] => true
    | x :: l', y :: k' => py_eq x y && eqs l' k'
    | _, _ => false
    end in
  match a, b with
  | PNone, PNone => true
  | PStr s, PStr t => str_eqb s t
  | PBytes x, PBytes y => bool_decide (x = y)
  | PList l, PList k => eqs l k
  | PTuple l, PTuple k => eqs l k
  | PDict d, PDict e =>
      (length d =? length e)%nat &&
      (fix all (d : pydict) : bool :=
         match d with
         | [] => true
         | (k, v) :: d' => existsb (λ '(k', v'), py_eq k k' && py_eq v v') e && all d'
         end) d
  | PObject n, PObject m => (n =? m)%N
  | (PBool _ | PInt _ | PFloat _), (PBool _ | PInt _ | PFloat _) =>
      match num_of a, num_of b with
      | Some x, Some y => num_eqb x y
      | _, _ => false
      end
  | _, _ => false
  end.

(** [bool(v)] *)
Definition truthy (v : pyval) : bool :=
  match v with
  | PNone => false
  | PBool b => b
  | PInt z => negb (z =? 0)%Z
  | PFloat bits => negb (Z.land bits (2 ^ 63 - 1) =? 0)%Z
  | PStr s => negb (bool_decide (s = []))
  | PBytes b => negb (bool_decide (b = []))
  | PList l | PTuple l => match l with [] => false | _ => true end
  | PDict d => match d with [] => false | _ => true end
  | PObject _ => true
  end.

Definition is_none (v : pyval) : bool := match v with PNone => true | _ => false end.
Definition is_dict (v : pyval) : bool := match v with PDict _ => true | _ => false end.

(** ** Dictionaries and sequences *)

Fixpoint dict_get (d : pydict) (k : pyval) : option pyval :=
  match d with
  | [] => None
  | (k', v) :: d' => if py_eq k' k then Some v else dict_get d' k
  end.

Definition dict_has (d : pydict) (k : pyval) : bool :=
  match dict_get d k with Some _ => true | None => false end.

(** [d[k] = v]: in place when the key is there, else at the end. *)
Fixpoint dict_set (d : pydict) (k v : pyval) : pydict :=
  match d with
  | [] => [(k, v)]
  | (k', v') :: d' => if py_eq k' k then (k', v) :: d' else (k', v') :: dict_set d' k v
  end.

(** [d.pop(k, ...)]: the dictionary without [k]. *)
Fixpoint dict_pop (d : pydict) (k : pyval) : pydict :=
  match d with
  | [] => []
  | (k', v') :: d' => if py_eq k' k then d' else (k', v') :: dict_pop d' k
  end.

(** A string key of the source. *)
Definition key (s : String.string) : pyval := PStr (lit s).
#[global] Arguments key : simpl never.

(** [v[k]] *)
Definition py_getitem (v k : pyval) : result pyval :=
  match v with
  | PDict d => or_raise KeyError (dict_get d k)
  | _ => Raise TypeError
  end.

(** [v.get(k)], and [v.get(k, default)] *)
Definition py_get_default (v k default : pyval) : result pyval :=
  match v with
  | PDict d => Ok (from_option id default (dict_get d k))
  | _ => Raise AttributeError
  end.
Definition py_get (v k : pyval) : result pyval := py_get_default v k PNone.

(** Is [p] a contiguous part of [s]? ([p in s] on strings) *)
Fixpoint is_infix (p s : pystr) : bool :=
  starts_with p s || match s with [] => false | _ :: s' => is_infix p s' end.

(** [k in v] *)
Definition py_in (k v : pyval) : result bool :=
  match v, k with
  | PDict d, _ => Ok (dict_has d k)
  | (PList l | PTuple l), _ => Ok (existsb (λ x, py_eq x k) l)
  | PStr s, PStr p => Ok (is_infix p s)
  | _, _ => Raise TypeError
  end.

(** [list(v)] / unpacking: the items an iteration over [v] yields. *)
Definition py_iter (v : pyval) : result (list pyval) :=
  match v with
  | PList l | PTuple l => Ok l
  | PStr s => Ok ((λ c, PStr [c]) <$> s)
  | PBytes b => Ok ((λ x, PInt (Z.of_N (Byte.to_N x))) <$> b)
  | PDict d => Ok (d.*1)
  | _ => Raise TypeError
  end.

(** [d.items()] *)
Definition py_items (v : pyval) : result pydict :=
  match v with PDict d => Ok d | _ => Raise AttributeError end.

(** [v[i]] for a constant non-negative index *)
Definition py_index (v : pyval) (i : nat) : result pyval :=
  match v with
  | PList l | PTuple l => or_raise IndexError (l !! i)
  | PStr s => or_raise IndexError ((λ c, PStr [c]) <$> s !! i)
  | PBytes b => or_raise IndexError ((λ x, PInt (Z.of_N (Byte.to_N x))) <$> b !! i)
  | PDict d => or_raise KeyError (dict_get d (PInt (Z.of_nat i)))
  | _ => Raise TypeError
  end.

(** [a, b, c, d = v] *)
Definition unpack4 (v : pyval) : result (pyval * pyval * pyval * pyval) :=
  l ← py_iter v;
  match l with
  | [a; b; c; d] => Ok (a, b, c, d)
  | _ => Raise ValueError
  end.

(** The string a value has to be where the program uses it as a store key. *)
Definition as_str (v : pyval) : result pystr :=
  match v with PStr s => Ok s | _ => Raise TypeError end.

Definition opt_str (o : option pystr) : pyval :=
  match o with Some s => PStr s | None => PNone end.

(** The string keys of a dictionary ([set(d)] where the keys are names). *)
Definition str_keys (v : pyval) : list pystr :=
  match v with
  | PDict d => omap (λ kv, match kv.1 with PStr s => Some s | _ => None end) d
  | _ => []
  end.

(** ** Integers and strings *)

Fixpoint digits_fuel (fuel : nat) (n : N) : pystr :=
  match fuel with
  | O => []
  | S fuel' => (if (n <? 10)%N then [] else digits_fuel fuel' (n / 10)) ++ [(48 + n mod 10)%N]
  end.

(** Decimal digits; [S (size n)] rounds are enough, since each divides by 10. *)
Definition digits (n : N) : pystr := digits_fuel (S (N.to_nat (N.size n))) n.

(** [str(z)] *)
Definition str_of_Z (z : Z) : pystr :=
  match z with
  | Z0 => [48%N]
  | Zpos p => digits (Npos p)
  | Zneg p => 45%N :: digits (Npos p)
  end.

Definition is_digit (c : N) : bool := (48 <=? c)%N && (c <=? 57)%N.

(** ASCII whitespace, as [int()] and [str.strip()] drop it. *)
Definition is_space (c : N) : bool :=
  ((9 <=? c)%N && (c <=? 13)%N) || ((28 <=? c)%N && (c <=? 32)%N).

Fixpoint lstrip (s : pystr) : pystr :=
  match s with
  | [] => []
  | c :: s' => if is_space c then lstrip s' else s
  end.

Definition strip (s : pystr) : pystr := reverse (lstrip (reverse (lstrip s))).

(** Digits with single underscores between them; [after] says whether the
    previous character was a digit. *)
Fixpoint parse_digits (s : pystr) (acc : N) (after : bool) : option N :=
  match s with
  | [] => if after then Some acc else None
  | c :: s' =>
      if is_digit c then parse_digits s' (acc * 10 + (c - 48)) true
      else if (c =? 95)%N && after then parse_digits s' acc false
      else None
  end.

(** [int(s)] on ASCII text; [None] is [ValueError]. *)
Definition py_int (s : pystr) : option Z :=
  match strip s with
  | [] => None
  | c :: s' =>
      if (c =? 45)%N then Z.opp <$> (Z.of_N <$> parse_digits s' 0 false)
      else if (c =? 43)%N then Z.of_N <$> parse_digits s' 0 false
      else Z.of_N <$> parse_digits (c :: s') 0 false
  end.

(** ** What the msgpack codecs carry unchanged *)

(** Length of the UTF-8 encoding of a code point. *)
Definition utf8_width (c : N) : N :=
  if (c <? 0x80)%N then 1 else if (c <? 0x800)%N then 2
  else if (c <? 0x10000)%N then 3 else 4.
Definition utf8_len (s : pystr) : N := foldr (λ c n, (utf8_width c + n)%N) 0%N s.

Definition len32 {A} (l : list A) : bool := (N.of_nat (length l) <? 2 ^ 32)%N.
Definition text_ok (s : pystr) : bool := forallb scalar s && (utf8_len s <? 2 ^ 32)%N.

Lemma text_ok_valid s : text_ok s = true → valid_text s.
Proof.
  unfold text_ok. intros [H _]%andb_true_iff. apply Forall_forall. intros c Hc.
  rewrite forallb_forall in H. apply H. by apply list_elem_of_In.
Qed.

Definition key_ok (k : pyval) : bool :=
  match k with
  | PNone | PBool _ => true
  | PInt z => (- 2 ^ 63 <=? z)%Z && (z <? 2 ^ 64)%Z
  | PStr s => text_ok s
  | PBytes b => len32 b
  | _ => false
  end.

Fixpoint keys_distinct (ks : list pyval) : bool :=
  match ks with
  | [] => true
  | k :: ks' => negb (existsb (λ k', py_eq k' k || py_eq k k') ks') && keys_distinct ks'
  end.

Fixpoint wire_ok (v : pyval) : bool :=
  match v with
  | PNone | PBool _ => true
  | PInt z => (- 2 ^ 63 <=? z)%Z && (z <? 2 ^ 64)%Z
  | PFloat bits => (0 <=? bits)%Z && (bits <? 2 ^ 64)%Z
  | PStr s => text_ok s
  | PBytes b => len32 b
  | PList l => len32 l && forallb wire_ok l
  | PDict d => len32 d && keys_distinct (d.*1) && forallb (λ kv, key_ok kv.1 && wire_ok kv.2) d
  | PTuple _ | PObject _ => false
  end.

(** Nesting depth: 0 for a value with no parts. *)
Fixpoint py_depth (v : pyval) : nat :=
  match v with
  | PList l | PTuple l => S (foldr (λ x n, Nat.max (py_depth x) n) 0 l)
  | PDict d => S (foldr (λ kv n, Nat.max (Nat.max (py_depth kv.1) (py_depth kv.2)) n) 0 d)
  | _ => 0
  end%nat.

(** A value that comes back from a msgpack store as it went in: no tuples (they
    come back as lists), integers of 64 bits, text without surrogates, 32-bit
    lengths, and at most 128 levels, the Rust codec's [MAX_DEPTH]. *)
Definition storable (v : pyval) : Prop := wire_ok v = true ∧ (py_depth v ≤ 128)%nat.

(** ** Lemmas: strings, equality, dictionaries *)

Lemma str_eqb_spec a b : reflect (a = b) (str_eqb a b).
Proof.
  revert b. induction a as [|x a IH]; intros [|y b]; simpl; try (constructor; congruence).
  destruct (N.eqb_spec x y) as [->|?]; simpl; [|constructor; congruence].
  destruct (IH b) as [->|?]; constructor; congruence.
Qed.

Lemma str_eqb_refl a : str_eqb a a = true.
Proof. by destruct (str_eqb_spec a a). Qed.

Lemma str_eqb_eq a b : str_eqb a b = true ↔ a = b.
Proof. destruct (str_eqb_spec a b); split; congruence. Qed.

Lemma str_eqb_neq a b : a ≠ b → str_eqb a b = false.
Proof. destruct (str_eqb_spec a b); congruence. Qed.

Lemma py_eq_str a b : py_eq (PStr a) (PStr b) = str_eqb a b.
Proof. done. Qed.

Lemma dict_get_set_eq d s v : dict_get (dict_set d (PStr s) v) (PStr s) = Some v.
Proof.
  induction d as [|[k x] d IH]; cbn -[str_eqb py_eq].
  - by rewrite py_eq_str, str_eqb_refl.
  - destruct (py_eq k (PStr s)) eqn:E; cbn -[py_eq]; by rewrite E.
Qed.

Lemma py_eq_str_r k s : py_eq k (PStr s) = true ↔ k = PStr s.
Proof.
  split; [|intros ->; apply str_eqb_refl].
  destruct k; simpl; try done. rewrite str_eqb_eq. by intros ->.
Qed.

Lemma dict_get_set_ne d s t v :
  s ≠ t → dict_get (dict_set d (PStr s) v) (PStr t) = dict_get d (PStr t).
Proof.
  intros Hne. induction d as [|[k x] d IH]; cbn -[py_eq].
  - by rewrite py_eq_str, str_eqb_neq.
  - destruct (py_eq k (PStr s)) eqn:E; cbn -[py_eq].
    + apply py_eq_str_r in E as ->. by rewrite py_eq_str, str_eqb_neq.
    + by rewrite IH.
Qed.

Lemma dict_get_pop_ne d s t :
  s ≠ t → dict_get (dict_pop d (PStr s)) (PStr t) = dict_get d (PStr t).
Proof.
  intros Hne. induction d as [|[k x] d IH]; cbn -[py_eq]; [done|].
  destruct (py_eq k (PStr s)) eqn:E; cbn -[py_eq].
  - apply py_eq_str_r in E as ->. by rewrite py_eq_str, str_eqb_neq.
  - by rewrite IH.
Qed.

Lemma dict_get_None d s : PStr s ∉ d.*1 → dict_get d (PStr s) = None.
Proof.
  induction d as [|[k x] d IH]; cbn -[py_eq]; [done|].
  intros [Hne Hin]%not_elem_of_cons. destruct (py_eq k (PStr s)) eqn:E; [|auto].
  apply py_eq_str_r in E. congruence.
Qed.

Lemma dict_get_pop_eq d s : NoDup d.*1 → dict_get (dict_pop d (PStr s)) (PStr s) = None.
Proof.
  induction d as [|[k x] d IH]; cbn -[py_eq]; [done|]. intros [Hk Hd]%NoDup_cons.
  destruct (py_eq k (PStr s)) eqn:E; cbn -[py_eq].
  - apply py_eq_str_r in E as ->. by apply dict_get_None.
  - rewrite E. auto.
Qed.

(** *** [int(str(z)) = z] *)

Lemma digits_fuel_is_digit fuel n : Forall (λ c, is_digit c = true) (digits_fuel fuel n).
Proof.
  revert n. induction fuel as [|fuel IH]; intros n; cbn [digits_fuel]; [constructor|].
  apply Forall_app. split; [by case_match|]. constructor; [|constructor].
  unfold is_digit. pose proof (N.mod_lt n 10 ltac:(lia)). rewrite andb_true_iff, !N.leb_le.
  generalize dependent (n mod 10)%N. lia.
Qed.

Definition dec_value (l : pystr) (acc : N) : N := foldl (λ a c, (a * 10 + (c - 48))%N) acc l.

Lemma parse_digits_all l acc after :
  Forall (λ c, is_digit c = true) l → l ≠ [] ∨ after = true →
  parse_digits l acc after = Some (dec_value l acc).
Proof.
  intros Hl. revert acc after. induction Hl as [|c l Hc Hl IH]; intros acc after Hne; simpl.
  - by destruct Hne as [| ->].
  - rewrite Hc, IH by auto. done.
Qed.

Lemma dec_value_digits fuel n :
  (n < 2 ^ N.of_nat fuel)%N → dec_value (digits_fuel fuel n) 0 = n.
Proof.
  revert n. induction fuel as [|fuel IH]; intros n Hn.
  { simpl in *. by destruct n; [|lia]. }
  cbn [digits_fuel]. unfold dec_value in *. rewrite foldl_app. destruct (N.ltb_spec n 10).
  - cbn [foldl]. rewrite N.mod_small by done. lia.
  - rewrite IH.
    + cbn [foldl]. pose proof (N.div_mod n 10 ltac:(lia)).
      generalize dependent (n mod 10)%N. generalize dependent (n / 10)%N. lia.
    + rewrite Nat2N.inj_succ, N.pow_succ_r' in Hn. apply N.Div0.div_lt_upper_bound. lia.
Qed.

Lemma digits_not_nil n : digits n ≠ [].
Proof. unfold digits. cbn [digits_fuel]. intros [_ ?]%app_eq_nil. done. Qed.

Lemma digits_is_digit n : Forall (λ c, is_digit c = true) (digits n).
Proof. apply digits_fuel_is_digit. Qed.

Lemma parse_digits_digits n : parse_digits (digits n) 0 false = Some n.
Proof.
  rewrite parse_digits_all by auto using digits_is_digit, digits_not_nil.
  f_equal. apply dec_value_digits. rewrite Nat2N.inj_succ, N2Nat.id.
  eapply N.lt_trans; [apply N.size_gt|]. apply N.pow_lt_mono_r; lia.
Qed.

Lemma lstrip_id s : match s with c :: _ => is_space c = false | [] => True end → lstrip s = s.
Proof. destruct s; simpl; [done|]. by intros ->. Qed.

(** Text with no whitespace at either end is left alone. *)
Lemma strip_id s : Forall (λ c, is_space c = false) s → strip s = s.
Proof.
  intros H. unfold strip. rewrite (lstrip_id s) by (by destruct H).
  rewrite lstrip_id, reverse_involutive; [done|].
  assert (Forall (λ c, is_space c = false) (reverse s)) as Hr by (by apply Forall_reverse).
  by destruct Hr.
Qed.

Lemma digit_not_space c : is_digit c = true → is_space c = false.
Proof. unfold is_digit, is_space. lia. Qed.

(** Characters of a decimal integer: digits and the minus sign. *)
Lemma str_of_Z_chars z : Forall (λ c, is_digit c = true ∨ c = 45%N) (str_of_Z z).
Proof.
  assert (∀ n, Forall (λ c, is_digit c = true ∨ c = 45%N) (digits n)) as Hd.
  { intros n. eapply Forall_impl; [apply digits_is_digit|]. auto. }
  destruct z; cbn [str_of_Z]; [|by apply Hd|].
  - constructor; [by left|constructor].
  - constructor; [by right|apply Hd].
Qed.

Lemma str_of_Z_not_elem c z : is_digit c = false → c ≠ 45%N → c ∉ str_of_Z z.
Proof.
  intros Hc Hm Hin. pose proof (str_of_Z_chars z) as H.
  rewrite Forall_forall in H. destruct (H _ Hin); congruence.
Qed.

Lemma str_of_Z_valid z : valid_text (str_of_Z z).
Proof.
  eapply Forall_impl; [apply str_of_Z_chars|]. intros c [H| ->]; [|done].
  unfold is_digit in H. unfold scalar, is_surrogate. lia.
Qed.

Lemma py_int_str_of_Z z : py_int (str_of_Z z) = Some z.
Proof.
  unfold py_int. rewrite strip_id.
  2:{ eapply Forall_impl; [apply str_of_Z_chars|].
      intros c [?| ->]; auto using digit_not_space. }
  destruct z as [|p|p]; [done| |].
  - cbn [str_of_Z]. pose proof (parse_digits_digits (Npos p)) as Hp.
    pose proof (digits_is_digit (Npos p)) as Hd.
    destruct (digits (Npos p)) as [|c l]; [by simpl in Hp|].
    apply Forall_cons_iff in Hd as [Hc _]. unfold is_digit in Hc.
    destruct (N.eqb_spec c 45); [lia|]. destruct (N.eqb_spec c 43); [lia|]. by rewrite Hp.
  - simpl. by rewrite parse_digits_digits.
Qed.
