(* ===== verification/Interleave.v ===== *)
(** * Interleaved calls

    Calls that run concurrently (threads, or tasks of an event loop) as a list of
    tasks over a shared state: each step picks a task and runs it up to its next
    point of interference. The shared invariants, the bound on the length of a run
    and the account of the handles (connections, pools) the calls open and close. *)

From stdpp Require Import relations.
From S2P Require Import Prelude.

Lemma delete_insert_same {A : Type} (i : nat) (x : A) (l : list A) :
  delete i (<[i := x]> l) = delete i l.
Proof. revert i. induction l as [|y l IH]; intros [|i]; cbn; f_equal; auto. Qed.

(** ** Tasks over a shared state

    [task_step ok s t] is the next step of task [t]; [ok] says whether the outside
    world (a database) does what the step asks. A task without a step has ended. *)

Section interleave.
Context {S T : Type} (task_step : bool → S → T → option (S * T)).
Implicit Types (s : S) (t : T) (ts : list T).

Inductive istep : S * list T → S * list T → Prop :=
  | istep_task ok i s t s' t' ts :
      ts !! i = Some t → task_step ok s t = Some (s', t') →
      istep (s, ts) (s', <[i := t']> ts).

(** A schedule names the task of each step; the steps it names that cannot be taken
    are skipped. *)
Fixpoint run_schedule (schedule : list (nat * bool)) (c : S * list T) : S * list T :=
  match schedule with
  | [] => c
  | (i, ok) :: schedule' =>
      run_schedule schedule'
        match c.2 !! i ≫= task_step ok c.1 with
        | Some (s', t') => (s', <[i := t']> c.2)
        | None => c
        end
  end.

Lemma run_schedule_steps schedule c : rtc istep c (run_schedule schedule c).
Proof.
  revert c. induction schedule as [|[i ok] schedule IH]; intros [s ts]; cbn; [done|].
  destruct (ts !! i) as [t|] eqn:Ei; cbn; [|apply IH].
  destruct (task_step ok s t) as [[s' t']|] eqn:Et; [|apply IH].
  eapply rtc_l; [by econstructor|apply IH].
Qed.

(** Whether every step of a schedule can be taken. *)
Fixpoint effective (schedule : list (nat * bool)) (c : S * list T) : bool :=
  match schedule with
  | [] => true
  | (i, ok) :: schedule' =>
      match c.2 !! i ≫= task_step ok c.1 with
      | Some (s', t') => effective schedule' (s', <[i := t']> c.2)
      | None => false
      end
  end.

Lemma run_schedule_nsteps schedule c :
  effective schedule c = true → nsteps istep (length schedule) c (run_schedule schedule c).
Proof.
  revert c. induction schedule as [|[i ok] schedule IH]; intros [s ts]; cbn; [constructor|].
  destruct (ts !! i) as [t|] eqn:Ei; cbn; [|done].
  destruct (task_step ok s t) as [[s' t']|] eqn:Et; [|done]. intros He.
  eapply nsteps_l; [by econstructor|by apply IH].
Qed.

(** An invariant is shown one task at a time: the stepping task in front, the others
    behind it in any order. *)
Lemma steps_invariant (I : S → list T → Prop) c c' :
  (∀ s ts ts', ts ≡ₚ ts' → I s ts → I s ts') →
  (∀ ok s t s' t' ts, task_step ok s t = Some (s', t') → I s (t :: ts) → I s' (t' :: ts)) →
  rtc istep c c' → I c.1 c.2 → I c'.1 c'.2.
Proof.
  intros HP Hstep. induction 1 as [|c1 c2 c3 H12 _ IH]; [done|].
  intros Hc. apply IH. clear IH. destruct H12 as [ok i s t s' t' ts Hi Ht]. cbn in *.
  assert (i < length ts) as Hlt by (by apply lookup_lt_is_Some; exists t).
  apply (HP _ (t' :: delete i ts)).
  { rewrite (delete_Permutation (<[i:=t']> ts) i t') by by rewrite list_lookup_insert_eq.
    by rewrite delete_insert_same. }
  eapply Hstep; [done|]. eapply HP; [|done]. by apply delete_Permutation.
Qed.

(** *** Runs are bounded *)

Context (weight : S → nat) (rank : T → nat).

Definition total_rank (c : S * list T) : nat := weight c.1 + sum_list_with rank c.2.

Lemma sum_list_with_insert ts i t t' :
  ts !! i = Some t →
  sum_list_with rank (<[i := t']> ts) + rank t = sum_list_with rank ts + rank t'.
Proof.
  revert i. induction ts as [|u ts IH]; intros [|i] E; cbn in E; simplify_eq; [cbn; lia|].
  specialize (IH _ E). change (<[Datatypes.S i:=t']> (u :: ts)) with (u :: <[i:=t']> ts). cbn. lia.
Qed.

Lemma steps_bounded n c c' :
  (∀ ok s t s' t', task_step ok s t = Some (s', t') → weight s' + rank t' < weight s + rank t) →
  nsteps istep n c c' → n + total_rank c' ≤ total_rank c.
Proof.
  intros Hdec. induction 1 as [|n c1 c2 c3 H12 _ IH]; [lia|].
  destruct H12 as [ok i s t s' t' ts Hi Ht]. unfold total_rank in *. cbn in *.
  pose proof (sum_list_with_insert ts i t t' Hi). pose proof (Hdec _ _ _ _ _ Ht). lia.
Qed.

Lemma total_rank_bound k s ts :
  Forall (λ t, rank t ≤ k) ts → total_rank (s, ts) ≤ weight s + k * length ts.
Proof.
  intros Hk. unfold total_rank. cbn.
  enough (sum_list_with rank ts ≤ k * length ts) by lia.
  induction Hk as [|t ts Ht _ IH]; cbn; lia.
Qed.

(** Where a run can go no further, no task has a step. *)
Lemma stuck_tasks s ts ok :
  (∀ c, ¬ istep (s, ts) c) → Forall (λ t, task_step ok s t = None) ts.
Proof.
  intros Hstuck. apply Forall_lookup. intros i t Hi.
  destruct (task_step ok s t) as [[s' t']|] eqn:Ht; [|done]. edestruct Hstuck. by econstructor.
Qed.
End interleave.

(** Ended tasks alone have no step. *)
Lemma ended_stuck {S T : Type} (task_step : bool → S → T → option (S * T)) (ended : T → bool) s ts c :
  (∀ ok s t, ended t = true → task_step ok s t = None) →
  Forall (λ t, ended t = true) ts → ¬ istep task_step (s, ts) c.
Proof.
  intros He Hts Hs. inversion Hs; subst. rewrite Forall_lookup in Hts.
  rewrite He in *; [done|by eapply Hts].
Qed.

(** Tasks whose call has not begun hold nothing. *)
Lemma bind_called {A T : Type} (f : T → list A) (called : T → bool) ts :
  (∀ t, called t = true → f t = []) → Forall (λ t, called t = true) ts → ts ≫= f = [].
Proof.
  intros Hf. induction 1 as [|t ts Ht _ IH]; [done|]. rewrite bind_cons, IH, Hf; done.
Qed.

(** ** Handles

    The connections (or pools) a program has opened and not closed. [owns l h] is an
    exact account of them: every open handle is in [l], once. *)

Record Handles := { h_open : gset nat; h_next : nat }.

Definition no_handles : Handles := {| h_open := ∅; h_next := 0 |}.
Definition h_new (h : Handles) : Handles :=
  {| h_open := {[h_next h]} ∪ h_open h; h_next := S (h_next h) |}.
Definition h_close (c : nat) (h : Handles) : Handles :=
  {| h_open := h_open h ∖ {[c]}; h_next := h_next h |}.

Definition owns (l : list nat) (h : Handles) : Prop :=
  l ≡ₚ elements (h_open h) ∧ ∀ c, c ∈ h_open h → c < h_next h.

#[global] Instance owns_proper : Proper ((≡ₚ) ==> (=) ==> iff) owns.
Proof. intros l l' Hl h ? <-. unfold owns. by rewrite Hl. Qed.

Lemma owns_none : owns [] no_handles.
Proof. split; [done|]. cbn. set_solver. Qed.

Lemma owns_elem l h c : owns l h → c ∈ l ↔ c ∈ h_open h.
Proof. intros [Hl _]. by rewrite Hl, elem_of_elements. Qed.

Lemma owns_NoDup l h : owns l h → NoDup l.
Proof. intros [Hl _]. rewrite Hl. apply NoDup_elements. Qed.

Lemma owns_lt l h c : owns l h → c ∈ l → c < h_next h.
Proof. intros H Hc. apply H. by apply (owns_elem l). Qed.

Lemma owns_new l h : owns l h → owns (h_next h :: l) (h_new h).
Proof.
  intros [Hl Hb]. split; cbn.
  - rewrite elements_union_singleton, Hl; [done|]. intros H%Hb. lia.
  - intros c [->%elem_of_singleton|H%Hb]%elem_of_union; lia.
Qed.

Lemma owns_close c l h : owns (c :: l) h → owns l (h_close c h).
Proof.
  intros H. pose proof (owns_NoDup _ _ H) as [Hc Hnd]%NoDup_cons. split; cbn.
  - apply NoDup_Permutation; [done|apply NoDup_elements|]. intros x.
    rewrite elem_of_elements, elem_of_difference, elem_of_singleton, <-(owns_elem _ _ x H), elem_of_cons.
    split; [|tauto]. intros Hx. split; [tauto|]. by intros ->.
  - intros x [Hx _]%elem_of_difference. by apply H.
Qed.

Lemma owns_size l h : owns l h → size (h_open h) = length l.
Proof. intros [-> _]. done. Qed.
