(* ===== verification/Codec.v ===== *)
(** * The msgpack codec

    [rust/src/codec.rs]: [encode] and [decode], as the in-memory store, the dumps
    and [swarmstate.dumps]/[loads] use them. Bytes are written most significant
    first; the reader's cursor is the list of the bytes that remain. The depth
    check of the reader is the structural argument of [read_obj]; its loops, whose
    length comes from the input, take the input's length as fuel, which is enough
    since every round reads a byte ([read_obj_fuel]). *)

From Stdlib Require Import ZifyBool ZifyN.
From S2P Require Import Prelude PyValue.

(** [MAX_DEPTH] *)
Definition MAX_DEPTH : nat := 128.

(** ** Bytes and machine integers *)

Definition n8 (b : Byte.byte) : N := Byte.to_N b.
Definition b8 (n : N) : Byte.byte := from_option id Byte.x00 (Byte.of_N (n mod 256)).

(** [v.to_be_bytes()] of a [w]-byte integer *)
Fixpoint to_be (w : nat) (n : N) : bytes :=
  match w with
  | O => []
  | S w' => b8 (n / 256 ^ N.of_nat w') :: to_be w' n
  end.

#[global] Arguments to_be : simpl never.

(** [raw.iter().fold(0, |acc, b| (acc << 8) | b)], [from_be_bytes] *)
Definition of_be (raw : bytes) : N := foldl (λ acc b, N.lor (N.shiftl acc 8) (n8 b)) 0%N raw.

(** Two's complement on [w] bytes. *)
Definition to_unsigned (w : nat) (z : Z) : N := Z.to_N (z mod 2 ^ (8 * Z.of_nat w)).
Definition to_signed (w : nat) (n : N) : Z :=
  if (2 * Z.of_N n <? 2 ^ (8 * Z.of_nat w))%Z then Z.of_N n
  else (Z.of_N n - 2 ^ (8 * Z.of_nat w))%Z.

(** ** UTF-8 *)

(** The bytes of one code point. *)
Definition utf8_char (c : N) : list N :=
  if (c <? 0x80)%N then [c]
  else if (c <? 0x800)%N then [0xc0 + c / 64; 0x80 + c mod 64]%N
  else if (c <? 0x10000)%N then [0xe0 + c / 4096; 0x80 + (c / 64) mod 64; 0x80 + c mod 64]%N
  else [0xf0 + c / 262144; 0x80 + (c / 4096) mod 64; 0x80 + (c / 64) mod 64; 0x80 + c mod 64]%N.

(** [s.encode()]: a lone surrogate cannot be encoded. *)
Definition utf8_encode (s : pystr) : result bytes :=
  if forallb scalar s then Ok (b8 <$> (s ≫= utf8_char)) else Raise UnicodeEncodeError.

(** A continuation byte. *)
Definition utf8_cont (x : N) : bool := (0x80 <=? x)%N && (x <? 0xc0)%N.

(** [std::str::from_utf8] on byte values: shortest forms only, no surrogates. *)
Fixpoint utf8_decode_n (l : list N) : option pystr :=
  match l with
  | [] => Some []
  | x :: l1 =>
      if (x <? 0x80)%N then (cons x) <$> utf8_decode_n l1
      else match l1 with
      | [] => None
      | y :: l2 =>
          if (0xc0 <=? x)%N && (x <? 0xe0)%N then
            let c := ((x - 0xc0) * 64 + (y - 0x80))%N in
            if utf8_cont y && (0x80 <=? c)%N then (cons c) <$> utf8_decode_n l2 else None
          else match l2 with
          | [] => None
          | z :: l3 =>
              if (0xe0 <=? x)%N && (x <? 0xf0)%N then
                let c := ((x - 0xe0) * 4096 + (y - 0x80) * 64 + (z - 0x80))%N in
                if utf8_cont y && utf8_cont z && (0x800 <=? c)%N && scalar c
                then (cons c) <$> utf8_decode_n l3 else None
              else match l3 with
              | [] => None
              | w :: l4 =>
                  if (0xf0 <=? x)%N && (x <? 0xf8)%N then
                    let c := ((x - 0xf0) * 262144 + (y - 0x80) * 4096 + (z - 0x80) * 64
                              + (w - 0x80))%N in
                    if utf8_cont y && utf8_cont z && utf8_cont w && (0x10000 <=? c)%N && scalar c
                    then (cons c) <$> utf8_decode_n l4 else None
                  else None
              end
          end
      end
  end.

Definition utf8_decode (raw : bytes) : option pystr := utf8_decode_n (n8 <$> raw).

(** ** Encoding *)

(** [u32_len] *)
Definition u32_len (len : N) : result N := if (len <? 2 ^ 32)%N then Ok len else Raise ValueError.

Definition write_str_header (len : N) : result bytes :=
  if (len <=? 31)%N then Ok [b8 (N.lor 0xa0 len)]
  else if (len <=? 255)%N then Ok [b8 0xd9; b8 len]
  else if (len <=? 65535)%N then Ok (b8 0xda :: to_be 2 len)
  else n ← u32_len len; Ok (b8 0xdb :: to_be 4 n).

Definition write_bin_header (len : N) : result bytes :=
  if (len <=? 255)%N then Ok [b8 0xc4; b8 len]
  else if (len <=? 65535)%N then Ok (b8 0xc5 :: to_be 2 len)
  else n ← u32_len len; Ok (b8 0xc6 :: to_be 4 n).

Definition write_array_header (len : N) : result bytes :=
  if (len <=? 15)%N then Ok [b8 (N.lor 0x90 len)]
  else if (len <=? 65535)%N then Ok (b8 0xdc :: to_be 2 len)
  else n ← u32_len len; Ok (b8 0xdd :: to_be 4 n).

Definition write_map_header (len : N) : result bytes :=
  if (len <=? 15)%N then Ok [b8 (N.lor 0x80 len)]
  else if (len <=? 65535)%N then Ok (b8 0xde :: to_be 2 len)
  else n ← u32_len len; Ok (b8 0xdf :: to_be 4 n).

(** [write_i64], on a value of that type *)
Definition write_i64 (v : Z) : bytes :=
  let between a b := (a <=? v)%Z && (v <=? b)%Z in
  if between 0%Z 127%Z then [b8 (to_unsigned 1 v)]
  else if between (-32)%Z (-1)%Z then [b8 (to_unsigned 1 v)]
  else if between 128%Z 255%Z then [b8 0xcc; b8 (to_unsigned 1 v)]
  else if between 256%Z 65535%Z then b8 0xcd :: to_be 2 (to_unsigned 2 v)
  else if between 65536%Z 4294967295%Z then b8 0xce :: to_be 4 (to_unsigned 4 v)
  else if (4294967296 <=? v)%Z then b8 0xcf :: to_be 8 (to_unsigned 8 v)
  else if between (-128)%Z (-33)%Z then [b8 0xd0; b8 (to_unsigned 1 v)]
  else if between (-32768)%Z (-129)%Z then b8 0xd1 :: to_be 2 (to_unsigned 2 v)
  else if between (-2147483648)%Z (-32769)%Z then b8 0xd2 :: to_be 4 (to_unsigned 4 v)
  else b8 0xd3 :: to_be 8 (to_unsigned 8 v).

(** [write_u64] *)
Definition write_u64 (v : Z) : bytes := b8 0xcf :: to_be 8 (to_unsigned 8 v).

(** The [PyInt] case: [extract::<i64>], else [extract::<u64>], else out of range. *)
Definition write_int (z : Z) : result bytes :=
  if (- 2 ^ 63 <=? z)%Z && (z <? 2 ^ 63)%Z then Ok (write_i64 z)
  else if (0 <=? z)%Z && (z <? 2 ^ 64)%Z then Ok (write_u64 z)
  else Raise ValueError.

(** The loops over the items of a list and of a dict, given the writer of an item. *)
Definition write_items (item : pyval → result bytes) : list pyval → result bytes :=
  fix go l :=
    match l with
    | [] => Ok []
    | x :: l' => a ← item x; r ← go l'; Ok (a ++ r)
    end.

Definition write_pairs (item : pyval → result bytes) : pydict → result bytes :=
  fix go d :=
    match d with
    | [] => Ok []
    | (k, x) :: d' => a ← item k; b ← item x; r ← go d'; Ok (a ++ b ++ r)
    end.

(** [write_obj] *)
Fixpoint write_obj (v : pyval) (depth : nat) {struct v} : result bytes :=
  if (MAX_DEPTH <? depth)%nat then Raise ValueError
  else match v with
  | PStr s =>
      text ← utf8_encode s;
      h ← write_str_header (N.of_nat (length text));
      Ok (h ++ text)
  | PDict d =>
      h ← write_map_header (N.of_nat (length d));
      body ← write_pairs (λ x, write_obj x (S depth)) d;
      Ok (h ++ body)
  | PList l | PTuple l =>
      h ← write_array_header (N.of_nat (length l));
      body ← write_items (λ x, write_obj x (S depth)) l;
      Ok (h ++ body)
  | PNone => Ok [b8 0xc0]
  | PBool b => Ok [b8 (if b then 0xc3 else 0xc2)]
  | PInt z => write_int z
  | PFloat bits => Ok (b8 0xcb :: to_be 8 (Z.to_N bits))
  | PBytes b => h ← write_bin_header (N.of_nat (length b)); Ok (h ++ b)
  | PObject _ => Raise TypeError
  end.

(** [encode] *)
Definition encode (v : pyval) : result bytes := write_obj v 0.

(** A Python [str] as a Rust [String]. *)
Definition as_string (s : pystr) : result pystr :=
  if decide (valid_text s) then Ok s else Raise UnicodeEncodeError.
Definition as_opt_string (p : option pystr) : result (option pystr) :=
  match p with None => Ok None | Some s => t ← as_string s; Ok (Some t) end.

(** ** Decoding *)

(** [Reader::byte] *)
Definition read_byte : PyM bytes Byte.byte := act (λ data,
  match data with
  | [] => (Raise ValueError, data)
  | b :: data' => (Ok b, data')
  end).

(** [Reader::take] *)
Definition read_take (n : N) : PyM bytes bytes := act (λ data,
  if (N.of_nat (length data) <? n)%N then (Raise ValueError, data)
  else (Ok (take (N.to_nat n) data), drop (N.to_nat n) data)).

(** [Reader::len_of] *)
Definition read_len (width : nat) : PyM bytes N :=
  raw ← read_take (N.of_nat width); mret (of_be raw).

(** [f32::from_bits(bits) as f64], as the bits of the result *)
Definition f64_of_f32 (bits : N) : Z :=
  let sign := (bits / 2 ^ 31)%N in
  let e := ((bits / 2 ^ 23) mod 256)%N in
  let m := (bits mod 2 ^ 23)%N in
  Z.of_N (sign * 2 ^ 63 +
    (if e =? 255 then 2047 * 2 ^ 52 + (if m =? 0 then 0 else 2 ^ 51 + (m mod 2 ^ 22) * 2 ^ 29)
     else if e =? 0 then
       if m =? 0 then 0
       else let k := N.log2 m in (874 + k) * 2 ^ 52 + (m - 2 ^ k) * 2 ^ (52 - k)
     else (e + 896) * 2 ^ 52 + m * 2 ^ 29))%N.

(** [read_str]: text, or the raw bytes when it is not UTF-8 *)
Definition read_str (len : N) : PyM bytes pyval :=
  raw ← read_take len;
  mret (match utf8_decode raw with Some text => PStr text | None => PBytes raw end).

Definition read_bin (len : N) : PyM bytes pyval := raw ← read_take len; mret (PBytes raw).

(** [hash(k)]: whether a value can be a key of a dict *)
Fixpoint hashable (v : pyval) : bool :=
  match v with
  | PList _ | PDict _ => false
  | PTuple l => forallb hashable l
  | _ => true
  end.

(** [dict.set_item(k, v)] *)
Definition dict_insert (d : pydict) (k v : pyval) : result pydict :=
  if hashable k then Ok (dict_set d k v) else Raise TypeError.

(** The loops of [read_array] and [read_map], given the reader of an item. *)
Fixpoint read_items (item : PyM bytes pyval) (fuel : nat) (n : N) : PyM bytes (list pyval) :=
  if (n =? 0)%N then mret []
  else match fuel with
  | O => out_of_fuel
  | S fuel' => x ← item; l ← read_items item fuel' (n - 1); mret (x :: l)
  end.

Fixpoint read_pairs (item : PyM bytes pyval) (fuel : nat) (n : N) (d : pydict)
    : PyM bytes pydict :=
  if (n =? 0)%N then mret d
  else match fuel with
  | O => out_of_fuel
  | S fuel' =>
      k ← item; v ← item;
      d' ← lift (dict_insert d k v);
      read_pairs item fuel' (n - 1) d'
  end.

Definition read_array (item : PyM bytes pyval) (fuel : nat) (n : N) : PyM bytes pyval :=
  l ← read_items item fuel n; mret (PList l).
Definition read_map (item : PyM bytes pyval) (fuel : nat) (n : N) : PyM bytes pyval :=
  d ← read_pairs item fuel n []; mret (PDict d).

(** The values of one byte, of [n] bytes. *)
Definition read_uint (w : nat) : PyM bytes pyval := n ← read_len w; mret (PInt (Z.of_N n)).
Definition read_sint (w : nat) : PyM bytes pyval := n ← read_len w; mret (PInt (to_signed w n)).

(** What follows a marker. *)
Definition read_marked (item : PyM bytes pyval) (fuel : nat) (m : N) : PyM bytes pyval :=
  if (m <=? 0x7f)%N then mret (PInt (Z.of_N m))
  else if (m <=? 0x8f)%N then read_map item fuel (N.land m 0x0f)
  else if (m <=? 0x9f)%N then read_array item fuel (N.land m 0x0f)
  else if (m <=? 0xbf)%N then read_str (N.land m 0x1f)
  else if (0xe0 <=? m)%N then mret (PInt (to_signed 1 m))
  else match m with
  | 0xc0%N => mret PNone
  | 0xc2%N => mret (PBool false)
  | 0xc3%N => mret (PBool true)
  | 0xc4%N => n ← read_len 1; read_bin n
  | 0xc5%N => n ← read_len 2; read_bin n
  | 0xc6%N => n ← read_len 4; read_bin n
  | 0xca%N => n ← read_len 4; mret (PFloat (f64_of_f32 n))
  | 0xcb%N => n ← read_len 8; mret (PFloat (Z.of_N n))
  | 0xcc%N => read_uint 1
  | 0xcd%N => read_uint 2
  | 0xce%N => read_uint 4
  | 0xcf%N => read_uint 8
  | 0xd0%N => read_sint 1
  | 0xd1%N => read_sint 2
  | 0xd2%N => read_sint 4
  | 0xd3%N => read_sint 8
  | 0xd9%N => n ← read_len 1; read_str n
  | 0xda%N => n ← read_len 2; read_str n
  | 0xdb%N => n ← read_len 4; read_str n
  | 0xdc%N => n ← read_len 2; read_array item fuel n
  | 0xdd%N => n ← read_len 4; read_array item fuel n
  | 0xde%N => n ← read_len 2; read_map item fuel n
  | 0xdf%N => n ← read_len 4; read_map item fuel n
  | _ => raise ValueError       (* extension types, and the reserved 0xc1 *)
  end.

(** [read_obj]: [levels] is [MAX_DEPTH + 1 - depth]. *)
Fixpoint read_obj (levels : nat) (fuel : nat) : PyM bytes pyval :=
  match levels with
  | O => raise ValueError
  | S levels' =>
      marker ← read_byte;
      read_marked (read_obj levels' fuel) fuel (n8 marker)
  end.

(** [decode]: bytes after the first value are ignored. *)
Definition decode (raw : bytes) : result pyval := (read_obj (S MAX_DEPTH) (length raw) raw).1.

(** What a value comes back as: tuples as lists. *)
Fixpoint canon (v : pyval) : pyval :=
  match v with
  | PList l | PTuple l => PList (canon <$> l)
  | PDict d => PDict ((λ kv, (canon kv.1, canon kv.2)) <$> d)
  | _ => v
  end.

Example decode_encode_example :
  (b ← encode (PDict [(key "a", PTuple [PInt (-70000); PBool true; PNone]);
                      (key "b", PBytes [Byte.x00; Byte.xff])]);
   decode b) =
  Ok (PDict [(key "a", PList [PInt (-70000); PBool true; PNone]);
             (key "b", PBytes [Byte.x00; Byte.xff])]).
Proof. vm_compute. reflexivity. Qed.
