(* ===== verification/CodecLemmas.v ===== *)
(** * Lemmas on the codec: bytes, UTF-8, headers *)

From Stdlib Require Import ZifyBool ZifyN.
From S2P Require Import Prelude PyValue Codec.

(** ** Bytes *)

Lemma n8_lt b : (n8 b < 256)%N.
Proof. unfold n8. pose proof (Byte.to_N_bounded b). lia. Qed.

Lemma n8_b8 n : n8 (b8 n) = (n mod 256)%N.
Proof.
  unfold b8, n8. pose proof (N.mod_lt n 256 ltac:(done)).
  destruct (Byte.of_N (n mod 256)) as [b|] eqn:E; simpl.
  - by apply Byte.to_of_N in E.
  - apply Byte.of_N_None_iff in E. lia.
Qed.

Lemma n8_b8_small n : (n < 256)%N → n8 (b8 n) = n.
Proof. intros. rewrite n8_b8. by apply N.mod_small. Qed.

Lemma b8_n8 b : b8 (n8 b) = b.
Proof. unfold b8. rewrite N.mod_small by apply n8_lt. unfold n8. by rewrite Byte.of_to_N. Qed.

Lemma lor_shift k a b : (b < 2 ^ k)%N → N.lor (N.shiftl a k) b = (a * 2 ^ k + b)%N.
Proof.
  intros Hb. rewrite <-N.lxor_lor, <-N.add_nocarry_lxor, N.shiftl_mul_pow2; [done| |];
    apply N.bits_inj; intros i; rewrite N.land_spec, N.bits_0;
    (destruct (N.lt_ge_cases i k) as [Hi|Hi];
      [by rewrite N.shiftl_spec_low|];
      rewrite <-(N.mod_small b (2 ^ k)) by done; rewrite N.mod_pow2_bits_high by done;
      apply andb_false_r).
Qed.

Lemma of_be_app raw b : of_be (raw ++ [b]) = (of_be raw * 256 + n8 b)%N.
Proof. unfold of_be. rewrite foldl_app. simpl. apply (lor_shift 8), n8_lt. Qed.

Lemma to_be_length w n : length (to_be w n) = w.
Proof. revert n. induction w; intros; unfold to_be; fold to_be; simpl; auto. Qed.

Lemma of_be_bound raw : (of_be raw < 256 ^ N.of_nat (length raw))%N.
Proof.
  induction raw as [|b raw IH] using rev_ind; [by vm_compute|].
  rewrite of_be_app, length_app, Nat.add_1_r, Nat2N.inj_succ, N.pow_succ_r'.
  pose proof (n8_lt b). lia.
Qed.

(** [to_be] from the other end. *)
Lemma to_be_snoc w n : to_be (S w) n = to_be w (n / 256) ++ [b8 n].
Proof.
  revert n. induction w as [|w IH]; intros n.
  - unfold to_be. cbn. by rewrite N.div_1_r.
  - change (to_be (S (S w)) n) with (b8 (n / 256 ^ N.of_nat (S w)) :: to_be (S w) n).
    rewrite IH. unfold to_be at 2. fold to_be. cbn [app]. f_equal. f_equal.
    by rewrite N.Div0.div_div, Nat2N.inj_succ, N.pow_succ_r'.
Qed.

Lemma of_be_to_be w n : (n < 256 ^ N.of_nat w)%N → of_be (to_be w n) = n.
Proof.
  revert n. induction w as [|w IH]; intros n Hn.
  - unfold to_be. cbn in *. lia.
  - rewrite to_be_snoc, of_be_app, n8_b8, IH.
    + pose proof (N.div_mod n 256 ltac:(done)). lia.
    + rewrite Nat2N.inj_succ, N.pow_succ_r' in Hn. apply N.Div0.div_lt_upper_bound. lia.
Qed.

Lemma signed_unsigned w z :
  (- 2 ^ (8 * Z.of_nat w) <= 2 * z < 2 ^ (8 * Z.of_nat w))%Z → to_signed w (to_unsigned w z) = z.
Proof.
  unfold to_signed, to_unsigned. intros Hz.
  assert (0 < 2 ^ (8 * Z.of_nat w))%Z by (apply Z.pow_pos_nonneg; lia).
  rewrite Z2N.id by (apply Z.mod_pos_bound; done).
  destruct (Z.ltb_spec z 0).
  - rewrite <-(Z.mod_unique_pos z (2 ^ (8 * Z.of_nat w)) (-1) (z + 2 ^ (8 * Z.of_nat w))) by lia.
    case_match; lia.
  - rewrite Z.mod_small by lia. case_match; lia.
Qed.

Lemma to_unsigned_bound w z : (to_unsigned w z < 256 ^ N.of_nat w)%N.
Proof.
  unfold to_unsigned. assert (0 < 2 ^ (8 * Z.of_nat w))%Z by (apply Z.pow_pos_nonneg; lia).
  pose proof (Z.mod_pos_bound z (2 ^ (8 * Z.of_nat w)) ltac:(done)).
  assert (Z.of_N (256 ^ N.of_nat w) = 2 ^ (8 * Z.of_nat w))%Z; [|lia].
  rewrite N2Z.inj_pow, Z.pow_mul_r by lia. by rewrite nat_N_Z.
Qed.

Lemma to_unsigned_small w z :
  (0 <= z < 2 ^ (8 * Z.of_nat w))%Z → to_unsigned w z = Z.to_N z.
Proof. intros. unfold to_unsigned. by rewrite Z.mod_small. Qed.

(** ** The reader *)

Lemma read_take_app raw rest n :
  n = N.of_nat (length raw) → read_take n (raw ++ rest) = (Ok raw, rest).
Proof.
  intros ->. unfold read_take, act. rewrite length_app.
  destruct (N.ltb_spec (N.of_nat (length raw + length rest)) (N.of_nat (length raw))); [lia|].
  by rewrite Nat2N.id, take_app_length, drop_app_length.
Qed.

Lemma read_len_to_be w n rest :
  (n < 256 ^ N.of_nat w)%N → read_len w (to_be w n ++ rest) = (Ok n, rest).
Proof.
  intros Hn. unfold read_len, mbind, pym_bind.
  rewrite read_take_app by (by rewrite to_be_length). by rewrite of_be_to_be.
Qed.

Lemma read_uint_to_be w n rest :
  (n < 256 ^ N.of_nat w)%N → read_uint w (to_be w n ++ rest) = (Ok (PInt (Z.of_N n)), rest).
Proof. intros Hn. unfold read_uint, mbind, pym_bind. by rewrite read_len_to_be. Qed.

Lemma read_sint_to_be w z rest :
  (- 2 ^ (8 * Z.of_nat w) <= 2 * z < 2 ^ (8 * Z.of_nat w))%Z →
  read_sint w (to_be w (to_unsigned w z) ++ rest) = (Ok (PInt z), rest).
Proof.
  intros Hz. unfold read_sint, mbind, pym_bind.
  rewrite read_len_to_be by apply to_unsigned_bound. by rewrite signed_unsigned.
Qed.

(** ** Values with no parts *)

(** One value, given the reader of the values inside it. *)
Definition read_value (item : PyM bytes pyval) (fuel : nat) : PyM bytes pyval :=
  marker ← read_byte; read_marked item fuel (n8 marker).

Lemma read_value_cons item fuel b data :
  read_value item fuel (b :: data) = read_marked item fuel (n8 b) data.
Proof. done. Qed.

(** [raw] reads back as [v], whatever follows it. *)
Definition reads_back (item : PyM bytes pyval) (fuel : nat) (raw : bytes) (v : pyval) : Prop :=
  ∀ rest, read_value item fuel (raw ++ rest) = (Ok v, rest).

(** Computes which reader a constant marker selects. *)
Ltac select_marker :=
  lazymatch goal with
  | |- context [read_marked ?i ?f (n8 (b8 ?c))] =>
      let t := eval cbv -[read_uint read_sint read_len read_bin read_str read_array read_map
                          mbind pym_bind mret pym_ret raise f64_of_f32] in
        (read_marked i f (n8 (b8 c))) in
      change (read_marked i f (n8 (b8 c))) with t
  end.

(** The value of a positive integer whose bytes are stored unsigned. *)
Lemma read_uint_unsigned w z rest :
  (0 <= z < 2 ^ (8 * Z.of_nat w))%Z →
  read_uint w (to_be w (to_unsigned w z) ++ rest) = (Ok (PInt z), rest).
Proof.
  intros Hz. rewrite read_uint_to_be by apply to_unsigned_bound.
  rewrite to_unsigned_small by done. by rewrite Z2N.id by lia.
Qed.

Lemma to_be_1 n : [b8 n] = to_be 1 n.
Proof. unfold to_be. cbn. by rewrite N.div_1_r. Qed.

Lemma write_i64_read item fuel z :
  (- 2 ^ 63 <= z < 2 ^ 63)%Z → reads_back item fuel (write_i64 z) (PInt z).
Proof.
  intros Hz rest. unfold write_i64.
  destruct ((0 <=? z)%Z && (z <=? 127)%Z) eqn:?; [|
    destruct ((-32 <=? z)%Z && (z <=? -1)%Z) eqn:?].
  - cbn [app]. rewrite read_value_cons, n8_b8_small; rewrite to_unsigned_small by lia; [|lia].
    unfold read_marked. destruct (N.leb_spec (Z.to_N z) 0x7f); [|lia].
    by rewrite Z2N.id by lia.
  - cbn [app]. rewrite read_value_cons.
    rewrite n8_b8_small by (apply (to_unsigned_bound 1)).
    assert (to_unsigned 1 z = Z.to_N (256 + z)) as Hu.
    { unfold to_unsigned. f_equal. symmetry. apply (Z.mod_unique_pos z 256 (-1)); lia. }
    assert (0xe0 <= to_unsigned 1 z)%N as Hm by lia.
    rewrite <-(signed_unsigned 1 z) at 2 by (cbn; lia). revert Hm.
    generalize (to_unsigned 1 z). intros m Hm. unfold read_marked.
    rewrite !(proj2 (N.leb_gt m _)) by lia. by rewrite (proj2 (N.leb_le 0xe0 m)).
  - destruct (Z.leb_spec 4294967296 z); repeat match goal with
      | |- context [if ?a && ?b then _ else _] => destruct (a && b) eqn:?
      end; try lia;
      rewrite ?to_be_1; cbn [app]; rewrite read_value_cons;
      select_marker; (apply read_uint_unsigned || apply read_sint_to_be); cbn; lia.
Qed.

(** ** Headers *)

(** A length packed into the marker itself. *)
Lemma packed_length q k len :
  (len < 2 ^ k)%N → (q * 2 ^ k + len < 256)%N →
  n8 (b8 (N.lor (N.shiftl q k) len)) = (q * 2 ^ k + len)%N ∧
  N.land (q * 2 ^ k + len) (N.ones k) = len.
Proof.
  intros Hl Hb. rewrite lor_shift, n8_b8_small by done. split; [done|].
  rewrite N.land_ones, N.add_comm, N.Div0.mod_add. by apply N.mod_small.
Qed.

(** The marker and the length of a value with a 1-, 2- or 4-byte length. *)
Ltac read_header :=
  rewrite ?to_be_1, <-app_comm_cons, read_value_cons; select_marker;
  unfold mbind, pym_bind; rewrite read_len_to_be by (cbn; lia); done.

Lemma str_header_read item fuel len h data :
  write_str_header len = Ok h → read_value item fuel (h ++ data) = read_str len data.
Proof.
  unfold write_str_header, u32_len.
  destruct (N.leb_spec len 31); [|destruct (N.leb_spec len 255);
    [|destruct (N.leb_spec len 65535); [|destruct (N.ltb_spec len (2 ^ 32)); [|done]]]];
    intros [= <-]; [|read_header..].
  destruct (packed_length 5 5 len) as [Hm Hl]; [cbn; lia..|].
  change (N.ones 5) with 0x1f%N in Hl. change 0xa0%N with (N.shiftl 5 5). cbn [app]. rewrite read_value_cons, Hm. unfold read_marked.
  rewrite !(proj2 (N.leb_gt (5 * 2 ^ 5 + len) _)) by lia.
  rewrite (proj2 (N.leb_le (5 * 2 ^ 5 + len) 191)) by lia. by rewrite Hl.
Qed.

Lemma bin_header_read item fuel len h data :
  write_bin_header len = Ok h → read_value item fuel (h ++ data) = read_bin len data.
Proof.
  unfold write_bin_header, u32_len.
  destruct (N.leb_spec len 255);
    [|destruct (N.leb_spec len 65535); [|destruct (N.ltb_spec len (2 ^ 32)); [|done]]];
    intros [= <-]; read_header.
Qed.

Lemma array_header_read item fuel len h data :
  write_array_header len = Ok h → read_value item fuel (h ++ data) = read_array item fuel len data.
Proof.
  unfold write_array_header, u32_len.
  destruct (N.leb_spec len 15);
    [|destruct (N.leb_spec len 65535); [|destruct (N.ltb_spec len (2 ^ 32)); [|done]]];
    intros [= <-]; [|read_header..].
  destruct (packed_length 9 4 len) as [Hm Hl]; [cbn; lia..|].
  change (N.ones 4) with 0x0f%N in Hl. change 0x90%N with (N.shiftl 9 4). cbn [app]. rewrite read_value_cons, Hm. unfold read_marked.
  rewrite !(proj2 (N.leb_gt (9 * 2 ^ 4 + len) _)) by lia.
  rewrite (proj2 (N.leb_le (9 * 2 ^ 4 + len) 159)) by lia. by rewrite Hl.
Qed.

Lemma map_header_read item fuel len h data :
  write_map_header len = Ok h → read_value item fuel (h ++ data) = read_map item fuel len data.
Proof.
  unfold write_map_header, u32_len.
  destruct (N.leb_spec len 15);
    [|destruct (N.leb_spec len 65535); [|destruct (N.ltb_spec len (2 ^ 32)); [|done]]];
    intros [= <-]; [|read_header..].
  destruct (packed_length 8 4 len) as [Hm Hl]; [cbn; lia..|].
  change (N.ones 4) with 0x0f%N in Hl. change 0x80%N with (N.shiftl 8 4). cbn [app]. rewrite read_value_cons, Hm. unfold read_marked.
  rewrite (proj2 (N.leb_gt (8 * 2 ^ 4 + len) _)) by lia.
  rewrite (proj2 (N.leb_le (8 * 2 ^ 4 + len) 143)) by lia. by rewrite Hl.
Qed.

Lemma write_int_read item fuel z raw :
  write_int z = Ok raw → reads_back item fuel raw (PInt z).
Proof.
  unfold write_int. destruct ((- 2 ^ 63 <=? z)%Z && (z <? 2 ^ 63)%Z) eqn:?.
  - intros [= <-]. apply write_i64_read. lia.
  - destruct ((0 <=? z)%Z && (z <? 2 ^ 64)%Z) eqn:?; [|done]. intros [= <-] rest.
    unfold write_u64. cbn [app]. rewrite read_value_cons. select_marker.
    apply read_uint_unsigned. cbn. lia.
Qed.

Lemma float_read item fuel bits :
  (0 <= bits < 2 ^ 64)%Z → reads_back item fuel (b8 0xcb :: to_be 8 (Z.to_N bits)) (PFloat bits).
Proof.
  intros Hb rest. rewrite <-app_comm_cons, read_value_cons. select_marker. unfold mbind, pym_bind.
  rewrite read_len_to_be by (cbn; lia). change ((Ok (PFloat (Z.of_N (Z.to_N bits))), rest) = (Ok (PFloat bits), rest)).
  by rewrite Z2N.id by lia.
Qed.

(** ** UTF-8 *)

(** One encoded code point, decoded. *)
Lemma utf8_decode_char c l :
  scalar c = true → utf8_decode_n (utf8_char c ++ l) = (cons c) <$> utf8_decode_n l.
Proof.
  intros Hc. unfold utf8_char.
  pose proof (N.div_mod c 64 ltac:(done)). pose proof (N.mod_lt c 64 ltac:(done)).
  pose proof (N.div_mod (c / 64) 64 ltac:(done)). pose proof (N.mod_lt (c / 64) 64 ltac:(done)).
  pose proof (N.div_mod (c / 4096) 64 ltac:(done)). pose proof (N.mod_lt (c / 4096) 64 ltac:(done)).
  assert (c / 64 / 64 = c / 4096)%N as H64 by (by rewrite N.Div0.div_div).
  assert (c / 4096 / 64 = c / 262144)%N as H4096 by (by rewrite N.Div0.div_div).
  rewrite H64, H4096 in *.
  assert (c <= 0x10FFFF)%N by (unfold scalar in Hc; lia).
  generalize dependent (c mod 64)%N. intros m0. generalize dependent ((c / 64) mod 64)%N. intros m1.
  generalize dependent ((c / 4096) mod 64)%N. intros m2.
  generalize dependent (c / 262144)%N. intros q3. generalize dependent (c / 4096)%N. intros q2.
  generalize dependent (c / 64)%N. intros q1. intros.
  destruct (N.ltb_spec c 0x80); [|destruct (N.ltb_spec c 0x800); [|destruct (N.ltb_spec c 0x10000)]];
    cbn [app utf8_decode_n].
  - by destruct (N.ltb_spec c 0x80); [|lia].
  - rewrite (proj2 (N.ltb_ge (0xc0 + q1) 0x80)) by lia.
    replace ((0xc0 <=? 0xc0 + q1)%N && (0xc0 + q1 <? 0xe0)%N) with true by lia.
    replace ((0xc0 + q1 - 0xc0) * 64 + (0x80 + m0 - 0x80))%N with c by lia.
    unfold utf8_cont. by replace (_ && _) with true by lia.
  - rewrite (proj2 (N.ltb_ge (0xe0 + q2) 0x80)) by lia.
    replace ((0xc0 <=? 0xe0 + q2)%N && (0xe0 + q2 <? 0xe0)%N) with false by lia.
    replace ((0xe0 <=? 0xe0 + q2)%N && (0xe0 + q2 <? 0xf0)%N) with true by lia.
    replace ((0xe0 + q2 - 0xe0) * 4096 + (0x80 + m1 - 0x80) * 64 + (0x80 + m0 - 0x80))%N with c by lia.
    rewrite Hc. unfold utf8_cont. by replace (_ && true) with true by lia.
  - rewrite (proj2 (N.ltb_ge (0xf0 + q3) 0x80)) by lia.
    replace ((0xc0 <=? 0xf0 + q3)%N && (0xf0 + q3 <? 0xe0)%N) with false by lia.
    replace ((0xe0 <=? 0xf0 + q3)%N && (0xf0 + q3 <? 0xf0)%N) with false by lia.
    replace ((0xf0 <=? 0xf0 + q3)%N && (0xf0 + q3 <? 0xf8)%N) with true by lia.
    replace ((0xf0 + q3 - 0xf0) * 262144 + (0x80 + m2 - 0x80) * 4096 + (0x80 + m1 - 0x80) * 64 +
             (0x80 + m0 - 0x80))%N with c by lia.
    rewrite Hc. unfold utf8_cont. by replace (_ && true) with true by lia.
Qed.

Lemma utf8_char_bytes c : scalar c = true → Forall (λ x, (x < 256)%N) (utf8_char c).
Proof.
  intros Hc. assert (c <= 0x10FFFF)%N by (unfold scalar in Hc; lia).
  assert (∀ a, 0x80 + a mod 64 < 256)%N as Ht by (intros a; pose proof (N.mod_lt a 64 ltac:(done)); lia).
  unfold utf8_char.
  destruct (N.ltb_spec c 0x80); [|destruct (N.ltb_spec c 0x800); [|destruct (N.ltb_spec c 0x10000)]];
    repeat constructor; try apply Ht; try lia;
    match goal with |- (_ + c / ?k < 256)%N => pose proof (N.div_mod c k ltac:(done)) end; lia.
Qed.

Lemma utf8_text_bytes s :
  forallb scalar s = true → Forall (λ x, (x < 256)%N) (s ≫= utf8_char).
Proof.
  induction s as [|c s IH]; [constructor|]. cbn [forallb]. intros [Hc Hs]%andb_true_iff.
  rewrite bind_cons. apply Forall_app. split; [by apply utf8_char_bytes|auto].
Qed.

Lemma n8_b8_list (l : list N) : Forall (λ x, (x < 256)%N) l → n8 <$> (b8 <$> l) = l.
Proof.
  intros Hl. rewrite <-list_fmap_compose. induction Hl as [|x l Hx _ IH]; [done|].
  cbn. rewrite IH. f_equal. by apply n8_b8_small.
Qed.

Lemma utf8_decode_encode s raw : utf8_encode s = Ok raw → utf8_decode raw = Some s.
Proof.
  unfold utf8_encode, utf8_decode. destruct (forallb scalar s) eqn:Hs; [|done]. intros [= <-].
  rewrite n8_b8_list by (by apply utf8_text_bytes).
  induction s as [|c s IH]; [done|]. cbn [forallb] in Hs. apply andb_true_iff in Hs as [Hc Hs].
  rewrite bind_cons, utf8_decode_char, IH by done. done.
Qed.

(** Shortest forms: the bytes of a code point from its parts. *)
Lemma utf8_char_2 x y :
  (0xc0 <= x < 0xe0)%N → utf8_cont y = true → (0x80 <= (x - 0xc0) * 64 + (y - 0x80))%N →
  utf8_char ((x - 0xc0) * 64 + (y - 0x80)) = [x; y].
Proof.
  unfold utf8_cont. intros Hx Hy Hc. unfold utf8_char.
  rewrite (proj2 (N.ltb_ge _ 0x80)) by lia. rewrite (proj2 (N.ltb_lt _ 0x800)) by lia.
  rewrite <-(N.div_unique _ 64 (x - 0xc0) (y - 0x80)) by lia.
  rewrite <-(N.mod_unique _ 64 (x - 0xc0) (y - 0x80)) by lia. f_equal; [lia|f_equal; lia].
Qed.

Lemma utf8_char_3 x y z :
  (0xe0 <= x < 0xf0)%N → utf8_cont y = true → utf8_cont z = true →
  (0x800 <= (x - 0xe0) * 4096 + (y - 0x80) * 64 + (z - 0x80))%N →
  utf8_char ((x - 0xe0) * 4096 + (y - 0x80) * 64 + (z - 0x80)) = [x; y; z].
Proof.
  unfold utf8_cont. intros Hx Hy Hz Hc. unfold utf8_char.
  rewrite (proj2 (N.ltb_ge _ 0x80)) by lia. rewrite (proj2 (N.ltb_ge _ 0x800)) by lia.
  rewrite (proj2 (N.ltb_lt _ 0x10000)) by lia.
  rewrite <-(N.div_unique _ 4096 (x - 0xe0) ((y - 0x80) * 64 + (z - 0x80))) by lia.
  rewrite <-(N.div_unique _ 64 ((x - 0xe0) * 64 + (y - 0x80)) (z - 0x80)) by lia.
  rewrite <-(N.mod_unique _ 64 (x - 0xe0) (y - 0x80)) by lia.
  rewrite <-(N.mod_unique _ 64 ((x - 0xe0) * 64 + (y - 0x80)) (z - 0x80)) by lia.
  repeat (f_equal; try lia).
Qed.

Lemma utf8_char_4 x y z w :
  (0xf0 <= x < 0xf8)%N → utf8_cont y = true → utf8_cont z = true → utf8_cont w = true →
  (0x10000 <= (x - 0xf0) * 262144 + (y - 0x80) * 4096 + (z - 0x80) * 64 + (w - 0x80))%N →
  utf8_char ((x - 0xf0) * 262144 + (y - 0x80) * 4096 + (z - 0x80) * 64 + (w - 0x80)) =
    [x; y; z; w].
Proof.
  unfold utf8_cont. intros Hx Hy Hz Hw Hc. unfold utf8_char.
  rewrite (proj2 (N.ltb_ge _ 0x80)) by lia. rewrite (proj2 (N.ltb_ge _ 0x800)) by lia.
  rewrite (proj2 (N.ltb_ge _ 0x10000)) by lia.
  set (a := (x - 0xf0)%N) in *. set (b := (y - 0x80)%N) in *. set (c := (z - 0x80)%N) in *.
  set (d := (w - 0x80)%N) in *.
  rewrite <-(N.div_unique _ 262144 a (b * 4096 + c * 64 + d)) by lia.
  rewrite <-(N.div_unique _ 4096 (a * 64 + b) (c * 64 + d)) by lia.
  rewrite <-(N.div_unique _ 64 (a * 4096 + b * 64 + c) d) by lia.
  rewrite <-(N.mod_unique _ 64 a b) by lia.
  rewrite <-(N.mod_unique _ 64 (a * 64 + b) c) by lia.
  rewrite <-(N.mod_unique _ 64 (a * 4096 + b * 64 + c) d) by lia.
  repeat (f_equal; try lia).
Qed.

Lemma utf8_decode_n_inv n l s :
  length l ≤ n → utf8_decode_n l = Some s → forallb scalar s = true ∧ s ≫= utf8_char = l.
Proof.
  revert l s. induction n as [|n IH]; intros l s Hn.
  { destruct l; simpl in Hn; [|lia]. by intros [= <-]. }
  assert (∀ c (bs : list N) l' s', scalar c = true → utf8_char c = bs → l = bs ++ l' → bs ≠ [] →
    (cons c) <$> utf8_decode_n l' = Some s' → forallb scalar s' = true ∧ s' ≫= utf8_char = l) as Hchar.
  { intros c bs l' s' Hc Hbs -> Hne (s0&Hd&->)%fmap_Some. rewrite length_app in Hn.
    apply IH in Hd as [Hs Hl]; [|destruct bs; [done|simpl in Hn; lia]].
    cbn [forallb]. by rewrite bind_cons, Hl, Hbs, Hc. }
  destruct l as [|x l1]; [by intros [= <-]|]. cbn [utf8_decode_n].
  destruct (N.ltb_spec x 0x80).
  { apply (Hchar x [x]); [unfold scalar, is_surrogate; lia| |done..].
    unfold utf8_char. by rewrite (proj2 (N.ltb_lt x 0x80)). }
  destruct l1 as [|y l2]; [done|]. destruct ((0xc0 <=? x)%N && (x <? 0xe0)%N) eqn:H2.
  { destruct (utf8_cont y && _) eqn:Hg; [|done]. apply (Hchar _ [x; y]); [| |done..].
    - unfold scalar, is_surrogate, utf8_cont in *. lia.
    - apply utf8_char_2; lia. }
  destruct l2 as [|z l3]; [done|]. destruct ((0xe0 <=? x)%N && (x <? 0xf0)%N) eqn:H3.
  { destruct (utf8_cont y && _ && _ && scalar _) eqn:Hg; [|done]. rewrite !andb_true_iff in Hg.
    destruct Hg as [[[? ?] ?] ?]. apply (Hchar _ [x; y; z]); [done| |done..].
    apply utf8_char_3; lia. }
  destruct l3 as [|w l4]; [done|]. destruct ((0xf0 <=? x)%N && (x <? 0xf8)%N) eqn:H4; [|done].
  destruct (utf8_cont y && _ && _ && _ && scalar _) eqn:Hg; [|done]. rewrite !andb_true_iff in Hg.
  destruct Hg as [[[[? ?] ?] ?] ?]. apply (Hchar _ [x; y; z; w]); [done| |done..].
  apply utf8_char_4; lia.
Qed.

Lemma utf8_encode_decode raw s : utf8_decode raw = Some s → utf8_encode s = Ok raw.
Proof.
  unfold utf8_decode, utf8_encode. intros [Hs Hl]%(utf8_decode_n_inv (length (n8 <$> raw))); [|done].
  rewrite Hs, Hl, <-list_fmap_compose. f_equal.
  etrans; [|apply list_fmap_id]. apply list_fmap_ext. intros _ b _. apply b8_n8.
Qed.

Lemma utf8_encode_length s raw : utf8_encode s = Ok raw → N.of_nat (length raw) = utf8_len s.
Proof.
  unfold utf8_encode. destruct (forallb scalar s) eqn:Hs; [|done]. intros [= <-].
  rewrite length_fmap. clear Hs. induction s as [|c s IH]; [done|].
  rewrite bind_cons, length_app, Nat2N.inj_add, IH. cbn [utf8_len foldr]. f_equal.
  unfold utf8_char, utf8_width. by repeat case_match.
Qed.
