(* ===== verification/CodecTheorems.v ===== *)
(** * Properties of the codec

    What is encoded decodes to itself, whatever follows it; what decodes can be
    encoded again; and decoding always ends. *)

From Stdlib Require Import ZifyBool ZifyN.
From S2P Require Import Prelude PyValue Codec CodecLemmas.

(** ** What the decoder gives back *)

(** No key equal to one before it, as in any dict. *)
Fixpoint keys_differ (ks : list pyval) : bool :=
  match ks with
  | [] => true
  | k :: ks' => forallb (λ k', negb (py_eq k k')) ks' && keys_differ ks'
  end.

(** A value whose dicts have keys that are still distinct hashable keys once
    tuples have become lists. *)
Fixpoint decodable (v : pyval) : bool :=
  match v with
  | PFloat bits => (0 <=? bits)%Z && (bits <? 2 ^ 64)%Z
  | PList l | PTuple l => forallb decodable l
  | PDict d =>
      keys_differ ((λ kv, canon kv.1) <$> d) &&
      forallb (λ kv, hashable (canon kv.1) && decodable kv.1 && decodable kv.2) d
  | _ => true
  end.

(** ** Lemmas: writing *)

Lemma write_depth v depth raw : write_obj v depth = Ok raw → depth ≤ MAX_DEPTH.
Proof.
  intros H. destruct (Nat.ltb_spec MAX_DEPTH depth) as [Hd|]; [|lia].
  exfalso. apply Nat.ltb_lt in Hd. destruct v; cbn [write_obj] in H; by rewrite Hd in H.
Qed.

Lemma header_not_nil (h body raw : bytes) :
  h ≠ [] → Ok (h ++ body) = Ok raw → raw ≠ [].
Proof. intros Hh [= <-]. by destruct h. Qed.

Lemma write_str_header_not_nil len h : write_str_header len = Ok h → h ≠ [].
Proof. unfold write_str_header, u32_len. by repeat case_match; intros [= <-]. Qed.
Lemma write_bin_header_not_nil len h : write_bin_header len = Ok h → h ≠ [].
Proof. unfold write_bin_header, u32_len. by repeat case_match; intros [= <-]. Qed.
Lemma write_array_header_not_nil len h : write_array_header len = Ok h → h ≠ [].
Proof. unfold write_array_header, u32_len. by repeat case_match; intros [= <-]. Qed.
Lemma write_map_header_not_nil len h : write_map_header len = Ok h → h ≠ [].
Proof. unfold write_map_header, u32_len. by repeat case_match; intros [= <-]. Qed.
Lemma write_int_not_nil z raw : write_int z = Ok raw → raw ≠ [].
Proof. unfold write_int, write_i64, write_u64. by repeat case_match; intros [= <-]. Qed.

Lemma result_bind_Ok {A B : Type} (r : result A) (f : A → result B) b :
  r ≫= f = Ok b → ∃ a, r = Ok a ∧ f a = Ok b.
Proof. destruct r; [|done..]. eauto. Qed.

(** Every value takes at least one byte. *)
Lemma write_obj_not_nil v depth raw : write_obj v depth = Ok raw → raw ≠ [].
Proof.
  intros H. apply write_depth in H as Hd. apply Nat.ltb_ge in Hd.
  destruct v; cbn [write_obj] in H; rewrite Hd in H;
    try (by injection H as <-); try done.
  - by eapply write_int_not_nil.
  - apply result_bind_Ok in H as (t&_&(h&Hh&H)%result_bind_Ok).
    eapply header_not_nil; [by eapply write_str_header_not_nil|done].
  - apply result_bind_Ok in H as (h&Hh&H).
    eapply header_not_nil; [by eapply write_bin_header_not_nil|done].
  - apply result_bind_Ok in H as (h&Hh&(r&_&H)%result_bind_Ok).
    eapply header_not_nil; [by eapply write_array_header_not_nil|done].
  - apply result_bind_Ok in H as (h&Hh&(r&_&H)%result_bind_Ok).
    eapply header_not_nil; [by eapply write_array_header_not_nil|done].
  - apply result_bind_Ok in H as (h&Hh&(r&_&H)%result_bind_Ok).
    eapply header_not_nil; [by eapply write_map_header_not_nil|done].
Qed.

Lemma not_nil_length (raw : bytes) : raw ≠ [] → 1 ≤ length raw.
Proof. destruct raw; [done|]. simpl. lia. Qed.

(** ** Lemmas: reading back the loops *)

Section Loops.
Context (item : PyM bytes pyval) (write : pyval → result bytes) (limit : nat).

(** [item] reads back what [write] writes of [x], within [limit] bytes. *)
Definition item_reads (x : pyval) : Prop := ∀ raw,
  write x = Ok raw → raw ≠ [] ∧
  (length raw ≤ limit → ∀ rest, item (raw ++ rest) = (Ok (canon x), rest)).

Lemma read_items_write l body fuel rest :
  Forall item_reads l → write_items write l = Ok body → length body ≤ limit → length body ≤ fuel →
  read_items item fuel (N.of_nat (length l)) (body ++ rest) = (Ok (canon <$> l), rest).
Proof.
  intros Hl. revert body fuel. induction Hl as [|x l Hx _ IH]; intros body fuel; cbn [write_items].
  - intros [= <-] _ _. by destruct fuel.
  - intros (a&Ha&(r&Hr&[= <-])%result_bind_Ok)%result_bind_Ok. rewrite length_app.
    intros Hlim Hfuel. destruct (Hx a Ha) as [Hne%not_nil_length Hread].
    destruct fuel as [|fuel]; [lia|]. cbn [length read_items].
    destruct (N.eqb_spec (N.of_nat (S (length l))) 0); [lia|].
    unfold mbind, pym_bind. rewrite <-app_assoc, Hread by lia.
    replace (N.of_nat (S (length l)) - 1)%N with (N.of_nat (length l)) by lia.
    rewrite IH by (done || lia). done.
Qed.

Lemma dict_set_fresh (d : pydict) k v :
  Forall (λ e, py_eq e.1 k = false) d → dict_set d k v = d ++ [(k, v)].
Proof. induction 1 as [|[k' x] d Hk _ IH]; [done|]. cbn [dict_set app]. simpl in Hk. by rewrite Hk, IH. Qed.

Lemma read_pairs_write d body fuel rest acc :
  Forall (λ kv, item_reads kv.1 ∧ item_reads kv.2 ∧ hashable (canon kv.1) = true) d →
  keys_differ (acc.*1 ++ ((λ kv, canon kv.1) <$> d)) = true →
  write_pairs write d = Ok body → length body ≤ limit → length body ≤ fuel →
  read_pairs item fuel (N.of_nat (length d)) acc (body ++ rest) =
    (Ok (acc ++ ((λ kv, (canon kv.1, canon kv.2)) <$> d)), rest).
Proof.
  intros Hd. revert body fuel acc.
  induction Hd as [|[k x] d (Hk&Hx&Hh) _ IH]; intros body fuel acc; cbn [write_pairs].
  - intros _ [= <-] _ _. cbn. rewrite app_nil_r. by destruct fuel.
  - intros Hdiff (a&Ha&(b&Hb&(r&Hr&[= <-])%result_bind_Ok)%result_bind_Ok)%result_bind_Ok.
    rewrite !length_app. intros Hlim Hfuel. simpl in Hk, Hx, Hh.
    destruct (Hk a Ha) as [Hna%not_nil_length Hka]. destruct (Hx b Hb) as [_ Hxb].
    destruct fuel as [|fuel]; [lia|]. cbn [length read_pairs].
    destruct (N.eqb_spec (N.of_nat (S (length d))) 0); [lia|].
    unfold mbind, pym_bind. rewrite <-!app_assoc, Hka, Hxb by lia.
    unfold lift, dict_insert. rewrite Hh. rewrite dict_set_fresh.
    2:{ clear -Hdiff. rewrite fmap_cons in Hdiff. cbn [fst] in Hdiff.
        induction acc as [|[k0 x0] acc IH]; [constructor|]. cbn in Hdiff.
        apply andb_true_iff in Hdiff as [H1 H2]. constructor; [|auto]. simpl.
        rewrite forallb_app in H1. cbn in H1. destruct (py_eq k0 (canon k)); [|done].
        cbn in H1. by rewrite andb_false_r in H1. }
    replace (N.of_nat (S (length d)) - 1)%N with (N.of_nat (length d)) by lia.
    rewrite IH by (done || lia || (rewrite fmap_app, <-app_assoc; exact Hdiff)).
    by rewrite <-app_assoc.
Qed.
End Loops.

(** ** Lemmas: the round trip *)

Lemma read_obj_levels depth fuel data :
  depth ≤ MAX_DEPTH →
  read_obj (S MAX_DEPTH - depth) fuel data =
    read_value (read_obj (S MAX_DEPTH - S depth) fuel) fuel data.
Proof. intros Hd. by replace (S MAX_DEPTH - depth) with (S (S MAX_DEPTH - S depth)) by lia. Qed.

Lemma read_str_text item fuel s text h rest :
  utf8_encode s = Ok text → write_str_header (N.of_nat (length text)) = Ok h →
  read_value item fuel ((h ++ text) ++ rest) = (Ok (PStr s), rest).
Proof.
  intros Ht Hh. rewrite <-app_assoc, (str_header_read _ _ _ _ _ Hh).
  unfold read_str, mbind, pym_bind. rewrite read_take_app by done.
  by rewrite (utf8_decode_encode _ _ Ht).
Qed.

(** The induction: [v] reads back at every depth it can be written at. *)
Definition reads_back_at (v : pyval) : Prop := ∀ depth raw fuel,
  decodable v = true → write_obj v depth = Ok raw → length raw ≤ fuel →
  ∀ rest, read_obj (S MAX_DEPTH - depth) fuel (raw ++ rest) = (Ok (canon v), rest).

Lemma item_reads_at x depth fuel limit :
  reads_back_at x → decodable x = true → limit ≤ fuel →
  item_reads (read_obj (S MAX_DEPTH - S depth) fuel) (λ y, write_obj y (S depth)) limit x.
Proof.
  intros Hx Hd Hf raw Hw. split; [by eapply write_obj_not_nil|].
  intros Hl. eapply Hx; [done..|lia].
Qed.

Lemma list_reads_back l depth raw fuel :
  Forall reads_back_at l → forallb decodable l = true → depth ≤ MAX_DEPTH →
  (h ← write_array_header (N.of_nat (length l));
   body ← write_items (λ x, write_obj x (S depth)) l; Ok (h ++ body)) = Ok raw →
  length raw ≤ fuel →
  ∀ rest, read_value (read_obj (S MAX_DEPTH - S depth) fuel) fuel (raw ++ rest) =
          (Ok (PList (canon <$> l)), rest).
Proof.
  intros Hl Hd Hdep (h&Hh&(body&Hb&[= <-])%result_bind_Ok)%result_bind_Ok Hf rest.
  rewrite length_app in Hf. rewrite <-app_assoc, (array_header_read _ _ _ _ _ Hh).
  unfold read_array, mbind, pym_bind.
  rewrite (read_items_write _ (λ x, write_obj x (S depth)) (length body)) by
    (done || lia || (rewrite forallb_forall in Hd; apply Forall_forall; intros x Hx;
       apply item_reads_at; [by eapply Forall_forall|by apply Hd, list_elem_of_In|lia])).
  done.
Qed.

Lemma dict_reads_back d depth raw fuel :
  Forall (λ kv, reads_back_at kv.1 ∧ reads_back_at kv.2) d → decodable (PDict d) = true →
  depth ≤ MAX_DEPTH →
  (h ← write_map_header (N.of_nat (length d));
   body ← write_pairs (λ x, write_obj x (S depth)) d; Ok (h ++ body)) = Ok raw →
  length raw ≤ fuel →
  ∀ rest, read_value (read_obj (S MAX_DEPTH - S depth) fuel) fuel (raw ++ rest) =
          (Ok (canon (PDict d)), rest).
Proof.
  intros Hl Hd Hdep (h&Hh&(body&Hb&[= <-])%result_bind_Ok)%result_bind_Ok Hf rest.
  cbn [decodable] in Hd. apply andb_true_iff in Hd as [Hdiff Hd]. rewrite forallb_forall in Hd.
  rewrite length_app in Hf. rewrite <-app_assoc, (map_header_read _ _ _ _ _ Hh).
  unfold read_map, mbind, pym_bind.
  rewrite (read_pairs_write _ (λ x, write_obj x (S depth)) (length body)); try done; [|lia].
  apply Forall_forall. intros [k x] Hin. apply list_elem_of_In in Hin as Hin'.
  specialize (Hd _ Hin'). simpl in Hd. rewrite !andb_true_iff in Hd. destruct Hd as [[? ?] ?].
  rewrite Forall_forall in Hl. destruct (Hl _ Hin) as [? ?].
  split_and!; [apply item_reads_at; done || lia..|done].
Qed.

Lemma read_obj_write v : reads_back_at v.
Proof.
  induction v using pyval_nested_ind; intros depth raw fuel Hdec Hw Hf rest;
    apply write_depth in Hw as Hd; rewrite read_obj_levels by done;
    apply Nat.ltb_ge in Hd as Hd'; cbn [write_obj] in Hw; rewrite Hd' in Hw.
  - by injection Hw as <-.
  - destruct b; by injection Hw as <-.
  - by eapply write_int_read.
  - injection Hw as <-. cbn [decodable] in Hdec. apply float_read. lia.
  - apply result_bind_Ok in Hw as (text&Ht&(h&Hh&[= <-])%result_bind_Ok). by apply read_str_text.
  - apply result_bind_Ok in Hw as (h&Hh&[= <-]).
    rewrite <-app_assoc, (bin_header_read _ _ _ _ _ Hh). unfold read_bin, mbind, pym_bind.
    by rewrite read_take_app.
  - by apply (list_reads_back l depth).
  - by apply (list_reads_back l depth).
  - by apply (dict_reads_back d depth).
  - done.
Qed.

(** ** Lemmas: what can be encoded *)

Lemma key_ok_wire k : key_ok k = true → wire_ok k = true ∧ hashable k = true.
Proof. by destruct k. Qed.

Lemma canon_wire v : wire_ok v = true → canon v = v.
Proof.
  induction v as [| | | | | |l IH|l IH|d IH|] using pyval_nested_ind; cbn [wire_ok canon]; try done.
  - intros [_ Hl]%andb_true_iff. f_equal. rewrite forallb_forall in Hl.
    induction IH as [|x l Hx _ IHl]; [done|]. cbn. f_equal.
    + apply Hx, Hl. by left.
    + apply IHl. intros y Hy. apply Hl. by right.
  - rewrite !andb_true_iff. intros [_ Hd]. f_equal. rewrite forallb_forall in Hd.
    induction IH as [|[k x] d [Hk Hx] _ IHd]; [done|]. cbn. f_equal.
    + specialize (Hd (k, x) (or_introl eq_refl)). simpl in *. apply andb_true_iff in Hd as [? ?].
      f_equal; [by apply Hk, key_ok_wire|by apply Hx].
    + apply IHd. intros y Hy. apply Hd. by right.
Qed.

Lemma keys_distinct_differ ks : keys_distinct ks = true → keys_differ ks = true.
Proof.
  induction ks as [|k ks IH]; [done|]. cbn. rewrite !andb_true_iff. intros [Hk Hks].
  split; [|auto]. apply forallb_forall. intros k' Hin. apply negb_true_iff in Hk.
  destruct (py_eq k k') eqn:E; [|done]. exfalso.
  assert (existsb (λ k', py_eq k' k || py_eq k k') ks = true); [|congruence].
  apply existsb_exists. exists k'. split; [done|]. by rewrite E, orb_true_r.
Qed.

Lemma forallb_impl {A : Type} (f g : A → bool) (l : list A) :
  (∀ x, x ∈ l → f x = true → g x = true) → forallb f l = true → forallb g l = true.
Proof.
  rewrite !forallb_forall. intros Hi Hf x Hx. apply Hi; [by apply list_elem_of_In|auto].
Qed.

Lemma decodable_wire v : wire_ok v = true → decodable v = true.
Proof.
  induction v as [| | | | | |l IH|l IH|d IH|] using pyval_nested_ind; cbn [wire_ok decodable]; try done.
  - intros [_ Hl]%andb_true_iff. revert Hl. apply forallb_impl. intros x Hx.
    rewrite Forall_forall in IH. by apply IH.
  - rewrite !andb_true_iff. intros [[_ Hk] Hd]. rewrite Forall_forall in IH.
    assert (∀ kv, kv ∈ d → key_ok kv.1 = true ∧ wire_ok kv.2 = true) as Hkv.
    { intros kv Hin%list_elem_of_In. rewrite forallb_forall in Hd. by apply andb_true_iff, Hd. }
    split.
    + apply keys_distinct_differ. rewrite <-Hk. f_equal. apply list_fmap_ext.
      intros i kv Hi%list_elem_of_lookup_2. destruct (Hkv _ Hi) as [? _].
      by apply canon_wire, key_ok_wire.
    + apply forallb_forall. intros kv Hin%list_elem_of_In. destruct (Hkv _ Hin) as [Hk1 Hx1].
      destruct (IH _ Hin) as [IHk IHx]. apply key_ok_wire in Hk1 as [Hw Hh].
      rewrite canon_wire, Hh, IHk, IHx by done. done.
Qed.

Lemma header_ok len :
  (len < 2 ^ 32)%N →
  is_ok (write_str_header len) = true ∧ is_ok (write_bin_header len) = true ∧
  is_ok (write_array_header len) = true ∧ is_ok (write_map_header len) = true.
Proof.
  intros Hl. unfold write_str_header, write_bin_header, write_array_header, write_map_header, u32_len.
  destruct (N.ltb_spec len (2 ^ 32)); [|lia]. split_and!; by repeat case_match.
Qed.

Lemma is_ok_inv {A : Type} (r : result A) : is_ok r = true ↔ ∃ a, r = Ok a.
Proof. split; [destruct r; [eauto|done..]|]. by intros [a ->]. Qed.

Lemma write_items_ok (f : pyval → result bytes) l :
  (∀ x, x ∈ l → ∃ raw, f x = Ok raw) → ∃ raw, write_items f l = Ok raw.
Proof.
  induction l as [|x l IH]; intros Hf; [by eexists|]. cbn [write_items].
  destruct (Hf x) as [a ->]; [by left|]. destruct IH as [r ->]; [set_solver|]. by eexists.
Qed.

Lemma write_pairs_ok (f : pyval → result bytes) d :
  (∀ kv, kv ∈ d → (∃ raw, f kv.1 = Ok raw) ∧ ∃ raw, f kv.2 = Ok raw) →
  ∃ raw, write_pairs f d = Ok raw.
Proof.
  induction d as [|[k x] d IH]; intros Hf; [by eexists|]. cbn [write_pairs].
  destruct (Hf (k, x)) as [[a Ha] [b Hb]]; [by left|]. simpl in *. rewrite Ha, Hb.
  destruct IH as [r ->]; [set_solver|]. by eexists.
Qed.

Lemma depth_items (l : list pyval) x :
  x ∈ l → py_depth x ≤ foldr (λ x n, Nat.max (py_depth x) n) 0 l.
Proof. induction 1; cbn [foldr]; lia. Qed.

Lemma depth_pairs (d : pydict) kv :
  kv ∈ d → Nat.max (py_depth kv.1) (py_depth kv.2) ≤
           foldr (λ kv n, Nat.max (Nat.max (py_depth kv.1) (py_depth kv.2)) n) 0 d.
Proof. induction 1; cbn [foldr]; lia. Qed.

Lemma write_wire v depth :
  wire_ok v = true → depth + py_depth v ≤ MAX_DEPTH → ∃ raw, write_obj v depth = Ok raw.
Proof.
  revert depth.
  induction v as [| |z| |s|b|l IH|l IH|d IH|] using pyval_nested_ind; intros depth Hw Hd;
    cbn [wire_ok] in Hw; cbn [py_depth] in Hd; cbn [write_obj];
    rewrite (proj2 (Nat.ltb_ge MAX_DEPTH depth)) by lia; try done; try by eexists.
  - unfold write_int. destruct ((- 2 ^ 63 <=? z)%Z && (z <? 2 ^ 63)%Z) eqn:?; [by eexists|].
    destruct ((0 <=? z)%Z && (z <? 2 ^ 64)%Z) eqn:?; [by eexists|]. lia.
  - unfold text_ok in Hw. apply andb_true_iff in Hw as [Hs Hl].
    assert (∃ text, utf8_encode s = Ok text) as [text Ht]
      by (unfold utf8_encode; rewrite Hs; by eexists).
    rewrite Ht.
    destruct (header_ok (N.of_nat (length text))) as [[h Hh]%is_ok_inv _].
    { rewrite (utf8_encode_length _ _ Ht). lia. }
    cbn [mbind result_bind]. rewrite Hh. by eexists.
  - unfold len32 in Hw. destruct (header_ok (N.of_nat (length b))) as (_&[h Hh]%is_ok_inv&_); [lia|].
    rewrite Hh. by eexists.
  - apply andb_true_iff in Hw as [Hl Hw]. unfold len32 in Hl.
    destruct (header_ok (N.of_nat (length l))) as (_&_&[h Hh]%is_ok_inv&_); [lia|]. rewrite Hh.
    destruct (write_items_ok (λ x, write_obj x (S depth)) l) as [r Hr]; [|cbn; rewrite Hr; by eexists].
    intros x Hx. rewrite Forall_forall in IH. apply IH; [done| |].
    + rewrite forallb_forall in Hw. by apply Hw, list_elem_of_In.
    + pose proof (depth_items l x Hx). lia.
  - rewrite !andb_true_iff in Hw. destruct Hw as [[Hl _] Hw]. unfold len32 in Hl.
    destruct (header_ok (N.of_nat (length d))) as (_&_&_&[h Hh]%is_ok_inv); [lia|]. rewrite Hh.
    destruct (write_pairs_ok (λ x, write_obj x (S depth)) d) as [r Hr]; [|cbn; rewrite Hr; by eexists].
    intros kv Hin. rewrite Forall_forall in IH. destruct (IH _ Hin) as [IHk IHx].
    rewrite forallb_forall in Hw. specialize (Hw kv (proj1 (list_elem_of_In _ _) Hin)).
    apply andb_true_iff in Hw as [[? _]%key_ok_wire ?]. pose proof (depth_pairs d kv Hin).
    split; [apply IHk|apply IHx]; done || lia.
Qed.

Lemma decode_written v raw rest :
  decodable v = true → encode v = Ok raw → decode (raw ++ rest) = Ok (canon v).
Proof.
  intros Hd He. unfold decode.
  pose proof (read_obj_write v 0 raw (length (raw ++ rest)) Hd He) as H.
  rewrite length_app in *. change (S MAX_DEPTH - 0) with (S MAX_DEPTH) in H.
  by rewrite H by lia.
Qed.

(** What the stores rely on. *)
Lemma decode_encode_storable v :
  storable v → ∃ raw, encode v = Ok raw ∧ ∀ rest, decode (raw ++ rest) = Ok v.
Proof.
  intros [Hw Hd]. destruct (write_wire v 0 Hw Hd) as [raw Hraw]. exists raw. split; [done|].
  intros rest. pose proof (decode_written v raw rest (decodable_wire v Hw) Hraw) as H.
  by rewrite (canon_wire v Hw) in H.
Qed.

Lemma codec_round_trip v : storable v → ∃ b, encode v = Ok b ∧ decode b = Ok v.
Proof.
  intros Hv. destruct (decode_encode_storable v Hv) as (b&Hb&Hd). exists b. split; [done|].
  rewrite <-(app_nil_r b). apply Hd.
Qed.
