(* ===== verification/CodecTotal.v ===== *)
(** * Decoding arbitrary bytes

    Whatever the bytes: the decoder ends, and what it accepts can be encoded
    again. *)

From Stdlib Require Import ZifyBool ZifyN.
From S2P Require Import Prelude PyValue Codec CodecLemmas CodecTheorems.

(** On at most [lim] bytes, [m] never runs out of fuel, and when it returns it has
    consumed at least [k] bytes and its result satisfies [Q]. *)
Definition consumes {A} (m : PyM bytes A) (lim k : nat) (Q : A → Prop) : Prop := ∀ data,
  length data ≤ lim →
  match m data with
  | (Ok a, rest) => length rest + k ≤ length data ∧ Q a
  | (Raise _, _) => True
  | (OutOfFuel, _) => False
  end.

Lemma consumes_weaken {A} (m : PyM bytes A) lim lim' k k' (Q Q' : A → Prop) :
  consumes m lim k Q → lim' ≤ lim → k' ≤ k → (∀ a, Q a → Q' a) → consumes m lim' k' Q'.
Proof.
  intros Hm Hl Hk HQ data Hd. specialize (Hm data ltac:(lia)).
  destruct (m data) as [[a|e|] rest]; [|done..]. destruct Hm. split; [lia|auto].
Qed.

Lemma consumes_drop {A} (m : PyM bytes A) lim k (Q : A → Prop) : consumes m lim k Q → consumes m lim 0 Q.
Proof. intros H. by eapply consumes_weaken; [exact H|lia|lia|]. Qed.

Lemma consumes_ret {A} (a : A) lim (Q : A → Prop) : Q a → consumes (mret a) lim 0 Q.
Proof. intros HQ data _. simpl. split; [lia|done]. Qed.

Lemma consumes_raise {A} e lim k (Q : A → Prop) : consumes (raise e) lim k Q.
Proof. by intros data _. Qed.

Lemma consumes_bind {A B} (m : PyM bytes A) (f : A → PyM bytes B) lim k1 k2 Q1 Q2 :
  consumes m lim k1 Q1 → (∀ a, Q1 a → consumes (f a) (lim - k1) k2 Q2) →
  consumes (m ≫= f) lim (k1 + k2) Q2.
Proof.
  intros Hm Hf data Hd. specialize (Hm data Hd). unfold mbind, pym_bind.
  destruct (m data) as [[a|e|] rest]; [|done..]. destruct Hm as [Hr Ha].
  specialize (Hf a Ha rest ltac:(lia)).
  destruct (f a rest) as [[b|e|] rest']; [|done..]. destruct Hf. split; [lia|done].
Qed.

Lemma consumes_take lim n :
  consumes (read_take n) lim 0 (λ raw, N.of_nat (length raw) = n).
Proof.
  intros data _. unfold read_take, act.
  destruct (N.ltb_spec (N.of_nat (length data)) n); [done|].
  rewrite length_drop, length_take. lia.
Qed.

Lemma consumes_len lim w : consumes (read_len w) lim 0 (λ n, (n < 256 ^ N.of_nat w)%N).
Proof.
  apply (consumes_bind _ _ _ 0 0 _ _ (consumes_take lim _)). intros raw Hraw. apply consumes_ret.
  replace w with (length raw) by lia. apply of_be_bound.
Qed.

(** ** The values of the decoder *)

(** What can be encoded at [depth] and decoded again. *)
Definition good (depth : nat) (v : pyval) : Prop :=
  decodable v = true ∧ canon v = v ∧ ∃ raw, write_obj v depth = Ok raw.

Section Values.
Context (depth : nat) (Hdepth : depth ≤ MAX_DEPTH).

Lemma write_obj_here v : write_obj v depth =
  match v with
  | PStr s =>
      text ← utf8_encode s; h ← write_str_header (N.of_nat (length text)); Ok (h ++ text)
  | PDict d =>
      h ← write_map_header (N.of_nat (length d));
      body ← write_pairs (λ x, write_obj x (S depth)) d; Ok (h ++ body)
  | PList l | PTuple l =>
      h ← write_array_header (N.of_nat (length l));
      body ← write_items (λ x, write_obj x (S depth)) l; Ok (h ++ body)
  | PNone => Ok [b8 0xc0]
  | PBool b => Ok [b8 (if b then 0xc3 else 0xc2)]
  | PInt z => write_int z
  | PFloat bits => Ok (b8 0xcb :: to_be 8 (Z.to_N bits))
  | PBytes b => h ← write_bin_header (N.of_nat (length b)); Ok (h ++ b)
  | PObject _ => Raise TypeError
  end.
Proof. apply Nat.ltb_ge in Hdepth. destruct v; cbn [write_obj]; by rewrite Hdepth. Qed.

Lemma good_int z : (- 2 ^ 63 <= z < 2 ^ 64)%Z → good depth (PInt z).
Proof.
  intros Hz. split_and!; [done..|]. rewrite write_obj_here. unfold write_int.
  destruct ((- 2 ^ 63 <=? z)%Z && (z <? 2 ^ 63)%Z) eqn:?; [by eexists|].
  destruct ((0 <=? z)%Z && (z <? 2 ^ 64)%Z) eqn:?; [by eexists|]. lia.
Qed.

Lemma good_float bits : (0 <= bits < 2 ^ 64)%Z → good depth (PFloat bits).
Proof.
  intros Hb. split_and!; [cbn [decodable]; lia|done|]. rewrite write_obj_here. by eexists.
Qed.

Lemma good_bytes b : (N.of_nat (length b) < 2 ^ 32)%N → good depth (PBytes b).
Proof.
  intros Hb. split_and!; [done..|]. rewrite write_obj_here.
  destruct (header_ok _ Hb) as (_&[h ->]%is_ok_inv&_). by eexists.
Qed.

Lemma good_str raw s :
  (N.of_nat (length raw) < 2 ^ 32)%N → utf8_decode raw = Some s → good depth (PStr s).
Proof.
  intros Hb Hs. split_and!; [done..|]. rewrite write_obj_here, (utf8_encode_decode _ _ Hs).
  destruct (header_ok _ Hb) as ([h Hh]%is_ok_inv&_). cbn [mbind result_bind]. rewrite Hh. by eexists.
Qed.

Lemma good_list l :
  (N.of_nat (length l) < 2 ^ 32)%N → Forall (good (S depth)) l → good depth (PList l).
Proof.
  intros Hl Hg. rewrite Forall_forall in Hg. split_and!.
  - cbn [decodable]. apply forallb_forall. intros x Hx%list_elem_of_In. by apply Hg.
  - cbn [canon]. f_equal. etrans; [|apply list_fmap_id]. apply list_fmap_ext.
    intros i x Hx%list_elem_of_lookup_2. by apply Hg.
  - rewrite write_obj_here. destruct (header_ok _ Hl) as (_&_&[h ->]%is_ok_inv&_).
    destruct (write_items_ok (λ x, write_obj x (S depth)) l) as [r Hr]; [|cbn; rewrite Hr; by eexists].
    intros x Hx. by apply Hg.
Qed.

(** A dict as it is being built. *)
Definition good_dict (n : N) (d : pydict) : Prop :=
  (N.of_nat (length d) <= n)%N ∧ keys_differ d.*1 = true ∧
  Forall (λ kv, hashable kv.1 = true ∧ good (S depth) kv.1 ∧ good (S depth) kv.2) d.

Lemma keys_differ_snoc ks k :
  keys_differ ks = true → forallb (λ k', negb (py_eq k' k)) ks = true →
  keys_differ (ks ++ [k]) = true.
Proof.
  induction ks as [|k0 ks IH]; [done|]. cbn. rewrite !andb_true_iff. intros [H1 H2] [H3 H4].
  split; [|auto]. rewrite forallb_app. cbn. by rewrite H1, H3.
Qed.

Lemma dict_set_keys d k v :
  (dict_set d k v).*1 = if existsb (λ k', py_eq k' k) d.*1 then d.*1 else d.*1 ++ [k].
Proof.
  induction d as [|[k0 x] d IH]; [done|]. cbn. destruct (py_eq k0 k); cbn; [done|].
  rewrite IH. by case_match.
Qed.

Lemma dict_set_Forall (P : pyval * pyval → Prop) (d : pydict) k v :
  Forall P d → P (k, v) → (∀ k' x, P (k', x) → P (k', v)) → Forall P (dict_set d k v).
Proof.
  intros Hd Hk HP. induction Hd as [|[k0 x] d H0 Hd IH]; cbn; [by constructor|].
  case_match; (constructor; [|assumption]); [by apply (HP k0 x)|done].
Qed.

Lemma good_dict_insert n d k v d' :
  good_dict n d → good (S depth) k → good (S depth) v → dict_insert d k v = Ok d' →
  good_dict (n + 1) d'.
Proof.
  intros (Hl&Hd&Hg) Hk Hv. unfold dict_insert. destruct (hashable k) eqn:Hh; [|done].
  intros [= <-]. split_and!.
  - rewrite <-(length_fmap fst), dict_set_keys. case_match; [rewrite length_fmap; lia|].
    rewrite length_app, length_fmap. cbn. lia.
  - rewrite dict_set_keys. case_match eqn:E; [done|]. apply keys_differ_snoc; [done|].
    apply forallb_forall. intros k' Hin. destruct (py_eq k' k) eqn:Ek; [|done].
    assert (existsb (λ k', py_eq k' k) d.*1 = true); [|congruence].
    apply existsb_exists. by exists k'.
  - apply dict_set_Forall; [done|done|]. intros k' x (?&?&_). done.
Qed.

Lemma good_map n d : (n < 2 ^ 32)%N → good_dict n d → good depth (PDict d).
Proof.
  intros Hn (Hl&Hd&Hg). rewrite Forall_forall in Hg. split_and!.
  - cbn [decodable]. apply andb_true_iff. split.
    + rewrite <-Hd. f_equal. apply list_fmap_ext. intros i kv Hi%list_elem_of_lookup_2.
      by apply Hg.
    + apply forallb_forall. intros kv Hin%list_elem_of_In.
      destruct (Hg _ Hin) as (Hh&(Hk&Hc&_)&(Hx&_)). by rewrite Hc, Hh, Hk, Hx.
  - cbn [canon]. f_equal. etrans; [|apply list_fmap_id]. apply list_fmap_ext.
    intros i [k x] Hi%list_elem_of_lookup_2. destruct (Hg _ Hi) as (_&(_&Hk&_)&(_&Hx&_)).
    simpl in *. by rewrite Hk, Hx.
  - rewrite write_obj_here. destruct (header_ok (N.of_nat (length d))) as (_&_&_&[h ->]%is_ok_inv); [lia|].
    destruct (write_pairs_ok (λ x, write_obj x (S depth)) d) as [r Hr]; [|cbn; rewrite Hr; by eexists].
    intros kv Hin. destruct (Hg _ Hin) as (_&(_&_&?)&(_&_&?)). done.
Qed.
End Values.

(** ** The reader *)

Section Reader.
Context (item : PyM bytes pyval) (depth fuel : nat) (Hdepth : depth ≤ MAX_DEPTH).
Hypothesis Hitem : ∀ lim, lim < fuel → consumes item lim 1 (good (S depth)).

(** A value is always at least a byte. *)
Lemma item_empty lim : lim < fuel → ∃ e rest, item [] = (Raise e, rest).
Proof.
  intros Hl. specialize (Hitem lim Hl [] (Nat.le_0_l _)).
  destruct (item []) as [[x|e|] rest]; [simpl in Hitem; lia|eauto|done].
Qed.

Lemma consumes_items f lim n :
  lim < f → lim < fuel →
  consumes (read_items item f n) lim 0 (λ l, N.of_nat (length l) = n ∧ Forall (good (S depth)) l).
Proof.
  revert lim n. induction f as [|f IH]; intros lim n Hf Hl; [lia|]. cbn [read_items].
  destruct (N.eqb_spec n 0) as [->|Hn]; [apply consumes_ret; by split|].
  destruct lim as [|lim].
  - intros data Hd. assert (data = []) as -> by (destruct data; [done|simpl in Hd; lia]).
    unfold mbind, pym_bind. by destruct (item_empty 0 Hl) as (e&rest&->).
  - eapply consumes_drop, (consumes_bind _ _ _ 1 0 _ _ (Hitem _ Hl)). intros x Hx.
    eapply (consumes_bind _ _ _ 0 0); [apply IH; lia|]. intros l [Hlen Hg]. apply consumes_ret.
    cbn [length]. split; [lia|by constructor].
Qed.

Lemma consumes_lift {A} (r : result A) lim (Q : A → Prop) :
  r ≠ OutOfFuel → (∀ a, r = Ok a → Q a) → consumes (lift r) lim 0 Q.
Proof. intros Hr HQ data _. unfold lift. destruct r; [split; [lia|auto]|done..]. Qed.

Lemma dict_insert_fuel d k v : dict_insert d k v ≠ OutOfFuel.
Proof. unfold dict_insert. by case_match. Qed.

Lemma consumes_pairs f lim n m d :
  lim < f → lim < fuel → good_dict depth m d →
  consumes (read_pairs item f n d) lim 0 (good_dict depth (m + n)).
Proof.
  revert lim n m d. induction f as [|f IH]; intros lim n m d Hf Hl Hd; [lia|]. cbn [read_pairs].
  destruct (N.eqb_spec n 0) as [->|Hn]; [apply consumes_ret; by rewrite N.add_0_r|].
  destruct lim as [|lim].
  - intros data Hdata. assert (data = []) as -> by (destruct data; [done|simpl in Hdata; lia]).
    unfold mbind, pym_bind. by destruct (item_empty 0 Hl) as (e&rest&->).
  - eapply consumes_drop, (consumes_bind _ _ _ 1 0 _ _ (Hitem _ Hl)). intros k Hk.
    eapply consumes_drop, (consumes_bind _ _ _ 1 0 _ _ (Hitem (S lim - 1) ltac:(lia))). intros v Hv.
    eapply (consumes_bind _ _ _ 0 0 (good_dict depth (m + 1))).
    + apply consumes_lift; [apply dict_insert_fuel|]. intros d' Hi.
      by apply (good_dict_insert _ Hdepth m d k v).
    + intros d' Hd'. replace (m + n)%N with (m + 1 + (n - 1))%N by lia. apply IH; [lia..|done].
Qed.

Lemma consumes_array lim n :
  lim < fuel → (n < 2 ^ 32)%N → consumes (read_array item fuel n) lim 0 (good depth).
Proof.
  intros Hl Hn. eapply (consumes_bind _ _ _ 0 0); [apply consumes_items; lia|].
  intros l [Hlen Hg]. apply consumes_ret, good_list; [done|lia|done].
Qed.

Lemma consumes_map lim n :
  lim < fuel → (n < 2 ^ 32)%N → consumes (read_map item fuel n) lim 0 (good depth).
Proof.
  intros Hl Hn. eapply (consumes_bind _ _ _ 0 0); [apply (consumes_pairs _ _ _ 0); [lia..|]|].
  - split_and!; [cbn; lia|done|constructor].
  - intros d Hd. by apply consumes_ret, (good_map _ Hdepth (0 + n)).
Qed.

Lemma consumes_str lim n : (n < 2 ^ 32)%N → consumes (read_str n) lim 0 (good depth).
Proof.
  intros Hn. apply (consumes_bind _ _ _ 0 0 _ _ (consumes_take lim n)). intros raw Hraw.
  apply consumes_ret. destruct (utf8_decode raw) as [s|] eqn:Hs.
  - apply (good_str _ Hdepth raw); [lia|done].
  - apply good_bytes; [done|lia].
Qed.

Lemma consumes_bin lim n : (n < 2 ^ 32)%N → consumes (read_bin n) lim 0 (good depth).
Proof.
  intros Hn. apply (consumes_bind _ _ _ 0 0 _ _ (consumes_take lim n)). intros raw Hraw.
  apply consumes_ret, good_bytes; [done|lia].
Qed.

Lemma consumes_uint lim w : w ≤ 8 → consumes (read_uint w) lim 0 (good depth).
Proof.
  intros Hw. apply (consumes_bind _ _ _ 0 0 _ _ (consumes_len lim w)). intros n Hn.
  apply consumes_ret, good_int; [done|].
  assert (256 ^ N.of_nat w <= 256 ^ 8)%N by (apply N.pow_le_mono_r; lia). lia.
Qed.

Lemma to_signed_bound w n :
  w ≤ 8 → (n < 256 ^ N.of_nat w)%N → (- 2 ^ 63 <= to_signed w n < 2 ^ 64)%Z.
Proof.
  intros Hw Hn. unfold to_signed.
  assert (Z.of_N (256 ^ N.of_nat w) = 2 ^ (8 * Z.of_nat w))%Z as Hp.
  { rewrite N2Z.inj_pow, Z.pow_mul_r by lia. by rewrite nat_N_Z. }
  assert (2 ^ (8 * Z.of_nat w) <= 2 ^ 64)%Z by (apply Z.pow_le_mono_r; lia).
  case_match; lia.
Qed.

Lemma consumes_sint lim w : w ≤ 8 → consumes (read_sint w) lim 0 (good depth).
Proof.
  intros Hw. apply (consumes_bind _ _ _ 0 0 _ _ (consumes_len lim w)). intros n Hn.
  apply consumes_ret, good_int; [done|]. by apply to_signed_bound.
Qed.

Lemma f64_of_f32_bound n : (n < 2 ^ 32)%N → (0 <= f64_of_f32 n < 2 ^ 64)%Z.
Proof.
  intros Hn. unfold f64_of_f32.
  assert (n / 2 ^ 31 <= 1)%N by (pose proof (N.div_mod n (2 ^ 31) ltac:(done)); lia).
  pose proof (N.mod_lt (n / 2 ^ 23) 256 ltac:(done)).
  pose proof (N.mod_lt n (2 ^ 23) ltac:(done)).
  pose proof (N.mod_lt (n mod 2 ^ 23) (2 ^ 22) ltac:(done)).
  generalize dependent (n mod 2 ^ 23 mod 2 ^ 22)%N. intros m'.
  generalize dependent (n mod 2 ^ 23)%N. intros m.
  generalize dependent ((n / 2 ^ 23) mod 256)%N. intros e.
  generalize dependent (n / 2 ^ 31)%N. intros s Hs He Hm Hm'.
  destruct (N.eqb_spec e 255); [destruct (N.eqb_spec m 0); lia|].
  destruct (N.eqb_spec e 0); [|lia]. destruct (N.eqb_spec m 0); [lia|].
  set (k := N.log2 m). assert (2 ^ k <= m < 2 ^ N.succ k)%N by (apply N.log2_spec; lia).
  assert (k < 23)%N by (apply N.log2_lt_pow2; lia).
  assert ((m - 2 ^ k) * 2 ^ (52 - k) < 2 ^ 52)%N as Hp.
  2:{ revert Hp. generalize ((m - 2 ^ k) * 2 ^ (52 - k))%N. lia. }
  replace (2 ^ 52)%N with (2 ^ k * 2 ^ (52 - k))%N by (rewrite <-N.pow_add_r; f_equal; lia).
  apply N.mul_lt_mono_pos_r; [apply N.neq_0_lt_0, N.pow_nonzero; lia|].
  rewrite N.pow_succ_r' in *. lia.
Qed.

Lemma land_small m mask : (mask < 2 ^ 32)%N → (N.land m mask < 2 ^ 32)%N.
Proof.
  intros Hm. eapply N.le_lt_trans; [|exact Hm]. rewrite N.land_comm. apply N.ldiff_le.
  apply N.bits_inj. intros i. rewrite N.ldiff_spec, N.land_spec, N.bits_0.
  by destruct (N.testbit mask i), (N.testbit m i).
Qed.

(** A length of [w] bytes, then what has that length. *)
Lemma consumes_sized lim w (f : N → PyM bytes pyval) :
  w ≤ 4 → (∀ n, (n < 2 ^ 32)%N → consumes (f n) lim 0 (good depth)) →
  consumes (n ← read_len w; f n) lim 0 (good depth).
Proof.
  intros Hw Hf. apply (consumes_bind _ _ _ 0 0 _ _ (consumes_len lim w)). intros n Hn.
  rewrite Nat.sub_0_r. apply Hf.
  assert (256 ^ N.of_nat w <= 256 ^ 4)%N by (apply N.pow_le_mono_r; lia). lia.
Qed.

Lemma consumes_float lim w (f : N → Z) :
  (∀ n, (n < 256 ^ N.of_nat w)%N → (0 <= f n < 2 ^ 64)%Z) →
  consumes (n ← read_len w; mret (PFloat (f n))) lim 0 (good depth).
Proof.
  intros Hf. apply (consumes_bind _ _ _ 0 0 _ _ (consumes_len lim w)). intros n Hn.
  by apply consumes_ret, good_float, Hf.
Qed.

Lemma good_const v : v = PNone ∨ (∃ b, v = PBool b) → good depth v.
Proof. intros [->|[b ->]]; (split_and!; [done..|rewrite write_obj_here by done; by eexists]). Qed.

Lemma consumes_marked lim m :
  lim < fuel → (m < 256)%N → consumes (read_marked item fuel m) lim 0 (good depth).
Proof.
  intros Hl Hm. unfold read_marked.
  destruct (N.leb_spec m 0x7f); [apply consumes_ret, good_int; [done|lia]|].
  destruct (N.leb_spec m 0x8f); [apply consumes_map; [done|by apply land_small]|].
  destruct (N.leb_spec m 0x9f); [apply consumes_array; [done|by apply land_small]|].
  destruct (N.leb_spec m 0xbf); [apply consumes_str; by apply land_small|].
  destruct (N.leb_spec 0xe0 m).
  { apply consumes_ret, good_int; [done|]. apply to_signed_bound; cbn; lia. }
  repeat case_match; try apply consumes_raise;
    try (apply consumes_ret, good_const; eauto); try (apply consumes_uint; lia);
    try (apply consumes_sint; lia);
    try (apply consumes_sized; [lia|]; intros;
         apply consumes_str || apply consumes_bin || apply consumes_array || apply consumes_map; done);
    apply consumes_float; cbn; intros; first [by apply f64_of_f32_bound|lia].
Qed.
End Reader.

Lemma consumes_value item depth fuel lim :
  depth ≤ MAX_DEPTH →
  (∀ lim, lim < fuel → consumes item lim 1 (good (S depth))) → lim ≤ fuel →
  consumes (read_value item fuel) lim 1 (good depth).
Proof.
  intros Hd Hi Hl data Hdata. destruct data as [|b data]; [done|]. rewrite read_value_cons.
  simpl in Hdata.
  pose proof (consumes_marked item depth fuel Hd Hi (length data) (n8 b) ltac:(lia) (n8_lt b)
    data ltac:(lia)) as H.
  destruct (read_marked item fuel (n8 b) data) as [[v|e|] rest]; [|done..].
  cbn [length]. destruct H. split; [lia|done].
Qed.

Lemma consumes_obj levels fuel lim :
  levels ≤ S MAX_DEPTH → lim ≤ fuel →
  consumes (read_obj levels fuel) lim 1 (good (S MAX_DEPTH - levels)).
Proof.
  revert lim. induction levels as [|levels IH]; intros lim Hlv Hl; [apply consumes_raise|].
  apply consumes_value; [lia| |done]. intros lim' Hl'.
  replace (S (S MAX_DEPTH - S levels)) with (S MAX_DEPTH - levels) by lia. apply IH; lia.
Qed.

(** ** Properties *)

(** Decoding ends on any input whatsoever, without running out of the fuel the
    model gives its loops (one unit per input byte, even where a header announces
    four billion items): it returns a value or raises. *)
Theorem decode_ends raw : decode raw ≠ OutOfFuel.
Proof.
  unfold decode. pose proof (consumes_obj (S MAX_DEPTH) (length raw) (length raw)
    ltac:(lia) ltac:(lia) raw ltac:(lia)) as H.
  destruct (read_obj _ _ _) as [[v|e|] rest]; done.
Qed.

(** C21: whatever the decoder accepts, it can write back out and read again: the
    value of any accepted input has an encoding, and that decodes to the same
    value, whatever follows it. *)
Theorem decode_encode_decode raw v :
  decode raw = Ok v → ∃ raw', encode v = Ok raw' ∧ ∀ rest, decode (raw' ++ rest) = Ok v.
Proof.
  unfold decode at 1. pose proof (consumes_obj (S MAX_DEPTH) (length raw) (length raw)
    ltac:(lia) ltac:(lia) raw ltac:(lia)) as H.
  destruct (read_obj _ _ _) as [[w|e|] rest]; [|done..]. intros [= ->].
  destruct H as (_&Hdec&Hc&raw'&Hw). exists raw'. split; [exact Hw|]. intros rest'.
  pose proof (decode_written v raw' rest' Hdec Hw) as H. by rewrite Hc in H.
Qed.

Lemma decode_encode_decode_witness :
  ∃ raw', encode (PDict [(PInt 1, PList [PFloat 0x7ff8000000000000])]) = Ok raw' ∧
    ∀ rest, decode (raw' ++ rest) = Ok (PDict [(PInt 1, PList [PFloat 0x7ff8000000000000])]).
Proof.
  apply (decode_encode_decode
    [b8 0x81; b8 0x01; b8 0x91; b8 0xca; b8 0x7f; b8 0xc0; b8 0; b8 0; b8 0xc1]).
  vm_compute. reflexivity.
Defined.

(** C20: encoding then decoding gives the value back, with tuples as lists, whatever
    bytes follow: for every value the encoder accepts, provided the keys of its
    dicts are still distinct and hashable when tuples have become lists (a dict
    keyed by tuples is written but cannot be read: [tuple_keys_unreadable]). And
    the values of the wire format ([storable]: no tuples, 64-bit integers, 32-bit
    lengths, at most 128 levels) are all accepted and come back unchanged. *)
Theorem encode_decode v :
  (∀ raw rest, encode v = Ok raw → decodable v = true → decode (raw ++ rest) = Ok (canon v)) ∧
  (storable v → canon v = v ∧ decodable v = true ∧ ∃ raw, encode v = Ok raw).
Proof.
  split.
  - intros raw rest He Hd. by apply decode_written.
  - intros [Hw Hd]. split_and!; [by apply canon_wire|by apply decodable_wire|].
    by apply write_wire.
Qed.

Lemma encode_decode_witness :
  decode ([b8 0x92; b8 0x05; b8 0xa1; b8 0x78] ++ [b8 0xff]) = Ok (PList [PInt 5; key "x"]).
Proof.
  exact (proj1 (encode_decode (PTuple [PInt 5; key "x"]))
           [b8 0x92; b8 0x05; b8 0xa1; b8 0x78] [b8 0xff] eq_refl eq_refl).
Defined.

(** What [encode] accepts and [decode] refuses: a dict whose keys are tuples. *)
Example tuple_keys_unreadable :
  (raw ← encode (PDict [(PTuple [PInt 1; PInt 2], PNone)]); decode raw) = Raise TypeError ∧
  is_ok (encode (PDict [(PTuple [PInt 1; PInt 2], PNone)])) = true.
Proof. vm_compute. done. Qed.
