(* ===== verification/Prefix.v ===== *)
(** * Prefix ranges

    [python/swarmstate/backends/_prefix.py]: the exclusive upper bound that turns
    a prefix test into an index range on a [BINARY]-collated column. *)

From Stdlib Require Import ZifyBool ZifyN.
From S2P Require Import Prelude PyValue.

Definition MAX_CODE_POINT : N := 0x10FFFF.

(** [range(0xD800, 0xE000)]: its membership test is [is_surrogate]; its stop: *)
Definition SURROGATES_stop : N := 0xE000.

(** The body of the loop: the next code point, skipping the surrogates. *)
Definition next_code_point (c : N) : N :=
  let cp := (c + 1)%N in if is_surrogate cp then SURROGATES_stop else cp.

(** [while chars: ...], with [chars] held last character first. *)
Fixpoint bump_last (rchars : pystr) : option pystr :=
  match rchars with
  | [] => None
  | c :: rest =>
      let cp := next_code_point c in
      if (cp <=? MAX_CODE_POINT)%N then Some (cp :: rest) else bump_last rest
  end.

Definition prefix_upper_bound (prefix : pystr) : option pystr :=
  reverse <$> bump_last (reverse prefix).

(** ** Lemmas *)

Lemma bump_last_Some r r' :
  bump_last r = Some r' →
  Forall (λ c, scalar c = true) r →
  ∃ n c q, r = replicate n MAX_CODE_POINT ++ c :: q ∧ (c < MAX_CODE_POINT)%N ∧
           scalar c = true ∧ r' = next_code_point c :: q.
Proof.
  intros Hb Hr. revert Hb. induction Hr as [|c r Hc Hr IH]; simpl; [done|].
  destruct (N.leb_spec (next_code_point c) MAX_CODE_POINT) as [Hle|Hgt].
  - intros [= <-]. exists 0, c, r. split_and!; [done| |done|done].
    unfold next_code_point, scalar, is_surrogate, MAX_CODE_POINT, SURROGATES_stop in *.
    destruct ((55296 <=? c + 1)%N && (c + 1 <? 57344)%N) eqn:?; lia.
  - intros Hb. destruct (IH Hb) as (n&c'&q&->&?&?&->).
    exists (S n), c', q. split_and!; [|done..]. simpl. f_equal.
    unfold next_code_point, scalar, is_surrogate, MAX_CODE_POINT, SURROGATES_stop in *.
    destruct ((55296 <=? c + 1)%N && (c + 1 <? 57344)%N) eqn:?; lia.
Qed.

Lemma bump_last_None r :
  bump_last r = None → Forall (λ c, scalar c = true) r →
  Forall (λ c, c = MAX_CODE_POINT) r.
Proof.
  intros Hb Hr. revert Hb. induction Hr as [|c r Hc Hr IH]; simpl; [constructor|].
  destruct (N.leb_spec (next_code_point c) MAX_CODE_POINT) as [Hle|Hgt]; [done|].
  intros Hb. constructor; [|auto].
  unfold next_code_point, scalar, is_surrogate, MAX_CODE_POINT, SURROGATES_stop in *.
  destruct ((55296 <=? c + 1)%N && (c + 1 <? 57344)%N) eqn:?; lia.
Qed.

(** A prefix with an upper bound, taken apart: everything before the character
    that is bumped, that character, and the maximal characters dropped. *)
Lemma prefix_upper_bound_inv p u :
  prefix_upper_bound p = Some u → valid_text p →
  ∃ q c n, p = q ++ c :: replicate n MAX_CODE_POINT ∧ (c < MAX_CODE_POINT)%N ∧
           scalar c = true ∧ u = q ++ [next_code_point c].
Proof.
  unfold prefix_upper_bound. intros (r'&Hb&->)%fmap_Some Hp.
  apply bump_last_Some in Hb as (n&c&q&Hr&?&?&->); [|by apply Forall_reverse].
  exists (reverse q), c, n. split_and!; [|done..|].
  - rewrite <-(reverse_involutive p), Hr.
    by rewrite reverse_app, reverse_cons, reverse_replicate, <-app_assoc.
  - by rewrite reverse_cons.
Qed.

Lemma str_leb_app q a b : str_leb (q ++ a) (q ++ b) = str_leb a b.
Proof. induction q as [|x q IH]; simpl; [done|]. by rewrite N.ltb_irrefl. Qed.

Lemma str_leb_cons x y a b :
  str_leb (x :: a) (y :: b) = (x <? y)%N || ((x =? y)%N && str_leb a b).
Proof.
  simpl. destruct (N.ltb_spec x y), (N.ltb_spec y x), (N.eqb_spec x y); try done; lia.
Qed.

Lemma between_shared_prefix q a b s :
  str_le (q ++ a) s → str_lt s (q ++ b) → ∃ t, s = q ++ t.
Proof.
  unfold str_lt, str_ltb, str_le. revert s. induction q as [|x q IH]; intros s; [by exists s|].
  destruct s as [|y s]; [done|]. rewrite <-!app_comm_cons, !str_leb_cons.
  intros H1 H2. assert (x = y) as -> by lia.
  rewrite N.eqb_refl, N.ltb_irrefl in *. simpl in *.
  destruct (IH s) as [t ->]; [done..|]. by exists t.
Qed.

Lemma max_run_le n t :
  valid_text t → str_le (replicate n MAX_CODE_POINT) t →
  ∃ t', t = replicate n MAX_CODE_POINT ++ t'.
Proof.
  unfold str_le. revert t. induction n as [|n IH]; intros t Ht; [by exists t|].
  destruct t as [|y t]; [done|]. apply Forall_cons_iff in Ht as [Hy Ht].
  cbn [replicate]. rewrite str_leb_cons. intros H.
  assert (y = MAX_CODE_POINT) as ->.
  { unfold scalar, MAX_CODE_POINT in *. lia. }
  destruct (IH t) as [t' ->]; [done| |by exists t']. lia.
Qed.

Lemma next_code_point_gap c x :
  scalar x = true → (c <= x)%N → (x < next_code_point c)%N → x = c.
Proof.
  unfold next_code_point, scalar, is_surrogate, SURROGATES_stop.
  destruct ((55296 <=? c + 1)%N && (c + 1 <? 57344)%N) eqn:?; lia.
Qed.

Lemma next_code_point_lt c : (c < next_code_point c)%N.
Proof.
  unfold next_code_point, is_surrogate, SURROGATES_stop.
  destruct ((55296 <=? c + 1)%N && (c + 1 <? 57344)%N) eqn:?; lia.
Qed.

Lemma str_le_app_r p t : str_le p (p ++ t).
Proof. unfold str_le. rewrite <-(app_nil_r p) at 1. by rewrite str_leb_app. Qed.

(** [str_lt] in the form the boolean order gives. *)
Lemma str_lt_nle a b : str_lt a b ↔ str_leb b a = false.
Proof. unfold str_lt, str_ltb. by rewrite negb_true_iff. Qed.

Lemma starts_with_in_range p u s :
  valid_text p → valid_text s → prefix_upper_bound p = Some u →
  starts_with p s = true ↔ str_le p s ∧ str_lt s u.
Proof.
  intros Hp Hs (q&c&n&->&Hc&Hcs&->)%prefix_upper_bound_inv; [|done].
  rewrite starts_with_spec. split.
  - intros [t ->]. split; [apply str_le_app_r|].
    rewrite <-app_assoc, str_lt_nle, str_leb_app. simpl.
    pose proof (next_code_point_lt c). destruct (N.ltb_spec (next_code_point c) c); [lia|].
    destruct (N.ltb_spec c (next_code_point c)); [done|lia].
  - intros [H1 H2]. destruct (between_shared_prefix _ _ _ _ H1 H2) as [t ->].
    revert H1 H2. rewrite str_lt_nle. unfold str_le. rewrite !str_leb_app.
    destruct t as [|x t]; [done|]. rewrite !str_leb_cons. intros H1 H2.
    apply Forall_app in Hs as [_ [Hx Ht]%Forall_cons_iff].
    change (str_leb [] t) with true in H2.
    assert (x = c) as -> by (apply next_code_point_gap; [done|lia..]).
    destruct (max_run_le n t) as [t' ->]; [done|unfold str_le; lia|].
    exists t'. by rewrite <-app_assoc.
Qed.

(** A longer run of maximal characters is above any text. *)
Lemma max_run_lt n s :
  valid_text s → length s < n → str_lt s (replicate n MAX_CODE_POINT).
Proof.
  intros Hs. revert n. induction Hs as [|c s Hc _ IH]; intros [|n] Hn; simpl in Hn; [lia|done|lia|].
  specialize (IH n ltac:(lia)). rewrite str_lt_nle in *. cbn [replicate].
  rewrite str_leb_cons, IH. unfold scalar, MAX_CODE_POINT in *. lia.
Qed.

Lemma prefix_upper_bound_least p u s :
  valid_text p → valid_text s → prefix_upper_bound p = Some u →
  (∀ t, valid_text t → starts_with p t = true → str_lt t s) → str_le u s.
Proof.
  intros Hp Hs Hu Hall. destruct (str_leb u s) eqn:E; [done|].
  exfalso. assert (str_lt s u) as Hsu by (by apply str_lt_nle).
  assert (str_lt p s) as Hps.
  { apply Hall; [done|]. apply starts_with_spec. exists []. by rewrite app_nil_r. }
  apply str_lt_le in Hps as [Hps _]. apply (str_lt_irrefl s), Hall; [done|].
  by apply (starts_with_in_range p u).
Qed.

Lemma next_code_point_scalar c :
  scalar c = true → (c < MAX_CODE_POINT)%N → scalar (next_code_point c) = true.
Proof.
  unfold next_code_point, scalar, is_surrogate, MAX_CODE_POINT, SURROGATES_stop.
  destruct ((55296 <=? c + 1)%N && (c + 1 <? 57344)%N) eqn:?; lia.
Qed.

Lemma prefix_upper_bound_valid p u :
  prefix_upper_bound p = Some u → valid_text p → valid_text u.
Proof.
  intros Hu Hp. destruct (prefix_upper_bound_inv _ _ Hu Hp) as (q&c&n&->&Hc&Hs&->).
  apply valid_text_app in Hp as [Hq _]. apply valid_text_app. split; [done|].
  constructor; [by apply next_code_point_scalar|constructor].
Qed.

Lemma prefix_upper_bound_None p :
  prefix_upper_bound p = None → valid_text p → Forall (λ c, c = MAX_CODE_POINT) p.
Proof.
  unfold prefix_upper_bound. intros Hb%fmap_None Hp. rewrite <-(reverse_involutive p).
  apply Forall_reverse, bump_last_None; [done|by apply Forall_reverse].
Qed.

(** ** Properties *)

(** C16: [prefix_upper_bound(p)] is the supremum its docstring promises. When it
    returns [u]: [u] can be stored, [p <= s < u] holds of exactly the texts that
    start with [p] (so the range query answers the prefix query), and [u] is the
    smallest such bound. When it returns [None], [p] holds nothing but U+10FFFF,
    and indeed no text is above every text with the prefix. *)
Theorem prefix_upper_bound_sup p :
  valid_text p →
  (∀ u, prefix_upper_bound p = Some u →
     valid_text u ∧
     (∀ s, valid_text s → starts_with p s = true ↔ str_le p s ∧ str_lt s u) ∧
     (∀ s, valid_text s →
        (∀ t, valid_text t → starts_with p t = true → str_lt t s) → str_le u s)) ∧
  (prefix_upper_bound p = None →
     Forall (λ c, c = MAX_CODE_POINT) p ∧
     ∀ s, valid_text s → ∃ t, valid_text t ∧ starts_with p t = true ∧ str_lt s t).
Proof.
  intros Hp. split.
  - intros u Hu. split_and!; [by eapply prefix_upper_bound_valid|..].
    + intros s Hs. by apply starts_with_in_range.
    + intros s Hs. by apply prefix_upper_bound_least.
  - intros Hn. pose proof (prefix_upper_bound_None p Hn Hp) as Hmax. split; [done|].
    intros s Hs. exists (p ++ replicate (S (length s)) MAX_CODE_POINT). split_and!.
    + apply valid_text_app. split; [done|]. by apply Forall_replicate.
    + apply starts_with_app.
    + rewrite <-(proj2 (replicate_as_Forall MAX_CODE_POINT (length p) p)), <-replicate_add.
      2:{ split; [done|]. by eapply Forall_impl; [exact Hmax|]. }
      apply max_run_lt; [done|lia].
Qed.

Lemma prefix_upper_bound_sup_witness :
  prefix_upper_bound (lit "t1|" ++ [0x10FFFF%N]) = Some (lit "t1}") ∧
  (starts_with (lit "t1|" ++ [0x10FFFF%N]) (lit "t1|x") = true ↔
   str_le (lit "t1|" ++ [0x10FFFF%N]) (lit "t1|x") ∧ str_lt (lit "t1|x") (lit "t1}")).
Proof.
  split; [reflexivity|].
  refine (proj1 (proj2 (proj1 (prefix_upper_bound_sup (lit "t1|" ++ [0x10FFFF%N]) _)
            (lit "t1}") eq_refl)) (lit "t1|x") _); by apply (bool_decide_unpack _).
Defined.
