(* ===== verification/Store.v ===== *)
(** * The store contract

    [python/swarmstate/protocols.py] writes down the interface every backend has;
    [StoreOps] is that interface as a class of monadic operations, with the
    batch methods optional as the LangGraph adapter treats them ([getattr(store,
    "get_many", None)]). [StoreSpec] is what the adapters rely on: every
    operation acts on an abstract map from [(namespace, key)] to values. The
    clients (LangGraph, CrewAI, portability) are verified against [StoreSpec],
    and each backend proves an instance of it. *)

From S2P Require Import Prelude PyValue.

(** The abstract content of a store. *)
Abbreviation kv := (gmap (pystr * pystr) pyval).

(** ** The interface *)

Class StoreOps (S : Type) := {
  op_set : pystr → pystr → pyval → PyM S unit;
  op_get : pystr → pystr → PyM S pyval;
  op_contains : pystr → pystr → PyM S bool;
  op_delete : pystr → pystr → PyM S bool;
  op_keys : pystr → option pystr → PyM S (list pystr);
  op_max_key : pystr → PyM S (option pystr);
  op_namespaces : option pystr → PyM S (list pystr);
  op_set_many : option (list (pystr * pystr * pyval) → PyM S unit);
  op_get_many : option (list (pystr * pystr) → PyM S (list pyval));
  op_delete_many : option (list (pystr * pystr) → PyM S Z);
  op_delete_namespace : option (pystr → PyM S Z);
  op_indexed_max_key : bool;
  op_supports_async : bool;
}.

(** ** What the operations mean on the abstract map *)

Definition kv_get (m : kv) (ns k : pystr) : pyval := from_option id PNone (m !! (ns, k)).

#[global] Arguments kv_get : simpl never.

Definition kv_set_many (items : list (pystr * pystr * pyval)) (m : kv) : kv :=
  foldl (λ m i, <[i.1 := i.2]> m) m items.

Definition kv_delete_many (pairs : list (pystr * pystr)) (m : kv) : kv :=
  foldl (λ m p, delete p m) m pairs.

Definition kv_delete_namespace (ns : pystr) (m : kv) : kv :=
  filter (λ e, e.1.1 ≠ ns) m.

(** How many entries an operation that took [m] to [m'] removed. *)
Definition kv_removed {V} (m m' : gmap (pystr * pystr) V) : Z :=
  (Z.of_nat (size m) - Z.of_nat (size m'))%Z.

Definition has_prefix (pfx : option pystr) (s : pystr) : bool :=
  match pfx with None => true | Some p => starts_with p s end.

(** [l] lists the keys of [ns] that start with [pfx], each once, in some order. *)
Definition lists_keys (m : kv) (ns : pystr) (pfx : option pystr) (l : list pystr) : Prop :=
  NoDup l ∧ ∀ k, k ∈ l ↔ is_Some (m !! (ns, k)) ∧ has_prefix pfx k = true.

Definition lists_namespaces (m : kv) (pfx : option pystr) (l : list pystr) : Prop :=
  NoDup l ∧ ∀ ns, ns ∈ l ↔ (∃ k, is_Some (m !! (ns, k))) ∧ has_prefix pfx ns = true.

(** ** The laws *)

(** Laws for the names [P] a backend takes; every backend but Postgres takes all
    that can be encoded, which is what the adapters are verified against. *)
Class StoreLaws (P : pystr → Prop) (S : Type) `{!StoreOps S} := {
  sv_view : S → kv;
  sv_ok : S → Prop;
  (** whether [keys]/[namespaces] take the [prefix] argument *)
  sv_takes_prefix : bool;

  sv_text s ns k v :
    sv_ok s → sv_view s !! (ns, k) = Some v → P ns ∧ P k ∧ storable v;
  set_spec s ns k v :
    sv_ok s → P ns → P k → storable v →
    wp (op_set ns k v) s (λ _ s', sv_ok s' ∧ sv_view s' = <[(ns, k) := v]> (sv_view s));
  get_spec s ns k :
    sv_ok s → P ns → P k →
    wp (op_get ns k) s (λ v s', (sv_ok s' ∧ sv_view s' = sv_view s) ∧ v = kv_get (sv_view s) ns k);
  contains_spec s ns k :
    sv_ok s → P ns → P k →
    wp (op_contains ns k) s (λ b s', (sv_ok s' ∧ sv_view s' = sv_view s) ∧
      b = bool_decide (is_Some (sv_view s !! (ns, k))));
  delete_spec s ns k :
    sv_ok s → P ns → P k →
    wp (op_delete ns k) s (λ b s', (sv_ok s' ∧ sv_view s' = delete (ns, k) (sv_view s)) ∧
      b = bool_decide (is_Some (sv_view s !! (ns, k))));
  keys_spec s ns :
    sv_ok s → P ns →
    wp (op_keys ns None) s (λ l s', (sv_ok s' ∧ sv_view s' = sv_view s) ∧
      lists_keys (sv_view s) ns None l);
  keys_prefix_spec s ns p :
    sv_ok s → P ns → P p →
    if sv_takes_prefix
    then wp (op_keys ns (Some p)) s (λ l s', (sv_ok s' ∧ sv_view s' = sv_view s) ∧
           lists_keys (sv_view s) ns (Some p) l)
    else op_keys ns (Some p) s = (Raise TypeError, s);
  max_key_spec s ns :
    sv_ok s → P ns →
    wp (op_max_key ns) s (λ o s', (sv_ok s' ∧ sv_view s' = sv_view s) ∧
      ∃ l, lists_keys (sv_view s) ns None l ∧ o = py_max l);
  namespaces_spec s :
    sv_ok s →
    wp (op_namespaces None) s (λ l s', (sv_ok s' ∧ sv_view s' = sv_view s) ∧
      lists_namespaces (sv_view s) None l);
  namespaces_prefix_spec s p :
    sv_ok s → P p →
    if sv_takes_prefix
    then wp (op_namespaces (Some p)) s (λ l s', (sv_ok s' ∧ sv_view s' = sv_view s) ∧
           lists_namespaces (sv_view s) (Some p) l)
    else op_namespaces (Some p) s = (Raise TypeError, s);
  set_many_spec f s items :
    op_set_many = Some f → sv_ok s →
    Forall (λ i, P i.1.1 ∧ P i.1.2 ∧ storable i.2) items →
    wp (f items) s (λ _ s', sv_ok s' ∧ sv_view s' = kv_set_many items (sv_view s));
  get_many_spec f s pairs :
    op_get_many = Some f → sv_ok s →
    Forall (λ p, P p.1 ∧ P p.2) pairs →
    wp (f pairs) s (λ l s', (sv_ok s' ∧ sv_view s' = sv_view s) ∧
      l = (λ p, kv_get (sv_view s) p.1 p.2) <$> pairs);
  delete_many_spec f s pairs :
    op_delete_many = Some f → sv_ok s →
    Forall (λ p, P p.1 ∧ P p.2) pairs →
    wp (f pairs) s (λ n s', (sv_ok s' ∧ sv_view s' = kv_delete_many pairs (sv_view s)) ∧
      n = kv_removed (sv_view s) (kv_delete_many pairs (sv_view s)));
  delete_namespace_spec f s ns :
    op_delete_namespace = Some f → sv_ok s → P ns →
    wp (f ns) s (λ n s', (sv_ok s' ∧ sv_view s' = kv_delete_namespace ns (sv_view s)) ∧
      n = kv_removed (sv_view s) (kv_delete_namespace ns (sv_view s)));
}.

Abbreviation StoreSpec := (StoreLaws valid_text).

(** ** Lemmas on the abstract map *)

Lemma lists_keys_perm m ns pfx l l' :
  lists_keys m ns pfx l → lists_keys m ns pfx l' → l ≡ₚ l'.
Proof.
  intros [Hnd Hl] [Hnd' Hl']. apply NoDup_Permutation; [done..|].
  intros k. by rewrite Hl, Hl'.
Qed.

Lemma lists_namespaces_perm m pfx l l' :
  lists_namespaces m pfx l → lists_namespaces m pfx l' → l ≡ₚ l'.
Proof.
  intros [Hnd Hl] [Hnd' Hl']. apply NoDup_Permutation; [done..|].
  intros k. by rewrite Hl, Hl'.
Qed.

Lemma kv_set_many_app is1 is2 m :
  kv_set_many (is1 ++ is2) m = kv_set_many is2 (kv_set_many is1 m).
Proof. apply foldl_app. Qed.

Lemma kv_set_many_lookup_ne items m p :
  p ∉ items.*1 → kv_set_many items m !! p = m !! p.
Proof.
  revert m. induction items as [|[q v] items IH]; intros m; simpl; [done|].
  intros [Hne Hin]%not_elem_of_cons. unfold kv_set_many in *. simpl. rewrite IH by done.
  by rewrite lookup_insert_ne.
Qed.

Lemma kv_set_many_lookup items m p v :
  NoDup (items.*1) → (p, v) ∈ items → kv_set_many items m !! p = Some v.
Proof.
  revert m. induction items as [|[q w] items IH]; intros m; simpl; [by intros ? ?%not_elem_of_nil|].
  intros [Hq Hnd]%NoDup_cons [[= -> ->]|Hin]%elem_of_cons.
  - unfold kv_set_many. simpl. fold (kv_set_many items (<[q:=w]> m)).
    rewrite kv_set_many_lookup_ne by done. apply lookup_insert_eq.
  - by apply IH.
Qed.

Lemma kv_delete_many_lookup pairs m p :
  kv_delete_many pairs m !! p = if decide (p ∈ pairs) then None else m !! p.
Proof.
  revert m. induction pairs as [|q pairs IH]; intros m; simpl.
  - destruct (decide (p ∈ [])) as [H|_]; [by apply not_elem_of_nil in H|done].
  - unfold kv_delete_many in *. simpl. rewrite IH.
    destruct (decide (p ∈ pairs)) as [Hp|Hp], (decide (p ∈ q :: pairs)) as [Hq|Hq]; try done.
    + destruct Hq. by right.
    + apply elem_of_cons in Hq as [->|]; [|done]. apply lookup_delete_eq.
    + apply not_elem_of_cons in Hq as [? ?]. by rewrite lookup_delete_ne.
Qed.

Lemma delete_ns_lookup {V} (m : gmap (pystr * pystr) V) (ns : pystr) p :
  filter (λ e, e.1.1 ≠ ns) m !! p = if decide (p.1 = ns) then None else m !! p.
Proof.
  case_decide as Hp.
  - apply map_lookup_filter_None. right. intros v Hv []. done.
  - destruct (m !! p) as [v|] eqn:E.
    + apply map_lookup_filter_Some. done.
    + apply map_lookup_filter_None. by left.
Qed.

Lemma kv_delete_namespace_lookup ns m p :
  kv_delete_namespace ns m !! p = if decide (p.1 = ns) then None else m !! p.
Proof. apply delete_ns_lookup. Qed.

Lemma lists_keys_filter m ns p l :
  lists_keys m ns None l →
  lists_keys m ns (Some p) (filter (λ k, starts_with p k = true) l).
Proof.
  intros [Hnd Hl]. split; [by apply NoDup_filter|].
  intros k. rewrite list_elem_of_filter, Hl. clear. simpl. intuition.
Qed.

Lemma lists_namespaces_filter m p l :
  lists_namespaces m None l →
  lists_namespaces m (Some p) (filter (λ k, starts_with p k = true) l).
Proof.
  intros [Hnd Hl]. split; [by apply NoDup_filter|].
  intros k. rewrite list_elem_of_filter, Hl. clear. simpl. intuition.
Qed.

(** A listing of a map's keys has the map's size. *)
Lemma listed_size {V} (m : gmap (pystr * pystr) V) (l : list (pystr * pystr)) :
  NoDup l → (∀ p, p ∈ l ↔ is_Some (m !! p)) → size m = length l.
Proof.
  intros Hnd Hl. rewrite <-size_dom, <-(size_list_to_set (C:=gset _)) by done. f_equal.
  apply set_eq. intros p. rewrite elem_of_dom, elem_of_list_to_set. by rewrite Hl.
Qed.

Section Removed.
Context {V : Type}.
Implicit Types (m : gmap (pystr * pystr) V) (ns : pystr) (p : pystr * pystr).

Lemma kv_removed_trans m1 m2 m3 : (kv_removed m1 m2 + kv_removed m2 m3 = kv_removed m1 m3)%Z.
Proof. unfold kv_removed. lia. Qed.

Lemma kv_removed_fmap {W} (f : V → W) m m' : kv_removed (f <$> m) (f <$> m') = kv_removed m m'.
Proof. unfold kv_removed. by rewrite !map_size_fmap. Qed.

Lemma kv_removed_delete m p :
  kv_removed m (delete p m) = if decide (is_Some (m !! p)) then 1%Z else 0%Z.
Proof.
  unfold kv_removed. destruct (m !! p) as [v|] eqn:Hp.
  - rewrite decide_True by done. rewrite map_size_delete_Some by done.
    assert (size m ≠ 0); [|lia]. apply map_size_non_empty_iff. by intros ->.
  - rewrite decide_False by by intros []. rewrite delete_id by done. lia.
Qed.

(** The count of a batch depends on what the map holds at its pairs. *)
Lemma kv_removed_deletes_agree (m m' : gmap (pystr * pystr) V) (l : list (pystr * pystr)) :
  (∀ p, p ∈ l → m !! p = m' !! p) →
  kv_removed m (foldl (λ t p, delete p t) m l) = kv_removed m' (foldl (λ t p, delete p t) m' l).
Proof.
  revert m m'. induction l as [|p l IH]; intros m m' H; cbn [foldl]; [unfold kv_removed; lia|].
  rewrite <-(kv_removed_trans m (delete p m)), <-(kv_removed_trans m' (delete p m')).
  rewrite !kv_removed_delete, (H p) by left. f_equal. apply IH. intros q Hq.
  destruct (decide (p = q)) as [->|Hne]; [by rewrite !lookup_delete_eq|].
  rewrite !lookup_delete_ne by done. apply H. by right.
Qed.

Lemma kv_removed_filter m ns :
  kv_removed m (filter (λ e, e.1.1 ≠ ns) m) = Z.of_nat (size (filter (λ e, e.1.1 = ns) m)).
Proof.
  unfold kv_removed. rewrite <-(map_filter_union_complement (λ e, e.1.1 = ns) m) at 1.
  rewrite map_size_disj_union by apply map_disjoint_filter_complement. lia.
Qed.

(** Deleting a namespace removes as many entries as it has keys. *)
Lemma kv_removed_keys m ns (l : list pystr) :
  NoDup l → (∀ k, k ∈ l ↔ is_Some (m !! (ns, k))) →
  kv_removed m (filter (λ e, e.1.1 ≠ ns) m) = Z.of_nat (length l).
Proof.
  intros Hnd Hl. rewrite kv_removed_filter. f_equal.
  rewrite (listed_size _ ((λ k, (ns, k)) <$> l)); [apply length_fmap| |].
  - apply NoDup_fmap_2; [|done]. by intros ?? [= ?].
  - intros [a b]. rewrite list_elem_of_fmap. split.
    + intros (k&[= -> ->]&[v Hv]%Hl). exists v. by apply map_lookup_filter_Some.
    + intros [v [Hv Ha]%map_lookup_filter_Some]. cbn in Ha. subst. exists b. split; [done|].
      apply Hl. by exists v.
Qed.
End Removed.

Lemma lists_keys_removed m ns l :
  lists_keys m ns None l → kv_removed m (kv_delete_namespace ns m) = Z.of_nat (length l).
Proof.
  intros [Hnd Hl]. apply kv_removed_keys; [done|]. intros k. rewrite Hl. cbn. tauto.
Qed.

(** ** The reference store

    The contract itself as a store: the state is the abstract map. Its three
    flags choose which optional features it has, so that the clients' fallback
    paths can be run as well. It serves as the specification the backends are
    compared with, and as the concrete store of the examples. *)

Section RefStore.
Context (batch prefix indexed : bool).

Definition ref_keys (m : kv) (ns : pystr) : list pystr :=
  snd <$> filter (λ p, p.1 = ns) (map_to_list m).*1.

Definition ref_namespaces (m : kv) : list pystr :=
  remove_dups (fst <$> (map_to_list m).*1).

Definition with_prefix (pfx : option pystr) (l : list pystr) : PyM kv (list pystr) :=
  match pfx with
  | None => mret l
  | Some p => if prefix then mret (filter (λ k, starts_with p k = true) l) else raise TypeError
  end.

Definition opt_method {A} (f : A) : option A := if batch then Some f else None.

Definition ref_ops : StoreOps kv := {|
  op_set ns k v := modify <[(ns, k) := v]>;
  op_get ns k := gets (λ m, kv_get m ns k);
  op_contains ns k := gets (λ m, bool_decide (is_Some (m !! (ns, k))));
  op_delete ns k := λ m, (Ok (bool_decide (is_Some (m !! (ns, k)))), delete (ns, k) m);
  op_keys ns pfx := m ← get_state; with_prefix pfx (ref_keys m ns);
  op_max_key ns := gets (λ m, py_max (ref_keys m ns));
  op_namespaces pfx := m ← get_state; with_prefix pfx (ref_namespaces m);
  op_set_many := opt_method (λ items, modify (kv_set_many items));
  op_get_many := opt_method (λ pairs, gets (λ m, (λ p, kv_get m p.1 p.2) <$> pairs));
  op_delete_many := opt_method (λ pairs m,
    (Ok (kv_removed m (kv_delete_many pairs m)), kv_delete_many pairs m));
  op_delete_namespace := opt_method (λ ns m,
    (Ok (Z.of_nat (length (ref_keys m ns))), kv_delete_namespace ns m));
  op_indexed_max_key := indexed;
  op_supports_async := true;
|}.

Definition entry_ok (p : pystr * pystr) (v : pyval) : Prop :=
  valid_text p.1 ∧ valid_text p.2 ∧ storable v.
Definition kv_ok (m : kv) : Prop := map_Forall entry_ok m.

Lemma kv_ok_insert m ns k v :
  kv_ok m → valid_text ns → valid_text k → storable v → kv_ok (<[(ns, k):=v]> m).
Proof. intros. by apply map_Forall_insert_2. Qed.

Lemma kv_ok_subset m m' : (∀ p v, m' !! p = Some v → m !! p = Some v) → kv_ok m → kv_ok m'.
Proof. intros Hs Hm p v Hp. apply Hm, Hs, Hp. Qed.

Lemma kv_ok_set_many items m :
  kv_ok m → Forall (λ i, valid_text i.1.1 ∧ valid_text i.1.2 ∧ storable i.2) items →
  kv_ok (kv_set_many items m).
Proof.
  intros Hm Hi. revert m Hm. induction Hi as [|[[ns k] v] items (?&?&?) _ IH]; intros m Hm;
    [done|]. apply IH. by apply kv_ok_insert.
Qed.

Lemma ref_keys_lists m ns : lists_keys m ns None (ref_keys m ns).
Proof.
  unfold ref_keys. split.
  - apply NoDup_fmap_2_strong.
    + intros [a b] [c d] [Ha _]%list_elem_of_filter [Hc _]%list_elem_of_filter ?. simpl in *.
      congruence.
    + apply NoDup_filter, NoDup_fst_map_to_list.
  - intros k. rewrite list_elem_of_fmap. split.
    + intros [[a b] [-> [Ha Hin]%list_elem_of_filter]]. simpl in *. subst.
      apply list_elem_of_fmap in Hin as [[p v] [-> Hin]]. apply elem_of_map_to_list in Hin.
      by split; [exists v|].
    + intros [[v Hv] _]. exists (ns, k). split; [done|]. apply list_elem_of_filter.
      split; [done|]. apply list_elem_of_fmap. exists (ns, k, v).
      by rewrite elem_of_map_to_list.
Qed.

Lemma ref_namespaces_lists m : lists_namespaces m None (ref_namespaces m).
Proof.
  unfold ref_namespaces. split; [apply NoDup_remove_dups|].
  intros ns. rewrite elem_of_remove_dups, list_elem_of_fmap. split.
  - intros [[a b] [-> Hin]]. apply list_elem_of_fmap in Hin as [[p v] [-> Hin]].
    apply elem_of_map_to_list in Hin. split; [|done]. exists p.2. exists v.
    by rewrite <-surjective_pairing.
  - intros [[k [v Hv]] _]. exists (ns, k). split; [done|]. apply list_elem_of_fmap.
    exists (ns, k, v). by rewrite elem_of_map_to_list.
Qed.

#[refine] Definition ref_spec : @StoreSpec kv ref_ops := {|
  sv_view (m : kv) := m;
  sv_ok := kv_ok;
  sv_takes_prefix := prefix;
|}.
Proof.
  all: unfold ref_ops, opt_method; simpl.
  - intros m ns k v Hm Hv. apply (Hm _ _ Hv).
  - intros m ns k v Hm ???. split; [by apply kv_ok_insert|done].
  - done.
  - done.
  - intros m ns k Hm ??. unfold wp. split; [|done]. split; [|done].
    eapply kv_ok_subset; [|done]. intros p v [_ ?]%lookup_delete_Some. done.
  - intros m ns Hm ?. split; [done|]. apply ref_keys_lists.
  - intros m ns p Hm ??. destruct prefix; [|done].
    split; [done|]. apply lists_keys_filter, ref_keys_lists.
  - intros m ns Hm ?. split; [done|]. eauto using ref_keys_lists.
  - intros m Hm. split; [done|]. apply ref_namespaces_lists.
  - intros m p Hm ?. destruct prefix; [|done].
    split; [done|]. apply lists_namespaces_filter, ref_namespaces_lists.
  - intros f m items Hf Hm Hi. destruct batch; simplify_eq. apply wp_modify.
    split; [by apply kv_ok_set_many|done].
  - intros f m pairs Hf Hm Hi. destruct batch; by simplify_eq.
  - intros f m pairs Hf Hm Hi. destruct batch; simplify_eq. split; [|done]. split; [|done].
    eapply kv_ok_subset; [|done]. intros p v. rewrite kv_delete_many_lookup. by case_decide.
  - intros f m ns Hf Hm Hi. destruct batch; simplify_eq. split; [|symmetry; apply lists_keys_removed, ref_keys_lists].
    split; [|done]. eapply kv_ok_subset; [|done]. intros p v. rewrite kv_delete_namespace_lookup.
    by case_decide.
Defined.
End RefStore.
