(* ===== verification/SnapshotLaws.v ===== *)
(** * Snapshots as an interface

    [protocols.py] gives every store [snapshot()] and [restore(snapshot)].
    [SnapshotOps] is that part of the interface and [SnapshotLaws] what a client
    relies on: a snapshot leaves the store alone and holds its content, and
    restoring it brings that content back, whatever the store holds by then. *)

From S2P Require Import Prelude PyValue Store.

(** The clock reading a store stamps a snapshot with is an argument. *)
Class SnapshotOps (S : Type) := {
  Snap : Type;
  op_snapshot : Z → PyM S Snap;
  op_restore : Snap → PyM S unit;
}.
#[global] Arguments Snap S {_}.

Class SnapshotLaws (P : pystr → Prop) (S : Type) `{!StoreOps S} `{!StoreLaws P S}
    `{!SnapshotOps S} := {
  (** the content a snapshot holds *)
  snap_holds : Snap S → kv → Prop;
  snapshot_spec now s :
    sv_ok s →
    wp (op_snapshot now) s (λ d s', (sv_ok s' ∧ sv_view s' = sv_view s) ∧
      snap_holds d (sv_view s));
  restore_spec d m s :
    sv_ok s → snap_holds d m →
    wp (op_restore d) s (λ _ s', sv_ok s' ∧ sv_view s' = m);
}.

(** ** The reference store

    Its snapshots are its contents. *)

Section RefSnapshots.
Context (batch prefix indexed : bool).

Definition ref_snapshots : SnapshotOps kv := {|
  Snap := kv;
  op_snapshot _ := get_state;
  op_restore m := modify (λ _, m);
|}.

Definition ref_holds (d m : kv) : Prop := d = m ∧ kv_ok m.

#[refine] Definition ref_snapshot_laws :
  @SnapshotLaws valid_text kv (ref_ops batch prefix indexed) (ref_spec batch prefix indexed)
    ref_snapshots := {| snap_holds := (ref_holds : @Snap kv ref_snapshots → kv → Prop) |}.
Proof.
  - intros now m Hm. by apply wp_ret.
  - intros c m s _ [-> Hm]. by apply wp_modify.
Defined.
End RefSnapshots.
