(* ===== verification/StoreTrace.v ===== *)
(** * Stores as interchangeable

    [protocols.py] claims that every backend can stand in for any other. Stated
    here for sequences of calls: a client that makes calls through the interface
    sees, from any store that meets [StoreSpec], the answers the reference store
    gives, the counts of the batch deletes included. A listing is compared as [sorted(...)], since the interface leaves its
    order open. *)

From S2P Require Import Prelude PyValue Store.

(** The calls of [StoreLike] on keys and values. *)
Inductive Call :=
  | CSet (ns k : pystr) (v : pyval)
  | CGet (ns k : pystr)
  | CContains (ns k : pystr)
  | CDelete (ns k : pystr)
  | CKeys (ns : pystr) (pfx : option pystr)
  | CMaxKey (ns : pystr)
  | CNamespaces (pfx : option pystr)
  | CSetMany (items : list (pystr * pystr * pyval))
  | CGetMany (pairs : list (pystr * pystr))
  | CDeleteMany (pairs : list (pystr * pystr))
  | CDeleteNamespace (ns : pystr).

Inductive Answer :=
  | ADone
  | AValue (v : pyval)
  | AValues (l : list pyval)
  | ABool (b : bool)
  | ACount (n : Z)
  | ANames (l : list pystr)
  | AName (o : option pystr).

Section Calls.
Context {S : Type} (ops : StoreOps S).

(** An optional method that is missing. *)
Definition method {A} (o : option A) : PyM S A := lift (or_raise AttributeError o).

Definition run_call (c : Call) : PyM S Answer :=
  match c with
  | CSet ns k v => op_set ns k v ;; mret ADone
  | CGet ns k => v ← op_get ns k; mret (AValue v)
  | CContains ns k => b ← op_contains ns k; mret (ABool b)
  | CDelete ns k => b ← op_delete ns k; mret (ABool b)
  | CKeys ns pfx => l ← op_keys ns pfx; mret (ANames (py_sorted l))
  | CMaxKey ns => o ← op_max_key ns; mret (AName o)
  | CNamespaces pfx => l ← op_namespaces pfx; mret (ANames (py_sorted l))
  | CSetMany items => f ← method op_set_many; f items ;; mret ADone
  | CGetMany pairs => f ← method op_get_many; l ← f pairs; mret (AValues l)
  | CDeleteMany pairs => f ← method op_delete_many; n ← f pairs; mret (ACount n)
  | CDeleteNamespace ns => f ← method op_delete_namespace; n ← f ns; mret (ACount n)
  end.

Definition run_calls (cs : list Call) : PyM S (list Answer) := mapM run_call cs.
End Calls.

(** Arguments a store can take: names [P], values of the wire format. *)
Definition call_takes (P : pystr → Prop) (c : Call) : Prop :=
  match c with
  | CSet ns k v => P ns ∧ P k ∧ storable v
  | CGet ns k | CContains ns k | CDelete ns k => P ns ∧ P k
  | CKeys ns pfx => P ns ∧ from_option P True pfx
  | CMaxKey ns | CDeleteNamespace ns => P ns
  | CNamespaces pfx => from_option P True pfx
  | CSetMany items => Forall (λ i, P i.1.1 ∧ P i.1.2 ∧ storable i.2) items
  | CGetMany pairs | CDeleteMany pairs => Forall (λ p, P p.1 ∧ P p.2) pairs
  end.

Definition call_ok : Call → Prop := call_takes valid_text.

(** A store with every optional method, and prefix listings. *)
Definition complete {P S} `{!StoreOps S} `{!StoreLaws P S} : Prop :=
  sv_takes_prefix = true ∧ is_Some op_set_many ∧ is_Some op_get_many ∧
  is_Some op_delete_many ∧ is_Some op_delete_namespace.

(** The answers and the content the reference store gives. *)
Definition reference (indexed : bool) : StoreOps kv := ref_ops true true indexed.

Section Simulation.
Context {P : pystr → Prop} {S : Type} {ops : StoreOps S} {spec : StoreLaws P S} (indexed : bool).
Hypothesis Hcomplete : complete.

(** [s'] answers [a] where the reference store at [m] answers [a] and goes to
    the content of [s']. *)
Definition simulates {A} (m : PyM S A) (r : PyM kv A) (s : S) : Prop :=
  wp m s (λ a s', sv_ok s' ∧ r (sv_view s) = (Ok a, sv_view s')).

Lemma simulates_read {A B} (m : PyM S A) (s : S) (f : A → B) (r : PyM kv B) (R : A → Prop) :
  wp m s (λ a s', (sv_ok s' ∧ sv_view s' = sv_view s) ∧ R a) →
  (∀ a, R a → r (sv_view s) = (Ok (f a), sv_view s)) →
  simulates (a ← m; mret (f a)) r s.
Proof.
  intros Hm Hr. eapply wp_bind_mono; [exact Hm|]. intros a s' [[Hok Hv] Ha].
  apply wp_ret. split; [done|]. rewrite Hv. by apply Hr.
Qed.

Lemma simulates_write {A} (m : PyM S A) (s : S) (r : PyM kv Answer) (g : kv → kv) :
  wp m s (λ _ s', sv_ok s' ∧ sv_view s' = g (sv_view s)) →
  r (sv_view s) = (Ok ADone, g (sv_view s)) →
  simulates (m ;; mret ADone) r s.
Proof.
  intros Hm Hr. eapply wp_bind_mono; [exact Hm|]. intros a s' [Hok Hv].
  apply wp_ret. split; [done|]. by rewrite Hv.
Qed.

Lemma simulates_count (m : PyM S Z) (s : S) (r : PyM kv Answer) (g : kv → kv) :
  wp m s (λ n s', (sv_ok s' ∧ sv_view s' = g (sv_view s)) ∧
    n = kv_removed (sv_view s) (g (sv_view s))) →
  r (sv_view s) = (Ok (ACount (kv_removed (sv_view s) (g (sv_view s)))), g (sv_view s)) →
  simulates (n ← m; mret (ACount n)) r s.
Proof.
  intros Hm Hr. eapply wp_bind_mono; [exact Hm|]. intros n s' [[Hok Hv] ->].
  apply wp_ret. split; [done|]. by rewrite Hv.
Qed.

Lemma ref_keys_filter_perm (m : kv) (ns : pystr) pfx l :
  lists_keys m ns pfx l → l ≡ₚ filter (λ k, has_prefix pfx k = true) (ref_keys m ns).
Proof.
  intros H. eapply lists_keys_perm; [exact H|]. destruct pfx as [p|]; simpl.
  - apply lists_keys_filter, ref_keys_lists.
  - rewrite filter_all; [apply ref_keys_lists|]. by apply Forall_forall.
Qed.

Lemma ref_namespaces_filter_perm (m : kv) pfx l :
  lists_namespaces m pfx l →
  l ≡ₚ filter (λ k, has_prefix pfx k = true) (ref_namespaces m).
Proof.
  intros H. eapply lists_namespaces_perm; [exact H|]. destruct pfx as [p|]; simpl.
  - apply lists_namespaces_filter, ref_namespaces_lists.
  - rewrite filter_all; [apply ref_namespaces_lists|]. by apply Forall_forall.
Qed.

Lemma run_call_simulates c s :
  sv_ok s → call_takes P c → simulates (run_call ops c) (run_call (reference indexed) c) s.
Proof.
  destruct Hcomplete as (Hpfx&[sm Hsm]&[gm Hgm]&[dm Hdm]&[dn Hdn]).
  intros Hs Hc. destruct c; simpl in Hc; unfold run_call.
  - eapply simulates_write; [by apply set_spec; naive_solver|done].
  - eapply simulates_read; [by apply get_spec; naive_solver|]. by intros a ->.
  - eapply simulates_read; [by apply contains_spec; naive_solver|]. by intros a ->.
  - eapply wp_bind_mono; [by apply delete_spec; naive_solver|].
    intros b s' [[Hok Hv] ->]. apply wp_ret. split; [done|]. by rewrite Hv.
  - destruct Hc as [Hns Hp].
    assert (wp (op_keys ns pfx) s (λ l s', (sv_ok s' ∧ sv_view s' = sv_view s) ∧
      lists_keys (sv_view s) ns pfx l)) as Hk.
    { destruct pfx as [p|]; [|by apply keys_spec].
      pose proof (keys_prefix_spec s ns p Hs Hns Hp) as H. by rewrite Hpfx in H. }
    eapply simulates_read; [exact Hk|]. intros l Hl%ref_keys_filter_perm.
    rewrite (py_sorted_eq _ _ Hl). destruct pfx as [p|]; [done|].
    cbn. rewrite filter_all; [done|]. by apply Forall_forall.
  - eapply simulates_read; [by apply max_key_spec|]. intros o (l&Hl&->).
    rewrite (py_max_perm l (ref_keys (sv_view s) ns)); [done|].
    eapply lists_keys_perm; [exact Hl|apply ref_keys_lists].
  - assert (wp (op_namespaces pfx) s (λ l s', (sv_ok s' ∧ sv_view s' = sv_view s) ∧
      lists_namespaces (sv_view s) pfx l)) as Hk.
    { destruct pfx as [p|]; [|by apply namespaces_spec].
      pose proof (namespaces_prefix_spec s p Hs Hc) as H. by rewrite Hpfx in H. }
    eapply simulates_read; [exact Hk|]. intros l Hl%ref_namespaces_filter_perm.
    rewrite (py_sorted_eq _ _ Hl). destruct pfx as [p|]; [done|].
    cbn. rewrite filter_all; [done|]. by apply Forall_forall.
  - rewrite Hsm. eapply simulates_write; [by eapply set_many_spec|done].
  - rewrite Hgm. eapply simulates_read; [by eapply get_many_spec|]. by intros a ->.
  - rewrite Hdm. eapply simulates_count; [by eapply delete_many_spec|done].
  - rewrite Hdn. eapply simulates_count; [by eapply delete_namespace_spec|].
    cbn. unfold mbind, pym_bind. cbn. by rewrite (lists_keys_removed _ _ _ (ref_keys_lists _ _)).
Qed.

Lemma run_calls_simulates cs s :
  sv_ok s → Forall (call_takes P) cs →
  simulates (run_calls ops cs) (run_calls (reference indexed) cs) s.
Proof.
  intros Hs Hcs. revert s Hs. induction Hcs as [|c cs Hc _ IH]; intros s Hs; [done|].
  eapply wp_bind_mono; [by apply run_call_simulates|]. intros a s' [Hs' Ha].
  eapply wp_bind_mono; [by apply IH|]. intros l s'' [Hs'' Hl]. apply wp_ret.
  split; [done|]. unfold run_calls in *. cbn [mapM]. unfold mbind, pym_bind in *.
  rewrite Ha. unfold mbind, pym_bind. by rewrite Hl.
Qed.
End Simulation.
