(* ===== verification/RustStore.v ===== *)
(** * The in-memory store

    [rust/src/store.rs]: the default backend. Namespaces are hashed across 16
    shards, each a map from namespace to a map from key to encoded bytes, with a
    running byte count per shard. The codec is [Codec]. The hash is that of the
    standard library, of which only its being a function is used. A method runs as
    one step here; [RustThreads] has the steps threads interleave at. Machine
    integers wrap as in a release build. Text crosses from Python as UTF-8, so a
    lone surrogate raises before the method runs. *)

From Stdlib Require Import ZifyBool.
From S2P Require Import Prelude PyValue Codec Store.

(** [NsMap] *)
Abbreviation KeyMap := (gmap pystr bytes).
Abbreviation NsMap := (gmap pystr KeyMap).

Definition SHARDS : nat := 16.

(** [usize] and [u64]; [i64]. *)
Definition wrap64 (z : Z) : Z := (z mod 2 ^ 64)%Z.
Definition wrap_i64 (z : Z) : Z :=
  let u := wrap64 z in if (u <? 2 ^ 63)%Z then u else (u - 2 ^ 64)%Z.

Record SnapshotData := {
  sd_id : Z;
  sd_timestamp : Z;
  sd_parent : option Z;
  sd_size_bytes : Z;
  sd_shard_bytes : list Z;
  sd_shards : list NsMap;
}.

(** [Store] *)
Record RustStore := {
  shards : list NsMap;
  max_history : option nat;
  history : list SnapshotData;
  counter : Z;
  last_id : option Z;
  shard_bytes : list Z;
}.

Definition set_shards (m : list NsMap) (b : list Z) (s : RustStore) : RustStore :=
  {| shards := m; max_history := max_history s; history := history s; counter := counter s;
     last_id := last_id s; shard_bytes := b |}.
Definition set_history (h : list SnapshotData) (s : RustStore) : RustStore :=
  {| shards := shards s; max_history := max_history s; history := h; counter := counter s;
     last_id := last_id s; shard_bytes := shard_bytes s |}.
Definition set_ids (c : Z) (l : option Z) (s : RustStore) : RustStore :=
  {| shards := shards s; max_history := max_history s; history := history s; counter := c;
     last_id := l; shard_bytes := shard_bytes s |}.

(** [Store::new] *)
Definition RustStore_new (backend codec : pystr) (max : option nat) : result RustStore :=
  if negb (str_eqb backend (lit "memory")) then Raise ValueError
  else if negb (str_eqb codec (lit "msgpack")) then Raise ValueError
  else Ok {| shards := replicate SHARDS ∅; max_history := max; history := [];
             counter := 1; last_id := None; shard_bytes := replicate SHARDS 0%Z |}.

(** The arguments of the methods as Rust text. *)
Definition as_pair (p : pystr * pystr) : result (pystr * pystr) :=
  ns ← as_string p.1; k ← as_string p.2; Ok (ns, k).

(** The sum of a measure over a map's values ([values().map(f).sum()]). *)
Definition map_sum {A} (f : A → Z) (m : gmap pystr A) : Z := map_fold (λ _ x n, (f x + n)%Z) 0%Z m.

Definition len_of (b : bytes) : Z := Z.of_nat (length b).

(** [EncodedEntry] *)
Abbreviation Entry := (pystr * pystr * bytes)%type.

Section Store.
Context (hash : pystr → N).

(** [shard_index] *)
Definition shard_index (namespace : pystr) : nat := N.to_nat (hash namespace mod N.of_nat SHARDS).

Definition shard_at (idx : nat) (s : RustStore) : NsMap := from_option id ∅ (shards s !! idx).
Definition shard (namespace : pystr) (s : RustStore) : NsMap := shard_at (shard_index namespace) s.

(** [fetch_add], [fetch_sub] on the byte count of a shard. *)
Definition fetch_add (idx : nat) (n : Z) (b : list Z) : list Z := alter (λ c, wrap64 (c + n)) idx b.
Definition fetch_sub (idx : nat) (n : Z) (b : list Z) : list Z := alter (λ c, wrap64 (c - n)) idx b.

(** Write one encoded entry into a shard; the length of what it replaced. *)
Definition shard_insert (ns k : pystr) (b : bytes) (m : NsMap) : Z * NsMap :=
  match m !! ns with
  | Some kv => (from_option len_of 0%Z (kv !! k), <[ns := <[k := b]> kv]> m)
  | None => (0%Z, <[ns := {[k := b]}]> m)
  end.

(** [set]: under the shard's lock, then as Python calls it. *)
Definition set_entry (ns k : pystr) (b : bytes) (s : RustStore) : RustStore :=
  let idx := shard_index ns in
  let '(old_len, m) := shard_insert ns k b (shard_at idx s) in
  set_shards (<[idx := m]> (shards s))
    (if (old_len <=? len_of b)%Z then fetch_add idx (len_of b - old_len) (shard_bytes s)
     else fetch_sub idx (old_len - len_of b) (shard_bytes s)) s.

Definition RustStore_set (ns k : pystr) (value : pyval) : PyM RustStore unit :=
  ns ← lift (as_string ns);
  k ← lift (as_string k);
  b ← lift (encode value);
  modify (set_entry ns k b).

(** [decode(b)] or [None] *)
Definition decoded_or (default : pyval) (raw : option bytes) : result pyval :=
  match raw with Some b => decode b | None => Ok default end.

Definition lookup_raw (ns k : pystr) (s : RustStore) : option bytes := kv ← shard ns s !! ns; kv !! k.

(** [get] *)
Definition RustStore_get (ns k : pystr) (default : pyval) : PyM RustStore pyval :=
  ns ← lift (as_string ns);
  k ← lift (as_string k);
  raw ← gets (lookup_raw ns k);
  lift (decoded_or default raw).

Definition as_item (i : pystr * pystr * pyval) : result (pystr * pystr * pyval) :=
  p ← as_pair i.1; Ok (p, i.2).
Definition encode_item (i : pystr * pystr * pyval) : result Entry := b ← encode i.2; Ok (i.1, b).

(** [buckets[shard_index(&ns)].push(...)] over a batch. *)
Definition buckets {A} (ns_of : A → pystr) (l : list A) : list (list A) :=
  foldl (λ bs x, alter (λ bucket, bucket ++ [x]) (shard_index (ns_of x)) bs) (replicate SHARDS []) l.

(** One bucket of [set_many] under its shard's lock: the map, and the change of
    the byte count as an [i64]. *)
Definition insert_bucket (bucket : list Entry) (m : NsMap) : NsMap * Z :=
  foldl (λ acc e,
    let '(m, delta) := acc in
    let '(old_len, m') := shard_insert e.1.1 e.1.2 e.2 m in
    (m', wrap_i64 (delta + (len_of e.2 - old_len)))) (m, 0%Z) bucket.

Definition store_bucket (s : RustStore) (b : nat * list Entry) : RustStore :=
  match b.2 with
  | [] => s
  | bucket =>
      let '(m, delta) := insert_bucket bucket (shard_at b.1 s) in
      set_shards (<[b.1 := m]> (shards s))
        (if (0 <=? delta)%Z then fetch_add b.1 delta (shard_bytes s)
         else fetch_sub b.1 (- delta) (shard_bytes s)) s
  end.

(** [enumerate] *)
Definition enumerated {A} (l : list A) : list (nat * A) := imap pair l.

(** [set_many] *)
Definition set_entries (encoded : list Entry) (s : RustStore) : RustStore :=
  foldl store_bucket s (enumerated (buckets (λ e : Entry, e.1.1) encoded)).

Definition RustStore_set_many (items : list (pystr * pystr * pyval)) : PyM RustStore unit :=
  items ← lift (mapM as_item items);
  encoded ← lift (mapM encode_item items);
  modify (set_entries encoded).

(** One bucket of [get_many]: the indices whose namespaces live in a shard. *)
Definition read_bucket (pairs : list (pystr * pystr)) (s : RustStore)
    (out : list (option bytes)) (b : nat * list nat) : list (option bytes) :=
  foldl (λ out i,
    match pairs !! i with
    | Some p => <[i := (kv ← shard_at b.1 s !! p.1; kv !! p.2)]> out
    | None => out
    end) out b.2.

Definition raw_many (pairs : list (pystr * pystr)) (s : RustStore) : list (option bytes) :=
  foldl (read_bucket pairs s) (replicate (length pairs) None)
    (enumerated (buckets (λ i, from_option fst [] (pairs !! i)) (seq 0 (length pairs)))).

(** [get_many] *)
Definition RustStore_get_many (pairs : list (pystr * pystr)) : PyM RustStore (list pyval) :=
  pairs ← lift (mapM as_pair pairs);
  raw ← gets (raw_many pairs);
  lift (mapM (decoded_or PNone) raw).

(** [contains] *)
Definition RustStore_contains (ns k : pystr) : PyM RustStore bool :=
  ns ← lift (as_string ns);
  k ← lift (as_string k);
  gets (λ s, bool_decide (is_Some (lookup_raw ns k s))).

(** Remove one key from a shard, and its namespace if that empties it: what was
    removed. [delete] tests for emptiness only after a removal, [delete_many]
    whenever the namespace is there. *)
Definition delete_entry (ns k : pystr) (s : RustStore) : bool * RustStore :=
  let idx := shard_index ns in
  let m := shard_at idx s in
  match m !! ns with
  | Some kv =>
      match kv !! k with
      | Some old =>
          let kv' := delete k kv in
          (true,
           set_shards (<[idx := if decide (kv' = ∅) then delete ns m else <[ns := kv']> m]> (shards s))
             (fetch_sub idx (len_of old) (shard_bytes s)) s)
      | None => (false, s)
      end
  | None => (false, s)
  end.

Definition RustStore_delete (ns k : pystr) : PyM RustStore bool :=
  ns ← lift (as_string ns);
  k ← lift (as_string k);
  act (λ s, let '(removed, s') := delete_entry ns k s in (Ok removed, s')).

(** One pair of a [delete_many] bucket: the map, the bytes freed, how many. *)
Definition remove_entry (acc : NsMap * Z * Z) (p : pystr * pystr) : NsMap * Z * Z :=
  let '(m, freed, removed) := acc in
  match m !! p.1 with
  | None => acc
  | Some kv =>
      let kv' := delete p.2 kv in
      let '(freed, removed) := match kv !! p.2 with
                               | Some old => (wrap64 (freed + len_of old), (removed + 1)%Z)
                               | None => (freed, removed)
                               end in
      (if decide (kv' = ∅) then delete p.1 m else <[p.1 := kv']> m, freed, removed)
  end.

Definition delete_bucket (acc : RustStore * Z) (b : nat * list (pystr * pystr)) : RustStore * Z :=
  let '(s, removed) := acc in
  match b.2 with
  | [] => acc
  | bucket =>
      let '(m, freed, removed) := foldl remove_entry (shard_at b.1 s, 0%Z, removed) bucket in
      (set_shards (<[b.1 := m]> (shards s)) (fetch_sub b.1 freed (shard_bytes s)) s, removed)
  end.

(** [delete_many] *)
Definition delete_entries (pairs : list (pystr * pystr)) (s : RustStore) : RustStore * Z :=
  foldl delete_bucket (s, 0%Z) (enumerated (buckets fst pairs)).

Definition RustStore_delete_many (pairs : list (pystr * pystr)) : PyM RustStore Z :=
  pairs ← lift (mapM as_pair pairs);
  act (λ s, let '(s', removed) := delete_entries pairs s in (Ok removed, s')).

(** [delete_namespace] *)
Definition drop_namespace (ns : pystr) (s : RustStore) : Z * RustStore :=
  let idx := shard_index ns in
  let m := shard_at idx s in
  match m !! ns with
  | None => (0%Z, s)
  | Some kv =>
      (Z.of_nat (size kv),
       set_shards (<[idx := delete ns m]> (shards s))
         (fetch_sub idx (wrap64 (map_sum len_of kv)) (shard_bytes s)) s)
  end.

Definition RustStore_delete_namespace (ns : pystr) : PyM RustStore Z :=
  ns ← lift (as_string ns);
  act (λ s, let '(removed, s') := drop_namespace ns s in (Ok removed, s')).

Definition prefixed (prefix : option pystr) (l : list pystr) : list pystr :=
  match prefix with None => l | Some p => filter (λ k, starts_with p k = true) l end.

(** [keys], [max_key], [namespaces] *)
Definition RustStore_keys (ns : pystr) (prefix : option pystr) : PyM RustStore (list pystr) :=
  ns ← lift (as_string ns);
  prefix ← lift (as_opt_string prefix);
  gets (λ s, match shard ns s !! ns with
             | None => []
             | Some kv => prefixed prefix (map_to_list kv).*1
             end).

Definition RustStore_max_key (ns : pystr) : PyM RustStore (option pystr) :=
  ns ← lift (as_string ns);
  gets (λ s, kv ← shard ns s !! ns; py_max (map_to_list kv).*1).

Definition RustStore_namespaces (prefix : option pystr) : PyM RustStore (list pystr) :=
  prefix ← lift (as_opt_string prefix);
  gets (λ s, shards s ≫= (λ m, prefixed prefix (map_to_list m).*1)).

(** [__contains__], [__len__], [clear] *)
Definition RustStore_has_namespace (ns : pystr) : PyM RustStore bool :=
  ns ← lift (as_string ns);
  gets (λ s, match shard ns s !! ns with Some kv => negb (bool_decide (kv = ∅)) | None => false end).

Definition shard_len (m : NsMap) : Z := map_sum (λ kv, Z.of_nat (size kv)) m.

Definition RustStore_len : PyM RustStore Z :=
  gets (λ s, foldr (λ m n, (shard_len m + n)%Z) 0%Z (shards s)).

Definition RustStore_clear : PyM RustStore unit :=
  modify (λ s, set_shards ((λ _, ∅) <$> shards s) ((λ _, 0%Z) <$> shard_bytes s) s).

(** [snapshot]: retain it as [max_history] says. *)
Definition retain (max : option nat) (d : SnapshotData) (h : list SnapshotData) : list SnapshotData :=
  match max with
  | Some 0 => h
  | Some n => drop (length (h ++ [d]) - n) (h ++ [d])
  | None => h ++ [d]
  end.

Definition RustStore_snapshot (now : Z) : PyM RustStore SnapshotData :=
  act (λ s,
    let d := {| sd_id := counter s; sd_timestamp := now; sd_parent := last_id s;
                sd_size_bytes := wrap64 (foldr Z.add 0%Z (shard_bytes s));
                sd_shard_bytes := shard_bytes s; sd_shards := shards s |} in
    (Ok d, set_history (retain (max_history s) d (history s))
             (set_ids (wrap64 (counter s + 1)) (Some (counter s)) s))).

(** [restore], [clear_history] *)
Definition RustStore_restore (d : SnapshotData) : PyM RustStore unit :=
  modify (set_shards (sd_shards d) (sd_shard_bytes d)).

Definition RustStore_clear_history : PyM RustStore unit := modify (set_history []).

(** ** [Snapshot] *)

Definition Snapshot_keys (d : SnapshotData) : list (pystr * pystr) :=
  sd_shards d ≫= (λ m, map_to_list m ≫= (λ e, (λ k, (e.1, k)) <$> (map_to_list e.2).*1)).

Definition ns_lookup (ns : pystr) (d : SnapshotData) : option KeyMap :=
  from_option id ∅ (sd_shards d !! shard_index ns) !! ns.

(** [diff]. The three [ptr_eq] tests of [imbl] and [Arc] only save work: they are
    parameters, of which [SharingOk] is what their documentation says. *)
Record Sharing := {
  same_shard : NsMap → NsMap → bool;
  same_ns : KeyMap → KeyMap → bool;
  same_arc : bytes → bytes → bool;
}.

Record SharingOk (sh : Sharing) : Prop := {
  same_shard_eq m m' : same_shard sh m m' = true → m = m';
  same_ns_eq kv kv' : same_ns sh kv kv' = true → kv = kv';
  same_arc_eq b b' : same_arc sh b b' = true → b = b';
}.

Context (sh : Sharing).

(** The two maps a namespace has, unless they are the same one. *)
Definition touched (kv : KeyMap) (other : option KeyMap) : bool :=
  match other with Some o => negb (same_ns sh o kv) | None => true end.

(** The pairs of the shards of [d] that differ from those of [other], selected by
    what the other snapshot has for the key. *)
Definition diff_walk (d other : SnapshotData) (select : option bytes → bytes → bool)
    : list (pystr * pystr) :=
  enumerated (sd_shards d) ≫= (λ e,
    if same_shard sh e.2 (from_option id ∅ (sd_shards other !! e.1)) then []
    else map_to_list e.2 ≫= (λ n,
      if touched n.2 (ns_lookup n.1 other)
      then (λ k, (n.1, k.1)) <$>
             filter (λ k, select (o ← ns_lookup n.1 other; o !! k.1) k.2 = true) (map_to_list n.2)
      else [])).

Record RustDiff := {
  rd_added : list (pystr * pystr);
  rd_removed : list (pystr * pystr);
  rd_changed : list (pystr * pystr);
}.

Definition Snapshot_diff (d base : SnapshotData) : RustDiff :=
  {| rd_added := diff_walk d base (λ o _, match o with None => true | Some _ => false end);
     rd_changed := diff_walk d base (λ o v, match o with
                     | None => false
                     | Some bv => negb (same_arc sh bv v) && negb (bool_decide (bv = v))
                     end);
     rd_removed := diff_walk base d (λ o _, match o with None => true | Some _ => false end) |}.
End Store.

Section Ops.
Context (hash : pystr → N).

Definition rust_ops : StoreOps RustStore := {|
  op_set := RustStore_set hash;
  op_get ns k := RustStore_get hash ns k PNone;
  op_contains := RustStore_contains hash;
  op_delete := RustStore_delete hash;
  op_keys := RustStore_keys hash;
  op_max_key := RustStore_max_key hash;
  op_namespaces := RustStore_namespaces;
  op_set_many := Some (RustStore_set_many hash);
  op_get_many := Some (RustStore_get_many hash);
  op_delete_many := Some (RustStore_delete_many hash);
  op_delete_namespace := Some (RustStore_delete_namespace hash);
  op_indexed_max_key := false;
  op_supports_async := false;
|}.
End Ops.
