(* ===== verification/PyFloat.v ===== *)
(** * Floats the program computes

    Python's [/] on small integers and [round(x, 4)], and Rust's conversions of
    integers and decimal numbers to [f64]: all are correctly rounded (half to even),
    so they are integer arithmetic. *)

From Stdlib Require Import ZifyBool.
From S2P Require Import Prelude PyValue.

(** [x <= y] on numbers *)
Definition num_leb (x y : pynum) : bool :=
  match x, y with
  | NFin m1 e1, NFin m2 e2 =>
      let e := Z.min e1 e2 in (m1 * 2 ^ (e1 - e) <=? m2 * 2 ^ (e2 - e))%Z
  | NInf true, (NInf _ | NFin _ _) => true
  | (NFin _ _ | NInf false), NInf false => true
  | _, _ => false
  end.

(** The nearest integer to [a / n], halves to even. *)
Definition div_even (a n : Z) : Z :=
  let q := (a / n)%Z in
  let r := (a mod n)%Z in
  if (2 * r <? n)%Z then q
  else if (n <? 2 * r)%Z then (q + 1)%Z
  else if Z.even q then q else (q + 1)%Z.

(** The power of two that brings [a / n] into [[2^52, 2^53)]. *)
Definition ratio_shift (a n : Z) : Z :=
  let k := (52 + Z.log2 n - Z.log2 a)%Z in
  if (a * 2 ^ k / n <? 2 ^ 52)%Z then (k + 1)%Z else k.

(** The bits of the float nearest to [a / n], for [0 <= a <= n < 2^53] and [0 < n]. A
    mantissa that rounds up to [2^53] carries into the exponent. *)
Definition float_ratio (a n : Z) : Z :=
  if (a =? 0)%Z then 0%Z
  else
    let k := ratio_shift a n in
    ((1074 - k) * 2 ^ 52 + div_even (a * 2 ^ k) n)%Z.

(** [round(x, 4)] for a float in [[0, 1]] *)
Definition round4 (bits : Z) : Z :=
  match num_of_bits bits with
  | NFin m e => float_ratio (div_even (m * 10000) (2 ^ (- e))) 10000
  | _ => bits
  end.

(** The float nearest to [a / n], for [0 <= a] and [0 < n] of any size: the exponent
    of its last place, then its bits. Too large a ratio is infinity. *)
Definition ratio_ulp (a n : Z) : Z :=
  let e := (Z.log2 a - Z.log2 n)%Z in
  let below := if (0 <=? e)%Z then (a <? n * 2 ^ e)%Z else (a * 2 ^ (- e) <? n)%Z in
  Z.max ((if below then e - 1 else e) - 52) (-1074).

Definition ratio_mantissa (a n e : Z) : Z :=
  if (0 <=? e)%Z then div_even a (n * 2 ^ e) else div_even (a * 2 ^ (- e)) n.

Definition F64_INFINITY : Z := (2047 * 2 ^ 52)%Z.

Definition f64_of_ratio (a n : Z) : Z :=
  if (a =? 0)%Z then 0%Z
  else
    let e := ratio_ulp a n in
    Z.min ((e + 1074) * 2 ^ 52 + ratio_mantissa a n e) F64_INFINITY.

(** [z as f64]: what an integer is compared as. *)
Definition f64_of_Z (z : Z) : pynum :=
  let k := (Z.log2 (Z.abs z) - 52)%Z in
  if (k <=? 0)%Z then NFin z 0 else NFin (Z.sgn z * div_even (Z.abs z) (2 ^ k)) k.

Example f64_tenth : f64_of_ratio 1 10 = 4591870180066957722%Z.
Proof. reflexivity. Qed.
Example f64_least : f64_of_ratio 1 (10 ^ 323) = 2%Z ∧ f64_of_ratio 1 (10 ^ 324) = 0%Z.
Proof. split; reflexivity. Qed.
Example f64_greatest : f64_of_ratio (10 ^ 308) 1 = 9214871658872686752%Z ∧
  f64_of_ratio (10 ^ 309) 1 = F64_INFINITY.
Proof. split; reflexivity. Qed.

Example float_one_third : float_ratio 1 3 = 4599676419421066581%Z.
Proof. reflexivity. Qed.
Example float_one : float_ratio 7 7 = 4607182418800017408%Z.
Proof. reflexivity. Qed.
Example round4_two_thirds : round4 (float_ratio 2 3) = float_ratio 6667 10000.
Proof. reflexivity. Qed.

(** ** Rounding is exact enough to rank *)

Lemma div_even_bounds a n :
  (0 < n)%Z → (2 * a - n <= 2 * n * div_even a n <= 2 * a + n)%Z.
Proof.
  intros Hn. pose proof (Z.div_mod a n ltac:(lia)) as Hd. pose proof (Z.mod_pos_bound a n Hn) as Hm.
  unfold div_even. revert Hd Hm. generalize (a / n)%Z (a mod n)%Z. intros q r -> Hr.
  destruct (Z.ltb_spec (2 * r) n); [lia|]. destruct (Z.ltb_spec n (2 * r)); [lia|].
  destruct (Z.even q); lia.
Qed.

Lemma ratio_shift_spec a n :
  (0 < a <= n)%Z →
  let k := ratio_shift a n in
  (52 <= k <= 53 + Z.log2 n)%Z ∧ (2 ^ 52 * n <= a * 2 ^ k < 2 ^ 53 * n)%Z.
Proof.
  intros Ha. cbv zeta. unfold ratio_shift.
  pose proof (Z.log2_spec a ltac:(lia)) as Hla. pose proof (Z.log2_spec n ltac:(lia)) as Hln.
  pose proof (Z.log2_le_mono a n ltac:(lia)) as Hle. pose proof (Z.log2_nonneg a) as H0.
  revert Hla Hln Hle H0. generalize (Z.log2 a) (Z.log2 n). intros la ln Hla Hln Hle H0.
  rewrite !Z.pow_succ_r in * by lia.
  assert (2 ^ la * 2 ^ (52 + ln - la) = 2 ^ 52 * 2 ^ ln)%Z as Hp
    by (rewrite <-!Z.pow_add_r by lia; f_equal; lia).
  assert (0 < 2 ^ (52 + ln - la))%Z by (apply Z.pow_pos_nonneg; lia).
  destruct (Z.ltb_spec (a * 2 ^ (52 + ln - la) / n) (2 ^ 52)) as [Hlt|Hge].
  - assert (a * 2 ^ (52 + ln - la) < 2 ^ 52 * n)%Z as Hlt'.
    { pose proof (Z.mul_succ_div_gt (a * 2 ^ (52 + ln - la)) n ltac:(lia)). nia. }
    clear Hlt.
    rewrite (Z.pow_add_r 2 (52 + ln - la) 1) by lia.
    revert Hp Hlt' H. generalize (2 ^ (52 + ln - la))%Z. intros p Hp Hlt H. split; [lia|nia].
  - assert (2 ^ 52 * n <= a * 2 ^ (52 + ln - la))%Z.
    { pose proof (Z.mul_div_le (a * 2 ^ (52 + ln - la)) n ltac:(lia)). nia. }
    revert Hp H1 H. generalize (2 ^ (52 + ln - la))%Z. intros p Hp H1 H. split; [lia|nia].
Qed.

(** Ratios with the same denominator round to floats in the same strict order. *)
Lemma float_ratio_mono a b n :
  (0 <= a < b)%Z → (b <= n < 2 ^ 51)%Z → (float_ratio a n < float_ratio b n)%Z.
Proof.
  intros Ha Hn. unfold float_ratio. destruct (Z.eqb_spec b 0); [lia|]. cbv zeta.
  destruct (ratio_shift_spec b n ltac:(lia)) as [Hkb Hb].
  pose proof (div_even_bounds (b * 2 ^ ratio_shift b n) n ltac:(lia)) as Hdb.
  assert (Z.log2 n <= 50)%Z as Hlog by (apply Z.lt_succ_r, Z.log2_lt_pow2; lia).
  revert Hkb Hb Hdb. generalize (ratio_shift b n). intros kb Hkb Hb Hdb.
  destruct (Z.eqb_spec a 0) as [->|Hne].
  { revert Hdb. generalize (div_even (b * 2 ^ kb) n). intros D Hdb. nia. }
  destruct (ratio_shift_spec a n ltac:(lia)) as [Hka Hx].
  pose proof (div_even_bounds (a * 2 ^ ratio_shift a n) n ltac:(lia)) as Hda.
  revert Hka Hx Hda. generalize (ratio_shift a n). intros ka Hka Hx Hda.
  revert Hda Hdb. generalize (div_even (a * 2 ^ ka) n) (div_even (b * 2 ^ kb) n). intros A B Hda Hdb.
  assert (2 ^ 52 <= 2 ^ ka)%Z as Hpow by (apply Z.pow_le_mono_r; lia).
  destruct (Z.lt_trichotomy ka kb) as [Hlt|[<-|Hgt]].
  - exfalso. assert (2 * 2 ^ ka <= 2 ^ kb)%Z
      by (rewrite <-Z.pow_succ_r by lia; apply Z.pow_le_mono_r; lia).
    revert H Hpow Hx Hb. generalize (2 ^ ka)%Z (2 ^ kb)%Z. intros p q ????. nia.
  - enough (A < B)%Z by lia. revert Hpow Hx Hb Hda Hdb. generalize (2 ^ ka)%Z. intros p Hpow Hx Hb Hda Hdb.
    enough (2 * n * A < 2 * n * B)%Z by nia. nia.
  - assert (A <= 2 ^ 53)%Z by nia. assert (2 ^ 52 <= B)%Z by nia.
    destruct (decide (ka = kb + 1)%Z) as [->|?]; [|nia].
    destruct (decide (A = 2 ^ 53 ∧ B = 2 ^ 52)%Z) as [[-> ->]|?]; [|lia].
    exfalso. rewrite (Z.pow_add_r 2 kb 1) in * by lia.
    revert Hpow Hx Hb Hda Hdb. generalize (2 ^ kb)%Z. intros p Hpow Hx Hb Hda Hdb. nia.
Qed.

Definition ONE : Z := (1023 * 2 ^ 52)%Z.

Lemma float_ratio_one n : (0 < n)%Z → float_ratio n n = ONE.
Proof.
  intros Hn. unfold float_ratio. destruct (Z.eqb_spec n 0); [lia|].
  assert (ratio_shift n n = 52%Z) as ->.
  { unfold ratio_shift. replace (52 + Z.log2 n - Z.log2 n)%Z with 52%Z by lia.
    rewrite Z.mul_comm, Z.div_mul by lia. reflexivity. }
  unfold div_even. rewrite (Z.mul_comm n), Z.mod_mul, Z.div_mul by lia.
  destruct (Z.ltb_spec (2 * 0) n); [reflexivity|lia].
Qed.

Lemma float_ratio_range a n :
  (0 <= a <= n)%Z → (0 < n < 2 ^ 51)%Z → (0 <= float_ratio a n <= ONE)%Z.
Proof.
  intros Ha Hn. rewrite <-(float_ratio_one n) by lia.
  assert (float_ratio 0 n = 0%Z) as H0 by reflexivity. split.
  - destruct (decide (a = 0%Z)) as [->|]; [lia|].
    pose proof (float_ratio_mono 0 a n ltac:(lia) ltac:(lia)). lia.
  - destruct (decide (a = n)) as [->|]; [lia|].
    pose proof (float_ratio_mono a n n ltac:(lia) ltac:(lia)). lia.
Qed.

(** A non-negative float's value, in units of the least positive one. *)
Definition float_units (b : Z) : Z :=
  if (b / 2 ^ 52 =? 0)%Z then b else ((b mod 2 ^ 52 + 2 ^ 52) * 2 ^ (b / 2 ^ 52 - 1))%Z.

Lemma num_of_bits_units b :
  (0 <= b < 2047 * 2 ^ 52)%Z → ∃ m e, num_of_bits b = NFin m e ∧
    (-1074 <= e)%Z ∧ float_units b = (m * 2 ^ (e + 1074))%Z.
Proof.
  intros Hb. unfold num_of_bits, float_units.
  assert (Z.testbit b 63 = false) as ->.
  { destruct (Z.eq_dec b 0%Z) as [->|]; [done|].
    apply Z.bits_above_log2; [lia|]. apply Z.log2_lt_pow2; lia. }
  assert (b / 2 ^ 52 < 2047)%Z by (apply Z.div_lt_upper_bound; lia).
  pose proof (Z.div_pos b (2 ^ 52) ltac:(lia) ltac:(lia)).
  assert (Z.land (Z.shiftr b 52) 2047 = b / 2 ^ 52)%Z as ->.
  { rewrite Z.shiftr_div_pow2 by lia. change 2047%Z with (Z.ones 11).
    rewrite Z.land_ones by lia. apply Z.mod_small. lia. }
  assert (Z.land b (2 ^ 52 - 1) = b mod 2 ^ 52)%Z as ->
    by (change (2 ^ 52 - 1)%Z with (Z.ones 52); apply Z.land_ones; lia).
  destruct (Z.eqb_spec (b / 2 ^ 52) 2047); [lia|].
  destruct (Z.eqb_spec (b / 2 ^ 52) 0) as [E|E].
  - exists (b mod 2 ^ 52)%Z, (-1074)%Z. split; [done|]. split; [lia|].
    pose proof (Z.div_mod b (2 ^ 52) ltac:(lia)). change (2 ^ (-1074 + 1074))%Z with 1%Z. lia.
  - exists (b mod 2 ^ 52 + 2 ^ 52)%Z, (b / 2 ^ 52 - 1075)%Z. split; [done|]. split; [lia|].
    f_equal. f_equal. lia.
Qed.

Lemma float_units_mono a b : (0 <= a < b)%Z → (float_units a < float_units b)%Z.
Proof.
  intros Hab. unfold float_units.
  pose proof (Z.div_mod a (2 ^ 52) ltac:(lia)) as Ha. pose proof (Z.mod_pos_bound a (2 ^ 52) ltac:(lia)) as Hra.
  pose proof (Z.div_mod b (2 ^ 52) ltac:(lia)) as Hb. pose proof (Z.mod_pos_bound b (2 ^ 52) ltac:(lia)) as Hrb.
  pose proof (Z.div_le_mono a b (2 ^ 52) ltac:(lia) ltac:(lia)) as Hq.
  pose proof (Z.div_pos a (2 ^ 52) ltac:(lia) ltac:(lia)) as Hq0.
  revert Ha Hra Hb Hrb Hq Hq0.
  generalize (a / 2 ^ 52)%Z (a mod 2 ^ 52)%Z (b / 2 ^ 52)%Z (b mod 2 ^ 52)%Z.
  intros qa ra qb rb Ha Hra Hb Hrb Hq Hq0.
  destruct (Z.eqb_spec qa 0) as [->|]; destruct (Z.eqb_spec qb 0) as [->|]; [lia| |lia|].
  - assert (1 <= 2 ^ (qb - 1))%Z by (apply (Z.pow_le_mono_r 2 0); lia). nia.
  - destruct (decide (qa = qb)) as [->|].
    + assert (0 < 2 ^ (qb - 1))%Z by (apply Z.pow_pos_nonneg; lia). nia.
    + assert (2 * 2 ^ (qa - 1) <= 2 ^ (qb - 1))%Z
        by (rewrite <-Z.pow_succ_r by lia; apply Z.pow_le_mono_r; lia).
      assert (0 < 2 ^ (qa - 1))%Z by (apply Z.pow_pos_nonneg; lia). nia.
Qed.

(** Non-negative finite floats compare as their bits. *)
Lemma nonneg_float_order x y :
  (0 <= x < 2047 * 2 ^ 52)%Z → (0 <= y < 2047 * 2 ^ 52)%Z →
  num_leb (num_of_bits x) (num_of_bits y) = (x <=? y)%Z.
Proof.
  intros Hx Hy. destruct (num_of_bits_units x Hx) as (m1&e1&->&He1&Hv1).
  destruct (num_of_bits_units y Hy) as (m2&e2&->&He2&Hv2). unfold num_leb.
  transitivity (float_units x <=? float_units y)%Z.
  - rewrite Hv1, Hv2. set (e := Z.min e1 e2).
    assert (0 < 2 ^ (e + 1074))%Z by (apply Z.pow_pos_nonneg; lia).
    replace (2 ^ (e1 + 1074))%Z with (2 ^ (e1 - e) * 2 ^ (e + 1074))%Z
      by (rewrite <-Z.pow_add_r by lia; f_equal; lia).
    replace (2 ^ (e2 + 1074))%Z with (2 ^ (e2 - e) * 2 ^ (e + 1074))%Z
      by (rewrite <-Z.pow_add_r by lia; f_equal; lia).
    rewrite !Z.mul_assoc. apply eq_true_iff_eq. rewrite !Z.leb_le. nia.
  - apply eq_true_iff_eq. rewrite !Z.leb_le. destruct (Z.lt_trichotomy x y) as [Hlt|[<-|Hgt]]; [|lia|].
    + pose proof (float_units_mono x y ltac:(lia)). lia.
    + pose proof (float_units_mono y x ltac:(lia)). lia.
Qed.
