(* ===== verification/Observability.v ===== *)
(** * The metrics sinks ([observability.py])

    What the sinks do with the measurements of the checkpointer. Durations and samples
    are non-negative finite floats, each the number [m * 2 ^ e]; the arithmetic on them
    ([*], [math.fsum], [/], [round]) is exact arithmetic rounded to the nearest float.
    Every method holds the sink's lock throughout, so it is one step. *)

From Stdlib Require Import ZifyBool.
From S2P Require Import Prelude PyValue PyFloat.

(** ** Floats as numbers *)

Abbreviation float := (Z * Z)%type.

Definition fl_num (x : float) : Z := (x.1 * 2 ^ Z.max 0 x.2)%Z.
Definition fl_den (x : float) : Z := (2 ^ Z.max 0 (- x.2))%Z.

(** The float nearest to [a / n]. *)
Definition fl_nearest (a n : Z) : float :=
  if (a =? 0)%Z then (0, 0)%Z else let e := ratio_ulp a n in (ratio_mantissa a n e, e).

Definition fl_of_int (z : Z) : float := (z, 0%Z).
Definition fl_mul (x y : float) : float := fl_nearest (fl_num x * fl_num y) (fl_den x * fl_den y).
Definition fl_div (x : float) (n : Z) : float := fl_nearest (fl_num x) (fl_den x * n).

(** [math.fsum]: the exact sum, rounded once *)
Definition fl_fsum (l : list float) : float :=
  let e := foldr (λ x, Z.min x.2) 0%Z l in
  let total := foldr (λ x t, (x.1 * 2 ^ (x.2 - e) + t)%Z) 0%Z l in
  fl_nearest total (2 ^ (- e)).

Definition fl_add (x y : float) : float := fl_fsum [x; y].

(** [round(x)] and [round(x, 5)] *)
Definition fl_round (x : float) : Z := div_even (fl_num x) (fl_den x).
Definition fl_round5 (x : float) : float :=
  fl_nearest (div_even (fl_num x * 10 ^ 5) (fl_den x)) (10 ^ 5).

(** [x <= y] *)
Definition fl_leb (x y : float) : bool := (fl_num x * fl_den y <=? fl_num y * fl_den x)%Z.
Definition fl_le (x y : float) : Prop := fl_leb x y = true.
#[global] Instance fl_le_dec : RelDecision fl_le.
Proof. intros x y. unfold fl_le. apply _. Defined.

(** ** [InMemoryMetrics] *)

Record InMemoryMetrics := {
  im_samples : list (pystr * list float);
  im_errors : list (pystr * Z);
}.

Definition InMemoryMetrics_init : InMemoryMetrics := {| im_samples := []; im_errors := [] |}.

(** [record(op, duration_s, thread_id=..., ok=...)], which ignores the thread *)
Definition InMemoryMetrics_record (op : pystr) (duration_s : float) (thread_id : pystr) (ok : bool)
    (m : InMemoryMetrics) : InMemoryMetrics := {|
  im_samples := od_set (im_samples m) op
    (from_option id [] (od_get (im_samples m) op) ++ [fl_mul duration_s (fl_of_int 1000)]);
  im_errors :=
    if ok then im_errors m
    else od_set (im_errors m) op (from_option id 0%Z (od_get (im_errors m) op) + 1)%Z;
|}.

(** [round(0.99 * n)] *)
Definition rank99 (n : Z) : Z := fl_round (fl_mul (fl_nearest 99 100) (fl_of_int n)).

(** [s[min(len(s) - 1, max(0, round(0.99 * len(s)) - 1))]] *)
Definition percentile99 (s : list float) : result float :=
  let n := Z.of_nat (length s) in
  or_raise IndexError (s !! Z.to_nat (Z.min (n - 1) (Z.max 0 (rank99 n - 1)))).

(** [statistics.fmean], and [statistics.median] of a sorted list *)
Definition fmean (s : list float) : float := fl_div (fl_fsum s) (Z.of_nat (length s)).
Definition median (s : list float) : float :=
  let n := length s in
  let at_ i := from_option id (0, 0)%Z (s !! i) in
  if Nat.odd n then at_ (n / 2) else fl_div (fl_add (at_ (n / 2 - 1)) (at_ (n / 2))) 2.

Record OpSummary := {
  os_count : Z;
  os_errors : Z;
  os_mean_ms : float;
  os_p50_ms : float;
  os_p99_ms : float;
}.

Definition op_summary (errors : list (pystr * Z)) (op : pystr) (ms : list float) : result OpSummary :=
  let s := merge_sort fl_le ms in
  p99 ← percentile99 s;
  Ok {| os_count := Z.of_nat (length s);
        os_errors := from_option id 0%Z (od_get errors op);
        os_mean_ms := fl_round5 (fmean s);
        os_p50_ms := fl_round5 (median s);
        os_p99_ms := fl_round5 p99 |}.

Definition InMemoryMetrics_summary (m : InMemoryMetrics) : result (list (pystr * OpSummary)) :=
  foldR (im_samples m) (λ out '(op, ms),
    row ← op_summary (im_errors m) op ms; Ok (od_set out op row)) [].

Definition InMemoryMetrics_reset (m : InMemoryMetrics) : InMemoryMetrics :=
  {| im_samples := []; im_errors := [] |}.

(** ** [NullMetrics] *)

Definition NullMetrics_record (op : pystr) (duration_s : float) (thread_id : pystr) (ok : bool)
    : unit := tt.

(** ** [OpenTelemetryMetrics]: what it sends its two instruments *)

Inductive OtelEvent :=
  | DurationRecord (ms : float) (attributes : pydict)
  | OpsAdd (n : Z) (attributes : pydict).

Definition OpenTelemetryMetrics_record (op : pystr) (duration_s : float) (thread_id : pystr)
    (ok : bool) (sent : list OtelEvent) : list OtelEvent :=
  let attrs := [(key "op", PStr op); (key "ok", PBool ok)] in
  sent ++ [DurationRecord (fl_mul duration_s (fl_of_int 1000)) attrs; OpsAdd 1 attrs].

Example rank99_small : rank99 <$> [1; 2; 50; 51; 100; 150; 1000]%Z = [1; 2; 50; 50; 99; 148; 990]%Z.
Proof. vm_compute. reflexivity. Qed.

Example round_ms : fl_round5 (fl_mul (fl_nearest 123456789 (10 ^ 13)) (fl_of_int 1000)) =
  fl_nearest 1235 (10 ^ 5).
Proof. vm_compute. reflexivity. Qed.
