(* ===== verification/Condition.v ===== *)
(** * The condition language

    [rust/src/condition.rs]: the expressions that guard the edges of a
    [HandoffGraph], from their text to their truth in a routing state, and the
    conversion of Python values the evaluator reads ([py_to_value] of
    [rust/src/codec.rs]). A character is its code point; which characters beyond
    ASCII are letters and numbers is Unicode's table, a parameter. The parser is a
    state monad over the tokens not yet read ([toks[pos..]]); its recursion takes
    fuel, of which [parse] gives enough (ConditionGrammar.v). An [Err(message)] is
    [ValueError], which [add_edge] makes of it. *)

From S2P Require Import Prelude PyValue PyFloat Codec.

Definition condition_MAX_DEPTH : nat := 64.

Inductive Tok :=
  | TIdent (s : pystr)
  | TStr (s : pystr)
  | TInt (z : Z)
  | TFloat (bits : Z)
  | TBool (b : bool)
  | TNull
  | TAnd | TOr | TNot | TIn
  | TEq | TNe | TLt | TLe | TGt | TGe
  | TLParen | TRParen | TLBracket | TRBracket
  | TComma | TDot.

#[export] Instance Tok_eq_dec : EqDecision Tok.
Proof. solve_decision. Defined.

Inductive CmpOp := OEq | ONe | OLt | OLe | OGt | OGe | OIn | ONotIn.

Inductive Expr :=
  | EStr (s : pystr)
  | EInt (z : Z)
  | EFloat (bits : Z)
  | EBool (b : bool)
  | ENull
  | EList (items : list Expr)
  | EVar (path : list pystr)
  | ENot (e : Expr)
  | EAnd (terms : list Expr)
  | EOr (terms : list Expr)
  | ECmp (op : CmpOp) (a b : Expr).

(** ** The lexer *)

(** [char::is_whitespace], the property White_Space of Unicode. *)
Definition is_whitespace (c : N) : bool :=
  ((9 <=? c) && (c <=? 13) || (c =? 32) || (c =? 0x85) || (c =? 0xa0) || (c =? 0x1680) ||
   (0x2000 <=? c) && (c <=? 0x200a) || (c =? 0x2028) || (c =? 0x2029) || (c =? 0x202f) ||
   (c =? 0x205f) || (c =? 0x3000))%N.

(** The tables behind [char::is_alphabetic] and [char::is_numeric], beyond ASCII. *)
Record CharTables := {
  alphabetic_beyond : N → bool;
  numeric_beyond : N → bool;
}.

Definition is_letter (c : N) : bool :=
  ((65 <=? c) && (c <=? 90) || (97 <=? c) && (c <=? 122))%N.

(** A character literal of the source. *)
Definition chr (s : String.string) : N := from_option id 0%N (head (lit s)).

(** The character after a backslash. *)
Definition unescape (next : N) : N :=
  if (next =? chr "n")%N then 10%N
  else if (next =? chr "t")%N then 9%N
  else next.

(** A string literal after its opening quote: what it holds, and what follows. *)
Fixpoint lex_string (quote : N) (chars : pystr) : option (pystr * pystr) :=
  match chars with
  | [] => None
  | ch :: chars' =>
      let plain := if (ch =? quote)%N then Some ([], chars')
                   else '(s, rest) ← lex_string quote chars'; Some (ch :: s, rest) in
      match chars' with
      | next :: chars'' =>
          if (ch =? chr "\")%N
          then '(s, rest) ← lex_string quote chars''; Some (unescape next :: s, rest)
          else plain
      | [] => plain
      end
  end.

(** [lex_number]: the digits and dots of a number, and whether there was a dot. *)
Fixpoint scan_number (chars : pystr) : pystr * bool * pystr :=
  match chars with
  | [] => ([], false, [])
  | ch :: chars' =>
      if is_digit ch
      then let '(text, is_float, rest) := scan_number chars' in (ch :: text, is_float, rest)
      else match chars' with
           | next :: _ =>
               if (ch =? chr ".")%N && is_digit next
               then let '(text, _, rest) := scan_number chars' in (ch :: text, true, rest)
               else ([], false, chars)
           | [] => ([], false, chars)
           end
  end.

Definition digits_value (text : pystr) : Z := Z.of_N (dec_value text 0).

(** [parse::<i64>] of digits with an optional sign. *)
Definition parse_i64 (neg : bool) (text : pystr) : result Z :=
  let n := if neg then (- digits_value text)%Z else digits_value text in
  if (- 2 ^ 63 <=? n)%Z && (n <? 2 ^ 63)%Z then Ok n else Raise ValueError.

(** [parse::<f64>] of digits and dots with an optional sign. *)
Definition parse_f64 (neg : bool) (text : pystr) : result Z :=
  match split_on (chr ".") text with
  | [whole; fraction] =>
      let bits := f64_of_ratio (digits_value (whole ++ fraction)) (10 ^ Z.of_nat (length fraction)) in
      Ok (if neg then (2 ^ 63 + bits)%Z else bits)
  | _ => Raise ValueError
  end.

Definition lex_number (chars : pystr) : result (Tok * pystr) :=
  let '(neg, chars) := match chars with
                       | c :: chars' => if (c =? chr "-")%N then (true, chars') else (false, chars)
                       | [] => (false, chars)
                       end in
  let '(text, is_float, rest) := scan_number chars in
  if is_float then bits ← parse_f64 neg text; Ok (TFloat bits, rest)
  else n ← parse_i64 neg text; Ok (TInt n, rest).

(** The keywords. *)
Definition word_token (word : pystr) : Tok :=
  if str_eqb word (lit "and") then TAnd
  else if str_eqb word (lit "or") then TOr
  else if str_eqb word (lit "not") then TNot
  else if str_eqb word (lit "in") then TIn
  else if str_eqb word (lit "true") || str_eqb word (lit "True") then TBool true
  else if str_eqb word (lit "false") || str_eqb word (lit "False") then TBool false
  else if str_eqb word (lit "null") || str_eqb word (lit "none") || str_eqb word (lit "None") then TNull
  else TIdent word.

(** [if chars[i + 1] == '=']: the characters after it. *)
Definition then_eq (chars : pystr) : option pystr :=
  match chars with c :: chars' => if (c =? chr "=")%N then Some chars' else None | [] => None end.

Section Lexer.
Context (tables : CharTables).

Definition is_alphabetic (c : N) : bool :=
  if (c <? 128)%N then is_letter c else alphabetic_beyond tables c.
Definition is_alphanumeric (c : N) : bool :=
  if (c <? 128)%N then is_letter c || is_digit c
  else alphabetic_beyond tables c || numeric_beyond tables c.

Definition word_char (c : N) : bool := is_alphanumeric c || (c =? chr "_")%N.

Fixpoint scan_word (chars : pystr) : pystr * pystr :=
  match chars with
  | c :: chars' =>
      if word_char c then let '(word, rest) := scan_word chars' in (c :: word, rest) else ([], chars)
  | [] => ([], [])
  end.

(** One token at [c], which is not whitespace: the token and what follows. *)
Definition lex_token (c : N) (chars : pystr) : result (Tok * pystr) :=
  if (c =? chr "(")%N then Ok (TLParen, chars)
  else if (c =? chr ")")%N then Ok (TRParen, chars)
  else if (c =? chr "[")%N then Ok (TLBracket, chars)
  else if (c =? chr "]")%N then Ok (TRBracket, chars)
  else if (c =? chr ",")%N then Ok (TComma, chars)
  else if (c =? chr ".")%N then Ok (TDot, chars)
  else if (c =? chr "'")%N || (c =? 34)%N then
    '(s, rest) ← or_raise ValueError (lex_string c chars); Ok (TStr s, rest)
  else if (c =? chr "=")%N then rest ← or_raise ValueError (then_eq chars); Ok (TEq, rest)
  else if (c =? chr "!")%N then rest ← or_raise ValueError (then_eq chars); Ok (TNe, rest)
  else if (c =? chr "<")%N then
    Ok (match then_eq chars with Some rest => (TLe, rest) | None => (TLt, chars) end)
  else if (c =? chr ">")%N then
    Ok (match then_eq chars with Some rest => (TGe, rest) | None => (TGt, chars) end)
  else if is_digit c then lex_number (c :: chars)
  else if (c =? chr "-")%N && match chars with d :: _ => is_digit d | [] => false end then
    lex_number (c :: chars)
  else if is_alphabetic c || (c =? chr "_")%N then
    let '(word, rest) := scan_word (c :: chars) in Ok (word_token word, rest)
  else Raise ValueError.

(** [lex]: the loop over the characters; each round drops one at least. *)
Fixpoint lex_loop (fuel : nat) (chars : pystr) (toks : list Tok) : result (list Tok) :=
  match chars with
  | [] => Ok toks
  | c :: chars' =>
      match fuel with
      | O => OutOfFuel
      | S fuel' =>
          if is_whitespace c then lex_loop fuel' chars' toks
          else '(tok, rest) ← lex_token c chars'; lex_loop fuel' rest (toks ++ [tok])
      end
  end.

Definition lex (src : pystr) : result (list Tok) := lex_loop (length src) src [].
End Lexer.

(** ** The parser *)

Abbreviation Parser := (PyM (list Tok)).

(** [peek], [next], and [pos += 1] *)
Definition peek : Parser (option Tok) := gets head.
Definition next : Parser (option Tok) := act (λ toks, (Ok (head toks), tail toks)).
Definition advance : Parser unit := modify tail.

(** The token a comparison starts with; [not in] is two. *)
Definition cmp_op : Parser (option CmpOp) := gets (λ toks,
  match toks with
  | TEq :: _ => Some OEq
  | TNe :: _ => Some ONe
  | TLt :: _ => Some OLt
  | TLe :: _ => Some OLe
  | TGt :: _ => Some OGt
  | TGe :: _ => Some OGe
  | TIn :: _ => Some OIn
  | TNot :: TIn :: _ => Some ONotIn
  | _ => None
  end).

(** A literal token. *)
Definition literal (t : Tok) : option Expr :=
  match t with
  | TStr s => Some (EStr s)
  | TInt n => Some (EInt n)
  | TFloat f => Some (EFloat f)
  | TBool b => Some (EBool b)
  | TNull => Some ENull
  | _ => None
  end.

(** [while peek() == Dot]: the further segments of a dotted path. *)
Fixpoint path_rest (toks : list Tok) : result (list pystr) * list Tok :=
  match toks with
  | TDot :: TIdent seg :: toks' =>
      match path_rest toks' with
      | (Ok path, rest) => (Ok (seg :: path), rest)
      | failed => failed
      end
  | TDot :: toks' => (Raise ValueError, tail toks')
  | _ => (Ok [], toks)
  end.

Definition too_deep (depth : nat) : bool := (condition_MAX_DEPTH <? depth)%nat.

(** [parse_or], [parse_and], [parse_not], [parse_cmp], [parse_primary], and the loops
    inside them. *)
Fixpoint parse_or (fuel depth : nat) : Parser Expr :=
  match fuel with
  | O => out_of_fuel
  | S fuel =>
      if too_deep depth then raise ValueError else
      first ← parse_and fuel (S depth);
      t ← peek;
      match t with
      | Some TOr => terms ← or_terms fuel depth [first]; mret (EOr terms)
      | _ => mret first
      end
  end
with or_terms (fuel depth : nat) (terms : list Expr) : Parser (list Expr) :=
  match fuel with
  | O => out_of_fuel
  | S fuel =>
      t ← peek;
      match t with
      | Some TOr => advance ;; e ← parse_and fuel (S depth); or_terms fuel depth (terms ++ [e])
      | _ => mret terms
      end
  end
with parse_and (fuel depth : nat) : Parser Expr :=
  match fuel with
  | O => out_of_fuel
  | S fuel =>
      first ← parse_not fuel (S depth);
      t ← peek;
      match t with
      | Some TAnd => terms ← and_terms fuel depth [first]; mret (EAnd terms)
      | _ => mret first
      end
  end
with and_terms (fuel depth : nat) (terms : list Expr) : Parser (list Expr) :=
  match fuel with
  | O => out_of_fuel
  | S fuel =>
      t ← peek;
      match t with
      | Some TAnd => advance ;; e ← parse_not fuel (S depth); and_terms fuel depth (terms ++ [e])
      | _ => mret terms
      end
  end
with parse_not (fuel depth : nat) : Parser Expr :=
  match fuel with
  | O => out_of_fuel
  | S fuel =>
      if too_deep depth then raise ValueError else
      t ← peek;
      match t with
      | Some TNot => advance ;; inner ← parse_not fuel (S depth); mret (ENot inner)
      | _ => parse_cmp fuel (S depth)
      end
  end
with parse_cmp (fuel depth : nat) : Parser Expr :=
  match fuel with
  | O => out_of_fuel
  | S fuel =>
      left ← parse_primary fuel (S depth);
      op ← cmp_op;
      match op with
      | Some op =>
          (match op with ONotIn => advance | _ => mret tt end) ;;
          advance ;;
          right ← parse_primary fuel (S depth);
          mret (ECmp op left right)
      | None => mret left
      end
  end
with parse_primary (fuel depth : nat) : Parser Expr :=
  match fuel with
  | O => out_of_fuel
  | S fuel =>
      if too_deep depth then raise ValueError else
      t ← next;
      match t with
      | Some TLParen =>
          e ← parse_or fuel (S depth);
          closing ← next;
          match closing with Some TRParen => mret e | _ => raise ValueError end
      | Some TLBracket => items ← list_items fuel depth []; mret (EList items)
      | Some (TIdent first) => path ← act path_rest; mret (EVar (first :: path))
      | Some t => lift (or_raise ValueError (literal t))
      | None => raise ValueError
      end
  end
with list_items (fuel depth : nat) (items : list Expr) : Parser (list Expr) :=
  match fuel with
  | O => out_of_fuel
  | S fuel =>
      t ← peek;
      match t with
      | Some TRBracket => advance ;; mret items
      | _ =>
          item ← parse_primary fuel (S depth);
          t ← next;
          match t with
          | Some TComma => list_items fuel depth (items ++ [item])
          | Some TRBracket => mret (items ++ [item])
          | _ => raise ValueError
          end
      end
  end.

(** Fuel for [n] tokens: each call goes a level down or reads a token. *)
Definition parse_fuel (n : nat) : nat := condition_MAX_DEPTH + 4 + n.

Definition parse_tokens (toks : list Tok) : result Expr :=
  match toks with
  | [] => Raise ValueError
  | _ =>
      match parse_or (parse_fuel (length toks)) 0 toks with
      | (Ok e, []) => Ok e
      | (Ok _, _ :: _) => Raise ValueError
      | (Raise x, _) => Raise x
      | (OutOfFuel, _) => OutOfFuel
      end
  end.

(** [parse] *)
Definition parse (tables : CharTables) (src : pystr) : result Expr :=
  toks ← lex tables src; parse_tokens toks.

(** ** Values *)

(** [rmpv::Value]. Its strings come from Rust's, so they are text; the conversion
    below makes no [F32] and no [Ext]. *)
Inductive Value :=
  | VNil
  | VBoolean (b : bool)
  | VInteger (z : Z)
  | VF32 (bits : Z)
  | VF64 (bits : Z)
  | VString (s : pystr)
  | VBinary (b : bytes)
  | VArray (items : list Value)
  | VMap (pairs : list (Value * Value))
  | VExt (type : Z) (b : bytes).

(** [Value]'s [==]: the same constructor and equal contents; an integer is its
    number, a float compares as IEEE 754 says. *)
Fixpoint value_eqb (a b : Value) {struct a} : bool :=
  match a, b with
  | VNil, VNil => true
  | VBoolean x, VBoolean y => Bool.eqb x y
  | VInteger x, VInteger y => (x =? y)%Z
  | VF32 x, VF32 y =>
      num_eqb (num_of_bits (f64_of_f32 (Z.to_N x))) (num_of_bits (f64_of_f32 (Z.to_N y)))
  | VF64 x, VF64 y => num_eqb (num_of_bits x) (num_of_bits y)
  | VString x, VString y => str_eqb x y
  | VBinary x, VBinary y => bool_decide (x = y)
  | VArray l, VArray k =>
      (fix eqs l k :=
         match l, k with
         | [], [] => true
         | x :: l', y :: k' => value_eqb x y && eqs l' k'
         | _, _ => false
         end) l k
  | VMap l, VMap k =>
      (fix eqs l k :=
         match l, k with
         | [], [] => true
         | (x, u) :: l', (y, v) :: k' => value_eqb x y && value_eqb u v && eqs l' k'
         | _, _ => false
         end) l k
  | VExt t x, VExt u y => (t =? u)%Z && bool_decide (x = y)
  | _, _ => false
  end.

(** [py_to_value_at]: the pairs of a dict, the items of a list or a tuple. *)
Definition value_items (item : pyval → result Value) : list pyval → result (list Value) :=
  fix go l :=
    match l with
    | [] => Ok []
    | x :: l' => v ← item x; vs ← go l'; Ok (v :: vs)
    end.

Definition value_pairs (item : pyval → result Value) : pydict → result (list (Value * Value)) :=
  fix go d :=
    match d with
    | [] => Ok []
    | (k, x) :: d' => kv ← item k; v ← item x; vs ← go d'; Ok ((kv, v) :: vs)
    end.

Definition value_int (z : Z) : result Value :=
  if (- 2 ^ 63 <=? z)%Z && (z <? 2 ^ 63)%Z then Ok (VInteger z)
  else if (0 <=? z)%Z && (z <? 2 ^ 64)%Z then Ok (VInteger z)
  else Raise ValueError.

Fixpoint py_to_value_at (v : pyval) (depth : nat) {struct v} : result Value :=
  if (MAX_DEPTH <? depth)%nat then Raise ValueError
  else match v with
  | PNone => Ok VNil
  | PBool b => Ok (VBoolean b)
  | PInt z => value_int z
  | PFloat bits => Ok (VF64 bits)
  | PStr s => s ← as_string s; Ok (VString s)
  | PBytes b => Ok (VBinary b)
  | PDict d => pairs ← value_pairs (λ x, py_to_value_at x (S depth)) d; Ok (VMap pairs)
  | PList l | PTuple l => items ← value_items (λ x, py_to_value_at x (S depth)) l; Ok (VArray items)
  | PObject _ => Raise TypeError
  end.

(** [py_to_value] *)
Definition py_to_value (v : pyval) : result Value := py_to_value_at v 0.

(** ** The evaluator *)

(** [as_f64] *)
Definition as_f64 (v : Value) : option pynum :=
  match v with
  | VInteger z => Some (f64_of_Z z)
  | VF64 bits => Some (num_of_bits bits)
  | VF32 bits => Some (num_of_bits (f64_of_f32 (Z.to_N bits)))
  | _ => None
  end.

(** [truthy] *)
Definition value_truthy (v : Value) : bool :=
  match v with
  | VNil => false
  | VBoolean b => b
  | VInteger _ | VF32 _ | VF64 _ =>
      match as_f64 v with Some f => negb (num_eqb f (NFin 0 0)) | None => false end
  | VString s => negb (bool_decide (s = []))
  | VBinary b => negb (bool_decide (b = []))
  | VArray a => match a with [] => false | _ => true end
  | VMap m => match m with [] => false | _ => true end
  | VExt _ _ => true
  end.

Definition values_equal (a b : Value) : bool :=
  match as_f64 a, as_f64 b with
  | Some x, Some y => num_eqb x y
  | _, _ => value_eqb a b
  end.

(** [x < y] on floats: false if either is not a number. *)
Definition num_ltb (x y : pynum) : bool := num_leb x y && negb (num_eqb x y).

Definition ordering_true (op : CmpOp) (a b : Value) : bool :=
  match as_f64 a, as_f64 b with
  | Some x, Some y =>
      match op with
      | OLt => num_ltb x y
      | OLe => num_leb x y
      | OGt => num_ltb y x
      | OGe => num_leb y x
      | _ => false
      end
  | _, _ =>
      match a, b with
      | VString x, VString y =>
          match op with
          | OLt => str_ltb x y
          | OLe => str_leb x y
          | OGt => str_ltb y x
          | OGe => str_leb y x
          | _ => false
          end
      | _, _ => false
      end
  end.

Definition is_member (a b : Value) : bool :=
  match b with
  | VArray items => existsb (λ it, values_equal it a) items
  | VString h => match a with VString n => is_infix n h | _ => false end
  | VMap pairs => existsb (λ kv, values_equal kv.1 a) pairs
  | _ => false
  end.

(** [pairs.iter().find]: the value of a string key. *)
Fixpoint map_find (seg : pystr) (pairs : list (Value * Value)) : option Value :=
  match pairs with
  | [] => None
  | (k, v) :: pairs' =>
      if match k with VString s => str_eqb s seg | _ => false end then Some v
      else map_find seg pairs'
  end.

(** [lookup] *)
Fixpoint value_lookup (state : Value) (path : list pystr) : option Value :=
  match path with
  | [] => Some state
  | seg :: path' =>
      match state with
      | VMap pairs => found ← map_find seg pairs; value_lookup found path'
      | _ => None
      end
  end.

(** [eval] *)
Fixpoint eval (expr : Expr) (state : Value) : Value :=
  match expr with
  | EStr s => VString s
  | EInt n => VInteger n
  | EFloat f => VF64 f
  | EBool b => VBoolean b
  | ENull => VNil
  | EList items => VArray ((λ e, eval e state) <$> items)
  | EVar path => from_option id VNil (value_lookup state path)
  | ENot e => VBoolean (negb (value_truthy (eval e state)))
  | EAnd terms => VBoolean (forallb (λ t, value_truthy (eval t state)) terms)
  | EOr terms => VBoolean (existsb (λ t, value_truthy (eval t state)) terms)
  | ECmp op a b =>
      let av := eval a state in
      let bv := eval b state in
      VBoolean (match op with
                | OEq => values_equal av bv
                | ONe => negb (values_equal av bv)
                | OIn => is_member av bv
                | ONotIn => negb (is_member av bv)
                | other => ordering_true other av bv
                end)
  end.

(** [eval_truthy] *)
Definition eval_truthy (expr : Expr) (state : Value) : bool := value_truthy (eval expr state).

(** [collect_paths] *)
Fixpoint collect_paths (expr : Expr) (out : list (list pystr)) : list (list pystr) :=
  match expr with
  | EVar path => if bool_decide (path ∈ out) then out else out ++ [path]
  | ENot inner => collect_paths inner out
  | EAnd terms | EOr terms | EList terms => foldl (λ out t, collect_paths t out) out terms
  | ECmp _ a b => collect_paths b (collect_paths a out)
  | EStr _ | EInt _ | EFloat _ | EBool _ | ENull => out
  end.
