(* ===== verification/ConditionValues.v ===== *)
(** * The values conditions are evaluated on: a type for [py_to_value]

    Which Python values convert, to what: the conversion as a relation between Python
    values and [rmpv] values, without the order in which the code tests and recurses. *)

From S2P Require Import Prelude PyValue Codec Condition.

Inductive value_of : pyval → Value → Prop :=
  | value_of_none : value_of PNone VNil
  | value_of_bool b : value_of (PBool b) (VBoolean b)
  | value_of_int z : (- 2 ^ 63 <= z < 2 ^ 64)%Z → value_of (PInt z) (VInteger z)
  | value_of_float bits : value_of (PFloat bits) (VF64 bits)
  | value_of_str s : valid_text s → value_of (PStr s) (VString s)
  | value_of_bytes b : value_of (PBytes b) (VBinary b)
  | value_of_list l vs : Forall2 value_of l vs → value_of (PList l) (VArray vs)
  | value_of_tuple l vs : Forall2 value_of l vs → value_of (PTuple l) (VArray vs)
  | value_of_dict d ps :
      Forall2 (λ kv p, value_of kv.1 p.1 ∧ value_of kv.2 p.2) d ps → value_of (PDict d) (VMap ps).

(** How far below a value its deepest part is. *)
Fixpoint value_depth (v : pyval) : nat :=
  match v with
  | PList l | PTuple l => foldr (λ x n, Nat.max (S (value_depth x)) n) 0 l
  | PDict d => foldr (λ kv n, Nat.max (S (Nat.max (value_depth kv.1) (value_depth kv.2))) n) 0 d
  | _ => 0
  end.

Definition converts (v : pyval) : Prop := ∀ depth w,
  (py_to_value_at v depth = Ok w ↔ value_of v w ∧ depth + value_depth v ≤ MAX_DEPTH) ∧
  py_to_value_at v depth ≠ OutOfFuel.

Lemma items_convert l depth :
  Forall converts l → ∀ vs,
  (value_items (λ x, py_to_value_at x (S depth)) l = Ok vs ↔
     Forall2 value_of l vs ∧ (l = [] ∨ depth + foldr (λ x n, Nat.max (S (value_depth x)) n) 0 l ≤ MAX_DEPTH)) ∧
  value_items (λ x, py_to_value_at x (S depth)) l ≠ OutOfFuel.
Proof.
  induction 1 as [|x l Hx _ IH]; intros vs; cbn [value_items foldr].
  { split; [|done]. split; [intros [= <-]; by auto|]. by intros [->%Forall2_nil_inv_l _]. }
  destruct (py_to_value_at x (S depth)) as [w|e|] eqn:Ex; cbn [mbind result_bind].
  - apply Hx in Ex as [Hw Hd]. destruct (IH vs) as [_ Hf].
    destruct (value_items (λ x, py_to_value_at x (S depth)) l) as [ws|e|] eqn:El; [| |done].
    + destruct (proj1 (proj1 (IH ws)) eq_refl) as [Hws Hr]. split; [|done]. split.
      * intros [= <-]. split; [by constructor|]. right. destruct Hr as [->|Hr]; cbn; lia.
      * intros [(w'&ws'&Hw'&Hws'&->)%Forall2_cons_inv_l _].
        assert (Ok ws = Ok ws') as [= ->] by (apply IH; split; [done|]; destruct Hr; auto).
        assert (py_to_value_at x (S depth) = Ok w') as Ex' by by apply Hx.
        assert (py_to_value_at x (S depth) = Ok w) as Ex by by apply Hx. cbn. congruence.
    + split; [|done]. split; [done|]. intros [(w'&ws'&Hw'&Hws'&->)%Forall2_cons_inv_l [?|Hr]]; [done|].
      assert (Raise e = Ok ws') by (apply IH; split; [done|right; lia]). done.
  - split; [|done]. split; [done|]. intros [(w'&ws'&Hw'&Hws'&->)%Forall2_cons_inv_l [?|Hr]]; [done|].
    assert (py_to_value_at x (S depth) = Ok w') by (apply Hx; split; [done|lia]). congruence.
  - exfalso. by apply (proj2 (Hx (S depth) VNil)).
Qed.

Lemma pairs_convert d depth :
  Forall (λ kv, converts kv.1 ∧ converts kv.2) d → ∀ ps,
  (value_pairs (λ x, py_to_value_at x (S depth)) d = Ok ps ↔
     Forall2 (λ kv p, value_of kv.1 p.1 ∧ value_of kv.2 p.2) d ps ∧
     (d = [] ∨ depth + foldr (λ kv n, Nat.max (S (Nat.max (value_depth kv.1) (value_depth kv.2))) n) 0 d
               ≤ MAX_DEPTH)) ∧
  value_pairs (λ x, py_to_value_at x (S depth)) d ≠ OutOfFuel.
Proof.
  induction 1 as [|[k x] d [Hk Hx] _ IH]; intros ps; cbn [value_pairs foldr fst snd] in *.
  { split; [|done]. split; [intros [= <-]; by auto|]. by intros [->%Forall2_nil_inv_l _]. }
  assert (∀ ps, Forall2 (λ kv p, value_of kv.1 p.1 ∧ value_of kv.2 p.2) ((k, x) :: d) ps →
    S depth + Nat.max (value_depth k) (value_depth x) ≤ MAX_DEPTH →
    ∃ kv w ws, ps = (kv, w) :: ws ∧ Forall2 (λ kv p, value_of kv.1 p.1 ∧ value_of kv.2 p.2) d ws ∧
      py_to_value_at k (S depth) = Ok kv ∧ py_to_value_at x (S depth) = Ok w) as Hinv.
  { intros ps' ([kv w]&ws&[Hkv Hw]&Hws&->)%Forall2_cons_inv_l Hd. cbn in Hkv, Hw. exists kv, w, ws.
    split_and!; [done..|apply Hk|apply Hx]; (split; [done|lia]). }
  destruct (py_to_value_at k (S depth)) as [kv|e|] eqn:Ek; cbn [mbind result_bind];
    [| |by destruct (proj2 (Hk (S depth) VNil))].
  2:{ split; [|done]. split; [done|]. intros [Hps [?|Hr]]; [done|].
      destruct (Hinv ps Hps) as (?&?&?&?&?&?&?); [lia|done]. }
  destruct (py_to_value_at x (S depth)) as [w|e|] eqn:Ex; cbn [mbind result_bind];
    [| |by destruct (proj2 (Hx (S depth) VNil))].
  2:{ split; [|done]. split; [done|]. intros [Hps [?|Hr]]; [done|].
      destruct (Hinv ps Hps) as (?&?&?&?&?&?&?); [lia|done]. }
  apply Hk in Ek as [Hkv Hkd]. apply Hx in Ex as [Hw Hd]. destruct (IH []) as [_ Hf].
  destruct (value_pairs (λ x, py_to_value_at x (S depth)) d) as [ws|e|] eqn:El; cbn [mbind result_bind]; [| |done].
  - destruct (proj1 (proj1 (IH ws)) eq_refl) as [Hws Hr]. split; [|done]. split.
    + intros [= <-]. split; [by constructor|]. right. destruct Hr as [->|Hr]; cbn; lia.
    + intros [Hps _]. destruct (Hinv ps Hps) as (kv'&w'&ws'&->&Hws'&Ek'&Ex'); [lia|]. simplify_eq.
      assert (Ok ws = Ok ws') as [= ->] by (apply IH; split; [done|]; destruct Hr; auto). done.
  - split; [|done]. split; [done|]. intros [Hps [?|Hr]]; [done|].
    destruct (Hinv ps Hps) as (kv'&w'&ws'&->&Hws'&_); [lia|].
    assert (Raise e = Ok ws') by (apply IH; split; [done|right; lia]). done.
Qed.

Lemma all_convert v : converts v.
Proof.
  induction v as [|b|z|bits|s|b|l Hl|l Hl|d Hd|n] using pyval_nested_ind; intros depth w;
    cbn -[MAX_DEPTH Nat.ltb]; (destruct (Nat.ltb_spec MAX_DEPTH depth) as [Hm|Hm];
      [split; [|done]; split; [done|]; intros [_ ?]; lia|]).
  - split; [|done]. split; [intros [= <-]; split; [constructor|lia]|]. intros [Hv _]. by inversion Hv.
  - split; [|done]. split; [intros [= <-]; split; [constructor|lia]|]. intros [Hv _]. by inversion Hv.
  - unfold value_int.
    destruct (Z.leb_spec (- 2 ^ 63) z), (Z.ltb_spec z (2 ^ 63)), (Z.leb_spec 0 z), (Z.ltb_spec z (2 ^ 64));
      cbn [andb]; (split; [|done]); (split; [first [done|intros [= <-]; split; [apply value_of_int; lia|lia]]|]);
      intros [Hv _]; inversion Hv; subst; (done || lia).
  - split; [|done]. split; [intros [= <-]; split; [constructor|lia]|]. intros [Hv _]. by inversion Hv.
  - unfold as_string. destruct (decide (valid_text s)) as [Hs|Hs]; cbn [mbind result_bind]; (split; [|done]).
    + split; [intros [= <-]; split; [by constructor|lia]|]. intros [Hv _]. by inversion Hv.
    + split; [done|]. intros [Hv _]. by inversion Hv.
  - split; [|done]. split; [intros [= <-]; split; [constructor|lia]|]. intros [Hv _]. by inversion Hv.
  - destruct (items_convert l depth Hl []) as [_ Hf].
    destruct (value_items _ l) as [vs|e|] eqn:E; cbn [mbind result_bind]; [| |done]; (split; [|done]).
    + destruct (proj1 (proj1 (items_convert l depth Hl vs)) E) as [Hvs Hr]. split.
      * intros [= <-]. split; [by constructor|]. destruct Hr as [->|]; cbn; lia.
      * intros [Hv _]. inversion Hv as [| | | | | |? vs' Hvs'| |]; subst.
        assert (Ok vs = Ok vs') as [= ->]; [|done]. rewrite <-E.
        apply (items_convert l depth Hl). split; [done|]. destruct Hr; auto.
    + split; [done|]. intros [Hv Hd]. inversion Hv as [| | | | | |? vs' Hvs'| |]; subst.
      assert (Raise e = Ok vs'); [|done]. rewrite <-E. apply (items_convert l depth Hl). auto.
  - destruct (items_convert l depth Hl []) as [_ Hf].
    destruct (value_items _ l) as [vs|e|] eqn:E; cbn [mbind result_bind]; [| |done]; (split; [|done]).
    + destruct (proj1 (proj1 (items_convert l depth Hl vs)) E) as [Hvs Hr]. split.
      * intros [= <-]. split; [by constructor|]. destruct Hr as [->|]; cbn; lia.
      * intros [Hv _]. inversion Hv as [| | | | | | |? vs' Hvs'|]; subst.
        assert (Ok vs = Ok vs') as [= ->]; [|done]. rewrite <-E.
        apply (items_convert l depth Hl). split; [done|]. destruct Hr; auto.
    + split; [done|]. intros [Hv Hd]. inversion Hv as [| | | | | | |? vs' Hvs'|]; subst.
      assert (Raise e = Ok vs'); [|done]. rewrite <-E. apply (items_convert l depth Hl). auto.
  - destruct (pairs_convert d depth Hd []) as [_ Hf].
    destruct (value_pairs _ d) as [ps|e|] eqn:E; cbn [mbind result_bind]; [| |done]; (split; [|done]).
    + destruct (proj1 (proj1 (pairs_convert d depth Hd ps)) E) as [Hps Hr]. split.
      * intros [= <-]. split; [by constructor|]. destruct Hr as [->|]; cbn; lia.
      * intros [Hv _]. inversion Hv as [| | | | | | | |? ps' Hps']; subst.
        assert (Ok ps = Ok ps') as [= ->]; [|done]. rewrite <-E.
        apply (pairs_convert d depth Hd). split; [done|]. destruct Hr; auto.
    + split; [done|]. intros [Hv Hdd]. inversion Hv as [| | | | | | | |? ps' Hps']; subst.
      assert (Raise e = Ok ps'); [|done]. rewrite <-E. apply (pairs_convert d depth Hd). auto.
  - split; [|done]. split; [done|]. intros [Hv _]. inversion Hv.
Qed.

(** C39: the type of a routing state. A Python value converts exactly when it is built of
    None, booleans, integers of 64 bits, floats, text without surrogates, bytes, lists,
    tuples and dicts, to at most 128 levels below itself; then the result is its image,
    tuples and lists alike as arrays and dicts in their order; everything else raises. *)
Theorem py_to_value_typed v :
  (∀ w, py_to_value v = Ok w ↔ value_of v w ∧ value_depth v ≤ MAX_DEPTH) ∧
  (is_ok (py_to_value v) = false → ∃ e, py_to_value v = Raise e).
Proof.
  split; [intros w; apply (all_convert v 0 w)|].
  pose proof (proj2 (all_convert v 0 VNil)) as Hf. unfold py_to_value.
  destruct (py_to_value_at v 0); [done|by eauto|done].
Qed.

Lemma py_to_value_typed_witness :
  py_to_value (PDict [(PStr (lit "n"), PTuple [PInt 3; PNone])]) =
    Ok (VMap [(VString (lit "n"), VArray [VInteger 3; VNil])]) ∧
  ∃ e, py_to_value (PList [PObject 7]) = Raise e.
Proof.
  split.
  - apply (py_to_value_typed (PDict [(PStr (lit "n"), PTuple [PInt 3; PNone])])). split; [|vm_compute; lia].
    repeat constructor; try (by apply (bool_decide_unpack _)); done.
  - by apply (proj2 (py_to_value_typed (PList [PObject 7]))).
Defined.
