(* ===== verification/ConditionGrammar.v ===== *)
(** * The grammar of conditions

    What the parser of Condition.v accepts, as a grammar over tokens with the usual
    precedence ([or], [and], [not], comparisons), and the proof that the parser
    implements it: it accepts exactly the token lists the grammar derives with the
    nesting the depth check allows, builds the derived expression, and ends with
    [ValueError] on everything else. *)

From S2P Require Import Prelude PyValue Condition.

(** ** The grammar

    The first argument is how many more levels may be opened: what remains of
    [MAX_DEPTH]. *)

(** The tokens of an operator; of the further segments of a path. *)
Definition op_toks (op : CmpOp) : list Tok :=
  match op with
  | OEq => [TEq] | ONe => [TNe] | OLt => [TLt] | OLe => [TLe] | OGt => [TGt] | OGe => [TGe]
  | OIn => [TIn] | ONotIn => [TNot; TIn]
  end.

Definition dotted (path : list pystr) : list Tok := path ≫= λ seg, [TDot; TIdent seg].

Inductive or_g : nat → list Tok → Expr → Prop :=
  | or_one n t e : and_g n t e → or_g (S n) t e
  | or_many n t e ts es :
      and_g n t e → or_tail n ts es → es ≠ [] → or_g (S n) (t ++ ts) (EOr (e :: es))
with or_tail : nat → list Tok → list Expr → Prop :=
  | or_tail_nil n : or_tail n [] []
  | or_tail_cons n t e ts es :
      and_g n t e → or_tail n ts es → or_tail n (TOr :: t ++ ts) (e :: es)
with and_g : nat → list Tok → Expr → Prop :=
  | and_one n t e : not_g n t e → and_g (S n) t e
  | and_many n t e ts es :
      not_g n t e → and_tail n ts es → es ≠ [] → and_g (S n) (t ++ ts) (EAnd (e :: es))
with and_tail : nat → list Tok → list Expr → Prop :=
  | and_tail_nil n : and_tail n [] []
  | and_tail_cons n t e ts es :
      not_g n t e → and_tail n ts es → and_tail n (TAnd :: t ++ ts) (e :: es)
with not_g : nat → list Tok → Expr → Prop :=
  | not_not n t e : not_g n t e → not_g (S n) (TNot :: t) (ENot e)
  | not_cmp n t e : cmp_g n t e → not_g (S n) t e
with cmp_g : nat → list Tok → Expr → Prop :=
  | cmp_one n t e : prim_g n t e → cmp_g (S n) t e
  | cmp_two n ta a op tb b :
      prim_g n ta a → prim_g n tb b → cmp_g (S n) (ta ++ op_toks op ++ tb) (ECmp op a b)
with prim_g : nat → list Tok → Expr → Prop :=
  | prim_literal n t e : literal t = Some e → prim_g n [t] e
  | prim_path n first path : prim_g n (TIdent first :: dotted path) (EVar (first :: path))
  | prim_paren n t e : or_g n t e → prim_g (S n) (TLParen :: t ++ [TRParen]) e
  | prim_list n ts es : items_g n ts es → prim_g n (TLBracket :: ts) (EList es)
with items_g : nat → list Tok → list Expr → Prop :=
  | items_nil n : items_g n [TRBracket] []
  | items_last n t e : prim_g n t e → items_g (S n) (t ++ [TRBracket]) [e]
  | items_cons n t e ts es : prim_g n t e → items_g (S n) ts es → items_g (S n) (t ++ TComma :: ts) (e :: es).

Scheme or_g_mut := Minimality for or_g Sort Prop
with or_tail_mut := Minimality for or_tail Sort Prop
with and_g_mut := Minimality for and_g Sort Prop
with and_tail_mut := Minimality for and_tail Sort Prop
with not_g_mut := Minimality for not_g Sort Prop
with cmp_g_mut := Minimality for cmp_g Sort Prop
with prim_g_mut := Minimality for prim_g Sort Prop
with items_g_mut := Minimality for items_g Sort Prop.
Combined Scheme grammar_ind from or_g_mut, or_tail_mut, and_g_mut, and_tail_mut, not_g_mut, cmp_g_mut,
  prim_g_mut, items_g_mut.

Create HintDb grammar.
#[export] Hint Constructors or_g or_tail and_g and_tail not_g cmp_g prim_g items_g : grammar.

(** ** Runs of the parser *)

(** [m] reads a prefix of [toks] and returns or raises [ValueError]. *)
Definition reads_prefix {A} (m : Parser A) (toks : list Tok) (Q : A → list Tok → Prop) : Prop :=
  match m toks with
  | (Ok a, rest) => ∃ pre, toks = pre ++ rest ∧ Q a pre
  | (Raise e, _) => e = ValueError
  | (OutOfFuel, _) => False
  end.

Lemma rp_bind {A B} (m : Parser A) (f : A → Parser B) toks (Q : A → list Tok → Prop)
    (R : B → list Tok → Prop) :
  reads_prefix m toks Q →
  (∀ a pre rest, toks = pre ++ rest → Q a pre → reads_prefix (f a) rest (λ b suf, R b (pre ++ suf))) →
  reads_prefix (m ≫= f) toks R.
Proof.
  unfold reads_prefix, mbind, pym_bind. intros Hm Hf. destruct (m toks) as [[a|e|] rest]; [|done..].
  destruct Hm as (pre&->&Ha). specialize (Hf a pre rest eq_refl Ha).
  destruct (f a rest) as [[b|e|] rest']; [|done..].
  destruct Hf as (suf&->&Hb). exists (pre ++ suf). by rewrite <-app_assoc.
Qed.

Lemma rp_ret {A} (a : A) toks (Q : A → list Tok → Prop) : Q a [] → reads_prefix (mret a) toks Q.
Proof. intros H. by exists []. Qed.

Lemma rp_raise {A} toks (Q : A → list Tok → Prop) : reads_prefix (raise ValueError) toks Q.
Proof. done. Qed.

Lemma rp_mono {A} (m : Parser A) toks (Q R : A → list Tok → Prop) :
  reads_prefix m toks Q → (∀ a pre, Q a pre → R a pre) → reads_prefix m toks R.
Proof.
  unfold reads_prefix. intros Hm H. destruct (m toks) as [[a|e|] rest]; [|done..].
  destruct Hm as (pre&->&?). exists pre. eauto.
Qed.

(** Looking at the next token; reading it. *)
Lemma rp_peek {B} (f : option Tok → Parser B) toks (R : B → list Tok → Prop) :
  reads_prefix (f (head toks)) toks R → reads_prefix (peek ≫= f) toks R.
Proof. done. Qed.

Lemma rp_advance {B} (m : Parser B) t toks (R : B → list Tok → Prop) :
  reads_prefix m toks (λ b suf, R b (t :: suf)) → reads_prefix (advance ;; m) (t :: toks) R.
Proof.
  unfold reads_prefix, advance, mbind, pym_bind, modify. simpl.
  destruct (m toks) as [[a|e|] rest]; [|done..]. intros (pre&->&?). by exists (t :: pre).
Qed.

Lemma rp_next {B} (f : option Tok → Parser B) t toks (R : B → list Tok → Prop) :
  reads_prefix (f (Some t)) toks (λ b suf, R b (t :: suf)) → reads_prefix (next ≫= f) (t :: toks) R.
Proof.
  unfold reads_prefix, next, act, mbind, pym_bind. simpl.
  destruct (f (Some t) toks) as [[a|e|] rest]; [|done..]. intros (pre&->&?). by exists (t :: pre).
Qed.

Lemma rp_next_nil {B} (f : option Tok → Parser B) (R : B → list Tok → Prop) :
  reads_prefix (f None) [] R → reads_prefix (next ≫= f) [] R.
Proof. done. Qed.

Lemma rp_path toks : reads_prefix (act path_rest) toks (λ path pre, pre = dotted path).
Proof.
  unfold reads_prefix, act.
  enough (∀ n toks, length toks ≤ n → match path_rest toks with
    | (Ok path, rest) => ∃ pre, toks = pre ++ rest ∧ pre = dotted path
    | (Raise e, _) => e = ValueError
    | (OutOfFuel, _) => False end) as H by by eapply H.
  clear toks. induction n as [|n IH]; intros [|t toks] Hn; simpl in Hn; try (by exists []); try lia.
  destruct t; try by exists [].
  destruct toks as [|u toks]; [done|]. destruct u; try done. simpl.
  specialize (IH toks ltac:(simpl in Hn; lia)). destruct (path_rest toks) as [[path|e|] rest]; [|done..].
  destruct IH as (pre&->&->). by exists (dotted (s :: path)).
Qed.

(** ** Soundness, and that the fuel is enough

    At depth [d] the levels that remain are [MAX_DEPTH - d], and [MAX_DEPTH + 4 - d]
    plus a unit per token is enough fuel. *)

Definition fuelled (fuel depth limit : nat) (toks : list Tok) : Prop :=
  depth ≤ condition_MAX_DEPTH + limit ∧ condition_MAX_DEPTH + 4 - depth + length toks ≤ fuel.

(** What parsing at a depth promises for a nonterminal. *)
Definition parsed (G : nat → list Tok → Expr → Prop) (depth : nat) (e : Expr) (pre : list Tok) : Prop :=
  depth ≤ condition_MAX_DEPTH ∧ G (condition_MAX_DEPTH - depth) pre e.

(** And for a loop that has [terms] already and goes on while it sees [sep]. *)
Definition looped (G : nat → list Tok → list Expr → Prop) (sep : Tok) (depth : nat) (toks : list Tok)
    (terms : list Expr) (es : list Expr) (pre : list Tok) : Prop :=
  ∃ more, es = terms ++ more ∧ G (condition_MAX_DEPTH - S depth) pre more ∧
    (head toks = Some sep → more ≠ []).

Record parser_sound (fuel : nat) : Prop := {
  sound_or depth toks :
    fuelled fuel depth 2 toks → reads_prefix (parse_or fuel depth) toks (parsed or_g depth);
  sound_or_terms depth toks terms :
    fuelled (S fuel) depth 0 toks →
    reads_prefix (or_terms fuel depth terms) toks (looped or_tail TOr depth toks terms);
  sound_and depth toks :
    fuelled fuel depth 1 toks → reads_prefix (parse_and fuel depth) toks (parsed and_g depth);
  sound_and_terms depth toks terms :
    fuelled (S fuel) depth 1 toks →
    reads_prefix (and_terms fuel depth terms) toks (looped and_tail TAnd depth toks terms);
  sound_not depth toks :
    fuelled fuel depth 2 toks → reads_prefix (parse_not fuel depth) toks (parsed not_g depth);
  sound_cmp depth toks :
    fuelled fuel depth 1 toks → reads_prefix (parse_cmp fuel depth) toks (parsed cmp_g depth);
  sound_primary depth toks :
    fuelled fuel depth 2 toks → reads_prefix (parse_primary fuel depth) toks (parsed prim_g depth);
  sound_items depth toks items :
    fuelled fuel depth 0 toks →
    reads_prefix (list_items fuel depth items) toks (λ es pre, ∃ more, es = items ++ more ∧
      items_g (condition_MAX_DEPTH - depth) pre more);
}.

(** One level further down, when there is one. *)
Lemma parsed_levels G depth e pre :
  parsed G (S depth) e pre →
  ∃ n, condition_MAX_DEPTH - depth = S n ∧ condition_MAX_DEPTH - S depth = n ∧ depth ≤ condition_MAX_DEPTH ∧
    G n pre e.
Proof. intros [Hd HG]. exists (condition_MAX_DEPTH - S depth). split_and!; [lia..|done]. Qed.

Ltac solve_fuel :=
  unfold fuelled in *; repeat (rewrite ?length_app in *; cbn [length] in *); split; lia.

Lemma sound_or_step fuel : parser_sound fuel → ∀ depth toks,
  fuelled (S fuel) depth 2 toks → reads_prefix (parse_or (S fuel) depth) toks (parsed or_g depth).
Proof.
  intros IH depth toks Hf. simpl. unfold too_deep. destruct (Nat.ltb_spec condition_MAX_DEPTH depth); [done|].
  eapply rp_bind; [apply (sound_and _ IH); solve_fuel|]. intros first pre rest -> (n&Hn&Hn'&Hd&Hg)%parsed_levels.
  apply rp_peek. destruct rest as [|t rest]; simpl; [|destruct t eqn:Et].
  all: try (apply rp_ret; rewrite app_nil_r; split; [done|]; rewrite Hn; by apply or_one).
  subst t. eapply rp_bind; [apply (sound_or_terms _ IH); solve_fuel|].
  intros es ts rest' Hr (more&->&Ht&Hne). apply rp_ret. rewrite app_nil_r. split; [done|].
  rewrite Hn. apply or_many; [done|by rewrite <-Hn'|by apply Hne].
Qed.

Lemma sound_or_terms_step fuel : parser_sound fuel → ∀ depth toks terms,
  fuelled (S (S fuel)) depth 0 toks →
  reads_prefix (or_terms (S fuel) depth terms) toks (looped or_tail TOr depth toks terms).
Proof.
  intros IH depth toks terms Hf. simpl. apply rp_peek.
  destruct toks as [|t toks]; simpl; [|destruct t eqn:Et].
  all: try (apply rp_ret; exists []; rewrite app_nil_r; split_and!; [done|constructor|done]).
  apply rp_advance. eapply rp_bind; [apply (sound_and _ IH); solve_fuel|]. intros e pre rest -> [_ He].
  eapply rp_mono; [apply (sound_or_terms _ IH); solve_fuel|]. intros es ts (more&->&Ht&_).
  exists (e :: more). split_and!; [by rewrite <-app_assoc|by constructor|done].
Qed.

Lemma sound_and_step fuel : parser_sound fuel → ∀ depth toks,
  fuelled (S fuel) depth 1 toks → reads_prefix (parse_and (S fuel) depth) toks (parsed and_g depth).
Proof.
  intros IH depth toks Hf. simpl.
  eapply rp_bind; [apply (sound_not _ IH); solve_fuel|]. intros first pre rest -> (n&Hn&Hn'&Hd&Hg)%parsed_levels.
  apply rp_peek. destruct rest as [|t rest]; simpl; [|destruct t eqn:Et].
  all: try (apply rp_ret; rewrite app_nil_r; split; [done|]; rewrite Hn; by apply and_one).
  subst t. eapply rp_bind; [apply (sound_and_terms _ IH); solve_fuel|].
  intros es ts rest' Hr (more&->&Ht&Hne). apply rp_ret. rewrite app_nil_r. split; [done|].
  rewrite Hn. apply and_many; [done|by rewrite <-Hn'|by apply Hne].
Qed.

Lemma sound_and_terms_step fuel : parser_sound fuel → ∀ depth toks terms,
  fuelled (S (S fuel)) depth 1 toks →
  reads_prefix (and_terms (S fuel) depth terms) toks (looped and_tail TAnd depth toks terms).
Proof.
  intros IH depth toks terms Hf. simpl. apply rp_peek.
  destruct toks as [|t toks]; simpl; [|destruct t eqn:Et].
  all: try (apply rp_ret; exists []; rewrite app_nil_r; split_and!; [done|constructor|done]).
  apply rp_advance. eapply rp_bind; [apply (sound_not _ IH); solve_fuel|]. intros e pre rest -> [_ He].
  eapply rp_mono; [apply (sound_and_terms _ IH); solve_fuel|]. intros es ts (more&->&Ht&_).
  exists (e :: more). split_and!; [by rewrite <-app_assoc|by constructor|done].
Qed.

Lemma sound_not_step fuel : parser_sound fuel → ∀ depth toks,
  fuelled (S fuel) depth 2 toks → reads_prefix (parse_not (S fuel) depth) toks (parsed not_g depth).
Proof.
  intros IH depth toks Hf. simpl. unfold too_deep. destruct (Nat.ltb_spec condition_MAX_DEPTH depth); [done|].
  apply rp_peek.
  assert (reads_prefix (parse_cmp fuel (S depth)) toks (parsed not_g depth)) as Hcmp.
  { eapply rp_mono; [apply (sound_cmp _ IH); solve_fuel|]. intros e pre (n&Hn&_&Hd&Hg)%parsed_levels.
    split; [done|]. rewrite Hn. by apply not_cmp. }
  destruct toks as [|t toks]; simpl; [done|]. destruct t eqn:Et; try done. subst t. clear Hcmp.
  apply rp_advance. eapply rp_bind; [apply (sound_not _ IH); solve_fuel|].
  intros e pre rest -> (n&Hn&_&Hd&Hg)%parsed_levels. apply rp_ret. rewrite app_nil_r.
  split; [done|]. rewrite Hn. by apply not_not.
Qed.

(** The operator in front of the tokens, if there is one. *)
Definition op_at (toks : list Tok) : option CmpOp := match cmp_op toks with (Ok o, _) => o | _ => None end.

Lemma op_at_spec toks op : op_at toks = Some op → ∃ toks', toks = op_toks op ++ toks'.
Proof.
  unfold op_at, cmp_op, gets. destruct toks as [|t toks]; [done|].
  destruct t; try done; try (intros [= <-]; by exists toks).
  destruct toks as [|u toks]; [done|]. destruct u; try done. intros [= <-]. by exists toks.
Qed.

Lemma rp_op {B} op (m : Parser B) toks (R : B → list Tok → Prop) :
  reads_prefix m toks (λ b suf, R b (op_toks op ++ suf)) →
  reads_prefix ((match op with ONotIn => advance | _ => mret tt end) ;; advance ;; m)
    (op_toks op ++ toks) R.
Proof.
  unfold reads_prefix. intros H. destruct op; simpl; unfold advance, mbind, pym_bind, modify, mret, pym_ret; simpl;
    (destruct (m toks) as [[a|e|] rest]; [|done..]; destruct H as (pre&->&?); eexists; by split; [|done]).
Qed.

Lemma sound_cmp_step fuel : parser_sound fuel → ∀ depth toks,
  fuelled (S fuel) depth 1 toks → reads_prefix (parse_cmp (S fuel) depth) toks (parsed cmp_g depth).
Proof.
  intros IH depth toks Hf. simpl.
  eapply rp_bind; [apply (sound_primary _ IH); solve_fuel|]. intros a ta rest -> (n&Hn&Hn'&Hd&Ha)%parsed_levels.
  change (reads_prefix (cmp_op ≫= ?k) rest ?R) with (reads_prefix (k (op_at rest)) rest R). cbv beta.
  destruct (op_at rest) as [op|] eqn:Hop.
  - apply op_at_spec in Hop as [toks' ->]. apply rp_op.
    eapply rp_bind; [apply (sound_primary _ IH); solve_fuel|]. intros b tb rest' -> [_ Hb].
    apply rp_ret. rewrite app_nil_r. split; [done|]. rewrite Hn. apply cmp_two; [done|by rewrite <-Hn'].
  - apply rp_ret. rewrite app_nil_r. split; [done|]. rewrite Hn. by apply cmp_one.
Qed.

Lemma sound_items_step fuel : parser_sound fuel → ∀ depth toks items,
  fuelled (S fuel) depth 0 toks →
  reads_prefix (list_items (S fuel) depth items) toks (λ es pre, ∃ more, es = items ++ more ∧
    items_g (condition_MAX_DEPTH - depth) pre more).
Proof.
  intros IH depth toks items Hf. simpl. apply rp_peek.
  destruct (decide (head toks = Some TRBracket)) as [Hb|Hb].
  { destruct toks as [|t toks]; [done|]. injection Hb as ->. simpl. apply rp_advance, rp_ret.
    exists []. rewrite app_nil_r. split; [done|constructor]. }
  match goal with |- reads_prefix ?m toks ?R => enough (reads_prefix (item ← parse_primary fuel (S depth);
    t ← next; match t with Some TComma => list_items fuel depth (items ++ [item])
      | Some TRBracket => mret (items ++ [item]) | _ => raise ValueError end) toks R) as H end.
  { destruct (head toks) as [t|]; [|done]. by destruct t. }
  eapply rp_bind; [apply (sound_primary _ IH); solve_fuel|]. intros e pre rest -> (n&Hn&Hn'&Hd&He)%parsed_levels.
  destruct rest as [|t rest]; [by apply rp_next_nil|]. apply rp_next. destruct t eqn:Et; try done; subst t.
  - apply rp_ret. exists [e]. split; [done|]. rewrite Hn. by apply items_last.
  - eapply rp_mono; [apply (sound_items _ IH); solve_fuel|]. intros es ts (more&->&Ht).
    exists (e :: more). split; [by rewrite <-app_assoc|]. rewrite Hn in *. by apply items_cons.
Qed.

Lemma sound_primary_step fuel : parser_sound fuel → ∀ depth toks,
  fuelled (S fuel) depth 2 toks → reads_prefix (parse_primary (S fuel) depth) toks (parsed prim_g depth).
Proof.
  intros IH depth toks Hf. simpl. unfold too_deep. destruct (Nat.ltb_spec condition_MAX_DEPTH depth); [done|].
  destruct toks as [|t toks]; [by apply rp_next_nil|]. apply rp_next.
  destruct t eqn:Et; subst t; try done;
    try (exists []; split; [done|]; split; [lia|by apply prim_literal]).
  - eapply rp_bind; [apply rp_path|]. intros path pre rest -> ->. apply rp_ret. rewrite app_nil_r.
    split; [lia|constructor].
  - eapply rp_bind; [apply (sound_or _ IH); solve_fuel|]. intros e pre rest -> (n&Hn&Hn'&Hd&He)%parsed_levels.
    destruct rest as [|t rest]; [by apply rp_next_nil|]. apply rp_next. destruct t eqn:Et; try done; subst t.
    apply rp_ret. split; [done|]. rewrite Hn. by apply prim_paren.
  - eapply rp_bind; [apply (sound_items _ IH); solve_fuel|]. intros es pre rest -> (more&->&Hi).
    apply rp_ret. rewrite app_nil_r. split; [lia|by apply prim_list].
Qed.

Lemma parser_is_sound fuel : parser_sound fuel.
Proof.
  induction fuel as [|fuel IH].
  - split; intros; unfold fuelled in *; lia.
  - split; [apply sound_or_step|apply sound_or_terms_step|apply sound_and_step|apply sound_and_terms_step
      |apply sound_not_step|apply sound_cmp_step|apply sound_primary_step|apply sound_items_step]; done.
Qed.

(** ** Completeness

    What may follow a phrase for the parser to stop after it. *)

Definition follow_prim (rest : list Tok) : Prop := head rest ≠ Some TDot.
Definition follow_cmp (rest : list Tok) : Prop := follow_prim rest ∧ op_at rest = None.
Definition follow_and (rest : list Tok) : Prop := follow_cmp rest ∧ head rest ≠ Some TAnd.
Definition follow_or (rest : list Tok) : Prop := follow_and rest ∧ head rest ≠ Some TOr.

Lemma run_bind {A B} (m : Parser A) (f : A → Parser B) toks a rest :
  m toks = (Ok a, rest) → (m ≫= f) toks = f a rest.
Proof. unfold mbind, pym_bind. by intros ->. Qed.

Lemma follow_tail_or n ts es rest : or_tail n ts es → follow_or rest → follow_and (ts ++ rest).
Proof. intros [] Hr; [apply Hr|done]. Qed.

Lemma follow_tail_and n ts es rest : and_tail n ts es → follow_and rest → follow_cmp (ts ++ rest).
Proof. intros [] Hr; [apply Hr|done]. Qed.

Lemma prim_head n t e : prim_g n t e → ∃ x t', t = x :: t' ∧ x ≠ TRBracket ∧ x ≠ TNot.
Proof. intros [? x ? Hl| | |]; eexists _, _; split; try done. by destruct x. Qed.

Lemma cmp_head n t e : cmp_g n t e → ∃ x t', t = x :: t' ∧ x ≠ TNot.
Proof.
  intros [? ? ? (x&t'&->&_&Hx)%prim_head|? ? ? ? ? ? (x&t'&->&_&Hx)%prim_head _]; by eexists _, _.
Qed.

Lemma run_path path rest :
  follow_prim rest → path_rest (dotted path ++ rest) = (Ok path, rest).
Proof.
  intros Hr. induction path as [|seg path IH]; simpl.
  - destruct rest as [|[] rest]; try done.
  - by rewrite IH.
Qed.

Lemma run_cmp_op {B} (k : option CmpOp → Parser B) toks : (cmp_op ≫= k) toks = k (op_at toks) toks.
Proof. done. Qed.

Lemma op_at_toks op toks : op_at (op_toks op ++ toks) = Some op.
Proof. by destruct op. Qed.

Lemma run_op {B} op (m : Parser B) toks :
  ((match op with ONotIn => advance | _ => mret tt end) ;; advance ;; m) (op_toks op ++ toks) = m toks.
Proof. by destruct op. Qed.

(** The parser finds what the grammar derives. *)
Definition finds (parse : nat → nat → Parser Expr) (limit : nat) (follow : list Tok → Prop)
    (n : nat) (t : list Tok) (e : Expr) : Prop :=
  ∀ fuel depth rest, depth + n = condition_MAX_DEPTH → fuelled fuel depth limit (t ++ rest) → follow rest →
    parse fuel depth (t ++ rest) = (Ok e, rest).

Definition loops (loop : nat → nat → list Expr → Parser (list Expr)) (follow : list Tok → Prop)
    (n : nat) (ts : list Tok) (es : list Expr) : Prop :=
  ∀ fuel depth rest terms, depth + S n = condition_MAX_DEPTH → fuelled (S fuel) depth 0 (ts ++ rest) →
    follow rest → loop fuel depth terms (ts ++ rest) = (Ok (terms ++ es), rest).

Definition lists (n : nat) (ts : list Tok) (es : list Expr) : Prop :=
  ∀ fuel depth rest items, depth + n = condition_MAX_DEPTH → fuelled fuel depth 0 (ts ++ rest) →
    list_items fuel depth items (ts ++ rest) = (Ok (items ++ es), rest).

(** Open the first call of a run: there is fuel, and the depth is allowed. *)
Ltac open_call :=
  let Hd := fresh "Hd" in let Hf := fresh "Hf" in
  intros [|fuel] depth rest Hd Hf; [unfold fuelled in Hf; lia|];
  try (assert (too_deep depth = false) by (unfold too_deep; apply Nat.ltb_ge; lia)).

Ltac known_depth := match goal with H : too_deep _ = false |- _ => rewrite H end.

Lemma finds_or_one n t e :
  finds parse_and 1 follow_and n t e → finds parse_or 2 follow_or (S n) t e.
Proof.
  intros IH. open_call. intros Hr. simpl. known_depth.
  rewrite (run_bind _ _ _ e rest) by (apply IH; [lia|solve_fuel|apply Hr]).
  destruct Hr as [_ Hr]. destruct rest as [|[] rest]; done.
Qed.

Lemma finds_or_many n t e ts es :
  finds parse_and 1 follow_and n t e → or_tail n ts es → loops or_terms follow_or n ts es → es ≠ [] →
  finds parse_or 2 follow_or (S n) (t ++ ts) (EOr (e :: es)).
Proof.
  intros IH Ht IHt Hne. open_call. intros Hr. rewrite <-app_assoc in *. simpl. known_depth.
  rewrite (run_bind _ _ _ e (ts ++ rest)) by (apply IH; [lia|solve_fuel|by eapply follow_tail_or]).
  assert (head (ts ++ rest) = Some TOr) as Hh by (by destruct Ht).
  change ((peek ≫= ?k) (ts ++ rest)) with (k (head (ts ++ rest)) (ts ++ rest)). rewrite Hh. cbv beta iota.
  rewrite (run_bind _ _ _ (e :: es) rest); [done|]. apply (IHt fuel depth rest [e]); [lia|solve_fuel|done].
Qed.

Lemma loops_or_nil n : loops or_terms follow_or n [] [].
Proof.
  intros [|fuel] depth rest terms Hd Hf; [unfold fuelled in Hf; lia|]. intros [_ Hr]. rewrite app_nil_r.
  destruct rest as [|[] rest]; done.
Qed.

Lemma loops_or_cons n t e ts es :
  finds parse_and 1 follow_and n t e → or_tail n ts es → loops or_terms follow_or n ts es →
  loops or_terms follow_or n (TOr :: t ++ ts) (e :: es).
Proof.
  intros IH Ht IHt [|fuel] depth rest terms Hd Hf; [unfold fuelled in Hf; lia|]. intros Hr.
  simpl app in *. rewrite <-app_assoc in *.
  change (or_terms (S fuel) depth terms (TOr :: t ++ ts ++ rest)) with
    ((e ← parse_and fuel (S depth); or_terms fuel depth (terms ++ [e])) (t ++ ts ++ rest)).
  rewrite (run_bind _ _ _ e (ts ++ rest)) by (apply IH; [lia|solve_fuel|by eapply follow_tail_or]).
  rewrite IHt by (lia || solve_fuel || done). by rewrite <-app_assoc.
Qed.

Lemma finds_and_one n t e :
  finds parse_not 2 follow_cmp n t e → finds parse_and 1 follow_and (S n) t e.
Proof.
  intros IH. open_call. intros Hr. simpl.
  rewrite (run_bind _ _ _ e rest) by (apply IH; [lia|solve_fuel|apply Hr]).
  destruct Hr as [_ Hr]. destruct rest as [|[] rest]; done.
Qed.

Lemma finds_and_many n t e ts es :
  finds parse_not 2 follow_cmp n t e → and_tail n ts es → loops and_terms follow_and n ts es → es ≠ [] →
  finds parse_and 1 follow_and (S n) (t ++ ts) (EAnd (e :: es)).
Proof.
  intros IH Ht IHt Hne. open_call. intros Hr. rewrite <-app_assoc in *. simpl.
  rewrite (run_bind _ _ _ e (ts ++ rest)) by (apply IH; [lia|solve_fuel|by eapply follow_tail_and]).
  assert (head (ts ++ rest) = Some TAnd) as Hh by (by destruct Ht).
  change ((peek ≫= ?k) (ts ++ rest)) with (k (head (ts ++ rest)) (ts ++ rest)). rewrite Hh. cbv beta iota.
  rewrite (run_bind _ _ _ (e :: es) rest); [done|]. apply (IHt fuel depth rest [e]); [lia|solve_fuel|done].
Qed.

Lemma loops_and_nil n : loops and_terms follow_and n [] [].
Proof.
  intros [|fuel] depth rest terms Hd Hf; [unfold fuelled in Hf; lia|]. intros [_ Hr]. rewrite app_nil_r.
  destruct rest as [|[] rest]; done.
Qed.

Lemma loops_and_cons n t e ts es :
  finds parse_not 2 follow_cmp n t e → and_tail n ts es → loops and_terms follow_and n ts es →
  loops and_terms follow_and n (TAnd :: t ++ ts) (e :: es).
Proof.
  intros IH Ht IHt [|fuel] depth rest terms Hd Hf; [unfold fuelled in Hf; lia|]. intros Hr.
  simpl app in *. rewrite <-app_assoc in *.
  change (and_terms (S fuel) depth terms (TAnd :: t ++ ts ++ rest)) with
    ((e ← parse_not fuel (S depth); and_terms fuel depth (terms ++ [e])) (t ++ ts ++ rest)).
  rewrite (run_bind _ _ _ e (ts ++ rest)) by (apply IH; [lia|solve_fuel|by eapply follow_tail_and]).
  rewrite IHt by (lia || solve_fuel || done). by rewrite <-app_assoc.
Qed.

Lemma finds_not_not n t e :
  finds parse_not 2 follow_cmp n t e → finds parse_not 2 follow_cmp (S n) (TNot :: t) (ENot e).
Proof.
  intros IH. open_call. intros Hr. simpl. known_depth.
  change ((peek ≫= ?k) ?x) with ((inner ← parse_not fuel (S depth); mret (ENot inner)) (t ++ rest)).
  rewrite (run_bind _ _ _ e rest) by (apply IH; [lia|solve_fuel|apply Hr]). done.
Qed.

Lemma finds_not_cmp n t e :
  cmp_g n t e → finds parse_cmp 1 follow_cmp n t e → finds parse_not 2 follow_cmp (S n) t e.
Proof.
  intros (x&t'&->&Hx)%cmp_head IH. open_call. intros Hr. simpl. known_depth.
  transitivity (parse_cmp fuel (S depth) (x :: t' ++ rest)).
  - change ((peek ≫= ?k) (x :: ?l)) with (k (Some x) (x :: l)). by destruct x.
  - apply (IH fuel (S depth)); [lia|solve_fuel|done].
Qed.

Lemma finds_cmp_one n t e :
  finds parse_primary 2 follow_prim n t e → finds parse_cmp 1 follow_cmp (S n) t e.
Proof.
  intros IH. open_call. intros [Hp Ho]. simpl.
  rewrite (run_bind _ _ _ e rest) by (apply IH; [lia|solve_fuel|done]).
  rewrite run_cmp_op, Ho. done.
Qed.

Lemma finds_cmp_two n ta a op tb b :
  finds parse_primary 2 follow_prim n ta a → finds parse_primary 2 follow_prim n tb b →
  finds parse_cmp 1 follow_cmp (S n) (ta ++ op_toks op ++ tb) (ECmp op a b).
Proof.
  intros IHa IHb. open_call. intros [Hp Ho]. rewrite <-!app_assoc in *. simpl.
  rewrite (run_bind _ _ _ a (op_toks op ++ tb ++ rest)) by
    (apply IHa; [lia|solve_fuel|by destruct op]).
  rewrite run_cmp_op, op_at_toks, run_op.
  rewrite (run_bind _ _ _ b rest) by (apply IHb; [lia|solve_fuel|done]). done.
Qed.

Lemma finds_literal n t e : literal t = Some e → finds parse_primary 2 follow_prim n [t] e.
Proof.
  intros Hl. open_call. intros Hr. simpl. known_depth.
  change ((next ≫= ?k) (t :: rest)) with (k (Some t) rest). destruct t; try done; by injection Hl as <-.
Qed.

Lemma finds_path n first path :
  finds parse_primary 2 follow_prim n (TIdent first :: dotted path) (EVar (first :: path)).
Proof.
  open_call. intros Hr. simpl. known_depth.
  change ((next ≫= ?k) ?x) with ((path ← act path_rest; mret (EVar (first :: path))) (dotted path ++ rest)).
  rewrite (run_bind _ _ _ path rest) by (by apply run_path). done.
Qed.

Lemma finds_paren n t e :
  finds parse_or 2 follow_or n t e → finds parse_primary 2 follow_prim (S n) (TLParen :: t ++ [TRParen]) e.
Proof.
  intros IH. open_call. intros Hr. simpl app in *. rewrite <-app_assoc in *. simpl. known_depth.
  change ((next ≫= ?k) ?x) with ((e ← parse_or fuel (S depth); closing ← next;
    match closing with Some TRParen => mret e | _ => raise ValueError end) (t ++ TRParen :: rest)).
  rewrite (run_bind _ _ _ e (TRParen :: rest)); [done|]. apply IH; [lia|solve_fuel|done].
Qed.

Lemma finds_list n ts es :
  lists n ts es → finds parse_primary 2 follow_prim n (TLBracket :: ts) (EList es).
Proof.
  intros IH. open_call. intros Hr. simpl. known_depth.
  change ((next ≫= ?k) ?x) with ((items ← list_items fuel depth []; mret (EList items)) (ts ++ rest)).
  rewrite (run_bind _ _ _ es rest); [done|]. apply (IH fuel depth rest []); [done|solve_fuel].
Qed.

Lemma lists_nil n : lists n [TRBracket] [].
Proof.
  intros [|fuel] depth rest items Hd Hf; [unfold fuelled in Hf; lia|]. by rewrite app_nil_r.
Qed.

(** An item, in front of the token that says how the list goes on. *)
Lemma run_item n t e fuel depth items x rest :
  prim_g n t e → finds parse_primary 2 follow_prim n t e → x ≠ TDot →
  S depth + n = condition_MAX_DEPTH → fuelled fuel (S depth) 2 (t ++ x :: rest) →
  list_items (S fuel) depth items (t ++ x :: rest) =
  match x with
  | TComma => list_items fuel depth (items ++ [e]) rest
  | TRBracket => (Ok (items ++ [e]), rest)
  | _ => (Raise ValueError, rest)
  end.
Proof.
  intros (y&t'&->&Hy&_)%prim_head IH Hx Hd Hf.
  transitivity ((item ← parse_primary fuel (S depth); t ← next; match t with
    | Some TComma => list_items fuel depth (items ++ [item])
    | Some TRBracket => mret (items ++ [item]) | _ => raise ValueError end) ((y :: t') ++ x :: rest)).
  - simpl. change ((peek ≫= ?k) (y :: ?l)) with (k (Some y) (y :: l)). by destruct y.
  - rewrite (run_bind _ _ _ e (x :: rest)).
    + by destruct x.
    + apply IH; [done|done|]. intros [= ->]. done.
Qed.

Lemma lists_last n t e :
  prim_g n t e → finds parse_primary 2 follow_prim n t e → lists (S n) (t ++ [TRBracket]) [e].
Proof.
  intros Hg IH [|fuel] depth rest items Hd Hf; [unfold fuelled in Hf; lia|]. rewrite <-app_assoc in *.
  apply (run_item n t e); [done|done|done|lia|]. simpl app in *. solve_fuel.
Qed.

Lemma lists_cons n t e ts es :
  prim_g n t e → finds parse_primary 2 follow_prim n t e → lists (S n) ts es →
  lists (S n) (t ++ TComma :: ts) (e :: es).
Proof.
  intros Hg IH IHs [|fuel] depth rest items Hd Hf; [unfold fuelled in Hf; lia|]. rewrite <-app_assoc in *.
  simpl app in *. rewrite (run_item n t e) by (done || lia || solve_fuel).
  rewrite IHs by (lia || solve_fuel). by rewrite <-app_assoc.
Qed.

Lemma grammar_complete :
  (∀ n t e, or_g n t e → finds parse_or 2 follow_or n t e) ∧
  (∀ n t es, or_tail n t es → or_tail n t es ∧ loops or_terms follow_or n t es) ∧
  (∀ n t e, and_g n t e → finds parse_and 1 follow_and n t e) ∧
  (∀ n t es, and_tail n t es → and_tail n t es ∧ loops and_terms follow_and n t es) ∧
  (∀ n t e, not_g n t e → finds parse_not 2 follow_cmp n t e) ∧
  (∀ n t e, cmp_g n t e → cmp_g n t e ∧ finds parse_cmp 1 follow_cmp n t e) ∧
  (∀ n t e, prim_g n t e → prim_g n t e ∧ finds parse_primary 2 follow_prim n t e) ∧
  (∀ n t es, items_g n t es → lists n t es).
Proof.
  apply grammar_ind.
  - intros. by apply finds_or_one.
  - intros n t e ts es _ IH _ [? ?] ?. by apply finds_or_many.
  - intros. split; [constructor|apply loops_or_nil].
  - intros n t e ts es ? IH _ [? ?]. split; [by constructor|by apply loops_or_cons].
  - intros. by apply finds_and_one.
  - intros n t e ts es _ IH _ [? ?] ?. by apply finds_and_many.
  - intros. split; [constructor|apply loops_and_nil].
  - intros n t e ts es ? IH _ [? ?]. split; [by constructor|by apply loops_and_cons].
  - intros. by apply finds_not_not.
  - intros n t e _ [? ?]. by apply finds_not_cmp.
  - intros n t e _ [? ?]. split; [by constructor|by apply finds_cmp_one].
  - intros n ta a op tb b _ [? ?] _ [? ?]. split; [by constructor|by apply finds_cmp_two].
  - intros. split; [by constructor|by apply finds_literal].
  - intros. split; [by constructor|apply finds_path].
  - intros. split; [by constructor|by apply finds_paren].
  - intros. split; [by constructor|by apply finds_list].
  - intros. apply lists_nil.
  - intros n t e _ [? ?]. by apply lists_last.
  - intros n t e ts es _ [? ?] _ ?. by apply lists_cons.
Qed.

(** ** The parser is the grammar *)

Lemma or_g_nonempty n t e : or_g n t e → t ≠ [].
Proof.
  assert (∀ n t e, not_g n t e → t ≠ []) as Hnot.
  { intros ? ? ? [|? ? ? (x&t'&->&_)%cmp_head]; done. }
  assert (∀ n t e, and_g n t e → t ≠ []) as Hand.
  { intros ? ? ? [? ? ? H%Hnot|? t' ? ? ? H%Hnot]; [done|]. by destruct t'. }
  intros [? ? ? H%Hand|? t' ? ? ? H%Hand]; [done|]. by destruct t'.
Qed.

Lemma parse_fuelled toks : fuelled (parse_fuel (length toks)) 0 2 toks.
Proof. unfold fuelled, parse_fuel. lia. Qed.

#[local] Opaque parse_or.

Lemma parse_tokens_complete toks e : or_g condition_MAX_DEPTH toks e → parse_tokens toks = Ok e.
Proof.
  intros Hg. destruct grammar_complete as [Hc _]. unfold parse_tokens.
  pose proof (Hc _ _ _ Hg (parse_fuel (length toks)) 0 []) as H. rewrite app_nil_r in H.
  destruct toks as [|t toks]; [by apply or_g_nonempty in Hg|].
  rewrite H; [done|done|apply parse_fuelled|]. split_and!; done.
Qed.

(** What the parser gives: the derived expression, or [ValueError] and no derivation. *)
Lemma parse_tokens_cases toks :
  match parse_tokens toks with
  | Ok e => or_g condition_MAX_DEPTH toks e
  | Raise x => x = ValueError ∧ ∀ e, ¬ or_g condition_MAX_DEPTH toks e
  | OutOfFuel => False
  end.
Proof.
  assert (∀ e, or_g condition_MAX_DEPTH toks e → parse_tokens toks = Ok e) as Hc
    by apply parse_tokens_complete.
  destruct toks as [|t toks]; [split; [done|by intros e ?%or_g_nonempty]|].
  pose proof (sound_or _ (parser_is_sound (parse_fuel (length (t :: toks)))) 0 (t :: toks)
    (parse_fuelled _)) as Hs. unfold reads_prefix in Hs. revert Hc. unfold parse_tokens.
  destruct (parse_or (parse_fuel (length (t :: toks))) 0 (t :: toks)) as [[e|x|] rest]; intros Hc.
  - destruct Hs as (pre&Hpre&_&Hg). destruct rest as [|u rest].
    + rewrite app_nil_r in Hpre. by rewrite Hpre.
    + split; [done|]. intros e' Hg'. by specialize (Hc e' Hg').
  - split; [done|]. intros e' Hg'. by specialize (Hc e' Hg').
  - done.
Qed.
