(* ===== verification/ConditionLexer.v ===== *)
(** * The lexer of conditions

    The lexer ends on every text, with tokens or [ValueError]; and it reads back what
    [show_toks] writes, so that every token list a condition could need has a text:
    any string, with quotes and backslashes escaped, any [i64], any identifier. With
    ConditionGrammar.v this is the language: what [parse] accepts and what it builds. *)

From Stdlib Require Import ZifyBool ZifyN.
From S2P Require Import Prelude PyValue PyFloat Condition ConditionGrammar.

#[local] Arguments lit : simpl never.
#[local] Arguments chr : simpl never.

Section Lexer.
Context (tables : CharTables).

(** ** The lexer ends *)

(** A piece of text that leaves no more than it was given. *)
Lemma lex_string_rest quote chars s rest :
  lex_string quote chars = Some (s, rest) → length rest ≤ length chars.
Proof.
  enough (∀ n chars s rest, length chars ≤ n → lex_string quote chars = Some (s, rest) →
    length rest ≤ length chars) as H by by eapply H.
  clear. induction n as [|n IH]; intros [|c chars] s rest Hn; simpl in Hn; try done; [lia|].
  assert ((if (c =? quote)%N then Some ([], chars)
           else '(s, rest) ← lex_string quote chars; Some (c :: s, rest)) = Some (s, rest) →
          length rest ≤ S (length chars)) as Hplain.
  { destruct (c =? quote)%N; [intros [= <- <-]; lia|].
    destruct (lex_string quote chars) as [[s' rest']|] eqn:E; [|done]. intros [= <- <-].
    apply IH in E; lia. }
  destruct chars as [|d chars]; [done|]. simpl. destruct (c =? chr "\")%N; [|done].
  destruct (lex_string quote chars) as [[s' rest']|] eqn:E; [|done]. intros [= <- <-].
  apply IH in E; simpl in *; lia.
Qed.

Lemma scan_number_rest chars : length (scan_number chars).2 ≤ length chars.
Proof.
  induction chars as [|c chars IH]; simpl; [done|].
  destruct (scan_number chars) as [[text dot] rest]. simpl in IH. destruct (is_digit c); simpl; [lia|].
  destruct chars as [|d chars]; [done|]. destruct ((c =? chr ".")%N && is_digit d); simpl in *; lia.
Qed.

Lemma scan_word_rest chars : length (scan_word tables chars).2 ≤ length chars.
Proof.
  induction chars as [|c chars IH]; simpl; [done|]. destruct (scan_word tables chars) as [word rest].
  destruct (word_char tables c); simpl in *; lia.
Qed.

(** [r] is [ValueError], or a token and at most [n] characters. *)
Definition token_or_error (n : nat) (r : result (Tok * pystr)) : Prop :=
  match r with Ok p => length p.2 ≤ n | Raise e => e = ValueError | OutOfFuel => False end.

Lemma parse_i64_ends neg text :
  match parse_i64 neg text with Ok _ => True | Raise e => e = ValueError | OutOfFuel => False end.
Proof. unfold parse_i64. destruct neg; by destruct (_ && _). Qed.

Lemma parse_f64_ends neg text :
  match parse_f64 neg text with Ok _ => True | Raise e => e = ValueError | OutOfFuel => False end.
Proof. unfold parse_f64. destruct (split_on _ text) as [|? [|? []]]; done. Qed.

(** A number, after its optional sign. *)
Lemma number_ends neg chars n : length (scan_number chars).2 ≤ n →
  token_or_error n (let '(text, is_float, rest) := scan_number chars in
    if is_float then bits ← parse_f64 neg text; Ok (TFloat bits, rest)
    else n ← parse_i64 neg text; Ok (TInt n, rest)).
Proof.
  intros Hr. destruct (scan_number chars) as [[text dot] rest]. simpl in Hr. destruct dot.
  - pose proof (parse_f64_ends neg text) as H. destruct (parse_f64 neg text); [simpl; lia|done..].
  - pose proof (parse_i64_ends neg text) as H. destruct (parse_i64 neg text); [simpl; lia|done..].
Qed.

Lemma lex_number_ends c chars :
  is_digit c = true ∨ c = chr "-" → token_or_error (length chars) (lex_number (c :: chars)).
Proof.
  intros Hc. unfold lex_number. destruct (N.eqb_spec c (chr "-")) as [->|Hne].
  - apply number_ends, scan_number_rest.
  - destruct Hc as [Hc|]; [|done]. apply number_ends. simpl. rewrite Hc.
    pose proof (scan_number_rest chars) as Hr. destruct (scan_number chars) as [[text dot] rest]. done.
Qed.

Lemma then_eq_rest chars rest : then_eq chars = Some rest → length rest ≤ length chars.
Proof. destruct chars as [|c chars]; [done|]. simpl. destruct (c =? chr "=")%N; [intros [= <-]; lia|done]. Qed.

Lemma word_ends c chars :
  word_char tables c = true →
  token_or_error (length chars)
    (let '(word, rest) := scan_word tables (c :: chars) in Ok (word_token word, rest)).
Proof.
  intros Hc. simpl. rewrite Hc. pose proof (scan_word_rest chars) as Hr.
  by destruct (scan_word tables chars) as [word rest].
Qed.

Lemma alphabetic_word c : is_alphabetic tables c || (c =? chr "_")%N = true → word_char tables c = true.
Proof.
  unfold word_char, is_alphabetic, is_alphanumeric. destruct (c <? 128)%N; intros H;
    destruct (c =? chr "_")%N; rewrite ?orb_true_r, ?orb_false_r in *; try done; by rewrite H.
Qed.

Lemma lex_token_ends c chars : token_or_error (length chars) (lex_token tables c chars).
Proof.
  unfold lex_token.
  repeat match goal with
  | |- token_or_error _ (if (?c =? chr ?s)%N then Ok _ else _) => destruct (c =? chr s)%N; [simpl; lia|]
  end.
  destruct ((c =? chr "'")%N || (c =? 34)%N).
  { destruct (lex_string c chars) as [[s rest]|] eqn:E; [|done]. by apply lex_string_rest in E. }
  repeat match goal with
  | |- token_or_error _ (if (?c =? chr ?s)%N then _ else _) =>
      destruct (c =? chr s)%N;
      [destruct (then_eq chars) as [rest|] eqn:E; [by apply then_eq_rest in E|simpl; done || lia]|]
  end.
  destruct (is_digit c) eqn:Hd; [apply lex_number_ends; by left|].
  destruct ((c =? chr "-")%N && _) eqn:Hm.
  { apply lex_number_ends. right. apply andb_true_iff in Hm as [Hm _]. by apply N.eqb_eq. }
  destruct (is_alphabetic tables c || (c =? chr "_")%N) eqn:Ha; [|done].
  by apply word_ends, alphabetic_word.
Qed.

Lemma lex_loop_ends fuel chars toks :
  length chars ≤ fuel →
  match lex_loop tables fuel chars toks with Ok _ => True | Raise e => e = ValueError | OutOfFuel => False end.
Proof.
  revert chars toks. induction fuel as [|fuel IH]; intros [|c chars] toks Hn; simpl in *; try done; [lia|].
  destruct (is_whitespace c); [apply IH; lia|].
  pose proof (lex_token_ends c chars) as Ht. destruct (lex_token tables c chars) as [[t rest]|e|]; [|done..].
  apply IH. simpl in Ht. lia.
Qed.

(** ** What the lexer reads back *)

(** A string literal: its quotes and backslashes behind a backslash. *)
Definition escape (s : pystr) : pystr :=
  s ≫= λ c, if (c =? chr "'")%N || (c =? chr "\")%N then [chr "\"; c] else [c].

Definition show_tok (t : Tok) : pystr :=
  match t with
  | TIdent s => s
  | TStr s => chr "'" :: escape s ++ [chr "'"]
  | TInt z => str_of_Z z
  | TFloat _ => []
  | TBool b => lit (if b then "true" else "false")
  | TNull => lit "null"
  | TAnd => lit "and" | TOr => lit "or" | TNot => lit "not" | TIn => lit "in"
  | TEq => lit "==" | TNe => lit "!=" | TLt => lit "<" | TLe => lit "<=" | TGt => lit ">" | TGe => lit ">="
  | TLParen => lit "(" | TRParen => lit ")" | TLBracket => lit "[" | TRBracket => lit "]"
  | TComma => lit "," | TDot => lit "."
  end.

(** Every token is followed by a space. *)
Definition show_toks (toks : list Tok) : pystr := toks ≫= λ t, show_tok t ++ [32%N].

(** An identifier: a word that is no keyword. *)
Definition identifier (s : pystr) : Prop :=
  match s with
  | [] => False
  | c :: _ => is_alphabetic tables c || (c =? chr "_")%N = true ∧ is_whitespace c = false ∧
              Forall (λ c, word_char tables c = true) s ∧ word_token s = TIdent s
  end.

(** Tokens with a text here: all but floats, whose decimal text is not unique. *)
Definition showable (t : Tok) : Prop :=
  match t with
  | TIdent s => identifier s
  | TInt z => (- 2 ^ 63 <= z < 2 ^ 63)%Z
  | TFloat _ => False
  | _ => True
  end.

Lemma lex_string_escape s rest :
  lex_string (chr "'") (escape s ++ chr "'" :: rest) = Some (s, rest).
Proof.
  induction s as [|c s IH].
  { simpl. by destruct rest. }
  change (escape (c :: s)) with
    ((if (c =? chr "'")%N || (c =? chr "\")%N then [chr "\"; c] else [c]) ++ escape s).
  rewrite <-app_assoc. set (tail := escape s ++ chr "'" :: rest) in *.
  destruct (N.eqb_spec c (chr "'")) as [->|Hq]; [by cbn [app orb lex_string]; rewrite N.eqb_refl, IH|].
  destruct (N.eqb_spec c (chr "\")) as [->|Hb]; [by cbn [app orb lex_string]; rewrite N.eqb_refl, IH|].
  apply N.eqb_neq in Hq, Hb. cbn [app orb lex_string]. rewrite Hq, Hb, IH. by destruct tail.
Qed.

Lemma scan_number_digits text c rest :
  Forall (λ c, is_digit c = true) text → is_digit c = false → c ≠ chr "." →
  scan_number (text ++ c :: rest) = (text, false, c :: rest).
Proof.
  intros Ht Hc Hdot. induction Ht as [|d text Hd _ IH]; simpl.
  - rewrite Hc. apply N.eqb_neq in Hdot as ->. by destruct rest.
  - by rewrite Hd, IH.
Qed.

Lemma scan_word_all word c rest :
  Forall (λ c, word_char tables c = true) word → word_char tables c = false →
  scan_word tables (word ++ c :: rest) = (word, c :: rest).
Proof. intros Hw Hc. induction Hw as [|d word Hd _ IH]; simpl; [by rewrite Hc|by rewrite Hd, IH]. Qed.

(** One token, before a space: what the lexer makes of its text. *)
Definition reads_token (t : Tok) (text : pystr) : Prop :=
  ∃ c chars, text = c :: chars ∧ is_whitespace c = false ∧
    ∀ rest, lex_token tables c (chars ++ 32%N :: rest) = Ok (t, 32%N :: rest).

Lemma reads_word word t :
  match word with
  | [] => False
  | c :: _ => is_alphabetic tables c || (c =? chr "_")%N = true ∧ is_whitespace c = false
  end →
  Forall (λ c, word_char tables c = true) word → word_token word = t → reads_token t word.
Proof.
  destruct word as [|c word]; [done|]. intros [Ha Hs] Hw <-. exists c, word. split_and!; [done|done|].
  intros rest.
  assert (∀ x, (x < 128)%N → is_letter x = false → x ≠ chr "_" → (c =? x)%N = false) as Hno.
  { intros x Hx Hl Hu. apply N.eqb_neq. intros ->. unfold is_alphabetic in Ha.
    apply N.ltb_lt in Hx. rewrite Hx, Hl in Ha. apply N.eqb_neq in Hu. by rewrite Hu in Ha. }
  assert (is_digit c = false) as Hd.
  { destruct (is_digit c) eqn:E; [|done]. unfold is_alphabetic, is_letter, is_digit in *.
    change (chr "_") with 95%N in Ha. destruct (N.ltb_spec c 128); lia. }
  unfold lex_token. rewrite !Hno by done. simpl orb.
  rewrite Hd. simpl andb. rewrite Ha.
  pose proof (scan_word_all (c :: word) 32 rest Hw eq_refl) as Hsc. simpl app in Hsc. by rewrite Hsc.
Qed.

Lemma reads_keyword word t :
  Forall (λ c, is_letter c = true) word → word ≠ [] → word_token word = t → reads_token t word.
Proof.
  intros Hl Hne Ht.
  assert (∀ c, is_letter c = true → is_alphabetic tables c = true ∧ is_whitespace c = false ∧
    word_char tables c = true) as Hc.
  { intros c Hc. assert (c < 128)%N as Hlt by (unfold is_letter in Hc; lia). apply N.ltb_lt in Hlt.
    unfold word_char, is_alphanumeric, is_alphabetic. rewrite Hlt, Hc. split_and!; [done| |done].
    unfold is_letter in Hc. unfold is_whitespace. lia. }
  apply reads_word; [|by eapply Forall_impl; [exact Hl|]; intros c [_ [_ ?]]%Hc|done].
  destruct Hl as [|c word Hl _]; [done|]. destruct (Hc c Hl) as (->&?&_). done.
Qed.

Lemma reads_int z : (- 2 ^ 63 <= z < 2 ^ 63)%Z → reads_token (TInt z) (str_of_Z z).
Proof.
  intros Hz.
  assert (∀ neg n, (if neg : bool then (- Z.of_N n)%Z else Z.of_N n) = z →
    parse_i64 neg (digits n) = Ok z) as Hparse.
  { intros neg n Hn. unfold parse_i64, digits_value, digits. rewrite dec_value_digits.
    - rewrite Hn. destruct ((- 2 ^ 63 <=? z)%Z && (z <? 2 ^ 63)%Z) eqn:E; [done|lia].
    - rewrite Nat2N.inj_succ, N2Nat.id. eapply N.lt_trans; [apply N.size_gt|]. apply N.pow_lt_mono_r; lia. }
  assert (∀ neg n rest, (if neg : bool then (- Z.of_N n)%Z else Z.of_N n) = z →
    lex_number ((if neg then [chr "-"] else []) ++ digits n ++ 32%N :: rest) = Ok (TInt z, 32%N :: rest)) as Hnum.
  { intros neg n rest Hn. pose proof (digits_is_digit n) as Hd. pose proof (digits_not_nil n) as Hne.
    pose proof (scan_number_digits (digits n) 32 rest Hd eq_refl ltac:(done)) as Hs.
    unfold lex_number. destruct neg; cbn [app].
    - rewrite N.eqb_refl, Hs. cbv beta iota. by rewrite Hparse.
    - assert (head (digits n ++ 32%N :: rest) ≠ Some (chr "-")) as Hh.
      { destruct Hd as [|d text Hd _]; [done|]. by intros [= ->]. }
      destruct (digits n ++ 32%N :: rest) as [|d l]; [done|].
      assert ((d =? chr "-")%N = false) as -> by (apply N.eqb_neq; intros ->; by apply Hh).
      rewrite Hs. cbv beta iota. by rewrite Hparse. }
  assert (∀ n : N, Z.of_N n = z → reads_token (TInt z) (digits n)) as Hpos.
  { intros n Hn. specialize (Hnum false n). pose proof (digits_is_digit n) as Hd.
    pose proof (digits_not_nil n) as Hne. cbn [app] in Hnum.
    destruct (digits n) as [|d text]; [done|]. exists d, text. apply Forall_cons in Hd as [Hd _].
    split_and!; [done|unfold is_digit in Hd; unfold is_whitespace; lia|]. intros rest.
    rewrite <-(Hnum rest Hn). unfold lex_token.
    assert (∀ x, is_digit x = false → (d =? x)%N = false) as Hno by (intros x Hx; apply N.eqb_neq; congruence).
    rewrite !Hno by done. simpl orb. by rewrite Hd. }
  destruct z as [|p|p]; cbn [str_of_Z].
  - by apply (Hpos 0%N).
  - by apply (Hpos (Npos p)).
  - exists (chr "-"), (digits (Npos p)). split_and!; [done..|]. intros rest.
    rewrite <-(Hnum true (Npos p) rest eq_refl). cbn [app].
    pose proof (digits_is_digit (Npos p)) as Hd. pose proof (digits_not_nil (Npos p)) as Hne.
    destruct (digits (Npos p)) as [|d text]; [done|]. apply Forall_cons in Hd as [Hd _]. cbn [app].
    unfold lex_token. rewrite Hd. done.
Qed.

Lemma reads_string s : reads_token (TStr s) (show_tok (TStr s)).
Proof.
  exists (chr "'"), (escape s ++ [chr "'"]). split_and!; [done..|]. intros rest.
  rewrite <-app_assoc. cbn [app]. pose proof (lex_string_escape s (32%N :: rest)) as H.
  set (text := escape s ++ chr "'" :: 32%N :: rest) in *.
  change (lex_token tables (chr "'") text) with
    ('(s, rest) ← or_raise ValueError (lex_string (chr "'") text); Ok (TStr s, rest)).
  by rewrite H.
Qed.

Lemma reads_showable t : showable t → reads_token t (show_tok t).
Proof.
  destruct t; intros Ht; try done; try (by apply reads_int); try (by apply reads_string);
    try (eexists _, _; split; [reflexivity|]; split; [reflexivity|]; intros rest; reflexivity).
  - destruct s as [|c s]; [done|]. destruct Ht as (Ha&Hs&Hw&Hk). by apply reads_word.
  - destruct b; by apply reads_keyword; [repeat constructor|..].
Qed.

Lemma lex_loop_show fuel toks acc :
  length (show_toks toks) ≤ fuel → Forall showable toks →
  lex_loop tables fuel (show_toks toks) acc = Ok (acc ++ toks).
Proof.
  intros Hn Ht. revert fuel acc Hn. induction Ht as [|t toks Ht _ IH]; intros fuel acc Hn.
  { rewrite app_nil_r. by destruct fuel. }
  change (show_toks (t :: toks)) with ((show_tok t ++ [32%N]) ++ show_toks toks) in *.
  rewrite <-app_assoc in *. destruct (reads_showable t Ht) as (c&chars&Hc&Hs&Hl). rewrite Hc in *.
  cbn [app] in *. cbn [length] in Hn. rewrite length_app in Hn. cbn [length] in Hn.
  destruct fuel as [|[|fuel]]; [lia..|].
  cbn [lex_loop]. rewrite Hs, Hl.
  change (lex_loop tables (S fuel) (32%N :: show_toks toks) (acc ++ [t]) = Ok (acc ++ t :: toks)).
  cbn [lex_loop]. change (is_whitespace 32) with true. cbv iota. rewrite IH by lia. by rewrite <-app_assoc.
Qed.

Lemma lex_show toks : Forall showable toks → lex tables (show_toks toks) = Ok toks.
Proof. intros Ht. by apply (lex_loop_show _ _ []). Qed.
End Lexer.

(** ** The language *)

(** [parse] ends: with an expression, or with [ValueError]. *)
Lemma parse_ends tables src :
  (∃ e, parse tables src = Ok e) ∨ parse tables src = Raise ValueError.
Proof.
  pose proof (lex_loop_ends tables (length src) src [] ltac:(done)) as Hl. unfold parse, lex.
  destruct (lex_loop tables (length src) src []) as [toks|x|]; simpl; [|subst; by right|done].
  pose proof (parse_tokens_cases toks) as H.
  destruct (parse_tokens toks) as [e|x|]; [left; by exists e|right; by destruct H as [-> _]|done].
Qed.

(** C31: A condition means what the grammar says. [parse] accepts a text exactly when its
    tokens can be derived (with [or] below [and] below [not] below the comparisons) with
    the 64 levels the depth check allows, and gives the derived expression, of which
    there is one; anything else is [ValueError], so it always ends. And the text of a
    token list, with strings escaped, lexes back to that list, so every derivation over
    tokens other than floats is a condition one can write. *)
Theorem parse_language tables src :
  (∀ e, parse tables src = Ok e ↔ ∃ toks, lex tables src = Ok toks ∧ or_g condition_MAX_DEPTH toks e) ∧
  ((∃ e, parse tables src = Ok e) ∨ parse tables src = Raise ValueError) ∧
  (∀ toks e, Forall (showable tables) toks →
     parse tables (show_toks toks) = Ok e ↔ or_g condition_MAX_DEPTH toks e).
Proof.
  assert (∀ toks e, parse_tokens toks = Ok e ↔ or_g condition_MAX_DEPTH toks e) as Hg.
  { intros toks e. split; [|apply parse_tokens_complete]. pose proof (parse_tokens_cases toks) as H.
    intros E. by rewrite E in H. }
  unfold parse. split_and!.
  - intros e. destruct (lex tables src) as [toks|x|]; simpl.
    + rewrite Hg. split; [by exists toks|by intros (?&[= <-]&?)].
    + split; [done|by intros (?&?&_)].
    + split; [done|by intros (?&?&_)].
  - apply parse_ends.
  - intros toks e Ht. rewrite lex_show by done. apply Hg.
Qed.

Definition ascii_only : CharTables := {| alphabetic_beyond := λ _, false; numeric_beyond := λ _, false |}.

(** [a or not ( b in 'it's' ) and c], which groups as [a or (not (...) and c)]. *)
Lemma parse_language_witness :
  ∃ toks e, Forall (showable ascii_only) toks ∧ or_g condition_MAX_DEPTH toks (EOr [EVar [lit "a"]; e]) ∧
    parse ascii_only (lit "a or not (b in 'it\'s') and c") = Ok (EOr [EVar [lit "a"]; e]) ∧
    parse ascii_only (show_toks toks) = Ok (EOr [EVar [lit "a"]; e]).
Proof.
  set (toks := [TIdent (lit "a"); TOr; TNot; TLParen; TIdent (lit "b"); TIn; TStr (lit "it's"); TRParen;
    TAnd; TIdent (lit "c")]).
  set (e := EAnd [ENot (ECmp OIn (EVar [lit "b"]) (EStr (lit "it's"))); EVar [lit "c"]]).
  assert (Forall (showable ascii_only) toks) as Hs.
  { repeat constructor. }
  destruct (parse_language ascii_only (lit "a or not (b in 'it\'s') and c")) as (Hp&_&Hshow).
  assert (parse ascii_only (lit "a or not (b in 'it\'s') and c") = Ok (EOr [EVar [lit "a"]; e])) as E
    by (vm_compute; reflexivity).
  destruct (proj1 (Hp _) E) as (toks'&Hl&Hg).
  assert (toks' = toks) as -> by (vm_compute in Hl; by injection Hl).
  exists toks, e. split; [exact Hs|]. split; [exact Hg|]. split; [exact E|].
  apply (Hshow toks _ Hs). exact Hg.
Defined.
