(* ===== verification/Graph.v ===== *)
(** * The handoff graph

    [rust/src/graph.rs], and [handoff_router] of [integrations/langgraph.py]: a
    directed graph whose edges may carry a condition of the condition language, and
    the routing function over it. The objects a routing state may be or hold (a
    dataclass, a mapping that is no dict) are user code: a parameter. The loops over
    the graph take fuel, of which they are given enough (GraphTheorems.v). *)

From S2P Require Import Prelude PyValue Codec Condition.

Record Edge := {
  edge_to : pystr;
  edge_when_src : option pystr;
  edge_cond : option Expr;
}.

Record HandoffGraph := {
  adj : gmap pystr (list Edge);
  graph_nodes : gset pystr;
  on_cycle : pystr;
  node_paths : gmap pystr (list (list pystr));
}.

(** What the objects of a state do: whether one is a [Mapping], [obj[segment]] and
    [getattr(obj, segment)]. *)
Record Objects := {
  obj_is_mapping : N → bool;
  obj_getitem : N → pystr → result pyval;
  obj_getattr : N → pystr → result pyval;
}.

(** ** Paths *)

(** [drop_covered_paths]: shorter paths first, and none that starts with a kept one. *)
Definition shorter (p q : list pystr) : Prop := length p ≤ length q.
#[export] Instance shorter_dec p q : Decision (shorter p q).
Proof. unfold shorter. apply _. Defined.

Definition keep_uncovered (kept : list (list pystr)) (path : list pystr) : list (list pystr) :=
  if existsb (λ k, bool_decide (k `prefix_of` path)) kept then kept else kept ++ [path].

Definition drop_covered_paths (paths : list (list pystr)) : list (list pystr) :=
  foldl keep_uncovered [] (merge_sort shorter paths).

(** [insert_path]: in the map under the first segment, which is made if it is not
    there. Paths are never empty. *)
Fixpoint update_child (f : list (Value * Value) → list (Value * Value)) (seg : pystr)
    (pairs : list (Value * Value)) : option (list (Value * Value)) :=
  match pairs with
  | [] => None
  | (k, v) :: pairs' =>
      if value_eqb k (VString seg)
      then Some ((k, match v with VMap inner => VMap (f inner) | _ => v end) :: pairs')
      else pairs' ← update_child f seg pairs'; Some ((k, v) :: pairs')
  end.

Fixpoint insert_path (pairs : list (Value * Value)) (path : list pystr) (leaf : Value)
    : list (Value * Value) :=
  match path with
  | [] => pairs
  | [seg] => pairs ++ [(VString seg, leaf)]
  | seg :: path' =>
      match update_child (λ inner, insert_path inner path' leaf) seg pairs with
      | Some pairs' => pairs'
      | None => pairs ++ [(VString seg, VMap (insert_path [] path' leaf))]
      end
  end.

Section Objects.
Context (objs : Objects).

(** [child] *)
Definition child (obj : pyval) (segment : pystr) : result (option pyval) :=
  match obj with
  | PDict d => Ok (dict_get d (PStr segment))
  | PNone | PStr _ | PBytes _ | PBool _ | PInt _ | PFloat _ | PList _ | PTuple _ => Ok None
  | PObject o =>
      if obj_is_mapping objs o then
        match obj_getitem objs o segment with
        | Ok value => Ok (Some value)
        | Raise KeyError => Ok None
        | Raise e => Raise e
        | OutOfFuel => OutOfFuel
        end
      else if starts_with (lit "_") segment then Ok None
      else
        match obj_getattr objs o segment with
        | Ok value => Ok (Some value)
        | Raise AttributeError => Ok None
        | Raise e => Raise e
        | OutOfFuel => OutOfFuel
        end
  end.

(** [resolve_path] *)
Fixpoint resolve_path (state : pyval) (path : list pystr) : result (option pyval) :=
  match path with
  | [] => Ok (Some state)
  | segment :: path' =>
      c ← child state segment;
      match c with
      | Some value => resolve_path value path'
      | None => Ok None
      end
  end.

(** [partial_state]: the parts of the state the paths name. *)
Definition add_path (state : pyval) (pairs : list (Value * Value)) (path : list pystr)
    : result (list (Value * Value)) :=
  value ← resolve_path state path;
  match value with
  | Some value => leaf ← py_to_value value; Ok (insert_path pairs path leaf)
  | None => Ok pairs
  end.

Definition partial_state (g : HandoffGraph) (node : pystr) (state : pyval) : result Value :=
  pairs ← match node_paths g !! node with
          | Some paths => foldR paths (add_path state) []
          | None => Ok []
          end;
  Ok (VMap pairs).

(** ** Routing *)

Definition edge_matches (state : Value) (e : Edge) : bool :=
  match edge_cond e with None => true | Some expr => eval_truthy expr state end.

(** The first edge that matches. *)
Fixpoint first_match (state : Value) (edges : list Edge) : option pystr :=
  match edges with
  | [] => None
  | e :: edges' => if edge_matches state e then Some (edge_to e) else first_match state edges'
  end.

(** [route] *)
Definition HandoffGraph_route (g : HandoffGraph) (node : pystr) (state : option pyval)
    : result (option pystr) :=
  node ← as_string node;
  state_val ← match state with None => Ok (VMap []) | Some obj => partial_state g node obj end;
  Ok (match adj g !! node with Some edges => first_match state_val edges | None => None end).

(** [handoff_router]; [end_name] is LangGraph's [END]. *)
Definition handoff_router (end_name : pystr) (g : HandoffGraph) (node : pystr) (default : option pystr)
    : option pyval → result pystr :=
  let fallback := from_option id end_name default in
  λ state, target ← HandoffGraph_route g node state; Ok (from_option id fallback target).
End Objects.

(** ** Cycles *)

(** The number of edges. *)
Definition edge_count (edges : gmap pystr (list Edge)) : nat :=
  map_fold (λ _ l n, length l + n) 0 edges.

(** [stack.push] of the targets of the edges; the top of the stack is its head. *)
Definition push_targets (edges : list Edge) (stack : list pystr) : list pystr :=
  foldl (λ stack e, edge_to e :: stack) stack edges.

Fixpoint cycle_search (fuel : nat) (from : pystr) (edges : gmap pystr (list Edge))
    (stack : list pystr) (seen : gset pystr) : result bool :=
  match stack with
  | [] => Ok false
  | n :: stack =>
      match fuel with
      | O => OutOfFuel
      | S fuel =>
          if decide (n = from) then Ok true
          else if decide (n ∈ seen) then cycle_search fuel from edges stack seen
          else cycle_search fuel from edges
                 (match edges !! n with Some es => push_targets es stack | None => stack end)
                 ({[n]} ∪ seen)
      end
  end.

(** [would_create_cycle]: every round pops a name, and an edge is pushed once. *)
Definition would_create_cycle (from to : pystr) (g : HandoffGraph) : result bool :=
  if decide (from = to) then Ok true
  else cycle_search (S (edge_count (adj g))) from (adj g) [to] ∅.

(** [is_dag]: the number of edges into each name; the names without any. *)
Abbreviation Indegree := (gmap pystr Z).

Definition count_edge (indegree : Indegree) (e : Edge) : Indegree :=
  <[edge_to e := (from_option id 0%Z (indegree !! edge_to e) + 1)%Z]> indegree.

Definition count_edges (indegree : Indegree) (edges : list Edge) : Indegree :=
  foldl count_edge indegree edges.

Definition initial_indegree (g : HandoffGraph) : Indegree :=
  foldl count_edges (gset_to_gmap 0%Z (graph_nodes g)) (map_to_list (adj g)).*2.

Definition initially_ready (indegree : Indegree) : list pystr :=
  (filter (λ nd, nd.2 = 0%Z) (map_to_list indegree)).*1.

(** Settling a name takes its edges away; a name with none left is ready. *)
Definition release_edge (acc : Indegree * list pystr) (e : Edge) : Indegree * list pystr :=
  let '(indegree, ready) := acc in
  match indegree !! edge_to e with
  | Some d =>
      (<[edge_to e := (d - 1)%Z]> indegree,
       if decide ((d - 1)%Z = 0%Z) then edge_to e :: ready else ready)
  | None => acc
  end.

Fixpoint settle (fuel : nat) (edges : gmap pystr (list Edge)) (indegree : Indegree)
    (ready : list pystr) (settled : nat) : result (nat * Indegree) :=
  match ready with
  | [] => Ok (settled, indegree)
  | node :: ready =>
      match fuel with
      | O => OutOfFuel
      | S fuel =>
          let '(indegree, ready) := match edges !! node with
                                    | Some es => foldl release_edge (indegree, ready) es
                                    | None => (indegree, ready)
                                    end in
          settle fuel edges indegree ready (S settled)
      end
  end.

Definition HandoffGraph_is_dag (g : HandoffGraph) : result bool :=
  let indegree := initial_indegree g in
  '(settled, indegree) ← settle (size indegree) (adj g) indegree (initially_ready indegree) 0;
  Ok (bool_decide (settled = size indegree)).

(** ** Building a graph *)

(** [HandoffGraph::new] *)
Definition HandoffGraph_new (on_cycle : pystr) : result HandoffGraph :=
  if negb (str_eqb on_cycle (lit "error")) && negb (str_eqb on_cycle (lit "allow")) then Raise ValueError
  else Ok {| adj := ∅; graph_nodes := ∅; on_cycle := on_cycle; node_paths := ∅ |}.

(** [add_node] *)
Definition HandoffGraph_add_node (name : pystr) : PyM HandoffGraph unit :=
  name ← lift (as_string name);
  modify (λ g, {| adj := adj g; graph_nodes := {[name]} ∪ graph_nodes g; on_cycle := on_cycle g;
                  node_paths := node_paths g |}).

(** [refresh_paths]: the paths the conditions of the edges read. *)
Definition edges_paths (edges : list Edge) : list (list pystr) :=
  foldl (λ paths e, match edge_cond e with Some c => collect_paths c paths | None => paths end) [] edges.

Definition refresh_paths (node : pystr) (g : HandoffGraph) : HandoffGraph :=
  {| adj := adj g; graph_nodes := graph_nodes g; on_cycle := on_cycle g;
     node_paths := <[node := drop_covered_paths (edges_paths (from_option id [] (adj g !! node)))]>
                     (node_paths g) |}.

(** The nodes and the edge of [add_edge]. *)
Definition push_edge (from_node : pystr) (e : Edge) (g : HandoffGraph) : HandoffGraph :=
  {| adj := <[from_node := from_option id [] (adj g !! from_node) ++ [e]]> (adj g);
     graph_nodes := {[edge_to e]} ∪ ({[from_node]} ∪ graph_nodes g);
     on_cycle := on_cycle g; node_paths := node_paths g |}.

(** [add_edge] *)
Definition HandoffGraph_add_edge (tables : CharTables) (from_node to : pystr) (when : option pystr)
    : PyM HandoffGraph unit :=
  from_node ← lift (as_string from_node);
  to ← lift (as_string to);
  when ← lift (as_opt_string when);
  cond ← lift (match when with
               | Some src => e ← parse tables src; Ok (Some e)
               | None => Ok None
               end);
  g ← get_state;
  cycle ← lift (if str_eqb (on_cycle g) (lit "error") then would_create_cycle from_node to g else Ok false);
  if (cycle : bool) then raise ValueError
  else modify (λ g, refresh_paths from_node
                      (push_edge from_node {| edge_to := to; edge_when_src := when; edge_cond := cond |} g)).

(** [nodes], [edges], [has_node] and [__contains__], [__len__] *)
Definition HandoffGraph_nodes (g : HandoffGraph) : list pystr := py_sorted (elements (graph_nodes g)).

Definition HandoffGraph_edges (node : pystr) (g : HandoffGraph) : result (list (pystr * option pystr)) :=
  node ← as_string node;
  Ok (match adj g !! node with
      | Some edges => (λ e, (edge_to e, edge_when_src e)) <$> edges
      | None => []
      end).

Definition HandoffGraph_has_node (node : pystr) (g : HandoffGraph) : result bool :=
  node ← as_string node; Ok (bool_decide (node ∈ graph_nodes g)).

Definition HandoffGraph_len (g : HandoffGraph) : nat := size (graph_nodes g).
