(* ===== verification/GraphCycles.v ===== *)
(** * Cycles of the handoff graph

    The two graph searches of [rust/src/graph.rs] are right and end: the search
    [add_edge] makes before it adds an edge ([would_create_cycle]) finds whether the
    edge closes a cycle, and Kahn's algorithm ([is_dag]) decides whether there is one. *)

From Stdlib Require Import Sorted.
From S2P Require Import Prelude PyValue Condition Graph.

Abbreviation Adj := (gmap pystr (list Edge)).

(** ** Edges, paths and cycles *)

Definition edge_rel (m : Adj) (a b : pystr) : Prop := ∃ es e, m !! a = Some es ∧ e ∈ es ∧ edge_to e = b.

Definition acyclic (m : Adj) : Prop := ∀ a, ¬ tc (edge_rel m) a a.

Definition targets (es : list Edge) : list pystr := edge_to <$> es.

Lemma edge_rel_targets m a b : edge_rel m a b ↔ ∃ es, m !! a = Some es ∧ b ∈ targets es.
Proof.
  unfold edge_rel, targets. split.
  - intros (es&e&?&?&<-). exists es. split; [done|]. by apply list_elem_of_fmap_2.
  - intros (es&?&(e&->&?)%list_elem_of_fmap). by exists es, e.
Qed.

(** ** [would_create_cycle] *)

Section Search.
Context (m : Adj) (from : pystr).

(** The edges out of names the search has not expanded. *)
Definition unseen (seen : gset pystr) : Adj := filter (λ nd, nd.1 ∉ seen) m.

Lemma edge_count_delete (m' : Adj) n es :
  m' !! n = Some es → edge_count m' = length es + edge_count (delete n m').
Proof.
  intros Hn. unfold edge_count. rewrite <-(insert_delete_id m' n es) at 1 by done.
  rewrite map_fold_insert_L; [done|intros; lia|apply lookup_delete_eq].
Qed.

Lemma unseen_delete n seen : unseen ({[n]} ∪ seen) = delete n (unseen seen).
Proof.
  apply map_eq. intros i. unfold unseen. destruct (decide (i = n)) as [->|Hne].
  - rewrite lookup_delete_eq. apply map_lookup_filter_None. right. simpl. set_solver.
  - rewrite lookup_delete_ne by done. destruct (m !! i) as [es|] eqn:E.
    + destruct (decide (i ∈ seen)).
      * transitivity (@None (list Edge)); [|symmetry]; apply map_lookup_filter_None; right; simpl; set_solver.
      * transitivity (Some es); [|symmetry]; apply map_lookup_filter_Some; simpl; set_solver.
    + transitivity (@None (list Edge)); [|symmetry]; apply map_lookup_filter_None; by left.
Qed.

Lemma push_targets_eq es stack : push_targets es stack = reverse (targets es) ++ stack.
Proof.
  unfold push_targets. revert stack. induction es as [|e es IH]; intros stack; simpl; [done|].
  by rewrite IH, reverse_cons, <-app_assoc.
Qed.

(** What has been expanded leads only to what has been, or to the stack. *)
Definition search_inv (stack : list pystr) (seen : gset pystr) : Prop :=
  (from ∉ seen) ∧ (∀ a b, a ∈ seen → edge_rel m a b → b ∈ seen ∨ b ∈ stack).

Lemma leaves_seen stack seen n :
  search_inv stack seen → n ∈ seen → rtc (edge_rel m) n from →
  ∃ n', n' ∈ stack ∧ rtc (edge_rel m) n' from.
Proof.
  intros [Hf Hc] Hn Hr. revert Hf Hc Hn.
  induction Hr as [x|x y z Hxy Hyz IH]; intros Hf Hc Hn; [done|].
  destruct (Hc x y Hn Hxy); [by apply IH|by exists y].
Qed.

Lemma cycle_search_spec fuel stack seen :
  search_inv stack seen → length stack + edge_count (unseen seen) ≤ fuel →
  ∃ b, cycle_search fuel from m stack seen = Ok b ∧
    (b = true ↔ ∃ n, n ∈ stack ∧ rtc (edge_rel m) n from).
Proof.
  revert stack seen. induction fuel as [|fuel IH]; intros [|n stack] seen Hinv Hfuel; simpl in *; try lia.
  1,2: exists false; split; [done|]; split; [done|intros (?&[]%not_elem_of_nil&_)].
  destruct (decide (n = from)) as [->|Hne].
  { exists true. split; [done|]. split; [|done]. intros _. exists from. split; [left|done]. }
  destruct (decide (n ∈ seen)) as [Hs|Hs].
  - destruct (IH stack seen) as (b&Hb&Hiff); [|lia|].
    { destruct Hinv as [Hf Hc]. split; [done|]. intros a b Ha Hab.
      destruct (Hc a b Ha Hab) as [?|[->|?]%elem_of_cons]; auto. }
    exists b. split; [done|]. rewrite Hiff. split; intros (x&Hx&Hr).
    + exists x. split; [by right|done].
    + apply elem_of_cons in Hx as [->|Hx]; [|by exists x].
      destruct (leaves_seen _ _ n Hinv Hs Hr) as (y&[->|Hy]%elem_of_cons&Hy'); [|by exists y].
      eapply (leaves_seen stack seen n); [|done..]. destruct Hinv as [Hf Hc]. split; [done|].
      intros a b' Ha Hab. destruct (Hc a b' Ha Hab) as [?|[->|?]%elem_of_cons]; auto.
  - set (stack' := match m !! n with Some es => push_targets es stack | None => stack end).
    assert (∀ b, b ∈ stack' ↔ edge_rel m n b ∨ b ∈ stack) as Hst.
    { intros b. unfold stack'. rewrite edge_rel_targets. destruct (m !! n) as [es|] eqn:E.
      - rewrite push_targets_eq, elem_of_app, elem_of_reverse. naive_solver.
      - naive_solver. }
    destruct (IH stack' ({[n]} ∪ seen)) as (b&Hb&Hiff).
    { destruct Hinv as [Hf Hc]. split; [set_solver|]. intros a b Ha Hab. rewrite Hst.
      destruct (decide (a = n)) as [->|]; [auto|].
      destruct (Hc a b ltac:(set_solver) Hab) as [?|[->|?]%elem_of_cons]; set_solver. }
    { rewrite unseen_delete. unfold stack'. destruct (m !! n) as [es|] eqn:E.
      - rewrite push_targets_eq, length_app, length_reverse. unfold targets. rewrite length_fmap.
        assert (unseen seen !! n = Some es) as Hu by by apply map_lookup_filter_Some.
        rewrite (edge_count_delete _ _ _ Hu) in Hfuel. lia.
      - rewrite delete_id; [lia|]. apply map_lookup_filter_None. by left. }
    exists b. split; [done|]. rewrite Hiff. split; intros (x&Hx&Hr).
    + apply Hst in Hx as [Hx|Hx]; [|exists x; split; [by right|done]].
      exists n. split; [left|by eapply rtc_l].
    + apply elem_of_cons in Hx as [->|Hx]; [|exists x; rewrite Hst; auto].
      apply rtc_inv in Hr as [->|(y&Hy&Hr)]; [done|]. exists y. rewrite Hst. auto.
Qed.
End Search.

(** [would_create_cycle] finds whether [to] already leads to [from]. *)
Lemma would_create_cycle_spec from to g :
  ∃ b, would_create_cycle from to g = Ok b ∧ (b = true ↔ rtc (edge_rel (adj g)) to from).
Proof.
  unfold would_create_cycle. destruct (decide (from = to)) as [->|Hne]; [by exists true|].
  destruct (cycle_search_spec (adj g) from (S (edge_count (adj g))) [to] ∅) as (b&Hb&Hiff).
  { split; set_solver. }
  { simpl. enough (unseen (adj g) ∅ = adj g) as -> by lia. apply map_filter_id. set_solver. }
  exists b. split; [done|]. rewrite Hiff. split.
  - by intros (n&->%list_elem_of_singleton&?).
  - intros ?. exists to. by rewrite list_elem_of_singleton.
Qed.

(** ** Adding an edge *)

Definition with_edge (from : pystr) (e : Edge) (m : Adj) : Adj :=
  <[from := from_option id [] (m !! from) ++ [e]]> m.

Lemma with_edge_rel from e m a b :
  edge_rel (with_edge from e m) a b ↔ edge_rel m a b ∨ (a = from ∧ b = edge_to e).
Proof.
  rewrite !edge_rel_targets. unfold with_edge, targets. destruct (decide (a = from)) as [->|Hne].
  - setoid_rewrite lookup_insert_eq. destruct (m !! from) as [es|] eqn:E; simpl; split.
    + intros (?&[= <-]&Hb). rewrite fmap_app, elem_of_app in Hb. set_solver.
    + intros [(?&[= <-]&?)|[_ ->]]; eexists; (split; [done|]); rewrite fmap_app, elem_of_app; set_solver.
    + intros (?&[= <-]&Hb). set_solver.
    + intros [(?&?&?)|[_ ->]]; [done|]. eexists. split; [done|]. set_solver.
  - setoid_rewrite lookup_insert_ne; [|done]. naive_solver.
Qed.

Lemma with_edge_tc from e m x y :
  tc (edge_rel (with_edge from e m)) x y →
  tc (edge_rel m) x y ∨ (rtc (edge_rel m) x from ∧ rtc (edge_rel m) (edge_to e) y).
Proof.
  induction 1 as [x y Hxy|x y z Hxy _ IH].
  - apply with_edge_rel in Hxy as [?|[-> ->]]; [left; by apply tc_once|right; done].
  - apply with_edge_rel in Hxy as [Hxy|[-> ->]].
    + destruct IH as [IH|[IH1 IH2]]; [left; by eapply tc_l|right]. split; [by eapply rtc_l|done].
    + right. destruct IH as [IH|[_ IH2]]; [|done]. split; [done|]. by apply tc_rtc.
Qed.

Lemma with_edge_acyclic from e m :
  acyclic m → ¬ rtc (edge_rel m) (edge_to e) from → acyclic (with_edge from e m).
Proof.
  intros Hm Hr x [Hx|[Hx1 Hx2]]%with_edge_tc; [by eapply Hm|]. apply Hr. by etrans.
Qed.

Lemma empty_acyclic : acyclic ∅.
Proof. intros x Hx. apply tc_nsteps in Hx as ([|n]&Hn&Hx); [lia|]. by inversion Hx as [|? ? ? ? (?&?&?&_)]. Qed.

(** ** Kahn's algorithm *)

(** How many edges of [es], and of [m], lead to [v]. *)
Definition into (v : pystr) (es : list Edge) : Z := Z.of_nat (length (filter (λ e, edge_to e = v) es)).

Definition indegree_of (m : Adj) (v : pystr) : Z := map_fold (λ _ es n, into v es + n)%Z 0%Z m.

Lemma into_cons v e es : into v (e :: es) = ((if decide (edge_to e = v) then 1 else 0) + into v es)%Z.
Proof. unfold into. rewrite filter_cons. destruct (decide _); simpl; lia. Qed.

Lemma into_nonneg v es : (0 <= into v es)%Z.
Proof. unfold into. lia. Qed.

Lemma into_pos v es : (0 < into v es)%Z ↔ v ∈ targets es.
Proof.
  induction es as [|e es IH]; simpl; [unfold into; simpl; split; [lia|by intros ?%not_elem_of_nil]|].
  rewrite into_cons, elem_of_cons, <-IH. pose proof (into_nonneg v es).
  destruct (decide (edge_to e = v)) as [<-|]; [split; [auto|lia]|]. naive_solver lia.
Qed.

Lemma indegree_insert m n es v :
  m !! n = None → indegree_of (<[n := es]> m) v = (into v es + indegree_of m v)%Z.
Proof. intros Hn. unfold indegree_of. rewrite map_fold_insert_L; [done|intros; lia|done]. Qed.

Lemma indegree_delete m n es v :
  m !! n = Some es → indegree_of m v = (into v es + indegree_of (delete n m) v)%Z.
Proof.
  intros Hn. rewrite <-(insert_delete_id m n es) at 1 by done. apply indegree_insert, lookup_delete_eq.
Qed.

Lemma indegree_nonneg m v : (0 <= indegree_of m v)%Z.
Proof.
  induction m as [|n es m Hn _ IH] using map_first_key_ind.
  - done.
  - rewrite indegree_insert by done. pose proof (into_nonneg v es). lia.
Qed.

Lemma indegree_pos m v : (0 < indegree_of m v)%Z ↔ ∃ a, edge_rel m a v.
Proof.
  induction m as [|n es m Hn _ IH] using map_first_key_ind.
  - split; [done|]. by intros (a&es&e&?&_).
  - rewrite indegree_insert by done. pose proof (into_nonneg v es). pose proof (indegree_nonneg m v).
    setoid_rewrite edge_rel_targets. setoid_rewrite edge_rel_targets in IH.
    destruct (decide (v ∈ targets es)) as [Hv|Hv].
    + pose proof (proj2 (into_pos v es) Hv). split; [|lia]. intros _. exists n, es.
      by rewrite lookup_insert_eq.
    + assert (into v es = 0%Z) as -> by (rewrite <-into_pos in Hv; lia). rewrite Z.add_0_l, IH.
      split; intros (a&es'&Ha&He); exists a, es'; (split; [|done]).
      * rewrite lookup_insert_ne; [done|]. intros ->. congruence.
      * apply lookup_insert_Some in Ha as [[<- <-]|[_ Ha]]; [done|done].
Qed.

(** The counts [is_dag] starts from. *)
Lemma count_edge_lookup (d : Indegree) e v :
  count_edge d e !! v =
  if decide (edge_to e = v) then Some (from_option id 0 (d !! v) + 1)%Z else d !! v.
Proof.
  unfold count_edge. destruct (decide (edge_to e = v)) as [<-|Hne]; [by rewrite lookup_insert_eq|].
  by rewrite lookup_insert_ne.
Qed.

Lemma count_edges_value (d : Indegree) es v :
  from_option id 0%Z (count_edges d es !! v) = (from_option id 0 (d !! v) + into v es)%Z.
Proof.
  unfold count_edges. revert d. induction es as [|e es IH]; intros d; simpl; [unfold into; simpl; lia|].
  rewrite IH, into_cons, count_edge_lookup. destruct (decide (edge_to e = v)); simpl; lia.
Qed.

Lemma count_edges_dom (d : Indegree) es v :
  is_Some (count_edges d es !! v) ↔ is_Some (d !! v) ∨ v ∈ targets es.
Proof.
  unfold count_edges. revert d. induction es as [|e es IH]; intros d; simpl.
  - rewrite elem_of_nil. naive_solver.
  - rewrite IH, elem_of_cons, count_edge_lookup. destruct (decide (edge_to e = v)) as [<-|].
    + split; [auto|]. intros _. left. by eexists.
    + naive_solver.
Qed.

#[local] Arguments count_edges : simpl never.

Lemma initial_indegree_spec g v :
  from_option id 0%Z (initial_indegree g !! v) = indegree_of (adj g) v ∧
  (is_Some (initial_indegree g !! v) ↔ v ∈ graph_nodes g ∨ ∃ a, edge_rel (adj g) a v).
Proof.
  unfold initial_indegree.
  assert (∀ (l : list (pystr * list Edge)) d, from_option id 0%Z (foldl count_edges d l.*2 !! v) =
    (from_option id 0 (d !! v) + foldr (λ nd n, into v nd.2 + n)%Z 0%Z l)%Z ∧
    (is_Some (foldl count_edges d l.*2 !! v) ↔ is_Some (d !! v) ∨ ∃ nd, nd ∈ l ∧ v ∈ targets nd.2)) as H.
  { induction l as [|[n es] l IH]; intros d; [|rewrite fmap_cons]; cbn [foldl foldr snd fst].
    - split; [simpl; lia|]. setoid_rewrite elem_of_nil. naive_solver.
    - destruct (IH (count_edges d es)) as [-> ->]. rewrite count_edges_value, count_edges_dom.
      split; [lia|]. setoid_rewrite elem_of_cons. naive_solver. }
  destruct (H (map_to_list (adj g)) (gset_to_gmap 0%Z (graph_nodes g))) as [-> ->]. split.
  - unfold indegree_of. rewrite map_fold_foldr.
    assert (from_option id 0%Z (gset_to_gmap 0%Z (graph_nodes g) !! v) = 0%Z) as ->.
    { rewrite lookup_gset_to_gmap. by destruct (decide (v ∈ graph_nodes g)); simplify_option_eq. }
    rewrite Z.add_0_l. induction (map_to_list (adj g)) as [|[n es] l IHl]; simpl; [done|]. by rewrite IHl.
  - rewrite lookup_gset_to_gmap. split.
    + intros [Hs|([n es]&Hn&Hv)]; [left|right].
      * destruct Hs as [x Hx]. by simplify_option_eq.
      * exists n. apply edge_rel_targets. exists es. by apply elem_of_map_to_list in Hn.
    + intros [Hs|(n&(es&Hn&Hv)%edge_rel_targets)]; [left|right].
      * by rewrite option_guard_True.
      * exists (n, es). by rewrite elem_of_map_to_list.
Qed.

(** Taking away the edges of a settled name: every count drops by the edges into it,
    and the names it drops to zero are ready. *)
Lemma release_edges (es : list Edge) (d : Indegree) (ready : list pystr) :
  (∀ v, v ∈ targets es → ∃ x, d !! v = Some x ∧ (into v es <= x)%Z) →
  ∃ d' new, foldl release_edge (d, ready) es = (d', new ++ ready) ∧ NoDup new ∧
    (∀ v, d' !! v = (λ x, x - into v es)%Z <$> d !! v) ∧
    (∀ v, v ∈ new ↔ v ∈ targets es ∧ d !! v = Some (into v es)).
Proof.
  revert d ready. induction es as [|e es IH]; intros d ready Hd.
  { exists d, []. split_and!; [done|constructor| |].
    - intros v. unfold into. simpl. destruct (d !! v) as [x|]; simpl; [|done]. f_equal. lia.
    - intros v. simpl. rewrite !elem_of_nil. naive_solver. }
  destruct (Hd (edge_to e)) as (x&Hx&Hle); [left|]. rewrite into_cons, decide_True in Hle by done.
  cbn [foldl]. unfold release_edge at 2. rewrite Hx. set (t := edge_to e) in *.
  destruct (IH (<[t := (x - 1)%Z]> d) (if decide ((x - 1)%Z = 0%Z) then t :: ready else ready))
    as (d'&new&->&Hnd&Hd'&Hnew).
  { intros v Hv. destruct (decide (t = v)) as [<-|Hne].
    - exists (x - 1)%Z. rewrite lookup_insert_eq. split; [done|lia].
    - rewrite lookup_insert_ne by done. destruct (Hd v) as (y&Hy&Hley); [by right|].
      exists y. split; [done|]. rewrite into_cons, decide_False in Hley by done. lia. }
  pose proof (into_nonneg t es) as Hnn.
  exists d', (if decide ((x - 1)%Z = 0%Z) then new ++ [t] else new). split_and!.
  - destruct (decide (x - 1 = 0)%Z); by rewrite <-?app_assoc.
  - destruct (decide (x - 1 = 0)%Z); [|done]. apply NoDup_app. split_and!; [done| |apply NoDup_singleton].
    intros v Hv ->%list_elem_of_singleton. apply Hnew in Hv as [Hv _]. apply into_pos in Hv. lia.
  - intros v. rewrite Hd', into_cons. fold t. destruct (decide (t = v)) as [<-|Hne].
    + rewrite lookup_insert_eq, Hx. simpl. f_equal. lia.
    + by rewrite lookup_insert_ne.
  - intros v. rewrite into_cons. fold t. cbn [targets fmap list_fmap]. fold t.
    change (list_fmap Edge pystr edge_to es) with (targets es). rewrite elem_of_cons.
    assert (v ∈ new ↔ v ∈ targets es ∧ (if decide (t = v) then (x - 1)%Z = into v es else d !! v = Some (into v es)))
      as Hn.
    { rewrite Hnew. destruct (decide (t = v)) as [<-|Hne]; [|by rewrite lookup_insert_ne].
      rewrite lookup_insert_eq. split; intros [? Heq]; (split; [done|]); [by injection Heq|by f_equal]. }
    clear Hnew. pose proof (into_pos v es) as Hp.
    destruct (decide (t = v)) as [<-|Hne].
    + rewrite Hx. destruct (decide (x - 1 = 0)%Z) as [Hx0|Hx0]; rewrite ?elem_of_app, Hn, ?list_elem_of_singleton.
      * split; [|intros _; by right]. intros _. split; [by left|]. f_equal. lia.
      * split; [|]. { intros [? Heq]. split; [by left|]. f_equal. lia. }
        intros [_ [= Heq]]. rewrite <-Hp. lia.
    + assert (v ≠ t) as Hvt by done.
      destruct (decide (x - 1 = 0)%Z); rewrite ?elem_of_app, Hn, ?list_elem_of_singleton, Z.add_0_l; tauto.
Qed.

(** What holds while names settle: [settled] are done, [ready] wait, and the counts are
    of the edges out of the rest. *)
Record kahn (m : Adj) (names settled : gset pystr) (d : Indegree) (ready : list pystr) : Prop := {
  kahn_names : dom d = names;
  kahn_count v x : d !! v = Some x → x = indegree_of (unseen m settled) v;
  kahn_free v : v ∈ names → (v ∈ settled ∨ v ∈ ready) ↔ indegree_of (unseen m settled) v = 0%Z;
  kahn_settled : settled ⊆ names;
  kahn_ready v : v ∈ ready → v ∈ names ∧ v ∉ settled;
  kahn_nodup : NoDup ready;
  kahn_acyclic v : v ∈ settled → ¬ tc (edge_rel m) v v;
}.

Lemma unseen_rel m seen a b : edge_rel (unseen m seen) a b ↔ (a ∉ seen) ∧ edge_rel m a b.
Proof.
  rewrite !edge_rel_targets. unfold unseen. setoid_rewrite map_lookup_filter_Some. naive_solver.
Qed.

Lemma indegree_unseen m seen n v :
  n ∉ seen →
  indegree_of (unseen m seen) v =
  (into v (from_option id [] (m !! n)) + indegree_of (unseen m ({[n]} ∪ seen)) v)%Z.
Proof.
  intros Hn. rewrite unseen_delete. destruct (m !! n) as [es|] eqn:E; simpl.
  - apply indegree_delete. by apply map_lookup_filter_Some.
  - rewrite delete_id; [done|]. apply map_lookup_filter_None. by left.
Qed.

(** Everything that leads to a settled or ready name is settled. *)
Lemma kahn_before m names settled d ready x v :
  kahn m names settled d ready → v ∈ settled ∨ v ∈ ready → tc (edge_rel m) x v → x ∈ settled.
Proof.
  intros K Hv Hx.
  assert (∀ a b, b ∈ settled ∨ b ∈ ready → edge_rel m a b → a ∈ settled) as Hpred.
  { intros a b Hb Hab. destruct (decide (a ∈ settled)) as [|Ha]; [done|].
    assert (b ∈ names) as Hn by (destruct Hb as [?%(kahn_settled _ _ _ _ _ K)|?%(kahn_ready _ _ _ _ _ K)]; naive_solver).
    apply (kahn_free _ _ _ _ _ K _ Hn) in Hb.
    assert (0 < indegree_of (unseen m settled) b)%Z; [|lia].
    apply indegree_pos. exists a. by apply unseen_rel. }
  induction Hx as [a b Hab|a b c Hab _ IH]; [by eapply Hpred|]. eapply Hpred; [left; by apply IH|done].
Qed.

Lemma kahn_step m names settled d n ready d' new :
  kahn m names settled d (n :: ready) →
  let es := from_option id [] (m !! n) in
  NoDup new → (∀ v, d' !! v = (λ x, x - into v es)%Z <$> d !! v) →
  (∀ v, v ∈ new ↔ v ∈ targets es ∧ d !! v = Some (into v es)) →
  kahn m names ({[n]} ∪ settled) d' (new ++ ready).
Proof.
  intros K es Hnd Hd' Hnew.
  destruct (kahn_ready _ _ _ _ _ K n ltac:(left)) as [Hn Hns].
  pose proof (λ v, indegree_unseen m settled n v Hns) as Hi. fold es in Hi.
  set (rest := unseen m ({[n]} ∪ settled)) in *.
  assert (∀ v, v ∈ new → v ∈ names ∧ (0 < indegree_of (unseen m settled) v)%Z ∧ indegree_of rest v = 0%Z) as Hnew'.
  { intros v [Ht Hx]%Hnew. apply into_pos in Ht. apply (kahn_count _ _ _ _ _ K) in Hx as Hc. rewrite Hi in Hc.
    split_and!; [|rewrite Hi; pose proof (indegree_nonneg rest v); lia|lia].
    rewrite <-(kahn_names _ _ _ _ _ K). by eapply elem_of_dom_2. }
  assert (∀ v, v ∈ names → v ∈ settled ∨ v ∈ n :: ready → v ∉ new) as Hold.
  { intros v Hv Hf Hin. apply (kahn_free _ _ _ _ _ K _ Hv) in Hf. apply Hnew' in Hin. lia. }
  split.
  - rewrite <-(kahn_names _ _ _ _ _ K). apply set_eq. intros v. rewrite !elem_of_dom, Hd'. by rewrite fmap_is_Some.
  - intros v x. rewrite Hd'. intros (y&Hy&->)%fmap_Some. apply (kahn_count _ _ _ _ _ K) in Hy. rewrite Hi in Hy.
    fold rest. lia.
  - intros v Hv. fold rest. pose proof (kahn_free _ _ _ _ _ K v Hv) as Hf. rewrite Hi in Hf.
    pose proof (into_nonneg v es). pose proof (indegree_nonneg rest v). split.
    + intros [[->%elem_of_singleton|Hs]%elem_of_union|[Hin|Hr]%elem_of_app].
      * assert (into n es + indegree_of rest n = 0)%Z by (apply Hf; right; left). lia.
      * assert (into v es + indegree_of rest v = 0)%Z by (apply Hf; by left). lia.
      * by apply Hnew'.
      * assert (into v es + indegree_of rest v = 0)%Z by (apply Hf; right; by right). lia.
    + intros Hz. destruct (decide (0 < into v es)%Z) as [Hp|Hp].
      * right. apply elem_of_app. left. apply Hnew. split; [by apply into_pos|].
        assert (is_Some (d !! v)) as [x Hx] by by apply elem_of_dom; rewrite (kahn_names _ _ _ _ _ K).
        rewrite Hx. apply (kahn_count _ _ _ _ _ K) in Hx. rewrite Hi in Hx. f_equal. lia.
      * destruct (proj2 Hf ltac:(lia)) as [?|[->|?]%elem_of_cons]; set_solver.
  - pose proof (kahn_settled _ _ _ _ _ K). set_solver.
  - intros v [Hin|Hr]%elem_of_app.
    + split; [by apply Hnew'|]. intros [->%elem_of_singleton|Hs]%elem_of_union.
      * eapply Hold; [exact Hn|right; left|done].
      * eapply Hold; [by eapply kahn_settled|by left|done].
    + destruct (kahn_ready _ _ _ _ _ K v ltac:(by right)) as [Hv Hs]. split; [done|].
      intros [->%elem_of_singleton|?]%elem_of_union; [|done].
      pose proof (kahn_nodup _ _ _ _ _ K) as [? _]%NoDup_cons. done.
  - pose proof (kahn_nodup _ _ _ _ _ K) as [Hnr Hr]%NoDup_cons. apply NoDup_app. split_and!; [done| |done].
    intros v Hin Hv. destruct (kahn_ready _ _ _ _ _ K v ltac:(by right)) as [Hv' _].
    eapply Hold; [exact Hv'|right; right; exact Hv|done].
  - intros v [->%elem_of_singleton|Hs]%elem_of_union Hc; [|by eapply kahn_acyclic].
    apply Hns. eapply kahn_before; [exact K|right; left|exact Hc].
Qed.

Lemma settle_spec m names fuel settled d ready :
  (∀ a b, edge_rel m a b → b ∈ names) →
  kahn m names settled d ready → size names ≤ fuel + size settled →
  ∃ settled' d', settle fuel m d ready (size settled) = Ok (size settled', d') ∧
    kahn m names settled' d' [].
Proof.
  intros Hclosed. revert settled d ready. induction fuel as [|fuel IH]; intros settled d [|n ready] K Hf; simpl.
  1,3: by exists settled, d.
  all: destruct (kahn_ready _ _ _ _ _ K n ltac:(left)) as [Hn Hns].
  all: assert (size ({[n]} ∪ settled) = S (size settled)) as Hsize by (rewrite size_union, size_singleton; set_solver).
  { assert (size ({[n]} ∪ settled) ≤ size names); [|lia]. apply subseteq_size.
    pose proof (kahn_settled _ _ _ _ _ K). set_solver. }
  set (es := from_option id [] (m !! n)).
  destruct (release_edges es d ready) as (d'&new&Hr&Hnd&Hd'&Hnew).
  { intros v Hv. assert (v ∈ names) as Hvn.
    { apply (Hclosed n). apply edge_rel_targets. unfold es in Hv. destruct (m !! n); [by eexists|].
      by apply not_elem_of_nil in Hv. }
    assert (is_Some (d !! v)) as [x Hx] by by apply elem_of_dom; rewrite (kahn_names _ _ _ _ _ K).
    exists x. split; [done|]. apply (kahn_count _ _ _ _ _ K) in Hx. rewrite (indegree_unseen m settled n) in Hx by done.
    pose proof (indegree_nonneg (unseen m ({[n]} ∪ settled)) v). subst x. fold es. lia. }
  assert (match m !! n with Some es => foldl release_edge (d, ready) es | None => (d, ready) end =
    (d', new ++ ready)) as ->.
  { rewrite <-Hr. unfold es. by destruct (m !! n). }
  rewrite <-Hsize. apply IH; [|lia]. by eapply kahn_step.
Qed.

(** ** Cycles and predecessors *)

Lemma sorted_nodup {A} (R : relation A) l : StronglySorted R l → (∀ x, ¬ R x x) → NoDup l.
Proof.
  intros Hs Hr. induction Hs as [|x l _ IH Hx]; constructor; [|done].
  intros Hin. rewrite Forall_forall in Hx. by eapply Hr, Hx.
Qed.

(** A finite set in which every name has a predecessor holds a cycle: walk backwards
    further than the set is large. *)
Lemma predecessors_cycle (R : relation pystr) (W : gset pystr) v :
  v ∈ W → (∀ x, x ∈ W → ∃ y, y ∈ W ∧ R y x) → ¬ (∀ x, ¬ tc R x x).
Proof.
  intros Hv Hp Hac.
  assert (∀ k, ∃ l, length l = S k ∧ StronglySorted (tc R) l ∧ Forall (.∈ W) l) as Hwalk.
  { induction k as [|k (l&Hl&Hs&Hw)].
    - exists [v]. split_and!; [done|repeat constructor|by repeat constructor].
    - destruct l as [|x l]; [done|]. apply Forall_cons in Hw as [Hx Hw]. destruct (Hp x Hx) as (y&Hy&Hyx).
      exists (y :: x :: l). split_and!; [by simpl in *; lia| |by repeat constructor].
      constructor; [done|]. constructor; [by apply tc_once|].
      apply StronglySorted_inv in Hs as [_ Hs]. eapply Forall_impl; [exact Hs|]. intros z Hz. by eapply tc_l. }
  destruct (Hwalk (size W)) as (l&Hl&Hs&Hw). apply sorted_nodup in Hs; [|done].
  pose proof (size_list_to_set (C:=gset pystr) l Hs) as Hsz.
  assert (size (list_to_set l : gset pystr) ≤ size W); [|lia]. apply subseteq_size.
  intros x Hx%elem_of_list_to_set. rewrite Forall_forall in Hw. by apply Hw.
Qed.

(** The names of the edges are nodes. *)
Definition nodes_ok (g : HandoffGraph) : Prop :=
  (∀ a, is_Some (adj g !! a) → a ∈ graph_nodes g) ∧ (∀ a b, edge_rel (adj g) a b → b ∈ graph_nodes g).

(** [is_dag] ends, and decides whether there is a cycle. *)
Lemma is_dag_spec g : nodes_ok g → ∃ b, HandoffGraph_is_dag g = Ok b ∧ (b = true ↔ acyclic (adj g)).
Proof.
  intros [Hsrc Htgt]. unfold HandoffGraph_is_dag. set (d := initial_indegree g).
  assert (dom d = graph_nodes g) as Hdom.
  { apply set_eq. intros v. rewrite elem_of_dom. unfold d. rewrite (proj2 (initial_indegree_spec g v)). naive_solver. }
  assert (unseen (adj g) ∅ = adj g) as Hun by (apply map_filter_id; set_solver).
  assert (∀ v x, d !! v = Some x → x = indegree_of (adj g) v) as Hc.
  { intros v x Hx. destruct (initial_indegree_spec g v) as [H _]. fold d in H. by rewrite Hx in H. }
  assert (kahn (adj g) (graph_nodes g) ∅ d (initially_ready d)) as K.
  { assert (∀ v, v ∈ initially_ready d ↔ d !! v = Some 0%Z) as Hready.
    { intros v. unfold initially_ready. rewrite list_elem_of_fmap. split.
      - intros ([v' x]&->&[Hx Hin]%list_elem_of_filter). simpl in *. subst. by apply elem_of_map_to_list in Hin.
      - intros Hv. exists (v, 0%Z). split; [done|]. apply list_elem_of_filter. by rewrite elem_of_map_to_list. }
    split; rewrite ?Hun.
    - done.
    - intros v x Hx. by apply Hc.
    - intros v Hv. rewrite Hready. rewrite <-Hdom, elem_of_dom in Hv. destruct Hv as [x Hx]. rewrite Hx.
      apply Hc in Hx. subst x. split; [intros [?|[= ?]]; [set_solver|done]|intros ->; by right].
    - set_solver.
    - intros v Hv%Hready. split; [|set_solver]. rewrite <-Hdom. by eapply elem_of_dom_2.
    - unfold initially_ready. apply NoDup_fmap_fst; [|apply NoDup_filter, NoDup_map_to_list].
      intros v x y [_ Hx]%list_elem_of_filter [_ Hy]%list_elem_of_filter. apply elem_of_map_to_list in Hx, Hy. congruence.
    - set_solver. }
  destruct (settle_spec (adj g) (graph_nodes g) (size d) ∅ d (initially_ready d)) as (R&d'&Hs&K').
  { done. }
  { done. }
  { rewrite <-Hdom, size_dom. lia. }
  rewrite size_empty in Hs. rewrite Hs. simpl. eexists. split; [done|].
  rewrite bool_decide_eq_true. rewrite <-(size_dom (D:=gset pystr) d'), (kahn_names _ _ _ _ _ K'). split.
  - intros Heq. assert (R = graph_nodes g) as HR.
    { apply leibniz_equiv, set_subseteq_size_equiv; [by eapply kahn_settled|lia]. }
    intros a Ha. assert (a ∈ R) as HaR.
    { rewrite HR. apply Hsrc. apply tc_nsteps in Ha as ([|n]&Hn&Ha); [lia|].
      inversion Ha as [|? ? ? ? (es&?&Hes&_)]; subst. by exists es. }
    by eapply (kahn_acyclic _ _ _ _ _ K').
  - intros Hac. destruct (decide (graph_nodes g ⊆ R)) as [Hsub|Hsub].
    { f_equal. apply set_eq. pose proof (kahn_settled _ _ _ _ _ K'). set_solver. }
    exfalso. assert (∃ v, v ∈ graph_nodes g ∖ R) as [v Hv].
    { apply set_choose. intros He. apply Hsub. set_solver. }
    eapply (predecessors_cycle (edge_rel (adj g)) (graph_nodes g ∖ R) v); [done| |exact Hac].
    intros x [Hx HxR]%elem_of_difference. pose proof (kahn_free _ _ _ _ _ K' x Hx) as Hf.
    assert (0 < indegree_of (unseen (adj g) R) x)%Z as Hp.
    { pose proof (indegree_nonneg (unseen (adj g) R) x).
      destruct (decide (indegree_of (unseen (adj g) R) x = 0)%Z) as [H0|]; [|lia].
      apply Hf in H0 as [?|?%not_elem_of_nil]; done. }
    apply indegree_pos in Hp as (a&[Ha Hax]%unseen_rel). exists a. split; [|done].
    apply elem_of_difference. split; [|done]. apply Hsrc. destruct Hax as (es&?&?&_). by exists es.
Qed.
