(* ===== verification/GraphPaths.v ===== *)
(** * What a condition reads of a state

    [route] does not convert the whole routing state: it builds a partial one from the
    paths the conditions of a node name ([collect_paths], [drop_covered_paths],
    [insert_path] of rust/src). Here: a condition depends on the state only through its
    paths, and the partial state agrees on them with the state converted as a whole. *)

From Stdlib Require Import Sorted.
From S2P Require Import Prelude PyValue Codec Condition ConditionGrammar Graph.

(** ** The paths of an expression *)

Fixpoint vars (e : Expr) : list (list pystr) :=
  match e with
  | EVar path => [path]
  | ENot e => vars e
  | EAnd terms | EOr terms | EList terms => terms ≫= vars
  | ECmp _ a b => vars a ++ vars b
  | EStr _ | EInt _ | EFloat _ | EBool _ | ENull => []
  end.

(** Induction that goes under the lists. *)
Definition expr_nested_ind (P : Expr → Prop)
    (HStr : ∀ s, P (EStr s)) (HInt : ∀ z, P (EInt z)) (HFloat : ∀ z, P (EFloat z)) (HBool : ∀ b, P (EBool b))
    (HNull : P ENull) (HList : ∀ l, Forall P l → P (EList l)) (HVar : ∀ p, P (EVar p))
    (HNot : ∀ e, P e → P (ENot e)) (HAnd : ∀ l, Forall P l → P (EAnd l)) (HOr : ∀ l, Forall P l → P (EOr l))
    (HCmp : ∀ op a b, P a → P b → P (ECmp op a b)) : ∀ e, P e :=
  fix go e :=
    let goes := fix goes (l : list Expr) : Forall P l :=
      match l with
      | [] => Forall_nil_2 P
      | x :: l' => Forall_cons_2 P x l' (go x) (goes l')
      end in
    match e with
    | EStr s => HStr s | EInt z => HInt z | EFloat z => HFloat z | EBool b => HBool b | ENull => HNull
    | EList l => HList l (goes l) | EVar p => HVar p | ENot e => HNot e (go e)
    | EAnd l => HAnd l (goes l) | EOr l => HOr l (goes l) | ECmp op a b => HCmp op a b (go a) (go b)
    end.

Lemma collect_terms terms out p :
  Forall (λ e, ∀ out p, p ∈ collect_paths e out ↔ p ∈ out ∨ p ∈ vars e) terms →
  p ∈ foldl (λ out t, collect_paths t out) out terms ↔ p ∈ out ∨ p ∈ terms ≫= vars.
Proof.
  intros Ht. revert out. induction Ht as [|e terms He _ IH]; intros out; simpl.
  - rewrite elem_of_nil. tauto.
  - rewrite IH, He, elem_of_app. tauto.
Qed.

Lemma collect_paths_vars e out p : p ∈ collect_paths e out ↔ p ∈ out ∨ p ∈ vars e.
Proof.
  revert out p. induction e using expr_nested_ind; intros out q; simpl;
    try (rewrite elem_of_nil; tauto); try (by apply collect_terms).
  - case_bool_decide; rewrite ?elem_of_app, !list_elem_of_singleton; [|tauto]. split; [auto|].
    intros [?| ->]; done.
  - apply IHe.
  - rewrite IHe2, IHe1, elem_of_app. tauto.
Qed.

Lemma forallb_ext_in {A} (f g : A → bool) l : Forall (λ x, f x = g x) l → forallb f l = forallb g l.
Proof. induction 1 as [|x l Hx _ IH]; simpl; [done|]. by rewrite Hx, IH. Qed.

Lemma existsb_ext_in {A} (f g : A → bool) l : Forall (λ x, f x = g x) l → existsb f l = existsb g l.
Proof. induction 1 as [|x l Hx _ IH]; simpl; [done|]. by rewrite Hx, IH. Qed.

(** A condition sees a state only through its paths. *)
Lemma eval_reads e s s' :
  (∀ p, p ∈ vars e → value_lookup s p = value_lookup s' p) → eval e s = eval e s'.
Proof.
  assert (∀ terms, Forall (λ e, (∀ p, p ∈ vars e → value_lookup s p = value_lookup s' p) → eval e s = eval e s') terms →
    (∀ p, p ∈ terms ≫= vars → value_lookup s p = value_lookup s' p) → Forall (λ e, eval e s = eval e s') terms) as Hterms.
  { intros terms Ht Hp. induction Ht as [|e' terms He _ IH]; constructor.
    - apply He. intros p Hin. apply Hp. simpl. apply elem_of_app. by left.
    - apply IH. intros p Hin. apply Hp. simpl. apply elem_of_app. by right. }
  assert (∀ terms, Forall (λ e, eval e s = eval e s') terms →
    Forall (λ e, value_truthy (eval e s) = value_truthy (eval e s')) terms) as Htruth.
  { intros terms Ht. eapply Forall_impl; [exact Ht|]. by intros x ->. }
  induction e using expr_nested_ind; cbn [eval vars]; intros Hp; try done.
  - f_equal. by apply Forall_fmap_ext_1, Hterms.
  - by rewrite Hp by (by left).
  - by rewrite IHe.
  - f_equal. by apply forallb_ext_in, Htruth, Hterms.
  - f_equal. by apply existsb_ext_in, Htruth, Hterms.
  - rewrite IHe1, IHe2; [done|intros p Hin; apply Hp, elem_of_app; by right|intros p Hin; apply Hp, elem_of_app; by left].
Qed.

(** Paths are never empty. *)
Definition named (e : Expr) : Prop := [] ∉ vars e.

Lemma grammar_named n t e : or_g n t e → named e.
Proof.
  assert ((∀ n t e, or_g n t e → named e) ∧ (∀ n t es, or_tail n t es → Forall named es) ∧
    (∀ n t e, and_g n t e → named e) ∧ (∀ n t es, and_tail n t es → Forall named es) ∧
    (∀ n t e, not_g n t e → named e) ∧ (∀ n t e, cmp_g n t e → named e) ∧
    (∀ n t e, prim_g n t e → named e) ∧ (∀ n t es, items_g n t es → Forall named es)) as [H _]; [|apply H].
  assert (∀ es, Forall named es → [] ∉ es ≫= vars) as Hes.
  { intros es Hes (e'&Hin&He')%list_elem_of_bind. rewrite Forall_forall in Hes. by eapply Hes. }
  apply grammar_ind; intros; try done; try (by constructor);
    try (unfold named; simpl; by apply (Hes (_ :: _)); constructor).
  - unfold named. simpl. intros [?|?]%elem_of_app; done.
  - destruct t0; try done; injection H as <-; apply not_elem_of_nil.
  - unfold named. simpl. by intros ?%list_elem_of_singleton.
  - by apply Hes.
Qed.

(** ** [drop_covered_paths] *)

#[export] Instance shorter_total : Total shorter.
Proof. intros p q. unfold shorter. lia. Qed.
#[export] Instance shorter_trans : Transitive shorter.
Proof. intros p q r. unfold shorter. lia. Qed.

(** No path starts with another. *)
Definition prefix_free (kept : list (list pystr)) : Prop :=
  NoDup kept ∧ ∀ k k', k ∈ kept → k' ∈ kept → k `prefix_of` k' → k = k'.

Lemma keep_uncovered_spec kept paths :
  prefix_free kept → (∀ k p, k ∈ kept → p ∈ paths → length k ≤ length p) → StronglySorted shorter paths →
  let kept' := foldl keep_uncovered kept paths in
  prefix_free kept' ∧ (∀ k, k ∈ kept' → k ∈ kept ∨ k ∈ paths) ∧
  (∀ p, p ∈ kept ∨ p ∈ paths → ∃ k, k ∈ kept' ∧ k `prefix_of` p).
Proof.
  cbv zeta. intros Hk Hlen Hs. revert kept Hk Hlen.
  induction Hs as [|p paths Hs IH Hp]; intros kept Hk Hlen; simpl.
  { split; [done|]. split; [auto|]. intros p [?|?%not_elem_of_nil]; [|done]. by exists p. }
  rewrite Forall_forall in Hp.
  destruct (existsb (λ k, bool_decide (k `prefix_of` p)) kept) eqn:E.
  - assert (keep_uncovered kept p = kept) as -> by (unfold keep_uncovered; by rewrite E).
    apply existsb_exists in E as (k0&Hk0&Hpre%bool_decide_eq_true). apply list_elem_of_In in Hk0.
    destruct (IH kept) as (H1&H2&H3); [done|intros k q ? ?; apply Hlen; [done|by right]|].
    split; [done|]. split; [intros k Hin; destruct (H2 k Hin); [by left|by right; right]|].
    intros q [Hq|[->|Hq]%elem_of_cons]; [apply H3; auto| |apply H3; auto].
    destruct (H3 k0) as (k&Hk'&Hkp); [auto|]. exists k. split; [done|by etrans].
  - assert (keep_uncovered kept p = kept ++ [p]) as -> by (unfold keep_uncovered; by rewrite E).
    assert (∀ k, k ∈ kept → ¬ k `prefix_of` p) as Hnone.
    { intros k Hin Hpre. apply not_true_iff_false in E. apply E. apply existsb_exists. exists k.
      split; [by apply list_elem_of_In|by apply bool_decide_eq_true]. }
    assert (∀ k, k ∈ kept → ¬ p `prefix_of` k) as Hnone'.
    { intros k Hin Hpre. apply (Hnone k Hin). assert (length k ≤ length p) by (apply Hlen; [done|left]).
      destruct Hpre as [l ->]. rewrite length_app in *. destruct l; [by rewrite app_nil_r|simpl in *; lia]. }
    destruct (IH (kept ++ [p])) as (H1&H2&H3).
    { destruct Hk as [Hnd Hpf]. split.
      - apply NoDup_app. split; [done|]. split; [|apply NoDup_singleton].
        intros k Hin ->%list_elem_of_singleton. by apply (Hnone p).
      - intros k k' [Hin| ->%list_elem_of_singleton]%elem_of_app [Hin'| ->%list_elem_of_singleton]%elem_of_app Hpre;
          [by apply Hpf|by destruct (Hnone k)|by destruct (Hnone' k')|done]. }
    { intros k q [Hin| ->%list_elem_of_singleton]%elem_of_app Hq; [apply Hlen; [done|by right]|by apply Hp]. }
    split; [done|]. split.
    + intros k Hin. destruct (H2 k Hin) as [[?| ->%list_elem_of_singleton]%elem_of_app|?]; [by left|right; left|by right; right].
    + intros q Hq. apply H3. rewrite elem_of_app, list_elem_of_singleton, elem_of_cons in *. tauto.
Qed.

Lemma drop_covered_spec paths :
  let kept := drop_covered_paths paths in
  prefix_free kept ∧ (∀ k, k ∈ kept → k ∈ paths) ∧ (∀ p, p ∈ paths → ∃ k, k ∈ kept ∧ k `prefix_of` p).
Proof.
  cbv zeta. unfold drop_covered_paths.
  pose proof (StronglySorted_merge_sort shorter paths) as Hs.
  pose proof (merge_sort_Permutation shorter paths) as Hperm.
  destruct (keep_uncovered_spec [] (merge_sort shorter paths)) as (H1&H2&H3); [|by intros ? ? ?%not_elem_of_nil|done|].
  { split; [constructor|]. by intros ? ? ?%not_elem_of_nil. }
  split; [done|]. split.
  - intros k Hin. destruct (H2 k Hin) as [?%not_elem_of_nil|Hk]; [done|]. by rewrite Hperm in Hk.
  - intros p Hp. apply H3. right. by rewrite Hperm.
Qed.

(** ** [insert_path] *)

Lemma key_eqb k seg : value_eqb k (VString seg) = match k with VString s => str_eqb s seg | _ => false end.
Proof. by destruct k. Qed.

(** [update_child] changes the value [map_find] finds, and no other. *)
Lemma update_child_find f seg pairs :
  match map_find seg pairs with
  | None => update_child f seg pairs = None
  | Some v => ∃ pairs', update_child f seg pairs = Some pairs' ∧
      map_find seg pairs' = Some (match v with VMap inner => VMap (f inner) | _ => v end) ∧
      (∀ seg', seg' ≠ seg → map_find seg' pairs' = map_find seg' pairs)
  end.
Proof.
  induction pairs as [|[k v] pairs IH]; [done|]. cbn [map_find update_child]. rewrite key_eqb.
  destruct (match k with VString s => str_eqb s seg | _ => false end) eqn:Hk.
  - eexists. split; [done|]. cbn [map_find]. rewrite Hk. split; [done|]. intros seg' Hne.
    destruct k; try done. apply str_eqb_eq in Hk as ->. by rewrite !str_eqb_neq by done.
  - destruct (map_find seg pairs) as [w|]; [|by rewrite IH].
    destruct IH as (pairs'&->&Hf&Ho). eexists. split; [done|]. cbn [map_find]. rewrite Hk.
    split; [done|]. intros seg' Hne. by rewrite Ho.
Qed.

Lemma map_find_snoc seg pairs seg' v :
  map_find seg (pairs ++ [(VString seg', v)]) =
  match map_find seg pairs with
  | Some w => Some w
  | None => if decide (seg' = seg) then Some v else None
  end.
Proof.
  induction pairs as [|[k w] pairs IH]; simpl.
  - destruct (decide (seg' = seg)) as [->|Hne]; [by rewrite str_eqb_refl|by rewrite str_eqb_neq].
  - by destruct (match k with VString s => str_eqb s seg | _ => false end).
Qed.

(** Nothing is in the way of a path. *)
Fixpoint free (pairs : list (Value * Value)) (path : list pystr) : Prop :=
  match path with
  | [] => False
  | seg :: path' =>
      match map_find seg pairs with
      | None => True
      | Some (VMap inner) => free inner path'
      | Some _ => False
      end
  end.

Definition look (pairs : list (Value * Value)) (path : list pystr) : option Value :=
  value_lookup (VMap pairs) path.

Lemma look_cons pairs seg path :
  look pairs (seg :: path) = found ← map_find seg pairs; value_lookup found path.
Proof. done. Qed.

Lemma free_look pairs path rest : free pairs path → look pairs (path ++ rest) = None.
Proof.
  revert pairs. induction path as [|seg path IH]; intros pairs; [done|]. simpl app. rewrite look_cons. simpl.
  destruct (map_find seg pairs) as [[]|]; try done. simpl. apply IH.
Qed.

(** The two ways [insert_path] goes down a path of more than one segment. *)
Lemma insert_path_cons pairs seg seg' path leaf :
  insert_path pairs (seg :: seg' :: path) leaf =
  match update_child (λ inner, insert_path inner (seg' :: path) leaf) seg pairs with
  | Some pairs' => pairs'
  | None => pairs ++ [(VString seg, VMap (insert_path [] (seg' :: path) leaf))]
  end.
Proof. done. Qed.

Lemma insert_find_same pairs seg seg' path leaf :
  free pairs (seg :: seg' :: path) →
  map_find seg (insert_path pairs (seg :: seg' :: path) leaf) =
  Some (VMap (insert_path match map_find seg pairs with Some (VMap inner) => inner | _ => [] end
                (seg' :: path) leaf)).
Proof.
  intros Hf. rewrite insert_path_cons. pose proof (update_child_find (λ inner, insert_path inner (seg' :: path) leaf) seg pairs) as H.
  simpl in Hf. destruct (map_find seg pairs) as [v|] eqn:E.
  - destruct H as (pairs'&->&Hfind&_). rewrite Hfind. by destruct v.
  - rewrite H, map_find_snoc, E, decide_True by done. done.
Qed.

Lemma insert_find_other pairs seg seg0 path leaf :
  seg ≠ seg0 → map_find seg0 (insert_path pairs (seg :: path) leaf) = map_find seg0 pairs.
Proof.
  intros Hne. destruct path as [|seg' path].
  - simpl. rewrite map_find_snoc, decide_False by done. by destruct (map_find seg0 pairs).
  - rewrite insert_path_cons. pose proof (update_child_find (λ inner, insert_path inner (seg' :: path) leaf) seg pairs) as H.
    destruct (map_find seg pairs) as [v|].
    + destruct H as (pairs'&->&_&Ho). by apply Ho.
    + rewrite H, map_find_snoc, decide_False by done. by destruct (map_find seg0 pairs).
Qed.

Lemma insert_look_same pairs path leaf rest :
  free pairs path → look (insert_path pairs path leaf) (path ++ rest) = value_lookup leaf rest.
Proof.
  revert pairs. induction path as [|seg [|seg' path] IH]; intros pairs Hf; [done|..].
  - simpl in *. rewrite look_cons, map_find_snoc. destruct (map_find seg pairs) as [[]|]; try done.
    by rewrite decide_True.
  - change ((seg :: seg' :: path) ++ rest) with (seg :: (seg' :: path) ++ rest).
    rewrite look_cons, insert_find_same by done. apply IH. clear IH. simpl in *.
    destruct (map_find seg pairs) as [[]|]; done.
Qed.

(** Paths neither of which starts with the other. *)
Definition apart (p q : list pystr) : Prop := ¬ p `prefix_of` q ∧ ¬ q `prefix_of` p.

Lemma apart_cons seg p q : apart (seg :: p) (seg :: q) ↔ apart p q.
Proof. unfold apart. split; intros [H1 H2]; split; intros H.
  - by apply H1, prefix_cons.
  - by apply H2, prefix_cons.
  - by apply H1; apply prefix_cons_inv_2 in H.
  - by apply H2; apply prefix_cons_inv_2 in H.
Qed.

Lemma insert_look_other pairs path q leaf :
  free pairs path → apart path q → look (insert_path pairs path leaf) q = look pairs q.
Proof.
  revert pairs q. induction path as [|seg [|seg' path] IH]; intros pairs [|seg0 q] Hf Ha; try done.
  1,3: destruct Ha as [_ []]; apply prefix_nil.
  - destruct (decide (seg = seg0)) as [->|Hne]; [destruct Ha as [[]]; by exists q|].
    by rewrite !look_cons, insert_find_other.
  - destruct (decide (seg = seg0)) as [<-|Hne]; [|by rewrite !look_cons, insert_find_other].
    apply apart_cons in Ha. rewrite !look_cons, insert_find_same by done. simpl in Hf.
    change (look (insert_path match map_find seg pairs with Some (VMap inner) => inner | _ => [] end
      (seg' :: path) leaf) q = (found ← map_find seg pairs; value_lookup found q)).
    destruct (map_find seg pairs) as [[]|]; try done.
    + by apply (IH _ q).
    + transitivity (look [] q); [by apply IH|]. destruct q as [|? q]; [|done].
      destruct Ha as [_ []]. apply prefix_nil.
Qed.

Lemma insert_free pairs path q leaf :
  free pairs path → free pairs q → apart path q → free (insert_path pairs path leaf) q.
Proof.
  revert pairs q. induction path as [|seg [|seg' path] IH]; intros pairs [|seg0 q] Hf Hq Ha; try done.
  - destruct (decide (seg = seg0)) as [->|Hne]; [destruct Ha as [[]]; by exists q|].
    cbn [free]. by rewrite insert_find_other.
  - destruct (decide (seg = seg0)) as [<-|Hne]; [|cbn [free]; by rewrite insert_find_other].
    apply apart_cons in Ha. cbn [free]. rewrite insert_find_same by done. simpl in Hf, Hq.
    destruct (map_find seg pairs) as [[]|]; try done; apply IH; try done.
    destruct q as [|? q]; [|done]. destruct Ha as [_ []]. apply prefix_nil.
Qed.

(** ** The state converted as a whole *)

(** The same value converts wherever there is more room. *)
Lemma py_to_value_shallower x depth depth' v :
  depth' ≤ depth → py_to_value_at x depth = Ok v → py_to_value_at x depth' = Ok v.
Proof.
  revert depth depth' v. induction x using pyval_nested_ind; intros depth depth' v Hd;
    simpl; destruct (Nat.ltb_spec MAX_DEPTH depth); try done;
    destruct (Nat.ltb_spec MAX_DEPTH depth'); try lia; try done.
  1,2: enough (∀ vs, value_items (λ x, py_to_value_at x (S depth)) l = Ok vs →
      value_items (λ x, py_to_value_at x (S depth')) l = Ok vs) as Hl
      by (destruct (value_items (λ x, py_to_value_at x (S depth)) l) eqn:E; try done; by rewrite (Hl _ eq_refl)).
  1,2: induction H as [|x l Hx _ IH]; intros vs; simpl; [done|];
      destruct (py_to_value_at x (S depth)) as [w| |] eqn:E; try done; simpl;
      destruct (value_items (λ x, py_to_value_at x (S depth)) l) as [ws| |] eqn:E'; try done;
      rewrite (Hx (S depth) (S depth') w) by (lia || done); simpl; by rewrite (IH ws).
  enough (∀ vs, value_pairs (λ x, py_to_value_at x (S depth)) d = Ok vs →
    value_pairs (λ x, py_to_value_at x (S depth')) d = Ok vs) as Hl
    by (destruct (value_pairs (λ x, py_to_value_at x (S depth)) d) eqn:E; try done; by rewrite (Hl _ eq_refl)).
  induction H as [|[k x] d [Hk Hx] _ IH]; intros vs; simpl in *; [done|].
  destruct (py_to_value_at k (S depth)) as [kv| |] eqn:Ek; try done; simpl.
  destruct (py_to_value_at x (S depth)) as [w| |] eqn:E; try done; simpl.
  destruct (value_pairs (λ x, py_to_value_at x (S depth)) d) as [ws| |] eqn:E'; try done.
  rewrite (Hk (S depth) (S depth') kv), (Hx (S depth) (S depth') w) by (lia || done). simpl. by rewrite (IH ws).
Qed.

(** A key of a dict is a string of the map exactly when it is one of the dict. *)
Lemma converted_key k depth kv seg :
  py_to_value_at k depth = Ok kv →
  match kv with VString s => str_eqb s seg | _ => false end = py_eq k (PStr seg).
Proof.
  destruct k; simpl; destruct (MAX_DEPTH <? depth)%nat; try done.
  all: try (intros [= <-]; done).
  - unfold value_int. destruct (_ && _); [by intros [= <-]|]. destruct (_ && _); [by intros [= <-]|done].
  - unfold as_string. destruct (decide (valid_text s)); [by intros [= <-]|done].
  - destruct (value_items _ l); [by intros [= <-]|done..].
  - destruct (value_items _ l); [by intros [= <-]|done..].
  - destruct (value_pairs _ d); [by intros [= <-]|done..].
Qed.

Lemma converted_dict d depth pairs seg :
  value_pairs (λ x, py_to_value_at x depth) d = Ok pairs →
  match dict_get d (PStr seg) with
  | Some x => ∃ w, py_to_value_at x depth = Ok w ∧ map_find seg pairs = Some w
  | None => map_find seg pairs = None
  end.
Proof.
  revert pairs. induction d as [|[k x] d IH]; intros pairs; simpl; [by intros [= <-]|].
  destruct (py_to_value_at k depth) as [kv| |] eqn:Ek; try done. simpl.
  destruct (py_to_value_at x depth) as [w| |] eqn:Ex; try done. simpl.
  destruct (value_pairs (λ x, py_to_value_at x depth) d) as [ws| |]; try done. simpl. intros [= <-].
  rewrite <-(converted_key k depth kv seg Ek). cbn [map_find].
  destruct (match kv with VString s => str_eqb s seg | _ => false end); [by exists w|]. by apply IH.
Qed.

#[local] Arguments py_to_value : simpl never.

(** Walking the state finds what [value_lookup] finds in the converted state. *)
Lemma resolve_path_value objs path state depth v :
  py_to_value_at state depth = Ok v →
  match resolve_path objs state path with
  | Ok (Some x) => ∃ w, py_to_value x = Ok w ∧ value_lookup v path = Some w
  | Ok None => value_lookup v path = None
  | _ => False
  end.
Proof.
  revert state depth v. induction path as [|seg path IH]; intros state depth v Hv; simpl.
  { exists v. split; [|done]. eapply py_to_value_shallower; [|exact Hv]. lia. }
  destruct state; simpl in Hv; destruct (MAX_DEPTH <? depth)%nat; try done; simpl;
    try (injection Hv as <-; done).
  - unfold value_int in Hv. destruct (_ && _); [by injection Hv as <-|].
    destruct (_ && _); [by injection Hv as <-|done].
  - unfold as_string in Hv. destruct (decide (valid_text s)); [by injection Hv as <-|done].
  - destruct (value_items _ l); [by injection Hv as <-|done..].
  - destruct (value_items _ l); [by injection Hv as <-|done..].
  - destruct (value_pairs _ d) as [pairs| |] eqn:Ep; [|done..]. injection Hv as <-.
    apply (converted_dict d (S depth) pairs seg) in Ep. destruct (dict_get d (PStr seg)) as [x|]; [|by rewrite Ep].
    destruct Ep as (w&Hw&->). simpl. by eapply IH.
Qed.

(** ** The partial state *)

Definition all_apart (kept : list (list pystr)) : Prop :=
  ∀ i j p q, kept !! i = Some p → kept !! j = Some q → i ≠ j → apart p q.

Lemma prefix_free_apart kept : prefix_free kept → all_apart kept.
Proof.
  intros [Hnd Hp] i j p q Hi Hj Hne.
  assert (p ≠ q) as Hpq by (intros ->; by apply Hne, (NoDup_lookup kept i j q)).
  split; intros Hpre; apply Hpq; [|symmetry]; apply Hp; try done; by eapply list_elem_of_lookup_2.
Qed.

Lemma all_apart_cons p kept : all_apart (p :: kept) → (∀ q, q ∈ kept → apart p q) ∧ all_apart kept.
Proof.
  intros H. split.
  - intros q (j&Hj)%list_elem_of_lookup. by apply (H 0 (S j)).
  - intros i j p' q Hi Hj Hne. apply (H (S i) (S j)); [done|done|congruence].
Qed.

Lemma apart_extend p q rest : apart p q → apart p (q ++ rest).
Proof.
  intros [H1 H2]. split; intros Hpre.
  - destruct (prefix_weak_total p q (q ++ rest)) as [?|?]; [done|by apply prefix_app_r|done|done].
  - apply H2. by apply prefix_app_l in Hpre.
Qed.

(** Adding the paths that resolve, on top of what is there. *)
Lemma add_paths_look objs state v depth kept pairs :
  py_to_value_at state depth = Ok v → all_apart kept → (∀ p, p ∈ kept → free pairs p) →
  ∃ pairs', foldR kept (add_path objs state) pairs = Ok pairs' ∧
    (∀ p rest, p ∈ kept → look pairs' (p ++ rest) = value_lookup v (p ++ rest)) ∧
    (∀ q, (∀ p, p ∈ kept → apart p q) → look pairs' q = look pairs q).
Proof.
  intros Hv. revert pairs. induction kept as [|p kept IH]; intros pairs Ha Hf.
  { exists pairs. split; [done|]. split; [by intros ? ? ?%not_elem_of_nil|done]. }
  apply all_apart_cons in Ha as [Hp Ha]. cbn [foldR].
  assert (∀ rest, value_lookup v (p ++ rest) = w ← value_lookup v p; value_lookup w rest) as Hsplit.
  { clear. revert v. induction p as [|seg p IH]; intros v rest; simpl; [done|].
    destruct v; try done. destruct (map_find seg pairs); [|done]. simpl. apply IH. }
  pose proof (resolve_path_value objs p state depth v Hv) as Hr.
  destruct (resolve_path objs state p) as [[x|]| |] eqn:E; try done.
  - destruct Hr as (leaf&Hleaf&Hl).
    assert (add_path objs state pairs p = Ok (insert_path pairs p leaf)) as ->
      by (unfold add_path; rewrite E; simpl; by rewrite Hleaf).
    destruct (IH (insert_path pairs p leaf)) as (pairs'&Hfold&Hin&Hout); [done| |].
    { intros q Hq. apply insert_free; [apply Hf; left|apply Hf; by right|by apply Hp]. }
    exists pairs'. split; [done|]. split.
    + intros q rest [->|Hq]%elem_of_cons; [|by apply Hin].
      rewrite Hout by (intros q Hq; apply apart_extend; destruct (Hp q Hq); by split).
      rewrite insert_look_same by (apply Hf; left). by rewrite Hsplit, Hl.
    + intros q Hq. rewrite Hout by (intros k Hk; apply Hq; by right).
      apply insert_look_other; [apply Hf; left|apply Hq; left].
  - assert (add_path objs state pairs p = Ok pairs) as -> by (unfold add_path; by rewrite E).
    destruct (IH pairs) as (pairs'&Hfold&Hin&Hout); [done|intros q Hq; apply Hf; by right|].
    exists pairs'. split; [done|]. split.
    + intros q rest [->|Hq]%elem_of_cons; [|by apply Hin].
      rewrite Hout by (intros q Hq; apply apart_extend; destruct (Hp q Hq); by split).
      rewrite free_look by (apply Hf; left). by rewrite Hsplit, Hr.
    + intros q Hq. apply Hout. intros k Hk. apply Hq. by right.
Qed.
