(* ===== verification/GraphTheorems.v ===== *)
(** * Properties of the handoff graph

    What holds of every graph that [add_node] and [add_edge] build, whatever they are
    given and whichever of them raise: [add_edge] under [on_cycle="error"] keeps the
    graph free of cycles and refuses exactly the edges that would close one, [is_dag]
    answers rightly, and [route] returns the first edge whose condition holds in the
    routing state, although it looks at a part of the state only. *)

From S2P Require Import Prelude PyValue Codec Condition ConditionGrammar ConditionLexer Graph GraphCycles GraphPaths.

(** A call that changes a graph, and a sequence of them; one that raises is over, and
    the next goes on from the state it left. *)
Inductive graph_call :=
  | AddNode (name : pystr)
  | AddEdge (from_node to : pystr) (when : option pystr).

Section Calls.
Context (tables : CharTables).

Definition graph_step (c : graph_call) : PyM HandoffGraph unit :=
  match c with
  | AddNode name => HandoffGraph_add_node name
  | AddEdge from_node to when => HandoffGraph_add_edge tables from_node to when
  end.

Definition build (calls : list graph_call) (g : HandoffGraph) : HandoffGraph :=
  foldl (λ g c, (graph_step c g).2) g calls.

(** ** The invariant *)

Record graph_ok (mode : pystr) (g : HandoffGraph) : Prop := {
  ok_mode : on_cycle g = mode;
  ok_nodes : nodes_ok g;
  ok_paths n : node_paths g !! n = (λ es, drop_covered_paths (edges_paths es)) <$> adj g !! n;
  ok_named n es e c : adj g !! n = Some es → e ∈ es → edge_cond e = Some c → named c;
  ok_acyclic : mode = lit "error" → acyclic (adj g);
}.

Lemma new_ok mode g : HandoffGraph_new mode = Ok g → graph_ok mode g.
Proof.
  unfold HandoffGraph_new. destruct (negb _ && _); [done|]. intros [= <-].
  split; simpl; try done.
  - split; simpl; [intros a [x Hx]; by rewrite lookup_empty in Hx|].
    intros a b (es&e&Hx&_); by rewrite lookup_empty in Hx.
  - intros _. apply empty_acyclic.
Qed.

Lemma add_node_ok mode name g : graph_ok mode g → graph_ok mode (HandoffGraph_add_node name g).2.
Proof.
  intros H. unfold HandoffGraph_add_node, as_string. destruct (decide (valid_text name)); [|done]. simpl.
  destruct H as [Hm [Hs Ht] Hp Hn Ha]. split; simpl; try done.
  split; simpl; set_solver.
Qed.

Lemma parse_named src e : parse tables src = Ok e → named e.
Proof.
  unfold parse. destruct (lex tables src) as [toks| |]; [|done..]. simpl. intros Hp.
  pose proof (parse_tokens_cases toks) as H. rewrite Hp in H. by eapply grammar_named.
Qed.

Lemma push_edge_adj from_node e g : adj (push_edge from_node e g) = with_edge from_node e (adj g).
Proof. done. Qed.

(** The edge [add_edge] makes, and when it does. *)
Inductive add_edge_result (from_node to : pystr) (when : option pystr) (g : HandoffGraph)
    : result unit * HandoffGraph → Prop :=
  | edge_refused x : x = UnicodeEncodeError ∨ x = ValueError →
      add_edge_result from_node to when g (Raise x, g)
  | edge_cycle : on_cycle g = lit "error" → rtc (edge_rel (adj g)) to from_node →
      add_edge_result from_node to when g (Raise ValueError, g)
  | edge_added cond :
      (on_cycle g = lit "error" → ¬ rtc (edge_rel (adj g)) to from_node) →
      match when with Some src => ∃ e, parse tables src = Ok e ∧ cond = Some e | None => cond = None end →
      add_edge_result from_node to when g
        (Ok tt, refresh_paths from_node
                  (push_edge from_node {| edge_to := to; edge_when_src := when; edge_cond := cond |} g)).

(** The cycle check as [add_edge] makes it. *)
Lemma cycle_check_spec from_node to g :
  ∃ b, (if str_eqb (on_cycle g) (lit "error") then would_create_cycle from_node to g else Ok false) = Ok b ∧
    (b = true ↔ on_cycle g = lit "error" ∧ rtc (edge_rel (adj g)) to from_node).
Proof.
  destruct (str_eqb_spec (on_cycle g) (lit "error")) as [->|Hne].
  - destruct (would_create_cycle_spec from_node to g) as (b&->&Hb). exists b. split; [done|]. rewrite Hb. tauto.
  - exists false. split; [done|]. split; [done|]. by intros [? _].
Qed.

Lemma add_edge_spec from_node to when g :
  add_edge_result from_node to when g (HandoffGraph_add_edge tables from_node to when g).
Proof.
  unfold HandoffGraph_add_edge, as_opt_string, as_string, mbind, pym_bind, lift.
  destruct (decide (valid_text from_node)); [|apply edge_refused; by left].
  destruct (decide (valid_text to)); [|apply edge_refused; by left].
  destruct (cycle_check_spec from_node to g) as (b&Hb&Hiff).
  destruct when as [src|]; simpl.
  - destruct (decide (valid_text src)); [|apply edge_refused; by left]. simpl.
    destruct (parse_ends tables src) as [(e&He)|He]; rewrite He; simpl; [|apply edge_refused; by right].
    rewrite Hb. destruct b; simpl.
    + by apply edge_cycle; apply Hiff.
    + apply edge_added; [|by exists e]. intros Hm Hr. by assert (false = true) by by apply Hiff.
  - rewrite Hb. destruct b; simpl.
    + by apply edge_cycle; apply Hiff.
    + apply edge_added; [|done]. intros Hm Hr. by assert (false = true) by by apply Hiff.
Qed.

Lemma add_edge_ok mode from_node to when g :
  graph_ok mode g → graph_ok mode (HandoffGraph_add_edge tables from_node to when g).2.
Proof.
  intros H. destruct (add_edge_spec from_node to when g) as [? _|? _|cond Hcyc Hcond]; [done..|].
  destruct H as [Hm [Hs Ht] Hp Hn Ha]. set (e := {| edge_to := to; edge_when_src := when; edge_cond := cond |}).
  split; simpl.
  - done.
  - split; simpl.
    + intros a. destruct (decide (a = from_node)) as [->|Hne]; [set_solver|].
      rewrite lookup_insert_ne by done. intros ?%Hs. set_solver.
    + intros a b [Hab|[_ ->]]%with_edge_rel; [apply Ht in Hab; set_solver|set_solver].
  - intros n. rewrite lookup_insert_eq. destruct (decide (n = from_node)) as [->|Hne].
    + by rewrite !lookup_insert_eq.
    + rewrite !lookup_insert_ne by done. apply Hp.
  - intros n es e' c. destruct (decide (n = from_node)) as [->|Hne]; [|rewrite lookup_insert_ne by done; apply Hn].
    rewrite lookup_insert_eq. intros [= <-] [Hin| ->%list_elem_of_singleton]%elem_of_app Hc.
    + destruct (adj g !! from_node) as [es|] eqn:E; [by eapply Hn|by apply not_elem_of_nil in Hin].
    + simpl in Hc. destruct when as [src|]; [|congruence].
      destruct Hcond as (c'&Hc'&Heq). assert (c' = c) as -> by congruence. by eapply parse_named.
  - intros He. apply (with_edge_acyclic from_node e (adj g)); [by apply Ha|]. apply Hcyc. by rewrite Hm.
Qed.

Lemma build_ok mode calls g : graph_ok mode g → graph_ok mode (build calls g).
Proof.
  revert g. induction calls as [|c calls IH]; intros g H; [done|]. apply IH.
  destruct c; [by apply add_node_ok|by apply add_edge_ok].
Qed.

(** ** Cycles *)

(** C29: A graph made with [on_cycle="error"] never has a cycle, whatever is added to it,
    and on any graph [is_dag] returns (neither of its loops runs forever) and says
    truly whether there is one. *)
Theorem graph_acyclic mode calls g0 :
  HandoffGraph_new mode = Ok g0 →
  ∃ b, HandoffGraph_is_dag (build calls g0) = Ok b ∧
    (b = true ↔ ∀ n, ¬ tc (edge_rel (adj (build calls g0))) n n) ∧
    (mode = lit "error" → b = true).
Proof.
  intros Hnew%new_ok. pose proof (build_ok _ calls _ Hnew) as Hg.
  destruct (is_dag_spec _ (ok_nodes _ _ Hg)) as (b&Hb&Hiff). exists b. split; [done|]. split; [done|].
  intros Hm. by apply Hiff, (ok_acyclic _ _ Hg).
Qed.

(** C30: [add_edge] refuses what it has to and nothing else: given text and a condition
    that parses, it raises [ValueError] exactly when [on_cycle] is ["error"] and [to]
    already leads to [from_node], and otherwise appends the edge to those of
    [from_node] and registers both names; whenever it raises, the graph is unchanged. *)
Theorem add_edge_exact from_node to when g :
  valid_text from_node → valid_text to → (∀ src, when = Some src → valid_text src ∧ is_ok (parse tables src) = true) →
  let r := HandoffGraph_add_edge tables from_node to when g in
  (r.1 = Raise ValueError ↔ on_cycle g = lit "error" ∧ rtc (edge_rel (adj g)) to from_node) ∧
  (r.1 = Raise ValueError ∨ r.1 = Ok tt) ∧
  (r.1 ≠ Ok tt → r.2 = g) ∧
  (r.1 = Ok tt → ∃ cond,
     match when with Some src => ∃ e, parse tables src = Ok e ∧ cond = Some e | None => cond = None end ∧
     adj r.2 = with_edge from_node {| edge_to := to; edge_when_src := when; edge_cond := cond |} (adj g) ∧
     graph_nodes r.2 = {[to]} ∪ ({[from_node]} ∪ graph_nodes g)).
Proof.
  intros Hf Ht Hw. cbv zeta.
  assert (∀ x s', HandoffGraph_add_edge tables from_node to when g = (Raise x, s') →
    x = ValueError ∧ on_cycle g = lit "error" ∧ rtc (edge_rel (adj g)) to from_node) as Hraise.
  { intros x s'. unfold HandoffGraph_add_edge, as_opt_string, as_string, mbind, pym_bind, lift.
    rewrite !decide_True by done. destruct (cycle_check_spec from_node to g) as (b&Hb&Hiff).
    destruct when as [src|]; simpl.
    - destruct (Hw src eq_refl) as [Hv Hp]. rewrite decide_True by done. simpl.
      destruct (parse tables src); [|done..]. simpl. rewrite Hb. destruct b; [|done]. simpl.
      intros [= <- <-]. by apply proj1 in Hiff; split; [|apply Hiff].
    - rewrite Hb. destruct b; [|done]. simpl. intros [= <- <-]. by apply proj1 in Hiff; split; [|apply Hiff]. }
  destruct (add_edge_spec from_node to when g) as [x Hx|Hm Hr|cond Hc Hcond]; simpl.
  - destruct (Hraise x g eq_refl) as (->&?&?). split_and!; [done|by left|done|done].
  - split_and!; [done|by left|done|done].
  - split_and!; [split; [done|]|by right|done|].
    + intros [Hm Hr]. by destruct (Hc Hm).
    + intros _. by exists cond.
Qed.

(** ** Routing *)

Lemma edges_paths_vars es p : p ∈ edges_paths es ↔ ∃ e c, e ∈ es ∧ edge_cond e = Some c ∧ p ∈ vars c.
Proof.
  unfold edges_paths.
  enough (∀ out, p ∈ foldl (λ paths e, match edge_cond e with Some c => collect_paths c paths | None => paths end) out es ↔
    p ∈ out ∨ ∃ e c, e ∈ es ∧ edge_cond e = Some c ∧ p ∈ vars c) as H.
  { rewrite H, elem_of_nil. tauto. }
  induction es as [|e es IH]; intros out; simpl.
  - setoid_rewrite elem_of_nil. naive_solver.
  - rewrite IH. setoid_rewrite elem_of_cons. destruct (edge_cond e) as [c|] eqn:E.
    + rewrite collect_paths_vars. naive_solver.
    + naive_solver.
Qed.

(** On the paths the conditions of a node read, the partial state is the state. *)
Lemma partial_state_reads objs mode g n es state v :
  graph_ok mode g → adj g !! n = Some es → py_to_value state = Ok v →
  ∃ w, partial_state objs g n state = Ok w ∧
    ∀ e c, e ∈ es → edge_cond e = Some c → eval c w = eval c v.
Proof.
  intros Hg Hes Hv. unfold partial_state. rewrite (ok_paths _ _ Hg n), Hes. cbn [fmap option_fmap option_map].
  destruct (drop_covered_spec (edges_paths es)) as (Hfree&Hsub&Hcov).
  assert (∀ k, k ∈ drop_covered_paths (edges_paths es) → k ≠ []) as Hne.
  { intros k Hk ->. apply Hsub, edges_paths_vars in Hk as (e&c&He&Hc&Hin). by eapply (ok_named _ _ Hg). }
  destruct (add_paths_look objs state v 0 (drop_covered_paths (edges_paths es)) []) as (pairs&Hp&Hin&_).
  { done. }
  { by apply prefix_free_apart. }
  { intros [|seg p] Hp; [by destruct (Hne [] Hp)|done]. }
  rewrite Hp. exists (VMap pairs). split; [done|]. intros e c He Hc. apply eval_reads. intros p Hpv.
  destruct (Hcov p) as (k&Hk&rest&->); [apply edges_paths_vars; by eauto|]. by apply Hin.
Qed.

Lemma first_match_ext w v es :
  (∀ e c, e ∈ es → edge_cond e = Some c → eval c w = eval c v) → first_match w es = first_match v es.
Proof.
  induction es as [|e es IH]; intros H; simpl; [done|].
  rewrite IH by (intros ? ? ?; apply H; by right). unfold edge_matches, eval_truthy.
  destruct (edge_cond e) as [c|] eqn:E; [|done]. by rewrite (H e c) by (done || left).
Qed.

(** [first_match] is the first edge, in the order they were added, that matches. *)
Lemma first_match_spec v es :
  match first_match v es with
  | Some to => ∃ before e after, es = before ++ e :: after ∧ edge_to e = to ∧ edge_matches v e = true ∧
      Forall (λ e, edge_matches v e = false) before
  | None => Forall (λ e, edge_matches v e = false) es
  end.
Proof.
  induction es as [|e es IH]; simpl; [constructor|]. destruct (edge_matches v e) eqn:E.
  - exists [], e, es. by split_and!.
  - destruct (first_match v es) as [to|]; [|by constructor].
    destruct IH as (before&e'&after&->&Hto&Hm&Hb). exists (e :: before), e', after. split_and!; [done..|by constructor].
Qed.

(** C28: [route] looks at the parts of the state the conditions name and still decides as
    if it had the whole: on a state that converts to a value [v], it returns (it never
    raises) the target of the first edge of the node, in the order they were added,
    whose condition holds in [v], and nothing if there is none. [handoff_router] then
    returns that target, or the default it was given, or [END]. *)
Theorem route_first_match objs mode calls g0 node state v end_name default :
  HandoffGraph_new mode = Ok g0 → valid_text node → py_to_value state = Ok v →
  let g := build calls g0 in
  let es := from_option id [] (adj g !! node) in
  ∃ target, HandoffGraph_route objs g node (Some state) = Ok target ∧
    match target with
    | Some to => ∃ before e after, es = before ++ e :: after ∧ edge_to e = to ∧ edge_matches v e = true ∧
        Forall (λ e, edge_matches v e = false) before
    | None => Forall (λ e, edge_matches v e = false) es
    end ∧
    handoff_router objs end_name g node default (Some state) =
      Ok (from_option id (from_option id end_name default) target).
Proof.
  intros Hnew%new_ok Hnode Hv. cbv zeta. pose proof (build_ok _ calls _ Hnew) as Hg.
  set (g := build calls g0) in *.
  assert (HandoffGraph_route objs g node (Some state) = Ok (first_match v (from_option id [] (adj g !! node)))) as Hr.
  { unfold HandoffGraph_route, as_string. rewrite decide_True by done. simpl.
    destruct (adj g !! node) as [es|] eqn:E; simpl.
    - destruct (partial_state_reads objs _ g node es state v Hg E Hv) as (w&->&Heval). simpl.
      by rewrite (first_match_ext w v es Heval).
    - unfold partial_state. by rewrite (ok_paths _ _ Hg node), E. }
  eexists. split; [exact Hr|]. split; [apply first_match_spec|]. unfold handoff_router. by rewrite Hr.
Qed.
End Calls.

(** ** The properties at concrete graphs *)

Definition no_objects : Objects :=
  {| obj_is_mapping := λ _, false; obj_getitem := λ _ _, Raise KeyError; obj_getattr := λ _ _, Raise AttributeError |}.

Definition ex_calls : list graph_call :=
  [AddNode (lit "alone");
   AddEdge (lit "triage") (lit "gold") (Some (lit "user.tier == 'gold' and not user.banned"));
   AddEdge (lit "triage") (lit "billing") (Some (lit "category in ['billing', 'refund']"));
   AddEdge (lit "billing") (lit "triage") None;
   AddEdge (lit "triage") (lit "broken") (Some (lit "category = 1"));
   AddEdge (lit "triage") (lit "support") None].

Definition ex_state : pyval :=
  PDict [(key "category", PStr (lit "refund")); (key "user", PDict [(key "tier", PStr (lit "free"))]);
         (key "messages", PList [PInt 1; PInt 2])].

Definition ex_graph (mode : pystr) : HandoffGraph :=
  {| adj := ∅; graph_nodes := ∅; on_cycle := mode; node_paths := ∅ |}.

(** The edge back to [triage] and the edge without a condition that parses are refused. *)
Lemma graph_acyclic_witness :
  HandoffGraph_is_dag (build ascii_only ex_calls (ex_graph (lit "error"))) = Ok true ∧
  HandoffGraph_is_dag (build ascii_only ex_calls (ex_graph (lit "allow"))) = Ok false.
Proof.
  split.
  - destruct (graph_acyclic ascii_only (lit "error") ex_calls (ex_graph (lit "error")) eq_refl) as (b&Hb&_&Ht).
    rewrite Hb, (Ht eq_refl). reflexivity.
  - vm_compute. reflexivity.
Defined.

Lemma add_edge_exact_witness :
  (HandoffGraph_add_edge ascii_only (lit "billing") (lit "triage") None
     (build ascii_only ex_calls (ex_graph (lit "error")))).1 = Raise ValueError ∧
  rtc (edge_rel (adj (build ascii_only ex_calls (ex_graph (lit "error"))))) (lit "triage") (lit "billing").
Proof.
  destruct (add_edge_exact ascii_only (lit "billing") (lit "triage") None
    (build ascii_only ex_calls (ex_graph (lit "error")))) as (Hiff&_).
  - by apply (bool_decide_unpack _).
  - by apply (bool_decide_unpack _).
  - intros src Hsrc. discriminate Hsrc.
  - assert ((HandoffGraph_add_edge ascii_only (lit "billing") (lit "triage") None
      (build ascii_only ex_calls (ex_graph (lit "error")))).1 = Raise ValueError) as E by (vm_compute; reflexivity).
    split; [exact E|]. exact (proj2 (proj1 Hiff E)).
Defined.

(** [billing]: the condition of the first edge reads two paths under [user], one of
    them missing; [messages] is not read at all. *)
Lemma route_first_match_witness : ∃ v, py_to_value ex_state = Ok v ∧
  HandoffGraph_route no_objects (build ascii_only ex_calls (ex_graph (lit "error"))) (lit "triage") (Some ex_state)
    = Ok (Some (lit "billing")) ∧
  handoff_router no_objects (lit "__end__") (build ascii_only ex_calls (ex_graph (lit "error"))) (lit "triage")
    None (Some ex_state) = Ok (lit "billing").
Proof.
  destruct (py_to_value ex_state) as [v| |] eqn:Ev; [|discriminate Ev|discriminate Ev].
  destruct (route_first_match ascii_only no_objects (lit "error") ex_calls (ex_graph (lit "error")) (lit "triage")
    ex_state v (lit "__end__") None eq_refl ltac:(by apply (bool_decide_unpack _)) Ev) as (target&Hr&_&Hh).
  exists v. split; [reflexivity|].
  assert (HandoffGraph_route no_objects (build ascii_only ex_calls (ex_graph (lit "error"))) (lit "triage") (Some ex_state)
    = Ok (Some (lit "billing"))) as E by (vm_compute; reflexivity).
  split; [exact E|]. rewrite E in Hr. injection Hr as <-. exact Hh.
Defined.

(** ** What the evaluator does with numbers, and what a state may not hold *)

Definition holds (src : String.string) (state : Value) : result bool :=
  e ← parse ascii_only (lit src); Ok (eval_truthy e state).

(** Integers compare as floats, so large ones that differ are equal. *)
Example large_ints_equal : holds "9007199254740993 == 9007199254740992" VNil = Ok true.
Proof. vm_compute. reflexivity. Qed.

(** An integer equals a float, but not inside a list. *)
Example nested_numbers_differ : holds "1 == 1.0" VNil = Ok true ∧ holds "[1] == [1.0]" VNil = Ok false.
Proof. split; vm_compute; reflexivity. Qed.

(** [!=] and [not in] hold between values of different types. *)
Example mismatch_true : holds "'a' != 1 and 'a' not in 1 and not ('a' < 1)" VNil = Ok true.
Proof. vm_compute. reflexivity. Qed.

(** A state with a value no condition can read, at a path one reads. *)
Example route_raises :
  HandoffGraph_route no_objects (build ascii_only ex_calls (ex_graph (lit "error"))) (lit "triage")
    (Some (PDict [(key "category", PObject 0)])) = Raise TypeError.
Proof. vm_compute. reflexivity. Qed.
