(* ===== verification/Crew.v ===== *)
(** * The CrewAI memory store

    [python/swarmstate/integrations/crewai.py]: [SwarmStateStorage] over any store
    of the contract. The eight random hex digits of a key are an argument of
    [save], and so is [str(v)] of a value that is not a string (an object's
    [__str__] is its own). The lock of [_next_key] makes its body one step, which
    is how it is modelled. *)

From Stdlib Require Import ZifyBool.
From S2P Require Import Prelude PyValue PyFloat Store.

(** ** Tokens *)

(** A character of [_TOKEN]'s class [[a-z0-9]]. *)
Definition is_token (c : N) : bool := is_digit c || ((97 <=? c)%N && (c <=? 122)%N).

(** [c.lower()], as far as [_TOKEN] can tell: besides A-Z, the Kelvin sign and the
    dotted capital I are the code points whose lower case has an ASCII letter; any
    other lower case is outside the class, as the character itself is. *)
Definition lower_char (c : N) : pystr :=
  if (65 <=? c)%N && (c <=? 90)%N then [(c + 32)%N]
  else if (c =? 0x212a)%N then [107%N]
  else if (c =? 0x130)%N then [105%N; 0x307%N]
  else [c].

Definition lower (text : pystr) : pystr := text ≫= lower_char.

(** [_TOKEN.findall(s)]: the maximal runs; [run] is the one being read. *)
Fixpoint findall (s run : pystr) : list pystr :=
  match s with
  | [] => match run with [] => [] | _ => [run] end
  | c :: s' =>
      if is_token c then findall s' (run ++ [c])
      else match run with [] => findall s' [] | _ => run :: findall s' [] end
  end.

(** [_tokens] *)
Definition tokens (text : pystr) : gset pystr := list_to_set (findall (lower text) []).

(** [_tokens] of a value of an entry *)
Definition value_tokens (v : pyval) : result (gset pystr) :=
  match v with
  | PStr s => Ok (tokens s)
  | PBytes _ => Raise TypeError
  | _ => Raise AttributeError
  end.

(** ** Text *)

Section Text.
Context (str_of : pyval → pystr).

(** [f"{v}"] and [str(v)] *)
Definition py_format (v : pyval) : pystr := match v with PStr s => s | _ => str_of v end.

(** [" ".join(parts)] *)
Definition join_spaces (parts : list pystr) : pystr := join_with 32 parts.

(** [_as_text] *)
Definition as_text (value : pyval) : pystr :=
  match value with
  | PStr s => s
  | PDict d => join_spaces ((λ kv, py_format kv.1 ++ lit ": " ++ py_format kv.2) <$> d)
  | _ => str_of value
  end.
End Text.

(** ** The storage *)

Record SwarmStateStorage (S : Type) := {
  crew_store : S;
  crew_namespace : pystr;
  crew_seq : option Z;
}.
Arguments crew_store {S}. Arguments crew_namespace {S}. Arguments crew_seq {S}.

(** [SwarmStateStorage.__init__] *)
Definition SwarmStateStorage_init {S} (store : S) (namespace : pystr) : SwarmStateStorage S :=
  {| crew_store := store; crew_namespace := namespace; crew_seq := None |}.

Definition set_crew_store {S} (st : S) (c : SwarmStateStorage S) : SwarmStateStorage S :=
  {| crew_store := st; crew_namespace := crew_namespace c; crew_seq := crew_seq c |}.
Definition set_crew_seq {S} (n : Z) (c : SwarmStateStorage S) : SwarmStateStorage S :=
  {| crew_store := crew_store c; crew_namespace := crew_namespace c; crew_seq := Some n |}.

(** The number a key starts with: [int(key.split("-", 1)[0])]. *)
Definition key_seq (k : pystr) : option Z := from_option py_int None (head (split_on 45 k)).

(** [f"{seq:012d}"]: zeros between the sign and the digits, up to width 12. *)
Definition pad12 (z : Z) : pystr :=
  let d := digits (Z.abs_N z) in
  let sign := if (z <? 0)%Z then [45%N] else [] in
  sign ++ replicate (12 - length sign - length d) 48%N ++ d.

(** The key of a sequence number and a random suffix. *)
Definition crew_key (seq : Z) (suffix : pystr) : pystr := pad12 seq ++ 45%N :: suffix.

Section Storage.
Context {S : Type} (ops : StoreOps S) (str_of : pyval → pystr).
Implicit Types c : SwarmStateStorage S.

Definition on_crew {A} (m : PyM S A) : PyM (SwarmStateStorage S) A := act (λ c,
  let '(r, st) := m (crew_store c) in (r, set_crew_store st c)).

Definition crew_keys : PyM (SwarmStateStorage S) (list pystr) :=
  ns ← gets crew_namespace; on_crew (op_keys ns None).

(** [_highest_seq] *)
Definition highest_seq : PyM (SwarmStateStorage S) Z :=
  ks ← crew_keys;
  mret (foldl (λ highest k, from_option (Z.max highest) highest (key_seq k)) 0%Z ks).

(** [_next_key] *)
Definition next_key (suffix : pystr) : PyM (SwarmStateStorage S) pystr :=
  known ← gets crew_seq;
  seq ← match known with Some n => mret n | None => highest_seq end;
  modify (set_crew_seq (seq + 1)%Z) ;;
  mret (crew_key (seq + 1) suffix).

(** [save] *)
Definition crew_entry (value : pyval) (metadata : option pyval) : pyval :=
  PDict [(key "value", PStr (as_text str_of value));
         (key "metadata", match metadata with
                          | Some md => if truthy md then md else PDict []
                          | None => PDict []
                          end)].

Definition save (value : pyval) (metadata : option pyval) (suffix : pystr)
    : PyM (SwarmStateStorage S) unit :=
  ns ← gets crew_namespace;
  k ← next_key suffix;
  on_crew (op_set ns k (crew_entry value metadata)).

(** [len(q & _tokens(text)) / len(q)], as the bits of the float *)
Definition overlap_score (q t : gset pystr) : Z :=
  float_ratio (Z.of_nat (size (q ∩ t))) (Z.of_nat (size q)).

(** A result of [search] before it is formatted: key, score, entry. *)
Definition hit : Type := pystr * Z * pyval.

(** The loop of [search], on one key. *)
Definition search_step (q : gset pystr) (threshold : Z) (results : list hit) (k : pystr)
    : PyM (SwarmStateStorage S) (list hit) :=
  ns ← gets crew_namespace;
  entry ← on_crew (op_get ns k);
  if negb (truthy entry) then mret results
  else
    text ← lift (py_get_default entry (key "value") (PStr []));
    score ← (if bool_decide (q = ∅) then mret 0%Z
             else t ← lift (value_tokens text); mret (overlap_score q t));
    mret (if num_leb (num_of_bits threshold) (num_of_bits score)
          then results ++ [(k, score, entry)] else results).

(** [key=lambda r: (r[1], r[0]), reverse=True]; scores are not negative, so they
    compare as their bits ([nonneg_float_order]). *)
Definition hit_before (a b : hit) : Prop :=
  (b.1.2 < a.1.2)%Z ∨ a.1.2 = b.1.2 ∧ str_le b.1.1 a.1.1.

#[global] Instance hit_before_dec : RelDecision hit_before.
Proof. intros a b. unfold hit_before. apply _. Defined.

(** [l[:limit]] *)
Definition slice_to {A} (limit : Z) (l : list A) : list A :=
  if (limit <? 0)%Z then take (length l - Z.to_nat (- limit)) l else take (Z.to_nat limit) l.

Definition format_hit (h : hit) : result pyval :=
  context ← py_getitem h.2 (key "value");
  metadata ← py_get_default h.2 (key "metadata") (PDict []);
  Ok (PDict [(key "context", context); (key "metadata", metadata);
             (key "score", PFloat (round4 h.1.2))]).

(** [search] *)
Definition search (query : pystr) (limit threshold : Z)
    : PyM (SwarmStateStorage S) (list pyval) :=
  ks ← crew_keys;
  results ← for_fold ks (search_step (tokens query) threshold) [];
  lift (mapM format_hit (slice_to limit (merge_sort hit_before results))).

(** [reset] *)
Definition crew_reset : PyM (SwarmStateStorage S) unit :=
  ks ← crew_keys;
  for_each ks (λ k, ns ← gets crew_namespace; on_crew (op_delete ns k) ;; mret tt).

(** [__len__], [__repr__] *)
Definition crew_len : PyM (SwarmStateStorage S) Z :=
  ks ← crew_keys; mret (Z.of_nat (length ks)).

Definition crew_repr : PyM (SwarmStateStorage S) pystr :=
  ns ← gets crew_namespace;
  n ← crew_len;
  mret (lit "SwarmStateStorage(namespace='" ++ ns ++ lit "', entries=" ++ str_of_Z n ++ lit ")").
End Storage.

Example tokens_churn : findall (lower (lit "The Q2 churn-rate was 4.1%")) [] =
  lit <$> ["the"; "q2"; "churn"; "rate"; "was"; "4"; "1"].
Proof. reflexivity. Qed.

Example first_key : crew_key 1 (lit "0badcafe") = lit "000000000001-0badcafe".
Proof. reflexivity. Qed.
