(* ===== verification/CrewTheorems.v ===== *)
(** * Properties of the CrewAI memory store

    A saved memory gets a key of its own, after every key it has given out; a
    search returns the best matches, best first. *)

From Stdlib Require Import ZifyBool.
From S2P Require Import Prelude PyValue PyFloat Store Crew.

#[local] Arguments lit : simpl never.

(** ** Lemmas: keys *)

Lemma dec_value_acc l acc :
  dec_value l acc = (acc * 10 ^ N.of_nat (length l) + dec_value l 0)%N.
Proof.
  revert acc. induction l as [|c l IH]; intros acc; unfold dec_value in *; cbn [foldl length].
  - change (10 ^ N.of_nat 0)%N with 1%N. lia.
  - rewrite IH, (IH (0 * 10 + (c - 48))%N), Nat2N.inj_succ, N.pow_succ_r'. lia.
Qed.

Lemma dec_value_bound l : Forall (λ c, is_digit c = true) l → (dec_value l 0 < 10 ^ N.of_nat (length l))%N.
Proof.
  induction 1 as [|c l Hc _ IH]; [done|]. unfold is_digit in Hc. cbn [length].
  change (dec_value (c :: l) 0) with (dec_value l (0 * 10 + (c - 48))%N). rewrite dec_value_acc.
  rewrite Nat2N.inj_succ, N.pow_succ_r'. nia.
Qed.

Lemma dec_value_zeros n l : dec_value (replicate n 48%N ++ l) 0 = dec_value l 0.
Proof. induction n as [|n IH]; [done|]. exact IH. Qed.

(** Digit strings of one length are ordered as their values, whatever follows. *)
Lemma digits_order l l' t t' :
  Forall (λ c, is_digit c = true) l → Forall (λ c, is_digit c = true) l' →
  length l = length l' → (dec_value l 0 < dec_value l' 0)%N → str_lt (l ++ t) (l' ++ t').
Proof.
  intros Hl. revert l'. induction Hl as [|c l Hc Hl IH]; intros l' Hl' Hlen Hlt.
  { by destruct l'. }
  destruct Hl' as [|c' l' Hc' Hl']; [done|]. injection Hlen as Hlen.
  change (dec_value (c :: l) 0) with (dec_value l (0 * 10 + (c - 48))%N) in Hlt.
  change (dec_value (c' :: l') 0) with (dec_value l' (0 * 10 + (c' - 48))%N) in Hlt.
  rewrite (dec_value_acc l), (dec_value_acc l'), Hlen in Hlt.
  pose proof (dec_value_bound l Hl) as Hb. pose proof (dec_value_bound l' Hl') as Hb'.
  rewrite Hlen in Hb. unfold is_digit in Hc, Hc'.
  unfold str_lt, str_ltb. apply negb_true_iff. cbn [app str_leb].
  destruct (N.ltb_spec c' c); [nia|]. destruct (N.ltb_spec c c'); [done|].
  assert (c = c') as -> by lia. apply negb_true_iff. apply IH; [done..|nia].
Qed.

Lemma digits_fuel_length fuel n k :
  (1 ≤ k)%nat → (n < 10 ^ N.of_nat k)%N → (length (digits_fuel fuel n) ≤ k)%nat.
Proof.
  revert n k. induction fuel as [|fuel IH]; intros n k Hk Hn; cbn [digits_fuel]; [cbn; lia|].
  rewrite length_app. cbn [length]. destruct (N.ltb_spec n 10); [cbn; lia|].
  destruct k as [|[|k]]; [lia|lia|].
  assert (length (digits_fuel fuel (n / 10)) ≤ S k)%nat; [|lia]. apply IH; [lia|].
  apply N.Div0.div_lt_upper_bound. by rewrite <-N.pow_succ_r', <-Nat2N.inj_succ.
Qed.

Lemma pad12_nonneg z : (0 ≤ z)%Z →
  pad12 z = replicate (12 - length (digits (Z.to_N z))) 48%N ++ digits (Z.to_N z).
Proof.
  intros Hz. unfold pad12. destruct (Z.ltb_spec z 0); [lia|].
  by replace (Z.abs_N z) with (Z.to_N z) by lia.
Qed.

Lemma pad12_digits z : (0 ≤ z)%Z → Forall (λ c, is_digit c = true) (pad12 z).
Proof.
  intros Hz. rewrite pad12_nonneg by done. apply Forall_app. split; [|apply digits_is_digit].
  by apply Forall_replicate.
Qed.

Lemma pad12_value z : (0 ≤ z)%Z → dec_value (pad12 z) 0 = Z.to_N z.
Proof.
  intros Hz. rewrite pad12_nonneg, dec_value_zeros by done. unfold digits. apply dec_value_digits.
  rewrite Nat2N.inj_succ, N2Nat.id.
  eapply N.lt_trans; [apply N.size_gt|]. apply N.pow_lt_mono_r; lia.
Qed.

Lemma pad12_length z : (0 ≤ z < 10 ^ 12)%Z → length (pad12 z) = 12%nat.
Proof.
  intros Hz. rewrite pad12_nonneg, length_app, length_replicate by lia.
  assert (length (digits (Z.to_N z)) ≤ 12)%nat; [|lia].
  apply digits_fuel_length; [lia|]. change (10 ^ N.of_nat 12)%N with (Z.to_N (10 ^ 12)). lia.
Qed.

Lemma py_int_digits l :
  Forall (λ c, is_digit c = true) l → l ≠ [] → py_int l = Some (Z.of_N (dec_value l 0)).
Proof.
  intros Hl Hne. unfold py_int. rewrite strip_id.
  2:{ eapply Forall_impl; [exact Hl|]. apply digit_not_space. }
  destruct Hl as [|c l Hc Hl]; [done|]. unfold is_digit in Hc.
  destruct (N.eqb_spec c 45); [lia|]. destruct (N.eqb_spec c 43); [lia|].
  rewrite parse_digits_all; [done| |by left]. by constructor.
Qed.

(** The sequence number is read back from a key. *)
Lemma key_seq_crew_key z suffix : (0 ≤ z)%Z → key_seq (crew_key z suffix) = Some z.
Proof.
  intros Hz. unfold key_seq, crew_key. rewrite split_on_app.
  - cbn [head from_option]. rewrite py_int_digits; [|by apply pad12_digits|].
    + rewrite pad12_value by done. f_equal. lia.
    + rewrite pad12_nonneg by done. intros [_ ?]%app_eq_nil. by eapply digits_not_nil.
  - intros Hin. pose proof (pad12_digits z Hz) as Hd. rewrite Forall_forall in Hd.
    specialize (Hd _ Hin). done.
Qed.

(** Up to a million million, keys sort in the order of their numbers. *)
Lemma crew_key_order m n s t :
  (0 ≤ m < n)%Z → (n < 10 ^ 12)%Z → str_lt (crew_key m s) (crew_key n t).
Proof.
  intros Hm Hn. apply digits_order; [apply pad12_digits; lia..| |].
  - by rewrite !pad12_length by lia.
  - rewrite !pad12_value by lia. lia.
Qed.

Lemma crew_key_valid z suffix : (0 ≤ z)%Z → valid_text suffix → valid_text (crew_key z suffix).
Proof.
  intros Hz Hs. apply valid_text_app. split; [|by apply valid_text_cons].
  eapply Forall_impl; [by apply pad12_digits|]. intros c Hc.
  unfold is_digit in Hc. unfold scalar, is_surrogate. lia.
Qed.

(** ** Lemmas: the store behind the storage *)

Section Crewed.
Context {S : Type} {ops : StoreOps S} {spec : StoreSpec S}.
Implicit Types c : SwarmStateStorage S.

Definition cview c : kv := sv_view (crew_store c).
Definition cok c : Prop := sv_ok (crew_store c) ∧ valid_text (crew_namespace c).

(** [c'] is [c] with content [m]. *)
Definition with_view (m : kv) c c' : Prop :=
  cok c' ∧ cview c' = m ∧ crew_namespace c' = crew_namespace c ∧ crew_seq c' = crew_seq c.

Lemma on_crew_wp {A} (m : PyM S A) c (view : kv) (P : A → Prop) :
  cok c →
  wp m (crew_store c) (λ a st, (sv_ok st ∧ sv_view st = view) ∧ P a) →
  wp (on_crew m) c (λ a c', with_view view c c' ∧ P a).
Proof.
  intros [_ Hns] (a&st&E&[Hst Hv]&HP)%wp_elim. unfold wp, on_crew, act. rewrite E.
  split; [|done]. by split_and!.
Qed.

Lemma crew_set_wp c k v :
  cok c → valid_text k → storable v →
  wp (on_crew (op_set (crew_namespace c) k v)) c (λ _ c',
    with_view (<[(crew_namespace c, k) := v]> (cview c)) c c').
Proof.
  intros Hc Hk Hv. eapply wp_mono.
  - apply (on_crew_wp _ c (<[(crew_namespace c, k) := v]> (cview c)) (λ _, True) Hc).
    eapply wp_mono; [apply set_spec; [apply Hc..|done|done]|]. by intros [] st ?.
  - by intros [] c' [? _].
Qed.

Lemma crew_delete_wp c k :
  cok c → valid_text k →
  wp (on_crew (op_delete (crew_namespace c) k)) c (λ _ c',
    with_view (delete (crew_namespace c, k) (cview c)) c c').
Proof.
  intros Hc Hk. eapply wp_mono.
  - apply (on_crew_wp _ c (delete (crew_namespace c, k) (cview c))
      (λ b, b = bool_decide (is_Some (cview c !! (crew_namespace c, k)))) Hc).
    apply delete_spec; [apply Hc..|done].
  - by intros b c' [? _].
Qed.

Lemma crew_keys_wp c :
  cok c → wp (crew_keys ops) c (λ l c', with_view (cview c) c c' ∧
    lists_keys (cview c) (crew_namespace c) None l).
Proof.
  intros Hc. unfold crew_keys. apply wp_bind, wp_gets. apply on_crew_wp; [done|].
  by apply keys_spec; apply Hc.
Qed.

(** The memories of a storage: what its namespace holds. *)
Definition stored c (k : pystr) (v : pyval) : Prop := cview c !! (crew_namespace c, k) = Some v.

(** Every number a key of the namespace starts with is at most [n]. *)
Definition seqs_below c (n : Z) : Prop :=
  ∀ k v z, stored c k v → key_seq k = Some z → (z ≤ n)%Z.

(** The cached sequence number is not behind the keys. *)
Definition seq_ok c : Prop :=
  match crew_seq c with None => True | Some n => (0 ≤ n)%Z ∧ seqs_below c n end.

Lemma highest_seq_wp c :
  cok c → wp (highest_seq ops) c (λ n c', with_view (cview c) c c' ∧ (0 ≤ n)%Z ∧ seqs_below c n).
Proof.
  intros Hc. unfold highest_seq. eapply wp_bind_mono; [by apply crew_keys_wp|].
  intros ks c' [Hc' [_ Hks]]. apply wp_ret. split; [done|].
  set (f := λ highest k, from_option (Z.max highest) highest (key_seq k)).
  assert (∀ l h, (h ≤ foldl f h l)%Z ∧
    ∀ k z, k ∈ l → key_seq k = Some z → (z ≤ foldl f h l)%Z) as Hmax.
  { induction l as [|k l IH]; intros h; cbn [foldl]; [split; [lia|by intros ?? ?%not_elem_of_nil]|].
    destruct (IH (f h k)) as [Hge Hle].
    assert (h ≤ f h k)%Z by (unfold f; destruct (key_seq k); cbn; lia).
    split; [lia|]. intros k' z [->|Hin]%elem_of_cons Hz; [|by eapply Hle].
    assert (z ≤ f h k)%Z by (unfold f; rewrite Hz; cbn; lia). lia. }
  destruct (Hmax ks 0%Z) as [H0 Hle]. split; [done|].
  intros k v z Hk. apply Hle. apply Hks. by split; [eexists|].
Qed.

(** The number of the next key, less one. *)
Lemma next_key_wp c suffix :
  cok c → seq_ok c →
  wp (next_key ops suffix) c (λ k c', ∃ n, k = crew_key (n + 1) suffix ∧ (0 ≤ n)%Z ∧
    seqs_below c n ∧ cok c' ∧ cview c' = cview c ∧ crew_namespace c' = crew_namespace c ∧
    crew_seq c' = Some (n + 1)%Z).
Proof.
  intros Hc Hseq. unfold next_key. apply wp_bind, wp_gets.
  assert (wp (match crew_seq c with Some n => mret n | None => highest_seq ops end) c
    (λ n c', with_view (cview c) c c' ∧ (0 ≤ n)%Z ∧ seqs_below c n)) as Hn.
  { unfold seq_ok in Hseq. destruct (crew_seq c) as [n|] eqn:E; [|by apply highest_seq_wp].
    apply wp_ret. split; [|done]. by split_and!. }
  eapply wp_bind_mono; [exact Hn|]. intros n c' ((Hc'&Hv&Hns&_)&H0&Hbelow).
  apply wp_bind, wp_modify, wp_ret. exists n. by split_and!.
Qed.

(** C23: [save] never overwrites a memory and keeps the order of saving: it adds one
    entry, whose key was not in use and (up to a million million entries) sorts
    after the key of everything saved before; nothing else in the store changes,
    and the cached sequence number stays ahead of the keys. *)
Theorem save_adds (str_of : pyval → pystr) c value metadata suffix :
  cok c → seq_ok c → valid_text suffix → storable (crew_entry str_of value metadata) →
  ∃ n c', save ops str_of value metadata suffix c = (Ok tt, c') ∧
    cview c !! (crew_namespace c, crew_key (n + 1) suffix) = None ∧
    cview c' = <[(crew_namespace c, crew_key (n + 1) suffix) := crew_entry str_of value metadata]>
                 (cview c) ∧
    (∀ m s v, (0 ≤ m)%Z → (n + 1 < 10 ^ 12)%Z → stored c (crew_key m s) v →
       str_lt (crew_key m s) (crew_key (n + 1) suffix)) ∧
    cok c' ∧ seq_ok c'.
Proof.
  intros Hc Hseq Hsuf Hst. unfold save.
  destruct (wp_elim _ _ _ (next_key_wp c suffix Hc Hseq))
    as (k&c1&Hk&n&->&H0&Hbelow&Hc1&Hv1&Hns1&Hseq1).
  destruct (wp_elim _ _ _ (crew_set_wp c1 (crew_key (n + 1) suffix) _ Hc1
    ltac:(apply crew_key_valid; [lia|done]) Hst)) as ([]&c'&Hset&Hc'&Hv'&Hns'&Hseq').
  rewrite Hns1 in *. rewrite Hv1 in Hv'.
  exists n, c'. split_and!; try done.
  - unfold mbind, pym_bind, gets. rewrite Hk. exact Hset.
  - destruct (cview c !! _) as [v|] eqn:E; [|done]. exfalso.
    pose proof (Hbelow _ v (n + 1)%Z E ltac:(apply key_seq_crew_key; lia)). lia.
  - intros m s v Hm Hlt Hsv. apply crew_key_order; [|done]. split; [done|].
    pose proof (Hbelow _ v m Hsv (key_seq_crew_key m s Hm)). lia.
  - unfold seq_ok. rewrite Hseq', Hseq1. split; [lia|]. intros k v z. unfold stored.
    rewrite Hv', Hns'. destruct (decide (crew_key (n + 1) suffix = k)) as [<-|Hne].
    + rewrite key_seq_crew_key by lia. intros _ [= <-]. lia.
    + rewrite lookup_insert_ne by congruence. intros Hk' Hz.
      pose proof (Hbelow k v z Hk' Hz). lia.
Qed.

Lemma kv_delete_many_snoc (pairs : list (pystr * pystr)) (p : pystr * pystr) (m : kv) :
  kv_delete_many (pairs ++ [p]) m = delete p (kv_delete_many pairs m).
Proof. unfold kv_delete_many. by rewrite foldl_app. Qed.

Lemma crew_reset_wp c :
  cok c → wp (crew_reset ops) c (λ _ c', cok c' ∧ crew_namespace c' = crew_namespace c ∧
    cview c' = kv_delete_namespace (crew_namespace c) (cview c)).
Proof.
  intros Hc. unfold crew_reset. eapply wp_bind_mono; [by apply crew_keys_wp|].
  intros ks c1 [(Hc1&Hv1&Hns1&_) [_ Hks]].
  eapply wp_mono.
  { apply (wp_for_each (λ done c', cok c' ∧ crew_namespace c' = crew_namespace c ∧
      cview c' = kv_delete_many ((λ k, (crew_namespace c, k)) <$> done) (cview c))); [done|].
    intros done k rest c' Hsplit (Hc'&Hns'&Hv'). apply wp_bind, wp_gets.
    assert (valid_text k) as Hk.
    { destruct (proj1 (Hks k)) as [[v Hkv] _]; [rewrite Hsplit; set_solver|].
      by apply (sv_text _ _ _ _ (proj1 Hc)) in Hkv as (_&?&_). }
    rewrite <-Hns'. eapply wp_bind_mono; [by apply crew_delete_wp|].
    intros b c2 (Hc2&Hv2&Hns2&_). apply wp_ret. split; [done|]. split; [congruence|].
    rewrite Hv2, fmap_app. rewrite list_fmap_singleton.
    by rewrite kv_delete_many_snoc, Hns', <-Hv'. }
  intros [] c' (Hc'&Hns'&Hv'). split; [done|]. split; [done|]. rewrite Hv'. apply map_eq. intros [ns k].
  rewrite kv_delete_many_lookup, kv_delete_namespace_lookup. cbn. case_decide as Hin; case_decide as Hd; try done.
  - apply list_elem_of_fmap in Hin as (?&[= -> ->]&_). done.
  - subst ns. destruct (cview c !! (crew_namespace c, k)) as [v|] eqn:E; [|done]. destruct Hin.
    apply list_elem_of_fmap. exists k. split; [done|]. apply Hks. by split; [eexists|].
Qed.

(** [reset] empties the namespace and nothing else: afterwards the storage has no
    memories ([len] is 0) and every other namespace of the store is as it was. *)
Theorem reset_empties c :
  cok c → ∃ c', crew_reset ops c = (Ok tt, c') ∧
    cview c' = kv_delete_namespace (crew_namespace c) (cview c) ∧
    (crew_len ops c').1 = Ok 0%Z.
Proof.
  intros Hc. destruct (wp_elim _ _ _ (crew_reset_wp c Hc)) as ([]&c'&Hrun&Hc'&Hns'&Hv'). exists c'. split_and!; [done..|].
  destruct (wp_elim _ _ _ (crew_keys_wp c' Hc')) as (ks&c2&Hks&_&_&Hl).
  unfold crew_len, mbind, pym_bind. rewrite Hks. cbn. f_equal.
  destruct ks as [|k ks]; [done|]. exfalso. destruct (proj1 (Hl k)) as [[v Hv] _]; [by left|].
  rewrite Hv', kv_delete_namespace_lookup, Hns' in Hv. cbn in Hv. by rewrite decide_True in Hv.
Qed.

(** ** Lemmas: searching *)

(** A memory as [save] writes it. *)
Definition memory (text : pystr) (md : pyval) : pyval :=
  PDict [(key "value", PStr text); (key "metadata", md)].

Definition memory_text (v : pyval) : pystr :=
  match v with PDict ((_, PStr t) :: _) => t | _ => [] end.
Definition memory_data (v : pyval) : pyval :=
  match v with PDict [_; (_, md)] => md | _ => PNone end.

Definition is_memory (v : pyval) : Prop := v = memory (memory_text v) (memory_data v).

(** How many of the query's tokens an entry has, and the score that makes. *)
Definition overlap (q : gset pystr) (v : pyval) : nat := size (q ∩ tokens (memory_text v)).
Definition score (q : gset pystr) (v : pyval) : Z :=
  if bool_decide (q = ∅) then 0%Z else overlap_score q (tokens (memory_text v)).
Definition passes (q : gset pystr) (threshold : Z) (v : pyval) : bool :=
  num_leb (num_of_bits threshold) (num_of_bits (score q v)).

Definition hit_of (q : gset pystr) (e : pystr * pyval) : hit := (e.1, score q e.2, e.2).

(** What [search] returns for an entry. *)
Definition found (q : gset pystr) (e : pystr * pyval) : pyval :=
  PDict [(key "context", PStr (memory_text e.2)); (key "metadata", memory_data e.2);
         (key "score", PFloat (round4 (score q e.2)))].

Lemma format_hit_memory q e : is_memory e.2 → format_hit (hit_of q e) = Ok (found q e).
Proof. destruct e as [k v]. intros Hv. unfold format_hit, hit_of. cbn [fst snd] in *. by rewrite Hv. Qed.

Lemma mapM_format q l :
  Forall (λ e, is_memory e.2) l → mapM format_hit (hit_of q <$> l) = Ok (found q <$> l).
Proof.
  induction 1 as [|e l He _ IH]; [done|]. cbn [fmap list_fmap mapM].
  rewrite format_hit_memory by done. cbn [mbind result_bind]. by rewrite IH.
Qed.

(** [a] is ranked before [b]: a larger overlap, or the same and a later key. *)
Definition better (q : gset pystr) (a b : pystr * pyval) : Prop :=
  overlap q b.2 < overlap q a.2 ∨ overlap q a.2 = overlap q b.2 ∧ str_le b.1 a.1.

Lemma size_overlap (q t : gset pystr) : size (q ∩ t) ≤ size q.
Proof. apply subseteq_size. set_solver. Qed.

Lemma score_order q v w :
  (Z.of_nat (size q) < 2 ^ 51)%Z → q ≠ ∅ →
  (score q v < score q w)%Z ↔ overlap q v < overlap q w.
Proof.
  intros Hq Hne. unfold score. rewrite bool_decide_eq_false_2 by done. unfold overlap_score, overlap.
  pose proof (size_overlap q (tokens (memory_text v))). pose proof (size_overlap q (tokens (memory_text w))).
  destruct (Nat.lt_trichotomy (size (q ∩ tokens (memory_text v))) (size (q ∩ tokens (memory_text w))))
    as [Hlt|[->|Hgt]]; [|lia|].
  - pose proof (float_ratio_mono (Z.of_nat (size (q ∩ tokens (memory_text v))))
      (Z.of_nat (size (q ∩ tokens (memory_text w)))) (Z.of_nat (size q))). lia.
  - pose proof (float_ratio_mono (Z.of_nat (size (q ∩ tokens (memory_text w))))
      (Z.of_nat (size (q ∩ tokens (memory_text v)))) (Z.of_nat (size q))). lia.
Qed.

Lemma hit_before_better q a b :
  (Z.of_nat (size q) < 2 ^ 51)%Z → hit_before (hit_of q a) (hit_of q b) ↔ better q a b.
Proof.
  intros Hq. unfold hit_before, better, hit_of. cbn [fst snd].
  destruct (decide (q = ∅)) as [->|Hne].
  - unfold score, overlap. rewrite bool_decide_eq_true_2 by done.
    assert (∀ t : gset pystr, size (∅ ∩ t) = 0) as Hsz
      by (intros t; assert (∅ ∩ t = ∅) as -> by set_solver; apply size_empty).
    rewrite !Hsz. intuition lia.
  - pose proof (score_order q a.2 b.2 Hq Hne). pose proof (score_order q b.2 a.2 Hq Hne).
    intuition lia.
Qed.

#[local] Instance hit_before_total : Total hit_before.
Proof.
  intros [[k x] v] [[k' y] w]. unfold hit_before. cbn.
  destruct (Z.lt_trichotomy x y) as [?|[->|?]]; [auto| |auto].
  destruct (str_leb_total k k'); auto.
Qed.

#[local] Instance hit_before_trans : Transitive hit_before.
Proof.
  intros [[k x] v] [[k' y] w] [[k'' z] u]. unfold hit_before. cbn.
  intros [?|[-> ?]] [?|[-> ?]]; [left; lia|auto|auto|right]. split; [done|]. by etrans.
Qed.

(** The loop of [search] collects the entries that pass. *)
Lemma search_loop_wp q threshold c (ks : list pystr) :
  cok c → (∀ k, k ∈ ks → ∃ v, stored c k v ∧ is_memory v) →
  wp (for_fold ks (search_step ops q threshold) []) c (λ results c',
    with_view (cview c) c c' ∧ ∃ l, results = hit_of q <$> l ∧
    l = filter (λ e, passes q threshold e.2 = true)
          ((λ k, (k, kv_get (cview c) (crew_namespace c) k)) <$> ks)).
Proof.
  intros Hc Hks.
  apply (wp_for_fold (λ done results c', with_view (cview c) c c' ∧ ∃ l, results = hit_of q <$> l ∧
    l = filter (λ e, passes q threshold e.2 = true)
          ((λ k, (k, kv_get (cview c) (crew_namespace c) k)) <$> done))).
  { split; [by split_and!|]. by exists []. }
  intros done k rest results c' Hsplit [(Hc'&Hv'&Hns'&Hs') (l&->&->)].
  destruct (Hks k ltac:(rewrite Hsplit; set_solver)) as (v&Hv&Hmem).
  assert (valid_text k) as Hk by (by apply (sv_text _ _ _ _ (proj1 Hc)) in Hv as (_&?&_)).
  unfold search_step. apply wp_bind, wp_gets. rewrite Hns'.
  eapply wp_bind_mono.
  { apply (on_crew_wp _ c' (cview c') (λ a, a = kv_get (cview c') (crew_namespace c) k) Hc').
    apply get_spec; [apply Hc'|apply Hc|done]. }
  intros entry c2 [(Hc2&Hv2&Hns2&Hs2) ->].
  assert (with_view (cview c) c c2) as Hw by (split_and!; congruence || done).
  rewrite Hv', fmap_app, list_fmap_singleton, filter_app.
  assert (kv_get (cview c) (crew_namespace c) k = v) as -> by (unfold kv_get; by rewrite Hv).
  assert (truthy v = true) as -> by (by rewrite Hmem). cbn [negb].
  apply wp_bind. eapply (wp_lift _ (PStr (memory_text v))); [by rewrite Hmem|].
  apply wp_bind. eapply wp_mono.
  { instantiate (1 := λ x c3, x = score q v ∧ c3 = c2). unfold score.
    case_bool_decide; [by apply wp_ret|]. by apply wp_bind, (wp_lift _ _ _ _ eq_refl), wp_ret. }
  intros x c3 [-> ->]. apply wp_ret. split; [done|]. fold (passes q threshold v).
  destruct (passes q threshold v) eqn:E.
  - rewrite filter_cons_True by done. eexists. split; [|done]. by rewrite fmap_app.
  - rewrite filter_cons_False by (cbn; congruence). eexists. split; [|done]. by rewrite filter_nil, app_nil_r.
Qed.

(** The sorted hits: every entry of the namespace that passes, best first. *)
Lemma search_wp query limit threshold c :
  cok c → (Z.of_nat (size (tokens query)) < 2 ^ 51)%Z →
  (∀ k v, stored c k v → is_memory v) →
  wp (search ops query limit threshold) c (λ out c', with_view (cview c) c c' ∧
    ∃ ranked, out = found (tokens query) <$> slice_to limit ranked ∧
      NoDup ranked.*1 ∧ StronglySorted (better (tokens query)) ranked ∧
      ∀ k v, (k, v) ∈ ranked ↔ stored c k v ∧ passes (tokens query) threshold v = true).
Proof.
  intros Hc Hq Hmem. unfold search. set (q := tokens query) in *.
  eapply wp_bind_mono; [by apply crew_keys_wp|]. intros ks c1 [Hw1 [Hnd Hks]].
  pose proof Hw1 as (Hc1&Hv1&Hns1&Hs1).
  assert (∀ k, k ∈ ks → ∃ v, stored c1 k v ∧ is_memory v) as Hstored.
  { intros k [[v Hv] _]%Hks. exists v. split; [unfold stored; by rewrite Hv1, Hns1|by eapply Hmem]. }
  eapply wp_bind_mono; [by apply search_loop_wp|].
  intros results c2 [(Hc2&Hv2&Hns2&Hs2) (l&->&Hl)].
  assert (∃ ranked, merge_sort hit_before (hit_of q <$> l) = hit_of q <$> ranked ∧ ranked ≡ₚ l)
    as (ranked&Hsort&Hperm).
  { destruct (Permutation_map_inv (hit_of q) l (merge_sort_Permutation hit_before (hit_of q <$> l)))
      as (ranked&Hr&Hp). exists ranked. split; [exact Hr|by symmetry]. }
  assert (∀ k v, (k, v) ∈ ranked ↔ stored c k v ∧ passes q threshold v = true) as Hin.
  { intros k v. rewrite Hperm, Hl, list_elem_of_filter, list_elem_of_fmap. cbn.
    rewrite Hv1, Hns1. unfold stored, kv_get. split.
    - intros [Hp (k'&[= -> ->]&[[w Hw] _]%Hks)]. rewrite Hw in *. done.
    - intros [Hv Hp]. split; [done|]. exists k. rewrite Hv. split; [done|]. apply Hks.
      by split; [eexists|]. }
  assert (Forall (λ e, is_memory e.2) ranked) as Hall.
  { apply Forall_forall. intros [k v] [Hv _]%Hin. by eapply Hmem. }
  eapply (wp_lift _ (found q <$> slice_to limit ranked)).
  { rewrite Hsort. unfold slice_to. rewrite length_fmap, <-!fmap_take.
    by destruct (limit <? 0)%Z; rewrite mapM_format by (by apply Forall_take). }
  split; [by split_and!; congruence || apply Hc2 || done|]. exists ranked. split; [done|]. split_and!; [| |done].
  - apply NoDup_fmap_2_strong.
    + intros [a v] [b w] [Ha _]%Hin [Hb _]%Hin Heq. cbn in Heq. subst. unfold stored in *. congruence.
    + rewrite Hperm, Hl. apply NoDup_filter, NoDup_fmap_2; [|done]. intros a b Heq. exact (f_equal fst Heq).
  - assert (StronglySorted hit_before (hit_of q <$> ranked)) as Hss
      by (rewrite <-Hsort; apply StronglySorted_merge_sort; apply _).
    clear -Hss Hq. induction ranked as [|e ranked IH]; [constructor|].
    apply StronglySorted_inv in Hss as [Hss He]. constructor; [by apply IH|].
    apply (Forall_fmap (hit_of q)) in He. eapply Forall_impl; [exact He|].
    intros b. by apply hit_before_better.
Qed.

(** C24: [search] returns the best matches, best first. Every result is a stored entry
    that reaches the threshold, shown with its own text, metadata and score; the
    results are in order of the number of query tokens they contain, later keys
    first among equals; an entry that reaches the threshold is left out only when
    the limit is used up by results ranked before it. The store is not changed. *)
Theorem search_ranks query limit threshold c :
  cok c → (Z.of_nat (size (tokens query)) < 2 ^ 51)%Z →
  (∀ k v, stored c k v → is_memory v) → (0 ≤ limit)%Z →
  ∃ hits c', search ops query limit threshold c = (Ok (found (tokens query) <$> hits), c') ∧
    cview c' = cview c ∧ NoDup hits.*1 ∧ StronglySorted (better (tokens query)) hits ∧
    (∀ k v, (k, v) ∈ hits → stored c k v ∧ passes (tokens query) threshold v = true) ∧
    (∀ k v, stored c k v → passes (tokens query) threshold v = true → (k, v) ∉ hits →
       length hits = Z.to_nat limit ∧ Forall (λ h, better (tokens query) h (k, v)) hits).
Proof.
  intros Hc Hq Hmem Hlim.
  destruct (wp_elim _ _ _ (search_wp query limit threshold c Hc Hq Hmem))
    as (out&c'&Hrun&(_&Hv&_)&ranked&->&Hnd&Hss&Hin).
  exists (slice_to limit ranked), c'. split; [done|]. split; [done|].
  unfold slice_to. destruct (Z.ltb_spec limit 0); [lia|]. set (n := Z.to_nat limit).
  rewrite <-(take_drop n ranked) in Hnd, Hss, Hin. rewrite fmap_app in Hnd.
  apply NoDup_app in Hnd as (Hnd&_&_). apply StronglySorted_app in Hss as (Hrank&Hss&_).
  split; [done|]. split; [done|]. split; [intros k v Hk; apply Hin; set_solver|].
  intros k v Hk Hp Hnot. assert ((k, v) ∈ drop n ranked) as Hdrop.
  { pose proof (proj2 (Hin k v) (conj Hk Hp)). set_solver. }
  split.
  - rewrite length_take. apply Nat.min_l.
    assert (drop n ranked ≠ []) as Hne by (intros E; rewrite E in Hdrop; set_solver).
    destruct (decide (n ≤ length ranked)); [done|]. destruct Hne. apply drop_ge. lia.
  - apply Forall_forall. intros h Hh. by apply Hrank.
Qed.
End Crewed.

(** ** Examples *)

Definition ex_memories : SwarmStateStorage kv :=
  {| crew_store := kv_set_many
       [(lit "c", lit "000000000001-a", memory (lit "the churn rate") (PDict []));
        (lit "c", lit "000000000002-b", memory (lit "churn") (PDict []));
        (lit "d", lit "x", PInt 3)] ∅;
     crew_namespace := lit "c"; crew_seq := None |}.

Lemma ex_memories_ok : cok (spec:=ref_spec true true false) ex_memories.
Proof.
  split; [|by apply (bool_decide_unpack _)].
  apply kv_ok_set_many; [apply map_Forall_empty|].
  repeat constructor; by apply (bool_decide_unpack _).
Qed.

Lemma ex_memories_are : ∀ k v,
  stored (spec:=ref_spec true true false) ex_memories k v → is_memory v.
Proof.
  intros k v Hk. unfold stored, cview in Hk. cbn [sv_view ref_spec ex_memories crew_store crew_namespace] in Hk.
  unfold kv_set_many in Hk. cbn [foldl fst snd] in Hk.
  rewrite !lookup_insert_Some in Hk. naive_solver.
Qed.

Lemma save_adds_witness : ∃ n c',
  save (ref_ops true true false) (λ _, []) (PStr (lit "new")) None (lit "c") ex_memories = (Ok tt, c') ∧
  crew_store c' = <[(lit "c", crew_key (n + 1) (lit "c")) :=
    crew_entry (λ _, []) (PStr (lit "new")) None]> (crew_store ex_memories).
Proof.
  destruct (save_adds (spec:=ref_spec true true false) (λ _, []) ex_memories (PStr (lit "new")) None
    (lit "c") ex_memories_ok I ltac:(by apply (bool_decide_unpack _)) ltac:(by apply (bool_decide_unpack _)))
    as (n&c'&Hrun&_&Hv&_). exists n, c'. split; [exact Hrun|exact Hv].
Defined.

Lemma reset_empties_witness : ∃ c', crew_reset (ref_ops true true false) ex_memories = (Ok tt, c') ∧
  (crew_len (ref_ops true true false) c').1 = Ok 0%Z.
Proof.
  destruct (reset_empties (spec:=ref_spec true true false) ex_memories ex_memories_ok)
    as (c'&Hrun&_&Hlen). exists c'. split; [exact Hrun|exact Hlen].
Defined.

Lemma search_ranks_witness : ∃ hits c',
  search (ref_ops true true false) (lit "Churn rate") 1 0 ex_memories =
    (Ok (found (tokens (lit "Churn rate")) <$> hits), c') ∧
  StronglySorted (better (tokens (lit "Churn rate"))) hits.
Proof.
  destruct (search_ranks (spec:=ref_spec true true false) (lit "Churn rate") 1 0 ex_memories
    ex_memories_ok ltac:(by vm_compute) ex_memories_are ltac:(lia)) as (hits&c'&Hrun&_&_&Hss&_).
  exists hits, c'. split; [exact Hrun|exact Hss].
Defined.

(** The best match comes first, with the score of a full overlap. *)
Example search_churn :
  (search (ref_ops true true false) (lit "Churn rate") 1 0 ex_memories).1 =
    Ok [PDict [(key "context", PStr (lit "the churn rate")); (key "metadata", PDict []);
               (key "score", PFloat ONE)]].
Proof. vm_compute. reflexivity. Qed.
