(* ===== verification/Portability.v ===== *)
(** * Moving state between stores and files

    [python/swarmstate/portability.py]. A call works on two things at once: the
    store it reads and what it writes to (another store, or the files), so the
    state is a pair. A file is its bytes under its name; the binary file object of
    the source is the name of an open file. The two stores of [copy_store] are
    distinct objects. *)

From Stdlib Require Import ZifyBool ZifyN.
From S2P Require Import Prelude PyValue Codec CodecLemmas CodecTheorems Store StoreTrace.

(** [_MAGIC], [_FORMAT_VERSION], [_BATCH] *)
Definition MAGIC : bytes := (λ c, b8 c) <$> lit "SWSTATE".
Definition FORMAT_VERSION : N := 1.
Definition BATCH : Z := 1000.

(** [dumps] and [loads] of the compiled module are the codec. *)
Definition dumps : pyval → result bytes := encode.
Definition loads : bytes → result pyval := decode.

(** [_FRAME.pack(n)], big-endian 32 bits; [_FRAME.size] *)
Definition FRAME_size : nat := 4.
Definition FRAME_pack (n : N) : result bytes :=
  if (n <? 2 ^ 32)%N then Ok (to_be FRAME_size n) else Raise StructError.
Definition FRAME_unpack (raw : bytes) : N := of_be raw.

Abbreviation entry := (pystr * pystr * pyval)%type.
Abbreviation files := (gmap pystr bytes).

Definition on_fst {S X A} (m : PyM S A) : PyM (S * X) A :=
  act (λ w, let '(r, s) := m w.1 in (r, (s, w.2))).
Definition on_snd {S X A} (m : PyM X A) : PyM (S * X) A :=
  act (λ w, let '(r, x) := m w.2 in (r, (w.1, x))).

(** ** Reading a store in batches *)

Section Entries.
Context {S X : Type} (ops : StoreOps S).

(** The comprehension of [_entries]: the entries of a chunk of keys. *)
Definition batch_entries (ns : pystr) (chunk : list pystr) : PyM S (list entry) :=
  getter ← method op_get_many;
  values ← getter ((λ k, (ns, k)) <$> chunk);
  for_fold (zip chunk values) (λ out e,
    let '(k, v) := e in
    kept ← (if is_none v then op_contains ns k else mret true);
    mret (if kept : bool then out ++ [(ns, k, v)] else out)) [].

(** [for batch in _entries(store, prefix, batch_size): body]: the generator and
    its consumer take turns. *)
Definition for_entries {B} (prefix : option pystr) (batch_size : Z)
    (body : B → list entry → PyM X B) (acc : B) : PyM (S * X) B :=
  nss ← on_fst (op_namespaces prefix);
  for_fold nss (λ acc ns,
    ks ← on_fst (op_keys ns None);
    for_fold (chunks (Z.to_nat batch_size) ks) (λ acc chunk,
      batch ← on_fst (batch_entries ns chunk);
      on_snd (body acc batch)) acc) acc.
End Entries.

(** ** [copy_store] *)

Section Copy.
Context {S X : Type} (src : StoreOps S) (dst : StoreOps X).

Definition copy_batch (copied : Z) (batch : list entry) : PyM X Z :=
  match batch with
  | [] => mret copied
  | _ =>
      setter ← method op_set_many;
      setter batch ;;
      mret (copied + Z.of_nat (length batch))%Z
  end.

Definition copy_store (prefix : option pystr) (batch_size : Z) : PyM (S * X) Z :=
  if (batch_size <? 1)%Z then raise ValueError
  else for_entries src prefix batch_size copy_batch 0%Z.
End Copy.

(** ** [dump_store] *)

(** [f.write(b)] *)
Definition write_file (f : pystr) (b : bytes) : PyM files unit :=
  modify (λ fs, <[f := from_option id [] (fs !! f) ++ b]> fs).

Section Dump.
Context {S : Type} (ops : StoreOps S).

(** The inner loop of [_write], on one batch. *)
Definition write_batch (f : pystr) (count : Z) (batch : list entry) : PyM files Z :=
  for_fold batch (λ count e,
    let '(ns, k, value) := e in
    frame ← lift (dumps (PList [PStr ns; PStr k; value]));
    size ← lift (FRAME_pack (N.of_nat (length frame)));
    write_file f size ;;
    write_file f frame ;;
    mret (count + 1)%Z) count.

(** [_write] *)
Definition write_store (f : pystr) (prefix : option pystr) : PyM (S * files) Z :=
  on_snd (write_file f (MAGIC ++ [b8 FORMAT_VERSION])) ;;
  for_entries ops prefix BATCH (write_batch f) 0%Z.

(** [dump_store] on a file object *)
Definition dump_store_file (f : pystr) (prefix : option pystr) : PyM (S * files) Z :=
  write_store f prefix.

(** [dump_store] on a path *)
Definition dump_store (path : pystr) (prefix : option pystr) : PyM (S * files) Z :=
  let tmp := path ++ lit ".tmp" in
  on_snd (modify <[tmp := []]>) ;;
  act (λ w,
    match write_store tmp prefix w with
    | (Ok count, w') =>
        on_snd (modify (λ fs, <[path := from_option id [] (fs !! tmp)]> (delete tmp fs)) ;;
                mret count) w'
    | (Raise e, w') => on_snd (modify (delete tmp) ;; raise e) w'
    | (OutOfFuel, w') => (OutOfFuel, w')
    end).
End Dump.

(** ** [load_store] *)

Section Load.
Context {S : Type} (ops : StoreOps S).

(** A decoded frame: a list of three. *)
Definition frame_entry (frame : bytes) : result (pyval * pyval * pyval) :=
  v ← loads frame;
  match v with
  | PList [ns; k; value] => Ok (ns, k, value)
  | _ => Raise ValueError
  end.

(** [store.set_many(batch)]: namespaces and keys have to be strings. *)
Definition flush (batch : list (pyval * pyval * pyval)) : PyM S unit :=
  setter ← method op_set_many;
  items ← lift (mapM (λ e : pyval * pyval * pyval,
    ns ← as_str e.1.1; k ← as_str e.1.2; Ok (ns, k, e.2)) batch);
  setter items.

(** [while True], on what is left of the file; each round reads at least the four
    bytes of a frame's length, so the length of the file is fuel enough. *)
Fixpoint read_frames (fuel : nat) (data : bytes) (batch : list (pyval * pyval * pyval))
    : PyM S unit :=
  match take FRAME_size data with
  | [] => match batch with [] => mret tt | _ => flush batch end
  | size =>
      match fuel with
      | O => out_of_fuel
      | Datatypes.S fuel' =>
          if negb (length size =? FRAME_size)%nat then raise ValueError
          else
            let data' := drop FRAME_size data in
            let len := FRAME_unpack size in
            let frame := take (N.to_nat (N.min len (N.of_nat (length data')))) data' in
            if negb (N.of_nat (length frame) =? len)%N then raise ValueError
            else
              entry ← lift (frame_entry frame);
              let batch' := batch ++ [entry] in
              let rest := drop (length frame) data' in
              if (BATCH <=? Z.of_nat (length batch'))%Z
              then flush batch' ;; read_frames fuel' rest []
              else read_frames fuel' rest batch'
      end
  end.

(** [_read] *)
Definition read_store (data : bytes) : PyM S unit :=
  let header := take (length MAGIC + 1)%nat data in
  if negb (bool_decide (take (length MAGIC) header = MAGIC)) then raise ValueError
  else
    version ← lift (or_raise IndexError (header !! length MAGIC));
    if negb (n8 version =? FORMAT_VERSION)%N then raise ValueError
    else read_frames (length data) (drop (length MAGIC + 1)%nat data) [].

(** [load_store] of the contents of a file, into a given store *)
Definition load_store (data : bytes) : PyM S unit := read_store data.
End Load.
