(* ===== verification/PortabilityTheorems.v ===== *)
(** * Properties of [copy_store], [dump_store] and [load_store]

    What is copied or dumped is exactly the part of the source with the prefix;
    a dump read into a store adds exactly the entries dumped; a dump that fails
    leaves the files as they were. *)

From Stdlib Require Import ZifyBool ZifyN.
From S2P Require Import Prelude PyValue Codec CodecLemmas CodecTheorems Store StoreTrace Portability.

(** ** Lemmas: the pair state *)

Lemma on_fst_wp {S X A} (m : PyM S A) (s : S) (x : X) (Q : A → S → Prop) (R : A → S * X → Prop) :
  wp m s Q → (∀ a s', Q a s' → R a (s', x)) → wp (on_fst m) (s, x) R.
Proof.
  intros Hm HR. apply wp_elim in Hm as (a&s'&E&HQ).
  unfold wp, on_fst, act. cbn. rewrite E. by apply HR.
Qed.

Lemma on_snd_wp {S X A} (m : PyM X A) (s : S) (x : X) (Q : A → X → Prop) (R : A → S * X → Prop) :
  wp m x Q → (∀ a x', Q a x' → R a (s, x')) → wp (on_snd m) (s, x) R.
Proof.
  intros Hm HR. apply wp_elim in Hm as (a&x'&E&HQ).
  unfold wp, on_snd, act. cbn. rewrite E. by apply HR.
Qed.

(** ** Lemmas: the entries of a store *)

(** [l] lists the entries of [m] whose name satisfies [P], each once. *)
Definition lists_entries (m : kv) (P : pystr * pystr → Prop) (l : list entry) : Prop :=
  NoDup l.*1 ∧ ∀ p v, (p, v) ∈ l ↔ m !! p = Some v ∧ P p.

Lemma lists_entries_nil m (P : pystr * pystr → Prop) : (∀ p, ¬ P p) → lists_entries m P [].
Proof.
  intros HP. split; [constructor|]. intros p v. split; [by intros ?%not_elem_of_nil|].
  intros [_ ?]. by destruct (HP p).
Qed.

Lemma lists_entries_ext m (P Q : pystr * pystr → Prop) l :
  (∀ p v, m !! p = Some v → P p ↔ Q p) → lists_entries m P l → lists_entries m Q l.
Proof.
  intros HPQ [Hnd Hl]. split; [done|]. intros p v. rewrite Hl. split; intros [? ?];
    (split; [done|]); by eapply HPQ.
Qed.

(** The entries of a chunk of stored keys. *)
Definition chunk_entries (m : kv) (ns : pystr) (chunk : list pystr) : list entry :=
  (λ k, (ns, k, kv_get m ns k)) <$> chunk.

Lemma lists_entries_chunk m (P : pystr * pystr → Prop) l ns (chunk : list pystr) :
  lists_entries m P l → NoDup chunk → Forall (λ k, is_Some (m !! (ns, k)) ∧ ¬ P (ns, k)) chunk →
  lists_entries m (λ p, P p ∨ p.1 = ns ∧ p.2 ∈ chunk) (l ++ chunk_entries m ns chunk).
Proof.
  intros [Hnd Hl] Hc Hk. rewrite Forall_forall in Hk. split.
  - rewrite fmap_app. apply NoDup_app. split_and!; [done| |].
    + intros p ([q v]&->&Hin)%list_elem_of_fmap Hin'. apply Hl in Hin as [_ HP].
      unfold chunk_entries in Hin'. rewrite <-list_fmap_compose in Hin'.
      apply list_elem_of_fmap in Hin' as (k&Heq&Hkc). cbn in Heq. subst. by apply (Hk k).
    + unfold chunk_entries. rewrite <-list_fmap_compose. apply NoDup_fmap_2; [|done].
      intros a b Heq. cbn in Heq. by injection Heq.
  - intros [n k] v. rewrite elem_of_app, Hl. unfold chunk_entries. rewrite list_elem_of_fmap.
    split.
    + intros [[? ?]|(k'&[= -> -> ->]&Hin)]; [auto|]. destruct (Hk _ Hin) as [[w Hw] _].
      unfold kv_get. rewrite Hw. simpl. auto.
    + intros [Hv [HP|[Hn Hin]]]; [by left|]. simpl in Hn, Hin. subst. right.
      exists k. split; [|done]. unfold kv_get. by rewrite Hv.
Qed.

Section Entries.
Context {S X : Type} {ops : StoreOps S} {spec : StoreSpec S}.
Hypothesis Hcomplete : complete.

Lemma batch_entries_wp s ns (chunk : list pystr) :
  sv_ok s → valid_text ns →
  Forall (λ k, valid_text k ∧ is_Some (sv_view s !! (ns, k))) chunk →
  wp (batch_entries ops ns chunk) s (λ b s', (sv_ok s' ∧ sv_view s' = sv_view s) ∧
    b = chunk_entries (sv_view s) ns chunk).
Proof.
  destruct Hcomplete as (_&_&[gm Hgm]&_). intros Hs Hns Hc. unfold batch_entries, method.
  rewrite Hgm. apply wp_bind, (wp_lift _ _ _ _ eq_refl).
  eapply wp_bind_mono.
  { apply (get_many_spec gm); [done..|]. apply Forall_fmap. eapply Forall_impl; [exact Hc|].
    intros k [? _]. by split. }
  intros values s1 [[Hs1 Hv1] ->]. rewrite Forall_forall in Hc.
  set (f := λ k, kv_get (sv_view s) ns k).
  assert (zip chunk ((λ p, kv_get (sv_view s) p.1 p.2) <$> ((λ k, (ns, k)) <$> chunk)) =
          (λ k, (k, f k)) <$> chunk) as ->.
  { rewrite <-list_fmap_compose. clear. induction chunk as [|k chunk IH]; [done|].
    cbn. by rewrite <-IH. }
  eapply wp_mono.
  { apply (wp_for_fold (λ l1 out s', (sv_ok s' ∧ sv_view s' = sv_view s) ∧
      out = (λ e, (ns, e.1, e.2)) <$> l1)); [done|].
    intros l1 [k v] l2 out s' Hl [[Hs' Hv'] ->].
    assert (k ∈ chunk ∧ v = f k) as [Hin ->].
    { assert ((k, v) ∈ (λ k, (k, f k)) <$> chunk) as Hin by (rewrite Hl; set_solver).
      apply list_elem_of_fmap in Hin as (k'&[= -> ->]&?). done. }
    destruct (Hc k Hin) as [Hk Hstored]. rewrite <-Hv' in Hstored.
    eapply (wp_bind_mono _ _ _ (λ kept s'', (sv_ok s'' ∧ sv_view s'' = sv_view s') ∧ kept = true)).
    - destruct (is_none (f k)); [|by apply wp_ret].
      eapply wp_mono; [by apply contains_spec|]. intros b s'' [? ->].
      split; [done|]. by apply bool_decide_eq_true.
    - intros kept s'' [[Hs'' Hv''] ->]. apply wp_ret. split; [|by rewrite fmap_app].
      split; [done|congruence]. }
  intros out s' [? ->]. split; [done|]. unfold chunk_entries. by rewrite <-list_fmap_compose.
Qed.

Section Consumer.
Context {B : Type} (I : list entry → B → X → Prop) (m : kv) (size : Z)
  (wanted : pystr → Prop) (body : B → list entry → PyM X B).
Hypothesis Hsize : (1 ≤ size)%Z.
Hypothesis Hbody : ∀ before batch acc x, I before acc x →
  Forall (λ e, m !! e.1 = Some e.2 ∧ wanted e.1.1) batch →
  wp (body acc batch) x (I (before ++ batch)).

(** What holds between two steps of the generator: the entries named by [P] have
    been consumed, and the source still has content [m]. *)
Definition consumed (P : pystr * pystr → Prop) (acc : B) (w : S * X) : Prop := ∃ l,
  lists_entries m P l ∧ (sv_ok w.1 ∧ sv_view w.1 = m) ∧ I l acc w.2.

Lemma consumed_ext (P Q : pystr * pystr → Prop) acc w :
  (∀ p v, m !! p = Some v → P p ↔ Q p) → consumed P acc w → consumed Q acc w.
Proof. intros HPQ (l&Hl&?&?). exists l. split; [|done]. by eapply lists_entries_ext. Qed.

Lemma consume_chunk (P : pystr * pystr → Prop) acc w ns (chunk : list pystr) :
  consumed P acc w → valid_text ns → wanted ns → NoDup chunk →
  Forall (λ k, (valid_text k ∧ is_Some (m !! (ns, k))) ∧ ¬ P (ns, k)) chunk →
  wp (batch ← on_fst (batch_entries ops ns chunk); on_snd (body acc batch)) w
    (consumed (λ p, P p ∨ p.1 = ns ∧ p.2 ∈ chunk)).
Proof.
  destruct w as [s x]. intros (l&Hl&[Hs Hv]&HI) Hns Hwant Hnd Hk. cbn in Hs, Hv, HI.
  apply wp_bind. eapply on_fst_wp.
  { apply batch_entries_wp; [done..|]. rewrite Hv. eapply Forall_impl; [exact Hk|]. by intros k [? _]. }
  intros batch s' [[Hs' Hv'] ->]. rewrite Hv in Hv' |- *. eapply on_snd_wp.
  { apply (Hbody l); [done|]. apply Forall_fmap. eapply Forall_impl; [exact Hk|].
    intros k [[_ [v Hkv]] _]. cbn. unfold kv_get. by rewrite Hkv. }
  intros acc' x' HI'. eexists. split; [|split; [by split|exact HI']].
  apply lists_entries_chunk; [done..|]. eapply Forall_impl; [exact Hk|]. by intros k [[_ ?] ?].
Qed.

Lemma consume_namespace (done : list pystr) acc w ns :
  consumed (λ p, p.1 ∈ done) acc w → ns ∉ done → valid_text ns → wanted ns →
  wp (ks ← on_fst (op_keys ns None);
      for_fold (chunks (Z.to_nat size) ks) (λ acc chunk,
        batch ← on_fst (batch_entries ops ns chunk); on_snd (body acc batch)) acc) w
    (consumed (λ p, p.1 ∈ done ++ [ns])).
Proof.
  destruct w as [s x]. intros (l&Hl&[Hs Hv]&HI) Hnew Hns Hwant. cbn in Hs, Hv, HI.
  apply wp_bind. eapply on_fst_wp; [by apply keys_spec|].
  intros ks s' [[Hs' Hv'] [Hnd Hks]]. rewrite Hv in Hv', Hks.
  assert (∀ k, k ∈ ks → valid_text k ∧ is_Some (m !! (ns, k))) as Hkeys.
  { intros k [[v Hkv] _]%Hks. split; [|by eexists]. rewrite <-Hv in Hkv.
    by apply (sv_text s ns k v) in Hkv as (_&?&_). }
  eapply wp_mono.
  { apply (wp_for_fold (λ cs, consumed (λ p, p.1 ∈ done ∨ p.1 = ns ∧ p.2 ∈ concat cs))).
    - eapply consumed_ext; [|exists l; split; [exact Hl|by split]].
      intros p v _. cbn. rewrite elem_of_nil. tauto.
    - intros cs chunk cs' acc' w' Hcs Hw'.
      assert (ks = concat cs ++ chunk ++ concat cs') as Hsplit.
      { rewrite <-(chunks_concat (Z.to_nat size) ks), Hcs, concat_app by lia. done. }
      rewrite Hsplit in Hnd. apply NoDup_app in Hnd as (_&Hdis&[Hndc _]%NoDup_app).
      eapply wp_mono; [apply (consume_chunk _ _ _ ns chunk Hw' Hns Hwant Hndc)|].
      + apply Forall_forall. intros k Hk. split; [apply Hkeys; rewrite Hsplit; set_solver|].
        cbn. intros [?|[_ Hc]]; [done|]. apply (Hdis _ Hc). set_solver.
      + intros acc'' w''. apply consumed_ext. intros p v _.
        rewrite concat_app, elem_of_app. cbn. rewrite app_nil_r. tauto. }
  intros acc' w'. apply consumed_ext. intros [n k] v Hkv. cbn.
  rewrite chunks_concat, elem_of_app, list_elem_of_singleton, Hks by lia. cbn. naive_solver.
Qed.
End Consumer.

(** The consumer of a generator of entries: it is shown the entries with the
    prefix, each once, and the source stays as it was. *)
Lemma for_entries_wp {B : Type} (I : list entry → B → X → Prop) (pfx : option pystr)
    (size : Z) (body : B → list entry → PyM X B) (acc : B) (s : S) (x : X) :
  sv_ok s → from_option valid_text True pfx → (1 ≤ size)%Z → I [] acc x →
  (∀ before batch acc x, I before acc x →
     Forall (λ e, sv_view s !! e.1 = Some e.2 ∧ has_prefix pfx e.1.1 = true) batch →
     wp (body acc batch) x (I (before ++ batch))) →
  wp (for_entries ops pfx size body acc) (s, x) (λ acc w, ∃ l,
    lists_entries (sv_view s) (λ p, has_prefix pfx p.1 = true) l ∧
    (sv_ok w.1 ∧ sv_view w.1 = sv_view s) ∧ I l acc w.2).
Proof.
  intros Hs Hpfx Hsize HI Hbody. unfold for_entries. apply wp_bind.
  assert (wp (op_namespaces pfx) s (λ l s', (sv_ok s' ∧ sv_view s' = sv_view s) ∧
    lists_namespaces (sv_view s) pfx l)) as Hns.
  { destruct pfx as [p|]; [|by apply namespaces_spec].
    pose proof (namespaces_prefix_spec s p Hs Hpfx) as H.
    destruct Hcomplete as [Htakes _]. by rewrite Htakes in H. }
  eapply on_fst_wp; [exact Hns|]. clear Hns. intros nss s1 [[Hs1 Hv1] [Hnd Hnss]].
  eapply wp_mono.
  { apply (wp_for_fold (λ done, consumed I (sv_view s) (λ p, p.1 ∈ done))).
    - exists []. split; [|by split]. apply lists_entries_nil. intros p. apply not_elem_of_nil.
    - intros done ns rest acc1 w Heq Hw.
      apply (consume_namespace _ _ _ (λ ns, has_prefix pfx ns = true)); [done..| | |].
      + rewrite Heq in Hnd. apply NoDup_app in Hnd as (_&Hd&_). intros Hin.
        apply (Hd _ Hin). by left.
      + assert (ns ∈ nss) as Hin by (rewrite Heq; set_solver).
        apply Hnss in Hin as [[k [v Hv]] _]. by apply (sv_text s ns k v) in Hv as (?&_).
      + apply Hnss. rewrite Heq. set_solver. }
  intros acc' w. apply consumed_ext. intros [n k] v Hv. cbn. rewrite Hnss. naive_solver.
Qed.
End Entries.

(** ** Lemmas: what the entries amount to *)

Lemma lists_entries_union m (P : pystr * pystr → Prop) `{!∀ p, Decision (P p)} l m' :
  lists_entries m P l → kv_set_many l m' = filter (λ e, P e.1) m ∪ m'.
Proof.
  intros [Hnd Hl]. apply map_eq. intros p. rewrite lookup_union.
  destruct (filter (λ e, P e.1) m !! p) as [v|] eqn:E.
  - apply map_lookup_filter_Some in E. cbn in E. rewrite (kv_set_many_lookup _ _ p v Hnd).
    + by destruct (m' !! p).
    + by apply Hl.
  - rewrite kv_set_many_lookup_ne; [by rewrite left_id_L by apply _|].
    intros ([q v]&->&Hin)%list_elem_of_fmap. apply Hl in Hin as [Hm HP].
    assert (filter (λ e, P e.1) m !! q = Some v); [|cbn in E; congruence].
    by apply map_lookup_filter_Some.
Qed.

Lemma lists_entries_size m (P : pystr * pystr → Prop) `{!∀ p, Decision (P p)} l :
  lists_entries m P l → size (filter (λ e, P e.1) m) = length l.
Proof.
  intros [Hnd Hl]. rewrite <-length_map_to_list. apply Permutation_length.
  apply NoDup_Permutation; [apply NoDup_map_to_list|by eapply NoDup_fmap_1|].
  intros [p v]. by rewrite elem_of_map_to_list, map_lookup_filter_Some, Hl.
Qed.

(** The part of a store a prefix selects. *)
Definition selected (pfx : option pystr) (m : kv) : kv :=
  filter (λ e, has_prefix pfx e.1.1 = true) m.


(** ** [copy_store] *)

Section Copying.
Context {S X : Type} {src : StoreOps S} {sspec : StoreSpec S}
  {dst : StoreOps X} {dspec : StoreSpec X}.

Lemma copy_batch_wp set_many (l batch : list entry) acc (x0 x : X) :
  op_set_many = Some set_many →
  (sv_ok x ∧ sv_view x = kv_set_many l (sv_view x0)) ∧ acc = Z.of_nat (length l) →
  Forall (λ e, valid_text e.1.1 ∧ valid_text e.1.2 ∧ storable e.2) batch →
  wp (copy_batch dst acc batch) x (λ n x',
    (sv_ok x' ∧ sv_view x' = kv_set_many (l ++ batch) (sv_view x0)) ∧
    n = Z.of_nat (length (l ++ batch))).
Proof.
  intros Hsm [[Hx Hv] ->] Hb. unfold copy_batch. destruct batch as [|e batch].
  { apply wp_ret. by rewrite app_nil_r. }
  unfold method. rewrite Hsm. apply wp_bind, (wp_lift _ _ _ _ eq_refl).
  eapply wp_bind_mono; [by eapply set_many_spec|]. intros [] x' [Hx' Hv']. apply wp_ret.
  split; [split; [done|]|rewrite length_app; lia]. by rewrite Hv', Hv, kv_set_many_app.
Qed.

(** C18: [copy_store] copies exactly the selected entries: the source is left as it
    was, the destination afterwards maps every selected [(namespace, key)] to the
    source's value and everything else to what it held before, and the number
    returned is the number of entries selected, whatever the batch size. *)
Theorem copy_store_copies (pfx : option pystr) (batch_size : Z) (s : S) (x : X) :
  complete (S:=S) → complete (S:=X) → sv_ok s → sv_ok x →
  from_option valid_text True pfx → (1 ≤ batch_size)%Z →
  ∃ n w, copy_store src dst pfx batch_size (s, x) = (Ok n, w) ∧
    sv_view w.1 = sv_view s ∧
    sv_view w.2 = selected pfx (sv_view s) ∪ sv_view x ∧
    n = Z.of_nat (size (selected pfx (sv_view s))).
Proof.
  intros Hsrc Hdst Hs Hx Hpfx Hbs. destruct Hdst as (_&[sm Hsm]&_).
  assert (wp (copy_store src dst pfx batch_size) (s, x) (λ n w, ∃ l,
    lists_entries (sv_view s) (λ p, has_prefix pfx p.1 = true) l ∧
    (sv_ok w.1 ∧ sv_view w.1 = sv_view s) ∧
    (sv_ok w.2 ∧ sv_view w.2 = kv_set_many l (sv_view x)) ∧ n = Z.of_nat (length l)))
    as (n&w&Hrun&l&Hl&[_ Hv1]&[_ Hv2]&Hn)%wp_elim.
  { unfold copy_store. destruct (Z.ltb_spec batch_size 1); [lia|].
    apply (for_entries_wp Hsrc (λ l n x',
      (sv_ok x' ∧ sv_view x' = kv_set_many l (sv_view x)) ∧ n = Z.of_nat (length l)));
      [done..|].
    intros before batch acc x' HI Hb. eapply copy_batch_wp; [exact Hsm|exact HI|].
    eapply Forall_impl; [exact Hb|]. intros [[ns k] v] [Hkv _]. exact (sv_text s ns k v Hs Hkv). }
  exists n, w. split; [done|]. split; [done|]. split.
  - rewrite Hv2. exact (lists_entries_union _ _ _ _ Hl).
  - rewrite Hn. f_equal. symmetry. exact (lists_entries_size _ _ _ Hl).
Qed.
End Copying.

(** ** Examples *)

Definition ex_source : kv := kv_set_many
  [(lit "ca", lit "k1", PInt 1); (lit "ca", lit "k2", PNone); (lit "other", lit "k", PInt 3)] ∅.
Definition ex_target : kv := kv_set_many [(lit "ca", lit "k1", PInt 0)] ∅.
Abbreviation ex_store := (ref_ops true true false).

Lemma ex_source_ok : kv_ok ex_source.
Proof.
  apply kv_ok_set_many; [apply map_Forall_empty|].
  repeat constructor; by apply (bool_decide_unpack _).
Qed.

Lemma ex_target_ok : kv_ok ex_target.
Proof.
  apply kv_ok_set_many; [apply map_Forall_empty|].
  repeat constructor; by apply (bool_decide_unpack _).
Qed.

Lemma ref_complete : complete (StoreOps0:=ex_store) (StoreLaws0:=ref_spec true true false).
Proof. split_and!; [done|by eexists..]. Qed.

Lemma copy_store_copies_witness :
  ∃ n w, copy_store ex_store ex_store (Some (lit "c")) 2 (ex_source, ex_target) = (Ok n, w) ∧
    w.1 = ex_source ∧
    w.2 = selected (Some (lit "c")) ex_source ∪ ex_target ∧
    n = Z.of_nat (size (selected (Some (lit "c")) ex_source)).
Proof.
  refine (copy_store_copies (sspec:=ref_spec true true false) (dspec:=ref_spec true true false)
    (Some (lit "c")) 2 ex_source ex_target ref_complete ref_complete ex_source_ok ex_target_ok
    _ _); [by apply (bool_decide_unpack _)|lia].
Defined.
