(* ===== verification/DumpTheorems.v ===== *)
(** * Properties of the dump format

    A dump read into a store adds exactly the entries dumped; a dump that fails
    leaves the files as they were; a damaged file is reported. *)

From Stdlib Require Import ZifyBool ZifyN.
From S2P Require Import Prelude PyValue Codec CodecLemmas CodecTheorems Store StoreTrace.
From S2P Require Import Portability PortabilityTheorems.

#[local] Arguments lit : simpl never.

(** ** The rows of a dump *)

(** What one entry contributes to the file. *)
Definition entry_value (e : entry) : pyval := PList [PStr e.1.1; PStr e.1.2; e.2].

Definition dump_row (e : entry) : result bytes :=
  frame ← dumps (entry_value e);
  size ← FRAME_pack (N.of_nat (length frame));
  Ok (size ++ frame).

Definition HEADER : bytes := MAGIC ++ [b8 FORMAT_VERSION].

(** [raw] is the rows of the entries [l], one after the other. *)
Definition rows_of (l : list entry) (raw : bytes) : Prop :=
  ∃ rows, Forall2 (λ e r, dump_row e = Ok r) l rows ∧ raw = concat rows.

Lemma rows_of_nil : rows_of [] [].
Proof. exists []. by split; [constructor|]. Qed.

Lemma rows_of_snoc l raw e r : rows_of l raw → dump_row e = Ok r → rows_of (l ++ [e]) (raw ++ r).
Proof.
  intros (rows&Hl&->) Hr. exists (rows ++ [r]). split; [by apply Forall2_app; repeat constructor|].
  rewrite concat_app. cbn. by rewrite app_nil_r.
Qed.

Lemma rows_of_cons e l raw : rows_of (e :: l) raw →
  ∃ r raw', dump_row e = Ok r ∧ rows_of l raw' ∧ raw = r ++ raw'.
Proof.
  intros (rows&(r&rows'&Hr&Hl&->)%Forall2_cons_inv_l&->). exists r, (concat rows').
  split; [done|]. split; [by exists rows'|done].
Qed.

(** What a row is: the length of a frame and the frame. *)
Lemma dump_row_inv e r : dump_row e = Ok r → ∃ frame, dumps (entry_value e) = Ok frame ∧
  (N.of_nat (length frame) < 2 ^ 32)%N ∧ r = to_be FRAME_size (N.of_nat (length frame)) ++ frame.
Proof.
  unfold dump_row. intros (frame&Hf&(size&Hs&[= <-])%result_bind_Ok)%result_bind_Ok.
  exists frame. split; [done|]. unfold FRAME_pack in Hs.
  destruct (N.ltb_spec (N.of_nat (length frame)) (2 ^ 32)); [|done].
  split; [done|]. congruence.
Qed.

(** ** Writing *)

(** What has been written to [f] after the entries [l]. *)
Definition written (f : pystr) (fs : files) (l : list entry) (n : Z) (fs' : files) : Prop :=
  ∃ raw, rows_of l raw ∧ fs' = <[f := HEADER ++ raw]> fs ∧ n = Z.of_nat (length l).

Lemma write_file_wp (f : pystr) (b : bytes) (fs : files) (Q : unit → files → Prop) :
  Q tt (<[f := from_option id [] (fs !! f) ++ b]> fs) → wp (write_file f b) fs Q.
Proof. apply wp_modify. Qed.

Lemma write_batch_wp (f : pystr) (fs0 : files) (l : list entry) (n : Z) (fs : files) (batch : list entry) :
  written f fs0 l n fs → Forall (λ e, is_ok (dump_row e) = true) batch →
  wp (write_batch f n batch) fs (written f fs0 (l ++ batch)).
Proof.
  intros Hw Hb. unfold write_batch. rewrite Forall_forall in Hb.
  apply (wp_for_fold (λ done, written f fs0 (l ++ done))); [by rewrite app_nil_r|].
  intros done [[ns k] v] rest n' fs' Heq (raw&Hraw&->&->).
  destruct (proj1 (is_ok_inv _) (Hb ((ns, k), v) ltac:(rewrite Heq; set_solver))) as [r Hr].
  destruct (dump_row_inv _ _ Hr) as (frame&Hf&Hlt&->).
  apply wp_bind, (wp_lift _ _ _ _ Hf). apply wp_bind. eapply wp_lift.
  { unfold FRAME_pack. by rewrite (proj2 (N.ltb_lt _ _) Hlt). }
  do 2 (apply wp_bind, write_file_wp; rewrite lookup_insert_eq, insert_insert_eq; cbn [from_option id]).
  apply wp_ret. eexists. split; [|split].
  - rewrite app_assoc. by eapply rows_of_snoc.
  - by rewrite <-!app_assoc.
  - rewrite !length_app. cbn. lia.
Qed.

(** ** Reading *)

Section Reading.
Context {X : Type} {ops : StoreOps X} {spec : StoreSpec X}.

(** A decoded entry, before its names are known to be text. *)
Definition raw_entry (e : entry) : pyval * pyval * pyval := (PStr e.1.1, PStr e.1.2, e.2).

Lemma frame_entry_row e frame :
  storable e.2 → dumps (entry_value e) = Ok frame → frame_entry frame = Ok (raw_entry e).
Proof.
  intros [Hw _] Hf. unfold frame_entry, loads. rewrite <-(app_nil_r frame).
  assert (decodable (entry_value e) = true) as Hd by (cbn; by rewrite decodable_wire).
  rewrite (decode_written _ _ _ Hd Hf). unfold entry_value. cbn. by rewrite canon_wire.
Qed.

Lemma read_frames_row fuel e (r data : bytes) batch :
  storable e.2 → dump_row e = Ok r →
  read_frames ops (S fuel) (r ++ data) batch =
    (let batch' := batch ++ [raw_entry e] in
     if (BATCH <=? Z.of_nat (length batch'))%Z
     then flush ops batch' ;; read_frames ops fuel data []
     else read_frames ops fuel data batch').
Proof.
  intros Hst (frame&Hf&Hlt&->)%dump_row_inv. cbn [read_frames].
  rewrite <-app_assoc, take_app_length' by (by rewrite to_be_length).
  rewrite drop_app_length' by (by rewrite to_be_length).
  assert (length (to_be FRAME_size (N.of_nat (length frame))) = FRAME_size) as Hlen by apply to_be_length.
  destruct (to_be FRAME_size (N.of_nat (length frame))) as [|b bs] eqn:E; [done|]. rewrite <-E in *.
  rewrite Hlen, Nat.eqb_refl. cbn [negb]. unfold FRAME_unpack. rewrite of_be_to_be by done.
  rewrite N.min_l by (rewrite length_app; lia). rewrite Nat2N.id, take_app_length, N.eqb_refl.
  cbn [negb]. rewrite drop_app_length, (frame_entry_row e) by done. done.
Qed.

Lemma flush_wp set_many (l : list entry) x :
  op_set_many = Some set_many → sv_ok x → Forall (λ e, entry_ok e.1 e.2) l →
  wp (flush ops (raw_entry <$> l)) x (λ _ x',
    sv_ok x' ∧ sv_view x' = kv_set_many l (sv_view x)).
Proof.
  intros Hsm Hx Hl. unfold flush, method. rewrite Hsm. apply wp_bind, (wp_lift _ _ _ _ eq_refl).
  apply wp_bind. eapply (wp_lift _ l).
  { clear. induction l as [|[[ns k] v] l IH]; [done|]. cbn in *. by rewrite IH. }
  by eapply set_many_spec.
Qed.

(** Whole rows are read one by one, and applied a thousand at a time. *)
Lemma read_frames_rows set_many fuel (l before : list entry) raw tail x :
  op_set_many = Some set_many → sv_ok x → Forall (λ e, entry_ok e.1 e.2) (before ++ l) →
  (Z.of_nat (length before) < BATCH)%Z → rows_of l raw → (length (raw ++ tail) ≤ fuel)%nat →
  ∃ fuel' done pend x', before ++ l = done ++ pend ∧ (Z.of_nat (length pend) < BATCH)%Z ∧
    (BATCH | Z.of_nat (length done))%Z ∧ (length tail ≤ fuel')%nat ∧
    sv_ok x' ∧ sv_view x' = kv_set_many done (sv_view x) ∧
    read_frames ops fuel (raw ++ tail) (raw_entry <$> before) x =
      read_frames ops fuel' tail (raw_entry <$> pend) x'.
Proof.
  intros Hsm. revert fuel before raw x.
  induction l as [|e l IH]; intros fuel before raw x Hx Hok Hlen Hrows Hfuel.
  { destruct Hrows as (?&->%Forall2_nil_inv_l&->). rewrite app_nil_r in *.
    exists fuel, [], before, x. split_and!; try done. by apply Z.divide_0_r. }
  apply rows_of_cons in Hrows as (r&raw'&Hr&Hrows&->).
  destruct (dump_row_inv _ _ Hr) as (frame&_&_&Hreq). rewrite <-app_assoc, length_app in Hfuel.
  assert (4 ≤ length r)%nat by (rewrite Hreq, length_app, to_be_length; unfold FRAME_size; lia).
  destruct fuel as [|fuel]; [lia|].
  rewrite cons_middle, app_assoc in Hok |- *.
  assert (storable e.2) as Hst by (rewrite !Forall_app, Forall_singleton in Hok; apply Hok).
  rewrite <-(app_assoc r), (read_frames_row _ e) by done. cbv zeta.
  change [raw_entry e] with (raw_entry <$> [e]). rewrite <-fmap_app, length_fmap.
  destruct (Z.leb_spec BATCH (Z.of_nat (length (before ++ [e])))) as [Hge|Hlt].
  2:{ apply IH; done || lia. }
  apply Forall_app in Hok as [Hok1 Hok2].
  destruct (wp_elim _ _ _ (flush_wp _ _ _ Hsm Hx Hok1)) as ([]&x1&Hf&Hx1&Hv1).
  destruct (IH fuel [] raw' x1 Hx1 Hok2 ltac:(done) Hrows ltac:(lia))
    as (fuel'&d&pend&x'&Hsplit&Hp&Hd&Hf'&Hx'&Hv'&Hrun).
  exists fuel', ((before ++ [e]) ++ d), pend, x'. split_and!; try done.
  - cbn [app] in Hsplit. rewrite Hsplit. by rewrite app_assoc.
  - replace (Z.of_nat (length ((before ++ [e]) ++ d))) with (BATCH + Z.of_nat (length d))%Z
      by (rewrite !length_app in *; cbn [length] in *; lia).
    apply Z.divide_add_r; [apply Z.divide_refl|done].
  - by rewrite kv_set_many_app, <-Hv1.
  - unfold mbind at 1, pym_bind at 1. rewrite Hf. exact Hrun.
Qed.

Lemma read_frames_wp set_many fuel (l : list entry) data x :
  op_set_many = Some set_many → sv_ok x → Forall (λ e, entry_ok e.1 e.2) l →
  rows_of l data → (length data ≤ fuel)%nat →
  wp (read_frames ops fuel data []) x (λ _ x',
    sv_ok x' ∧ sv_view x' = kv_set_many l (sv_view x)).
Proof.
  intros Hsm Hx Hok Hrows Hfuel.
  destruct (read_frames_rows set_many fuel l [] data [] x)
    as (fuel'&d&pend&x'&Hsplit&_&_&_&Hx'&Hv'&Hrun); rewrite ?app_nil_r; try done.
  rewrite app_nil_r in Hrun. unfold wp. cbn [fmap list_fmap] in Hrun. rewrite Hrun.
  assert (read_frames ops fuel' [] (raw_entry <$> pend) =
    match pend with [] => mret tt | _ => flush ops (raw_entry <$> pend) end) as ->
    by (by destruct fuel', pend).
  cbn [app] in Hsplit. subst l. apply Forall_app in Hok as [_ Hok].
  rewrite kv_set_many_app, <-Hv'. destruct pend as [|e pend]; [done|by eapply flush_wp].
Qed.

Lemma load_store_header raw x :
  load_store ops (HEADER ++ raw) x = read_frames ops (length (HEADER ++ raw)) raw [] x.
Proof.
  assert (length HEADER = length MAGIC + 1)%nat as Hlen by (vm_compute; reflexivity).
  assert (take (length MAGIC) HEADER = MAGIC) as Hmagic by (vm_compute; reflexivity).
  assert (HEADER !! length MAGIC = Some (b8 FORMAT_VERSION)) as Hat by (vm_compute; reflexivity).
  assert ((n8 (b8 FORMAT_VERSION) =? FORMAT_VERSION)%N = true) as Hversion
    by (vm_compute; reflexivity).
  unfold load_store, read_store. rewrite <-Hlen, take_app_length, drop_app_length.
  rewrite bool_decide_eq_true_2 by exact Hmagic. rewrite Hat.
  generalize (read_frames ops (length (HEADER ++ raw))). intros frames.
  unfold mbind, pym_bind, lift, or_raise. rewrite Hversion. reflexivity.
Qed.

(** A well-formed dump is read completely. *)
Lemma load_store_wp set_many (l : list entry) raw x :
  op_set_many = Some set_many → sv_ok x → Forall (λ e, entry_ok e.1 e.2) l → rows_of l raw →
  wp (load_store ops (HEADER ++ raw)) x (λ _ x',
    sv_ok x' ∧ sv_view x' = kv_set_many l (sv_view x)).
Proof.
  intros Hsm Hx Hl Hraw. eapply wp_same; [apply load_store_header|].
  apply (read_frames_wp set_many); [done..|]. rewrite length_app. apply Nat.le_add_l.
Qed.
End Reading.


(** ** [dump_store], and back *)

Section Dumping.
Context {S X : Type} {ops : StoreOps S} {spec : StoreSpec S}
  {xops : StoreOps X} {xspec : StoreSpec X}.

(** Every selected entry fits in a frame: the codec takes it one level down, and
    its frame is shorter than 4 GiB. *)
Definition dumpable (pfx : option pystr) (m : kv) : Prop :=
  map_Forall (λ p v, is_ok (dump_row (p, v)) = true) (selected pfx m).

Lemma write_store_wp (f : pystr) (pfx : option pystr) (s : S) (fs : files) :
  complete (S:=S) → sv_ok s → from_option valid_text True pfx → dumpable pfx (sv_view s) →
  wp (write_store ops f pfx) (s, <[f := []]> fs) (λ n w, ∃ l,
    lists_entries (sv_view s) (λ p, has_prefix pfx p.1 = true) l ∧
    (sv_ok w.1 ∧ sv_view w.1 = sv_view s) ∧ written f fs l n w.2).
Proof.
  intros Hc Hs Hpfx Hd. unfold write_store. apply wp_bind. eapply on_snd_wp.
  { apply write_file_wp. rewrite lookup_insert_eq, insert_insert_eq. cbn [from_option id app].
    change (MAGIC ++ [b8 FORMAT_VERSION]) with HEADER.
    instantiate (1 := λ _ fs', fs' = <[f := HEADER]> fs). done. }
  intros [] fs1 ->.
  apply (for_entries_wp Hc (written f fs)); [done..|unfold BATCH; lia| |].
  - exists []. split; [apply rows_of_nil|]. by rewrite app_nil_r.
  - intros before batch n fs2 Hw Hb. apply write_batch_wp; [done|].
    eapply Forall_impl; [exact Hb|]. intros [p v] [Hp Hpx]. apply Hd.
    by apply map_lookup_filter_Some.
Qed.

Lemma dump_store_wp (path : pystr) (pfx : option pystr) (s : S) (fs : files) :
  complete (S:=S) → sv_ok s → from_option valid_text True pfx → dumpable pfx (sv_view s) →
  wp (dump_store ops path pfx) (s, fs) (λ n w, ∃ l raw,
    lists_entries (sv_view s) (λ p, has_prefix pfx p.1 = true) l ∧ rows_of l raw ∧
    (sv_ok w.1 ∧ sv_view w.1 = sv_view s) ∧ n = Z.of_nat (length l) ∧
    w.2 = <[path := HEADER ++ raw]> (delete (path ++ lit ".tmp") fs)).
Proof.
  intros Hc Hs Hpfx Hd. unfold dump_store. apply wp_bind.
  apply (on_snd_wp _ _ _ (λ _ fs', fs' = <[path ++ lit ".tmp" := []]> fs)); [by apply wp_modify|].
  intros [] fs1 ->.
  destruct (wp_elim _ _ _ (write_store_wp (path ++ lit ".tmp") pfx s fs Hc Hs Hpfx Hd))
    as (n&[s' fs']&Hrun&l&Hl&Hs'&raw&Hraw&Hfs&Hn). cbn in Hs', Hfs. subst fs'.
  unfold wp, act. rewrite Hrun. unfold on_snd, mbind, pym_bind, act, modify. cbn [fst snd].
  exists l, raw. split_and!; try done; try apply Hs'. cbn [fst snd].
  rewrite lookup_insert_eq, delete_insert_eq. done.
Qed.

(** C17: A dump read into a store adds exactly the entries dumped. [dump_store] of a
    path leaves the source as it was and every other file too, removes its
    temporary file, and returns how many entries the prefix selects; [load_store]
    of the file it wrote succeeds on any store, which afterwards maps every selected
    [(namespace, key)] to the source's value and the rest to what it held. The frames
    of the selected entries must be ones the codec takes ([dumpable]): a value nested
    128 levels deep can be stored but not framed. *)
Theorem dump_load_round_trip (path : pystr) (pfx : option pystr) (s : S) (x : X) (fs : files) :
  complete (S:=S) → complete (S:=X) → sv_ok s → sv_ok x → from_option valid_text True pfx →
  dumpable pfx (sv_view s) →
  ∃ n w data x',
    dump_store ops path pfx (s, fs) = (Ok n, w) ∧
    sv_view w.1 = sv_view s ∧
    w.2 = <[path := data]> (delete (path ++ lit ".tmp") fs) ∧
    n = Z.of_nat (size (selected pfx (sv_view s))) ∧
    load_store xops data x = (Ok tt, x') ∧
    sv_view x' = selected pfx (sv_view s) ∪ sv_view x.
Proof.
  intros Hc (_&[sm Hsm]&_) Hs Hx Hpfx Hd.
  destruct (wp_elim _ _ _ (dump_store_wp path pfx s fs Hc Hs Hpfx Hd))
    as (n&w&Hrun&l&raw&Hl&Hraw&[_ Hv]&Hn&Hfs).
  assert (Forall (λ e, entry_ok e.1 e.2) l) as Hok.
  { apply Forall_forall. intros [[ns k] v] [Hkv _]%Hl. exact (sv_text s ns k v Hs Hkv). }
  destruct (wp_elim _ _ _ (load_store_wp sm l raw x Hsm Hx Hok Hraw)) as ([]&x'&Hload&_&Hv').
  exists n, w, (HEADER ++ raw), x'. split_and!; try done.
  - rewrite Hn. f_equal. symmetry. exact (lists_entries_size _ _ _ Hl).
  - rewrite Hv'. exact (lists_entries_union _ _ _ _ Hl).
Qed.
End Dumping.

(** ** Failures *)

Section Failing.
Context {S : Type} {ops : StoreOps S}.

(** The files other than [f] are as they were. *)
Definition only_file (f : pystr) (w w' : S * files) : Prop := delete f w'.2 = delete f w.2.

#[local] Instance only_file_preorder f : PreOrder (only_file f).
Proof. split; [done|]. intros a b c Hab Hbc. unfold only_file in *. congruence. Qed.

Lemma steps_on_fst {A : Type} (f : pystr) (m : PyM S A) : steps (only_file f) (on_fst m).
Proof. intros [s fs]. unfold on_fst, act. cbn. by destruct (m s). Qed.

Lemma steps_on_snd {A : Type} (f : pystr) (m : PyM files A) :
  steps (λ fs fs', delete f fs' = delete f fs) m → steps (only_file f) (on_snd (S:=S) m).
Proof.
  intros Hm [s fs]. specialize (Hm fs). unfold on_snd, act, only_file. cbn. by destruct (m fs).
Qed.

#[local] Instance delete_eq_preorder (f : pystr) :
  PreOrder (λ fs fs' : files, delete f fs' = delete f fs).
Proof. split; [done|]. intros a b c Hab Hbc. congruence. Qed.

Lemma steps_write_file (f : pystr) (b : bytes) : steps (λ fs fs', delete f fs' = delete f fs) (write_file f b).
Proof. apply steps_modify. intros fs. by rewrite delete_insert_eq. Qed.

Lemma steps_write_store (f : pystr) (pfx : option pystr) : steps (only_file f) (write_store ops f pfx).
Proof.
  unfold write_store, for_entries, write_batch.
  apply steps_bind; [apply _|apply steps_on_snd, steps_write_file|]. intros [].
  apply steps_bind; [apply _|apply steps_on_fst|]. intros nss.
  apply steps_for_fold; [apply _|]. intros n ns.
  apply steps_bind; [apply _|apply steps_on_fst|]. intros ks.
  apply steps_for_fold; [apply _|]. intros n' chunk.
  apply steps_bind; [apply _|apply steps_on_fst|]. intros batch.
  apply steps_on_snd, steps_for_fold; [apply _|]. intros n'' [[ns' k] v].
  repeat (apply steps_bind; [apply _|apply steps_lift, _|intros ?]).
  repeat (apply steps_bind; [apply _|apply steps_write_file|intros []]).
  apply steps_ret, _.
Qed.

(** C19: A dump that fails leaves no trace: whatever exception [dump_store] raises, be
    it from the store or from a value the codec refuses, the file at the path and
    every other file are what they were, and the temporary file is gone. *)
Theorem dump_failure_keeps_files (path : pystr) (pfx : option pystr) (s s' : S) (fs fs' : files) e :
  dump_store ops path pfx (s, fs) = (Raise e, (s', fs')) →
  fs' = delete (path ++ lit ".tmp") fs.
Proof.
  unfold dump_store, mbind at 1, pym_bind at 1, on_snd at 1, act. cbn.
  pose proof (steps_write_store (path ++ lit ".tmp") pfx (s, <[path ++ lit ".tmp" := []]> fs)) as H.
  unfold only_file in H. cbn in H. rewrite delete_insert_eq in H.
  destruct (write_store ops (path ++ lit ".tmp") pfx _) as [[n|e'|] [s1 fs1]]; cbn in *; [done| |done].
  by intros [= _ _ <-].
Qed.
End Failing.

(** ** Damaged files *)

Section Damaged.
Context {X : Type} {ops : StoreOps X} {spec : StoreSpec X}.

(** What is left of a row that was cut short cannot be read. *)
Lemma read_frames_cut e r (n fuel : nat) batch x :
  dump_row e = Ok r → (0 < n < length r)%nat → (n ≤ fuel)%nat →
  read_frames ops fuel (take n r) batch x = (Raise ValueError, x).
Proof.
  intros (frame&_&Hlt&->)%dump_row_inv Hn Hfuel.
  set (size := to_be FRAME_size (N.of_nat (length frame))) in *.
  assert (length size = 4)%nat as Hlen by (unfold size; by rewrite to_be_length).
  destruct fuel as [|fuel]; [lia|]. cbn [read_frames]. rewrite take_take.
  destruct (decide (n < 4)%nat) as [Hcut|Hcut].
  - rewrite Nat.min_r by (unfold FRAME_size; lia). rewrite take_app_le by lia.
    assert (length (take n size) = n) as Hl by (rewrite length_take; lia).
    destruct (take n size) as [|b bs] eqn:E; [cbn in Hl; lia|]. rewrite <-E in *.
    rewrite Hl. destruct (Nat.eqb_spec n FRAME_size); [unfold FRAME_size in *; lia|done].
  - rewrite Nat.min_l by (unfold FRAME_size; lia). rewrite take_app_length' by done.
    destruct size as [|b bs] eqn:E; [done|]. rewrite <-E in *.
    replace (length size =? FRAME_size)%nat with true by (by rewrite Hlen).
    cbn [negb]. rewrite skipn_firstn_comm, drop_app_length' by done.
    unfold FRAME_unpack, size. rewrite of_be_to_be by done.
    rewrite length_app in Hn.
    assert (length (take (n - FRAME_size) frame) < length frame)%nat as Hshort
      by (rewrite length_take; unfold FRAME_size; lia).
    rewrite N.min_r by lia. rewrite Nat2N.id, firstn_all.
    destruct (N.eqb_spec (N.of_nat (length (take (n - FRAME_size) frame))) (N.of_nat (length frame)));
      [lia|done].
Qed.

(** A dump that was cut short inside an entry is reported, and what the store
    holds afterwards is known: with [l] the complete entries before the cut,
    [load_store] raises ValueError after having written exactly the full batches of
    a thousand of [l]. *)
Theorem load_truncated (l : list entry) (raw : bytes) e r (n : nat) (x : X) :
  is_Some (op_set_many (S:=X)) → sv_ok x → Forall (λ e, entry_ok e.1 e.2) l →
  rows_of l raw → dump_row e = Ok r → (0 < n < length r)%nat →
  ∃ x', load_store ops (HEADER ++ raw ++ take n r) x = (Raise ValueError, x') ∧
    sv_view x' =
      kv_set_many (take (Z.to_nat (Z.of_nat (length l) / BATCH * BATCH)) l) (sv_view x).
Proof.
  intros [sm Hsm] Hx Hl Hraw Hr Hn.
  destruct (read_frames_rows sm (length (HEADER ++ raw ++ take n r)) l [] raw (take n r) x)
    as (fuel'&d&pend&x'&Hsplit&Hp&Hd&Hf&Hx'&Hv&Hrun); rewrite ?length_app; try done; try lia.
  cbn [fmap list_fmap] in Hrun. exists x'. rewrite load_store_header, Hrun. split.
  - eapply read_frames_cut; [done..|]. rewrite length_take in Hf. lia.
  - rewrite Hv. f_equal. cbn [app] in Hsplit. subst l. destruct Hd as [q Hq].
    rewrite length_app, Nat2Z.inj_add, Hq, Z.div_add_l by (unfold BATCH; lia).
    rewrite Z.div_small, Z.add_0_r, <-Hq, Nat2Z.id by lia. by rewrite take_app_length.
Qed.

(** A file that is not a dump is refused before the store is touched: a header
    that does not start with the magic bytes and a version other than 1 raise
    ValueError, and a file that ends right after the magic bytes raises IndexError. *)
Theorem load_refuses_foreign (data : bytes) (version : Byte.byte) (rest : bytes) (x : X) :
  take 7 data ≠ MAGIC → n8 version ≠ FORMAT_VERSION →
  load_store ops data x = (Raise ValueError, x) ∧
  load_store ops (MAGIC ++ version :: rest) x = (Raise ValueError, x) ∧
  load_store ops MAGIC x = (Raise IndexError, x).
Proof.
  intros Hm Hv. unfold load_store, read_store. split_and!; [| |done].
  - rewrite take_take, Nat.min_l by (cbn; lia).
    by rewrite bool_decide_eq_false_2.
  - change (length MAGIC + 1)%nat with 8%nat. change (MAGIC ++ version :: rest) with
      ((MAGIC ++ [version]) ++ rest). rewrite take_app_length' by done.
    rewrite bool_decide_eq_true_2 by done. cbn [negb].
    change ((MAGIC ++ [version]) !! length MAGIC) with (Some version).
    unfold mbind, pym_bind, lift, or_raise.
    destruct (N.eqb_spec (n8 version) FORMAT_VERSION); [done|]. done.
Qed.
End Damaged.

(** ** Examples *)

Lemma dump_load_round_trip_witness :
  ∃ n w data x',
    dump_store ex_store (lit "s") None (ex_source, {[ lit "s" := [] ]}) = (Ok n, w) ∧
    w.1 = ex_source ∧
    w.2 = <[lit "s" := data]> (delete (lit "s" ++ lit ".tmp") {[ lit "s" := [] ]}) ∧
    n = Z.of_nat (size (selected None ex_source)) ∧
    load_store ex_store data ex_target = (Ok tt, x') ∧
    x' = selected None ex_source ∪ ex_target.
Proof.
  refine (dump_load_round_trip (spec:=ref_spec true true false) (xspec:=ref_spec true true false)
    (lit "s") None ex_source ex_target {[ lit "s" := [] ]} ref_complete ref_complete
    ex_source_ok ex_target_ok I _).
  apply (bool_decide_unpack _). vm_compute. exact I.
Defined.

(** A value nested as deeply as a store takes it. *)
Fixpoint nested (n : nat) : pyval := match n with O => PNone | S n => PList [nested n] end.
Definition ex_deep : kv := {[ (lit "n", lit "k") := nested 128 ]}.

Lemma dump_failure_keeps_files_witness : ∃ s' fs',
  dump_store ex_store (lit "s") None (ex_deep, {[ lit "s" := [b8 1] ]}) =
    (Raise ValueError, (s', fs')) ∧
  fs' = delete (lit "s" ++ lit ".tmp") {[ lit "s" := [b8 1] ]}.
Proof.
  destruct (dump_store ex_store (lit "s") None (ex_deep, {[ lit "s" := [b8 1] ]}))
    as [r [s' fs']] eqn:E.
  assert (r = Raise ValueError) as ->.
  { transitivity (dump_store ex_store (lit "s") None (ex_deep, {[ lit "s" := [b8 1] ]})).1;
      [by rewrite E|by vm_compute]. }
  exists s', fs'. split; [done|].
  exact (dump_failure_keeps_files (ops:=ex_store) (lit "s") None ex_deep s' _ fs' _ E).
Defined.

(** The deepest value the codec takes, and every store holds, cannot be dumped:
    its frame is one level deeper. *)
Example deep_value_not_dumpable :
  storable (nested 128) ∧ is_ok (encode (nested 128)) = true ∧
  (dump_store ex_store (lit "s") None (ex_deep, ∅)).1 = Raise ValueError.
Proof. split; [apply (bool_decide_unpack _); by vm_compute|]. by vm_compute. Qed.

Definition ex_row (k : String.string) (z : Z) : entry := (lit "ns", lit k, PInt z).
Definition ok_or_nil {A} (r : result (list A)) : list A := match r with Ok l => l | _ => [] end.

Lemma load_truncated_witness : ∃ x',
  load_store ex_store (HEADER ++ ok_or_nil (dump_row (ex_row "a" 1)) ++
    take 5 (ok_or_nil (dump_row (ex_row "b" 2)))) ex_target = (Raise ValueError, x') ∧
  x' = kv_set_many (take (Z.to_nat (1 / BATCH * BATCH)) [ex_row "a" 1]) ex_target.
Proof.
  refine (load_truncated (ops:=ex_store) (spec:=ref_spec true true false) [ex_row "a" 1] _
    (ex_row "b" 2) (ok_or_nil (dump_row (ex_row "b" 2))) 5 ex_target _ ex_target_ok _ _ _ _).
  - by eexists.
  - repeat constructor; by apply (bool_decide_unpack _).
  - exists [ok_or_nil (dump_row (ex_row "a" 1))]. split; [repeat constructor; by vm_compute|].
    by vm_compute.
  - by vm_compute.
  - split; apply (bool_decide_unpack _); by vm_compute.
Defined.

Lemma load_refuses_foreign_witness :
  load_store ex_store ([b8 104]) ex_target = (Raise ValueError, ex_target) ∧
  load_store ex_store (MAGIC ++ [b8 2]) ex_target = (Raise ValueError, ex_target) ∧
  load_store ex_store MAGIC ex_target = (Raise IndexError, ex_target).
Proof.
  apply (load_refuses_foreign (ops:=ex_store) ([b8 104]) (b8 2) [] ex_target).
  - apply (bool_decide_unpack _). by vm_compute.
  - by vm_compute.
Defined.
