(* ===== verification/Snapshot.v ===== *)
(** * Snapshots of the copy-based backends

    [python/swarmstate/backends/_snapshot.py]: the id/parent chain each store
    hands out, and the copy of the rows a snapshot holds with its [diff]. The
    clock reading is an argument. *)

From S2P Require Import Prelude PyValue.

(** ** [SnapshotMeta] *)

Record SnapshotMeta := { sm_seq : Z; sm_last : option Z }.

Definition SnapshotMeta_init : SnapshotMeta := {| sm_seq := 0; sm_last := None |}.

(** [next()]: the new id, the clock, and the previous id. *)
Definition SnapshotMeta_next (now : Z) (m : SnapshotMeta) : (Z * Z * option Z) * SnapshotMeta :=
  let snapshot_id := (sm_seq m + 1)%Z in
  let parent := sm_last m in
  ((snapshot_id, now, parent), {| sm_seq := snapshot_id; sm_last := Some snapshot_id |}).

(** [n] snapshots in a row, at the given clock readings. *)
Fixpoint SnapshotMeta_nexts (clock : list Z) (m : SnapshotMeta) : list (Z * Z * option Z) :=
  match clock with
  | [] => []
  | now :: clock' =>
      let '(triple, m') := SnapshotMeta_next now m in triple :: SnapshotMeta_nexts clock' m'
  end.

(** ** [CopySnapshot] *)

Abbreviation row := (pystr * pystr * bytes)%type.

Record CopySnapshot := {
  snap_rows : list row;
  snap_id : Z;
  snap_timestamp : Z;
  snap_parent : option Z;
  snap_size_bytes : nat;
}.

Definition CopySnapshot_init (rows : list row) (meta : Z * Z * option Z) : CopySnapshot :=
  let '(snapshot_id, timestamp, parent) := meta in
  {| snap_rows := rows; snap_id := snapshot_id; snap_timestamp := timestamp;
     snap_parent := parent;
     snap_size_bytes := foldr (λ r n, length r.2 + n) 0 rows |}.

Definition CopySnapshot_keys (s : CopySnapshot) : list (pystr * pystr) := (snap_rows s).*1.

Record Diff := {
  added : list (pystr * pystr);
  removed : list (pystr * pystr);
  changed : list (pystr * pystr);
}.

Definition CopySnapshot_diff (self base : CopySnapshot) : Diff :=
  let mine := od_of_list (snap_rows self) in
  let theirs := od_of_list (snap_rows base) in
  {| added := filter (λ p, od_has theirs p = false) mine.*1;
     removed := filter (λ p, od_has mine p = false) theirs.*1;
     changed := (filter (λ e, match od_get theirs e.1 with
                              | Some v => negb (bool_decide (v = e.2))
                              | None => false
                              end = true) mine).*1 |}.

(** The row a snapshot holds for a key (what [restore] would put back). *)
Definition snap_get (s : CopySnapshot) (p : pystr * pystr) : option bytes :=
  od_get (od_of_list (snap_rows s)) p.

(** What a reader of a diff does with it: from the rows of [base], drop the
    [removed] keys, then write [s]'s row of each [added] and [changed] key. *)
Definition patch (s base : CopySnapshot) (d : Diff) : list row :=
  foldl (λ rows p, match snap_get s p with Some v => od_set rows p v | None => rows end)
    (filter (λ e, e.1 ∉ removed d) (od_of_list (snap_rows base)))
    (added d ++ changed d).

(** ** Lemmas *)

Lemma patch_writes_get (s : CopySnapshot) (l : list (pystr * pystr)) (rows : list row) p :
  (∀ q, q ∈ l → is_Some (snap_get s q)) →
  od_get (foldl (λ rows p, match snap_get s p with Some v => od_set rows p v | None => rows end)
            rows l) p =
  if decide (p ∈ l) then snap_get s p else od_get rows p.
Proof.
  intros Hl. induction l as [|q l IH] using rev_ind; [done|].
  destruct (Hl q) as [v Hv]; [set_solver|]. rewrite foldl_app. cbn [foldl].
  rewrite Hv, od_get_set, IH by set_solver.
  repeat case_decide; subst; set_solver.
Qed.

Lemma od_get_filter_keys (rows : list row) (l : list (pystr * pystr)) p :
  od_get (filter (λ e, e.1 ∉ l) rows) p = if decide (p ∈ l) then None else od_get rows p.
Proof.
  induction rows as [|[q v] rows IH]; [by case_decide|].
  rewrite filter_cons. simpl. repeat case_decide; subst; simpl; rewrite ?IH;
    repeat case_decide; subst; done.
Qed.

Lemma snap_get_keys s p : p ∈ (od_of_list (snap_rows s)).*1 ↔ is_Some (snap_get s p).
Proof. unfold snap_get. by rewrite od_get_Some_keys. Qed.

Lemma od_has_false_get {K V} `{EqDecision K} (d : list (K * V)) k :
  od_has d k = false ↔ od_get d k = None.
Proof. unfold od_has. by destruct (od_get d k). Qed.

Lemma diff_added s b p :
  p ∈ added (CopySnapshot_diff s b) ↔ is_Some (snap_get s p) ∧ snap_get b p = None.
Proof. simpl. rewrite list_elem_of_filter, od_has_false_get, snap_get_keys. unfold snap_get. tauto. Qed.

Lemma diff_removed s b p :
  p ∈ removed (CopySnapshot_diff s b) ↔ snap_get s p = None ∧ is_Some (snap_get b p).
Proof. simpl. by rewrite list_elem_of_filter, od_has_false_get, snap_get_keys. Qed.

Lemma diff_changed s b p :
  p ∈ changed (CopySnapshot_diff s b) ↔
  ∃ v w, snap_get s p = Some v ∧ snap_get b p = Some w ∧ v ≠ w.
Proof.
  simpl. rewrite list_elem_of_fmap. split.
  - intros ([q v]&->&[Hne Hin]%list_elem_of_filter). simpl in *.
    apply od_get_elem_of in Hin; [|apply od_of_list_NoDup].
    destruct (od_get (od_of_list (snap_rows b)) q) as [w|] eqn:E; [|done].
    apply negb_true_iff, bool_decide_eq_false in Hne. exists v, w. by unfold snap_get.
  - intros (v&w&Hv&Hw&Hne). exists (p, v). split; [done|]. apply list_elem_of_filter. simpl.
    unfold snap_get in *. rewrite Hw. split; [by apply negb_true_iff, bool_decide_eq_false|].
    by apply od_get_elem_of; [apply od_of_list_NoDup|].
Qed.

Lemma diff_NoDup s b :
  NoDup (added (CopySnapshot_diff s b)) ∧ NoDup (removed (CopySnapshot_diff s b)) ∧
  NoDup (changed (CopySnapshot_diff s b)).
Proof.
  split_and!; simpl; try (apply NoDup_filter, od_of_list_NoDup).
  eapply sublist_NoDup; [apply (od_of_list_NoDup (snap_rows s))|].
  apply fmap_sublist, sublist_filter.
Qed.

(** The id a store gives its [n]th snapshot, and the parent it names. *)
Lemma SnapshotMeta_nexts_lookup clock m n now :
  clock !! n = Some now →
  (∀ i, sm_last m = Some i → i = sm_seq m) → (sm_last m = None → sm_seq m = 0%Z) →
  SnapshotMeta_nexts clock m !! n =
    Some ((sm_seq m + Z.of_nat n + 1)%Z, now,
          if decide (n = 0) then sm_last m else Some (sm_seq m + Z.of_nat n)%Z).
Proof.
  revert m n. induction clock as [|c clock IH]; intros m n; [done|].
  destruct n as [|n]; simpl; intros Hn Hl Hz.
  - injection Hn as <-. do 3 f_equal. lia.
  - rewrite IH; simpl; [|done|by intros ? [= <-]|done].
    do 3 f_equal; [lia|]. case_decide; subst; f_equal; lia.
Qed.

(** ** Properties *)

(** ["{added, removed, changed}" describes how to get from [base] to this
    snapshot]: starting from the rows of [base], dropping the [removed] keys and
    writing this snapshot's row for the [added] and [changed] ones ([patch]) gives
    exactly the rows of this snapshot; the three lists name each key at most once, a key in at most
    one of them, and only keys on which the two snapshots differ. *)
Theorem diff_describes s b :
  let d := CopySnapshot_diff s b in
  (∀ p, od_get (patch s b d) p = snap_get s p) ∧
  (∀ p, p ∈ added d ++ removed d ++ changed d ↔ snap_get s p ≠ snap_get b p) ∧
  NoDup (added d ++ removed d ++ changed d).
Proof.
  intros d. subst d.
  assert (∀ p, p ∈ added (CopySnapshot_diff s b) ++ removed (CopySnapshot_diff s b) ++
                   changed (CopySnapshot_diff s b) ↔ snap_get s p ≠ snap_get b p) as Hdiff.
  { intros p. rewrite !elem_of_app, diff_added, diff_removed, diff_changed.
    destruct (snap_get s p) as [v|], (snap_get b p) as [w|]; split; naive_solver. }
  split_and!; [|exact Hdiff|].
  - intros p. specialize (Hdiff p). rewrite !elem_of_app in Hdiff.
    pose proof (diff_removed s b p) as Hr.
    unfold patch. rewrite patch_writes_get.
    2:{ intros q [?%diff_added|(v&w&->&_)%diff_changed]%elem_of_app; naive_solver. }
    rewrite od_get_filter_keys.
    fold (snap_get b p). destruct (decide (p ∈ _ ++ _)) as [|H']; [done|].
    rewrite elem_of_app in H'. destruct (decide (p ∈ _)) as [H|H].
    + by apply Hr in H as [-> _].
    + destruct (decide (snap_get s p = snap_get b p)) as [|Hne]; [done|]. tauto.
  - destruct (diff_NoDup s b) as (Ha&Hr&Hc). apply NoDup_app. split_and!; [done| |].
    + intros p [Hs Hb]%diff_added. rewrite elem_of_app, diff_removed, diff_changed.
      rewrite Hb. intros [[Hn _]|(v&w&_&?&_)]; [|done]. rewrite Hn in Hs. by destruct Hs.
    + apply NoDup_app. split_and!; [done| |done].
      intros p [Hs _]%diff_removed. rewrite diff_changed, Hs. by intros (v&w&?&_).
Qed.

(** A store's snapshots are numbered 1, 2, 3, ... and each names the one
    before it as its parent (the first names none), whatever the clock says. *)
Theorem snapshots_chain clock n now :
  clock !! n = Some now →
  SnapshotMeta_nexts clock SnapshotMeta_init !! n =
    Some ((Z.of_nat n + 1)%Z, now, if decide (n = 0) then None else Some (Z.of_nat n)).
Proof. intros Hn. by rewrite (SnapshotMeta_nexts_lookup _ _ _ now). Qed.

Lemma snapshots_chain_witness :
  SnapshotMeta_nexts [5; 3; 9]%Z SnapshotMeta_init !! 2 = Some (3, 9, Some 2)%Z.
Proof. exact (snapshots_chain [5; 3; 9]%Z 2 9 eq_refl). Defined.
