(* ===== verification/WireRows.v ===== *)
(** * Rows of packed values

    Every persistent store keeps [(namespace, key)] against the [msgpack] bytes of
    a value. What such rows mean, given how bytes unpack, is shared here, and so is
    the grouping of pairs by namespace that the batch methods do. *)

From S2P Require Import Prelude PyValue Store Snapshot.

Abbreviation table := (gmap (pystr * pystr) bytes).

(** [by_ns.setdefault(ns, []).append(key)] over the pairs *)
Definition group_by_ns (pairs : list (pystr * pystr)) : list (pystr * list pystr) :=
  foldl (λ d p, od_set d p.1 (from_option id [] (od_get d p.1) ++ [p.2])) [] pairs.

(** ** Lemmas: [get_many] groups the pairs by namespace *)

Lemma group_by_ns_snoc (pairs : list (pystr * pystr)) (p : pystr * pystr) :
  group_by_ns (pairs ++ [p]) =
  od_set (group_by_ns pairs) p.1 (from_option id [] (od_get (group_by_ns pairs) p.1) ++ [p.2]).
Proof. unfold group_by_ns. by rewrite foldl_app. Qed.

Lemma group_by_ns_spec pairs ns k :
  k ∈ from_option id [] (od_get (group_by_ns pairs) ns) ↔ (ns, k) ∈ pairs.
Proof.
  induction pairs as [|[n k'] pairs IH] using rev_ind; [simpl; by rewrite !elem_of_nil|].
  rewrite group_by_ns_snoc, od_get_set, elem_of_app, list_elem_of_singleton. simpl.
  case_decide; subst; simpl.
  - rewrite elem_of_app, IH, list_elem_of_singleton. naive_solver.
  - rewrite IH. naive_solver.
Qed.

Lemma group_by_ns_NoDup pairs : NoDup (group_by_ns pairs).*1.
Proof.
  induction pairs as [|p pairs IH] using rev_ind; [constructor|].
  rewrite group_by_ns_snoc. by apply od_set_NoDup.
Qed.

Lemma group_by_ns_keys pairs ns : ns ∈ (group_by_ns pairs).*1 ↔ ns ∈ pairs.*1.
Proof.
  induction pairs as [|p pairs IH] using rev_ind; [done|].
  rewrite group_by_ns_snoc, od_set_keys, IH, fmap_app, elem_of_app. simpl.
  rewrite list_elem_of_singleton. tauto.
Qed.

Lemma group_by_ns_group pairs ns ks k :
  (ns, ks) ∈ group_by_ns pairs → k ∈ ks → (ns, k) ∈ pairs.
Proof.
  intros Hin%od_get_elem_of Hk; [|apply group_by_ns_NoDup].
  apply group_by_ns_spec. by rewrite Hin.
Qed.

(** The pairs of the groups, one by one. *)
Definition ungroup (groups : list (pystr * list pystr)) : list (pystr * pystr) :=
  groups ≫= (λ g, (λ k, (g.1, k)) <$> g.2).

Lemma elem_of_ungroup (groups : list (pystr * list pystr)) ns k :
  (ns, k) ∈ ungroup groups ↔ ∃ ks, (ns, ks) ∈ groups ∧ k ∈ ks.
Proof.
  unfold ungroup. rewrite list_elem_of_bind. split.
  - intros ([n ks]&Hin&Hg). apply list_elem_of_fmap in Hin as (k'&[= -> ->]&Hk). by exists ks.
  - intros (ks&Hg&Hk). exists (ns, ks). split; [|done]. apply list_elem_of_fmap. by exists k.
Qed.

Lemma ungroup_group_by_ns pairs p : p ∈ ungroup (group_by_ns pairs) ↔ p ∈ pairs.
Proof.
  destruct p as [ns k]. rewrite elem_of_ungroup, <-group_by_ns_spec. split.
  - intros (ks&Hg%od_get_elem_of&Hk); [|apply group_by_ns_NoDup]. by rewrite Hg.
  - destruct (od_get (group_by_ns pairs) ns) as [ks|] eqn:E; cbn; [|by intros ?%not_elem_of_nil].
    intros Hk. exists ks. split; [|done]. apply od_get_elem_of; [apply group_by_ns_NoDup|done].
Qed.

(** ** Deleting many rows *)

Lemma deletes_lookup {V} (t : gmap (pystr * pystr) V) (pairs : list (pystr * pystr)) p :
  foldl (λ t p, delete p t) t pairs !! p = if decide (p ∈ pairs) then None else t !! p.
Proof.
  revert t. induction pairs as [|q pairs IH]; intros t; cbn [foldl].
  - rewrite decide_False; [done|apply not_elem_of_nil].
  - rewrite IH, lookup_delete. pose proof (elem_of_cons pairs p q) as Hc.
    destruct (decide (p ∈ pairs)), (decide (p ∈ q :: pairs)), (decide (q = p)); tauto || naive_solver.
Qed.

Lemma deletes_ext {V} (t : gmap (pystr * pystr) V) (l k : list (pystr * pystr)) :
  (∀ p, p ∈ l ↔ p ∈ k) → foldl (λ t p, delete p t) t l = foldl (λ t p, delete p t) t k.
Proof.
  intros Hlk. apply map_eq. intros p. rewrite !deletes_lookup. pose proof (Hlk p).
  destruct (decide (p ∈ l)), (decide (p ∈ k)); tauto || done.
Qed.

(** ** The rows of a namespace, and the namespaces *)

Definition ns_rows (ns : pystr) (t : table) : list (pystr * bytes) :=
  omap (λ e, if decide (e.1.1 = ns) then Some (e.1.2, e.2) else None) (map_to_list t).

(** [SELECT DISTINCT ns] *)
Definition distinct_ns (t : table) : list pystr := remove_dups ((λ e, e.1.1) <$> map_to_list t).

Lemma ns_rows_elem ns t k v : (k, v) ∈ ns_rows ns t ↔ t !! (ns, k) = Some v.
Proof.
  unfold ns_rows. rewrite list_elem_of_omap. split.
  - intros ([[n k'] v']&Hin&H). simpl in H. case_decide; simplify_eq.
    by apply elem_of_map_to_list in Hin.
  - intros Hv. exists (ns, k, v). rewrite elem_of_map_to_list. simpl. by rewrite decide_True.
Qed.

Lemma ns_rows_keys_elem ns t k : k ∈ (ns_rows ns t).*1 ↔ is_Some (t !! (ns, k)).
Proof.
  rewrite list_elem_of_fmap. split.
  - intros ([k' v]&->&Hin%ns_rows_elem). eauto.
  - intros [v Hv]. exists (k, v). by rewrite ns_rows_elem.
Qed.

Lemma ns_rows_NoDup ns t : NoDup (ns_rows ns t).*1.
Proof.
  unfold ns_rows. pose proof (NoDup_fst_map_to_list t) as Hnd.
  induction (map_to_list t) as [|[[n k] v] l IH]; simpl; [constructor|].
  apply NoDup_cons in Hnd as [Hk Hnd]. case_decide; [|auto]. simpl in *. subst.
  constructor; [|auto]. intros ([k' v']&->&Hin)%list_elem_of_fmap. apply Hk.
  apply list_elem_of_omap in Hin as ([[n' k''] v'']&Hin&H). simpl in *.
  case_decide; simplify_eq. apply list_elem_of_fmap. by exists (ns, k', v').
Qed.

Lemma distinct_ns_elem t ns : ns ∈ distinct_ns t ↔ ∃ k, is_Some (t !! (ns, k)).
Proof.
  unfold distinct_ns. rewrite elem_of_remove_dups, list_elem_of_fmap. split.
  - intros ([[n k] v]&->&Hin%elem_of_map_to_list). simpl. eauto.
  - intros (k&v&Hv). exists (ns, k, v). by rewrite elem_of_map_to_list.
Qed.

(** ** Writing many rows *)

(** Rows written one after the other. *)
Definition rows_written (t : table) (rows : list row) : table :=
  foldl (λ t r, <[r.1 := r.2]> t) t rows.

Lemma rows_written_list_to_map (rows : list row) :
  NoDup rows.*1 → rows_written ∅ rows = list_to_map rows.
Proof.
  induction rows as [|[p b] rows IH] using rev_ind; [done|].
  rewrite fmap_app. intros (Hnd&Hp&_)%NoDup_app. unfold rows_written in *. rewrite foldl_app. cbn.
  rewrite IH by done. symmetry. apply list_to_map_snoc. intros Hin. apply (Hp p Hin). left.
Qed.

Lemma rows_written_perm (rows : list row) (t : table) :
  rows ≡ₚ map_to_list t → rows_written ∅ rows = t.
Proof.
  intros Hp. assert (NoDup rows.*1) as Hnd by (rewrite Hp; apply NoDup_fst_map_to_list).
  rewrite rows_written_list_to_map by done.
  rewrite (list_to_map_proper rows (map_to_list t)) by done. apply list_to_map_to_list.
Qed.

Lemma rows_written_snapshot (t : table) : rows_written ∅ (map_to_list t) = t.
Proof. by apply rows_written_perm. Qed.

(** ** What the rows mean *)

Section Rows.
Context (unpack : bytes → result pyval).

Definition unpacked (b : bytes) : pyval := match unpack b with Ok v => v | _ => PNone end.
Definition row_ok (p : pystr * pystr) (b : bytes) : Prop :=
  valid_text p.1 ∧ valid_text p.2 ∧ ∃ v, unpack b = Ok v ∧ storable v.

Lemma row_ok_subset (t t' : table) :
  (∀ p b, t' !! p = Some b → t !! p = Some b) → map_Forall row_ok t → map_Forall row_ok t'.
Proof. intros Hs Ht p b Hb. apply Ht, Hs, Hb. Qed.

(** A packed item: its row. *)
Definition packs (i : pystr * pystr * pyval) (r : row) : Prop :=
  r.1 = i.1 ∧ unpack r.2 = Ok i.2 ∧ row_ok r.1 r.2.

Lemma packed_insert (t : table) items rows :
  Forall2 packs items rows →
  unpacked <$> foldl (λ t (r : row), <[r.1 := r.2]> t) t rows = kv_set_many items (unpacked <$> t).
Proof.
  intros Hp. revert t. induction Hp as [|i r items rows (Hr&Hu&_) _ IH]; intros t; simpl; [done|].
  rewrite IH, fmap_insert, Hr. unfold kv_set_many. simpl. do 2 f_equal.
  unfold unpacked. by rewrite Hu.
Qed.

Lemma packed_row_ok (t : table) items rows :
  Forall2 packs items rows → map_Forall row_ok t →
  map_Forall row_ok (foldl (λ t (r : row), <[r.1 := r.2]> t) t rows).
Proof.
  intros Hp. revert t. induction Hp as [|i r items rows (_&_&Hr) _ IH]; intros t Ht; simpl; [done|].
  apply IH. destruct r as [p b]. by apply map_Forall_insert_2.
Qed.

Lemma unpacked_deletes (t : table) pairs :
  unpacked <$> foldl (λ t p, delete p t) t pairs = kv_delete_many pairs (unpacked <$> t).
Proof.
  apply map_eq. intros p. rewrite lookup_fmap, deletes_lookup, kv_delete_many_lookup, lookup_fmap.
  by case_decide.
Qed.

Lemma unpacked_delete_ns (t : table) ns :
  unpacked <$> filter (λ e, e.1.1 ≠ ns) t = kv_delete_namespace ns (unpacked <$> t).
Proof.
  apply map_eq. intros p. rewrite kv_delete_namespace_lookup, !lookup_fmap, delete_ns_lookup.
  by case_decide.
Qed.

Lemma deletes_row_ok (t : table) pairs :
  map_Forall row_ok t → map_Forall row_ok (foldl (λ t p, delete p t) t pairs).
Proof.
  apply row_ok_subset. intros p b. rewrite deletes_lookup. by case_decide.
Qed.
End Rows.
