(* ===== verification/RustStoreTheorems.v ===== *)
(** * The in-memory store meets the contract

    What a store holds, the invariant of its shards and byte counts, and the effect
    of every operation on both. *)

From Stdlib Require Import ZifyBool.
From S2P Require Import Prelude PyValue Codec CodecLemmas CodecTheorems.
From S2P Require Import Store StoreTrace Snapshot WireRows RustStore.

#[local] Arguments SHARDS : simpl never.

(** ** Byte counts modulo 2^64 *)

Definition cong64 (x y : Z) : Prop := wrap64 x = wrap64 y.

#[export] Instance cong64_equiv : Equivalence cong64.
Proof. split; [by intros x|by intros x y ?|]. intros x y z ??. unfold cong64 in *. congruence. Qed.

#[export] Instance cong64_add : Proper (cong64 ==> cong64 ==> cong64) Z.add.
Proof.
  intros x x' Hx y y' Hy. unfold cong64, wrap64 in *. by rewrite Zplus_mod, Hx, Hy, <-Zplus_mod.
Qed.

#[export] Instance cong64_opp : Proper (cong64 ==> cong64) Z.opp.
Proof.
  intros x x' Hx. unfold cong64, wrap64 in *.
  by rewrite <-!Z.sub_0_l, Zminus_mod, Hx, <-Zminus_mod.
Qed.

#[export] Instance cong64_sub : Proper (cong64 ==> cong64 ==> cong64) Z.sub.
Proof. intros x x' Hx y y' Hy. unfold Z.sub. by rewrite Hx, Hy. Qed.

Lemma wrap64_cong z : cong64 (wrap64 z) z.
Proof. unfold cong64, wrap64. by rewrite Zmod_mod. Qed.

Lemma wrap64_cong_add x n z : (x + n = z)%Z → wrap64 (wrap64 x + n) = wrap64 z.
Proof. intros <-. unfold wrap64. apply Zplus_mod_idemp_l. Qed.

Lemma wrap_i64_cong z : cong64 (wrap_i64 z) z.
Proof.
  unfold wrap_i64. destruct (_ <? _)%Z; [apply wrap64_cong|].
  transitivity (wrap64 z + -1 * 2 ^ 64)%Z; [by unfold Z.sub|].
  unfold cong64. transitivity (wrap64 (wrap64 z)); [apply Z_mod_plus_full|apply wrap64_cong].
Qed.

(** ** Sums over a map *)

Section Sums.
Context {A : Type} (f : A → Z).
Implicit Types m : gmap pystr A.

Lemma map_sum_empty : map_sum f ∅ = 0%Z.
Proof. apply map_fold_empty. Qed.

Lemma map_sum_insert_new m k x : m !! k = None → map_sum f (<[k := x]> m) = (f x + map_sum f m)%Z.
Proof. intros Hk. apply (map_fold_insert_L (λ _ x n, (f x + n)%Z)); [intros; cbn; lia|done]. Qed.

Lemma map_sum_delete m k x : m !! k = Some x → map_sum f (delete k m) = (map_sum f m - f x)%Z.
Proof.
  intros Hk. pose proof (map_fold_delete_L (λ _ x n, (f x + n)%Z) 0%Z k x m ltac:(intros; cbn; lia) Hk) as H.
  unfold map_sum. rewrite H. lia.
Qed.

Lemma map_sum_insert m k x :
  map_sum f (<[k := x]> m) = (map_sum f m - from_option f 0 (m !! k) + f x)%Z.
Proof.
  destruct (m !! k) as [y|] eqn:Hk; cbn [from_option].
  - rewrite <-(insert_delete_eq m k x), map_sum_insert_new by apply lookup_delete_eq.
    rewrite (map_sum_delete _ _ _ Hk). lia.
  - rewrite map_sum_insert_new by done. lia.
Qed.
End Sums.

(** ** The rows of a shard *)

Definition tab (m : NsMap) : table := map_uncurry (M1:=gmap pystr) (M2:=gmap pystr) (M12:=gmap (pystr * pystr)) m.

Lemma tab_lookup (m : NsMap) (ns k : pystr) : tab m !! (ns, k) = (kv ← m !! ns; kv !! k).
Proof. apply lookup_map_uncurry. Qed.

Definition shard_size (m : NsMap) : Z := map_sum (map_sum len_of) m.

Section Shards.
Context (hash : pystr → N).
Implicit Types (s : RustStore) (m : NsMap) (idx : nat).

(** Every namespace has a key, and hashes to its shard. *)
Definition shard_ok (idx : nat) m : Prop :=
  ∀ ns kv, m !! ns = Some kv → kv ≠ ∅ ∧ shard_index hash ns = idx.

Lemma shard_index_lt (ns : pystr) : shard_index hash ns < SHARDS.
Proof.
  unfold shard_index, SHARDS. pose proof (N.mod_lt (hash ns) (N.of_nat 16) ltac:(done)). lia.
Qed.

Lemma shard_ok_empty idx : shard_ok idx ∅.
Proof. by intros ns kv ?%lookup_empty_Some. Qed.

Lemma shard_ok_insert idx m (ns : pystr) (kv : KeyMap) :
  shard_ok idx m → kv ≠ ∅ → shard_index hash ns = idx → shard_ok idx (<[ns := kv]> m).
Proof.
  intros Hm Hkv Hns ns' kv' [[<- <-]|[_ H]]%lookup_insert_Some; [done|]. by apply Hm.
Qed.

Lemma shard_ok_delete idx m (ns : pystr) : shard_ok idx m → shard_ok idx (delete ns m).
Proof. intros Hm ns' kv' [_ H]%lookup_delete_Some. by apply Hm. Qed.

Lemma tab_insert m (ns : pystr) (kv : KeyMap) p :
  tab (<[ns := kv]> m) !! p = if decide (p.1 = ns) then kv !! p.2 else tab m !! p.
Proof.
  destruct p as [n k]. rewrite !tab_lookup. cbn [fst snd]. case_decide as Hn.
  - subst. by rewrite lookup_insert_eq.
  - by rewrite lookup_insert_ne by done.
Qed.

Lemma tab_delete m (ns : pystr) p :
  tab (delete ns m) !! p = if decide (p.1 = ns) then None else tab m !! p.
Proof.
  destruct p as [n k]. rewrite !tab_lookup. cbn [fst snd]. case_decide as Hn.
  - subst. by rewrite lookup_delete_eq.
  - by rewrite lookup_delete_ne by done.
Qed.

(** *** Writing and removing one entry *)

Lemma shard_insert_ok idx m (ns k : pystr) (b : bytes) :
  shard_ok idx m → shard_index hash ns = idx →
  let '(old_len, m') := shard_insert ns k b m in
  shard_ok idx m' ∧ tab m' = <[(ns, k) := b]> (tab m) ∧
  shard_size m' = (shard_size m + (len_of b - old_len))%Z.
Proof.
  intros Hm Hns. unfold shard_insert. destruct (m !! ns) as [kv|] eqn:E.
  - split_and!.
    + apply shard_ok_insert; [done| |done]. apply insert_non_empty.
    + apply map_eq. intros [n k']. rewrite tab_insert. cbn [fst snd].
      destruct (decide (n = ns)) as [->|Hn].
      * destruct (decide (k = k')) as [<-|Hk]; [by rewrite !lookup_insert_eq|].
        rewrite !lookup_insert_ne by congruence. by rewrite tab_lookup, E.
      * by rewrite lookup_insert_ne by congruence.
    + unfold shard_size. rewrite map_sum_insert, E. cbn [from_option]. rewrite map_sum_insert.
      destruct (kv !! k); cbn [from_option]; lia.
  - split_and!.
    + apply shard_ok_insert; [done| |done]. apply map_non_empty_singleton.
    + apply map_eq. intros [n k']. rewrite tab_insert. cbn [fst snd].
      destruct (decide (n = ns)) as [->|Hn].
      * destruct (decide (k = k')) as [<-|Hk]; [by rewrite lookup_singleton_eq, lookup_insert_eq|].
        rewrite lookup_singleton_ne, lookup_insert_ne by congruence. by rewrite tab_lookup, E.
      * by rewrite lookup_insert_ne by congruence.
    + unfold shard_size. rewrite map_sum_insert, E. cbn [from_option].
      rewrite <-insert_empty, map_sum_insert, lookup_empty, map_sum_empty. cbn [from_option]. lia.
Qed.

Lemma shard_remove_ok idx m (ns k : pystr) (kv : KeyMap) :
  shard_ok idx m → m !! ns = Some kv →
  let m' := if decide (delete k kv = ∅) then delete ns m else <[ns := delete k kv]> m in
  shard_ok idx m' ∧ tab m' = delete (ns, k) (tab m) ∧
  shard_size m' = (shard_size m - from_option len_of 0 (kv !! k))%Z.
Proof.
  intros Hm E m'. subst m'.
  assert (map_sum len_of (delete k kv) = map_sum len_of kv - from_option len_of 0 (kv !! k))%Z as Hsum.
  { destruct (kv !! k) as [old|] eqn:Ek; cbn [from_option]; [by apply map_sum_delete|].
    rewrite delete_id by done. lia. }
  case_decide as He; split_and!.
  - by apply shard_ok_delete.
  - apply map_eq. intros [n k']. rewrite tab_delete. cbn [fst snd].
    destruct (decide (n = ns)) as [->|Hn].
    + destruct (decide (k = k')) as [<-|Hk]; [by rewrite lookup_delete_eq|].
      rewrite lookup_delete_ne by congruence. rewrite tab_lookup, E. cbn [mbind option_bind].
      by rewrite <-(lookup_delete_ne kv k k') by done; rewrite He, lookup_empty.
    + by rewrite lookup_delete_ne by congruence.
  - unfold shard_size. rewrite (map_sum_delete _ _ _ _ E).
    rewrite He, map_sum_empty in Hsum. lia.
  - apply shard_ok_insert; [done|done|]. by apply (Hm _ _ E).
  - apply map_eq. intros [n k']. rewrite tab_insert. cbn [fst snd].
    destruct (decide (n = ns)) as [->|Hn].
    + destruct (decide (k = k')) as [<-|Hk]; [by rewrite !lookup_delete_eq|].
      rewrite !lookup_delete_ne by congruence. by rewrite tab_lookup, E.
    + by rewrite lookup_delete_ne by congruence.
  - unfold shard_size. rewrite map_sum_insert, E. cbn [from_option]. lia.
Qed.

(** *** Batches, one bucket at a time *)

Lemma insert_bucket_ok idx m (bucket : list Entry) :
  shard_ok idx m → Forall (λ e, shard_index hash e.1.1 = idx) bucket →
  let '(m', delta) := insert_bucket bucket m in
  shard_ok idx m' ∧ tab m' = rows_written (tab m) bucket ∧ cong64 (shard_size m') (shard_size m + delta).
Proof.
  intros Hm Hb. unfold insert_bucket.
  assert (∀ m d, shard_ok idx m →
    let '(m', d') := foldl (λ acc e, let '(m, delta) := acc in
        let '(old_len, m') := shard_insert e.1.1 e.1.2 e.2 m in
        (m', wrap_i64 (delta + (len_of e.2 - old_len)))) (m, d) bucket in
    shard_ok idx m' ∧ tab m' = rows_written (tab m) bucket ∧
    cong64 (shard_size m') (shard_size m + (d' - d))) as H.
  { clear m Hm. induction Hb as [|[[ns k] b] bucket Hi _ IH]; intros m d Hm; cbn [foldl].
    - split_and!; [done..|]. by rewrite Z.sub_diag, Z.add_0_r.
    - cbn [fst snd] in *. pose proof (shard_insert_ok idx m ns k b Hm Hi) as Hins.
      destruct (shard_insert ns k b m) as [old m1]. destruct Hins as (Hm1&Ht1&Hs1).
      specialize (IH m1 (wrap_i64 (d + (len_of b - old))) Hm1).
      destruct (foldl _ _ bucket) as [m' d']. destruct IH as (Hm'&Ht'&Hs').
      split_and!; [done|by rewrite Ht', Ht1|]. rewrite Hs', wrap_i64_cong, Hs1.
      unfold cong64. f_equal. lia. }
  specialize (H m 0%Z Hm). destruct (foldl _ _ bucket) as [m' d]. destruct H as (?&?&Hs).
  split_and!; [done..|]. by rewrite Z.sub_0_r in Hs.
Qed.

Lemma remove_bucket_ok idx m (n : Z) (bucket : list (pystr * pystr)) :
  shard_ok idx m → Forall (λ p, shard_index hash p.1 = idx) bucket →
  let '(m', freed, n') := foldl remove_entry (m, 0%Z, n) bucket in
  shard_ok idx m' ∧ tab m' = foldl (λ t p, delete p t) (tab m) bucket ∧
  cong64 (shard_size m') (shard_size m - freed) ∧ n' = (n + kv_removed (tab m) (tab m'))%Z.
Proof.
  intros Hm Hb.
  assert (∀ m d n, shard_ok idx m →
    let '(m', d', n') := foldl remove_entry (m, d, n) bucket in
    shard_ok idx m' ∧ tab m' = foldl (λ t p, delete p t) (tab m) bucket ∧
    cong64 (shard_size m') (shard_size m - (d' - d)) ∧ n' = (n + kv_removed (tab m) (tab m'))%Z) as H.
  { clear m n Hm. induction Hb as [|[ns k] bucket Hi _ IH]; intros m d n Hm; cbn [foldl].
    - split_and!; [done..|by rewrite Z.sub_diag, Z.sub_0_r|unfold kv_removed; lia].
    - cbn [fst snd remove_entry] in *. destruct (m !! ns) as [kv|] eqn:E.
      + pose proof (shard_remove_ok idx m ns k kv Hm E) as Hrem. cbv zeta in Hrem.
        set (m1 := if decide (delete k kv = ∅) then _ else _) in *. destruct Hrem as (Hm1&Ht1&Hs1).
        assert (∃ d1 n1 : Z, (cong64 d1 (d + from_option len_of 0%Z (kv !! k)) ∧
          n1 = n + kv_removed (tab m) (tab m1))%Z ∧
          match kv !! k with
          | Some old => (wrap64 (d + len_of old), (n + 1)%Z)
          | None => (d, n)
          end = (d1, n1)) as (d1&n1&[Hd1 Hn1]&->).
        { rewrite Ht1, kv_removed_delete, tab_lookup, E. cbn [mbind option_bind].
          destruct (kv !! k) as [old|]; cbn [from_option]; do 2 eexists; (split; [split|done]).
          - apply wrap64_cong.
          - by rewrite decide_True by done.
          - by rewrite Z.add_0_r.
          - rewrite decide_False by by intros []. lia. }
        specialize (IH m1 d1 n1 Hm1). destruct (foldl remove_entry _ bucket) as [[m' d'] n'].
        destruct IH as (Hm'&Ht'&Hs'&->). split_and!; [done|by rewrite Ht', Ht1| |].
        * rewrite Hs', Hd1, Hs1. unfold cong64. f_equal. lia.
        * rewrite Hn1, <-(kv_removed_trans (tab m) (tab m1) (tab m')). lia.
      + specialize (IH m d n Hm). destruct (foldl remove_entry _ bucket) as [[m' d'] n'].
        destruct IH as (Hm'&Ht'&Hs'&Hn'). split_and!; [done| |done|done]. rewrite Ht'. f_equal.
        symmetry. apply delete_id. by rewrite tab_lookup, E. }
  specialize (H m 0%Z n Hm). destruct (foldl remove_entry _ bucket) as [[m' d] n'].
  destruct H as (?&?&Hs&?). split_and!; [done..| |done]. by rewrite Z.sub_0_r in Hs.
Qed.

(** The buckets of a batch: what hashes to each shard, in order. *)
Lemma buckets_lookup {A : Type} (f : A → pystr) (l : list A) idx :
  idx < SHARDS → buckets hash f l !! idx = Some (filter (λ x, shard_index hash (f x) = idx) l).
Proof.
  intros Hidx. induction l as [|x l IH] using rev_ind.
  { unfold buckets. cbn [foldl]. by apply lookup_replicate_2. }
  unfold buckets in *. rewrite foldl_app. cbn [foldl]. rewrite filter_app, filter_cons, filter_nil.
  destruct (decide (shard_index hash (f x) = idx)) as [Hi|Hi].
  - rewrite Hi, list_lookup_alter_eq, IH. done.
  - by rewrite list_lookup_alter_ne, app_nil_r by done.
Qed.

Lemma buckets_length {A : Type} (f : A → pystr) (l : list A) : length (buckets hash f l) = SHARDS.
Proof.
  unfold buckets. assert (∀ bs : list (list A), length (foldl (λ bs x, alter (λ b, b ++ [x])
    (shard_index hash (f x)) bs) bs l) = length bs) as H; [|by rewrite H, length_replicate].
  induction l as [|x l IH]; intros bs; [done|]. cbn [foldl]. by rewrite IH, length_alter.
Qed.

Lemma buckets_elem {A : Type} (f : A → pystr) (l : list A) idx b :
  buckets hash f l !! idx = Some b → Forall (λ x, shard_index hash (f x) = idx) b.
Proof.
  intros Hb. assert (idx < SHARDS) as Hidx
    by (rewrite <-(buckets_length f l); by apply lookup_lt_Some in Hb).
  rewrite buckets_lookup in Hb by done. injection Hb as <-.
  apply Forall_forall. by intros x [? _]%list_elem_of_filter.
Qed.

Lemma enumerated_snoc {A : Type} (l : list A) x : enumerated (l ++ [x]) = enumerated l ++ [(length l, x)].
Proof. unfold enumerated. rewrite imap_app. cbn. by rewrite Nat.add_0_r. Qed.

(** ** The store *)

Record shape s : Prop := {
  shape_shards : length (shards s) = SHARDS;
  shape_bytes : length (shard_bytes s) = SHARDS;
  shape_shard idx m : shards s !! idx = Some m → shard_ok idx m;
  shape_count idx m : shards s !! idx = Some m → shard_bytes s !! idx = Some (wrap64 (shard_size m));
}.

Definition store_rows s : table := tab (⋃ shards s).

Lemma union_lookup (l : list NsMap) (j : nat) (ns : pystr) :
  (∀ i m, l !! i = Some m → is_Some (m !! ns) → i = j) → (⋃ l) !! ns = (m ← l !! j; m !! ns).
Proof.
  revert j. induction l as [|m l IH]; intros j Hl; [exact (lookup_empty ns)|]. cbn [union_list foldr].
  rewrite lookup_union. destruct (m !! ns) as [kv|] eqn:E.
  - assert (0 = j) as <- by (apply (Hl 0 m); [done|by rewrite E]). cbn. rewrite E.
    by destruct (_ !! ns).
  - destruct j as [|j]; cbn.
    + rewrite E. rewrite (IH (length l)).
      * by rewrite lookup_ge_None_2.
      * intros i m' Hi Hs. by specialize (Hl (S i) m' Hi Hs).
    + rewrite (IH j) by (intros i m' Hi Hs; specialize (Hl (S i) m' Hi Hs); lia).
      by destruct (l !! j ≫= _).
Qed.

Lemma store_rows_lookup s (ns k : pystr) : shape s → store_rows s !! (ns, k) = lookup_raw hash ns k s.
Proof.
  intros Hs. unfold store_rows, lookup_raw, shard, shard_at. rewrite tab_lookup.
  rewrite (union_lookup _ (shard_index hash ns)).
  - by destruct (shards s !! shard_index hash ns).
  - intros i m Hi [kv Hkv]. symmetry. by apply (shape_shard s Hs i m Hi ns kv).
Qed.

Lemma shard_at_lookup s idx : shape s → idx < SHARDS → shards s !! idx = Some (shard_at idx s).
Proof.
  intros Hs Hidx. unfold shard_at. rewrite <-(shape_shards s Hs) in Hidx.
  by apply lookup_lt_is_Some in Hidx as [m ->].
Qed.

Lemma shard_at_ok s idx : shape s → idx < SHARDS → shard_ok idx (shard_at idx s).
Proof. intros Hs Hidx. apply (shape_shard s Hs). by apply shard_at_lookup. Qed.

Lemma store_rows_shard s p :
  shape s → store_rows s !! p = tab (shard_at (shard_index hash p.1) s) !! p.
Proof.
  intros Hs. destruct p as [ns k]. rewrite store_rows_lookup by done. by rewrite tab_lookup.
Qed.

(** Replacing a shard, with a byte count that follows its size. *)
Lemma put_shard s idx m (b : list Z) :
  shape s → idx < SHARDS → shard_ok idx m →
  (∀ c, shard_bytes s !! idx = Some c → cong64 c (shard_size (shard_at idx s)) →
        b = <[idx := wrap64 (shard_size m)]> (shard_bytes s)) →
  let s' := set_shards (<[idx := m]> (shards s)) b s in
  shape s' ∧ shard_at idx s' = m ∧ ∀ i, i ≠ idx → shard_at i s' = shard_at i s.
Proof.
  intros Hs Hidx Hm Hb s'. subst s'.
  pose proof (shape_count s Hs idx _ (shard_at_lookup s idx Hs Hidx)) as Hc.
  rewrite (Hb _ Hc (wrap64_cong _)). unfold shard_at. cbn [shards set_shards].
  rewrite list_lookup_insert_eq by (by rewrite shape_shards). split_and!; [|done|].
  - split; cbn [shards shard_bytes set_shards].
    + rewrite length_insert. apply Hs.
    + rewrite length_insert. apply Hs.
    + intros i m' [(<-&<-&_)|[_ H]]%list_lookup_insert_Some; [done|by apply (shape_shard s Hs)].
    + intros i m' [(<-&<-&_)|[Hne H]]%list_lookup_insert_Some.
      * apply list_lookup_insert_eq. by rewrite (shape_bytes s Hs).
      * rewrite list_lookup_insert_ne by done. by apply (shape_count s Hs).
  - intros i Hi. by rewrite list_lookup_insert_ne by done.
Qed.

Lemma fetch_add_cong idx n (b : list Z) c x :
  b !! idx = Some c → cong64 (c + n) x → fetch_add idx n b = <[idx := wrap64 x]> b.
Proof.
  intros Hb Hx. unfold fetch_add. rewrite list_insert_alter. apply list_alter_ext; [|done].
  intros y Hy. by assert (y = c) as -> by congruence.
Qed.

Lemma fetch_sub_cong idx n (b : list Z) c x :
  b !! idx = Some c → cong64 (c - n) x → fetch_sub idx n b = <[idx := wrap64 x]> b.
Proof.
  intros Hb Hx. unfold fetch_sub. rewrite list_insert_alter. apply list_alter_ext; [|done].
  intros y Hy. by assert (y = c) as -> by congruence.
Qed.

(** *** What each operation does to the rows *)

Lemma put_rows_lookup s s' idx m p :
  shape s → shape s' → shard_at idx s' = m → (∀ i, i ≠ idx → shard_at i s' = shard_at i s) →
  store_rows s' !! p = if decide (shard_index hash p.1 = idx) then tab m !! p else store_rows s !! p.
Proof.
  intros Hs Hs' Hm Ho. rewrite store_rows_shard by done. case_decide as Hi.
  - by rewrite Hi, Hm.
  - rewrite Ho by done. by rewrite <-store_rows_shard.
Qed.

Lemma set_entry_ok s (ns k : pystr) (b : bytes) :
  shape s → shape (set_entry hash ns k b s) ∧
  store_rows (set_entry hash ns k b s) = <[(ns, k) := b]> (store_rows s).
Proof.
  intros Hs. unfold set_entry. set (idx := shard_index hash ns).
  pose proof (shard_index_lt ns : idx < SHARDS) as Hidx.
  pose proof (shard_insert_ok idx _ ns k b (shard_at_ok s idx Hs Hidx) eq_refl) as H.
  destruct (shard_insert ns k b (shard_at idx s)) as [old m]. destruct H as (Hm&Ht&Hsz).
  match goal with |- shape (set_shards _ ?b _) ∧ _ =>
    destruct (put_shard s idx m b Hs Hidx Hm) as (Hs'&Hat&Ho) end.
  { intros c Hc Hcong. destruct (_ <=? _)%Z;
      [eapply fetch_add_cong|eapply fetch_sub_cong]; try done; rewrite Hcong, Hsz;
      unfold cong64; f_equal; lia. }
  split; [done|]. apply map_eq. intros p. rewrite (put_rows_lookup s _ idx m) by done.
  case_decide as Hi.
  - rewrite Ht. destruct (decide ((ns, k) = p)) as [<-|Hp]; [by rewrite !lookup_insert_eq|].
    rewrite !lookup_insert_ne by done. rewrite store_rows_shard by done. by rewrite Hi.
  - rewrite lookup_insert_ne; [done|]. intros <-. by apply Hi.
Qed.

Lemma delete_entry_ok s (ns k : pystr) :
  shape s → shape (delete_entry hash ns k s).2 ∧
  store_rows (delete_entry hash ns k s).2 = delete (ns, k) (store_rows s) ∧
  (delete_entry hash ns k s).1 = bool_decide (is_Some (store_rows s !! (ns, k))).
Proof.
  intros Hs. unfold delete_entry. set (idx := shard_index hash ns).
  pose proof (shard_index_lt ns : idx < SHARDS) as Hidx.
  pose proof (store_rows_shard s (ns, k) Hs) as Hrow. cbn [fst] in Hrow. fold idx in Hrow.
  rewrite tab_lookup in Hrow.
  destruct (shard_at idx s !! ns) as [kv|] eqn:E; cbn [mbind option_bind] in Hrow.
  2:{ cbn. split; [done|]. rewrite Hrow. by rewrite delete_id. }
  destruct (kv !! k) as [old|] eqn:Ek; cbn [fst snd].
  2:{ split; [done|]. rewrite Hrow. by rewrite delete_id. }
  pose proof (shard_remove_ok idx _ ns k kv (shard_at_ok s idx Hs Hidx) E) as H. cbv zeta in H.
  set (m := if decide (delete k kv = ∅) then _ else _) in *. destruct H as (Hm&Ht&Hsz).
  destruct (put_shard s idx m (fetch_sub idx (len_of old) (shard_bytes s)) Hs Hidx Hm) as (Hs'&Hat&Ho).
  { intros c Hc Hcong. eapply fetch_sub_cong; [done|]. rewrite Hcong, Hsz, Ek. done. }
  split_and!; [done| |by rewrite Hrow]. apply map_eq. intros p.
  rewrite (put_rows_lookup s _ idx m) by done. case_decide as Hi.
  - rewrite Ht. destruct (decide ((ns, k) = p)) as [<-|Hp]; [by rewrite !lookup_delete_eq|].
    rewrite !lookup_delete_ne by done. rewrite store_rows_shard by done. by rewrite Hi.
  - rewrite lookup_delete_ne; [done|]. intros <-. by apply Hi.
Qed.

Lemma drop_namespace_ok s (ns : pystr) :
  shape s → shape (drop_namespace hash ns s).2 ∧
  store_rows (drop_namespace hash ns s).2 = filter (λ e, e.1.1 ≠ ns) (store_rows s) ∧
  (drop_namespace hash ns s).1 = kv_removed (store_rows s) (filter (λ e, e.1.1 ≠ ns) (store_rows s)).
Proof.
  intros Hs. unfold drop_namespace. set (idx := shard_index hash ns).
  pose proof (shard_index_lt ns : idx < SHARDS) as Hidx.
  assert (∀ k, store_rows s !! (ns, k) = (kv ← shard_at idx s !! ns; kv !! k)) as Hrow
    by (intros k; rewrite store_rows_shard by done; by rewrite tab_lookup).
  assert (kv_removed (store_rows s) (filter (λ e, e.1.1 ≠ ns) (store_rows s)) =
    Z.of_nat (length (map_to_list (from_option id ∅ (shard_at idx s !! ns))).*1)) as ->.
  { apply kv_removed_keys; [apply NoDup_fst_map_to_list|]. intros k. rewrite Hrow, list_elem_of_fmap.
    destruct (shard_at idx s !! ns) as [kv|]; cbn [from_option id mbind option_bind].
    - split; [intros ([k' b]&->&H%elem_of_map_to_list); by exists b|].
      intros [b Hb]. exists (k, b). split; [done|]. by apply elem_of_map_to_list.
    - rewrite map_to_list_empty. split; [by intros (?&_&?%not_elem_of_nil)|by intros []]. }
  destruct (shard_at idx s !! ns) as [kv|] eqn:E; cbn [fst snd from_option id].
  2:{ split_and!; [done| |by rewrite map_to_list_empty]. apply map_eq. intros [n k].
      rewrite delete_ns_lookup. cbn [fst]. case_decide as Hn; [|done]. subst. by rewrite Hrow. }
  destruct (put_shard s idx (delete ns (shard_at idx s))
    (fetch_sub idx (wrap64 (map_sum len_of kv)) (shard_bytes s)) Hs Hidx) as (Hs'&Hat&Ho).
  { apply shard_ok_delete. by apply shard_at_ok. }
  { intros c Hc Hcong. eapply fetch_sub_cong; [done|]. rewrite Hcong, wrap64_cong.
    unfold shard_size. by rewrite (map_sum_delete _ _ _ _ E). }
  split_and!; [done| |by rewrite length_fmap, length_map_to_list]. apply map_eq. intros p.
  rewrite (put_rows_lookup s _ idx _) by done. rewrite delete_ns_lookup, tab_delete.
  case_decide as Hi; case_decide as Hn; try done.
  - rewrite store_rows_shard by done. by rewrite Hi.
  - by subst.
Qed.

(** Only the rows a shard can hold matter to it. *)
Lemma rows_written_filter (P : row → Prop) `{!∀ r, Decision (P r)} (l : list row) (t t' : table) p :
  t !! p = t' !! p → (∀ r, r ∈ l → r.1 = p → P r) →
  rows_written t (filter P l) !! p = rows_written t' l !! p.
Proof.
  intros Ht. revert t t' Ht. induction l as [|[q b] l IH]; intros t t' Ht Hl; [done|].
  cbn [rows_written foldl]. unfold rows_written in *. rewrite filter_cons. cbn [foldl fst snd].
  case_decide as HP; cbn [foldl fst snd].
  - apply IH; [|by intros r Hr; apply Hl; right].
    destruct (decide (q = p)) as [<-|Hq]; [by rewrite !lookup_insert_eq|].
    by rewrite !lookup_insert_ne by done.
  - apply IH; [|by intros r Hr; apply Hl; right].
    rewrite lookup_insert_ne; [done|]. intros Hq. destruct HP. apply Hl; [by left|done].
Qed.

(** One bucket, under its shard's lock. *)
Lemma store_bucket_ok s n (b : list Entry) :
  shape s → n < SHARDS → Forall (λ e : Entry, shard_index hash e.1.1 = n) b →
  shape (store_bucket s (n, b)) ∧
  tab (shard_at n (store_bucket s (n, b))) = rows_written (tab (shard_at n s)) b ∧
  ∀ i, i ≠ n → shard_at i (store_bucket s (n, b)) = shard_at i s.
Proof.
  intros Hs Hn Hb. unfold store_bucket. cbn [fst snd]. destruct b as [|e b]; [done|].
  pose proof (insert_bucket_ok n _ (e :: b) (shard_at_ok s n Hs Hn) Hb) as H.
  destruct (insert_bucket (e :: b) (shard_at n s)) as [m delta]. destruct H as (Hm&Ht&Hsz).
  match goal with |- shape (set_shards _ ?b _) ∧ _ =>
    destruct (put_shard s n m b Hs Hn Hm) as (Hs'&Hat&Ho) end; [|by rewrite Hat].
  intros c Hc Hcong. destruct (_ <=? _)%Z;
    [eapply fetch_add_cong|eapply fetch_sub_cong]; try done; rewrite Hcong, Hsz;
    unfold cong64; f_equal; lia.
Qed.

Lemma delete_bucket_ok s n r (b : list (pystr * pystr)) :
  shape s → n < SHARDS → Forall (λ p : pystr * pystr, shard_index hash p.1 = n) b →
  shape (delete_bucket (s, r) (n, b)).1 ∧
  tab (shard_at n (delete_bucket (s, r) (n, b)).1) = foldl (λ t p, delete p t) (tab (shard_at n s)) b ∧
  (∀ i, i ≠ n → shard_at i (delete_bucket (s, r) (n, b)).1 = shard_at i s) ∧
  (delete_bucket (s, r) (n, b)).2 =
    (r + kv_removed (tab (shard_at n s)) (foldl (λ t p, delete p t) (tab (shard_at n s)) b))%Z.
Proof.
  intros Hs Hn Hb. unfold delete_bucket. cbn [fst snd]. destruct b as [|e b].
  { split_and!; [done..|]. unfold kv_removed. cbn. lia. }
  pose proof (remove_bucket_ok n _ r (e :: b) (shard_at_ok s n Hs Hn) Hb) as H.
  destruct (foldl remove_entry _ (e :: b)) as [[m freed] r2]. destruct H as (Hm&Ht&Hsz&Hr). cbn [fst snd].
  destruct (put_shard s n m (fetch_sub n freed (shard_bytes s)) Hs Hn Hm) as (Hs'&Hat&Ho);
    [|rewrite Hat, <-Ht; by split_and!].
  intros c Hc Hcong. eapply fetch_sub_cong; [done|]. by rewrite Hcong, Hsz.
Qed.

(** A fold over the buckets, shard by shard. *)
Lemma store_buckets_ok s (bs : list (list Entry)) :
  shape s → length bs ≤ SHARDS →
  (∀ idx b, bs !! idx = Some b → Forall (λ e, shard_index hash e.1.1 = idx) b) →
  let s' := foldl store_bucket s (enumerated bs) in
  shape s' ∧ ∀ idx, tab (shard_at idx s') = rows_written (tab (shard_at idx s)) (from_option id [] (bs !! idx)).
Proof.
  intros Hs. induction bs as [|b bs IH] using rev_ind; intros Hlen Hbs; [done|]. cbv zeta in *.
  rewrite length_app in Hlen. cbn in Hlen.
  destruct IH as [Hs1 Htab]; [lia|intros idx c Hc; apply Hbs; by apply lookup_app_l_Some|].
  rewrite enumerated_snoc, foldl_app. cbn [foldl].
  set (s1 := foldl store_bucket s (enumerated bs)) in *. set (n := length bs) in *.
  assert (Forall (λ e : Entry, shard_index hash e.1.1 = n) b) as Hb
    by (apply Hbs; by rewrite lookup_app_r, Nat.sub_diag by done).
  assert (n < SHARDS) as Hn by lia.
  destruct (store_bucket_ok s1 n b Hs1 Hn Hb) as (Hs'&Hat&Ho).
  split; [done|]. intros idx. destruct (decide (idx = n)) as [->|Hi].
  - rewrite Hat, Htab. rewrite (lookup_ge_None_2 bs n) by done.
    by rewrite lookup_app_r, Nat.sub_diag by done.
  - rewrite Ho, Htab by done. f_equal. destruct (decide (idx < n)) as [Hlt|Hge].
    + by rewrite lookup_app_l by done.
    + rewrite !lookup_ge_None_2; [done|rewrite length_app; cbn; fold n; lia|fold n; lia].
Qed.

Lemma set_entries_ok s (encoded : list Entry) :
  shape s → shape (set_entries hash encoded s) ∧
  store_rows (set_entries hash encoded s) = rows_written (store_rows s) encoded.
Proof.
  intros Hs. unfold set_entries.
  destruct (store_buckets_ok s (buckets hash (λ e : Entry, e.1.1) encoded) Hs) as [Hs' Htab];
    [by rewrite buckets_length|intros idx b; apply buckets_elem|].
  split; [done|]. apply map_eq. intros p. rewrite store_rows_shard by done. rewrite Htab.
  rewrite buckets_lookup by apply shard_index_lt. cbn [from_option id].
  apply (rows_written_filter (λ r, shard_index hash r.1.1 = shard_index hash p.1));
    [by rewrite <-store_rows_shard|by intros r _ ->].
Qed.

(** The buckets of one shard after another: rows and count. *)
Lemma delete_bucket_rows s n r (b : list (pystr * pystr)) :
  shape s → n < SHARDS → Forall (λ p : pystr * pystr, shard_index hash p.1 = n) b →
  let s' := (delete_bucket (s, r) (n, b)).1 in
  store_rows s' = foldl (λ t p, delete p t) (store_rows s) b ∧
  (delete_bucket (s, r) (n, b)).2 = (r + kv_removed (store_rows s) (store_rows s'))%Z.
Proof.
  intros Hs Hn Hb s'. subst s'. destruct (delete_bucket_ok s n r b Hs Hn Hb) as (Hs'&Hat&Ho&Hr).
  rewrite Forall_forall in Hb.
  assert (store_rows (delete_bucket (s, r) (n, b)).1 = foldl (λ t p, delete p t) (store_rows s) b) as Hrows.
  { apply map_eq. intros p. rewrite deletes_lookup, !store_rows_shard by done.
    destruct (decide (shard_index hash p.1 = n)) as [Hi|Hi].
    - by rewrite Hi, Hat, deletes_lookup.
    - rewrite Ho by done. rewrite decide_False; [done|]. by intros ?%Hb. }
  split; [done|]. rewrite Hr, Hrows. f_equal. apply kv_removed_deletes_agree.
  intros p Hp. rewrite store_rows_shard by done. by rewrite (Hb p Hp).
Qed.

Lemma delete_buckets_ok s (bs : list (list (pystr * pystr))) :
  shape s → length bs ≤ SHARDS →
  (∀ idx b, bs !! idx = Some b → Forall (λ p, shard_index hash p.1 = idx) b) →
  let '(s', removed) := foldl delete_bucket (s, 0%Z) (enumerated bs) in
  shape s' ∧ store_rows s' = foldl (λ t p, delete p t) (store_rows s) (mjoin bs) ∧
  removed = kv_removed (store_rows s) (store_rows s').
Proof.
  intros Hs. induction bs as [|b bs IH] using rev_ind; intros Hlen Hbs.
  { cbn. split_and!; [done..|]. unfold kv_removed. lia. }
  rewrite length_app in Hlen. cbn in Hlen.
  specialize (IH ltac:(lia) ltac:(intros idx c Hc; apply Hbs; by apply lookup_app_l_Some)).
  rewrite enumerated_snoc, foldl_app. cbn [foldl].
  destruct (foldl delete_bucket (s, 0%Z) (enumerated bs)) as [s1 r1]. destruct IH as (Hs1&Hrows&->).
  assert (Forall (λ p : pystr * pystr, shard_index hash p.1 = length bs) b) as Hb
    by (apply Hbs; by rewrite lookup_app_r, Nat.sub_diag by done).
  set (r1 := kv_removed (store_rows s) (store_rows s1)).
  destruct (delete_bucket_ok s1 (length bs) r1 b Hs1 ltac:(lia) Hb) as (Hs'&_).
  destruct (delete_bucket_rows s1 (length bs) r1 b Hs1 ltac:(lia) Hb) as [Hrows' Hr]. cbv zeta in *.
  destruct (delete_bucket (s1, r1) (length bs, b)) as [s' removed]. cbn [fst snd] in *.
  split_and!; [done| |].
  - rewrite Hrows', Hrows, <-foldl_app. f_equal. rewrite join_app. cbn. by rewrite app_nil_r.
  - rewrite Hr. apply kv_removed_trans.
Qed.

Lemma delete_entries_ok s (pairs : list (pystr * pystr)) :
  shape s → shape (delete_entries hash pairs s).1 ∧
  store_rows (delete_entries hash pairs s).1 = foldl (λ t p, delete p t) (store_rows s) pairs ∧
  (delete_entries hash pairs s).2 =
    kv_removed (store_rows s) (foldl (λ t p, delete p t) (store_rows s) pairs).
Proof.
  intros Hs. unfold delete_entries.
  pose proof (delete_buckets_ok s (buckets hash fst pairs) Hs) as H.
  destruct (foldl delete_bucket _ _) as [s' removed]. destruct H as (Hs'&Hrows&->);
    [by rewrite buckets_length|intros idx b; apply buckets_elem|]. cbn [fst snd].
  assert (store_rows s' = foldl (λ t p, delete p t) (store_rows s) pairs) as <-; [|done].
  rewrite Hrows. apply deletes_ext. intros p. rewrite list_elem_of_join. split.
  - intros (b&Hp&[idx Hb]%list_elem_of_lookup).
    assert (idx < SHARDS) as Hidx by (rewrite <-(buckets_length fst pairs); by apply lookup_lt_Some in Hb).
    rewrite buckets_lookup in Hb by done. injection Hb as <-. by apply list_elem_of_filter in Hp as [_ ?].
  - intros Hp. exists (filter (λ q, shard_index hash q.1 = shard_index hash p.1) pairs).
    split; [by apply list_elem_of_filter|]. eapply list_elem_of_lookup_2, buckets_lookup, shard_index_lt.
Qed.

(** *** Reading many *)

Lemma read_bucket_ok s (pairs : list (pystr * pystr)) idx (js : list nat) (out : list (option bytes)) :
  Forall (λ i, from_option (λ p, shard_index hash p.1) idx (pairs !! i) = idx) js →
  length out = length pairs →
  let out' := read_bucket pairs s out (idx, js) in
  length out' = length pairs ∧
  ∀ i, out' !! i = if decide (i ∈ js)
                   then (λ p, lookup_raw hash p.1 p.2 s) <$> pairs !! i else out !! i.
Proof.
  unfold read_bucket. cbn [fst snd]. intros Hjs. revert out.
  induction Hjs as [|j js Hj _ IH]; intros out Hlen; cbn [foldl].
  { split; [done|]. intros i. by rewrite decide_False by apply not_elem_of_nil. }
  destruct (pairs !! j) as [p|] eqn:Ej; cbn [from_option] in Hj.
  - destruct (IH (<[j := (kv ← shard_at idx s !! p.1; kv !! p.2)]> out)) as [Hl Ho];
      [by rewrite length_insert|]. split; [done|]. intros i. rewrite Ho.
    destruct (decide (i ∈ js)) as [Hi|Hi]; [by rewrite decide_True by (by right)|].
    destruct (decide (i = j)) as [->|Hne].
    + rewrite decide_True by left. rewrite list_lookup_insert_eq by (rewrite Hlen; by eapply lookup_lt_Some).
      rewrite Ej. cbn. unfold lookup_raw, shard. by rewrite Hj.
    + rewrite list_lookup_insert_ne by done. rewrite decide_False; [done|].
      by intros [?|?]%elem_of_cons.
  - destruct (IH out Hlen) as [Hl Ho]. split; [done|]. intros i. rewrite Ho.
    destruct (decide (i ∈ js)) as [Hi|Hi]; [by rewrite decide_True by (by right)|].
    destruct (decide (i = j)) as [->|Hne].
    + rewrite decide_True by left. rewrite Ej. cbn. apply lookup_ge_None_2. rewrite Hlen.
      by apply lookup_ge_None_1.
    + rewrite decide_False; [done|]. by intros [?|?]%elem_of_cons.
Qed.

Lemma raw_many_ok s (pairs : list (pystr * pystr)) :
  raw_many hash pairs s = (λ p, lookup_raw hash p.1 p.2 s) <$> pairs.
Proof.
  unfold raw_many. set (f := λ i, from_option fst [] (pairs !! i)).
  set (bs := buckets hash f (seq 0 (length pairs))).
  assert (∀ bs0, bs0 `prefix_of` bs →
    let out := foldl (read_bucket pairs s) (replicate (length pairs) None) (enumerated bs0) in
    length out = length pairs ∧
    ∀ i, out !! i = if decide (i ∈ mjoin bs0) then (λ p, lookup_raw hash p.1 p.2 s) <$> pairs !! i
                    else replicate (length pairs) None !! i) as H.
  { induction bs0 as [|b bs0 IH] using rev_ind; intros Hpre; cbv zeta.
    - split; [apply length_replicate|]. intros i. by rewrite decide_False by apply not_elem_of_nil.
    - destruct IH as [Hl Ho]; [etransitivity; [by apply prefix_app_r|exact Hpre]|].
      rewrite enumerated_snoc, foldl_app. cbn [foldl].
      destruct (read_bucket_ok s pairs (length bs0) b _ (ltac:(
        assert (bs !! length bs0 = Some b) as Hb by (eapply prefix_lookup_Some; [|exact Hpre];
          by rewrite lookup_app_r, Nat.sub_diag by done);
        apply buckets_elem in Hb; eapply Forall_impl; [exact Hb|];
        intros i; unfold f; by destruct (pairs !! i))) Hl) as [Hl' Ho'].
      split; [done|]. intros i. rewrite Ho', Ho, join_app. cbn. rewrite app_nil_r.
      destruct (decide (i ∈ b)) as [Hb|Hb]; [by rewrite decide_True by (by apply elem_of_app; right)|].
      destruct (decide (i ∈ mjoin bs0)) as [Hj|Hj].
      + by rewrite decide_True by (by apply elem_of_app; left).
      + rewrite decide_False; [done|]. by intros [?|?]%elem_of_app. }
  destruct (H bs) as [Hl Ho]; [done|]. apply list_eq. intros i. rewrite Ho, list_lookup_fmap.
  destruct (decide (i < length pairs)) as [Hi|Hi].
  - rewrite decide_True; [done|]. apply list_elem_of_join. 
    exists (filter (λ j, shard_index hash (f j) = shard_index hash (f i)) (seq 0 (length pairs))). split.
    + apply list_elem_of_filter. split; [done|]. apply elem_of_seq. lia.
    + apply list_elem_of_lookup. exists (shard_index hash (f i)). apply buckets_lookup, shard_index_lt.
  - rewrite (lookup_ge_None_2 pairs) by lia.
    rewrite (lookup_ge_None_2 (replicate _ _)) by (rewrite length_replicate; lia). by case_decide.
Qed.
End Shards.
