(* ===== verification/RustStoreProps.v ===== *)
(** * Properties of the in-memory store

    The refinement of the reference store, the byte counts under any calls, and
    what snapshots keep and tell. *)

From Stdlib Require Import ZifyBool.
From S2P Require Import Prelude PyValue Codec CodecLemmas CodecTheorems.
From S2P Require Import Store StoreTrace Snapshot WireRows RustStore RustStoreTheorems.

#[local] Arguments lit : simpl never.
#[local] Arguments SHARDS : simpl never.

Section Store.
Context (hash : pystr → N).
Implicit Types (s : RustStore) (ns k : pystr).

(** ** The content of a store *)

Definition rust_view s : kv := unpacked decode <$> store_rows s.
Definition rust_ok s : Prop := shape hash s ∧ map_Forall (row_ok decode) (store_rows s).

Lemma as_string_ok (t : pystr) : valid_text t → as_string t = Ok t.
Proof. intros Ht. unfold as_string. by rewrite decide_True. Qed.

Lemma as_opt_string_ok (p : option pystr) : from_option valid_text True p → as_opt_string p = Ok p.
Proof. destruct p as [t|]; [|done]. intros Ht. unfold as_opt_string. by rewrite as_string_ok. Qed.

Lemma as_pairs_ok (pairs : list (pystr * pystr)) :
  Forall (λ p, valid_text p.1 ∧ valid_text p.2) pairs → mapM as_pair pairs = Ok pairs.
Proof.
  induction 1 as [|[ns k] pairs [Hns Hk] _ IH]; [done|]. cbn [mapM].
  assert (as_pair (ns, k) = Ok (ns, k)) as -> by (unfold as_pair; cbn [fst snd]; by rewrite !as_string_ok).
  cbn [mbind result_bind]. by rewrite IH.
Qed.

Lemma rust_view_is_Some s ns k : is_Some (rust_view s !! (ns, k)) ↔ is_Some (store_rows s !! (ns, k)).
Proof. unfold rust_view. rewrite lookup_fmap. apply fmap_is_Some. Qed.

Lemma decoded_row s ns k :
  rust_ok s → decoded_or PNone (lookup_raw hash ns k s) = Ok (kv_get (rust_view s) ns k).
Proof.
  intros [Hs Hok]. rewrite <-store_rows_lookup by done. unfold kv_get, rust_view. rewrite lookup_fmap.
  destruct (store_rows s !! (ns, k)) as [b|] eqn:E; [|done].
  destruct (Hok _ _ E) as (_&_&v&Hv&_). cbn. unfold unpacked. by rewrite Hv.
Qed.

Lemma rust_ok_rows s' (t : table) :
  shape hash s' → store_rows s' = t → map_Forall (row_ok decode) t →
  rust_ok s' ∧ rust_view s' = unpacked decode <$> t.
Proof. intros ? Ht ?. unfold rust_ok, rust_view. by rewrite Ht. Qed.

(** ** Lemmas: the operations *)

Lemma rust_set_ok s ns k v :
  rust_ok s → valid_text ns → valid_text k → storable v →
  wp (RustStore_set hash ns k v) s (λ _ s', rust_ok s' ∧ rust_view s' = <[(ns, k) := v]> (rust_view s)).
Proof.
  intros [Hs Hok] Hns Hk Hv. destruct (codec_round_trip v Hv) as (b&Hb&Hd). unfold RustStore_set.
  apply wp_bind, (wp_lift _ _ _ _ (as_string_ok ns Hns)).
  apply wp_bind, (wp_lift _ _ _ _ (as_string_ok k Hk)).
  apply wp_bind, (wp_lift _ _ _ _ Hb), wp_modify.
  destruct (set_entry_ok hash s ns k b Hs) as [Hs' Hrows].
  destruct (rust_ok_rows _ _ Hs' Hrows) as [Hok' Hview].
  - apply map_Forall_insert_2; [|done]. unfold row_ok. cbn. eauto.
  - split; [done|]. rewrite Hview, fmap_insert. f_equal. unfold unpacked. by rewrite Hd.
Qed.

Lemma rust_get_ok s ns k :
  rust_ok s → valid_text ns → valid_text k →
  wp (RustStore_get hash ns k PNone) s (λ v s',
    (rust_ok s' ∧ rust_view s' = rust_view s) ∧ v = kv_get (rust_view s) ns k).
Proof.
  intros Hs Hns Hk. unfold RustStore_get.
  apply wp_bind, (wp_lift _ _ _ _ (as_string_ok ns Hns)).
  apply wp_bind, (wp_lift _ _ _ _ (as_string_ok k Hk)).
  apply wp_bind, wp_gets. by apply (wp_lift _ _ _ _ (decoded_row s ns k Hs)).
Qed.

Lemma rust_contains_ok s ns k :
  rust_ok s → valid_text ns → valid_text k →
  wp (RustStore_contains hash ns k) s (λ b s', (rust_ok s' ∧ rust_view s' = rust_view s) ∧
    b = bool_decide (is_Some (rust_view s !! (ns, k)))).
Proof.
  intros Hs Hns Hk. unfold RustStore_contains.
  apply wp_bind, (wp_lift _ _ _ _ (as_string_ok ns Hns)).
  apply wp_bind, (wp_lift _ _ _ _ (as_string_ok k Hk)), wp_gets. split; [done|].
  apply bool_decide_ext. rewrite rust_view_is_Some. by rewrite (store_rows_lookup hash) by apply Hs.
Qed.

Lemma rust_delete_ok s ns k :
  rust_ok s → valid_text ns → valid_text k →
  wp (RustStore_delete hash ns k) s (λ b s',
    (rust_ok s' ∧ rust_view s' = delete (ns, k) (rust_view s)) ∧
    b = bool_decide (is_Some (rust_view s !! (ns, k)))).
Proof.
  intros [Hs Hok] Hns Hk. unfold RustStore_delete.
  apply wp_bind, (wp_lift _ _ _ _ (as_string_ok ns Hns)).
  apply wp_bind, (wp_lift _ _ _ _ (as_string_ok k Hk)).
  destruct (delete_entry_ok hash s ns k Hs) as (Hs'&Hrows&Hr). unfold wp, act.
  destruct (delete_entry hash ns k s) as [removed s']. cbn [fst snd] in *. split.
  - destruct (rust_ok_rows _ _ Hs' Hrows) as [Hok' Hview].
    + eapply row_ok_subset; [|exact Hok]. by intros p b [_ ?]%lookup_delete_Some.
    + split; [done|]. by rewrite Hview, fmap_delete.
  - rewrite Hr. apply bool_decide_ext. by rewrite rust_view_is_Some.
Qed.

Lemma encoded_items (items : list (pystr * pystr * pyval)) :
  Forall (λ i, valid_text i.1.1 ∧ valid_text i.1.2 ∧ storable i.2) items →
  mapM as_item items = Ok items ∧
  ∃ rows, mapM encode_item items = Ok rows ∧ Forall2 (packs decode) items rows.
Proof.
  induction 1 as [|[[ns k] v] items (Hns&Hk&Hv) _ (IH&rows&Hrows&Hp)]; [split; [done|by exists []]|].
  cbn [fst snd] in Hns, Hk, Hv. destruct (codec_round_trip v Hv) as (b&Hb&Hd). cbn [mapM].
  assert (as_item (ns, k, v) = Ok (ns, k, v)) as ->
    by (unfold as_item, as_pair; cbn [fst snd]; by rewrite !as_string_ok).
  cbn [mbind result_bind]. rewrite IH. split; [done|]. exists ((ns, k, b) :: rows). split.
  - cbn [mapM].
    assert (encode_item (ns, k, v) = Ok (ns, k, b)) as -> by (unfold encode_item; cbn [fst snd]; by rewrite Hb).
    cbn [mbind result_bind]. by rewrite Hrows.
  - constructor; [|done]. unfold packs, row_ok. cbn. eauto 10.
Qed.

Lemma rust_set_many_ok s items :
  rust_ok s → Forall (λ i, valid_text i.1.1 ∧ valid_text i.1.2 ∧ storable i.2) items →
  wp (RustStore_set_many hash items) s
    (λ _ s', rust_ok s' ∧ rust_view s' = kv_set_many items (rust_view s)).
Proof.
  intros [Hs Hok] Hi. destruct (encoded_items _ Hi) as (Hitems&rows&Hrows&Hp). unfold RustStore_set_many.
  apply wp_bind, (wp_lift _ _ _ _ Hitems), wp_bind, (wp_lift _ _ _ _ Hrows), wp_modify.
  destruct (set_entries_ok hash s rows Hs) as [Hs' Hr].
  destruct (rust_ok_rows _ _ Hs' Hr) as [Hok' Hview]; [by eapply packed_row_ok|].
  split; [done|]. rewrite Hview. by apply packed_insert.
Qed.

Lemma rust_get_many_ok s (pairs : list (pystr * pystr)) :
  rust_ok s → Forall (λ p, valid_text p.1 ∧ valid_text p.2) pairs →
  wp (RustStore_get_many hash pairs) s (λ l s', (rust_ok s' ∧ rust_view s' = rust_view s) ∧
    l = (λ p, kv_get (rust_view s) p.1 p.2) <$> pairs).
Proof.
  intros Hs Hp. unfold RustStore_get_many.
  apply wp_bind, (wp_lift _ _ _ _ (as_pairs_ok _ Hp)), wp_bind, wp_gets.
  eapply (wp_lift _ ((λ p, kv_get (rust_view s) p.1 p.2) <$> pairs)); [|done].
  rewrite raw_many_ok. clear Hp. induction pairs as [|p pairs IH]; [done|]. cbn [fmap list_fmap mapM].
  rewrite (decoded_row s _ _ Hs). cbn [mbind result_bind]. by rewrite IH.
Qed.

Lemma rust_delete_many_ok s pairs :
  rust_ok s → Forall (λ p, valid_text p.1 ∧ valid_text p.2) pairs →
  wp (RustStore_delete_many hash pairs) s (λ n s',
    (rust_ok s' ∧ rust_view s' = kv_delete_many pairs (rust_view s)) ∧
    n = kv_removed (rust_view s) (kv_delete_many pairs (rust_view s))).
Proof.
  intros [Hs Hok] Hp. unfold RustStore_delete_many.
  apply wp_bind, (wp_lift _ _ _ _ (as_pairs_ok _ Hp)).
  destruct (delete_entries_ok hash s pairs Hs) as (Hs'&Hrows&Hn). unfold wp, act.
  destruct (delete_entries hash pairs s) as [s' removed]. cbn [fst snd] in *.
  destruct (rust_ok_rows _ _ Hs' Hrows) as [Hok' Hview]; [by apply deletes_row_ok|].
  pose proof (unpacked_deletes decode (store_rows s) pairs) as Hdel. fold (rust_view s) in Hdel.
  split; [split; [done|by rewrite Hview]|]. unfold rust_view at 1. by rewrite Hn, <-Hdel, kv_removed_fmap.
Qed.

Lemma rust_delete_namespace_ok s ns :
  rust_ok s → valid_text ns →
  wp (RustStore_delete_namespace hash ns) s (λ n s',
    (rust_ok s' ∧ rust_view s' = kv_delete_namespace ns (rust_view s)) ∧
    n = kv_removed (rust_view s) (kv_delete_namespace ns (rust_view s))).
Proof.
  intros [Hs Hok] Hns. unfold RustStore_delete_namespace.
  apply wp_bind, (wp_lift _ _ _ _ (as_string_ok ns Hns)).
  destruct (drop_namespace_ok hash s ns Hs) as (Hs'&Hrows&Hn). unfold wp, act.
  destruct (drop_namespace hash ns s) as [removed s']. cbn [fst snd] in *.
  destruct (rust_ok_rows _ _ Hs' Hrows) as [Hok' Hview].
  - eapply row_ok_subset; [|exact Hok]. by intros p b [? _]%map_lookup_filter_Some.
  - pose proof (unpacked_delete_ns decode (store_rows s) ns) as Hdel. fold (rust_view s) in Hdel.
    split; [split; [done|by rewrite Hview]|]. unfold rust_view at 1.
    by rewrite Hn, <-Hdel, kv_removed_fmap.
Qed.

(** *** Listing *)

Lemma shard_rows_keys s ns k :
  shape hash s →
  is_Some (store_rows s !! (ns, k)) ↔ ∃ kv, shard hash ns s !! ns = Some kv ∧ k ∈ (map_to_list kv).*1.
Proof.
  intros Hs. rewrite (store_rows_lookup hash) by done. unfold lookup_raw.
  destruct (shard hash ns s !! ns) as [kv|]; cbn [mbind option_bind].
  - rewrite <-elem_of_map_to_list_fst. naive_solver.
  - split; [by intros [? ?]|naive_solver].
Qed.

Lemma rust_keys_all s ns :
  rust_ok s →
  lists_keys (rust_view s) ns None (from_option (λ kv : KeyMap, (map_to_list kv).*1) [] (shard hash ns s !! ns)).
Proof.
  intros [Hs _]. split.
  - destruct (shard hash ns s !! ns); [apply NoDup_fst_map_to_list|constructor].
  - intros k. rewrite rust_view_is_Some, shard_rows_keys by done.
    destruct (shard hash ns s !! ns) as [kv|]; cbn [from_option].
    + naive_solver.
    + rewrite elem_of_nil. naive_solver.
Qed.

Lemma rust_keys_ok s ns (pfx : option pystr) :
  rust_ok s → valid_text ns → from_option valid_text True pfx →
  wp (RustStore_keys hash ns pfx) s (λ l s', (rust_ok s' ∧ rust_view s' = rust_view s) ∧
    lists_keys (rust_view s) ns pfx l).
Proof.
  intros Hs Hns Hpfx. unfold RustStore_keys.
  apply wp_bind, (wp_lift _ _ _ _ (as_string_ok ns Hns)).
  apply wp_bind, (wp_lift _ _ _ _ (as_opt_string_ok pfx Hpfx)), wp_gets. split; [done|].
  pose proof (rust_keys_all s ns Hs) as H.
  destruct (shard hash ns s !! ns) as [kv|]; cbn [from_option] in H; destruct pfx as [p|]; try done.
  - by apply lists_keys_filter.
  - by apply (lists_keys_filter _ _ p) in H.
Qed.

Lemma rust_max_key_ok s ns :
  rust_ok s → valid_text ns →
  wp (RustStore_max_key hash ns) s (λ o s', (rust_ok s' ∧ rust_view s' = rust_view s) ∧
    ∃ l, lists_keys (rust_view s) ns None l ∧ o = py_max l).
Proof.
  intros Hs Hns. unfold RustStore_max_key.
  apply wp_bind, (wp_lift _ _ _ _ (as_string_ok ns Hns)), wp_gets. split; [done|].
  exists (from_option (λ kv : KeyMap, (map_to_list kv).*1) [] (shard hash ns s !! ns)).
  split; [by apply rust_keys_all|]. by destruct (shard hash ns s !! ns).
Qed.

(** The namespaces of a run of shards: each in the shard it hashes to. *)
Lemma shards_namespaces (ms : list NsMap) :
  (∀ idx m, ms !! idx = Some m → shard_ok hash idx m) →
  NoDup (ms ≫= λ m, (map_to_list m).*1) ∧
  ∀ ns, ns ∈ (ms ≫= λ m, (map_to_list m).*1) ↔
        ∃ m, ms !! shard_index hash ns = Some m ∧ is_Some (m !! ns).
Proof.
  intros Hms. assert (∀ ns, ns ∈ (ms ≫= λ m, (map_to_list m).*1) ↔
    ∃ m, ms !! shard_index hash ns = Some m ∧ is_Some (m !! ns)) as Hin; [|split; [|done]].
  { intros ns. rewrite list_elem_of_bind. split.
    - intros (m&[kv Hkv]%elem_of_map_to_list_fst&[idx Hi]%list_elem_of_lookup). exists m.
      destruct (Hms _ _ Hi _ _ Hkv) as [_ ->]. eauto.
    - intros (m&Hm&Hs). exists m. split; [by apply elem_of_map_to_list_fst|].
      by eapply list_elem_of_lookup_2. }
  clear Hin. induction ms as [|m ms IH] using rev_ind; [constructor|]. rewrite bind_app. cbn. rewrite app_nil_r.
  apply NoDup_app. split_and!.
  - apply IH. intros idx m' Hi. apply Hms. by apply lookup_app_l_Some.
  - intros ns (m'&Hin&[idx Hi]%list_elem_of_lookup)%list_elem_of_bind Hin'.
    apply elem_of_map_to_list_fst in Hin as [kv Hkv]. apply elem_of_map_to_list_fst in Hin' as [kv' Hkv'].
    destruct (Hms idx m' ltac:(by apply lookup_app_l_Some) _ _ Hkv) as [_ Hi1].
    destruct (Hms (length ms) m ltac:(by rewrite lookup_app_r, Nat.sub_diag by done) _ _ Hkv') as [_ Hi2].
    apply lookup_lt_Some in Hi. lia.
  - apply NoDup_fst_map_to_list.
Qed.

Lemma rust_namespaces_ok s (pfx : option pystr) :
  rust_ok s → from_option valid_text True pfx →
  wp (RustStore_namespaces pfx) s (λ l s', (rust_ok s' ∧ rust_view s' = rust_view s) ∧
    lists_namespaces (rust_view s) pfx l).
Proof.
  intros Hs Hpfx. unfold RustStore_namespaces.
  apply wp_bind, (wp_lift _ _ _ _ (as_opt_string_ok pfx Hpfx)), wp_gets. split; [done|].
  pose proof Hs as [Hshape _].
  destruct (shards_namespaces (shards s) (shape_shard hash s Hshape)) as [Hnd Hin].
  assert (lists_namespaces (rust_view s) None (shards s ≫= λ m, (map_to_list m).*1)) as Hall.
  { split; [done|]. intros ns. rewrite Hin. cbn [has_prefix].
    setoid_rewrite rust_view_is_Some. setoid_rewrite shard_rows_keys; [|done..].
    pose proof (shard_at_lookup hash s (shard_index hash ns) Hshape (shard_index_lt hash ns)) as Hat.
    rewrite Hat. split.
    - intros (m&[= <-]&[kv Hkv]). split; [|done].
      destruct (shard_at_ok hash s _ Hshape (shard_index_lt hash ns) _ _ Hkv) as [Hne _].
      destruct (map_choose _ Hne) as (k&b&Hb). exists k, kv. split; [done|].
      apply elem_of_map_to_list_fst. by exists b.
    - intros [(k&kv&Hkv&_) _]. eexists. split; [done|]. by exists kv. }
  destruct pfx as [p|]; [|exact Hall].
  assert ((shards s ≫= λ m, prefixed (Some p) (map_to_list m).*1) =
    filter (λ k, starts_with p k = true) (shards s ≫= λ m, (map_to_list m).*1)) as ->.
  { clear. induction (shards s) as [|m ms IH]; [done|]. cbn [mbind list_bind]. rewrite filter_app. f_equal. exact IH. }
  by apply lists_namespaces_filter.
Qed.

#[refine] Definition rust_spec : @StoreLaws valid_text RustStore (rust_ops hash) := {|
  sv_view := rust_view; sv_ok := rust_ok; sv_takes_prefix := true;
|}.
Proof.
  all: unfold rust_ops; simpl.
  - intros s ns k v [_ Ht]. unfold rust_view. rewrite lookup_fmap.
    intros (b&Hb&->)%fmap_Some. destruct (Ht _ _ Hb) as (?&?&v'&Hv&?). simpl in *.
    unfold unpacked. by rewrite Hv.
  - intros. by apply rust_set_ok.
  - intros. by apply rust_get_ok.
  - intros. by apply rust_contains_ok.
  - intros. by apply rust_delete_ok.
  - intros s ns ??. by apply (rust_keys_ok s ns None).
  - intros s ns p ???. by apply (rust_keys_ok s ns (Some p)).
  - intros. by apply rust_max_key_ok.
  - intros s ?. by apply (rust_namespaces_ok s None).
  - intros s p ??. by apply (rust_namespaces_ok s (Some p)).
  - intros f s items [= <-] ??. by apply rust_set_many_ok.
  - intros f s pairs [= <-] ??. by apply rust_get_many_ok.
  - intros f s pairs [= <-] ??. by apply rust_delete_many_ok.
  - intros f s ns [= <-] ??. by apply rust_delete_namespace_ok.
Defined.

(** ** Lemmas: the invariant under any calls *)

Definition keeps_shape s s' : Prop := shape hash s → shape hash s'.

#[local] Instance keeps_shape_preorder : PreOrder keeps_shape.
Proof. split; [intros s Hs; exact Hs|]. intros x y z Hxy Hyz Hx. exact (Hyz (Hxy Hx)). Qed.

Lemma steps_set_entry ns k b : steps keeps_shape (modify (set_entry hash ns k b)).
Proof. intros s Hs. exact (proj1 (set_entry_ok hash s ns k b Hs)). Qed.

Lemma steps_set_entries encoded : steps keeps_shape (modify (set_entries hash encoded)).
Proof. intros s Hs. exact (proj1 (set_entries_ok hash s encoded Hs)). Qed.

Lemma steps_delete_entry ns k :
  steps keeps_shape (act (λ s, let '(removed, s') := delete_entry hash ns k s in (Ok removed, s'))).
Proof.
  intros s Hs. unfold act. destruct (delete_entry_ok hash s ns k Hs) as [H _].
  by destruct (delete_entry hash ns k s).
Qed.

Lemma steps_delete_entries pairs :
  steps keeps_shape (act (λ s, let '(s', removed) := delete_entries hash pairs s in (Ok removed, s'))).
Proof.
  intros s Hs. unfold act. destruct (delete_entries_ok hash s pairs Hs) as [H _].
  by destruct (delete_entries hash pairs s).
Qed.

Lemma steps_drop_namespace ns :
  steps keeps_shape (act (λ s, let '(removed, s') := drop_namespace hash ns s in (Ok removed, s'))).
Proof.
  intros s Hs. unfold act. destruct (drop_namespace_ok hash s ns Hs) as [H _].
  by destruct (drop_namespace hash ns s).
Qed.

#[local] Hint Resolve steps_set_entry steps_set_entries steps_delete_entry steps_delete_entries
  steps_drop_namespace : steps.

Lemma run_call_shape c : steps keeps_shape (run_call (rust_ops hash) c).
Proof.
  destruct c as [ns k v|ns k|ns k|ns k|ns pfx|ns|pfx|items|pairs|pairs|ns];
    unfold run_call, rust_ops; cbn [op_set op_get op_contains op_delete op_keys op_max_key
      op_namespaces op_set_many op_get_many op_delete_many op_delete_namespace];
    try lazymatch goal with
    | |- steps ?R (method (Some ?f) ≫= ?g) => change (steps R (g f)); cbv beta
    end;
    unfold RustStore_set, RustStore_get, RustStore_contains, RustStore_delete, RustStore_keys,
      RustStore_max_key, RustStore_namespaces, RustStore_set_many, RustStore_get_many,
      RustStore_delete_many, RustStore_delete_namespace;
    steps_all.
Qed.

Lemma run_calls_shape cs : steps keeps_shape (run_calls (rust_ops hash) cs).
Proof.
  induction cs as [|c cs IH]; [apply steps_ret, _|]. unfold run_calls in *. cbn [mapM].
  apply steps_bind; [apply _|apply run_call_shape|intros a].
  apply steps_bind; [apply _|apply IH|intros l]. apply steps_ret, _.
Qed.

Lemma fresh_shape max : shape hash
  {| shards := replicate SHARDS ∅; max_history := max; history := []; counter := 1;
     last_id := None; shard_bytes := replicate SHARDS 0%Z |}.
Proof.
  split; cbn [shards shard_bytes].
  - apply length_replicate.
  - apply length_replicate.
  - intros idx m [-> _]%lookup_replicate. apply shard_ok_empty.
  - intros idx m [-> Hi]%lookup_replicate. by apply lookup_replicate_2.
Qed.

Lemma new_shape backend codec max s : RustStore_new backend codec max = Ok s → shape hash s.
Proof.
  unfold RustStore_new. destruct (str_eqb backend _), (str_eqb codec _); cbn [negb]; try done.
  intros [= <-]. apply fresh_shape.
Qed.

(** [Store()] *)
Lemma new_store_ok (max : option nat) s :
  RustStore_new (lit "memory") (lit "msgpack") max = Ok s → rust_ok s ∧ rust_view s = ∅.
Proof.
  intros Hnew. pose proof (new_shape _ _ _ _ Hnew) as Hs.
  assert (store_rows s = ∅) as Hr.
  { unfold RustStore_new in Hnew. cbn in Hnew. injection Hnew as <-. by vm_compute. }
  unfold rust_ok, rust_view. rewrite Hr, fmap_empty. split; [|done]. split; [done|apply map_Forall_empty].
Qed.

(** Everything stored, in bytes. *)
Definition total_bytes s : Z := foldr (λ m n, (shard_size m + n)%Z) 0%Z (shards s).

Lemma shard_counts s : shape hash s → Forall2 (λ c m, c = wrap64 (shard_size m)) (shard_bytes s) (shards s).
Proof.
  intros Hs. apply Forall2_same_length_lookup. split.
  - by rewrite (shape_bytes hash s Hs), (shape_shards hash s Hs).
  - intros i c m Hc Hm. pose proof (shape_count hash s Hs i m Hm). congruence.
Qed.

Lemma counts_sum s : shape hash s → cong64 (foldr Z.add 0%Z (shard_bytes s)) (total_bytes s).
Proof.
  intros Hs%shard_counts. unfold total_bytes. induction Hs as [|c m cs ms -> _ IH]; [done|].
  cbn [foldr]. by rewrite IH, wrap64_cong.
Qed.

(** ** Properties *)

(** C26: The default store implements the contract of [protocols.py], codec
    included: whatever the hash, a client that makes any sequence of calls with
    storable arguments gets, call by call, the answers of the reference store
    holding the same data (the counts of [delete_many] and [delete_namespace]
    included), and leaves the same data behind. *)
Theorem rust_refines_reference cs s :
  rust_ok s → Forall call_ok cs →
  ∃ answers s',
    run_calls (rust_ops hash) cs s = (Ok answers, s') ∧
    run_calls (reference false) cs (rust_view s) = (Ok answers, rust_view s') ∧
    rust_ok s'.
Proof.
  intros Hs Hcs.
  destruct (wp_elim _ _ _ (run_calls_simulates (ops:=rust_ops hash) (spec:=rust_spec) false
    ltac:(split; [done|split_and!; by eexists]) cs s Hs Hcs)) as (l&s'&H&Hok&Hr).
  exists l, s'. by split_and!.
Qed.

(** The byte counts are exact: after any calls on a new store, with any
    arguments and whether or not they raise, the counter of every shard is the
    total length of the values in it and [size_bytes] of a snapshot is that of the
    whole store (modulo 2^64, the width of the counters), although each operation
    only adds or subtracts what it changed. *)
Theorem rust_byte_counts backend codec max s0 cs r s now :
  RustStore_new backend codec max = Ok s0 → run_calls (rust_ops hash) cs s0 = (r, s) →
  Forall2 (λ c m, c = wrap64 (shard_size m)) (shard_bytes s) (shards s) ∧
  ∃ d s', RustStore_snapshot now s = (Ok d, s') ∧ sd_size_bytes d = wrap64 (total_bytes s).
Proof.
  intros H0%new_shape Hr. assert (shape hash s) as Hs
    by (pose proof (run_calls_shape cs s0 H0) as H; by rewrite Hr in H).
  split; [by apply shard_counts|]. do 2 eexists. split; [done|]. by apply counts_sum.
Qed.

Lemma Snapshot_keys_elem d s p :
  shape hash s → sd_shards d = shards s →
  NoDup (Snapshot_keys d) ∧ (p ∈ Snapshot_keys d ↔ is_Some (store_rows s !! p)).
Proof.
  intros Hs Hd. unfold Snapshot_keys. rewrite Hd.
  pose (keys_of := λ m : NsMap, map_to_list m ≫= λ e : pystr * KeyMap, (λ k, (e.1, k)) <$> (map_to_list e.2).*1).
  assert (∀ (m : NsMap) q, q ∈ keys_of m ↔ is_Some (tab m !! q)) as Hkeys.
  { intros m [ns k]. unfold keys_of. rewrite list_elem_of_bind, tab_lookup. split.
    - intros ([n kv]&Hin&Hkv%elem_of_map_to_list). apply list_elem_of_fmap in Hin as (k'&[= -> ->]&Hk).
      cbn [fst snd] in *. rewrite Hkv. by apply elem_of_map_to_list_fst.
    - intros [b Hb]. destruct (m !! ns) as [kv|] eqn:E; [|done]. cbn in Hb. exists (ns, kv). split.
      + apply list_elem_of_fmap. exists k. split; [done|]. apply elem_of_map_to_list_fst. by exists b.
      + by apply elem_of_map_to_list. }
  assert (∀ m : NsMap, NoDup (keys_of m)) as Hnd.
  { intros m. unfold keys_of. apply NoDup_bind; [| |apply NoDup_map_to_list].
    - intros [n kv] [n' kv'] [q k] Hin Hin' Hq Hq'. apply elem_of_map_to_list in Hin, Hin'.
      apply list_elem_of_fmap in Hq as (?&[= -> _]&_). apply list_elem_of_fmap in Hq' as (?&[= -> _]&_).
      cbn [fst] in *. congruence.
    - intros [n kv] _. apply NoDup_fmap_2; [by intros ?? [= ?]|apply NoDup_fst_map_to_list]. }
  change (λ m : NsMap, map_to_list m ≫= _) with keys_of.
  pose proof (shape_shard hash s Hs) as Hok. split.
  - clear Hd Hs. induction (shards s) as [|m ms IH] using rev_ind; [constructor|]. rewrite bind_app. cbn.
    rewrite app_nil_r. apply NoDup_app. split_and!; [| |apply Hnd].
    + apply IH. intros idx m' Hi. apply Hok. by apply lookup_app_l_Some.
    + intros [ns k] (m'&Hin&[idx Hi]%list_elem_of_lookup)%list_elem_of_bind Hin'.
      apply Hkeys in Hin as [b Hb], Hin' as [b' Hb']. rewrite tab_lookup in Hb, Hb'.
      apply bind_Some in Hb as (kv&Hkv&_), Hb' as (kv'&Hkv'&_).
      destruct (Hok idx m' ltac:(by apply lookup_app_l_Some) _ _ Hkv) as [_ Hi1].
      destruct (Hok (length ms) m ltac:(by rewrite lookup_app_r, Nat.sub_diag by done) _ _ Hkv') as [_ Hi2].
      apply lookup_lt_Some in Hi. lia.
  - rewrite list_elem_of_bind. rewrite (store_rows_shard hash) by done. split.
    + intros (m&Hp%Hkeys&[idx Hi]%list_elem_of_lookup). unfold shard_at.
      assert (shard_index hash p.1 = idx) as ->; [|by rewrite Hi].
      destruct p as [ns k], Hp as [b Hb]. rewrite tab_lookup in Hb. apply bind_Some in Hb as (kv&Hkv&_).
      by apply (Hok idx m Hi ns kv).
    + intros Hp. exists (shard_at (shard_index hash p.1) s). split; [by apply Hkeys|].
      eapply list_elem_of_lookup_2, (shard_at_lookup hash); [done|apply shard_index_lt].
Qed.

(** [restore] writes the shards and counts of the snapshot, whatever is there. *)
Lemma rust_restore_at now s d s1 s2 :
  rust_ok s → RustStore_snapshot now s = (Ok d, s1) →
  ∃ s3, RustStore_restore d s2 = (Ok tt, s3) ∧ rust_ok s3 ∧ rust_view s3 = rust_view s ∧
    shape hash s3 ∧ sd_shards d = shards s3.
Proof.
  intros [Hs Hok] [= <- _]. eexists. split; [done|].
  match goal with |- rust_ok ?x ∧ _ => set (s3 := x) end.
  assert (shape hash s3) as Hs3 by (destruct Hs; by split).
  by split_and!.
Qed.

(** C27: [restore] goes back to [snapshot]: after any calls in between, the store
    holds the rows it held, with shards and byte counts that belong to them, and
    the snapshot's [keys] are the keys it has again. *)
Theorem rust_restore_snapshot now s d s1 cs r s2 :
  rust_ok s → RustStore_snapshot now s = (Ok d, s1) → run_calls (rust_ops hash) cs s1 = (r, s2) →
  ∃ s3, RustStore_restore d s2 = (Ok tt, s3) ∧ rust_ok s3 ∧ rust_view s3 = rust_view s ∧
    NoDup (Snapshot_keys d) ∧ ∀ p, p ∈ Snapshot_keys d ↔ is_Some (rust_view s3 !! p).
Proof.
  intros Hs Hd _. destruct (rust_restore_at now s d s1 s2 Hs Hd) as (s3&E&Hok&Hv&Hs3&Hsd).
  exists s3. split_and!; [done..| |].
  - by apply (Snapshot_keys_elem _ s3 ([], [])).
  - intros [ns k]. rewrite rust_view_is_Some. by apply Snapshot_keys_elem.
Qed.

(** A walk of [diff] finds the rows selected by what the other snapshot has, if
    equal values are never selected: that is what makes skipping shared maps sound. *)
Lemma diff_walk_elem (sh : Sharing) d other s so select p :
  SharingOk sh → shape hash s → shape hash so → sd_shards d = shards s → sd_shards other = shards so →
  (∀ b, select (Some b) b = false) →
  p ∈ diff_walk hash sh d other select ↔
  ∃ b, store_rows s !! p = Some b ∧ select (store_rows so !! p) b = true.
Proof.
  intros Hsh Hs Hso Hd Ho Hsame. unfold diff_walk. rewrite Hd, Ho.
  assert (∀ ns kv k, ns_lookup hash ns other = Some kv → store_rows so !! (ns, k) = kv !! k) as Hlook.
  { intros ns kv k. unfold ns_lookup. rewrite Ho, (store_rows_lookup hash) by done.
    unfold lookup_raw, shard, shard_at. by intros ->. }
  assert (∀ ns k, (o ← ns_lookup hash ns other; o !! k) = store_rows so !! (ns, k)) as Hbase.
  { intros ns k. unfold ns_lookup. rewrite Ho, (store_rows_lookup hash) by done. done. }
  rewrite list_elem_of_bind. split.
  - intros ([idx m]&Hin&Hm%elem_of_lookup_imap). destruct Hm as (i&m'&[= -> ->]&Hi).
    cbn [fst snd] in Hin. destruct (same_shard sh _ _); [by apply not_elem_of_nil in Hin|].
    apply list_elem_of_bind in Hin as ([ns kv]&Hin&Hkv%elem_of_map_to_list). cbn [fst snd] in Hin.
    destruct (touched _ _ _); [|by apply not_elem_of_nil in Hin].
    apply list_elem_of_fmap in Hin as ([k b]&->&[Hsel Hb%elem_of_map_to_list]%list_elem_of_filter).
    cbn [fst snd] in *. exists b. rewrite Hbase in Hsel. split; [|done].
    rewrite (store_rows_lookup hash) by done. unfold lookup_raw, shard, shard_at.
    destruct (shape_shard hash s Hs i m' Hi ns kv Hkv) as [_ ->]. rewrite Hi. cbn. by rewrite Hkv.
  - intros (b&Hb&Hsel). destruct p as [ns k]. set (idx := shard_index hash ns).
    pose proof (shard_at_lookup hash s idx Hs (shard_index_lt hash ns)) as Hat.
    pose proof (shard_at_lookup hash so idx Hso (shard_index_lt hash ns)) as Hato.
    exists (idx, shard_at idx s). cbn [fst snd]. split.
    2:{ apply elem_of_lookup_imap. by exists idx, (shard_at idx s). }
    pose proof Hb as Hraw. rewrite (store_rows_lookup hash) in Hraw by done.
    unfold lookup_raw, shard in Hraw. fold idx in Hraw. apply bind_Some in Hraw as (kv&Hkv&Hk).
    rewrite Hato. cbn [from_option id].
    destruct (same_shard sh (shard_at idx s) (shard_at idx so)) eqn:Eshard.
    { apply (same_shard_eq sh Hsh) in Eshard. rewrite (store_rows_lookup hash) in Hsel by done.
      unfold lookup_raw, shard in Hsel. fold idx in Hsel. rewrite <-Eshard, Hkv in Hsel. cbn in Hsel.
      by rewrite Hk, Hsame in Hsel. }
    apply list_elem_of_bind. exists (ns, kv). cbn [fst snd]. split; [|by apply elem_of_map_to_list].
    destruct (touched sh kv (ns_lookup hash ns other)) eqn:Et.
    + apply list_elem_of_fmap. exists (k, b). split; [done|]. apply list_elem_of_filter. cbn [fst snd].
      rewrite Hbase. split; [done|]. by apply elem_of_map_to_list.
    + unfold touched in Et. destruct (ns_lookup hash ns other) as [o|] eqn:Eo; [|done].
      apply negb_false_iff, (same_ns_eq sh Hsh) in Et as ->.
      by rewrite (Hlook _ _ k Eo), Hk, Hsame in Hsel.
Qed.

(** [diff] describes how to get from one snapshot to another, although it skips
    what they share: the keys it lists as added, removed and changed are exactly
    those only the newer, only the older, and both with different bytes have,
    whichever of the equal maps and values are found to be the same object. *)
Theorem rust_diff_describes (sh : Sharing) now now' s sb d s' base sb' :
  SharingOk sh → rust_ok s → rust_ok sb →
  RustStore_snapshot now s = (Ok d, s') → RustStore_snapshot now' sb = (Ok base, sb') →
  let D := Snapshot_diff hash sh d base in
  ∀ p, (p ∈ rd_added D ↔ is_Some (store_rows s !! p) ∧ store_rows sb !! p = None) ∧
       (p ∈ rd_removed D ↔ store_rows s !! p = None ∧ is_Some (store_rows sb !! p)) ∧
       (p ∈ rd_changed D ↔ ∃ v w, store_rows s !! p = Some v ∧ store_rows sb !! p = Some w ∧ v ≠ w).
Proof.
  intros Hsh [Hs _] [Hsb _] [= <- _] [= <- _] D p. unfold D, Snapshot_diff.
  cbn [rd_added rd_removed rd_changed].
  rewrite (diff_walk_elem sh _ _ s sb), (diff_walk_elem sh _ _ sb s), (diff_walk_elem sh _ _ s sb); try done.
  2:{ intros b. apply andb_false_iff. right. by rewrite bool_decide_true. }
  destruct (store_rows s !! p) as [v|], (store_rows sb !! p) as [w|]; split_and!; split; try naive_solver.
  - intros (b&[= <-]&[_ Hne]%andb_true_iff). exists v, w. split_and!; [done..|].
    intros ->. by rewrite bool_decide_true in Hne.
  - intros (v'&w'&[= <-]&[= <-]&Hne). exists v. split; [done|]. apply andb_true_iff. split.
    + destruct (same_arc sh w v) eqn:E; [|done]. by apply (same_arc_eq sh Hsh) in E as ->.
    + by rewrite bool_decide_false by congruence.
Qed.

(** *** The retained snapshots *)

Definition kept (max : option nat) (ds : list SnapshotData) : list SnapshotData :=
  match max with Some n => drop (length ds - n) ds | None => ds end.

Lemma retain_kept max (ds : list SnapshotData) : foldl (λ h d, retain max d h) [] ds = kept max ds.
Proof.
  induction ds as [|d ds IH] using rev_ind; [by destruct max|]. rewrite foldl_app. cbn [foldl]. rewrite IH.
  destruct max as [[|n]|]; cbn [retain kept]; [|rewrite !length_app, length_drop; cbn [length]|done].
  - by rewrite !drop_ge by lia.
  - destruct (decide (length ds < S n)) as [Hlt|Hge].
    + replace (length ds - S n) with 0 by lia. cbn [drop]. do 2 f_equal. lia.
    + rewrite (drop_app_le ds) by lia. rewrite drop_app_le by (rewrite length_drop; lia).
      rewrite drop_drop. do 2 f_equal. lia.
Qed.

Lemma snapshot_run now s : ∃ d s1, RustStore_snapshot now s = (Ok d, s1) ∧
  (sd_id d = counter s ∧ sd_parent d = last_id s) ∧
  (history s1 = retain (max_history s) d (history s) ∧ max_history s1 = max_history s) ∧
  counter s1 = wrap64 (counter s + 1) ∧ last_id s1 = Some (counter s).
Proof. do 2 eexists. split; [reflexivity|done]. Qed.

Lemma snapshots_run clock s ds s' :
  counter s = wrap64 (counter s) → mapM RustStore_snapshot clock s = (Ok ds, s') →
  history s' = foldl (λ h d, retain (max_history s) d h) (history s) ds ∧
  ∀ i d, ds !! i = Some d → sd_id d = wrap64 (counter s + Z.of_nat i) ∧
    sd_parent d = if decide (i = 0) then last_id s else Some (wrap64 (counter s + Z.of_nat i - 1)).
Proof.
  revert s ds. induction clock as [|now clock IH]; intros s ds Hc.
  - intros [= <- <-]. by split.
  - cbn [mapM]. unfold mbind at 1, pym_bind at 1.
    destruct (snapshot_run now s) as (d0&s1&->&[Hid Hpar]&[Hh1 Hm1]&Hc1&Hl1).
    unfold mbind, pym_bind. destruct (mapM RustStore_snapshot clock s1) as [[l|e|] s2] eqn:E; [|done..].
    intros [= <- <-]. apply IH in E as [Hh Hids]; [|rewrite Hc1; symmetry; apply wrap64_cong].
    split; [by rewrite Hh, Hh1, Hm1|]. intros [|i] d Hd.
    + injection Hd as <-. split; [|done]. by rewrite Hid, Z.add_0_r.
    + destruct (Hids i d Hd) as [-> ->]. rewrite Hc1, Hl1, (decide_False (P:=S i = 0)) by done. split.
      * apply wrap64_cong_add. lia.
      * destruct (decide (i = 0)) as [->|Hi]; f_equal.
        -- rewrite Hc at 1. f_equal. lia.
        -- unfold Z.sub. rewrite <-Z.add_assoc. apply wrap64_cong_add. lia.
Qed.

(** Retention keeps the newest snapshots and no more: after any number of
    snapshots of a new store, [history] is all of them, or the last [max_history],
    oldest first (none by default), and the snapshots are numbered from 1 (modulo
    2^64), each naming the one before it as its parent. *)
Theorem history_keeps_last backend codec max clock s0 ds s :
  RustStore_new backend codec max = Ok s0 → mapM RustStore_snapshot clock s0 = (Ok ds, s) →
  history s = kept max ds ∧
  ∀ i d, ds !! i = Some d → sd_id d = wrap64 (Z.of_nat i + 1) ∧
    sd_parent d = if decide (i = 0) then None else Some (wrap64 (Z.of_nat i)).
Proof.
  unfold RustStore_new. destruct (str_eqb backend _), (str_eqb codec _); cbn [negb]; try done.
  intros [= <-] H. apply snapshots_run in H as [Hh Hids]; [|done]. cbn [max_history history counter last_id] in *.
  split; [by rewrite Hh, retain_kept|]. intros i d Hd. destruct (Hids i d Hd) as [-> ->].
  split; [by rewrite Z.add_comm|]. case_decide; [done|]. do 2 f_equal. lia.
Qed.
End Store.

(** ** Examples *)

(** A hash that spreads by length, so that batches cross shards. *)
Definition ex_hash (t : pystr) : N := N.of_nat (length t).

Definition ex_fresh : RustStore :=
  {| shards := replicate SHARDS ∅; max_history := Some 2; history := []; counter := 1;
     last_id := None; shard_bytes := replicate SHARDS 0%Z |}.
Definition ex_seven : bytes := match encode (PInt 7) with Ok b => b | _ => [] end.
Definition ex_rust : RustStore := set_entry ex_hash (lit "n") (lit "k") ex_seven ex_fresh.

Lemma ex_rust_ok : rust_ok ex_hash ex_rust.
Proof.
  pose proof (fresh_shape ex_hash (Some 2) : shape ex_hash ex_fresh) as H.
  destruct (set_entry_ok ex_hash ex_fresh (lit "n") (lit "k") ex_seven H) as [Hs Hrows].
  split; [exact Hs|]. unfold ex_rust. rewrite Hrows. apply map_Forall_insert_2.
  - split_and!; [by apply (bool_decide_unpack _)..|]. exists (PInt 7). split; [by vm_compute|].
    by apply (bool_decide_unpack _).
  - intros [ns k] b Hb. exfalso. rewrite (store_rows_lookup ex_hash) in Hb by exact H.
    revert Hb. unfold lookup_raw, shard, shard_at, ex_fresh. cbn [shards].
    rewrite lookup_replicate_2 by apply shard_index_lt. cbn [from_option id]. by rewrite lookup_empty.
Qed.

Abbreviation ex_rust_calls :=
  [CSetMany [(lit "n", lit "j", PInt 2); (lit "nn", lit "j", PNone)];
   CGetMany [(lit "nn", lit "j"); (lit "n", lit "k")]; CNamespaces (Some (lit "n")); CDelete (lit "n") (lit "k")].

Lemma rust_refines_reference_witness : ∃ answers s',
  run_calls (rust_ops ex_hash) ex_rust_calls ex_rust = (Ok answers, s') ∧
  run_calls (reference false) ex_rust_calls (rust_view ex_rust) = (Ok answers, rust_view s') ∧
  rust_ok ex_hash s'.
Proof.
  apply (rust_refines_reference ex_hash ex_rust_calls ex_rust ex_rust_ok).
  repeat constructor; by apply (bool_decide_unpack _).
Defined.

(** A call that raises in the middle; seven bytes are left. *)
Lemma rust_byte_counts_witness : ∃ s0 r s d s',
  RustStore_new (lit "memory") (lit "msgpack") None = Ok s0 ∧
  run_calls (rust_ops ex_hash) [CSet (lit "n") (lit "k") (PStr (lit "abcdef")); CSet (lit "n") (lit "k") (PInt (2 ^ 70))]
    s0 = (r, s) ∧
  RustStore_snapshot 5 s = (Ok d, s') ∧ sd_size_bytes d = wrap64 (total_bytes s).
Proof.
  destruct (run_calls (rust_ops ex_hash) [CSet (lit "n") (lit "k") (PStr (lit "abcdef"));
    CSet (lit "n") (lit "k") (PInt (2 ^ 70))]
    {| shards := replicate SHARDS ∅; max_history := None; history := []; counter := 1;
       last_id := None; shard_bytes := replicate SHARDS 0%Z |}) as [r s] eqn:E.
  destruct (rust_byte_counts ex_hash (lit "memory") (lit "msgpack") None _ _ _ _ 5 eq_refl E)
    as (_&d&s'&Hd&Hsize).
  eexists _, r, s, d, s'. split; [reflexivity|]. split; [exact E|]. split; [exact Hd|exact Hsize].
Defined.

Lemma rust_restore_snapshot_witness : ∃ d s1 r s2 s3,
  RustStore_snapshot 5 ex_rust = (Ok d, s1) ∧
  run_calls (rust_ops ex_hash) [CDelete (lit "n") (lit "k"); CSet (lit "m") (lit "k") PNone] s1 = (r, s2) ∧
  RustStore_restore d s2 = (Ok tt, s3) ∧ rust_view s3 = rust_view ex_rust.
Proof.
  destruct (snapshot_run 5 ex_rust) as (d&s1&Ed&_).
  destruct (run_calls (rust_ops ex_hash) [CDelete (lit "n") (lit "k"); CSet (lit "m") (lit "k") PNone] s1)
    as [r s2] eqn:Er.
  destruct (rust_restore_snapshot ex_hash 5 ex_rust _ s1 _ r s2 ex_rust_ok Ed Er) as (s3&H3&_&Hv&_).
  exists d, s1, r, s2, s3. split; [exact Ed|]. split; [exact Er|]. split; [exact H3|exact Hv].
Defined.

(** Sharing found nowhere; the store against its own snapshot. *)
Definition no_sharing : Sharing :=
  {| same_shard := λ _ _, false; same_ns := λ _ _, false; same_arc := λ _ _, false |}.

Lemma no_sharing_ok : SharingOk no_sharing.
Proof. by split. Qed.

Lemma rust_diff_describes_witness : ∃ d s',
  RustStore_snapshot 5 ex_rust = (Ok d, s') ∧
  (lit "n", lit "k") ∉ rd_added (Snapshot_diff ex_hash no_sharing d d).
Proof.
  destruct (snapshot_run 5 ex_rust) as (d&s'&Ed&_).
  exists d, s'. split; [exact Ed|].
  rewrite (proj1 (rust_diff_describes ex_hash no_sharing 5 5 ex_rust ex_rust _ s' _ s' no_sharing_ok
    ex_rust_ok ex_rust_ok Ed Ed (lit "n", lit "k"))).
  intros [[b Hb] Hn]. rewrite Hn in Hb. discriminate Hb.
Defined.

Lemma history_keeps_last_witness : ∃ s0 ds s,
  RustStore_new (lit "memory") (lit "msgpack") (Some 2) = Ok s0 ∧
  mapM RustStore_snapshot [3; 4; 5]%Z s0 = (Ok ds, s) ∧ history s = kept (Some 2) ds.
Proof.
  set (s0 := {| shards := replicate SHARDS ∅; max_history := Some 2; history := []; counter := 1;
       last_id := None; shard_bytes := replicate SHARDS 0%Z |}).
  destruct (mapM RustStore_snapshot [3; 4; 5]%Z s0) as [[ds|e|] s] eqn:E.
  - destruct (history_keeps_last ex_hash (lit "memory") (lit "msgpack") (Some 2) [3; 4; 5]%Z s0 ds s eq_refl E)
      as [Hh _].
    exists s0, ds, s. split; [reflexivity|]. split; [exact E|exact Hh].
  - discriminate E.
  - discriminate E.
Defined.
