(* ===== verification/RustThreads.v ===== *)
(** * The in-memory store under concurrent calls ([rust/src/store.rs])

    The methods of [RustStore] as threads run them, the interpreter detached: a shard's
    map is reached under its lock. A method that holds one lock for what it does there
    takes one step for it, since nobody sees the middle; [snapshot] and [restore] take
    every lock in turn and hold them. What the source does between two locks, or after
    releasing one, is a step of its own: [delete_namespace] subtracts the bytes it
    freed, and [clear] zeroes a count, after the lock is gone. A lock is granted
    whenever it is free. The methods that only read hold one read lock at a time for
    one step that changes nothing, and are left out. *)

From S2P Require Import Prelude PyValue Interleave Store RustStore.

(** One [RwLock]: how many hold it for reading, and whether one does for writing. *)
Record ShardLock := { lk_readers : nat; lk_writer : bool }.

Definition can_read (l : ShardLock) : bool := negb (lk_writer l).
Definition can_write (l : ShardLock) : bool := Nat.eqb (lk_readers l) 0 && negb (lk_writer l).
Definition read_locked (l : ShardLock) : ShardLock :=
  {| lk_readers := S (lk_readers l); lk_writer := lk_writer l |}.
Definition read_released (l : ShardLock) : ShardLock :=
  {| lk_readers := pred (lk_readers l); lk_writer := lk_writer l |}.
Definition write_locked (l : ShardLock) : ShardLock :=
  {| lk_readers := lk_readers l; lk_writer := true |}.
Definition write_released (l : ShardLock) : ShardLock :=
  {| lk_readers := lk_readers l; lk_writer := false |}.

Record RustShared := { rs_store : RustStore; rs_locks : list ShardLock }.

Definition with_store (s : RustStore) (x : RustShared) : RustShared :=
  {| rs_store := s; rs_locks := rs_locks x |}.
Definition with_locks (l : list ShardLock) (x : RustShared) : RustShared :=
  {| rs_store := rs_store x; rs_locks := l |}.

(** A store nobody uses. *)
Definition unlocked (s : RustStore) : RustShared :=
  {| rs_store := s; rs_locks := replicate SHARDS {| lk_readers := 0; lk_writer := false |} |}.

Definition free_for (can : ShardLock → bool) (i : nat) (x : RustShared) : bool :=
  from_option can false (rs_locks x !! i).

Inductive RustTask :=
  | TSet (ns k : pystr) (b : bytes)
  | TSetMany (buckets : list (nat * list Entry))          (* the buckets left *)
  | TDelete (ns k : pystr)
  | TDeleteMany (buckets : list (nat * list (pystr * pystr))) (removed : Z)
  | TDeleteNs (ns : pystr)
  | TFreed (idx : nat) (freed removed : Z)                (* before its [fetch_sub] *)
  | TClear (i : nat)                                      (* before shard [i] *)
  | TCleared (i : nat)                                    (* before [bytes.store(0)] *)
  | TSnap (now : Z) (i : nat)                             (* holds the locks below [i] *)
  | TClone (now : Z) (cloned : list NsMap)                (* holds every lock *)
  | TCount (now : Z) (cloned : list NsMap) (counts : list Z)
  | TSnapId (now : Z) (cloned : list NsMap) (counts : list Z)
  | TLastId (now : Z) (cloned : list NsMap) (counts : list Z) (id : Z)
  | TRetain (d : SnapshotData)                            (* before the history *)
  | TRestore (d : SnapshotData) (i : nat)                 (* holds the locks below [i] *)
  | TRestoring (d : SnapshotData) (i : nat)               (* holds every lock *)
  | TSnapshotted (d : SnapshotData)
  | TReturned (n : Z).

Section Threads.
Context (hash : pystr → N).

(** A step on the store under the write lock of shard [i]. *)
Definition write_region (i : nat) (x : RustShared) (r : RustStore * RustTask)
    : option (RustShared * RustTask) :=
  if free_for can_write i x then Some (with_store r.1 x, r.2) else None.

(** [set], [delete] *)
Definition set_step (ns k : pystr) (b : bytes) (x : RustShared) : option (RustShared * RustTask) :=
  write_region (shard_index hash ns) x (set_entry hash ns k b (rs_store x), TReturned 0).
Definition delete_step (ns k : pystr) (x : RustShared) : option (RustShared * RustTask) :=
  write_region (shard_index hash ns) x
    (let '(removed, s') := delete_entry hash ns k (rs_store x) in
     (s', TReturned (if removed then 1 else 0)%Z)).

(** [set_many], [delete_many]: an empty bucket takes no lock. *)
Definition set_many_step (bs : list (nat * list Entry)) (x : RustShared)
    : option (RustShared * RustTask) :=
  match bs with
  | [] => Some (x, TReturned 0)
  | (_, []) :: bs => Some (x, TSetMany bs)
  | b :: bs => write_region b.1 x (store_bucket (rs_store x) b, TSetMany bs)
  end.
Definition delete_many_step (bs : list (nat * list (pystr * pystr))) (removed : Z) (x : RustShared)
    : option (RustShared * RustTask) :=
  match bs with
  | [] => Some (x, TReturned removed)
  | (_, []) :: bs => Some (x, TDeleteMany bs removed)
  | b :: bs =>
      write_region b.1 x
        (let '(s', removed') := delete_bucket (rs_store x, removed) b in (s', TDeleteMany bs removed'))
  end.

(** [delete_namespace]: the guard is a temporary of the [let], gone before the count. *)
Definition delete_namespace_step (ns : pystr) (x : RustShared) : option (RustShared * RustTask) :=
  let s := rs_store x in
  let idx := shard_index hash ns in
  let m := shard_at idx s in
  write_region idx x
    match m !! ns with
    | None => (s, TReturned 0)
    | Some kv => (set_shards (<[idx := delete ns m]> (shards s)) (shard_bytes s) s,
                  TFreed idx (wrap64 (map_sum len_of kv)) (Z.of_nat (size kv)))
    end.
Definition freed_step (idx : nat) (freed removed : Z) (x : RustShared) : RustShared * RustTask :=
  let s := rs_store x in
  (with_store (set_shards (shards s) (fetch_sub idx freed (shard_bytes s)) s) x, TReturned removed).

(** [clear]: so is that of [write_lock(shard).clear()]. *)
Definition clear_step (i : nat) (x : RustShared) : option (RustShared * RustTask) :=
  let s := rs_store x in
  if Nat.ltb i SHARDS then
    write_region i x (set_shards (<[i := ∅]> (shards s)) (shard_bytes s) s, TCleared i)
  else Some (x, TReturned 0).
Definition cleared_step (i : nat) (x : RustShared) : RustShared * RustTask :=
  let s := rs_store x in
  (with_store (set_shards (shards s) (<[i := 0%Z]> (shard_bytes s)) s) x, TClear (S i)).

Definition write_step (x : RustShared) (t : RustTask) : option (RustShared * RustTask) :=
  match t with
  | TSet ns k b => set_step ns k b x
  | TSetMany bs => set_many_step bs x
  | TDelete ns k => delete_step ns k x
  | TDeleteMany bs removed => delete_many_step bs removed x
  | TDeleteNs ns => delete_namespace_step ns x
  | TFreed idx freed removed => Some (freed_step idx freed removed x)
  | TClear i => clear_step i x
  | TCleared i => Some (cleared_step i x)
  | _ => None
  end.

Definition snapshot_step (x : RustShared) (t : RustTask) : option (RustShared * RustTask) :=
  let s := rs_store x in
  match t with
  | TSnap now i =>
      if Nat.ltb i SHARDS then
        if free_for can_read i x
        then Some (with_locks (alter read_locked i (rs_locks x)) x, TSnap now (S i)) else None
      else Some (x, TClone now [])
  | TClone now cloned =>
      if Nat.ltb (length cloned) SHARDS
      then Some (x, TClone now (cloned ++ [shard_at (length cloned) s]))
      else Some (x, TCount now cloned [])
  | TCount now cloned counts =>
      if Nat.ltb (length counts) SHARDS
      then Some (x, TCount now cloned (counts ++ [from_option id 0%Z (shard_bytes s !! length counts)]))
      else Some (with_locks (read_released <$> rs_locks x) x, TSnapId now cloned counts)
  | TSnapId now cloned counts =>
      Some (with_store (set_ids (wrap64 (counter s + 1)) (last_id s) s) x,
            TLastId now cloned counts (counter s))
  | TLastId now cloned counts id =>
      Some (with_store (set_ids (counter s) (Some id) s) x,
            TRetain {| sd_id := id; sd_timestamp := now; sd_parent := last_id s;
                       sd_size_bytes := wrap64 (foldr Z.add 0%Z counts);
                       sd_shard_bytes := counts; sd_shards := cloned |})
  | TRetain d =>
      Some (with_store (set_history (retain (max_history s) d (history s)) s) x, TSnapshotted d)
  | _ => None
  end.

Definition restore_step (x : RustShared) (t : RustTask) : option (RustShared * RustTask) :=
  let s := rs_store x in
  match t with
  | TRestore d i =>
      if Nat.ltb i SHARDS then
        if free_for can_write i x
        then Some (with_locks (alter write_locked i (rs_locks x)) x, TRestore d (S i)) else None
      else Some (x, TRestoring d 0)
  | TRestoring d i =>
      if Nat.ltb i SHARDS then
        Some (with_store (set_shards
                (<[i := from_option id ∅ (sd_shards d !! i)]> (shards s))
                (<[i := from_option id 0%Z (sd_shard_bytes d !! i)]> (shard_bytes s)) s) x,
              TRestoring d (S i))
      else Some (with_locks (write_released <$> rs_locks x) x, TReturned 0)
  | _ => None
  end.

(** Nothing a step does can fail. *)
Definition thread_step (_ : bool) (x : RustShared) (t : RustTask) : option (RustShared * RustTask) :=
  match t with
  | TSnap _ _ | TClone _ _ | TCount _ _ _ | TSnapId _ _ _ | TLastId _ _ _ _ | TRetain _ =>
      snapshot_step x t
  | TRestore _ _ | TRestoring _ _ => restore_step x t
  | _ => write_step x t
  end.

(** The methods, called. *)
Definition set_many_task (encoded : list Entry) : RustTask :=
  TSetMany (enumerated (buckets hash (λ e : Entry, e.1.1) encoded)).
Definition delete_many_task (pairs : list (pystr * pystr)) : RustTask :=
  TDeleteMany (enumerated (buckets hash fst pairs)) 0.
End Threads.

Definition thread_called (t : RustTask) : bool :=
  match t with
  | TSet _ _ _ | TSetMany _ | TDelete _ _ | TDeleteMany _ _ | TDeleteNs _ => true
  | TClear i | TSnap _ i | TRestore _ i => Nat.eqb i 0
  | _ => false
  end.
Definition thread_ended (t : RustTask) : bool :=
  match t with TSnapshotted _ | TReturned _ => true | _ => false end.

(** ** Runs *)

Definition hash0 (ns : pystr) : N := N.of_nat (length ns).
Definition new_store : RustStore :=
  {| shards := replicate SHARDS ∅; max_history := None; history := []; counter := 1;
     last_id := None; shard_bytes := replicate SHARDS 0%Z |}.

(** A [set] between the two halves of [clear] on its shard loses its count: the store
    holds one byte and the shard counts none; deleting it then counts 2^64 - 1. *)
Example clear_races_set :
  let run := run_schedule (thread_step hash0) in
  let '(x, ts) := run ((λ i, (i, true)) <$> [0; 1; 0]) (unlocked new_store, [TClear 0; TSet [] (lit "k") [Byte.x00]]) in
  shard_at 0 (rs_store x) !! [] = Some {[lit "k" := [Byte.x00]]} ∧
  shard_bytes (rs_store x) !! 0 = Some 0%Z ∧
  shard_bytes (delete_entry hash0 [] (lit "k") (rs_store x)).2 !! 0 = Some (2 ^ 64 - 1)%Z.
Proof. vm_compute. split_and!; reflexivity. Qed.

(** A [clear] between the two halves of [delete_namespace] counts 2^64 - 1 bytes in an
    empty store. *)
Example delete_namespace_races_clear :
  let s := set_entry hash0 [] (lit "k") [Byte.x00] new_store in
  let '(x, ts) := run_schedule (thread_step hash0) ((λ i, (i, true)) <$> (0 :: replicate 33 1 ++ [0]))
                    (unlocked s, [TDeleteNs []; TClear 0]) in
  ts = [TReturned 1; TReturned 0] ∧
  shards (rs_store x) = replicate SHARDS ∅ ∧ shard_bytes (rs_store x) !! 0 = Some (2 ^ 64 - 1)%Z.
Proof. vm_compute. split_and!; reflexivity. Qed.

(** A snapshot can see half a batch that spans two shards. *)
Example snapshot_sees_half_a_batch :
  let batch := set_many_task hash0 [([], lit "k", [Byte.x00]); (lit "n", lit "k", [Byte.x00])] in
  let '(x, ts) := run_schedule (thread_step hash0) ((λ i, (i, true)) <$> (0 :: replicate 54 1))
                    (unlocked new_store, [batch; TSnap 0 0]) in
  (λ t, match t with TSnapshotted d => size (⋃ sd_shards d) | _ => 0 end) <$> ts = [0; 1].
Proof. vm_compute. reflexivity. Qed.
