(* ===== verification/RustThreadsTheorems.v ===== *)
(** * The in-memory store under concurrent calls: what holds

    The locks account for the tasks that hold them, so a snapshot sees one moment and
    no set of calls deadlocks; the byte counts settle. *)

From Stdlib Require Import ZifyBool.
From stdpp Require Import relations.
From S2P Require Import Prelude PyValue Codec Interleave Store RustStore RustStoreTheorems RustStoreProps RustThreads.

#[local] Arguments store_bucket : simpl never.
#[local] Arguments delete_bucket : simpl never.
#[local] Arguments set_entry : simpl never.
#[local] Arguments delete_entry : simpl never.

Ltac unfold_write H :=
  unfold write_step, set_step, set_many_step, delete_step, delete_many_step,
    delete_namespace_step, freed_step, clear_step, cleared_step in H.

Lemma thread_step_split hash ok x t y :
  thread_step hash ok x t = Some y →
  write_step hash x t = Some y ∨ snapshot_step x t = Some y ∨ restore_step x t = Some y.
Proof. destruct t; auto. Qed.

(** ** Counts: what was freed and is not yet subtracted *)

Definition owed (t : RustTask) : list (nat * Z) :=
  match t with TFreed idx freed _ => [(idx, freed)] | _ => [] end.

Definition settle_bytes (l : list (nat * Z)) (b : list Z) : list Z :=
  foldr (λ e b, fetch_sub e.1 e.2 b) b l.
Definition settle (l : list (nat * Z)) (s : RustStore) : RustStore :=
  set_shards (shards s) (settle_bytes l (shard_bytes s)) s.

Lemma wrap64_shift x y z : wrap64 (wrap64 (x + y) + z) = wrap64 (wrap64 (x + z) + y).
Proof. unfold wrap64. rewrite !Zplus_mod_idemp_l. f_equal. lia. Qed.

(** The updates of a counter commute. *)
Lemma fetch_add_add i j m n b : fetch_add i m (fetch_add j n b) = fetch_add j n (fetch_add i m b).
Proof.
  unfold fetch_add. destruct (decide (i = j)) as [->|Hne]; [|by apply list_alter_alter_ne].
  rewrite !list_alter_alter_eq. apply list_alter_ext; [|done]. intros c _. apply wrap64_shift.
Qed.

Lemma fetch_sub_add i n b : fetch_sub i n b = fetch_add i (- n) b.
Proof. done. Qed.

Lemma settle_add l i m b : settle_bytes l (fetch_add i m b) = fetch_add i m (settle_bytes l b).
Proof.
  unfold settle_bytes. induction l as [|e l IH]; cbn [foldr]; [done|]. rewrite IH, !fetch_sub_add. apply fetch_add_add.
Qed.

Lemma settle_sub l i m b : settle_bytes l (fetch_sub i m b) = fetch_sub i m (settle_bytes l b).
Proof. rewrite !fetch_sub_add. apply settle_add. Qed.

Lemma settle_perm l l' s : l ≡ₚ l' → settle l s = settle l' s.
Proof.
  intros Hp. unfold settle, settle_bytes. f_equal.
  induction Hp as [| |x y l|]; cbn [foldr]; [done|congruence| |congruence].
  rewrite !fetch_sub_add. apply fetch_add_add.
Qed.

(** A step under a lock does to the settled store what it does to the store. *)
Lemma settle_set_entry hash l ns k b s :
  settle l (set_entry hash ns k b s) = set_entry hash ns k b (settle l s).
Proof.
  unfold set_entry, shard_at. cbn [shards settle set_shards].
  destruct (shard_insert _ _ _ _) as [old m]. unfold settle. cbn.
  destruct (_ <=? _)%Z; [by rewrite settle_add|by rewrite settle_sub].
Qed.

Lemma settle_store_bucket l b s : settle l (store_bucket s b) = store_bucket (settle l s) b.
Proof.
  unfold store_bucket, shard_at. cbn [shards settle set_shards]. destruct b.2; [done|].
  destruct (insert_bucket _ _) as [m delta]. unfold settle. cbn.
  destruct (0 <=? _)%Z; [by rewrite settle_add|by rewrite settle_sub].
Qed.

Lemma settle_delete_entry hash l ns k s :
  settle l (delete_entry hash ns k s).2 = (delete_entry hash ns k (settle l s)).2.
Proof.
  unfold delete_entry, shard_at. cbn [shards settle set_shards].
  destruct (from_option id ∅ (shards s !! shard_index hash ns) !! ns) as [kv|]; [|done].
  destruct (kv !! k); [|done]. unfold settle. cbn. by rewrite settle_sub.
Qed.

Lemma settle_delete_bucket l b r s :
  settle l (delete_bucket (s, r) b).1 = (delete_bucket (settle l s, r) b).1.
Proof.
  unfold delete_bucket, shard_at. cbn [shards settle set_shards fst snd]. destruct b.2; [done|].
  destruct (foldl remove_entry _ _) as [[m freed] r']. unfold settle. cbn. by rewrite settle_sub.
Qed.

Section counts.
Context (hash : pystr → N).

(** The methods whose byte counts settle: all but [clear] and [restore], which put a
    count where others may be adding. The buckets are those of the hash. *)
Definition bucket_ok {A : Type} (ns_of : A → pystr) (b : nat * list A) : Prop :=
  b.1 < SHARDS ∧ Forall (λ x, shard_index hash (ns_of x) = b.1) b.2.
Definition counting (t : RustTask) : Prop :=
  match t with
  | TSetMany bs => Forall (bucket_ok (λ e : Entry, e.1.1)) bs
  | TDeleteMany bs _ => Forall (bucket_ok fst) bs
  | TClear _ | TCleared _ | TRestore _ _ | TRestoring _ _ => False
  | _ => True
  end.

Lemma enumerated_buckets_ok {A : Type} (ns_of : A → pystr) (l : list A) :
  Forall (bucket_ok ns_of) (enumerated (buckets hash ns_of l)).
Proof.
  apply Forall_lookup. intros i [j b] H. unfold enumerated in H. rewrite list_lookup_imap in H.
  apply fmap_Some in H as (b'&Hb&[= -> ->]). split; cbn.
  - rewrite <-(buckets_length hash ns_of l). by apply lookup_lt_Some in Hb.
  - by apply (buckets_elem hash ns_of l).
Qed.

Lemma set_many_counting encoded : counting (set_many_task hash encoded).
Proof. apply enumerated_buckets_ok. Qed.
Lemma delete_many_counting pairs : counting (delete_many_task hash pairs).
Proof. apply enumerated_buckets_ok. Qed.

Definition counts_ok (x : RustShared) (ts : list RustTask) : Prop :=
  Forall counting ts ∧ shape hash (settle (ts ≫= owed) (rs_store x)).

Lemma write_region_inv i x r y :
  write_region i x r = Some y → free_for can_write i x = true ∧ y = (with_store r.1 x, r.2).
Proof. unfold write_region. by destruct (free_for can_write i x); intros [= <-]. Qed.

Lemma settle_ids l c i s : shape hash (settle l s) → shape hash (settle l (set_ids c i s)).
Proof. intros [H1 H2 H3 H4]. by split. Qed.
Lemma settle_history l h s : shape hash (settle l s) → shape hash (settle l (set_history h s)).
Proof. intros [H1 H2 H3 H4]. by split. Qed.

Lemma counts_write x t x' t' ts :
  write_step hash x t = Some (x', t') → counts_ok x (t :: ts) → counts_ok x' (t' :: ts).
Proof.
  unfold counts_ok. rewrite !bind_cons. intros Hs [Hc H].
  apply Forall_cons in Hc as [Ht Hts].
  unfold_write Hs. destruct t as [ns k b|[|[i [|e b]] bs]|ns k|[|[i [|e b]] bs] r|ns|i freed r| | | | | | | | | | | |];
    cbn in Hs; try done.
  - apply write_region_inv in Hs as [_ [= -> ->]]. split; [by constructor|].
    cbn [owed app] in *. cbn [with_store rs_store fst]. rewrite settle_set_entry. by apply set_entry_ok.
  - simplify_eq. by split; [constructor|].
  - simplify_eq. apply Forall_cons in Ht as [_ Ht]. by split; [constructor|].
  - apply write_region_inv in Hs as [_ [= -> ->]]. apply Forall_cons in Ht as [[Hi Hb] Ht].
    split; [by constructor|]. cbn [owed app] in *. cbn [with_store rs_store fst].
    rewrite settle_store_bucket. by apply store_bucket_ok.
  - apply write_region_inv in Hs as [_ E]. pose proof (settle_delete_entry hash (ts ≫= owed) ns k (rs_store x)) as Hd.
    destruct (delete_entry hash ns k (rs_store x)) as [removed s1]. cbn in E. simplify_eq.
    split; [by constructor|]. cbn in *. rewrite Hd. by apply delete_entry_ok.
  - simplify_eq. by split; [constructor|].
  - simplify_eq. apply Forall_cons in Ht as [_ Ht]. by split; [constructor|].
  - apply write_region_inv in Hs as [_ E]. apply Forall_cons in Ht as [[Hi Hb] Ht].
    pose proof (settle_delete_bucket (ts ≫= owed) (i, e :: b) r (rs_store x)) as Hd.
    destruct (delete_bucket (rs_store x, r) (i, e :: b)) as [s1 r1]. cbn in E. simplify_eq.
    split; [by constructor|]. cbn [owed app] in *. cbn [with_store rs_store]. cbn [fst] in Hd. rewrite Hd.
    by apply delete_bucket_ok.
  - apply write_region_inv in Hs as [_ E].
    pose proof (drop_namespace_ok hash (settle (ts ≫= owed) (rs_store x)) ns H) as [Hd _].
    unfold drop_namespace, shard_at in Hd. cbn [shards settle set_shards] in Hd. unfold shard_at in E.
    destruct (_ !! ns) as [kv|] eqn:Ek in E; rewrite Ek in Hd; simplify_eq; (split; [by constructor|]);
      [exact Hd|exact H].
  - simplify_eq. split; [by constructor|]. cbn in *. unfold settle in *. cbn in *. by rewrite settle_sub.
Qed.

Lemma counts_snapshot x t x' t' ts :
  snapshot_step x t = Some (x', t') → counts_ok x (t :: ts) → counts_ok x' (t' :: ts).
Proof.
  unfold counts_ok. rewrite !bind_cons. intros Hs [Hc H]. apply Forall_cons in Hc as [_ Hts].
  destruct t as [| | | | | | | |now i|now m|now m c|now m c|now m c id|d| | | |]; cbn -[SHARDS Nat.ltb] in Hs; try done;
    repeat case_match; simplify_eq; (split; [by constructor|]);
    cbn [owed app rs_store with_store with_locks] in *;
    solve [exact H|by apply settle_ids|by apply settle_history].
Qed.

Lemma counts_step ok x t x' t' ts :
  thread_step hash ok x t = Some (x', t') → counts_ok x (t :: ts) → counts_ok x' (t' :: ts).
Proof.
  intros [Hs|[Hs|Hs]]%thread_step_split H.
  - by eapply counts_write.
  - by eapply counts_snapshot.
  - destruct t; try done; by destruct H as [[[] _]%Forall_cons _].
Qed.
End counts.

(** ** Locks: who holds them *)

Definition reads_held (i : nat) (t : RustTask) : nat :=
  match t with
  | TSnap _ k => if Nat.ltb i k then 1 else 0
  | TClone _ _ | TCount _ _ _ => 1
  | _ => 0
  end.
Definition writes_held (i : nat) (t : RustTask) : nat :=
  match t with
  | TRestore _ k => if Nat.ltb i k then 1 else 0
  | TRestoring _ _ => 1
  | _ => 0
  end.

Record locks_ok (x : RustShared) (ts : list RustTask) : Prop := {
  lo_length : length (rs_locks x) = SHARDS;
  lo_shards : length (shards (rs_store x)) = SHARDS;
  lo_lock i l : rs_locks x !! i = Some l →
    lk_readers l = sum_list_with (reads_held i) ts ∧
    (if lk_writer l then 1 else 0) = sum_list_with (writes_held i) ts ∧
    (lk_writer l = true → lk_readers l = 0);
}.

Lemma lock_at x ts i : locks_ok x ts → i < SHARDS → ∃ l, rs_locks x !! i = Some l.
Proof. intros H Hi. apply lookup_lt_is_Some. by rewrite (lo_length x ts H). Qed.

Lemma shard_held x ts i t :
  locks_ok x ts → t ∈ ts → i < SHARDS → 0 < reads_held i t →
  ∃ l, rs_locks x !! i = Some l ∧ can_write l = false ∧ lk_writer l = false.
Proof.
  intros H Ht Hi Hr. destruct (lock_at x ts i H Hi) as [l Hl]. exists l. split; [done|].
  destruct (lo_lock x ts H i l Hl) as (E&_&Hw).
  assert (0 < sum_list_with (reads_held i) ts) as Hpos.
  { apply elem_of_Permutation in Ht as [ts' ->]. cbn. lia. }
  unfold can_write. destruct (lk_writer l); [specialize (Hw eq_refl); lia|].
  split; [|done]. destruct (Nat.eqb_spec (lk_readers l) 0); [lia|done].
Qed.

(** Steps that leave the locks and what is held alone. *)
Lemma locks_keep x x' t t' ts :
  rs_locks x' = rs_locks x → length (shards (rs_store x')) = length (shards (rs_store x)) →
  (∀ i, i < SHARDS → reads_held i t' = reads_held i t ∧ writes_held i t' = writes_held i t) →
  locks_ok x (t :: ts) → locks_ok x' (t' :: ts).
Proof.
  intros El Es Hh [H1 H2 H3]. split; [congruence|congruence|]. rewrite El. intros i l Hl.
  pose proof (lookup_lt_Some _ _ _ Hl) as Hi. rewrite H1 in Hi.
  destruct (Hh i Hi) as [E1 E2]. cbn. rewrite E1, E2. by apply H3.
Qed.

(** Steps on one lock: [f] is what is done to it. *)
Lemma locks_alter x t t' ts f k :
  (∀ i l, rs_locks x !! i = Some l → i = k →
    lk_readers (f l) + reads_held i t = lk_readers l + reads_held i t' ∧
    (if lk_writer (f l) then 1 else 0) + writes_held i t = (if lk_writer l then 1 else 0) + writes_held i t' ∧
    (lk_writer (f l) = true → lk_readers (f l) = 0)) →
  (∀ i, i ≠ k → reads_held i t' = reads_held i t ∧ writes_held i t' = writes_held i t) →
  locks_ok x (t :: ts) → locks_ok (with_locks (alter f k (rs_locks x)) x) (t' :: ts).
Proof.
  intros Hk Ho [H1 H2 H3]. split; cbn; [by rewrite length_alter|done|]. intros i l Hl.
  rewrite list_lookup_alter in Hl. case_decide as Hi.
  - subst. apply fmap_Some in Hl as (l0&Hl0&->).
    specialize (Hk i l0 Hl0 eq_refl). specialize (H3 i l0 Hl0). cbn in H3. lia.
  - destruct (Ho i) as [E1 E2]; [done|]. rewrite E1, E2. by apply (H3 i l).
Qed.

(** Steps that release every lock. *)
Lemma locks_release x t t' ts f :
  (∀ i l, i < SHARDS → lk_readers l = sum_list_with (reads_held i) (t :: ts) →
    (if lk_writer l then 1 else 0) = sum_list_with (writes_held i) (t :: ts) →
    (lk_writer l = true → lk_readers l = 0) →
    lk_readers (f l) + reads_held i t = lk_readers l + reads_held i t' ∧
    (if lk_writer (f l) then 1 else 0) + writes_held i t = (if lk_writer l then 1 else 0) + writes_held i t' ∧
    (lk_writer (f l) = true → lk_readers (f l) = 0)) →
  locks_ok x (t :: ts) → locks_ok (with_locks (f <$> rs_locks x) x) (t' :: ts).
Proof.
  intros Hk [H1 H2 H3]. split; cbn; [by rewrite length_fmap|done|]. intros i l Hl.
  rewrite list_lookup_fmap in Hl. apply fmap_Some in Hl as (l0&Hl0&->).
  pose proof (lookup_lt_Some _ _ _ Hl0) as Hi. rewrite H1 in Hi.
  specialize (H3 i l0 Hl0). specialize (Hk i l0 Hi). cbn in *. lia.
Qed.

Section threads.
Context (hash : pystr → N).

Lemma set_entry_length ns k b s : length (shards (set_entry hash ns k b s)) = length (shards s).
Proof. unfold set_entry. destruct (shard_insert _ _ _ _). apply length_insert. Qed.
Lemma store_bucket_length b s : length (shards (store_bucket s b)) = length (shards s).
Proof. unfold store_bucket. destruct b.2; [done|]. destruct (insert_bucket _ _). apply length_insert. Qed.
Lemma delete_entry_length ns k s : length (shards (delete_entry hash ns k s).2) = length (shards s).
Proof. unfold delete_entry. repeat case_match; try done; apply length_insert. Qed.
Lemma delete_bucket_length b r s : length (shards (delete_bucket (s, r) b).1) = length (shards s).
Proof.
  unfold delete_bucket. destruct b.2; [done|]. destruct (foldl remove_entry _ _) as [[]]. apply length_insert.
Qed.

(** A writing step keeps the locks, and changes the store only where nobody reads. *)
Lemma write_step_frame x t x' t' :
  write_step hash x t = Some (x', t') →
  rs_locks x' = rs_locks x ∧ length (shards (rs_store x')) = length (shards (rs_store x)) ∧
  (∀ i, reads_held i t' = reads_held i t ∧ writes_held i t' = writes_held i t) ∧
  (shards (rs_store x') = shards (rs_store x) ∨ ∃ i, free_for can_write i x = true).
Proof.
  intros Hs.
  unfold_write Hs. destruct t as [ns k b|[|[i [|e b]] bs]|ns k|[|[i [|e b]] bs] r|ns|i freed r|i| | | | | | | | | | |];
    cbn -[SHARDS Nat.ltb] in Hs; try done.
  - apply write_region_inv in Hs as [Hf [= -> ->]]. split_and!; [done|apply set_entry_length|done|eauto].
  - by simplify_eq; auto.
  - by simplify_eq; auto.
  - apply write_region_inv in Hs as [Hf [= -> ->]]. split_and!; [done|apply store_bucket_length|done|eauto].
  - apply write_region_inv in Hs as [Hf E].
    pose proof (delete_entry_length ns k (rs_store x)) as Hl. destruct (delete_entry _ _ _ _).
    cbn in E. simplify_eq. split_and!; [done|exact Hl|done|eauto].
  - by simplify_eq; auto.
  - by simplify_eq; auto.
  - apply write_region_inv in Hs as [Hf E].
    pose proof (delete_bucket_length (i, e :: b) r (rs_store x)) as Hl. destruct (delete_bucket _ _).
    cbn in E. simplify_eq. split_and!; [done|exact Hl|done|eauto].
  - apply write_region_inv in Hs as [Hf E].
    case_match; simplify_eq; cbn; rewrite ?length_insert; split_and!; try done; eauto.
  - simplify_eq. auto.
  - case_match; [|simplify_eq; auto]. apply write_region_inv in Hs as [Hf [= -> ->]].
    cbn. rewrite length_insert. split_and!; try done; eauto.
  - simplify_eq. auto.
Qed.

Lemma locks_write x t x' t' ts :
  write_step hash x t = Some (x', t') → locks_ok x (t :: ts) → locks_ok x' (t' :: ts).
Proof.
  intros Hs. destruct (write_step_frame x t x' t' Hs) as (El&Es&Hh&_).
  by apply locks_keep; [..|intros i _; apply Hh].
Qed.

Lemma locks_snapshot x t x' t' ts :
  snapshot_step x t = Some (x', t') → locks_ok x (t :: ts) → locks_ok x' (t' :: ts).
Proof.
  intros Hs. destruct t as [| | | | | | | |now i|now m|now m c|now m c|now m c id|d| | | |];
    cbn -[SHARDS Nat.ltb] in Hs; try done.
  - destruct (Nat.ltb_spec i SHARDS) as [Hi|Hi].
    + unfold free_for in Hs. destruct (rs_locks x !! i) as [l|] eqn:El; cbn in Hs; [|done].
      destruct (can_read l) eqn:Hc; [|done]. simplify_eq.
      apply locks_alter; unfold reads_held, writes_held.
      * intros j l' Hl' ->. simplify_eq. unfold can_read in Hc. cbn [read_locked lk_readers lk_writer].
        destruct (lk_writer l); [done|]. destruct (Nat.ltb_spec i i), (Nat.ltb_spec i (S i)); (split_and!; (done || lia)).
      * intros j Hj. split; [|done]. destruct (Nat.ltb_spec j i), (Nat.ltb_spec j (S i)); lia.
    + simplify_eq. apply locks_keep; [done..|]. intros j Hj. unfold reads_held, writes_held.
      split; [|done]. destruct (Nat.ltb_spec j i); lia.
  - case_match; simplify_eq; by apply locks_keep.
  - case_match; simplify_eq; [by apply locks_keep|]. apply locks_release. cbn. intros i l Hi E1 E2 Hw.
    destruct (lk_writer l); [specialize (Hw eq_refl); lia|]. lia.
  - simplify_eq. by apply locks_keep.
  - simplify_eq. by apply locks_keep.
  - simplify_eq. by apply locks_keep.
Qed.

Lemma locks_restore x t x' t' ts :
  restore_step x t = Some (x', t') → locks_ok x (t :: ts) → locks_ok x' (t' :: ts).
Proof.
  intros Hs. destruct t as [| | | | | | | | | | | | | |d i|d i| |]; cbn -[SHARDS Nat.ltb] in Hs; try done.
  - destruct (Nat.ltb_spec i SHARDS) as [Hi|Hi].
    + unfold free_for in Hs. destruct (rs_locks x !! i) as [l|] eqn:El; cbn in Hs; [|done].
      destruct (can_write l) eqn:Hc; [|done]. simplify_eq.
      apply andb_true_iff in Hc as [Hc1%Nat.eqb_eq Hc2%negb_true_iff].
      apply locks_alter; unfold reads_held, writes_held.
      * intros j l' Hl' ->. simplify_eq. cbn [write_locked lk_readers lk_writer]. rewrite Hc2.
        destruct (Nat.ltb_spec i i), (Nat.ltb_spec i (S i)); lia.
      * intros j Hj. split; [done|]. destruct (Nat.ltb_spec j i), (Nat.ltb_spec j (S i)); lia.
    + simplify_eq. apply locks_keep; [done..|]. intros j Hj. unfold reads_held, writes_held.
      split; [done|]. destruct (Nat.ltb_spec j i); lia.
  - case_match; simplify_eq; [apply locks_keep; [done|apply length_insert|done]|].
    apply locks_release. cbn. intros i' l Hi E1 E2 Hw.
    destruct (lk_writer l); [specialize (Hw eq_refl)|]; lia.
Qed.

Lemma locks_step ok x t x' t' ts :
  thread_step hash ok x t = Some (x', t') → locks_ok x (t :: ts) → locks_ok x' (t' :: ts).
Proof.
  intros [Hs|[Hs|Hs]]%thread_step_split;
    [by apply locks_write|by apply locks_snapshot|by apply locks_restore].
Qed.

(** ** Snapshots: what has been cloned is what the store holds *)

Definition cloned_ok (x : RustShared) (ts : list RustTask) : Prop :=
  Forall (λ t, match t with
    | TClone _ m => m = take (length m) (shards (rs_store x))
    | TCount _ m _ => m = shards (rs_store x)
    | _ => True
    end) ts.

(** While a task reads every lock, no other step changes the shards. *)
Lemma shards_frozen ok x t x' t' ts :
  thread_step hash ok x t = Some (x', t') → locks_ok x (t :: ts) →
  shards (rs_store x') = shards (rs_store x) ∨
  Forall (λ t, match t with TClone _ _ | TCount _ _ _ => False | _ => True end) ts.
Proof.
  intros Hs Hl. destruct (decide (shards (rs_store x') = shards (rs_store x))) as [|Hne]; [by left|right].
  apply Forall_forall. intros u Hu.
  assert (∀ i, i < SHARDS → 0 < reads_held i u → 0 < writes_held i t ∨ free_for can_write i x = true → False) as Hbusy.
  { intros i Hi Hr Hw. destruct (shard_held x (t :: ts) i u Hl ltac:(by right) Hi Hr) as (l&El&Hc&Hwr).
    unfold free_for in Hw. rewrite El in Hw. cbn in Hw. destruct Hw as [Hw|Hw]; [|congruence].
    destruct (lo_lock x _ Hl i l El) as (_&E&_). rewrite Hwr in E. cbn in E. lia. }
  apply thread_step_split in Hs as [Hs|[Hs|Hs]].
  - destruct (write_step_frame x t x' t' Hs) as (_&_&_&[|[i Hi]]); [done|].
    assert (i < SHARDS) as Hlt.
    { unfold free_for in Hi. destruct (rs_locks x !! i) eqn:El; [|done]. apply lookup_lt_Some in El.
      by rewrite (lo_length x _ Hl) in El. }
    destruct u; try done; eapply (Hbusy i); eauto; cbn; lia.
  - destruct t; cbn -[SHARDS Nat.ltb] in Hs; try done; repeat case_match; by simplify_eq.
  - destruct t as [| | | | | | | | | | | | | |d i|d i| |]; cbn -[SHARDS Nat.ltb] in Hs; try done.
    + repeat case_match; by simplify_eq.
    + destruct (Nat.ltb_spec i SHARDS) as [Hi|]; simplify_eq.
      destruct u; try done; eapply (Hbusy i); auto; cbn; lia.
Qed.

Lemma cloned_step ok x t x' t' ts :
  thread_step hash ok x t = Some (x', t') → locks_ok x (t :: ts) →
  cloned_ok x (t :: ts) → cloned_ok x' (t' :: ts).
Proof.
  intros Hs Hl [Ht H]%Forall_cons. apply Forall_cons. split.
  - apply thread_step_split in Hs as [Hs|[Hs|Hs]].
    + unfold_write Hs. destruct t as [ns k b|[|[i [|e b]] bs]|ns k|[|[i [|e b]] bs] r|ns|i freed r|i| | | | | | | | | | |];
        cbn -[SHARDS Nat.ltb] in Hs; try done; repeat case_match; simplify_eq; try done;
        apply write_region_inv in Hs as [_ E]; repeat case_match; by simplify_eq.
    + destruct t as [| | | | | | | |now i|now m|now m c|now m c|now m c id|d| | | |];
        cbn -[SHARDS Nat.ltb] in Hs; try done.
      * repeat case_match; by simplify_eq.
      * destruct (Nat.ltb_spec (length m) SHARDS) as [Hm|Hm]; simplify_eq.
        -- rewrite length_app. cbn. rewrite Nat.add_1_r. unfold shard_at.
           destruct (lookup_lt_is_Some_2 (shards (rs_store x')) (length m)) as [c Hc];
             [by rewrite (lo_shards _ _ Hl)|].
           by rewrite (take_S_r _ _ c), Hc, <-Ht.
        -- rewrite Ht, take_ge; [done|]. by rewrite (lo_shards _ _ Hl).
      * repeat case_match; by simplify_eq.
      * by simplify_eq.
      * by simplify_eq.
      * by simplify_eq.
    + destruct t; cbn -[SHARDS Nat.ltb] in Hs; try done; repeat case_match; by simplify_eq.
  - destruct (shards_frozen ok x t x' t' ts Hs Hl) as [E|Hno].
    + unfold cloned_ok in H. by rewrite <-E in H.
    + eapply Forall_impl; [exact Hno|]. by intros [].
Qed.

(** ** Runs *)

Abbreviation thread_run := (rtc (istep (thread_step hash))).

Definition threads_ok (x : RustShared) (ts : list RustTask) : Prop := locks_ok x ts ∧ cloned_ok x ts.

Lemma locks_perm x ts ts' : ts ≡ₚ ts' → locks_ok x ts → locks_ok x ts'.
Proof.
  intros Hp [H1 H2 H3]. split; [done|done|]. intros i l Hl.
  assert (∀ f : RustTask → nat, sum_list_with f ts = sum_list_with f ts') as E
    by (intros f; clear -Hp; induction Hp; cbn; lia).
  rewrite <-!E. by apply H3.
Qed.

Lemma threads_ok_run c c' : thread_run c c' → threads_ok c.1 c.2 → threads_ok c'.1 c'.2.
Proof.
  apply steps_invariant.
  - intros x ts ts' Hp [Hl Hc]. split; [by eapply locks_perm|]. unfold cloned_ok in *. by rewrite <-Hp.
  - intros ok x t x' t' ts Hs [Hl Hc]. split; [by eapply locks_step|by eapply cloned_step].
Qed.

Lemma sum_called (f : RustTask → nat) ts :
  (∀ t, thread_called t = true → f t = 0) → Forall (λ t, thread_called t = true) ts →
  sum_list_with f ts = 0.
Proof. intros Hf. induction 1 as [|t ts Ht _ IH]; cbn; [done|]. by rewrite Hf, IH. Qed.

Lemma threads_ok_init s ts :
  length (shards s) = SHARDS → Forall (λ t, thread_called t = true) ts → threads_ok (unlocked s) ts.
Proof.
  intros Hs Hts. split.
  - split; [apply length_replicate|done|]. intros i l [-> _]%lookup_replicate. cbn.
    rewrite !sum_called; try done; intros [] Hc; try done; cbn in *; by apply Nat.eqb_eq in Hc as ->.
  - eapply Forall_impl; [exact Hts|]. by intros [].
Qed.

(** The shards a snapshot has captured. *)
Definition captured (t : RustTask) : option (list NsMap) :=
  match t with
  | TSnapId _ m _ | TLastId _ m _ _ => Some m
  | TRetain d | TSnapshotted d => Some (sd_shards d)
  | _ => None
  end.

Lemma captured_step ok x t x' t' m :
  thread_step hash ok x t = Some (x', t') → captured t' = Some m →
  captured t = Some m ∨ ∃ now counts, t = TCount now m counts.
Proof.
  intros [Hs|[Hs|Hs]]%thread_step_split Hm.
  - unfold_write Hs. destruct t as [ns k b|[|[i [|e b]] bs]|ns k|[|[i [|e b]] bs] r|ns|i freed r|i| | | | | | | | | | |];
      cbn -[SHARDS Nat.ltb] in Hs; try done; repeat case_match; simplify_eq; try done;
      apply write_region_inv in Hs as [_ E]; repeat case_match; by simplify_eq.
  - destruct t as [| | | | | | | |now i|now m'|now m' c|now m' c|now m' c id|d| | | |];
      cbn -[SHARDS Nat.ltb] in Hs; try done; repeat case_match; simplify_eq; cbn in Hm; simplify_eq; eauto.
  - destruct t; cbn -[SHARDS Nat.ltb] in Hs; try done; repeat case_match; by simplify_eq.
Qed.

Lemma captured_past c c' t m :
  threads_ok c.1 c.2 → Forall (λ t, captured t = None) c.2 →
  thread_run c c' → t ∈ c'.2 → captured t = Some m →
  ∃ c1, thread_run c c1 ∧ thread_run c1 c' ∧ m = shards (rs_store c1.1).
Proof.
  intros H0 Hn Hrun. revert t m.
  apply (rtc_ind_r (R:=istep (thread_step hash)) (λ c', ∀ t m, t ∈ c'.2 → captured t = Some m →
    ∃ c1, thread_run c c1 ∧ thread_run c1 c' ∧ m = shards (rs_store c1.1)) c); [| |exact Hrun]; clear c' Hrun.
  { intros t m Ht Hm. rewrite Forall_forall in Hn. by rewrite Hn in Hm. }
  intros c1 c2 Hr H12 IH t m Ht Hm.
  assert (thread_run c1 c2) as Hstep by by apply rtc_once.
  destruct H12 as [ok i x u x' u' ts Hi Hu]. cbn [snd] in *.
  assert (t = u' ∨ t ∈ ts) as [->|Hin].
  { apply list_elem_of_lookup in Ht as [j Hj].
    apply list_lookup_insert_Some in Hj as [(<-&->&_)|[_ Hj]]; [by left|right].
    by eapply list_elem_of_lookup_2. }
  - destruct (captured_step ok x u x' u' m Hu Hm) as [Hc|(now&counts&->)].
    + destruct (IH u m) as (c3&H1&H2&H3); [by eapply list_elem_of_lookup_2|done|].
      exists c3. split; [done|]. split; [|done]. by etrans.
    + exists (x, ts). split; [done|]. split; [done|].
      destruct (threads_ok_run _ _ Hr H0) as [_ Hc]. unfold cloned_ok in Hc. cbn in Hc.
      rewrite Forall_forall in Hc. by apply (Hc (TCount now m counts)); eapply list_elem_of_lookup_2.
  - destruct (IH t m) as (c3&H1&H2&H3); [done..|]. exists c3. split; [done|]. split; [|done]. by etrans.
Qed.

(** ** Runs end *)

Definition thread_rank (t : RustTask) : nat :=
  match t with
  | TSet _ _ _ | TDelete _ _ | TFreed _ _ _ => 1
  | TSetMany bs => S (length bs)
  | TDeleteMany bs _ => S (length bs)
  | TDeleteNs _ => 2
  | TClear i => 2 * (SHARDS - i) + 1
  | TCleared i => 2 * (SHARDS - S i) + 2
  | TSnap _ i => (SHARDS - i) + 38
  | TClone _ m => (SHARDS - length m) + 21
  | TCount _ _ c => (SHARDS - length c) + 4
  | TSnapId _ _ _ => 3
  | TLastId _ _ _ _ => 2
  | TRetain _ => 1
  | TRestore _ i => (SHARDS - i) + 18
  | TRestoring _ i => (SHARDS - i) + 1
  | TSnapshotted _ | TReturned _ => 0
  end.

Lemma thread_rank_step ok x t x' t' :
  thread_step hash ok x t = Some (x', t') → thread_rank t' < thread_rank t.
Proof.
  assert (SHARDS = 16) as E by done.
  intros [Hs|[Hs|Hs]]%thread_step_split.
  - unfold_write Hs. destruct t as [ns k b|[|[i [|e b]] bs]|ns k|[|[i [|e b]] bs] r|ns|i freed r|i|i| | | | | | | | | |];
      cbn -[SHARDS Nat.ltb] in Hs; try done;
      repeat match goal with
      | H : (if Nat.ltb ?a ?b then _ else _) = _ |- _ => destruct (Nat.ltb_spec a b)
      end; try (apply write_region_inv in Hs as [_ Hs]); repeat case_match; simplify_eq;
      cbn -[SHARDS Nat.mul Nat.sub]; lia.
  - destruct t as [| | | | | | | |now i|now m'|now m' c|now m' c|now m' c id|d| | | |];
      cbn -[SHARDS Nat.ltb] in Hs; try done;
      repeat match goal with
      | H : (if Nat.ltb ?a ?b then _ else _) = _ |- _ => destruct (Nat.ltb_spec a b)
      end; repeat case_match; simplify_eq; cbn -[SHARDS Nat.mul Nat.sub];
      rewrite ?length_app; cbn -[SHARDS Nat.sub]; lia.
  - destruct t; cbn -[SHARDS Nat.ltb] in Hs; try done;
      repeat match goal with
      | H : (if Nat.ltb ?a ?b then _ else _) = _ |- _ => destruct (Nat.ltb_spec a b)
      end; repeat case_match; simplify_eq; cbn -[SHARDS Nat.sub]; lia.
Qed.

(** The buckets of a batch are shards. *)
Definition task_wf (t : RustTask) : Prop :=
  match t with
  | TSetMany bs => Forall (λ b, b.1 < SHARDS) bs
  | TDeleteMany bs _ => Forall (λ b, b.1 < SHARDS) bs
  | _ => True
  end.

Lemma set_many_wf encoded : task_wf (set_many_task hash encoded).
Proof. eapply Forall_impl; [apply (enumerated_buckets_ok hash (λ e : Entry, e.1.1))|]. by intros ? []. Qed.
Lemma delete_many_wf pairs : task_wf (delete_many_task hash pairs).
Proof. eapply Forall_impl; [apply (enumerated_buckets_ok hash fst)|]. by intros ? []. Qed.

Lemma wf_step ok x t x' t' : thread_step hash ok x t = Some (x', t') → task_wf t → task_wf t'.
Proof.
  intros [Hs|[Hs|Hs]]%thread_step_split Ht.
  - unfold_write Hs. destruct t as [ns k b|[|[i [|e b]] bs]|ns k|[|[i [|e b]] bs] r|ns|i freed r|i| | | | | | | | | | |];
      cbn -[SHARDS Nat.ltb] in Hs; try done; repeat case_match; simplify_eq; try done;
      try (apply write_region_inv in Hs as [_ Hs]; repeat case_match; simplify_eq; try done);
      by apply Forall_cons in Ht as [_ Ht].
  - destruct t; cbn -[SHARDS Nat.ltb] in Hs; try done; repeat case_match; by simplify_eq.
  - destruct t; cbn -[SHARDS Nat.ltb] in Hs; try done; repeat case_match; by simplify_eq.
Qed.

(** A lock that is held. *)
Definition lock_held (x : RustShared) (i : nat) : Prop :=
  ∃ l, rs_locks x !! i = Some l ∧ (0 < lk_readers l ∨ lk_writer l = true).

Lemma not_free x i :
  length (rs_locks x) = SHARDS → i < SHARDS →
  free_for can_write i x = false ∨ free_for can_read i x = false → lock_held x i.
Proof.
  intros Hl Hi Hf. destruct (lookup_lt_is_Some_2 (rs_locks x) i) as [l El]; [by rewrite Hl|].
  exists l. split; [done|]. unfold free_for, can_read, can_write in Hf. rewrite El in Hf. cbn in Hf.
  destruct (lk_writer l); [by right|]. left. destruct (Nat.eqb_spec (lk_readers l) 0); [|lia].
  by destruct Hf.
Qed.

(** A task without a step has ended, or waits for a lock that is held; the locks it
    holds itself are below that one. *)
Lemma thread_progress ok x t :
  length (rs_locks x) = SHARDS → task_wf t → thread_step hash ok x t = None →
  thread_ended t = true ∨ ∃ i, i < SHARDS ∧ lock_held x i ∧
    ∀ j, 0 < reads_held j t + writes_held j t → j < i.
Proof.
  intros Hl Hw Hs.
  assert (∀ i r, i < SHARDS → write_region i x r = None → (∀ j, reads_held j t + writes_held j t = 0) →
    thread_ended t = true ∨ ∃ i, i < SHARDS ∧ lock_held x i ∧
      ∀ j, 0 < reads_held j t + writes_held j t → j < i) as Hregion.
  { intros i r Hi Hr Hn. right. exists i. split; [done|]. split.
    - apply not_free; [done..|left]. unfold write_region in Hr. by destruct (free_for can_write i x).
    - intros j Hj. rewrite Hn in Hj. lia. }
  unfold thread_step in Hs. unfold_write Hs.
  destruct t as [ns k b|[|[i [|e b]] bs]|ns k|[|[i [|e b]] bs] r|ns|i freed r|i|i|now i|now m|now m c|now m c|now m c id|d|d i|d i|d|n];
    cbn -[SHARDS Nat.ltb] in Hs; try done; auto;
    try (eapply Hregion; [|exact Hs|done]; (apply shard_index_lt || by apply Forall_cons in Hw as [? _])).
  - destruct (Nat.ltb_spec i SHARDS); [|done]. by eapply Hregion; [|exact Hs|].
  - right. destruct (Nat.ltb_spec i SHARDS); [|done]. destruct (free_for can_read i x) eqn:Hf; [done|].
    exists i. split; [done|]. split; [by apply not_free; auto|]. intros j. unfold reads_held, writes_held.
    destruct (Nat.ltb_spec j i); lia.
  - by destruct (Nat.ltb_spec (length m) SHARDS).
  - by destruct (Nat.ltb_spec (length c) SHARDS).
  - right. destruct (Nat.ltb_spec i SHARDS); [|done]. destruct (free_for can_write i x) eqn:Hf; [done|].
    exists i. split; [done|]. split; [by apply not_free; auto|]. intros j. unfold reads_held, writes_held.
    destruct (Nat.ltb_spec j i); lia.
  - by destruct (Nat.ltb_spec i SHARDS).
Qed.

Lemma sum_pos (f : RustTask → nat) ts : 0 < sum_list_with f ts → ∃ t, t ∈ ts ∧ 0 < f t.
Proof.
  induction ts as [|t ts IH]; cbn; [lia|]. intros H. destruct (decide (0 < f t)) as [Ht|Ht].
  - exists t. split; [by left|done].
  - destruct IH as (u&Hu&Hf); [lia|]. exists u. split; [by right|done].
Qed.

(** Locks are taken in order: whoever holds one waits for a later one only, so in the
    end nobody waits. *)
Lemma no_deadlock ok x ts :
  locks_ok x ts → Forall task_wf ts → Forall (λ t, thread_step hash ok x t = None) ts →
  Forall (λ t, thread_ended t = true) ts.
Proof.
  intros Hl Hw Hn. rewrite Forall_forall in Hw, Hn.
  assert (∀ n i, SHARDS - i ≤ n → i < SHARDS → lock_held x i → False) as Hno.
  { induction n as [|n IH]; intros i Hni Hi (l&El&Hheld); [lia|].
    destruct (lo_lock x ts Hl i l El) as (Er&Ew&_).
    destruct (sum_pos (λ t, reads_held i t + writes_held i t) ts) as (t&Ht&Hpos).
    { assert (∀ f g : RustTask → nat, sum_list_with (λ t, f t + g t) ts =
        sum_list_with f ts + sum_list_with g ts) as Hadd
        by (intros f g; clear; induction ts; cbn; lia).
      rewrite Hadd. destruct Hheld as [|Hwr]; [lia|]. rewrite Hwr in Ew. lia. }
    destruct (thread_progress ok x t (lo_length x ts Hl) (Hw t Ht) (Hn t Ht)) as [He|(j&Hj&Hjl&Hbelow)].
    - destruct t; try done; cbn in Hpos; lia.
    - specialize (Hbelow i Hpos). apply (IH j); [lia|done|done]. }
  apply Forall_forall. intros t Ht.
  destruct (thread_progress ok x t (lo_length x ts Hl) (Hw t Ht) (Hn t Ht)) as [|(i&Hi&Hil&_)]; [done|].
  exfalso. by apply (Hno SHARDS i); [lia|..].
Qed.

Lemma called_steps ts : Forall (λ t, thread_called t = true) ts →
  Forall (λ t, captured t = None) ts ∧ ts ≫= owed = [].
Proof.
  intros H. split; [eapply Forall_impl; [exact H|]; by intros []|].
  apply (bind_called _ thread_called); [by intros []|done].
Qed.

(** C37: no set of concurrent calls deadlocks. Whatever calls of the store's methods run
    at once and however their steps interleave, each takes a bounded number of steps,
    and when no step is left every call has returned and every lock is free: snapshot
    and restore hold all the locks, but take them in the same order as each other, and
    every other method holds one at a time. *)
Theorem rust_threads_end s ts0 n x ts :
  length (shards s) = SHARDS → Forall (λ t, thread_called t = true) ts0 → Forall task_wf ts0 →
  nsteps (istep (thread_step hash)) n (unlocked s, ts0) (x, ts) →
  n ≤ sum_list_with thread_rank ts0 ∧
  ((∀ c, ¬ istep (thread_step hash) (x, ts) c) →
   Forall (λ t, thread_ended t = true) ts ∧ rs_locks x = rs_locks (unlocked s)).
Proof.
  intros Hs Hc Hw Hn. split.
  { pose proof (steps_bounded (thread_step hash) (λ _, 0) thread_rank _ _ _
      (λ ok x t x' t', thread_rank_step ok x t x' t') Hn) as Hb.
    unfold total_rank in Hb. cbn [fst snd] in Hb. lia. }
  intros Hstuck. pose proof (rtc_nsteps_2 _ _ _ Hn) as Hr.
  destruct (threads_ok_run _ _ Hr (threads_ok_init s ts0 Hs Hc)) as [Hl _]. cbn in Hl.
  assert (Forall task_wf ts) as Hw'.
  { refine (steps_invariant (thread_step hash) (λ _ ts, Forall task_wf ts) _ _ _ _ Hr Hw).
    - intros _ ts1 ts2 Hp. by rewrite Hp.
    - intros ok x1 t x2 t' ts1 Hst [Ht Hts]%Forall_cons. constructor; [by eapply wf_step|done]. }
  pose proof (no_deadlock true x ts Hl Hw' (stuck_tasks (thread_step hash) x ts true Hstuck)) as He.
  split; [exact He|]. apply list_eq_same_length with SHARDS; [apply length_replicate|apply Hl|].
  intros i l l' Hi E1 E2. apply lookup_replicate in E2 as [-> _].
  destruct (lo_lock x ts Hl i l E1) as (Er&Ew&_).
  assert (∀ f : RustTask → nat, (∀ t, thread_ended t = true → f t = 0) → sum_list_with f ts = 0) as Hz.
  { intros f Hf. clear -He Hf. induction ts as [|t ts IH]; [done|]. apply Forall_cons in He as [Ht He].
    cbn. by rewrite Hf, IH. }
  rewrite Hz in Er, Ew by by intros []. destruct l as [r []]; cbn in *; by subst.
Qed.

(** C36: a snapshot is one moment of the store. Whatever other calls run while it is
    taken, even of clear and restore, the shards a snapshot holds are together those
    the store had at one point of the run, although it locks and clones them one by
    one. *)
Theorem rust_snapshot_consistent s ts0 x ts d :
  length (shards s) = SHARDS → Forall (λ t, thread_called t = true) ts0 →
  thread_run (unlocked s, ts0) (x, ts) → TSnapshotted d ∈ ts →
  ∃ x1 ts1, thread_run (unlocked s, ts0) (x1, ts1) ∧ thread_run (x1, ts1) (x, ts) ∧
    sd_shards d = shards (rs_store x1).
Proof.
  intros Hs Hc Hr Hd.
  destruct (captured_past (unlocked s, ts0) (x, ts) (TSnapshotted d) (sd_shards d) (threads_ok_init s ts0 Hs Hc)
    (proj1 (called_steps _ Hc)) Hr Hd eq_refl) as ([x1 ts1]&H1&H2&H3).
  by exists x1, ts1.
Qed.

(** C38: the byte counts settle. Whatever calls of set, set_many, delete, delete_many,
    delete_namespace and snapshot run at once, each shard's count is, modulo 2^64, the
    bytes of its values plus those a running delete_namespace has freed and not yet
    subtracted; so once the calls have returned every count is exact. *)
Theorem rust_counts_settle s ts0 x ts :
  shape hash s → Forall (λ t, thread_called t = true) ts0 → Forall (counting hash) ts0 →
  thread_run (unlocked s, ts0) (x, ts) →
  Forall2 (λ c m, c = wrap64 (shard_size m))
    (settle_bytes (ts ≫= owed) (shard_bytes (rs_store x))) (shards (rs_store x)) ∧
  (Forall (λ t, thread_ended t = true) ts →
   Forall2 (λ c m, c = wrap64 (shard_size m)) (shard_bytes (rs_store x)) (shards (rs_store x))).
Proof.
  intros Hs Hc Hcount Hr.
  assert (counts_ok hash x ts) as [_ Hshape].
  { refine (steps_invariant (thread_step hash) (counts_ok hash) _ _ _ _ Hr _).
    - intros x1 ts1 ts2 Hp [H1 H2]. split; [by rewrite <-Hp|].
      rewrite (settle_perm _ (ts1 ≫= owed)); [done|by rewrite Hp].
    - intros ok x1 t x2 t' ts1. apply counts_step.
    - split; [done|]. cbn. rewrite (proj2 (called_steps _ Hc)). by destruct Hs. }
  pose proof (shard_counts hash _ Hshape) as H. cbn in H. split; [exact H|].
  intros He. assert (ts ≫= owed = []) as E by (apply (bind_called _ thread_ended); [by intros []|done]).
  by rewrite E in H.
Qed.
End threads.

(** ** A concrete run: a batch, a snapshot and a deletion at once *)

Definition ex_batch : RustTask :=
  set_many_task hash0 [([], lit "k", [Byte.x00]); (lit "n", lit "k", [Byte.x00; Byte.x01])].
Definition ex_calls : list RustTask := [ex_batch; TSnap 5 0; TDeleteNs []].
Definition ex_thread_schedule : list (nat * bool) :=
  (λ i, (i, true)) <$> ([0; 1; 0] ++ replicate 15 0 ++ replicate 53 1 ++ [2; 2]).
Definition ex_end : RustShared * list RustTask :=
  run_schedule (thread_step hash0) ex_thread_schedule (unlocked new_store, ex_calls).

(** The snapshot saw both values; the namespace is gone and its byte no longer counted. *)
Example ex_end_state :
  (λ t, match t with TSnapshotted d => sd_size_bytes d | TReturned n => n | _ => (-1)%Z end) <$> ex_end.2 =
    [0; 3; 1]%Z ∧
  take 2 (shard_bytes (rs_store ex_end.1)) = [0; 2]%Z.
Proof. vm_compute. split; reflexivity. Qed.

(** Alone, a task does what the method does. *)
Example tasks_alone :
  let run t n s := (run_schedule (thread_step hash0) (replicate n (0, true)) (unlocked s, [t])).1 in
  let s := set_entries hash0 [([], lit "k", [Byte.x00]); (lit "n", lit "k", [Byte.x01])] new_store in
  run ex_batch 17 s =
    unlocked (set_entries hash0 [([], lit "k", [Byte.x00]); (lit "n", lit "k", [Byte.x00; Byte.x01])] s) ∧
  run (TDeleteNs []) 2 s = unlocked (drop_namespace hash0 [] s).2 ∧
  run (TSnap 5 0) 54 s = unlocked (RustStore_snapshot 5 s).2 ∧
  run (TClear 0) 33 s = unlocked (RustStore_clear s).2 ∧
  (let d := match (RustStore_snapshot 5 s).1 with
            | Ok d => d
            | _ => {| sd_id := 0; sd_timestamp := 0; sd_parent := None; sd_size_bytes := 0;
                      sd_shard_bytes := []; sd_shards := [] |}
            end in
   run (TRestore d 0) 34 new_store = unlocked (RustStore_restore d new_store).2).
Proof. vm_compute. split_and!; reflexivity. Qed.

Lemma ex_calls_called : Forall (λ t, thread_called t = true) ex_calls.
Proof. repeat constructor. Qed.

Lemma ex_calls_wf : Forall task_wf ex_calls.
Proof. apply Forall_cons; split; [apply set_many_wf|by repeat constructor]. Qed.

Lemma rust_threads_end_witness :
  73 ≤ sum_list_with thread_rank ex_calls ∧
  Forall (λ t, thread_ended t = true) ex_end.2 ∧ rs_locks ex_end.1 = rs_locks (unlocked new_store).
Proof.
  assert (Forall (λ t, thread_ended t = true) ex_end.2) as He
    by (vm_compute; repeat constructor).
  assert (nsteps (istep (thread_step hash0)) 73 (unlocked new_store, ex_calls) ex_end) as Hn
    by (apply (run_schedule_nsteps (thread_step hash0) ex_thread_schedule); vm_compute; reflexivity).
  destruct ex_end as [x ts].
  destruct (rust_threads_end hash0 new_store ex_calls 73 x ts) as [Hb Hs];
    [reflexivity|apply ex_calls_called|apply ex_calls_wf|exact Hn|].
  split; [exact Hb|]. apply Hs. intros c. apply (ended_stuck _ thread_ended); [|exact He]. by intros ok y [].
Defined.

Lemma ex_end_run : rtc (istep (thread_step hash0)) (unlocked new_store, ex_calls) ex_end.
Proof. apply run_schedule_steps. Qed.

Definition ex_snapshot : SnapshotData :=
  match ex_end.2 !! 1 with
  | Some (TSnapshotted d) => d
  | _ => {| sd_id := 0; sd_timestamp := 0; sd_parent := None; sd_size_bytes := 0;
            sd_shard_bytes := []; sd_shards := [] |}
  end.

Lemma rust_snapshot_consistent_witness : ∃ c1,
  rtc (istep (thread_step hash0)) (unlocked new_store, ex_calls) c1 ∧
  rtc (istep (thread_step hash0)) c1 ex_end ∧ sd_shards ex_snapshot = shards (rs_store c1.1).
Proof.
  assert (TSnapshotted ex_snapshot ∈ ex_end.2) as Hd
    by (apply (list_elem_of_lookup_2 _ 1); vm_compute; reflexivity).
  pose proof ex_end_run as Hr. destruct ex_end as [x ts].
  destruct (rust_snapshot_consistent hash0 new_store ex_calls x ts ex_snapshot eq_refl ex_calls_called Hr Hd)
    as (x1&ts1&H1&H2&H3).
  exists (x1, ts1). split; [exact H1|]. split; [exact H2|exact H3].
Defined.

Lemma ex_calls_counting : Forall (counting hash0) ex_calls.
Proof. apply Forall_cons; split; [apply set_many_counting|by repeat constructor]. Qed.

Lemma rust_counts_settle_witness :
  Forall2 (λ c m, c = wrap64 (shard_size m))
    (settle_bytes (ex_end.2 ≫= owed) (shard_bytes (rs_store ex_end.1))) (shards (rs_store ex_end.1)) ∧
  (Forall (λ t, thread_ended t = true) ex_end.2 →
   Forall2 (λ c m, c = wrap64 (shard_size m)) (shard_bytes (rs_store ex_end.1)) (shards (rs_store ex_end.1))).
Proof.
  pose proof ex_end_run as Hr. destruct ex_end as [x ts].
  apply (rust_counts_settle hash0 new_store ex_calls x ts);
    [apply (new_shape hash0 (lit "memory") (lit "msgpack") None _ eq_refl)|
     apply ex_calls_called|apply ex_calls_counting|exact Hr].
Defined.
