(* ===== verification/DiskStore.v ===== *)
(** * The SQLite backend

    [python/swarmstate/backends/disk.py] over the standard library's [sqlite3]:
    one table [kv(ns, k, v)] keyed by [(ns, k)]. The model is one connection: the
    committed table, the working table of an open transaction, and a schedule of
    statement failures (the empty schedule: nothing fails), so that what a failure
    leaves behind can be stated. Text bound to a statement has to be encodable
    ([sqlite3] raises [UnicodeEncodeError] on a lone surrogate). Values go through
    the [msgpack] package, which is a parameter. The order in which a [SELECT]
    without [ORDER BY] returns rows is that of the table's map and stands for any
    order: no theorem depends on it. *)

From Stdlib Require Import ZifyBool ZifyN.
From S2P Require Import Prelude PyValue Prefix Store Snapshot WireRows.

Record Disk := {
  committed : table;
  tx : option table;
  faults : list bool;
  disk_meta : SnapshotMeta;
}.

Definition set_committed (t : table) (d : Disk) : Disk :=
  {| committed := t; tx := tx d; faults := faults d; disk_meta := disk_meta d |}.
Definition set_tx (t : option table) (d : Disk) : Disk :=
  {| committed := committed d; tx := t; faults := faults d; disk_meta := disk_meta d |}.
Definition set_faults (f : list bool) (d : Disk) : Disk :=
  {| committed := committed d; tx := tx d; faults := f; disk_meta := disk_meta d |}.
Definition set_meta (m : SnapshotMeta) (d : Disk) : Disk :=
  {| committed := committed d; tx := tx d; faults := faults d; disk_meta := m |}.

(** ** Statements of [sqlite3] *)

(** The next statement fails if the schedule says so. *)
Definition statement_start : PyM Disk unit := λ d,
  match faults d with
  | true :: f => (Raise StoreError, set_faults f d)
  | false :: f => (Ok tt, set_faults f d)
  | [] => (Ok tt, d)
  end.

(** Run a statement on the working table of the open transaction, or directly
    on the committed one (autocommit). *)
Definition on_table {A} (stmt : table → result A * table) : PyM Disk A := λ d,
  match tx d with
  | Some t => let '(r, t') := stmt t in (r, set_tx (Some t') d)
  | None => let '(r, t') := stmt (committed d) in (r, set_committed t' d)
  end.

Definition bind_text (s : pystr) : PyM Disk unit :=
  if decide (valid_text s) then mret tt else raise UnicodeEncodeError.

Definition execute {A} (params : list pystr) (stmt : table → result A * table) : PyM Disk A :=
  for_each params bind_text ;; statement_start ;; on_table stmt.

Definition query {A} (params : list pystr) (q : table → A) : PyM Disk A :=
  execute params (λ t, (Ok (q t), t)).

(** [INSERT OR REPLACE INTO kv (ns, k, v) VALUES (?, ?, ?)] *)
Definition sql_upsert (r : row) : PyM Disk unit :=
  execute [r.1.1; r.1.2] (λ t, (Ok tt, <[r.1 := r.2]> t)).

(** [INSERT INTO kv (ns, k, v) VALUES (?, ?, ?)]: the primary key is unique. *)
Definition sql_insert (r : row) : PyM Disk unit :=
  execute [r.1.1; r.1.2] (λ t,
    match t !! r.1 with
    | Some _ => (Raise StoreError, t)
    | None => (Ok tt, <[r.1 := r.2]> t)
    end).

(** [DELETE FROM kv WHERE ns = ? AND k = ?]: its row count. *)
Definition sql_delete (p : pystr * pystr) : PyM Disk Z :=
  execute [p.1; p.2] (λ t, (Ok (if decide (is_Some (t !! p)) then 1%Z else 0%Z), delete p t)).

Definition sql_delete_ns (ns : pystr) : PyM Disk Z :=
  execute [ns] (λ t,
    (Ok (Z.of_nat (length (ns_rows ns t))), filter (λ e, e.1.1 ≠ ns) t)).

Definition sql_begin : PyM Disk unit :=
  statement_start ;;
  act (λ d, match tx d with
            | Some _ => (Raise StoreError, d)
            | None => (Ok tt, set_tx (Some (committed d)) d)
            end).
Definition sql_commit : PyM Disk unit :=
  statement_start ;;
  act (λ d, match tx d with
            | Some t => (Ok tt, set_tx None (set_committed t d))
            | None => (Raise StoreError, d)
            end).
Definition sql_rollback : PyM Disk unit := modify (set_tx None).

(** [_transaction]: everything the body does, or nothing. *)
Definition DiskStore_transaction {A} (body : PyM Disk A) : PyM Disk A :=
  sql_begin ;;
  act (λ d, match body d with
            | (Ok a, d') => (sql_commit ;; mret a : PyM Disk A) d'
            | (Raise e, d') => (sql_rollback ;; raise e : PyM Disk A) d'
            | (OutOfFuel, d') => (OutOfFuel, d')
            end).

(** [_MAX_PARAMS] *)
Definition MAX_PARAMS : nat := 900.

Section DiskStore.
Context (pack : pyval → result bytes) (unpack : bytes → result pyval).

Definition DiskStore_set (ns k : pystr) (value : pyval) : PyM Disk unit :=
  v ← lift (pack value); sql_upsert (ns, k, v).

Definition DiskStore_get (ns k : pystr) (default : pyval) : PyM Disk pyval :=
  r ← query [ns; k] (λ t, t !! (ns, k));
  match r with
  | None => mret default
  | Some raw => lift (unpack raw)
  end.

Definition pack_item (i : pystr * pystr * pyval) : PyM Disk row :=
  v ← lift (pack i.2); mret (i.1, v).

Definition DiskStore_set_many (items : list (pystr * pystr * pyval)) : PyM Disk unit :=
  match items with
  | [] => mret tt
  | _ =>
      rows ← mapM pack_item items;
      DiskStore_transaction (for_each rows sql_upsert)
  end.

(** [SELECT k, v FROM kv WHERE ns = ? AND k IN (...)] *)
Definition sql_select_in (ns : pystr) (chunk : list pystr) : PyM Disk (list (pystr * bytes)) :=
  query (ns :: chunk) (λ t, filter (λ r, r.1 ∈ chunk) (ns_rows ns t)).

Definition found_chunk (ns : pystr) (found : table) (chunk : list pystr) : PyM Disk table :=
  rows ← sql_select_in ns chunk;
  mret (foldl (λ f r, <[(ns, r.1) := r.2]> f) found rows).

Definition found_ns (found : table) (group : pystr * list pystr) : PyM Disk table :=
  for_fold (chunks (MAX_PARAMS - 1) group.2) (found_chunk group.1) found.

Definition unpack_found (found : table) (p : pystr * pystr) : PyM Disk pyval :=
  match found !! p with
  | None => mret PNone
  | Some raw => lift (unpack raw)
  end.

Definition DiskStore_get_many (pairs : list (pystr * pystr)) : PyM Disk (list pyval) :=
  match pairs with
  | [] => mret []
  | _ =>
      found ← for_fold (group_by_ns pairs) found_ns ∅;
      mapM (unpack_found found) pairs
  end.

Definition DiskStore_contains (ns k : pystr) : PyM Disk bool :=
  query [ns; k] (λ t, bool_decide (is_Some (t !! (ns, k)))).

Definition DiskStore_delete (ns k : pystr) : PyM Disk bool :=
  n ← sql_delete (ns, k); mret (0 <? n)%Z.

Definition DiskStore_delete_many (pairs : list (pystr * pystr)) : PyM Disk Z :=
  match pairs with
  | [] => mret 0%Z
  | _ =>
      DiskStore_transaction
        (for_fold pairs (λ n p, m ← sql_delete p; mret (n + m)%Z) 0%Z)
  end.

Definition DiskStore_delete_namespace (ns : pystr) : PyM Disk Z := sql_delete_ns ns.

Definition DiskStore_keys (ns : pystr) (prefix : option pystr) : PyM Disk (list pystr) :=
  match prefix with
  | None => query [ns] (λ t, (ns_rows ns t).*1)
  | Some p =>
      match prefix_upper_bound p with
      | Some upper =>
          query [ns; p; upper] (λ t, filter (λ k, str_le p k ∧ str_lt k upper) (ns_rows ns t).*1)
      | None =>
          query [ns; p] (λ t, filter (λ k, take (length p) k = p) (ns_rows ns t).*1)
      end
  end.

(** [SELECT max(k) ... WHERE ns = ?] *)
Definition DiskStore_max_key (ns : pystr) : PyM Disk (option pystr) :=
  query [ns] (λ t, py_max (ns_rows ns t).*1).

Definition DiskStore_namespaces (prefix : option pystr) : PyM Disk (list pystr) :=
  match prefix with
  | None => query [] distinct_ns
  | Some p =>
      match prefix_upper_bound p with
      | Some upper =>
          query [p; upper] (λ t, filter (λ n, str_le p n ∧ str_lt n upper) (distinct_ns t))
      | None => query [p] (λ t, filter (λ n, take (length p) n = p) (distinct_ns t))
      end
  end.

Definition DiskStore_clear : PyM Disk unit := execute [] (λ t, (Ok tt, ∅)).

Definition DiskStore_len : PyM Disk Z := query [] (λ t, Z.of_nat (size t)).

Definition DiskStore_has_namespace (ns : pystr) : PyM Disk bool :=
  query [ns] (λ t, negb (bool_decide (ns_rows ns t = []))).

Definition DiskStore_snapshot (now : Z) : PyM Disk CopySnapshot :=
  rows ← query [] map_to_list;
  act (λ d, let '(meta, m') := SnapshotMeta_next now (disk_meta d) in
            (Ok (CopySnapshot_init rows meta), set_meta m' d)).

Definition DiskStore_restore (snapshot : CopySnapshot) : PyM Disk unit :=
  DiskStore_transaction
    (execute [] (λ t, (Ok tt, ∅)) ;; for_each (snap_rows snapshot) sql_insert).

Definition disk_ops : StoreOps Disk := {|
  op_set := DiskStore_set;
  op_get ns k := DiskStore_get ns k PNone;
  op_contains := DiskStore_contains;
  op_delete := DiskStore_delete;
  op_keys := DiskStore_keys;
  op_max_key := DiskStore_max_key;
  op_namespaces := DiskStore_namespaces;
  op_set_many := Some DiskStore_set_many;
  op_get_many := Some DiskStore_get_many;
  op_delete_many := Some DiskStore_delete_many;
  op_delete_namespace := Some DiskStore_delete_namespace;
  op_indexed_max_key := true;
  op_supports_async := false;
|}.
End DiskStore.

(** [DiskStore(path, codec=...)]: an existing file, and the codec check. *)
Definition DiskStore_init (codec : pystr) (file : table) : result Disk :=
  if str_eqb codec (lit "msgpack")
  then Ok {| committed := file; tx := None; faults := []; disk_meta := SnapshotMeta_init |}
  else Raise ValueError.

(** ** Lemmas: statements *)

(** A connection with no open transaction on which nothing fails. *)
Definition quiet (d : Disk) : Prop := tx d = None ∧ faults d = [].

Lemma bind_texts_ok params d (Q : unit → Disk → Prop) :
  Forall valid_text params → Q tt d → wp (for_each params bind_text) d Q.
Proof.
  intros Hp HQ. induction Hp as [|p params Hp _ IH]; simpl; [done|].
  apply wp_bind. unfold bind_text. by rewrite decide_True.
Qed.

Lemma wp_execute {A} (params : list pystr) (stmt : table → result A * table) (d : Disk) (a : A) (t' : table) (Q : A → Disk → Prop) :
  quiet d → Forall valid_text params → stmt (committed d) = (Ok a, t') →
  Q a (set_committed t' d) → wp (execute params stmt) d Q.
Proof.
  intros [Ht Hf] Hp Hs HQ. apply wp_bind, bind_texts_ok; [done|].
  apply wp_bind. unfold wp, statement_start. rewrite Hf. unfold on_table. by rewrite Ht, Hs.
Qed.

Lemma set_committed_id d : set_committed (committed d) d = d.
Proof. by destruct d. Qed.

Lemma wp_query {A} (params : list pystr) (q : table → A) d (Q : A → Disk → Prop) :
  quiet d → Forall valid_text params → Q (q (committed d)) d → wp (query params q) d Q.
Proof.
  intros. eapply wp_execute; [done..|]. by rewrite set_committed_id.
Qed.

(** Inside a transaction a statement changes the working table only. *)
Lemma execute_tx {A} (params : list pystr) (stmt : table → result A * table) d t r d' :
  tx d = Some t → execute params stmt d = (r, d') →
  committed d' = committed d ∧
  match r with
  | Ok a => stmt t = (Ok a, from_option id ∅ (tx d')) ∧ is_Some (tx d')
  | _ => is_Some (tx d')
  end.
Proof.
  intros Ht. unfold execute, mbind, pym_bind.
  assert (∀ ps, for_each ps bind_text d = (Ok tt, d) ∨
                for_each ps bind_text d = (Raise UnicodeEncodeError, d)) as Hb.
  { induction ps as [|p ps IH]; [by left|]. simpl. unfold mbind, pym_bind, bind_text.
    case_decide; [apply IH|by right]. }
  destruct (Hb params) as [-> | ->].
  2:{ intros [= <- <-]. rewrite Ht. eauto. }
  unfold statement_start. destruct (faults d) as [|[] f].
  - unfold on_table. rewrite Ht. destruct (stmt t) as [s t'] eqn:Hs.
    intros [= <- <-]. simpl. destruct s; rewrite ?Hs; eauto.
  - intros [= <- <-]. simpl. rewrite Ht. eauto.
  - unfold on_table. simpl. rewrite Ht. destruct (stmt t) as [s t'] eqn:Hs.
    intros [= <- <-]. simpl. destruct s; rewrite ?Hs; eauto.
Qed.

(** A run of statements inside a transaction. *)
Definition tx_safe {A} (body : PyM Disk A) : Prop := ∀ d r d',
  is_Some (tx d) → body d = (r, d') → committed d' = committed d ∧ is_Some (tx d').

Lemma execute_tx_safe {A} (params : list pystr) (stmt : table → result A * table) :
  tx_safe (execute params stmt).
Proof.
  intros d r d' [t Ht] He. destruct (execute_tx _ _ _ _ _ _ Ht He) as [Hc Hr].
  split; [done|]. by destruct r; [destruct Hr|..].
Qed.

Lemma ret_tx_safe {A} (a : A) : tx_safe (mret a).
Proof. intros d r d' ? [= <- <-]. done. Qed.

Lemma bind_tx_safe {A B} (m : PyM Disk A) (f : A → PyM Disk B) :
  tx_safe m → (∀ a, tx_safe (f a)) → tx_safe (m ≫= f).
Proof.
  intros Hm Hf d r d' Ht. unfold mbind, pym_bind.
  destruct (m d) as [s d1] eqn:E. destruct (Hm _ _ _ Ht E) as [Hc Ht1].
  destruct s; [|by intros [= <- <-]..].
  intros H. destruct (Hf _ _ _ _ Ht1 H) as [? ?]. split; [congruence|done].
Qed.

Lemma for_each_tx_safe {A} (l : list A) (body : A → PyM Disk unit) :
  (∀ x, tx_safe (body x)) → tx_safe (for_each l body).
Proof.
  intros Hb. induction l as [|x l IH]; [apply ret_tx_safe|].
  apply bind_tx_safe; [apply Hb|done].
Qed.

Lemma for_fold_tx_safe {A B} (l : list A) (body : B → A → PyM Disk B) b :
  (∀ b x, tx_safe (body b x)) → tx_safe (for_fold l body b).
Proof.
  intros Hb. revert b. induction l as [|x l IH]; intros b; [apply ret_tx_safe|].
  apply bind_tx_safe; [apply Hb|done].
Qed.

(** The outcome of a transaction: all of its body's effect, or none. *)
Lemma transaction_atomic {A} (body : PyM Disk A) d r d' :
  tx_safe body → tx d = None → DiskStore_transaction body d = (r, d') →
  match r with
  | Ok a => ∃ f d1, body (set_tx (Some (committed d)) (set_faults f d)) = (Ok a, d1) ∧
                    tx d1 = Some (committed d') ∧ tx d' = None
  | _ => committed d' = committed d
  end.
Proof.
  intros Hb Ht. unfold DiskStore_transaction, sql_begin, mbind, pym_bind, act.
  destruct (statement_start d) as [s d0] eqn:Es.
  assert (∃ f, d0 = set_faults f d) as [f ->].
  { unfold statement_start in Es. exists (faults d0).
    destruct d as [c t [|[] f] m]; simpl in *; simplify_eq; done. }
  destruct s; [|by intros [= <- <-]..].
  simpl. rewrite Ht.
  destruct (body _) as [rb d1] eqn:Eb.
  apply Hb in Eb as Hsafe; [|by eexists]. destruct Hsafe as [Hc [t1 Ht1]].
  destruct rb as [b|e|]; simpl; [|by intros [= <- <-]..].
  unfold sql_commit, mbind, pym_bind, act.
  destruct (statement_start d1) as [s2 d2] eqn:Es2.
  assert (∃ f2, d2 = set_faults f2 d1) as [f2 ->].
  { unfold statement_start in Es2. exists (faults d2).
    destruct d1 as [c t [|[] f1] m]; simpl in *; simplify_eq; done. }
  destruct s2; [|by intros [= <- <-]..].
  simpl. rewrite Ht1. intros [= <- <-]. simpl. eauto.
Qed.

Lemma upserts_tx rows d t d' :
  tx d = Some t → for_each rows sql_upsert d = (Ok tt, d') →
  tx d' = Some (foldl (λ t r, <[r.1 := r.2]> t) t rows).
Proof.
  revert d t. induction rows as [|r rows IH]; intros d t Ht; simpl; [by intros [= <-]|].
  unfold mbind, pym_bind. destruct (sql_upsert r d) as [s d1] eqn:E.
  destruct (execute_tx _ _ _ _ _ _ Ht E) as [_ Hs].
  destruct s as [[]|?|]; [|done..]. destruct Hs as [[= Hs] [t1 Ht1]].
  rewrite Ht1 in Hs. simpl in Hs. rewrite Hs. by apply IH.
Qed.

Lemma inserts_tx rows d t d' :
  tx d = Some t → for_each rows sql_insert d = (Ok tt, d') →
  tx d' = Some (foldl (λ t r, <[r.1 := r.2]> t) t rows).
Proof.
  revert d t. induction rows as [|r rows IH]; intros d t Ht; simpl; [by intros [= <-]|].
  unfold mbind, pym_bind. destruct (sql_insert r d) as [s d1] eqn:E.
  destruct (execute_tx _ _ _ _ _ _ Ht E) as [_ Hs].
  destruct s as [[]|?|]; [|done..]. destruct Hs as [Hs [t1 Ht1]].
  rewrite Ht1 in Hs. simpl in Hs. destruct (t !! r.1); [done|]. injection Hs as <-.
  by apply IH.
Qed.

(** ** Lemmas: rows of a namespace *)


(** Rows of [t] inserted into what was found so far. *)
Lemma found_insert_lookup (t : table) (ns : pystr) (rows : list (pystr * bytes)) (f : table)
    (p : pystr * pystr) :
  Forall (λ r, t !! (ns, r.1) = Some r.2) rows →
  foldl (λ f r, <[(ns, r.1) := r.2]> f) f rows !! p =
  if decide (p.1 = ns ∧ p.2 ∈ rows.*1) then t !! p else f !! p.
Proof.
  intros Hr. revert f. destruct p as [n k']. induction Hr as [|[k v] rows Hv _ IH]; intros f.
  - cbn. rewrite decide_False; [done|]. by intros [_ ?%not_elem_of_nil].
  - cbn [foldl fst snd]. rewrite IH, lookup_insert, fmap_cons. cbn [fst snd] in *.
    pose proof (elem_of_cons rows.*1 k' k) as Hc.
    destruct (decide (n = ns ∧ k' ∈ rows.*1)) as [H1|H1],
      (decide (n = ns ∧ k' ∈ k :: rows.*1)) as [H2|H2],
      (decide ((ns, k) = (n, k'))) as [H3|H3]; simplify_eq; tauto || naive_solver.
Qed.

(** ** The contract

    The laws of [StoreSpec] on a quiet connection, with the [msgpack] package's
    documented behaviour as the hypothesis: what it packs, it unpacks. *)

Section DiskSpec.
Context (pack : pyval → result bytes) (unpack : bytes → result pyval).
Hypothesis unpack_pack : ∀ v, storable v → ∃ b, pack v = Ok b ∧ unpack b = Ok v.

Local Abbreviation unpacked := (unpacked unpack).
Local Abbreviation row_ok := (row_ok unpack).
Local Abbreviation packs := (packs unpack).

Definition disk_view (d : Disk) : kv := unpacked <$> committed d.
Definition disk_ok (d : Disk) : Prop := quiet d ∧ map_Forall row_ok (committed d).

Lemma unpack_row d p b : disk_ok d → committed d !! p = Some b → unpack b = Ok (unpacked b).
Proof. intros [_ Ht] Hb. destruct (Ht _ _ Hb) as (_&_&v&Hv&_). unfold unpacked. by rewrite Hv. Qed.

Lemma disk_view_is_Some d p : is_Some (disk_view d !! p) ↔ is_Some (committed d !! p).
Proof. unfold disk_view. by rewrite lookup_fmap, fmap_is_Some. Qed.

Lemma disk_ok_set (t : table) d :
  quiet d → map_Forall row_ok t → disk_ok (set_committed t d).
Proof. by intros [??] ?. Qed.

Lemma pack_item_ok d ns k v :
  valid_text ns → valid_text k → storable v →
  wp (pack_item pack (ns, k, v)) d (λ r d', packs (ns, k, v) r ∧ d' = d).
Proof.
  intros ?? Hv. destruct (unpack_pack v Hv) as (b&Hp&Hu).
  unfold pack_item. simpl. apply wp_bind. apply (wp_lift _ _ _ _ Hp). apply wp_ret.
  unfold packs, row_ok. simpl. eauto 10.
Qed.

(** A transaction on which nothing fails. *)
Lemma wp_transaction {A} (body : PyM Disk A) d (Q : A → Disk → Prop) :
  quiet d →
  wp body (set_tx (Some (committed d)) d)
    (λ a d1, faults d1 = [] ∧ ∃ t, tx d1 = Some t ∧ Q a (set_tx None (set_committed t d1))) →
  wp (DiskStore_transaction body) d Q.
Proof.
  intros [Ht Hf] Hb. unfold wp, DiskStore_transaction, sql_begin, mbind, pym_bind, act.
  unfold statement_start. rewrite Hf, Ht.
  apply wp_elim in Hb as (a&d1&->&Hf1&t&Ht1&HQ).
  unfold sql_commit, mbind, pym_bind, act, statement_start. by rewrite Hf1, Ht1.
Qed.

Lemma wp_execute_tx {A} (params : list pystr) (stmt : table → result A * table)
    (d : Disk) (t : table) (a : A) (t' : table) (Q : A → Disk → Prop) :
  tx d = Some t → faults d = [] → Forall valid_text params → stmt t = (Ok a, t') →
  Q a (set_tx (Some t') d) → wp (execute params stmt) d Q.
Proof.
  intros Ht Hf Hp Hs HQ. apply wp_bind, bind_texts_ok; [done|].
  apply wp_bind. unfold wp, statement_start. rewrite Hf. unfold on_table. by rewrite Ht, Hs.
Qed.

Lemma disk_set_ok d ns k v :
  disk_ok d → valid_text ns → valid_text k → storable v →
  wp (DiskStore_set pack ns k v) d (λ _ d', disk_ok d' ∧ disk_view d' = <[(ns, k) := v]> (disk_view d)).
Proof.
  intros [Hq Ht] Hns Hk Hv. destruct (unpack_pack v Hv) as (b&Hp&Hu).
  apply wp_bind. apply (wp_lift _ _ _ _ Hp).
  eapply wp_execute; [done|by repeat constructor|done|]. split.
  - apply disk_ok_set; [done|]. apply map_Forall_insert_2; [|done].
    unfold row_ok. simpl. eauto.
  - unfold disk_view. simpl. rewrite fmap_insert. f_equal. unfold unpacked. by rewrite Hu.
Qed.

Lemma disk_set_many_ok d items :
  disk_ok d → Forall (λ i, valid_text i.1.1 ∧ valid_text i.1.2 ∧ storable i.2) items →
  wp (DiskStore_set_many pack items) d
    (λ _ d', disk_ok d' ∧ disk_view d' = kv_set_many items (disk_view d)).
Proof.
  intros [Hq Ht] Hi. unfold DiskStore_set_many.
  destruct items as [|i items]; [by apply wp_ret|]. cbv beta iota.
  eapply wp_bind_mono.
  { apply (wp_mapM (λ d', d' = d) packs); [done|]. intros [[ns k] v] d' Hin ->.
    rewrite Forall_forall in Hi. destruct (Hi _ Hin) as (?&?&?). by apply pack_item_ok. }
  intros rows d' [Hp ->]. apply wp_transaction; [done|]. destruct Hq as [Htx Hf].
  eapply wp_mono.
  { apply (wp_for_each (λ l1 d1, d1 = set_tx
      (Some (foldl (λ t (r : row), <[r.1 := r.2]> t) (committed d) l1)) d)); [done|].
    intros l1 r l2 d1 -> ->. eapply wp_execute_tx; [done|done| |done|].
    - apply Forall2_app_inv_r in Hp as (?&?&_&Hp&_).
      apply Forall2_cons_inv_r in Hp as (?&?&(_&_&?&?&_)&_). by repeat constructor.
    - by rewrite foldl_app. }
  intros _ d1 ->. split; [done|]. eexists. split; [done|]. simpl. split.
  - split; [done|]. eapply packed_row_ok; done.
  - by apply (packed_insert unpack (committed d) (i :: items)).
Qed.

Lemma disk_get_ok d ns k :
  disk_ok d → valid_text ns → valid_text k →
  wp (DiskStore_get unpack ns k PNone) d (λ v d', d' = d ∧ v = kv_get (disk_view d) ns k).
Proof.
  intros Hd Hns Hk. apply wp_bind. apply wp_query; [by destruct Hd|by repeat constructor|].
  unfold kv_get, disk_view. rewrite lookup_fmap.
  destruct (committed d !! (ns, k)) as [b|] eqn:Hb; [|done].
  by apply (wp_lift _ _ _ _ (unpack_row _ _ _ Hd Hb)).
Qed.

Lemma disk_contains_ok d ns k :
  disk_ok d → valid_text ns → valid_text k →
  wp (DiskStore_contains ns k) d (λ b d', (disk_ok d' ∧ disk_view d' = disk_view d) ∧
    b = bool_decide (is_Some (disk_view d !! (ns, k)))).
Proof.
  intros Hd Hns Hk. apply wp_query; [by destruct Hd|by repeat constructor|].
  split; [done|]. apply bool_decide_ext. by rewrite disk_view_is_Some.
Qed.

Lemma disk_delete_ok d ns k :
  disk_ok d → valid_text ns → valid_text k →
  wp (DiskStore_delete ns k) d (λ b d',
    (disk_ok d' ∧ disk_view d' = delete (ns, k) (disk_view d)) ∧
    b = bool_decide (is_Some (disk_view d !! (ns, k)))).
Proof.
  intros [Hq Ht] Hns Hk. apply wp_bind.
  eapply wp_execute; [done|by repeat constructor|done|]. apply wp_ret. split; [split|].
  - apply disk_ok_set; [done|]. eapply row_ok_subset; [|done].
    by intros p b [_ ?]%lookup_delete_Some.
  - unfold disk_view. simpl. by rewrite fmap_delete.
  - case_decide as Hs; symmetry; [apply bool_decide_eq_true|apply bool_decide_eq_false];
      by rewrite disk_view_is_Some.
Qed.

Lemma disk_delete_many_ok d pairs :
  disk_ok d → Forall (λ p, valid_text p.1 ∧ valid_text p.2) pairs →
  wp (DiskStore_delete_many pairs) d
    (λ n d', (disk_ok d' ∧ disk_view d' = kv_delete_many pairs (disk_view d)) ∧
      n = kv_removed (disk_view d) (kv_delete_many pairs (disk_view d))).
Proof.
  intros [Hq Ht] Hp. unfold DiskStore_delete_many.
  destruct pairs as [|p pairs]; [apply wp_ret; split; [done|]; unfold kv_removed; cbn; lia|]. cbv beta iota.
  apply wp_transaction; [done|]. destruct Hq as [Htx Hf].
  eapply wp_mono.
  { apply (wp_for_fold (λ l1 n d1,
      n = kv_removed (committed d) (foldl (λ t p, delete p t) (committed d) l1) ∧
      d1 = set_tx (Some (foldl (λ t p, delete p t) (committed d) l1)) d)).
    { split; [|done]. unfold kv_removed. cbn. lia. }
    intros l1 q l2 n d1 Hl [-> ->]. apply wp_bind.
    eapply wp_execute_tx; [done|done| |done|].
    - rewrite Hl in Hp. apply Forall_app in Hp as [_ [[? ?] _]%Forall_cons_iff].
      by repeat constructor.
    - apply wp_ret. rewrite !foldl_app. cbn [foldl]. split; [|done].
      by rewrite <-(kv_removed_delete (foldl _ (committed d) l1)), kv_removed_trans. }
  intros n d1 [-> ->]. split; [done|]. eexists. split; [done|].
  pose proof (unpacked_deletes unpack (committed d) (p :: pairs)) as Hdel. split; [split|].
  - split; [done|]. by apply deletes_row_ok.
  - exact Hdel.
  - unfold disk_view. by rewrite <-Hdel, kv_removed_fmap.
Qed.

Lemma disk_delete_namespace_ok d ns :
  disk_ok d → valid_text ns →
  wp (DiskStore_delete_namespace ns) d
    (λ n d', (disk_ok d' ∧ disk_view d' = kv_delete_namespace ns (disk_view d)) ∧
      n = kv_removed (disk_view d) (kv_delete_namespace ns (disk_view d))).
Proof.
  intros [Hq Ht] Hns. eapply wp_execute; [done|by repeat constructor|done|]. split; [split|].
  - apply disk_ok_set; [done|]. eapply row_ok_subset; [|done].
    by intros p b [? _]%map_lookup_filter_Some.
  - apply unpacked_delete_ns.
  - rewrite <-(length_fmap fst). symmetry. apply kv_removed_keys; [apply ns_rows_NoDup|].
    intros k. by rewrite ns_rows_keys_elem, disk_view_is_Some.
Qed.

Lemma ns_rows_lists_keys d ns : lists_keys (disk_view d) ns None (ns_rows ns (committed d)).*1.
Proof.
  split; [apply ns_rows_NoDup|]. intros k.
  rewrite ns_rows_keys_elem, disk_view_is_Some. simpl. tauto.
Qed.

Lemma distinct_ns_lists d : lists_namespaces (disk_view d) None (distinct_ns (committed d)).
Proof.
  split; [apply NoDup_remove_dups|]. intros ns.
  rewrite distinct_ns_elem. setoid_rewrite disk_view_is_Some. simpl. tauto.
Qed.

(** The two ways SQL tests a prefix. *)
Lemma range_filter (p upper : pystr) (l : list pystr) :
  prefix_upper_bound p = Some upper → valid_text p → Forall valid_text l →
  filter (λ k, str_le p k ∧ str_lt k upper) l = filter (λ k, starts_with p k = true) l.
Proof.
  intros Hu Hp Hl. induction Hl as [|k l Hk _ IH]; [done|].
  pose proof (starts_with_in_range p upper k Hp Hk Hu).
  rewrite !filter_cons, IH. repeat case_decide; tauto.
Qed.

Lemma take_prefix (p k : pystr) : take (length p) k = p ↔ starts_with p k = true.
Proof.
  rewrite starts_with_spec. split.
  - intros <-. exists (drop (length p) k). by rewrite take_drop.
  - intros [t ->]. by rewrite take_app_length.
Qed.

Lemma substr_filter (p : pystr) (l : list pystr) :
  filter (λ k, take (length p) k = p) l = filter (λ k, starts_with p k = true) l.
Proof. apply list_filter_iff. intros k. apply take_prefix. Qed.

Lemma disk_keys_valid d ns : disk_ok d → Forall valid_text (ns_rows ns (committed d)).*1.
Proof.
  intros [_ Ht]. apply Forall_forall. intros k [b Hb]%ns_rows_keys_elem.
  apply (Ht _ _ Hb).
Qed.

Lemma disk_ns_valid d : disk_ok d → Forall valid_text (distinct_ns (committed d)).
Proof.
  intros [_ Ht]. apply Forall_forall. intros ns (k&b&Hb)%distinct_ns_elem.
  apply (Ht _ _ Hb).
Qed.

Lemma disk_keys_ok d ns pfx :
  disk_ok d → valid_text ns → (∀ p, pfx = Some p → valid_text p) →
  wp (DiskStore_keys ns pfx) d (λ l d',
    (disk_ok d' ∧ disk_view d' = disk_view d) ∧ lists_keys (disk_view d) ns pfx l).
Proof.
  intros Hd Hns Hp. assert (quiet d) as Hq by apply Hd.
  destruct pfx as [p|]; unfold DiskStore_keys.
  - specialize (Hp p eq_refl). destruct (prefix_upper_bound p) as [u|] eqn:Hu.
    + pose proof (prefix_upper_bound_valid _ _ Hu Hp).
      apply wp_query; [done|by repeat constructor|]. split; [done|].
      rewrite (range_filter _ _ _ Hu Hp) by by apply disk_keys_valid.
      apply lists_keys_filter, ns_rows_lists_keys.
    + apply wp_query; [done|by repeat constructor|]. split; [done|].
      rewrite substr_filter. apply lists_keys_filter, ns_rows_lists_keys.
  - apply wp_query; [done|by repeat constructor|]. split; [done|].
    apply ns_rows_lists_keys.
Qed.

Lemma disk_namespaces_ok d pfx :
  disk_ok d → (∀ p, pfx = Some p → valid_text p) →
  wp (DiskStore_namespaces pfx) d (λ l d',
    (disk_ok d' ∧ disk_view d' = disk_view d) ∧ lists_namespaces (disk_view d) pfx l).
Proof.
  intros Hd Hp. assert (quiet d) as Hq by apply Hd.
  destruct pfx as [p|]; unfold DiskStore_namespaces.
  - specialize (Hp p eq_refl). destruct (prefix_upper_bound p) as [u|] eqn:Hu.
    + pose proof (prefix_upper_bound_valid _ _ Hu Hp).
      apply wp_query; [done|by repeat constructor|]. split; [done|].
      rewrite (range_filter _ _ _ Hu Hp) by by apply disk_ns_valid.
      apply lists_namespaces_filter, distinct_ns_lists.
    + apply wp_query; [done|by repeat constructor|]. split; [done|].
      rewrite substr_filter. apply lists_namespaces_filter, distinct_ns_lists.
  - apply wp_query; [done|by repeat constructor|]. split; [done|]. apply distinct_ns_lists.
Qed.

(** What [get_many] has found after some of its queries: right where it looked,
    and nothing that is not in the table. *)
Definition found_upto (t : table) (done : pystr * pystr → Prop) (found : table) : Prop :=
  (∀ p, done p → found !! p = t !! p) ∧ (∀ p b, found !! p = Some b → t !! p = Some b).

Lemma found_chunk_ok d ns chunk found done :
  quiet d → valid_text ns → Forall valid_text chunk → found_upto (committed d) done found →
  wp (found_chunk ns found chunk) d (λ found' d', d' = d ∧
    found_upto (committed d) (λ p, done p ∨ p.1 = ns ∧ p.2 ∈ chunk) found').
Proof.
  intros Hq Hns Hc [Hdone Hsound]. apply wp_bind.
  apply wp_query; [by destruct Hq|by constructor|]. apply wp_ret. split; [by destruct d|].
  set (rows := filter (λ r : pystr * bytes, r.1 ∈ chunk) (ns_rows ns (committed d))).
  assert (Forall (λ r : pystr * bytes, committed d !! (ns, r.1) = Some r.2) rows) as Hrows.
  { apply Forall_forall. intros [k b] [_ Hin]%list_elem_of_filter. by apply ns_rows_elem. }
  assert (∀ k, k ∈ rows.*1 ↔ k ∈ chunk ∧ is_Some (committed d !! (ns, k))) as Hkeys.
  { intros k. rewrite <-ns_rows_keys_elem, !list_elem_of_fmap. unfold rows.
    setoid_rewrite list_elem_of_filter. split.
    - intros (r&->&?&?). split; [done|]. by exists r.
    - intros (?&r&->&?). by exists r. }
  split; intros p; rewrite (found_insert_lookup (committed d)) by done.
  - intros Hp. case_decide as Hin; [done|]. destruct Hp as [Hp|[<- Hk]]; [by apply Hdone|].
    destruct p as [n k]. simpl in *. destruct (committed d !! (n, k)) as [b|] eqn:E.
    + destruct Hin. split; [done|]. apply Hkeys. eauto.
    + destruct (found !! (n, k)) as [b|] eqn:E'; [|done]. apply Hsound in E'. congruence.
  - intros b. case_decide; [done|]. apply Hsound.
Qed.

Lemma found_upto_mono t (done done' : pystr * pystr → Prop) found :
  (∀ p, done' p → done p) → found_upto t done found → found_upto t done' found.
Proof. intros Hd [H1 H2]. split; auto. Qed.

Lemma found_ns_ok d ns keys found done :
  quiet d → valid_text ns → Forall valid_text keys → found_upto (committed d) done found →
  wp (found_ns found (ns, keys)) d (λ found' d', d' = d ∧
    found_upto (committed d) (λ p, done p ∨ p.1 = ns ∧ p.2 ∈ keys) found').
Proof.
  clear pack unpack unpack_pack.
  intros Hq Hns Hk Hf. unfold found_ns. cbn [fst snd].
  eapply wp_mono.
  { apply (wp_for_fold (λ l1 found' d', d' = d ∧
      found_upto (committed d) (λ p, done p ∨ p.1 = ns ∧ p.2 ∈ concat l1) found')).
    - split; [done|]. apply (found_upto_mono _ done); [|done]. simpl.
      intros p [?|[_ ?%not_elem_of_nil]]; done.
    - intros l1 chunk l2 found' d' Hl [-> Hf'].
      assert (Forall valid_text chunk) as Hchunk.
      { apply Forall_forall. intros k Hkc. rewrite Forall_forall in Hk. apply Hk.
        rewrite <-(chunks_concat (MAX_PARAMS - 1) keys) by (unfold MAX_PARAMS; lia).
        rewrite Hl, concat_app. simpl. set_solver. }
      eapply wp_mono; [by eapply found_chunk_ok|]. intros found'' d'' [-> Hf''].
      split; [done|]. eapply found_upto_mono; [|exact Hf'']. intros p.
      rewrite concat_app. simpl. rewrite app_nil_r, elem_of_app. tauto. }
  intros found' d' [-> Hf']. split; [done|]. eapply found_upto_mono; [|exact Hf'].
  intros p. rewrite chunks_concat by (unfold MAX_PARAMS; lia). done.
Qed.

Lemma disk_get_many_ok d pairs :
  disk_ok d → Forall (λ p, valid_text p.1 ∧ valid_text p.2) pairs →
  wp (DiskStore_get_many unpack pairs) d (λ l d',
    d' = d ∧ l = (λ p, kv_get (disk_view d) p.1 p.2) <$> pairs).
Proof.
  clear pack unpack_pack.
  intros Hd Hp. unfold DiskStore_get_many.
  destruct pairs as [|p0 pairs0] eqn:E; [by apply wp_ret|]. rewrite <-E in *. clear E p0 pairs0.
  assert (quiet d) as Hq by apply Hd. rewrite Forall_forall in Hp.
  eapply wp_bind_mono.
  { apply (wp_for_fold (λ l1 found d', d' = d ∧
      found_upto (committed d) (λ p, ∃ ks, (p.1, ks) ∈ l1 ∧ p.2 ∈ ks) found)).
    - split; [done|]. split; [|by intros p b ?%lookup_empty_Some].
      by intros p (ks&?%not_elem_of_nil&_).
    - intros l1 [ns ks] l2 found d' Hl [-> Hf].
      assert ((ns, ks) ∈ group_by_ns pairs) as Hin by (rewrite Hl; set_solver).
      eapply wp_mono; [eapply found_ns_ok; [done| | |done]|].
      + assert (ns ∈ (group_by_ns pairs).*1) as Hk
          by (apply list_elem_of_fmap; by exists (ns, ks)).
        apply group_by_ns_keys, list_elem_of_fmap in Hk as (p&->&Hk). by apply Hp.
      + apply Forall_forall. intros k Hk.
        by apply (Hp (ns, k)), (group_by_ns_group _ _ ks).
      + intros found' d' [-> Hf']. split; [done|]. eapply found_upto_mono; [|exact Hf'].
        intros p (ks'&Hks%elem_of_app&Hk). destruct Hks as [?|Hks]; [left; eauto|].
        apply list_elem_of_singleton in Hks as [= -> ->]. by right. }
  intros found d' [-> [Hdone _]].
  eapply wp_mono.
  { apply (wp_mapM (λ d', d' = d) (λ p v, v = kv_get (disk_view d) p.1 p.2)); [done|].
    intros [ns k] d' Hin ->. unfold unpack_found, kv_get, disk_view. simpl.
    rewrite lookup_fmap, Hdone.
    2:{ apply group_by_ns_spec in Hin. simpl.
        destruct (od_get (group_by_ns pairs) ns) as [ks|] eqn:Eg; simpl in Hin;
          [|by apply not_elem_of_nil in Hin].
        exists ks. split; [|done]. by apply od_get_elem_of; [apply group_by_ns_NoDup|]. }
    destruct (committed d !! (ns, k)) as [b|] eqn:Hb; [|by apply wp_ret].
    by apply (wp_lift _ _ _ _ (unpack_row _ _ _ Hd Hb)). }
  intros l d' [Hl ->]. split; [done|]. by apply Forall2_fmap_r_eq in Hl.
Qed.

(** The backend meets the contract. *)
#[refine] Definition disk_spec : @StoreLaws valid_text Disk (disk_ops pack unpack) := {|
  sv_view := disk_view; sv_ok := disk_ok; sv_takes_prefix := true;
|}.
Proof.
  all: unfold disk_ops; simpl.
  - intros d ns k v [_ Ht]. unfold disk_view. rewrite lookup_fmap.
    intros (b&Hb&->)%fmap_Some. destruct (Ht _ _ Hb) as (?&?&v'&Hv&?). simpl in *.
    unfold unpacked. by rewrite Hv.
  - intros. by apply disk_set_ok.
  - intros. eapply wp_mono; [by apply disk_get_ok|]. by intros v d' [-> ->].
  - intros. by apply disk_contains_ok.
  - intros. by apply disk_delete_ok.
  - intros d ns ??. by apply (disk_keys_ok d ns None).
  - intros d ns p ???. apply (disk_keys_ok d ns (Some p)); [done..|]. by intros ? [= <-].
  - intros d ns Hd Hns. apply wp_query; [by apply Hd|by repeat constructor|].
    split; [done|]. eauto using ns_rows_lists_keys.
  - intros d ?. by apply (disk_namespaces_ok d None).
  - intros d p ??. apply (disk_namespaces_ok d (Some p)); [done..|]. by intros ? [= <-].
  - intros f d items [= <-] ??. by apply disk_set_many_ok.
  - intros f d pairs [= <-] ??. eapply wp_mono; [by apply disk_get_many_ok|].
    by intros v d' [-> ->].
  - intros f d pairs [= <-] ??. by apply disk_delete_many_ok.
  - intros f d ns [= <-] ??. by apply disk_delete_namespace_ok.
Defined.
End DiskSpec.
