(* ===== verification/Redis.v ===== *)
(** * The Redis backend

    [python/swarmstate/backends/redis.py]. The server and its client library are
    not part of the program: [RedisClient] is the commands the store sends and
    [RedisLaws] their documented behaviour, over the flat map from (Redis key,
    hash field) to bytes. The store is verified against those laws.

    Text goes to the server as UTF-8 and comes back as bytes, or as [str] from a
    client that decodes replies; [Text] is either. An iteration over [SCAN] is the
    list of what it yields: nothing else writes while the store iterates. *)

From Stdlib Require Import ZifyBool.
From S2P Require Import Prelude PyValue Codec Store Snapshot WireRows.

(** ** The client *)

(** A name in a reply. *)
Inductive Text :=
  | TBytes (b : bytes)
  | TStr (s : pystr).

(** [k.decode() if isinstance(k, bytes) else k] *)
Definition decoded (t : Text) : result pystr :=
  match t with
  | TBytes b => or_raise UnicodeDecodeError (utf8_decode b)
  | TStr s => Ok s
  end.

(** The commands the store sends. *)
Inductive Cmd :=
  | HSet (hk f : pystr) (v : bytes)
  | HSetMap (hk : pystr) (m : list (pystr * bytes))
  | HGet (hk f : pystr)
  | HExists (hk f : pystr)
  | HDel (hk : pystr) (fs : list pystr)
  | HLen (hk : pystr)
  | HKeys (hk : pystr)
  | HGetAll (hk : pystr)
  | Del (hks : list pystr)
  | Exists (hk : pystr).

Inductive Reply :=
  | RNil
  | RInt (n : Z)
  | RBulk (b : bytes)
  | RTexts (l : list Text)
  | RPairs (l : list (Text * bytes)).

Definition as_int (r : Reply) : result Z := match r with RInt n => Ok n | _ => Raise TypeError end.
Definition as_bulk (r : Reply) : result (option bytes) :=
  match r with RNil => Ok None | RBulk b => Ok (Some b) | _ => Raise TypeError end.
Definition as_texts (r : Reply) : result (list Text) :=
  match r with RTexts l => Ok l | _ => Raise TypeError end.
Definition as_pairs (r : Reply) : result (list (Text * bytes)) :=
  match r with RPairs l => Ok l | _ => Raise TypeError end.

(** One command; a pipeline, as a transaction (MULTI/EXEC) or not; the names a
    [scan_iter(match=...)] yields; the pairs an [hscan_iter(key, match=...)] yields. *)
Class RedisClient (R : Type) := {
  redis_cmd : Cmd → PyM R Reply;
  redis_pipe : bool → list Cmd → PyM R (list Reply);
  redis_scan : pystr → PyM R (list Text);
  redis_hscan : pystr → pystr → PyM R (list (Text * bytes));
}.

(** ** The store *)

(** The attributes set once, by [RedisStore.__init__]: whether a URL was given, and
    an async client. *)
Record RedisConfig := {
  redis_prefix : pystr;
  redis_url : bool;
  redis_aclient : bool;
}.

Record RedisStore (R : Type) := {
  redis_server : R;
  redis_meta : SnapshotMeta;
}.
Arguments redis_server {R}. Arguments redis_meta {R}.

Definition set_redis {R} (r : R) (s : RedisStore R) : RedisStore R :=
  {| redis_server := r; redis_meta := redis_meta s |}.

(** [RedisStore.__init__]: the codec check; without a client, one built from the URL. *)
Definition RedisStore_init {R} (client : option R) (from_url : R) (aclient : bool)
    (prefix codec : pystr) : result (RedisConfig * RedisStore R) :=
  if str_eqb codec (lit "msgpack") then
    Ok ({| redis_prefix := prefix; redis_url := match client with None => true | _ => false end;
           redis_aclient := aclient |},
        {| redis_server := from_option id from_url client; redis_meta := SnapshotMeta_init |})
  else Raise ValueError.

(** [_glob_escape] *)
Definition glob_meta (c : N) : bool := existsb (N.eqb c) (lit "\*?[]^").
Definition glob_escape (text : pystr) : pystr :=
  text ≫= (λ c, if glob_meta c then [92%N; c] else [c]).

Section Store.
Context {R : Type} {client : RedisClient R} (cfg : RedisConfig).
Context (pack : pyval → result bytes) (unpack : bytes → result pyval).

Definition on_redis {A} (m : PyM R A) : PyM (RedisStore R) A := act (λ s,
  let '(r, st) := m (redis_server s) in (r, set_redis st s)).

Definition command {A} (read : Reply → result A) (c : Cmd) : PyM (RedisStore R) A :=
  r ← on_redis (redis_cmd c); lift (read r).
Definition pipeline (transaction : bool) (cs : list Cmd) : PyM (RedisStore R) (list Reply) :=
  on_redis (redis_pipe transaction cs).

(** [_hkey], [_ns_of] *)
Definition hkey (namespace : pystr) : pystr := redis_prefix cfg ++ lit ":" ++ namespace.
Definition ns_of (hk : pystr) : pystr := drop (length (redis_prefix cfg) + 1) hk.

(** [_iter_hkeys] *)
Definition hkeys_pattern (ns_prefix : option pystr) : pystr :=
  glob_escape (redis_prefix cfg) ++ lit ":" ++
  match ns_prefix with
  | Some (c :: p) => glob_escape (c :: p) ++ lit "*"
  | _ => lit "*"
  end.
Definition iter_hkeys (ns_prefix : option pystr) : PyM (RedisStore R) (list pystr) :=
  l ← on_redis (redis_scan (hkeys_pattern ns_prefix)); lift (mapM decoded l).

(** *** The core API *)

Definition RedisStore_set (ns k : pystr) (value : pyval) : PyM (RedisStore R) unit :=
  v ← lift (pack value); command as_int (HSet (hkey ns) k v) ;; mret tt.

Definition unpack_reply (default : pyval) (raw : option bytes) : result pyval :=
  match raw with None => Ok default | Some b => unpack b end.

Definition RedisStore_get (ns k : pystr) (default : pyval) : PyM (RedisStore R) pyval :=
  raw ← command as_bulk (HGet (hkey ns) k); lift (unpack_reply default raw).

Definition hset_item (i : pystr * pystr * pyval) : result Cmd :=
  v ← pack i.2; Ok (HSet (hkey i.1.1) i.1.2 v).

Definition RedisStore_set_many (items : list (pystr * pystr * pyval)) : PyM (RedisStore R) unit :=
  match items with
  | [] => mret tt
  | _ => cs ← lift (mapM hset_item items); pipeline true cs ;; mret tt
  end.

Definition RedisStore_get_many (pairs : list (pystr * pystr)) : PyM (RedisStore R) (list pyval) :=
  match pairs with
  | [] => mret []
  | _ =>
      rs ← pipeline false ((λ p, HGet (hkey p.1) p.2) <$> pairs);
      lift (mapM (λ r, raw ← as_bulk r; unpack_reply PNone raw) rs)
  end.

Definition RedisStore_contains (ns k : pystr) : PyM (RedisStore R) bool :=
  n ← command as_int (HExists (hkey ns) k); mret (negb (n =? 0)%Z).

Definition RedisStore_delete (ns k : pystr) : PyM (RedisStore R) bool :=
  n ← command as_int (HDel (hkey ns) [k]); mret (0 <? n)%Z.

(** [sum(int(n) for n in ...)] *)
Definition sum_ints (rs : list Reply) : result Z :=
  ns ← mapM as_int rs; Ok (foldr Z.add 0%Z ns).

Definition RedisStore_delete_many (pairs : list (pystr * pystr)) : PyM (RedisStore R) Z :=
  match group_by_ns pairs with
  | [] => mret 0%Z
  | by_ns =>
      rs ← pipeline true ((λ g, HDel (hkey g.1) g.2) <$> by_ns);
      lift (sum_ints rs)
  end.

Definition RedisStore_delete_namespace (ns : pystr) : PyM (RedisStore R) Z :=
  rs ← pipeline true [HLen (hkey ns); Del [hkey ns]];
  match rs with
  | [count; _] => lift (as_int count)
  | _ => raise ValueError
  end.

Definition RedisStore_keys (ns : pystr) (prefix : option pystr) : PyM (RedisStore R) (list pystr) :=
  raw_keys ← match prefix with
             | None => command as_texts (HKeys (hkey ns))
             | Some p =>
                 l ← on_redis (redis_hscan (hkey ns) (glob_escape p ++ lit "*")); mret l.*1
             end;
  lift (mapM decoded raw_keys).

Definition RedisStore_max_key (ns : pystr) : PyM (RedisStore R) (option pystr) :=
  l ← RedisStore_keys ns None; mret (py_max l).

Definition RedisStore_namespaces (prefix : option pystr) : PyM (RedisStore R) (list pystr) :=
  hks ← iter_hkeys prefix; mret (ns_of <$> hks).

Definition RedisStore_clear : PyM (RedisStore R) unit :=
  hks ← iter_hkeys None;
  match hks with
  | [] => mret tt
  | _ => command as_int (Del hks) ;; mret tt
  end.

Definition RedisStore_len : PyM (RedisStore R) Z :=
  hks ← iter_hkeys None;
  for_fold hks (λ n hk, m ← command as_int (HLen hk); mret (n + m)%Z) 0%Z.

Definition RedisStore_has_namespace (ns : pystr) : PyM (RedisStore R) bool :=
  n ← command as_int (Exists (hkey ns)); mret (0 <? n)%Z.

(** *** Snapshots *)

(** [RedisSnapshot]: the per-namespace mapping, and the rows of [CopySnapshot]. *)
Record RedisSnapshot := {
  rs_data : list (pystr * list (pystr * bytes));
  rs_copy : CopySnapshot;
}.

Definition RedisSnapshot_init (data : list (pystr * list (pystr * bytes)))
    (meta : Z * Z * option Z) : RedisSnapshot :=
  {| rs_data := data;
     rs_copy := CopySnapshot_init (data ≫= (λ e, (λ kv, (e.1, kv.1, kv.2)) <$> e.2)) meta |}.

Definition decoded_pair (e : Text * bytes) : result (pystr * bytes) :=
  f ← decoded e.1; Ok (f, e.2).

Definition RedisStore_snapshot (now : Z) : PyM (RedisStore R) RedisSnapshot :=
  hks ← iter_hkeys None;
  data ← for_fold hks (λ data hk,
    raw ← command as_pairs (HGetAll hk);
    kvs ← lift (mapM decoded_pair raw);
    mret (od_set data (ns_of hk) (od_of_list kvs))) [];
  act (λ s, let '(meta, m') := SnapshotMeta_next now (redis_meta s) in
            (Ok (RedisSnapshot_init data meta),
             {| redis_server := redis_server s; redis_meta := m' |})).

Definition restore_cmds (stale : list pystr) (data : list (pystr * list (pystr * bytes))) : list Cmd :=
  (match stale with [] => [] | _ => [Del stale] end) ++
  omap (λ e, match e.2 with [] => None | kv => Some (HSetMap (hkey e.1) kv) end) data.

Definition RedisStore_restore (snapshot : RedisSnapshot) : PyM (RedisStore R) unit :=
  stale ← iter_hkeys None;
  pipeline true (restore_cmds stale (rs_data snapshot)) ;; mret tt.

(** *** The async twins, on a client of the same server *)

Definition RedisStore_supports_async : bool := redis_aclient cfg || redis_url cfg.

(** [_ar] *)
Definition ar : PyM (RedisStore R) unit :=
  if RedisStore_supports_async then mret tt else raise RuntimeError.

Definition RedisStore_aset (ns k : pystr) (value : pyval) : PyM (RedisStore R) unit :=
  ar ;; v ← lift (pack value); command as_int (HSet (hkey ns) k v) ;; mret tt.

Definition RedisStore_aget (ns k : pystr) (default : pyval) : PyM (RedisStore R) pyval :=
  ar ;; raw ← command as_bulk (HGet (hkey ns) k); lift (unpack_reply default raw).

Definition RedisStore_aset_many (items : list (pystr * pystr * pyval)) : PyM (RedisStore R) unit :=
  match items with
  | [] => mret tt
  | _ => ar ;; cs ← lift (mapM hset_item items); pipeline true cs ;; mret tt
  end.

Definition RedisStore_aget_many (pairs : list (pystr * pystr)) : PyM (RedisStore R) (list pyval) :=
  match pairs with
  | [] => mret []
  | _ =>
      ar ;;
      rs ← pipeline false ((λ p, HGet (hkey p.1) p.2) <$> pairs);
      lift (mapM (λ r, raw ← as_bulk r; unpack_reply PNone raw) rs)
  end.

Definition RedisStore_acontains (ns k : pystr) : PyM (RedisStore R) bool :=
  ar ;; n ← command as_int (HExists (hkey ns) k); mret (negb (n =? 0)%Z).

Definition RedisStore_adelete (ns k : pystr) : PyM (RedisStore R) bool :=
  ar ;; n ← command as_int (HDel (hkey ns) [k]); mret (0 <? n)%Z.

Definition RedisStore_akeys (ns : pystr) (prefix : option pystr) : PyM (RedisStore R) (list pystr) :=
  ar ;;
  raw_keys ← match prefix with
             | None => command as_texts (HKeys (hkey ns))
             | Some p =>
                 l ← on_redis (redis_hscan (hkey ns) (glob_escape p ++ lit "*")); mret l.*1
             end;
  lift (mapM decoded raw_keys).

Definition RedisStore_amax_key (ns : pystr) : PyM (RedisStore R) (option pystr) :=
  l ← RedisStore_akeys ns None; mret (py_max l).

Definition RedisStore_anamespaces (prefix : option pystr) : PyM (RedisStore R) (list pystr) :=
  ar ;;
  l ← on_redis (redis_scan (hkeys_pattern prefix));
  hks ← lift (mapM decoded l);
  mret (ns_of <$> hks).

Definition RedisStore_adelete_many (pairs : list (pystr * pystr)) : PyM (RedisStore R) Z :=
  match group_by_ns pairs with
  | [] => mret 0%Z
  | by_ns =>
      ar ;;
      rs ← pipeline true ((λ g, HDel (hkey g.1) g.2) <$> by_ns);
      lift (sum_ints rs)
  end.

Definition RedisStore_adelete_namespace (ns : pystr) : PyM (RedisStore R) Z :=
  ar ;;
  rs ← pipeline true [HLen (hkey ns); Del [hkey ns]];
  match rs with
  | [count; _] => lift (as_int count)
  | _ => raise ValueError
  end.

Definition redis_ops : StoreOps (RedisStore R) := {|
  op_set := RedisStore_set;
  op_get ns k := RedisStore_get ns k PNone;
  op_contains := RedisStore_contains;
  op_delete := RedisStore_delete;
  op_keys := RedisStore_keys;
  op_max_key := RedisStore_max_key;
  op_namespaces := RedisStore_namespaces;
  op_set_many := Some RedisStore_set_many;
  op_get_many := Some RedisStore_get_many;
  op_delete_many := Some RedisStore_delete_many;
  op_delete_namespace := Some RedisStore_delete_namespace;
  op_indexed_max_key := false;
  op_supports_async := RedisStore_supports_async;
|}.

(** The async interface, as a store whose operations are the twins. *)
Definition aredis_ops : StoreOps (RedisStore R) := {|
  op_set := RedisStore_aset;
  op_get ns k := RedisStore_aget ns k PNone;
  op_contains := RedisStore_acontains;
  op_delete := RedisStore_adelete;
  op_keys := RedisStore_akeys;
  op_max_key := RedisStore_amax_key;
  op_namespaces := RedisStore_anamespaces;
  op_set_many := Some RedisStore_aset_many;
  op_get_many := Some RedisStore_aget_many;
  op_delete_many := Some RedisStore_adelete_many;
  op_delete_namespace := Some RedisStore_adelete_namespace;
  op_indexed_max_key := false;
  op_supports_async := RedisStore_supports_async;
|}.
End Store.

Example glob_escape_meta : glob_escape (lit "a*[b]") = lit "a\*\[b\]".
Proof. reflexivity. Qed.
