(* ===== verification/RedisLaws.v ===== *)
(** * What the Redis store relies on

    The documented behaviour of the commands [RedisStore] sends, over a database
    of hashes: a flat map from (key, field) to bytes, a key existing as long as its
    hash has a field. [RedisFake] is a server in memory that meets it. *)

From Stdlib Require Import ZifyBool.
From S2P Require Import Prelude PyValue Codec Store Snapshot WireRows Redis.

(** ** The effect of a command and its reply *)

Definition hset_all (hk : pystr) (m : list (pystr * bytes)) (db : table) : table :=
  foldl (λ db e, <[(hk, e.1) := e.2]> db) db m.

Definition cmd_effect (c : Cmd) (db : table) : table :=
  match c with
  | HSet hk f v => <[(hk, f) := v]> db
  | HSetMap hk m => hset_all hk m db
  | HDel hk fs => foldl (λ db f, delete (hk, f) db) db fs
  | Del hks => filter (λ e, e.1.1 ∉ hks) db
  | _ => db
  end.

(** The fields of a hash. *)
Definition hash_has (db : table) (hk f : pystr) : Prop := is_Some (db !! (hk, f)).
Definition hash_exists (db : table) (hk : pystr) : Prop := ∃ f, hash_has db hk f.
Definition hash_len (db : table) (hk : pystr) : nat := size (filter (λ e, e.1.1 = hk) db).

Definition names (l : list Text) (P : pystr → Prop) : Prop :=
  ∃ texts, mapM decoded l = Ok texts ∧ NoDup texts ∧ ∀ t, t ∈ texts ↔ P t.

Definition cmd_reply (c : Cmd) (db : table) (r : Reply) : Prop :=
  match c with
  | HSet _ _ _ | HSetMap _ _ | Del _ => ∃ n, r = RInt n
  | HGet hk f => r = match db !! (hk, f) with Some b => RBulk b | None => RNil end
  | HExists hk f => r = RInt (if bool_decide (is_Some (db !! (hk, f))) then 1 else 0)
  | HDel hk fs => r = RInt (Z.of_nat (size db) - Z.of_nat (size (cmd_effect c db)))
  | HLen hk => r = RInt (Z.of_nat (hash_len db hk))
  | HKeys hk => ∃ l, r = RTexts l ∧ names l (hash_has db hk)
  | HGetAll hk => ∃ l, r = RPairs l ∧ names l.*1 (hash_has db hk) ∧
      ∃ kvs, mapM decoded_pair l = Ok kvs ∧ ∀ e, e ∈ kvs → db !! (hk, e.1) = Some e.2
  | Exists hk => ∃ n, r = RInt n ∧ ((0 < n)%Z ↔ hash_exists db hk)
  end.

(** Arguments the server takes: encodable names, at least one where it wants some. *)
Definition cmd_ok (c : Cmd) : Prop :=
  match c with
  | HSet hk f _ | HGet hk f | HExists hk f => valid_text hk ∧ valid_text f
  | HSetMap hk m => valid_text hk ∧ m ≠ [] ∧ Forall (λ e, valid_text e.1) m
  | HDel hk fs => valid_text hk ∧ fs ≠ [] ∧ Forall valid_text fs
  | HLen hk | HKeys hk | HGetAll hk | Exists hk => valid_text hk
  | Del hks => hks ≠ [] ∧ Forall valid_text hks
  end.

(** The replies of a sequence of commands, each seeing the effect of the earlier. *)
Fixpoint pipe_replies (cs : list Cmd) (db : table) (rs : list Reply) : Prop :=
  match cs, rs with
  | [], [] => True
  | c :: cs', r :: rs' => cmd_reply c db r ∧ pipe_replies cs' (cmd_effect c db) rs'
  | _, _ => False
  end.

Definition pipe_effect (cs : list Cmd) (db : table) : table := foldl (flip cmd_effect) db cs.

(** ** The laws *)

Class RedisLaws (R : Type) `{!RedisClient R} := {
  redis_db : R → table;
  (** The connection is up; it can be read from (a write may still lose it). *)
  redis_up : R → Prop;
  redis_reads : R → Prop;
  (** Glob patterns, where the store uses them. *)
  glob : pystr → pystr → Prop;

  cmd_law r c : redis_up r → cmd_ok c → wp (redis_cmd c) r (λ a r',
    (redis_up r' ∧ redis_db r' = cmd_effect c (redis_db r)) ∧ cmd_reply c (redis_db r) a);
  pipe_law r tx cs : redis_up r → Forall cmd_ok cs → wp (redis_pipe tx cs) r (λ rs r',
    (redis_up r' ∧ redis_db r' = pipe_effect cs (redis_db r)) ∧ pipe_replies cs (redis_db r) rs);
  (** MULTI/EXEC: a connection lost on the way leaves all of it done, or none. *)
  exec_law r cs res r' : redis_pipe true cs r = (res, r') →
    redis_db r' = redis_db r ∨ redis_db r' = pipe_effect cs (redis_db r);
  up_reads r : redis_up r → redis_reads r;
  scan_law r p : redis_reads r → valid_text p → wp (redis_scan p) r (λ l r',
    (redis_reads r' ∧ redis_db r' = redis_db r ∧ (redis_up r → redis_up r')) ∧
    ∃ texts, mapM decoded l = Ok texts ∧
      ∀ hk, hk ∈ texts ↔ hash_exists (redis_db r) hk ∧ glob p hk);
  hscan_law r hk p : redis_up r → valid_text hk → valid_text p → wp (redis_hscan hk p) r (λ l r',
    (redis_up r' ∧ redis_db r' = redis_db r) ∧
    ∃ texts, mapM decoded l.*1 = Ok texts ∧
      ∀ f, f ∈ texts ↔ hash_has (redis_db r) hk f ∧ glob p f);
  db_text r hk f b : redis_up r → redis_db r !! (hk, f) = Some b → valid_text hk ∧ valid_text f;

  glob_star s : glob (lit "*") s;
  glob_escaped c p s : glob_meta c = true → glob (92%N :: c :: p) s ↔ ∃ s', s = c :: s' ∧ glob p s';
  glob_literal c p s : glob_meta c = false → glob (c :: p) s ↔ ∃ s', s = c :: s' ∧ glob p s';
}.

(** A scan that yields no name twice; Redis promises at least once. *)
Definition scans_once {R} `{!RedisClient R} `{!RedisLaws R} : Prop :=
  (∀ r p, redis_up r → wp (redis_scan p) r (λ l _, ∀ ts, mapM decoded l = Ok ts → NoDup ts)) ∧
  (∀ r hk p, redis_up r → wp (redis_hscan hk p) r (λ l _, ∀ ts, mapM decoded l.*1 = Ok ts → NoDup ts)).

(** ** Escaping *)

Section Glob.
Context {R : Type} {client : RedisClient R} {laws : RedisLaws R}.

Lemma glob_escape_app t p s : glob (glob_escape t ++ p) s ↔ ∃ s', s = t ++ s' ∧ glob p s'.
Proof.
  revert s. induction t as [|c t IH]; intros s.
  - cbn. split; [intros; by exists s|]. by intros (s'&->&?).
  - assert (∃ s1, glob_escape (c :: t) ++ p = s1 ∧
      (glob s1 s ↔ ∃ s', s = c :: s' ∧ glob (glob_escape t ++ p) s')) as (s1&->&->).
    { eexists. split; [done|]. unfold glob_escape. cbn [mbind list_bind app].
      destruct (glob_meta c) eqn:E; [by apply glob_escaped|by apply glob_literal]. }
    setoid_rewrite IH. split.
    + intros (?&->&s'&->&?). by exists s'.
    + intros (s'&->&?). exists (t ++ s'). split; [done|]. by exists s'.
Qed.

(** An escaped prefix and a star match exactly what starts with the prefix. *)
Lemma glob_prefix t s : glob (glob_escape t ++ lit "*") s ↔ starts_with t s = true.
Proof.
  rewrite glob_escape_app, starts_with_spec. split; [intros (s'&->&_); by exists s'|].
  intros (s'&->). exists s'. split; [done|apply glob_star].
Qed.

Lemma glob_escape_valid t : valid_text t → valid_text (glob_escape t).
Proof.
  induction 1 as [|c t Hc _ IH]; [constructor|]. unfold glob_escape. cbn [mbind list_bind].
  apply Forall_app. split; [|exact IH]. by destruct (glob_meta c); repeat constructor.
Qed.
End Glob.
