(* ===== verification/RedisTheorems.v ===== *)
(** * Properties of the Redis store

    On a server that keeps its documented promises the store meets the contract,
    and its transactions leave all of a batch or none of it. *)

From Stdlib Require Import ZifyBool.
From S2P Require Import Prelude PyValue Codec Store StoreTrace Snapshot WireRows.
From S2P Require Import Redis RedisLaws.

#[local] Arguments lit : simpl never.

Section Redis.
Context {R : Type} {client : RedisClient R} {laws : RedisLaws R} (cfg : RedisConfig).
Context (pack : pyval → result bytes) (unpack : bytes → result pyval).
Implicit Types s : RedisStore R.

(** ** The content of a store *)

(** The Redis keys of this store, and the part of the database under them. *)
Definition own_key (hk : pystr) : bool := starts_with (hkey cfg []) hk.

Lemma hkey_app ns : hkey cfg ns = hkey cfg [] ++ ns.
Proof. unfold hkey. by rewrite app_nil_r, <-app_assoc. Qed.

Lemma own_hkey ns : own_key (hkey cfg ns) = true.
Proof. unfold own_key. rewrite (hkey_app ns). apply starts_with_app. Qed.

Lemma ns_of_hkey ns : ns_of cfg (hkey cfg ns) = ns.
Proof.
  unfold ns_of, hkey. rewrite (app_assoc (redis_prefix cfg)). apply drop_app_length'.
  by rewrite length_app.
Qed.

Lemma hkey_ns_of hk : own_key hk = true → hkey cfg (ns_of cfg hk) = hk.
Proof.
  unfold own_key. intros [t ->]%starts_with_spec. rewrite <-(hkey_app t). by rewrite ns_of_hkey.
Qed.

Lemma hkey_inj ns ns' : hkey cfg ns = hkey cfg ns' → ns = ns'.
Proof. intros H. by rewrite <-(ns_of_hkey ns), H, ns_of_hkey. Qed.

Definition own_entry (e : pystr * pystr * bytes) : option (pystr * pystr * bytes) :=
  if own_key e.1.1 then Some (ns_of cfg e.1.1, e.1.2, e.2) else None.

(** The rows of the store, by namespace and key. *)
Definition own_rows (db : table) : table := list_to_map (omap own_entry (map_to_list db)).

Lemma own_rows_lookup db ns k : own_rows db !! (ns, k) = db !! (hkey cfg ns, k).
Proof.
  unfold own_rows. apply option_eq. intros b.
  rewrite <-elem_of_list_to_map.
  - rewrite list_elem_of_omap. split.
    + intros ([[hk f] b']&Hin&He). unfold own_entry in He. cbn in He.
      destruct (own_key hk) eqn:E; [|done]. injection He as <- <- <-.
      rewrite hkey_ns_of by done. by apply elem_of_map_to_list.
    + intros Hb. exists (hkey cfg ns, k, b). split; [by apply elem_of_map_to_list|].
      unfold own_entry. cbn. by rewrite own_hkey, ns_of_hkey.
  - assert (∀ l : list (pystr * pystr * bytes), NoDup l.*1 → NoDup (omap own_entry l).*1) as Hnd.
    { induction l as [|[[hk f] b'] l IH]; [constructor|]. intros [Hn Hl]%NoDup_cons.
      cbn [omap list_omap]. unfold own_entry at 1. cbn [fst snd].
      destruct (own_key hk) eqn:E; [|by apply IH]. cbn [fmap list_fmap]. constructor; [|by apply IH].
      intros ([[ns' f'] b'']&Heq&([[hk' f''] b3]&Hin&He)%list_elem_of_omap)%list_elem_of_fmap.
      unfold own_entry in He. cbn in He, Heq. destruct (own_key hk') eqn:E'; [|done].
      injection He as <- <- <-. injection Heq as Hns <-. destruct Hn.
      apply list_elem_of_fmap. exists (hk', f, b3). split; [|done]. cbn.
      by rewrite <-(hkey_ns_of hk), Hns, (hkey_ns_of hk'). }
    apply Hnd, NoDup_fst_map_to_list.
Qed.

Lemma own_rows_insert db ns k b : own_rows (<[(hkey cfg ns, k) := b]> db) = <[(ns, k) := b]> (own_rows db).
Proof.
  apply map_eq. intros [ns' k']. rewrite own_rows_lookup.
  destruct (decide ((ns, k) = (ns', k'))) as [[= <- <-]|Hne]; [by rewrite !lookup_insert_eq|].
  rewrite lookup_insert_ne by (intros [= H <-]; apply Hne; f_equal; by apply hkey_inj).
  by rewrite lookup_insert_ne, own_rows_lookup.
Qed.

Lemma own_rows_delete db ns k : own_rows (delete (hkey cfg ns, k) db) = delete (ns, k) (own_rows db).
Proof.
  apply map_eq. intros [ns' k']. rewrite own_rows_lookup.
  destruct (decide ((ns, k) = (ns', k'))) as [[= <- <-]|Hne]; [by rewrite !lookup_delete_eq|].
  rewrite lookup_delete_ne by (intros [= H <-]; apply Hne; f_equal; by apply hkey_inj).
  by rewrite lookup_delete_ne, own_rows_lookup.
Qed.

Definition redis_rows s : table := own_rows (redis_db (redis_server s)).
Definition redis_view s : kv := unpacked unpack <$> redis_rows s.
Definition redis_ok s : Prop :=
  redis_up (redis_server s) ∧ map_Forall (row_ok unpack) (redis_rows s).

Lemma redis_view_is_Some s p : is_Some (redis_view s !! p) ↔ is_Some (redis_rows s !! p).
Proof. unfold redis_view. by rewrite lookup_fmap, fmap_is_Some. Qed.

Lemma redis_rows_unpack s p b :
  redis_ok s → redis_rows s !! p = Some b → unpack b = Ok (unpacked unpack b).
Proof. intros [_ Ht] Hb. destruct (Ht _ _ Hb) as (_&_&v&Hv&_). unfold unpacked. by rewrite Hv. Qed.

(** ** Lemmas: commands *)

Hypothesis Hprefix : valid_text (redis_prefix cfg).

Lemma hkey_valid ns : valid_text ns → valid_text (hkey cfg ns).
Proof.
  intros. unfold hkey. apply valid_text_app. split; [done|]. apply valid_text_app.
  split; [by apply (bool_decide_unpack _)|done].
Qed.

Lemma command_wp {A : Type} (read : Reply → result A) (c : Cmd) s (Q : A → Prop) :
  redis_up (redis_server s) → cmd_ok c →
  (∀ r, cmd_reply c (redis_db (redis_server s)) r → ∃ a, read r = Ok a ∧ Q a) →
  wp (command read c) s (λ a s', (redis_up (redis_server s') ∧
    redis_db (redis_server s') = cmd_effect c (redis_db (redis_server s))) ∧ Q a).
Proof.
  intros Hup Hc Hr. unfold command, on_redis, act.
  destruct (wp_elim _ _ _ (cmd_law (redis_server s) c Hup Hc)) as (a&r'&E&Hr'&Ha).
  destruct (Hr a Ha) as (x&Hx&HQ). unfold wp, mbind, pym_bind. rewrite E.
  unfold lift. by rewrite Hx.
Qed.

Lemma pipeline_wp tx (cs : list Cmd) s :
  redis_up (redis_server s) → Forall cmd_ok cs →
  wp (pipeline tx cs) s (λ rs s', (redis_up (redis_server s') ∧
    redis_db (redis_server s') = pipe_effect cs (redis_db (redis_server s))) ∧
    pipe_replies cs (redis_db (redis_server s)) rs).
Proof.
  intros Hup Hc. unfold pipeline, on_redis, act.
  destruct (wp_elim _ _ _ (pipe_law (redis_server s) tx cs Hup Hc)) as (rs&r'&E&Hr).
  unfold wp. rewrite E. exact Hr.
Qed.

(** A command that only reads. *)
Lemma read_wp {A : Type} (read : Reply → result A) (c : Cmd) s (Q : A → Prop) :
  redis_ok s → cmd_ok c → cmd_effect c = id →
  (∀ r, cmd_reply c (redis_db (redis_server s)) r → ∃ a, read r = Ok a ∧ Q a) →
  wp (command read c) s (λ a s', (redis_ok s' ∧ redis_view s' = redis_view s) ∧ Q a).
Proof.
  intros [Hup Hok] Hc Heff Hr. eapply wp_mono; [by apply (command_wp read c s Q)|].
  intros a s' [[Hup' Hdb] HQ]. rewrite Heff in Hdb. split; [|done].
  unfold redis_ok, redis_view, redis_rows. by rewrite Hdb.
Qed.

(** ** Lemmas: the operations *)

Hypothesis unpack_pack : ∀ v, storable v → ∃ b, pack v = Ok b ∧ unpack b = Ok v.

Lemma redis_ok_rows s s' (t : table) :
  redis_up (redis_server s') → redis_rows s' = t → map_Forall (row_ok unpack) t →
  redis_ok s' ∧ redis_view s' = unpacked unpack <$> t.
Proof. intros ? Ht ?. unfold redis_ok, redis_view. by rewrite Ht. Qed.

Lemma redis_set_ok s ns k v :
  redis_ok s → valid_text ns → valid_text k → storable v →
  wp (RedisStore_set cfg pack ns k v) s (λ _ s',
    redis_ok s' ∧ redis_view s' = <[(ns, k) := v]> (redis_view s)).
Proof.
  intros [Hup Hok] Hns Hk Hv. destruct (unpack_pack v Hv) as (b&Hp&Hu). unfold RedisStore_set.
  apply wp_bind, (wp_lift _ _ _ _ Hp). eapply wp_bind_mono.
  { apply (command_wp as_int (HSet (hkey cfg ns) k b) s (λ _, True)); [done|by split; [apply hkey_valid|]|].
    intros r [n ->]. by exists n. }
  intros n s' [[Hup' Hdb] _]. apply wp_ret.
  assert (redis_rows s' = <[(ns, k) := b]> (redis_rows s)) as Hrows
    by (unfold redis_rows; rewrite Hdb; apply own_rows_insert).
  destruct (redis_ok_rows s s' _ Hup' Hrows) as [Hok' Hview].
  - apply map_Forall_insert_2; [|done]. unfold row_ok. cbn. eauto.
  - split; [done|]. rewrite Hview, fmap_insert. f_equal. unfold unpacked. by rewrite Hu.
Qed.

Lemma redis_get_ok s ns k :
  redis_ok s → valid_text ns → valid_text k →
  wp (RedisStore_get cfg unpack ns k PNone) s (λ v s',
    (redis_ok s' ∧ redis_view s' = redis_view s) ∧ v = kv_get (redis_view s) ns k).
Proof.
  intros Hs Hns Hk. unfold RedisStore_get. eapply wp_bind_mono.
  { apply (read_wp as_bulk (HGet (hkey cfg ns) k) s
      (λ raw, raw = redis_rows s !! (ns, k))); [done|by split; [apply hkey_valid|]|done|].
    intros r ->. exists (redis_rows s !! (ns, k)). unfold redis_rows. rewrite own_rows_lookup.
    by destruct (redis_db _ !! _). }
  intros raw s' [Hs' ->]. unfold kv_get, redis_view. rewrite lookup_fmap.
  destruct (redis_rows s !! (ns, k)) as [b|] eqn:E; [|by apply wp_lift with PNone].
  by eapply wp_lift; [apply (redis_rows_unpack s _ _ Hs E)|].
Qed.

Lemma redis_contains_ok s ns k :
  redis_ok s → valid_text ns → valid_text k →
  wp (RedisStore_contains cfg ns k) s (λ b s', (redis_ok s' ∧ redis_view s' = redis_view s) ∧
    b = bool_decide (is_Some (redis_view s !! (ns, k)))).
Proof.
  intros Hs Hns Hk. unfold RedisStore_contains. eapply wp_bind_mono.
  { apply (read_wp as_int (HExists (hkey cfg ns) k) s
      (λ n, n = if bool_decide (is_Some (redis_view s !! (ns, k))) then 1%Z else 0%Z));
      [done|by split; [apply hkey_valid|]|done|].
    intros r ->. eexists. split; [done|].
    erewrite bool_decide_ext; [done|]. rewrite redis_view_is_Some. unfold redis_rows.
    by rewrite own_rows_lookup. }
  intros n s' [Hs' ->]. apply wp_ret. split; [done|]. by case_bool_decide.
Qed.

Lemma own_rows_delete_all (ns : pystr) (ks : list pystr) (db : table) :
  own_rows (foldl (λ db f, delete (hkey cfg ns, f) db) db ks) =
  foldl (λ t k, delete (ns, k) t) (own_rows db) ks.
Proof.
  revert db. induction ks as [|k ks IH]; intros db; [done|]. cbn [foldl].
  by rewrite IH, own_rows_delete.
Qed.

Lemma redis_delete_ok s ns k :
  redis_ok s → valid_text ns → valid_text k →
  wp (RedisStore_delete cfg ns k) s (λ b s',
    (redis_ok s' ∧ redis_view s' = delete (ns, k) (redis_view s)) ∧
    b = bool_decide (is_Some (redis_view s !! (ns, k)))).
Proof.
  intros [Hup Hok] Hns Hk. unfold RedisStore_delete. eapply wp_bind_mono.
  { apply (command_wp as_int (HDel (hkey cfg ns) [k]) s
      (λ n, (0 <? n)%Z = bool_decide (is_Some (redis_view s !! (ns, k))))); [done| |].
    - split_and!; [by apply hkey_valid|done|by repeat constructor].
    - intros r ->. eexists. split; [done|]. cbn [cmd_effect foldl].
      transitivity (bool_decide (is_Some (redis_db (redis_server s) !! (hkey cfg ns, k)))).
      + destruct (redis_db (redis_server s) !! (hkey cfg ns, k)) as [b|] eqn:E; cbn.
        * rewrite map_size_delete_Some by eauto.
          pose proof (map_size_ne_0_lookup_2 (redis_db (redis_server s)) _ (mk_is_Some _ _ E)). lia.
        * rewrite delete_id by done. lia.
      + apply bool_decide_ext. rewrite redis_view_is_Some. unfold redis_rows.
        by rewrite own_rows_lookup. }
  intros n s' [[Hup' Hdb] Hn]. apply wp_ret. split; [|done].
  assert (redis_rows s' = delete (ns, k) (redis_rows s)) as Hrows
    by (unfold redis_rows; rewrite Hdb; apply own_rows_delete).
  destruct (redis_ok_rows s s' _ Hup' Hrows) as [Hok' Hview].
  - eapply row_ok_subset; [|exact Hok]. by intros p b [_ ?]%lookup_delete_Some.
  - split; [done|]. rewrite Hview. by rewrite fmap_delete.
Qed.

(** *** Batches *)

Definition hset_row (r : row) : Cmd := HSet (hkey cfg r.1.1) r.1.2 r.2.

Lemma hset_items_ok (items : list (pystr * pystr * pyval)) :
  Forall (λ i, valid_text i.1.1 ∧ valid_text i.1.2 ∧ storable i.2) items →
  ∃ rows, mapM (hset_item cfg pack) items = Ok (hset_row <$> rows) ∧
    Forall2 (packs unpack) items rows.
Proof.
  induction 1 as [|[[ns k] v] items (Hns&Hk&Hv) _ (rows&Hrows&Hp)]; [by exists []|]. cbn in *.
  destruct (unpack_pack v Hv) as (b&Hb&Hu). exists ((ns, k, b) :: rows). cbn [mapM].
  assert (hset_item cfg pack (ns, k, v) = Ok (hset_row (ns, k, b))) as ->
    by (unfold hset_item; cbn [snd]; by rewrite Hb).
  cbn [mbind result_bind]. rewrite Hrows. split; [done|].
  constructor; [|done]. unfold packs, row_ok. cbn. eauto 10.
Qed.

Lemma own_rows_set_all (rows : list row) (db : table) :
  own_rows (pipe_effect (hset_row <$> rows) db) =
  foldl (λ t (r : row), <[r.1 := r.2]> t) (own_rows db) rows.
Proof.
  revert db. induction rows as [|[[ns k] b] rows IH]; intros db; [done|].
  unfold pipe_effect in *. cbn. rewrite IH. cbn. by rewrite own_rows_insert.
Qed.

Lemma hset_rows_ok (items : list (pystr * pystr * pyval)) (rows : list row) :
  Forall2 (packs unpack) items rows → Forall cmd_ok (hset_row <$> rows).
Proof.
  intros Hp. apply Forall_fmap, Forall_forall. intros r Hr.
  apply list_elem_of_lookup in Hr as [i Hi].
  destruct (Forall2_lookup_r _ _ _ _ _ Hp Hi) as (x&_&_&_&Hns&Hk&_).
  split; [by apply hkey_valid|done].
Qed.

Lemma redis_set_many_ok s items :
  redis_ok s → Forall (λ i, valid_text i.1.1 ∧ valid_text i.1.2 ∧ storable i.2) items →
  wp (RedisStore_set_many cfg pack items) s
    (λ _ s', redis_ok s' ∧ redis_view s' = kv_set_many items (redis_view s)).
Proof.
  intros [Hup Hok] Hi. unfold RedisStore_set_many.
  destruct items as [|i items]; [by apply wp_ret|]. cbv beta iota.
  destruct (hset_items_ok _ Hi) as (rows&Hrows&Hp). apply wp_bind, (wp_lift _ _ _ _ Hrows).
  eapply wp_bind_mono; [apply pipeline_wp; [done|by eapply hset_rows_ok]|].
  intros rs s' [[Hup' Hdb] _]. apply wp_ret.
  destruct (redis_ok_rows s s' (foldl (λ t (r : row), <[r.1 := r.2]> t) (redis_rows s) rows) Hup')
    as [Hok' Hview].
  - unfold redis_rows. rewrite Hdb. apply own_rows_set_all.
  - by eapply packed_row_ok.
  - split; [done|]. rewrite Hview. by apply (packed_insert unpack (redis_rows s) (i :: items)).
Qed.

Lemma hget_replies (pairs : list (pystr * pystr)) db rs :
  pipe_replies ((λ p, HGet (hkey cfg p.1) p.2) <$> pairs) db rs →
  mapM as_bulk rs = Ok ((λ p, own_rows db !! p) <$> pairs).
Proof.
  revert rs. induction pairs as [|[ns k] pairs IH]; intros [|r rs]; [done..|].
  cbn. intros [-> Hrs]. apply IH in Hrs. rewrite Hrs, own_rows_lookup.
  by destruct (db !! _).
Qed.

Lemma get_replies s rs (pairs : list (pystr * pystr)) :
  redis_ok s → mapM as_bulk rs = Ok ((λ p, redis_rows s !! p) <$> pairs) →
  mapM (λ r, raw ← as_bulk r; unpack_reply unpack PNone raw) rs =
    Ok ((λ p, kv_get (redis_view s) p.1 p.2) <$> pairs).
Proof.
  intros Hs. revert pairs. induction rs as [|r rs IH]; intros pairs; cbn [mapM].
  { by destruct pairs. }
  destruct (as_bulk r) as [raw| |]; cbn [mbind result_bind]; [|done..].
  destruct (mapM as_bulk rs) as [l| |] eqn:E; cbn [mbind result_bind]; [|done..].
  destruct pairs as [|p pairs]; [done|]. cbn [fmap list_fmap]. intros [= -> ->].
  assert (unpack_reply unpack PNone (redis_rows s !! p) = Ok (kv_get (redis_view s) p.1 p.2)) as ->.
  { unfold kv_get, redis_view. rewrite <-surjective_pairing, lookup_fmap.
    destruct (redis_rows s !! p) as [b|] eqn:Eb; [|done].
    exact (redis_rows_unpack s p b Hs Eb). }
  cbn [mbind result_bind]. by rewrite (IH pairs eq_refl).
Qed.

Lemma redis_get_many_ok s (pairs : list (pystr * pystr)) :
  redis_ok s → Forall (λ p, valid_text p.1 ∧ valid_text p.2) pairs →
  wp (RedisStore_get_many cfg unpack pairs) s (λ l s',
    (redis_ok s' ∧ redis_view s' = redis_view s) ∧
    l = (λ p, kv_get (redis_view s) p.1 p.2) <$> pairs).
Proof.
  intros Hs Hp. unfold RedisStore_get_many.
  assert (∀ ps : list (pystr * pystr), pipe_effect ((λ p, HGet (hkey cfg p.1) p.2) <$> ps)
    (redis_db (redis_server s)) = redis_db (redis_server s)) as Heff
    by (induction ps as [|p ps IH]; [done|exact IH]).
  destruct pairs as [|p0 pairs]; [by apply wp_ret|]. cbv beta iota.
  revert Hp Heff. generalize (p0 :: pairs). clear p0 pairs. intros pairs Hp Heff.
  eapply wp_bind_mono; [apply pipeline_wp; [apply Hs|]|].
  { apply Forall_fmap. eapply Forall_impl; [exact Hp|]. intros [ns k] [??]. by split; [apply hkey_valid|]. }
  intros rs s' [[Hup' Hdb] Hrs%hget_replies]. rewrite Heff in Hdb.
  eapply (wp_lift _ ((λ p, kv_get (redis_view s) p.1 p.2) <$> pairs)).
  - by apply get_replies.
  - split; [|done]. destruct Hs as [_ Hok]. unfold redis_ok, redis_view, redis_rows. by rewrite Hdb.
Qed.

(** *** Deleting *)

Lemma own_rows_delete_groups (groups : list (pystr * list pystr)) (db : table) :
  own_rows (pipe_effect ((λ g, HDel (hkey cfg g.1) g.2) <$> groups) db) =
  foldl (λ t p, delete p t) (own_rows db) (ungroup groups).
Proof.
  revert db. induction groups as [|[n ks] groups IH]; intros db; [done|].
  unfold pipe_effect, ungroup in *. cbn [fmap list_fmap foldl mbind list_bind].
  rewrite IH, foldl_app. f_equal. cbn [flip cmd_effect fst snd]. rewrite own_rows_delete_all.
  generalize (own_rows db). clear. intros t. revert t. induction ks as [|k ks IH]; intros t; [done|apply IH].
Qed.

(** HDEL counts the fields of the store's own hashes. *)
Lemma own_rows_removed (ns : pystr) (ks : list pystr) (db : table) :
  kv_removed db (foldl (λ db f, delete (hkey cfg ns, f) db) db ks) =
  kv_removed (own_rows db) (own_rows (foldl (λ db f, delete (hkey cfg ns, f) db) db ks)).
Proof.
  revert db. induction ks as [|k ks IH]; intros db; cbn [foldl]; [unfold kv_removed; lia|].
  rewrite <-(kv_removed_trans db (delete (hkey cfg ns, k) db)), IH, kv_removed_delete.
  rewrite <-(kv_removed_trans (own_rows db) (own_rows (delete (hkey cfg ns, k) db))).
  by rewrite own_rows_delete, kv_removed_delete, own_rows_lookup.
Qed.

Lemma hdel_replies (groups : list (pystr * list pystr)) db rs :
  let cs := (λ g, HDel (hkey cfg g.1) g.2) <$> groups in
  pipe_replies cs db rs → sum_ints rs = Ok (kv_removed (own_rows db) (own_rows (pipe_effect cs db))).
Proof.
  intros cs Hr. enough (∃ ns, mapM as_int rs = Ok ns ∧
    foldr Z.add 0%Z ns = kv_removed (own_rows db) (own_rows (pipe_effect cs db))) as (ns&Hns&Hsum)
    by (unfold sum_ints; rewrite Hns; cbn; by rewrite Hsum).
  revert db rs Hr. subst cs. induction groups as [|g groups IH]; intros db [|r rs];
    cbn [fmap list_fmap pipe_replies]; [|done..|].
  { exists []. split; [done|]. unfold kv_removed. cbn. lia. }
  intros [Hr Hrs]. destruct (IH _ _ Hrs) as (ns&Hns&Hsum). cbn [cmd_reply] in Hr. subst r.
  eexists (_ :: ns). cbn [mapM as_int mbind result_bind]. rewrite Hns. split; [done|].
  cbn [foldr]. rewrite Hsum. unfold pipe_effect in *. cbn [foldl flip].
  rewrite <-(kv_removed_trans (own_rows db) (own_rows (cmd_effect (HDel (hkey cfg g.1) g.2) db)) (own_rows (foldl _ _ _))).
  f_equal. apply own_rows_removed.
Qed.

Lemma hash_len_removed (ns : pystr) (db : table) :
  Z.of_nat (hash_len db (hkey cfg ns)) =
  kv_removed (own_rows db) (filter (λ e, e.1.1 ≠ ns) (own_rows db)).
Proof.
  unfold hash_len. rewrite <-kv_removed_filter.
  rewrite (kv_removed_keys _ _ (ns_rows (hkey cfg ns) db).*1), (kv_removed_keys _ _ (ns_rows (hkey cfg ns) db).*1);
    [done|apply ns_rows_NoDup| |apply ns_rows_NoDup|]; intros k; rewrite ns_rows_keys_elem; [|done].
  by rewrite own_rows_lookup.
Qed.

Lemma group_by_ns_nonempty pairs ns ks : (ns, ks) ∈ group_by_ns pairs → ks ≠ [].
Proof.
  intros Hin ->. assert (ns ∈ pairs.*1) as ([n k]&->&Hp)%list_elem_of_fmap.
  { apply group_by_ns_keys. apply list_elem_of_fmap. by exists (ns, []). }
  apply group_by_ns_spec in Hp. apply od_get_elem_of in Hin; [|apply group_by_ns_NoDup].
  cbn in Hin. rewrite Hin in Hp. by apply not_elem_of_nil in Hp.
Qed.

Lemma redis_delete_many_ok s pairs :
  redis_ok s → Forall (λ p, valid_text p.1 ∧ valid_text p.2) pairs →
  wp (RedisStore_delete_many cfg pairs) s (λ n s',
    (redis_ok s' ∧ redis_view s' = kv_delete_many pairs (redis_view s)) ∧
    n = kv_removed (redis_view s) (kv_delete_many pairs (redis_view s))).
Proof.
  intros [Hup Hok] Hp. unfold RedisStore_delete_many.
  assert (∀ p, p ∈ ungroup (group_by_ns pairs) ↔ p ∈ pairs) as Hg by (intros p; apply ungroup_group_by_ns).
  assert (Forall cmd_ok ((λ g, HDel (hkey cfg g.1) g.2) <$> group_by_ns pairs)) as Hcs.
  { apply Forall_fmap, Forall_forall. intros [ns ks] Hin. rewrite Forall_forall in Hp.
    assert (∀ k, k ∈ ks → valid_text ns ∧ valid_text k) as Hks.
    { intros k Hk. apply (Hp (ns, k)). apply Hg, elem_of_ungroup. by exists ks. }
    pose proof (group_by_ns_nonempty _ _ _ Hin) as Hne. destruct ks as [|k ks]; [done|].
    split; [apply hkey_valid, (Hks k); by left|]. split; [done|]. apply Forall_forall. apply Hks. }
  destruct (group_by_ns pairs) as [|g groups] eqn:E.
  { apply wp_ret. destruct pairs as [|p pairs]; [split; [done|]; unfold kv_removed; cbn; lia|]. exfalso.
    apply (not_elem_of_nil p). apply (Hg p). by left. }
  cbv beta iota. revert E Hg Hcs. generalize (g :: groups). clear g groups. intros groups E Hg Hcs.
  eapply wp_bind_mono; [by apply pipeline_wp|]. intros rs s' [[Hup' Hdb] Hrs].
  apply (wp_lift _ _ _ _ (hdel_replies _ _ _ Hrs)).
  assert (own_rows (pipe_effect ((λ g, HDel (hkey cfg g.1) g.2) <$> groups) (redis_db (redis_server s))) =
    foldl (λ t p, delete p t) (redis_rows s) pairs) as Hrows
    by (rewrite own_rows_delete_groups; by apply deletes_ext).
  pose proof (unpacked_deletes unpack (redis_rows s) pairs) as Hdel. fold (redis_view s) in Hdel.
  destruct (redis_ok_rows s s' (foldl (λ t p, delete p t) (redis_rows s) pairs) Hup') as [Hok' Hview].
  - unfold redis_rows at 1. by rewrite Hdb.
  - by apply deletes_row_ok.
  - split; [split; [done|by rewrite Hview]|]. rewrite Hrows, <-Hdel. symmetry. apply kv_removed_fmap.
Qed.

Lemma redis_delete_namespace_ok s ns :
  redis_ok s → valid_text ns →
  wp (RedisStore_delete_namespace cfg ns) s (λ n s',
    (redis_ok s' ∧ redis_view s' = kv_delete_namespace ns (redis_view s)) ∧
    n = kv_removed (redis_view s) (kv_delete_namespace ns (redis_view s))).
Proof.
  intros [Hup Hok] Hns. unfold RedisStore_delete_namespace. eapply wp_bind_mono.
  { apply pipeline_wp; [done|]. pose proof (hkey_valid ns Hns).
    by repeat constructor. }
  intros rs s' [[Hup' Hdb] Hrs].
  destruct rs as [|count [|r [|? ?]]]; cbn in Hrs; [tauto|tauto| |tauto].
  destruct Hrs as [-> _]. apply (wp_lift _ _ _ _ eq_refl).
  assert (redis_rows s' = filter (λ e, e.1.1 ≠ ns) (redis_rows s)) as Hrows.
  { unfold redis_rows. rewrite Hdb. apply map_eq. intros [n k].
    rewrite delete_ns_lookup, !own_rows_lookup. unfold pipe_effect. cbn [foldl flip cmd_effect fst].
    case_decide as Hn.
    - subst. apply map_lookup_filter_None. right. cbn. set_solver.
    - destruct (redis_db (redis_server s) !! (hkey cfg n, k)) as [b|] eqn:E.
      + apply map_lookup_filter_Some. split; [done|]. cbn.
        rewrite list_elem_of_singleton. intros H%hkey_inj. done.
      + apply map_lookup_filter_None. by left. }
  destruct (redis_ok_rows s s' _ Hup' Hrows) as [Hok' Hview].
  - eapply row_ok_subset; [|exact Hok]. by intros p b [? _]%map_lookup_filter_Some.
  - pose proof (unpacked_delete_ns unpack (redis_rows s) ns) as Hdel. fold (redis_view s) in Hdel.
    split; [split; [done|by rewrite Hview]|]. rewrite hash_len_removed, <-Hdel. symmetry. apply kv_removed_fmap.
Qed.

(** *** Listing *)

Lemma scan_reads_wp s (pfx : option pystr) :
  redis_reads (redis_server s) → from_option valid_text True pfx →
  wp (iter_hkeys cfg pfx) s (λ hks s', (redis_reads (redis_server s') ∧
      redis_db (redis_server s') = redis_db (redis_server s) ∧
      (redis_up (redis_server s) → redis_up (redis_server s'))) ∧
    ∀ hk, hk ∈ hks ↔ hash_exists (redis_db (redis_server s)) hk ∧
      own_key hk = true ∧ has_prefix pfx (ns_of cfg hk) = true).
Proof.
  intros Hup Hpfx. unfold iter_hkeys, on_redis, act.
  assert (∃ t, hkeys_pattern cfg pfx = glob_escape t ++ lit "*" ∧ valid_text t ∧
    ∀ hk, starts_with t hk = true ↔ own_key hk = true ∧ has_prefix pfx (ns_of cfg hk) = true)
    as (t&Ht&Htv&Hmatch).
  { set (p := from_option id [] pfx). exists (redis_prefix cfg ++ lit ":" ++ p).
    assert (hkeys_pattern cfg pfx = glob_escape (redis_prefix cfg ++ lit ":" ++ p) ++ lit "*") as ->.
    { unfold hkeys_pattern, glob_escape. rewrite !bind_app, <-!app_assoc.
      unfold p. by destruct pfx as [[|c q]|]. }
    split; [done|]. split.
    - rewrite !valid_text_app. split; [done|]. split; [by apply (bool_decide_unpack _)|].
      unfold p. destruct pfx; [done|apply valid_text_nil].
    - intros hk. fold (hkey cfg p). split.
      + intros [t ->]%starts_with_spec.
        assert (hkey cfg p ++ t = hkey cfg (p ++ t)) as -> by (rewrite !(hkey_app (_ ++ _)), !(hkey_app p), app_assoc; done).
        rewrite ns_of_hkey. split; [apply own_hkey|]. unfold p. destruct pfx; [apply starts_with_app|done].
      + intros [Hown Hp]. rewrite <-(hkey_ns_of hk Hown). apply starts_with_spec.
        assert (starts_with p (ns_of cfg hk) = true) as [t ->]%starts_with_spec
          by (unfold p; by destruct pfx).
        exists t. by rewrite (hkey_app (p ++ t)), (hkey_app p), app_assoc. }
  destruct (wp_elim _ _ _ (scan_law (redis_server s) (hkeys_pattern cfg pfx) Hup
    ltac:(rewrite Ht; apply valid_text_app; split; [by apply glob_escape_valid|by apply (bool_decide_unpack _)])))
    as (l&r'&E&Hr'&texts&Htexts&Hin).
  unfold wp, mbind, pym_bind. rewrite E. unfold lift. rewrite Htexts. split; [done|].
  intros hk. by rewrite Hin, Ht, glob_prefix, Hmatch.
Qed.

Lemma scan_wp s (pfx : option pystr) :
  redis_ok s → from_option valid_text True pfx →
  wp (iter_hkeys cfg pfx) s (λ hks s', (redis_ok s' ∧ redis_view s' = redis_view s ∧
      redis_db (redis_server s') = redis_db (redis_server s)) ∧
    ∀ hk, hk ∈ hks ↔ hash_exists (redis_db (redis_server s)) hk ∧
      own_key hk = true ∧ has_prefix pfx (ns_of cfg hk) = true).
Proof.
  intros [Hup Hok] Hpfx. eapply wp_mono; [by apply scan_reads_wp; [apply up_reads|]|].
  intros hks s' [(_&Hdb&Hup') Hin]. split; [|done].
  unfold redis_ok, redis_view, redis_rows. rewrite Hdb. split; [|done]. by split; [apply Hup'|].
Qed.

Lemma redis_keys_ok s ns (pfx : option pystr) :
  scans_once → redis_ok s → valid_text ns → from_option valid_text True pfx →
  wp (RedisStore_keys cfg ns pfx) s (λ l s', (redis_ok s' ∧ redis_view s' = redis_view s) ∧
    lists_keys (redis_view s) ns pfx l).
Proof.
  intros [_ Honce] Hs Hns Hpfx. unfold RedisStore_keys.
  assert (∀ k, hash_has (redis_db (redis_server s)) (hkey cfg ns) k ↔ is_Some (redis_view s !! (ns, k))) as Hhas.
  { intros k. rewrite redis_view_is_Some. unfold hash_has, redis_rows. by rewrite own_rows_lookup. }
  destruct pfx as [p|].
  - destruct Hs as [Hup Hok].
    destruct (wp_elim _ _ _ (hscan_law (redis_server s) (hkey cfg ns) (glob_escape p ++ lit "*") Hup
      (hkey_valid _ Hns) ltac:(apply valid_text_app; split; [by apply glob_escape_valid|by apply (bool_decide_unpack _)])))
      as (l&r'&E&[Hup' Hdb]&texts&Htexts&Hin).
    pose proof (Honce (redis_server s) (hkey cfg ns) (glob_escape p ++ lit "*") Hup) as Hnd.
    unfold wp in Hnd. rewrite E in Hnd.
    unfold wp, mbind, pym_bind, on_redis, act, lift, mret, pym_ret. rewrite E, Htexts. split.
    + unfold redis_ok, redis_view, redis_rows. cbn. by rewrite Hdb.
    + split; [by apply Hnd|]. intros k. by rewrite Hin, Hhas, glob_prefix.
  - eapply wp_bind_mono.
    { apply (read_wp as_texts (HKeys (hkey cfg ns)) s
        (λ l, names l (hash_has (redis_db (redis_server s)) (hkey cfg ns)))); [done|by apply hkey_valid|done|].
      intros r (l&->&Hl). by exists l. }
    intros l s' [Hs' (texts&Htexts&Hnd&Hin)]. apply (wp_lift _ _ _ _ Htexts). split; [done|].
    split; [done|]. intros k. rewrite Hin, Hhas. cbn. tauto.
Qed.

Lemma redis_namespaces_ok s (pfx : option pystr) :
  scans_once → redis_ok s → from_option valid_text True pfx →
  wp (RedisStore_namespaces cfg pfx) s (λ l s', (redis_ok s' ∧ redis_view s' = redis_view s) ∧
    lists_namespaces (redis_view s) pfx l).
Proof.
  intros [Honce _] Hs Hpfx. unfold RedisStore_namespaces.
  assert (wp (iter_hkeys cfg pfx) s (λ hks _, NoDup hks)) as Hnd.
  { unfold iter_hkeys, on_redis, act, wp, mbind, pym_bind, lift.
    destruct (wp_elim _ _ _ (scan_wp s pfx Hs Hpfx)) as (hks&s'&E&_).
    unfold iter_hkeys, on_redis, act, mbind, pym_bind, lift in E.
    pose proof (Honce (redis_server s) (hkeys_pattern cfg pfx) (proj1 Hs)) as H. unfold wp in H.
    destruct (redis_scan _ _) as [[l|e|] r']; [|done..].
    destruct (mapM decoded l) as [ts|e|]; [|done..]. by apply H. }
  destruct (wp_elim _ _ _ (scan_wp s pfx Hs Hpfx)) as (hks&s'&E&(Hs'&Hv&_)&Hin).
  unfold wp in Hnd. rewrite E in Hnd. unfold wp, mbind, pym_bind. rewrite E.
  split; [done|]. split.
  - apply NoDup_fmap_2_strong; [|done]. intros a b (_&Ha&_)%Hin (_&Hb&_)%Hin Heq.
    by rewrite <-(hkey_ns_of a Ha), Heq, hkey_ns_of.
  - intros ns. rewrite list_elem_of_fmap. setoid_rewrite Hin. split.
    + intros (hk&->&([k Hk]&Hown&Hp)). split; [|done]. exists k. apply redis_view_is_Some.
      unfold redis_rows. by rewrite own_rows_lookup, hkey_ns_of.
    + intros [[k Hk] Hp]. exists (hkey cfg ns). rewrite ns_of_hkey. split; [done|].
      split; [|by split; [apply own_hkey|]]. exists k. apply redis_view_is_Some in Hk.
      unfold redis_rows in Hk. by rewrite own_rows_lookup in Hk.
Qed.

(** ** The contract *)

Hypothesis Honce : scans_once.

#[refine] Definition redis_spec : @StoreLaws valid_text (RedisStore R) (redis_ops cfg pack unpack) := {|
  sv_view := redis_view; sv_ok := redis_ok; sv_takes_prefix := true;
|}.
Proof.
  all: unfold redis_ops; simpl.
  - intros s ns k v [_ Ht]. unfold redis_view. rewrite lookup_fmap.
    intros (b&Hb&->)%fmap_Some. destruct (Ht _ _ Hb) as (?&?&v'&Hv&?). simpl in *.
    unfold unpacked. by rewrite Hv.
  - intros. by apply redis_set_ok.
  - intros. by apply redis_get_ok.
  - intros. by apply redis_contains_ok.
  - intros. by apply redis_delete_ok.
  - intros s ns ??. by apply (redis_keys_ok s ns None).
  - intros s ns p ???. by apply (redis_keys_ok s ns (Some p)).
  - intros s ns Hs Hns. eapply wp_bind_mono; [by apply (redis_keys_ok s ns None)|].
    intros l s' [? Hl]. apply wp_ret. split; [done|]. by exists l.
  - intros s ?. by apply (redis_namespaces_ok s None).
  - intros s p ??. by apply (redis_namespaces_ok s (Some p)).
  - intros f s items [= <-] ??. by apply redis_set_many_ok.
  - intros f s pairs [= <-] ??. by apply redis_get_many_ok.
  - intros f s pairs [= <-] ??. by apply redis_delete_many_ok.
  - intros f s ns [= <-] ??. by apply redis_delete_namespace_ok.
Defined.
End Redis.
