(* ===== verification/RedisFake.v ===== *)
(** * A Redis server in memory

    A server that meets [RedisLaws], for the examples: a table of hashes, a
    connection that may drop at the next transaction (before EXEC, or after it was
    sent), and a SCAN that may yield every name twice. *)

From Stdlib Require Import ZifyBool.
From S2P Require Import Prelude PyValue Codec CodecLemmas Store Snapshot WireRows Redis RedisLaws.

Record Fake := {
  fake_db : table;
  fake_drop : option bool;   (* [Some applied]: the next pipeline loses the connection *)
}.

Section Fake.
Context (twice : bool).

Definition fake_text (s : pystr) : Text :=
  match utf8_encode s with Ok b => TBytes b | _ => TStr s end.

Definition fake_reply (c : Cmd) (db : table) : Reply :=
  match c with
  | HSet _ _ _ | HSetMap _ _ | Del _ => RInt 0
  | HGet hk f => match db !! (hk, f) with Some b => RBulk b | None => RNil end
  | HExists hk f => RInt (if bool_decide (is_Some (db !! (hk, f))) then 1 else 0)
  | HDel hk fs => RInt (Z.of_nat (size db) - Z.of_nat (size (cmd_effect c db)))
  | HLen hk => RInt (Z.of_nat (hash_len db hk))
  | HKeys hk => RTexts ((λ e, fake_text e.1) <$> ns_rows hk db)
  | HGetAll hk => RPairs ((λ e, (fake_text e.1, e.2)) <$> ns_rows hk db)
  | Exists hk => RInt (if bool_decide (ns_rows hk db = []) then 0 else 1)
  end.

Definition set_fake (db : table) (r : Fake) : Fake := {| fake_db := db; fake_drop := fake_drop r |}.

Fixpoint fake_run (cs : list Cmd) (db : table) : list Reply * table :=
  match cs with
  | [] => ([], db)
  | c :: cs' => let '(rs, db') := fake_run cs' (cmd_effect c db) in (fake_reply c db :: rs, db')
  end.

(** The patterns the store builds: escapes, [*], [?] and plain characters. *)
Fixpoint fake_glob (p s : pystr) : bool :=
  match p with
  | [] => match s with [] => true | _ => false end
  | c :: p' =>
      if (c =? 42)%N then
        (fix star s := fake_glob p' s || match s with [] => false | _ :: s' => star s' end) s
      else if (c =? 92)%N then
        match p', s with
        | d :: p'', x :: s' => (d =? x)%N && fake_glob p'' s'
        | _, _ => false
        end
      else match s with
           | [] => false
           | x :: s' => ((c =? 63)%N || (c =? x)%N) && fake_glob p' s'
           end
  end.

Definition again {A} (l : list A) : list A := if twice then l ++ l else l.

#[export] Instance fake_client : RedisClient Fake := {
  redis_cmd c := act (λ r,
    match fake_drop r with
    | Some _ => (Raise StoreError, r)
    | None => (Ok (fake_reply c (fake_db r)), set_fake (cmd_effect c (fake_db r)) r)
    end);
  redis_pipe transaction cs := act (λ r,
    let '(rs, db) := fake_run cs (fake_db r) in
    match fake_drop r with
    | Some applied => (Raise StoreError, if applied : bool then set_fake db r else r)
    | None => (Ok rs, set_fake db r)
    end);
  redis_scan p := act (λ r,
    (Ok (again (fake_text <$> filter (λ hk, fake_glob p hk = true)
                  (remove_dups ((λ e, e.1.1) <$> map_to_list (fake_db r))))), r));
  redis_hscan hk p := act (λ r,
    (Ok (again ((λ e, (fake_text e.1, e.2)) <$>
           filter (λ e, fake_glob p e.1 = true) (ns_rows hk (fake_db r)))), r));
}.

Definition fake_reads (r : Fake) : Prop :=
  map_Forall (λ p _, valid_text p.1 ∧ valid_text p.2) (fake_db r).
Definition fake_up (r : Fake) : Prop := fake_drop r = None ∧ fake_reads r.

(** ** It meets the laws *)

Lemma fake_text_decoded s : valid_text s → decoded (fake_text s) = Ok s.
Proof.
  intros Hs. unfold fake_text. destruct (utf8_encode s) as [b| |] eqn:E; [|done..].
  cbn. by rewrite (utf8_decode_encode _ _ E).
Qed.

Lemma fake_texts_decoded {A : Type} (f : A → pystr) (l : list A) :
  Forall (λ x, valid_text (f x)) l → mapM decoded ((λ x, fake_text (f x)) <$> l) = Ok (f <$> l).
Proof.
  induction 1 as [|x l Hx _ IH]; [done|]. cbn [fmap list_fmap mapM].
  rewrite fake_text_decoded by done. cbn [mbind result_bind]. by rewrite IH.
Qed.

Lemma fake_pairs_decoded (l : list (pystr * bytes)) :
  Forall (λ e, valid_text e.1) l → mapM decoded_pair ((λ e, (fake_text e.1, e.2)) <$> l) = Ok l.
Proof.
  induction 1 as [|[f b] l Hf _ IH]; [done|]. cbn [fmap list_fmap mapM].
  assert (decoded_pair (fake_text f, b) = Ok (f, b)) as Hd
    by (unfold decoded_pair; cbn [fst snd]; by rewrite fake_text_decoded).
  cbn [fst snd]. rewrite Hd. cbn [mbind result_bind]. by rewrite IH.
Qed.

Lemma ns_rows_valid r hk :
  fake_up r → Forall (λ e, valid_text e.1) (ns_rows hk (fake_db r)).
Proof.
  intros [_ Hok]. apply Forall_forall. intros [f b] Hin%ns_rows_elem. by apply (Hok _ _ Hin).
Qed.

Lemma fake_reply_ok r c : fake_up r → cmd_reply c (fake_db r) (fake_reply c (fake_db r)).
Proof.
  intros Hup. destruct c as [hk f v|hk m|hk f|hk f|hk fs|hk|hk|hk|hks|hk]; cbn; try done; try by eexists.
  - eexists. split; [done|]. exists (ns_rows hk (fake_db r)).*1. split_and!.
    + apply fake_texts_decoded. by apply ns_rows_valid.
    + apply ns_rows_NoDup.
    + intros f. apply ns_rows_keys_elem.
  - eexists. split; [done|]. split.
    + exists (ns_rows hk (fake_db r)).*1. rewrite <-list_fmap_compose. split_and!.
      * apply (fake_texts_decoded fst). by apply ns_rows_valid.
      * apply ns_rows_NoDup.
      * intros f. apply ns_rows_keys_elem.
    + exists (ns_rows hk (fake_db r)). split.
      * apply fake_pairs_decoded. by apply ns_rows_valid.
      * intros [f b]. by rewrite ns_rows_elem.
  - eexists. split; [done|]. unfold hash_exists. setoid_rewrite <-ns_rows_keys_elem.
    case_bool_decide as Hl; split; try lia.
    + rewrite Hl. intros [f Hf]. by apply not_elem_of_nil in Hf.
    + destruct (ns_rows hk (fake_db r)) as [|[f b] l]; [done|]. intros _. exists f. by left.
Qed.

Lemma fake_effect_up c r : fake_up r → cmd_ok c → fake_up (set_fake (cmd_effect c (fake_db r)) r).
Proof.
  intros [Hd Hok] Hc. split; [done|]. unfold fake_reads in *. cbn [fake_db set_fake]. revert Hok. generalize (fake_db r). intros db Hok.
  destruct c as [hk f v|hk m|hk f|hk f|hk fs|hk|hk|hk|hks|hk]; cbn in *; try done.
  - by apply map_Forall_insert_2.
  - destruct Hc as (Hhk&_&Hm). revert db Hok. induction Hm as [|e m He _ IH]; intros db Hok; [done|].
    apply IH. by apply map_Forall_insert_2.
  - clear Hc. revert db Hok. induction fs as [|f fs IH]; intros db Hok; [done|].
    apply IH. by apply map_Forall_delete.
  - intros p b [Hp _]%map_lookup_filter_Some. by apply (Hok _ _ Hp).
Qed.

Lemma fake_run_ok cs r :
  fake_up r → Forall cmd_ok cs →
  let '(rs, db) := fake_run cs (fake_db r) in
  fake_up (set_fake db r) ∧ db = pipe_effect cs (fake_db r) ∧ pipe_replies cs (fake_db r) rs.
Proof.
  intros Hup Hcs. revert r Hup. induction Hcs as [|c cs Hc _ IH]; intros r Hup; cbn [fake_run].
  - split; [|done]. by destruct r.
  - specialize (IH _ (fake_effect_up c r Hup Hc)). cbn [fake_db set_fake] in IH.
    destruct (fake_run cs (cmd_effect c (fake_db r))) as [rs db].
    destruct IH as (?&->&?). split; [done|]. split; [done|]. split; [by apply fake_reply_ok|done].
Qed.

Lemma fake_run_effect cs db : (fake_run cs db).2 = pipe_effect cs db.
Proof.
  revert db. induction cs as [|c cs IH]; intros db; [done|]. cbn [fake_run].
  specialize (IH (cmd_effect c db)). by destruct (fake_run cs (cmd_effect c db)).
Qed.

Lemma elem_of_again {A : Type} (x : A) l : x ∈ again l ↔ x ∈ l.
Proof. unfold again. destruct twice; [|done]. set_solver. Qed.

Lemma again_decoded (l : list Text) ts :
  mapM decoded l = Ok ts → mapM decoded (again l) = Ok (again ts).
Proof.
  unfold again. destruct twice; [|done]. intros H.
  assert (∀ k us, mapM decoded k = Ok us → mapM decoded (k ++ l) = Ok (us ++ ts)) as Happ; [|by apply Happ].
  induction k as [|t k IH]; intros us; cbn [mapM app]; [by intros [= <-]|].
  destruct (decoded t); cbn [mbind result_bind]; [|done..].
  destruct (mapM decoded k) as [vs| |]; cbn [mbind result_bind]; [|done..]. intros [= <-].
  by rewrite (IH vs eq_refl).
Qed.

Lemma again_fmap {A B : Type} (f : A → B) l : f <$> again l = again (f <$> l).
Proof. unfold again. destruct twice; [apply fmap_app|done]. Qed.

#[refine] Definition fake_laws : RedisLaws Fake := {|
  redis_db := fake_db; redis_up := fake_up; redis_reads := fake_reads; glob p s := fake_glob p s = true;
|}.
Proof.
  - intros r c Hup Hc. unfold wp. cbn. unfold act. pose proof Hup as [-> _].
    split; [|by apply fake_reply_ok]. split; [by apply fake_effect_up|done].
  - intros r tx cs Hup Hc. unfold wp. cbn. unfold act.
    pose proof (fake_run_ok cs r Hup Hc) as H. destruct (fake_run cs (fake_db r)) as [rs db].
    pose proof Hup as [-> _]. destruct H as (?&->&?). done.
  - intros r cs res r'. cbn. unfold act. pose proof (fake_run_effect cs (fake_db r)) as H.
    destruct (fake_run cs (fake_db r)) as [rs db]. cbn in H. subst db.
    destruct (fake_drop r) as [[]|]; intros [= _ <-]; auto.
  - by intros r [_ ?].
  - intros r p Hup Hp. unfold wp. cbn. unfold act. split; [done|].
    set (hks := filter _ _).
    exists (again hks). split.
    + apply again_decoded. rewrite <-(list_fmap_id hks) at 2. apply (fake_texts_decoded id).
      apply Forall_forall. intros hk [_ Hin]%list_elem_of_filter.
      apply elem_of_remove_dups, list_elem_of_fmap in Hin as ([[h f] b]&->&Hin).
      apply elem_of_map_to_list in Hin. by apply (Hup _ _ Hin).
    + intros hk. rewrite elem_of_again. unfold hks. rewrite list_elem_of_filter, elem_of_remove_dups.
      rewrite list_elem_of_fmap. unfold hash_exists, hash_has. split.
      * intros [? ([[h f] b]&->&Hin)]. apply elem_of_map_to_list in Hin. split; [|done]. exists f. by exists b.
      * intros [[f [b Hb]] ?]. split; [done|]. exists (hk, f, b). by rewrite elem_of_map_to_list.
  - intros r hk p Hup Hhk Hp. unfold wp. cbn. unfold act. split; [done|].
    set (es := filter _ _). exists (again es.*1). rewrite again_fmap, <-list_fmap_compose. split.
    + apply again_decoded. apply (fake_texts_decoded fst).
      apply Forall_forall. intros e [_ Hin]%list_elem_of_filter.
      pose proof (ns_rows_valid r hk Hup) as Hv. rewrite Forall_forall in Hv. by apply Hv.
    + intros f. rewrite elem_of_again. unfold hash_has. rewrite <-ns_rows_keys_elem. unfold es. rewrite !list_elem_of_fmap.
      setoid_rewrite list_elem_of_filter.
      split; [intros (e&->&?&?)|intros [(e&->&?) ?]]; eauto.
  - intros r hk f b [_ Hok] Hb. by apply (Hok _ _ Hb).
  - intros s. cbn. induction s as [|c s IH]; [done|]. cbn. exact IH.
  - intros c p s _. cbn. split.
    + destruct s as [|x s]; [done|]. rewrite andb_true_iff, N.eqb_eq. intros [-> ?]. by exists s.
    + intros (s'&->&?). by rewrite N.eqb_refl.
  - intros c p s Hc. change (glob_meta c) with (existsb (N.eqb c) [92; 42; 63; 91; 93; 94]%N) in Hc.
    cbn [existsb] in Hc. rewrite !orb_false_iff in Hc.
    destruct Hc as (H92&H42&H63&_). cbn [fake_glob]. rewrite H92, H42, H63. cbn [orb]. split.
    + destruct s as [|x s]; [done|]. rewrite andb_true_iff, N.eqb_eq. intros [-> ?]. by exists s.
    + intros (s'&->&?). by rewrite N.eqb_refl.
Defined.
End Fake.
