(* ===== verification/RedisProps.v ===== *)
(** * What the Redis store promises

    The contract, transactions under a lost connection, snapshots, and the async
    twins; the examples run on [RedisFake]. *)

From Stdlib Require Import ZifyBool.
From S2P Require Import Prelude PyValue Codec CodecLemmas CodecTheorems Store StoreTrace Snapshot WireRows.
From S2P Require Import Redis RedisLaws RedisTheorems RedisFake.

#[local] Arguments lit : simpl never.

(** ** Lemmas: snapshots *)

Section Snapshots.
Context {R : Type} {client : RedisClient R} {laws : RedisLaws R} (cfg : RedisConfig).
Context (unpack : bytes → result pyval).
Hypothesis Hprefix : valid_text (redis_prefix cfg).

(** The row a snapshot's mapping holds. *)
Definition data_get (data : list (pystr * list (pystr * bytes))) (p : pystr * pystr) : option bytes :=
  kvs ← od_get data p.1; od_get kvs p.2.

Lemma decoded_pairs_names (l : list (Text * bytes)) kvs :
  mapM decoded_pair l = Ok kvs → mapM decoded l.*1 = Ok kvs.*1.
Proof.
  revert kvs. induction l as [|[t b] l IH]; intros kvs; cbn [mapM fmap list_fmap fst].
  { by intros [= <-]. }
  change (decoded_pair (t, b)) with (f ← decoded t; Ok (f, b)).
  destruct (decoded t) as [f| |]; cbn [mbind result_bind]; [|done..].
  destruct (mapM decoded_pair l) as [ks| |] eqn:E; cbn [mbind result_bind]; [|done..]. intros [= <-].
  by rewrite (IH ks eq_refl).
Qed.

(** A reply to HGETALL is the hash. *)
Lemma hgetall_reply (hk : pystr) (db : table) r :
  cmd_reply (HGetAll hk) db r →
  ∃ l kvs, as_pairs r = Ok l ∧ mapM decoded_pair l = Ok kvs ∧ NoDup kvs.*1 ∧
    ∀ f, od_get (od_of_list kvs) f = db !! (hk, f).
Proof.
  intros (l&->&(texts&Htexts&Hnd&Hin)&kvs&Hkvs&Hvals). exists l, kvs.
  apply decoded_pairs_names in Hkvs as Hnames. rewrite Htexts in Hnames. injection Hnames as ->.
  split_and!; [done..|]. intros f. rewrite od_of_list_id by done. apply option_eq. intros b.
  rewrite <-od_get_elem_of by done. split; [by apply (Hvals (f, b))|]. intros Hb.
  assert (f ∈ kvs.*1) as ([g c]&->&Hfc)%list_elem_of_fmap by (apply Hin; by exists b).
  pose proof (Hvals _ Hfc) as Hc. cbn in Hb, Hc. rewrite Hb in Hc. by injection Hc as ->.
Qed.

(** A snapshot holds the store's rows. *)
Lemma snapshot_wp now (s : RedisStore R) :
  redis_ok cfg unpack s →
  wp (RedisStore_snapshot cfg now) s (λ snap s',
    (redis_ok cfg unpack s' ∧ redis_rows cfg s' = redis_rows cfg s) ∧
    NoDup (rs_data snap).*1 ∧ (∀ ns kvs, (ns, kvs) ∈ rs_data snap → NoDup kvs.*1) ∧
    ∀ p, data_get (rs_data snap) p = redis_rows cfg s !! p).
Proof.
  intros Hs. unfold RedisStore_snapshot.
  eapply wp_bind_mono; [by apply (scan_wp cfg unpack Hprefix s None)|].
  intros hks s1 [(Hs1&_&Hdb) Hhks]. cbn [has_prefix] in Hhks.
  eapply wp_bind_mono.
  { apply (wp_for_fold (λ done data s', (redis_up (redis_server s') ∧
        redis_db (redis_server s') = redis_db (redis_server s)) ∧
      NoDup data.*1 ∧ (∀ ns kvs, (ns, kvs) ∈ data → NoDup kvs.*1) ∧
      ∀ ns k, data_get data (ns, k) =
        if decide (hkey cfg ns ∈ done) then redis_db (redis_server s) !! (hkey cfg ns, k) else None)).
    { split; [split; [apply Hs1|done]|]. split; [constructor|].
      split; [by intros ?? ?%not_elem_of_nil|]. intros ns k. rewrite decide_False; [done|apply not_elem_of_nil]. }
    intros done hk rest data s' Hsplit [[Hup' Hdb'] (Hnd&Hinner&Hdata)].
    destruct (proj1 (Hhks hk) ltac:(rewrite Hsplit; set_solver)) as ([f0 [b0 Hf0]]&Hown&_).
    eapply wp_bind_mono.
    { apply (command_wp as_pairs (HGetAll hk) s' (λ l, ∃ kvs, mapM decoded_pair l = Ok kvs ∧ NoDup kvs.*1 ∧
        ∀ f, od_get (od_of_list kvs) f = redis_db (redis_server s) !! (hk, f))); [done| |].
      - by apply (db_text _ _ _ _ (proj1 Hs) Hf0).
      - rewrite Hdb'. intros r (l&kvs&Hl&Hkvs&Hnd'&Hget)%hgetall_reply. exists l. split; [done|]. by exists kvs. }
    intros l s2 [[Hup2 Hdb2] (kvs&Hkvs&Hnd'&Hget)]. cbn [cmd_effect] in Hdb2.
    apply wp_bind, (wp_lift _ _ _ _ Hkvs), wp_ret. split; [split; [done|congruence]|].
    split; [by apply od_set_NoDup|]. split.
    - intros ns kvs' Hin%od_get_elem_of; [|by apply od_set_NoDup]. rewrite od_get_set in Hin.
      case_decide; [injection Hin as <-; apply od_of_list_NoDup|].
      eapply Hinner, od_get_elem_of; done.
    - intros ns k. unfold data_get. cbn [fst snd]. rewrite od_get_set.
      destruct (decide (ns_of cfg hk = ns)) as [<-|Hne].
      + rewrite (hkey_ns_of cfg hk Hown), decide_True by set_solver. apply Hget.
      + transitivity (data_get data (ns, k)); [done|]. rewrite Hdata.
        assert (hkey cfg ns ≠ hk) as Hne' by (intros <-; by rewrite ns_of_hkey in Hne).
        destruct (decide (hkey cfg ns ∈ done)), (decide (hkey cfg ns ∈ done ++ [hk])); set_solver. }
  intros data s2 [[Hup2 Hdb2] (Hnd&Hinner&Hdata)].
  unfold wp, act. destruct (SnapshotMeta_next now (redis_meta s2)) as [meta m']. cbn.
  assert (∀ p, data_get data p = redis_rows cfg s !! p) as Hrows.
  { intros [ns k]. rewrite Hdata. unfold redis_rows. rewrite own_rows_lookup.
    case_decide as Hin; [done|]. destruct (redis_db _ !! _) as [b|] eqn:E; [|done]. destruct Hin.
    apply Hhks. split; [|by split; [apply own_hkey|]]. exists k. by exists b. }
  split_and!; try done.
  - unfold redis_ok, redis_rows. cbn. rewrite Hdb2. split; [done|]. apply Hs.
  - unfold redis_rows. cbn. by rewrite Hdb2.
Qed.

(** *** Refilling *)

Lemma own_rows_hset_all (ns : pystr) (kvs : list (pystr * bytes)) (db : table) (n k : pystr) :
  NoDup kvs.*1 →
  own_rows cfg (hset_all (hkey cfg ns) kvs db) !! (n, k) =
  match (if decide (ns = n) then od_get kvs k else None) with
  | Some b => Some b
  | None => own_rows cfg db !! (n, k)
  end.
Proof.
  unfold hset_all. revert db. induction kvs as [|[f b] kvs IH]; intros db Hnd.
  { by case_decide. }
  apply NoDup_cons in Hnd as [Hf Hnd]. cbn [foldl fst snd od_get]. rewrite IH by done.
  rewrite own_rows_insert. destruct (decide (ns = n)) as [<-|Hne].
  - destruct (decide (f = k)) as [->|Hk].
    + destruct (od_get kvs k) as [c|] eqn:E; [|by rewrite lookup_insert_eq].
      destruct Hf. apply od_get_Some_keys. by exists c.
    + destruct (od_get kvs k); [done|]. by rewrite lookup_insert_ne by congruence.
  - by rewrite lookup_insert_ne by congruence.
Qed.

Lemma refill_rows (data : list (pystr * list (pystr * bytes))) (db : table) (ns k : pystr) :
  NoDup data.*1 → (∀ n kvs, (n, kvs) ∈ data → NoDup kvs.*1) →
  own_rows cfg (pipe_effect (omap (λ e, match e.2 with [] => None | kv => Some (HSetMap (hkey cfg e.1) kv) end) data) db) !! (ns, k) =
  match data_get data (ns, k) with Some b => Some b | None => own_rows cfg db !! (ns, k) end.
Proof.
  revert db. induction data as [|[n kvs] data IH]; intros db Hnd Hin; [done|].
  apply NoDup_cons in Hnd as [Hn Hnd].
  assert (data_get ((n, kvs) :: data) (ns, k) =
    if decide (n = ns) then od_get kvs k else data_get data (ns, k)) as ->
    by (unfold data_get; cbn; by case_decide).
  assert (n = ns → data_get data (ns, k) = None) as Hnone.
  { intros <-. unfold data_get. cbn. destruct (od_get data n) eqn:E; [|done].
    destruct Hn. apply od_get_Some_keys. by eexists. }
  assert (∀ db', pipe_effect (omap (λ e : pystr * list (pystr * bytes),
      match e.2 with [] => None | kv => Some (HSetMap (hkey cfg e.1) kv) end) ((n, kvs) :: data)) db' =
    pipe_effect (omap (λ e, match e.2 with [] => None | kv => Some (HSetMap (hkey cfg e.1) kv) end) data)
      (hset_all (hkey cfg n) kvs db')) as -> by (by destruct kvs).
  rewrite IH by (done || intros; eapply Hin; by right).
  rewrite own_rows_hset_all by (eapply Hin; by left).
  destruct (decide (n = ns)) as [Heq|]; [by rewrite (Hnone Heq)|done].
Qed.

(** Keys under other prefixes are left alone. *)
Lemma refill_foreign (data : list (pystr * list (pystr * bytes))) (db : table) (hk f : pystr) :
  own_key cfg hk = false →
  pipe_effect (omap (λ e, match e.2 with [] => None | kv => Some (HSetMap (hkey cfg e.1) kv) end) data) db !! (hk, f)
  = db !! (hk, f).
Proof.
  intros Hk. revert db. induction data as [|[n kvs] data IH]; intros db; [done|].
  cbn [omap list_omap]. destruct kvs as [|[g b] kvs]; [apply IH|]. cbn [snd].
  unfold pipe_effect in *. cbn [foldl flip cmd_effect]. rewrite IH. unfold hset_all.
  generalize ((g, b) :: kvs). clear IH. intros l. revert db. induction l as [|e l IHl]; intros db; [done|].
  cbn [foldl fst]. rewrite IHl, lookup_insert_ne; [done|]. intros [= Heq _].
  by rewrite <-Heq, own_hkey in Hk.
Qed.

(** What the transaction of [restore] does to the database. *)
Lemma restore_effect (stale : list pystr) (data : list (pystr * list (pystr * bytes))) (db t : table) :
  (∀ hk, hk ∈ stale ↔ hash_exists db hk ∧ own_key cfg hk = true) →
  NoDup data.*1 → (∀ n kvs, (n, kvs) ∈ data → NoDup kvs.*1) →
  (∀ p, data_get data p = t !! p) →
  own_rows cfg (pipe_effect (restore_cmds cfg stale data) db) = t ∧
  ∀ hk f, own_key cfg hk = false →
    pipe_effect (restore_cmds cfg stale data) db !! (hk, f) = db !! (hk, f).
Proof.
  intros Hstale Hnd Hin Hdata. unfold restore_cmds. set (refill := omap _ data).
  assert (∃ db', pipe_effect ((match stale with [] => [] | _ => [Del stale] end) ++ refill) db =
    pipe_effect refill db' ∧ db' = filter (λ e, e.1.1 ∉ stale) db) as (db'&->&Hdb').
  { unfold pipe_effect. rewrite foldl_app. destruct stale as [|hk stale]; eexists; (split; [done|]); [|done].
    symmetry. apply map_filter_id. intros p b _. apply not_elem_of_nil. }
  split.
  - apply map_eq. intros [ns k]. rewrite <-Hdata. unfold refill. rewrite refill_rows by done.
    destruct (data_get data (ns, k)) as [b|]; [done|]. rewrite own_rows_lookup, Hdb'.
    apply map_lookup_filter_None. destruct (db !! (hkey cfg ns, k)) as [b|] eqn:E; [|by left].
    right. intros b' _ Hns. apply Hns. cbn. apply Hstale. split; [|apply own_hkey]. exists k. by exists b.
  - intros hk f Hk. unfold refill. rewrite refill_foreign by done. rewrite Hdb'.
    destruct (db !! (hk, f)) as [b|] eqn:E; [|apply map_lookup_filter_None; by left].
    apply map_lookup_filter_Some. split; [done|]. cbn. rewrite Hstale. intros [_ ?]. congruence.
Qed.

Lemma restore_cmds_ok (s s2 : RedisStore R) (stale : list pystr) (data : list (pystr * list (pystr * bytes))) :
  redis_ok cfg unpack s → redis_up (redis_server s2) →
  (∀ hk, hk ∈ stale → hash_exists (redis_db (redis_server s2)) hk) →
  NoDup data.*1 → (∀ n kvs, (n, kvs) ∈ data → NoDup kvs.*1) →
  (∀ p, data_get data p = redis_rows cfg s !! p) →
  Forall cmd_ok (restore_cmds cfg stale data).
Proof.
  intros [_ Hs] Hup Hstale Hnd Hinner Hdata. unfold restore_cmds. apply Forall_app. split.
  - destruct stale as [|hk stale]; [constructor|]. apply Forall_singleton. split; [done|].
    apply Forall_forall. intros h (f&b&Hb)%Hstale.
    by apply (db_text _ _ _ _ Hup Hb).
  - apply Forall_forall. intros c ([n kvs]&Hin&Hc)%list_elem_of_omap. cbn in Hc.
    destruct kvs as [|e kvs]; [done|]. injection Hc as <-.
    assert (∀ e', e' ∈ e :: kvs → valid_text n ∧ valid_text e'.1) as Hv.
    { intros [f b] He. assert (redis_rows cfg s !! (n, f) = Some b) as Hb.
      { rewrite <-Hdata. unfold data_get. cbn [fst snd].
        apply od_get_elem_of in Hin as Hn; [|done]. rewrite Hn. cbn [mbind option_bind].
        apply od_get_elem_of; [by eapply Hinner|done]. }
      by destruct (Hs _ _ Hb) as (?&?&_). }
    split; [apply hkey_valid; [done|]; apply (Hv e); by left|]. split; [done|].
    apply Forall_forall. intros e' He. by apply Hv.
Qed.
(** On a healthy connection, [restore] writes the rows of the snapshot. *)
Lemma redis_restore_wp (s0 s : RedisStore R) snap :
  redis_ok cfg unpack s0 → redis_up (redis_server s) →
  NoDup (rs_data snap).*1 → (∀ ns kvs, (ns, kvs) ∈ rs_data snap → NoDup kvs.*1) →
  (∀ p, data_get (rs_data snap) p = redis_rows cfg s0 !! p) →
  wp (RedisStore_restore cfg snap) s (λ _ s',
    redis_up (redis_server s') ∧ redis_rows cfg s' = redis_rows cfg s0).
Proof.
  intros Hs0 Hup Hnd Hinner Hdata. unfold RedisStore_restore.
  eapply wp_bind_mono; [apply (scan_reads_wp cfg Hprefix s None (up_reads _ Hup) I)|].
  intros stale s2 [(_&Hdb2&Hup2) Hstale]. specialize (Hup2 Hup).
  destruct (restore_effect stale (rs_data snap) (redis_db (redis_server s)) (redis_rows cfg s0))
    as [Hrows _]; [intros hk; rewrite Hstale; cbn; tauto|done..|].
  assert (Forall cmd_ok (restore_cmds cfg stale (rs_data snap))) as Hcmds.
  { apply (restore_cmds_ok s0 s); try done. intros hk H. by apply Hstale in H as [? _]. }
  eapply wp_bind_mono; [apply (pipeline_wp true _ s2 Hup2 Hcmds)|].
  intros rs s' [[Hup' Hdb'] _]. apply wp_ret. split; [done|].
  unfold redis_rows. by rewrite Hdb', Hdb2.
Qed.

End Snapshots.

(** ** Properties *)

Section Theorems.
Context {R : Type} {client : RedisClient R} {laws : RedisLaws R} (cfg : RedisConfig).
Context (pack : pyval → result bytes) (unpack : bytes → result pyval).

(** C22: [RedisStore] implements the contract of [protocols.py]: on a server that
    behaves as documented and whose scans yield no name twice, with a [msgpack]
    that unpacks what it packs, a client that makes any sequence of calls with
    storable arguments gets, call by call, the answers of the reference store
    holding the same data (the counts of [delete_many] and [delete_namespace]
    included), and leaves the same data behind. *)
Theorem redis_refines_reference cs s :
  valid_text (redis_prefix cfg) → scans_once →
  (∀ v, storable v → ∃ b, pack v = Ok b ∧ unpack b = Ok v) →
  redis_ok cfg unpack s → Forall call_ok cs →
  ∃ answers s',
    run_calls (redis_ops cfg pack unpack) cs s = (Ok answers, s') ∧
    run_calls (reference false) cs (redis_view cfg unpack s) = (Ok answers, redis_view cfg unpack s') ∧
    redis_ok cfg unpack s'.
Proof.
  intros Hprefix Honce Hpack Hs Hcs.
  destruct (wp_elim _ _ _ (run_calls_simulates (ops:=redis_ops cfg pack unpack)
    (spec:=redis_spec cfg pack unpack Hprefix Hpack Honce) false
    ltac:(split; [done|split_and!; by eexists]) cs s Hs Hcs)) as (l&s'&H&Hok&Hr).
  exists l, s'. by split_and!.
Qed.

(** [set_many] is atomic on Redis: whatever happens to the connection, and
    whether or not it raises, the store afterwards holds either what it held or
    that plus every item of the batch (in order, so the last of two items with one
    key wins); and when packing a value fails nothing was written. *)
Theorem redis_set_many_atomic items s r s' :
  RedisStore_set_many cfg pack items s = (r, s') →
  redis_rows cfg s' = redis_rows cfg s ∨
  ∃ rows, Forall2 (λ i x, x.1 = i.1 ∧ pack i.2 = Ok x.2) items rows ∧
    redis_rows cfg s' = foldl (λ t (x : row), <[x.1 := x.2]> t) (redis_rows cfg s) rows.
Proof.
  unfold RedisStore_set_many. destruct items as [|i items]; [by intros [= _ <-]; left|].
  cbv beta iota. unfold mbind, pym_bind, lift.
  destruct (mapM (hset_item cfg pack) (i :: items)) as [cs| |] eqn:E; [|by intros [= _ <-]; left..].
  assert (∃ rows, Forall2 (λ i x, x.1 = i.1 ∧ pack i.2 = Ok x.2) (i :: items) rows ∧
    cs = hset_row cfg <$> rows) as (rows&Hrows&->).
  { apply mapM_Ok_Forall2 in E. revert E. generalize (i :: items). clear. intros items.
    induction 1 as [|[[ns k] v] c items cs Hc _ (rows&Hrows&->)]; [by exists []|].
    unfold hset_item in Hc. cbn [fst snd] in Hc. destruct (pack v) as [b| |] eqn:Hp; [|done..].
    injection Hc as <-. exists ((ns, k, b) :: rows). by repeat constructor. }
  unfold pipeline, on_redis, act.
  destruct (redis_pipe true (hset_row cfg <$> rows) (redis_server s)) as [res r1] eqn:Ep.
  intros Hr. assert (s' = set_redis r1 s) as -> by (destruct res; by injection Hr).
  destruct (exec_law _ _ _ _ Ep) as [Hdb|Hdb]; [left|right; exists rows; split; [done|]];
    unfold redis_rows; cbn [redis_server set_redis]; rewrite Hdb; [done|apply own_rows_set_all].
Qed.

(** [restore] brings back what [snapshot] saw, or leaves what is there: with any
    writes in between, and whatever happens to the connection during the restore,
    the store afterwards holds exactly the rows of the snapshot or exactly the rows
    it had (it is never left emptied or half filled), it holds the snapshot's when
    the restore returns on a healthy connection, and Redis keys outside the store's
    prefix are not touched. *)
Theorem redis_restore_snapshot now s snap s1 s2 r s3 :
  valid_text (redis_prefix cfg) → redis_ok cfg unpack s →
  RedisStore_snapshot cfg now s = (Ok snap, s1) →
  redis_reads (redis_server s2) → RedisStore_restore cfg snap s2 = (r, s3) →
  (redis_rows cfg s3 = redis_rows cfg s ∨ redis_rows cfg s3 = redis_rows cfg s2) ∧
  (∀ hk f, own_key cfg hk = false →
     redis_db (redis_server s3) !! (hk, f) = redis_db (redis_server s2) !! (hk, f)) ∧
  (redis_up (redis_server s2) → r = Ok tt ∧ redis_rows cfg s3 = redis_rows cfg s).
Proof.
  intros Hprefix Hs Hsnap Hreads Hr.
  pose proof (snapshot_wp cfg unpack Hprefix now s Hs) as Hwp. unfold wp in Hwp.
  rewrite Hsnap in Hwp. destruct Hwp as (_&Hnd&Hinner&Hdata).
  assert (redis_up (redis_server s2) → r = Ok tt ∧ redis_rows cfg s3 = redis_rows cfg s) as Hup.
  { intros Hu. pose proof (redis_restore_wp cfg unpack Hprefix s s2 snap Hs Hu Hnd Hinner Hdata) as Hr'.
    unfold wp in Hr'. rewrite Hr in Hr'. by destruct r as [[]| |]; [destruct Hr'|..]. }
  destruct (wp_elim _ _ _ (scan_reads_wp cfg Hprefix s2 None Hreads I))
    as (stale&s2'&Escan&(_&Hdb2&Hup2)&Hstale).
  destruct (restore_effect cfg stale (rs_data snap) (redis_db (redis_server s2)) (redis_rows cfg s))
    as [Hrows Hforeign]; [intros hk; rewrite Hstale; cbn; tauto|done..|].
  revert Hr. unfold RedisStore_restore, mbind, pym_bind. rewrite Escan.
  unfold pipeline, on_redis, act.
  destruct (redis_pipe true (restore_cmds cfg stale (rs_data snap)) (redis_server s2')) as [res r1] eqn:Ep.
  intros Hr. assert (s3 = set_redis r1 s2') as -> by (destruct res; by injection Hr).
  pose proof (exec_law _ _ _ _ Ep) as Hexec. rewrite Hdb2 in Hexec.
  split_and!.
  - unfold redis_rows. cbn [redis_server set_redis]. destruct Hexec as [->| ->]; [by right|by left].
  - intros hk f Hk. cbn [redis_server set_redis]. destruct Hexec as [->| ->]; [done|by apply Hforeign].
  - done.
Qed.

Lemma ar_then {A : Type} (m : PyM (RedisStore R) A) s :
  RedisStore_supports_async cfg = true → (ar cfg ;; m) s = m s.
Proof. intros Hs. unfold ar. by rewrite Hs. Qed.

Lemma async_call c s :
  RedisStore_supports_async cfg = true →
  run_call (aredis_ops cfg pack unpack) c s = run_call (redis_ops cfg pack unpack) c s.
Proof.
  intros Hs. pose proof (λ A m, ar_then (A:=A) m s Hs) as Har.
  destruct c as [ns k v|ns k|ns k|ns k|ns pfx|ns|pfx|items|pairs|pairs|ns];
    cbn [run_call op_set op_get op_contains op_delete op_keys op_max_key
      op_namespaces op_set_many op_get_many op_delete_many op_delete_namespace aredis_ops redis_ops].
  all: try (apply bind_same; exact (Har _ _)).
  - apply bind_same, bind_same. exact (Har _ _).
  - apply bind_same. unfold RedisStore_anamespaces. rewrite Har.
    unfold RedisStore_namespaces, iter_hkeys, mbind, pym_bind, lift.
    destruct (on_redis _ _) as [[l|e|] s']; [|done..]. by destruct (mapM decoded l).
  - apply (bind_same (RedisStore_aset_many cfg pack items)). destruct items; [done|]. exact (Har _ _).
  - apply (bind_same (RedisStore_aget_many cfg unpack pairs)). destruct pairs; [done|]. exact (Har _ _).
  - apply (bind_same (RedisStore_adelete_many cfg pairs)).
    unfold RedisStore_adelete_many, RedisStore_delete_many.
    destruct (group_by_ns pairs); [done|]. exact (Har _ _).
  - apply (bind_same (RedisStore_adelete_namespace cfg ns)). exact (Har _ _).
Qed.

(** The async methods of [RedisStore] are its sync methods: on a store with an
    async client (given, or built from the URL) any sequence of awaited calls
    gives the answers and leaves the store of the same sync calls; on a store
    without one, every awaited single-key call raises RuntimeError before the
    server is contacted. *)
Theorem redis_async_twins cs c s :
  match c with CSetMany _ | CGetMany _ | CDeleteMany _ => False | _ => True end →
  if RedisStore_supports_async cfg
  then run_calls (aredis_ops cfg pack unpack) cs s = run_calls (redis_ops cfg pack unpack) cs s
  else run_call (aredis_ops cfg pack unpack) c s = (Raise RuntimeError, s).
Proof.
  intros Hc. destruct (RedisStore_supports_async cfg) eqn:Hs.
  - unfold run_calls. revert s. induction cs as [|c' cs IH]; intros s; [done|]. cbn [mapM].
    unfold mbind, pym_bind. rewrite async_call by done.
    destruct (run_call _ _ s) as [[a|e|] s']; [|done..]. by rewrite IH.
  - assert (∀ A (m : PyM (RedisStore R) A), (ar cfg ;; m) s = (Raise RuntimeError, s)) as Har
      by (intros A m; unfold ar; by rewrite Hs).
    assert (∀ A B (m m' : PyM (RedisStore R) A) (f : A → PyM (RedisStore R) B),
      m = (ar cfg ;; m') → (m ≫= f) s = (Raise RuntimeError, s)) as Hraise
      by (intros A B m m' f ->; unfold mbind at 1, pym_bind at 1; by rewrite Har).
    destruct c as [ns k v|ns k|ns k|ns k|ns pfx|ns|pfx|items|pairs|pairs|ns]; try done;
      try (by eapply Hraise).
    + assert (RedisStore_amax_key cfg ns s = (Raise RuntimeError, s)) as Hmax by (by eapply Hraise).
      unfold run_call. cbn [op_max_key aredis_ops]. unfold mbind, pym_bind. by rewrite Hmax.
    + eapply (Hraise _ _ (RedisStore_adelete_namespace cfg ns) _ (λ n, mret (ACount n))). reflexivity.
Qed.
End Theorems.

(** ** Examples *)

Definition ex_cfg : RedisConfig := {| redis_prefix := lit "s"; redis_url := true; redis_aclient := false |}.
Definition ex_bytes (z : Z) : bytes := match encode (PInt z) with Ok b => b | _ => [] end.

(** A server with an entry of the store and a key of someone else. *)
Definition ex_server (drop : option bool) : RedisStore Fake :=
  {| redis_server := {| fake_db := {[ (lit "s:n", lit "k") := ex_bytes 1; (lit "o", lit "f") := [] ]};
                        fake_drop := drop |};
     redis_meta := SnapshotMeta_init |}.

Lemma fake_scans_once : @scans_once Fake (fake_client false) (fake_laws false).
Proof.
  split.
  - intros r p [_ Hok]. unfold wp. cbn. unfold act, again. intros ts Hts.
    rewrite (fake_texts_decoded id) in Hts; [injection Hts as <-; rewrite list_fmap_id; apply NoDup_filter, NoDup_remove_dups|].
    apply Forall_forall. intros hk [_ Hin]%list_elem_of_filter.
    apply elem_of_remove_dups, list_elem_of_fmap in Hin as ([[h f] b]&->&Hin).
    apply elem_of_map_to_list in Hin. by apply (Hok _ _ Hin).
  - intros r hk p Hup. unfold wp. cbn. unfold act, again. intros ts Hts.
    rewrite <-list_fmap_compose in Hts. unfold compose in Hts. cbn [fst] in Hts.
    rewrite (fake_texts_decoded fst) in Hts.
    + injection Hts as <-. apply NoDup_fmap_2_strong.
      * intros [f b] [g c] [_ Hf]%list_elem_of_filter [_ Hg]%list_elem_of_filter Heq. cbn in Heq. subst.
        apply ns_rows_elem in Hf, Hg. congruence.
      * eapply NoDup_filter, NoDup_fmap_1, ns_rows_NoDup.
    + apply Forall_forall. intros e [_ Hin]%list_elem_of_filter.
      pose proof (ns_rows_valid r hk Hup) as Hv. rewrite Forall_forall in Hv. by apply Hv.
Qed.

#[local] Existing Instance fake_client.
#[local] Existing Instance fake_laws.

Lemma ex_server_ok : redis_ok (laws:=fake_laws false) ex_cfg decode (ex_server None).
Proof.
  split; [split; [done|]|].
  - apply (bool_decide_unpack _). by vm_compute.
  - intros p b Hb.
    assert (p = (lit "n", lit "k") ∧ b = ex_bytes 1) as [-> ->].
    { destruct p as [ns k]. unfold redis_rows in Hb. rewrite own_rows_lookup in Hb.
      cbn [redis_db fake_laws redis_server ex_server fake_db] in Hb.
      apply lookup_insert_Some in Hb as [[Heq <-]|[_ Hb]].
      - injection Heq as Hns <-. split; [|done]. f_equal.
        by rewrite <-Hns.
      - apply lookup_singleton_Some in Hb as [Heq _]. discriminate Heq. }
    split_and!; [by apply (bool_decide_unpack _)..|]. exists (PInt 1). split; [by vm_compute|].
    by apply (bool_decide_unpack _).
Qed.

Abbreviation ex_run c := (run_calls (redis_ops (client:=fake_client false) ex_cfg encode decode) c).

Lemma redis_refines_reference_witness : ∃ answers s',
  ex_run [CSetMany [(lit "n", lit "j", PInt 2)]; CKeys (lit "n") (Some (lit "j")); CGet (lit "n") (lit "k")]
    (ex_server None) = (Ok answers, s') ∧
  redis_ok (laws:=fake_laws false) ex_cfg decode s'.
Proof.
  destruct (redis_refines_reference (laws:=fake_laws false) ex_cfg encode decode
    [CSetMany [(lit "n", lit "j", PInt 2)]; CKeys (lit "n") (Some (lit "j")); CGet (lit "n") (lit "k")]
    (ex_server None) ltac:(by apply (bool_decide_unpack _)) fake_scans_once codec_round_trip ex_server_ok)
    as (answers&s'&Hrun&_&Hok).
  - repeat constructor; by apply (bool_decide_unpack _).
  - exists answers, s'. split; [exact Hrun|exact Hok].
Defined.

Lemma redis_set_many_atomic_witness :
  let '(r, s') := RedisStore_set_many (client:=fake_client false) ex_cfg encode
    [(lit "n", lit "j", PInt 2)] (ex_server (Some true)) in
  r = Raise StoreError ∧
  (redis_rows (laws:=fake_laws false) ex_cfg s' = redis_rows (laws:=fake_laws false) ex_cfg (ex_server (Some true)) ∨
   ∃ rows, Forall2 (λ i x, x.1 = i.1 ∧ encode i.2 = Ok x.2) [(lit "n", lit "j", PInt 2)] rows ∧
     redis_rows (laws:=fake_laws false) ex_cfg s' = foldl (λ t (x : row), <[x.1 := x.2]> t)
       (redis_rows (laws:=fake_laws false) ex_cfg (ex_server (Some true))) rows).
Proof.
  destruct (RedisStore_set_many (client:=fake_client false) ex_cfg encode
    [(lit "n", lit "j", PInt 2)] (ex_server (Some true))) as [r s'] eqn:E.
  split.
  - transitivity (RedisStore_set_many (client:=fake_client false) ex_cfg encode
      [(lit "n", lit "j", PInt 2)] (ex_server (Some true))).1; [by rewrite E|by vm_compute].
  - exact (redis_set_many_atomic (laws:=fake_laws false) ex_cfg encode _ _ _ _ E).
Defined.

Lemma redis_restore_snapshot_witness : ∃ snap s1 s3,
  RedisStore_snapshot (client:=fake_client false) ex_cfg 7 (ex_server None) = (Ok snap, s1) ∧
  RedisStore_restore (client:=fake_client false) ex_cfg snap (ex_server None) = (Ok tt, s3) ∧
  redis_rows (laws:=fake_laws false) ex_cfg s3 = redis_rows (laws:=fake_laws false) ex_cfg (ex_server None).
Proof.
  destruct (RedisStore_snapshot (client:=fake_client false) ex_cfg 7 (ex_server None)) as [r s1] eqn:Es.
  assert (is_ok r = true) as Hr.
  { transitivity (is_ok (RedisStore_snapshot (client:=fake_client false) ex_cfg 7 (ex_server None)).1);
      [by rewrite Es|by vm_compute]. }
  destruct r as [snap|e|]; [|discriminate Hr..].
  destruct (RedisStore_restore (client:=fake_client false) ex_cfg snap (ex_server None)) as [r s3] eqn:Er.
  pose proof (redis_restore_snapshot (laws:=fake_laws false) ex_cfg decode 7 (ex_server None) snap s1
    (ex_server None) r s3 ltac:(by apply (bool_decide_unpack _)) ex_server_ok Es
    (proj2 (proj1 ex_server_ok)) Er) as (_&_&H).
  destruct (H (proj1 ex_server_ok)) as [-> Hrows]. exists snap, s1, s3.
  split; [reflexivity|]. split; [exact Er|exact Hrows].
Defined.

Lemma redis_async_twins_witness :
  run_calls (aredis_ops (client:=fake_client false) ex_cfg encode decode) [CGet (lit "n") (lit "k")] (ex_server None) =
  run_calls (redis_ops (client:=fake_client false) ex_cfg encode decode) [CGet (lit "n") (lit "k")] (ex_server None).
Proof.
  exact (redis_async_twins (client:=fake_client false) ex_cfg encode decode [CGet (lit "n") (lit "k")]
    (CGet (lit "n") (lit "k")) (ex_server None) I).
Defined.

(** A scan may yield a name twice: the store then lists its namespace twice and
    counts its entry twice. *)
Example scan_twice :
  (RedisStore_len (client:=fake_client true) ex_cfg (ex_server None)).1 = Ok 2%Z ∧
  (RedisStore_namespaces (client:=fake_client true) ex_cfg None (ex_server None)).1 = Ok [lit "n"; lit "n"].
Proof. split; vm_compute; reflexivity. Qed.
