(* ===== verification/Postgres.v ===== *)
(** * The Postgres backend

    [python/swarmstate/backends/postgres.py]. The server and [psycopg] are not part
    of the program: [PgClient] is what the store asks of a connection, by the text of
    a statement and its parameters, and [PostgresLaws.PgLaws] is the documented
    behaviour of a server for SQL in general. A connection pool, or a connection behind a lock,
    is the server it connects to, each statement (or transaction) one step. *)

From Stdlib Require Import ZifyBool.
From S2P Require Import Prelude PyValue Codec Store Snapshot WireRows.

(** ** The connection *)

(** A parameter ([%s]) of a statement, and a cell of a result. *)
Inductive Param :=
  | TextP (s : pystr)
  | ByteaP (b : bytes)
  | TextsP (l : list pystr).

Inductive Cell :=
  | CNull
  | CText (s : pystr)
  | CBytea (b : bytes)
  | CInt (z : Z).

Record Cursor := {
  cur_rows : list (list Cell);
  cur_rowcount : Z;
}.

Definition cell_text (c : Cell) : result pystr := match c with CText s => Ok s | _ => Raise TypeError end.
Definition cell_bytes (c : Cell) : result bytes := match c with CBytea b => Ok b | _ => Raise TypeError end.
Definition cell_int (c : Cell) : result Z := match c with CInt z => Ok z | _ => Raise TypeError end.

(** [row[0]] *)
Definition cell0 (r : list Cell) : result Cell := or_raise IndexError (head r).
(** [for ns, k, v in rows] *)
Definition as_row (r : list Cell) : result row :=
  match r with
  | [ns; k; v] => n ← cell_text ns; x ← cell_text k; b ← cell_bytes v; Ok (n, x, b)
  | _ => Raise ValueError
  end.

(** [execute(...)] with the cursor it returns, [executemany], a [transaction()]
    block around a body, and the closing of the pool or connection. *)
Class PgClient (C : Type) := {
  pg_execute : pystr → list Param → PyM C Cursor;
  pg_executemany : pystr → list (list Param) → PyM C unit;
  pg_transaction : ∀ {A}, PyM C A → PyM C A;
  pg_shut : PyM C unit;
}.

(** ** The statements *)

(** [_IDENT], with [re]'s [$]: also before a newline that ends the text. *)
Definition ident_start (c : N) : bool :=
  ((65 <=? c)%N && (c <=? 90)%N) || ((97 <=? c)%N && (c <=? 122)%N) || (c =? 95)%N.
Definition ident_char (c : N) : bool := ident_start c || is_digit c.
Fixpoint ident_rest (s : pystr) : bool :=
  match s with
  | [] => true
  | c :: s' => ident_char c && ident_rest s' || (c =? 10)%N && match s' with [] => true | _ => false end
  end.
Definition is_ident (t : pystr) : bool :=
  match t with c :: s => ident_start c && ident_rest s | [] => false end.

(** [_Queries] *)
Record Queries := {
  q_create : pystr; q_upsert : pystr; q_get : pystr; q_get_many : pystr; q_contains : pystr;
  q_delete : pystr; q_delete_many : pystr; q_delete_namespace : pystr; q_keys : pystr;
  q_keys_prefix : pystr; q_max_key : pystr; q_namespaces : pystr; q_namespaces_prefix : pystr;
  q_clear : pystr; q_count : pystr; q_has_namespace : pystr; q_all_rows : pystr; q_insert : pystr;
}.

Definition collate_c : pystr := lit "text COLLATE " ++ 34%N :: lit "C" ++ [34%N].

Definition Queries_init (t : pystr) : Queries := {|
  q_create := lit "CREATE TABLE IF NOT EXISTS " ++ t ++
    lit " (ns " ++ collate_c ++ lit " NOT NULL, k " ++ collate_c ++ lit " NOT NULL, " ++
    lit "v bytea NOT NULL, PRIMARY KEY (ns, k))";
  q_upsert := lit "INSERT INTO " ++ t ++ lit " (ns, k, v) VALUES (%s, %s, %s) " ++
    lit "ON CONFLICT (ns, k) DO UPDATE SET v = EXCLUDED.v";
  q_get := lit "SELECT v FROM " ++ t ++ lit " WHERE ns = %s AND k = %s";
  q_get_many := lit "SELECT t.ns, t.k, t.v FROM " ++ t ++ lit " t " ++
    lit "JOIN unnest(%s::text[], %s::text[]) AS q(ns, k) " ++
    lit "ON t.ns = q.ns AND t.k = q.k";
  q_contains := lit "SELECT 1 FROM " ++ t ++ lit " WHERE ns = %s AND k = %s";
  q_delete := lit "DELETE FROM " ++ t ++ lit " WHERE ns = %s AND k = %s";
  q_delete_many := lit "DELETE FROM " ++ t ++ lit " t " ++
    lit "USING unnest(%s::text[], %s::text[]) AS q(ns, k) " ++
    lit "WHERE t.ns = q.ns AND t.k = q.k";
  q_delete_namespace := lit "DELETE FROM " ++ t ++ lit " WHERE ns = %s";
  q_keys := lit "SELECT k FROM " ++ t ++ lit " WHERE ns = %s";
  q_keys_prefix := lit "SELECT k FROM " ++ t ++ lit " WHERE ns = %s AND starts_with(k, %s)";
  q_max_key := lit "SELECT max(k) FROM " ++ t ++ lit " WHERE ns = %s";
  q_namespaces := lit "SELECT DISTINCT ns FROM " ++ t;
  q_namespaces_prefix := lit "SELECT DISTINCT ns FROM " ++ t ++ lit " WHERE starts_with(ns, %s)";
  q_clear := lit "DELETE FROM " ++ t;
  q_count := lit "SELECT count(*) FROM " ++ t;
  q_has_namespace := lit "SELECT 1 FROM " ++ t ++ lit " WHERE ns = %s LIMIT 1";
  q_all_rows := lit "SELECT ns, k, v FROM " ++ t;
  q_insert := lit "INSERT INTO " ++ t ++ lit " (ns, k, v) VALUES (%s, %s, %s)";
|}.

(** ** The store *)

(** The attributes set once: the table (and with it the queries), whether there is
    a DSN, and an async pool. *)
Record PgConfig := {
  pg_table : pystr;
  pg_dsn : bool;
  pg_apool : bool;
}.

(** The server, the snapshot chain, and whether [_pool] and [_conn] are set. *)
Record PostgresStore (C : Type) := {
  pg_server : C;
  pg_meta : SnapshotMeta;
  pg_pool : bool;
  pg_conn : bool;
}.
Arguments pg_server {C}. Arguments pg_meta {C}. Arguments pg_pool {C}. Arguments pg_conn {C}.

Definition set_pg_server {C} (c : C) (s : PostgresStore C) : PostgresStore C :=
  {| pg_server := c; pg_meta := pg_meta s; pg_pool := pg_pool s; pg_conn := pg_conn s |}.
Definition set_pg_meta {C} (m : SnapshotMeta) (s : PostgresStore C) : PostgresStore C :=
  {| pg_server := pg_server s; pg_meta := m; pg_pool := pg_pool s; pg_conn := pg_conn s |}.
Definition set_pg_open {C} (pool conn : bool) (s : PostgresStore C) : PostgresStore C :=
  {| pg_server := pg_server s; pg_meta := pg_meta s; pg_pool := pool; pg_conn := conn |}.

Section Store.
Context {C : Type} {client : PgClient C} (cfg : PgConfig).
Context (pack : pyval → result bytes) (unpack : bytes → result pyval).

Definition pg_queries : Queries := Queries_init (pg_table cfg).

Definition on_pg {A} (m : PyM C A) : PyM (PostgresStore C) A := act (λ s,
  let '(r, c) := m (pg_server s) in (r, set_pg_server c s)).

(** [_connection]: from the pool, or the shared one, which is [None] once closed. *)
Definition connection : PyM (PostgresStore C) unit :=
  s ← gets id; if pg_pool s || pg_conn s then mret tt else raise AttributeError.

Definition pg_run (q : pystr) (ps : list Param) : PyM (PostgresStore C) Cursor :=
  on_pg (pg_execute q ps).

(** [fetchone()] and the first cell of the row, where there is one. *)
Definition fetchone0 (cur : Cursor) : result (option Cell) :=
  match cur_rows cur with
  | [] => Ok None
  | r :: _ => c ← cell0 r; Ok (Some c)
  end.
(** [[r[0] for r in rows]] *)
Definition first_texts (cur : Cursor) : result (list pystr) :=
  mapM (λ r, c ← cell0 r; cell_text c) (cur_rows cur).

(** *** The core API *)

Definition PostgresStore_set (ns k : pystr) (value : pyval) : PyM (PostgresStore C) unit :=
  connection ;;
  v ← lift (pack value);
  pg_run (q_upsert pg_queries) [TextP ns; TextP k; ByteaP v] ;; mret tt.

(** [default if row is None else _unpack(row[0])] *)
Definition unpack_row (default : pyval) (cur : Cursor) : result pyval :=
  c ← fetchone0 cur;
  match c with
  | None => Ok default
  | Some c => raw ← cell_bytes c; unpack raw
  end.

Definition PostgresStore_get (ns k : pystr) (default : pyval) : PyM (PostgresStore C) pyval :=
  connection ;;
  cur ← pg_run (q_get pg_queries) [TextP ns; TextP k];
  lift (unpack_row default cur).

Definition packed_row (i : pystr * pystr * pyval) : result row := v ← pack i.2; Ok (i.1, v).
Definition row_params (r : row) : list Param := [TextP r.1.1; TextP r.1.2; ByteaP r.2].

Definition PostgresStore_set_many (items : list (pystr * pystr * pyval)) : PyM (PostgresStore C) unit :=
  match items with
  | [] => mret tt
  | _ =>
      rows ← lift (mapM packed_row items);
      connection ;;
      on_pg (pg_transaction (pg_executemany (q_upsert pg_queries) (row_params <$> rows)))
  end.

(** [_unzip], [_in_order] *)
Definition unzip (pairs : list (pystr * pystr)) : list Param := [TextsP pairs.*1; TextsP pairs.*2].
Definition in_order (pairs : list (pystr * pystr)) (rows : list (list Cell)) : result (list pyval) :=
  found ← mapM as_row rows;
  mapM (λ p, match od_get (od_of_list found) p with None => Ok PNone | Some v => unpack v end) pairs.

Definition PostgresStore_get_many (pairs : list (pystr * pystr)) : PyM (PostgresStore C) (list pyval) :=
  match pairs with
  | [] => mret []
  | _ =>
      connection ;;
      cur ← pg_run (q_get_many pg_queries) (unzip pairs);
      lift (in_order pairs (cur_rows cur))
  end.

Definition some_row (cur : Cursor) : bool := match cur_rows cur with [] => false | _ => true end.

Definition PostgresStore_contains (ns k : pystr) : PyM (PostgresStore C) bool :=
  connection ;;
  cur ← pg_run (q_contains pg_queries) [TextP ns; TextP k];
  mret (some_row cur).

Definition PostgresStore_delete (ns k : pystr) : PyM (PostgresStore C) bool :=
  connection ;;
  cur ← pg_run (q_delete pg_queries) [TextP ns; TextP k];
  mret (0 <? cur_rowcount cur)%Z.

Definition PostgresStore_delete_many (pairs : list (pystr * pystr)) : PyM (PostgresStore C) Z :=
  match pairs with
  | [] => mret 0%Z
  | _ =>
      connection ;;
      cur ← pg_run (q_delete_many pg_queries) (unzip pairs);
      mret (cur_rowcount cur)
  end.

Definition PostgresStore_delete_namespace (ns : pystr) : PyM (PostgresStore C) Z :=
  connection ;;
  cur ← pg_run (q_delete_namespace pg_queries) [TextP ns];
  mret (cur_rowcount cur).

Definition PostgresStore_keys (ns : pystr) (prefix : option pystr)
    : PyM (PostgresStore C) (list pystr) :=
  connection ;;
  rows ← match prefix with
         | None => pg_run (q_keys pg_queries) [TextP ns]
         | Some p => pg_run (q_keys_prefix pg_queries) [TextP ns; TextP p]
         end;
  lift (first_texts rows).

(** [None if row is None else row[0]]: [max] of no rows is one NULL. *)
Definition max_cell (cur : Cursor) : result (option pystr) :=
  c ← fetchone0 cur;
  match c with
  | None | Some CNull => Ok None
  | Some c => k ← cell_text c; Ok (Some k)
  end.

Definition PostgresStore_max_key (ns : pystr) : PyM (PostgresStore C) (option pystr) :=
  connection ;;
  cur ← pg_run (q_max_key pg_queries) [TextP ns];
  lift (max_cell cur).

Definition PostgresStore_namespaces (prefix : option pystr) : PyM (PostgresStore C) (list pystr) :=
  connection ;;
  rows ← match prefix with
         | None => pg_run (q_namespaces pg_queries) []
         | Some p => pg_run (q_namespaces_prefix pg_queries) [TextP p]
         end;
  lift (first_texts rows).

Definition PostgresStore_clear : PyM (PostgresStore C) unit :=
  connection ;; pg_run (q_clear pg_queries) [] ;; mret tt.

Definition PostgresStore_len : PyM (PostgresStore C) Z :=
  connection ;;
  cur ← pg_run (q_count pg_queries) [];
  lift (c ← fetchone0 cur; c ← or_raise TypeError c; cell_int c).

Definition PostgresStore_has_namespace (ns : pystr) : PyM (PostgresStore C) bool :=
  connection ;;
  cur ← pg_run (q_has_namespace pg_queries) [TextP ns];
  mret (some_row cur).

(** *** Snapshots, closing *)

Definition PostgresStore_snapshot (now : Z) : PyM (PostgresStore C) CopySnapshot :=
  connection ;;
  cur ← pg_run (q_all_rows pg_queries) [];
  rows ← lift (mapM as_row (cur_rows cur));
  act (λ s, let '(meta, m') := SnapshotMeta_next now (pg_meta s) in
            (Ok (CopySnapshot_init rows meta), set_pg_meta m' s)).

Definition PostgresStore_restore (snapshot : CopySnapshot) : PyM (PostgresStore C) unit :=
  connection ;;
  on_pg (pg_transaction (
    pg_execute (q_clear pg_queries) [] ;;
    pg_executemany (q_insert pg_queries) (row_params <$> snap_rows snapshot))).

Definition PostgresStore_close : PyM (PostgresStore C) unit :=
  s ← gets id;
  if pg_pool s then on_pg pg_shut ;; modify (set_pg_open false (pg_conn s))
  else if pg_conn s then on_pg pg_shut ;; modify (set_pg_open false false)
  else mret tt.

(** *** The async twins, on a pool of the same server *)

Definition PostgresStore_supports_async : bool := pg_apool cfg || pg_dsn cfg.

(** [_aconnection], [_open_async] *)
Definition aconnection : PyM (PostgresStore C) unit :=
  if pg_apool cfg then mret tt else if pg_dsn cfg then mret tt else raise RuntimeError.

Definition PostgresStore_aset (ns k : pystr) (value : pyval) : PyM (PostgresStore C) unit :=
  aconnection ;;
  v ← lift (pack value);
  pg_run (q_upsert pg_queries) [TextP ns; TextP k; ByteaP v] ;; mret tt.

Definition PostgresStore_aget (ns k : pystr) (default : pyval) : PyM (PostgresStore C) pyval :=
  aconnection ;;
  cur ← pg_run (q_get pg_queries) [TextP ns; TextP k];
  lift (unpack_row default cur).

Definition PostgresStore_aset_many (items : list (pystr * pystr * pyval)) : PyM (PostgresStore C) unit :=
  match items with
  | [] => mret tt
  | _ =>
      rows ← lift (mapM packed_row items);
      aconnection ;;
      on_pg (pg_transaction (pg_executemany (q_upsert pg_queries) (row_params <$> rows)))
  end.

Definition PostgresStore_aget_many (pairs : list (pystr * pystr)) : PyM (PostgresStore C) (list pyval) :=
  match pairs with
  | [] => mret []
  | _ =>
      aconnection ;;
      cur ← pg_run (q_get_many pg_queries) (unzip pairs);
      lift (in_order pairs (cur_rows cur))
  end.

Definition PostgresStore_acontains (ns k : pystr) : PyM (PostgresStore C) bool :=
  aconnection ;;
  cur ← pg_run (q_contains pg_queries) [TextP ns; TextP k];
  mret (some_row cur).

Definition PostgresStore_adelete (ns k : pystr) : PyM (PostgresStore C) bool :=
  aconnection ;;
  cur ← pg_run (q_delete pg_queries) [TextP ns; TextP k];
  mret (0 <? cur_rowcount cur)%Z.

Definition PostgresStore_adelete_many (pairs : list (pystr * pystr)) : PyM (PostgresStore C) Z :=
  match pairs with
  | [] => mret 0%Z
  | _ =>
      aconnection ;;
      cur ← pg_run (q_delete_many pg_queries) (unzip pairs);
      mret (cur_rowcount cur)
  end.

Definition PostgresStore_adelete_namespace (ns : pystr) : PyM (PostgresStore C) Z :=
  aconnection ;;
  cur ← pg_run (q_delete_namespace pg_queries) [TextP ns];
  mret (cur_rowcount cur).

Definition PostgresStore_akeys (ns : pystr) (prefix : option pystr)
    : PyM (PostgresStore C) (list pystr) :=
  aconnection ;;
  rows ← match prefix with
         | None => pg_run (q_keys pg_queries) [TextP ns]
         | Some p => pg_run (q_keys_prefix pg_queries) [TextP ns; TextP p]
         end;
  lift (first_texts rows).

Definition PostgresStore_amax_key (ns : pystr) : PyM (PostgresStore C) (option pystr) :=
  aconnection ;;
  cur ← pg_run (q_max_key pg_queries) [TextP ns];
  lift (max_cell cur).

Definition PostgresStore_anamespaces (prefix : option pystr) : PyM (PostgresStore C) (list pystr) :=
  aconnection ;;
  rows ← match prefix with
         | None => pg_run (q_namespaces pg_queries) []
         | Some p => pg_run (q_namespaces_prefix pg_queries) [TextP p]
         end;
  lift (first_texts rows).

Definition postgres_ops : StoreOps (PostgresStore C) := {|
  op_set := PostgresStore_set;
  op_get ns k := PostgresStore_get ns k PNone;
  op_contains := PostgresStore_contains;
  op_delete := PostgresStore_delete;
  op_keys := PostgresStore_keys;
  op_max_key := PostgresStore_max_key;
  op_namespaces := PostgresStore_namespaces;
  op_set_many := Some PostgresStore_set_many;
  op_get_many := Some PostgresStore_get_many;
  op_delete_many := Some PostgresStore_delete_many;
  op_delete_namespace := Some PostgresStore_delete_namespace;
  op_indexed_max_key := true;
  op_supports_async := PostgresStore_supports_async;
|}.

(** The async interface, as a store whose operations are the twins. *)
Definition apostgres_ops : StoreOps (PostgresStore C) := {|
  op_set := PostgresStore_aset;
  op_get ns k := PostgresStore_aget ns k PNone;
  op_contains := PostgresStore_acontains;
  op_delete := PostgresStore_adelete;
  op_keys := PostgresStore_akeys;
  op_max_key := PostgresStore_amax_key;
  op_namespaces := PostgresStore_anamespaces;
  op_set_many := Some PostgresStore_aset_many;
  op_get_many := Some PostgresStore_aget_many;
  op_delete_many := Some PostgresStore_adelete_many;
  op_delete_namespace := Some PostgresStore_adelete_namespace;
  op_indexed_max_key := true;
  op_supports_async := PostgresStore_supports_async;
|}.
End Store.

(** [__init__] with [_make_pool]: the checks, the connections (a pool from the DSN
    where [psycopg_pool] is installed, else one connection), and the table. *)
Definition PostgresStore_init {C} `{!PgClient C} (psycopg_pool conn pool apool : bool)
    (table codec : pystr) (c : C) : result (PgConfig * PostgresStore C) :=
  if negb (str_eqb codec (lit "msgpack")) then Raise ValueError
  else if negb (is_ident table) then Raise ValueError
  else
    let dsn := negb conn && negb pool in
    let cfg := {| pg_table := table; pg_dsn := dsn; pg_apool := apool |} in
    let s := {| pg_server := c; pg_meta := SnapshotMeta_init;
                pg_pool := if dsn then psycopg_pool else pool;
                pg_conn := if dsn then negb psycopg_pool else conn |} in
    match (connection ;; pg_run (q_create (pg_queries cfg)) []) s with
    | (Ok _, s') => Ok (cfg, s')
    | (Raise e, _) => Raise e
    | (OutOfFuel, _) => OutOfFuel
    end.

(** A table name that ends in a newline passes the check. *)
Example is_ident_cases :
  is_ident <$> [lit "swarmstate_kv"; lit "_t2"; lit "2t"; lit "a b"; []; lit "kv" ++ [10%N]; 10%N :: lit "kv"] =
  [true; true; false; false; false; true; false].
Proof. reflexivity. Qed.

Example q_get_text :
  q_get (Queries_init (lit "kv")) = lit "SELECT v FROM kv WHERE ns = %s AND k = %s".
Proof. reflexivity. Qed.
