(* ===== verification/Sql.v ===== *)
(** * The SQL of the Postgres store

    The statements [_Queries] is written in, as an abstract syntax: its text with
    [%s] placeholders ([sql_text]) and its documented meaning over the rows of one
    table ([sql_effect], [sql_reply]), clause by clause and for every statement of
    the syntax. Nothing here knows what the store asks for: which statement each
    text of [Queries_init] is gets proved in [PostgresLaws]. *)

From S2P Require Import Prelude PyValue Codec Store Snapshot WireRows Postgres.

(** ** Syntax *)

(** The key columns, and all of them. *)
Inductive KeyCol := KNs | KK.
Inductive Col := ColKey (c : KeyCol) | ColV.

#[export] Instance KeyCol_dec : EqDecision KeyCol.
Proof. solve_decision. Defined.
#[export] Instance Col_dec : EqDecision Col.
Proof. solve_decision. Defined.

(** A condition on a key column with one placeholder; conditions strung together
    bind as SQL has it, AND before OR. *)
Inductive Cond := CondEq (c : KeyCol) | CondNe (c : KeyCol) | CondStarts (c : KeyCol).
Inductive Conn := ConnAnd | ConnOr.
Abbreviation Where := (option (Cond * list (Conn * Cond))).

Inductive Sel :=
  | SelCols (c : Col) (cs : list Col)
  | SelOne
  | SelMax (c : KeyCol)
  | SelMin (c : KeyCol)
  | SelCount.

Inductive ConflictAction := DoNothing | DoUpdate.

(** A column of CREATE TABLE: type, [COLLATE "C"], [NOT NULL]. *)
Inductive ColType := TyText | TyBytea.
Record ColDef := { def_type : ColType; def_collate_c : bool; def_not_null : bool }.
Record Schema := { sch_ns : ColDef; sch_k : ColDef; sch_v : ColDef; sch_pkey : option (KeyCol * list KeyCol) }.

(** [unnest(%s::text[], %s::text[]) AS q(a, b)], and [t.a = q.b AND ...]. *)
Abbreviation Unnest := (KeyCol * KeyCol)%type.
Abbreviation JoinOn := ((KeyCol * KeyCol) * list (KeyCol * KeyCol))%type.

Inductive Sql :=
  | Select (distinct : bool) (sel : Sel) (w : Where) (limit_1 : bool)
  | SelectJoin (c : Col) (cs : list Col) (q : Unnest) (on : JoinOn)
  | DeleteFrom (w : Where)
  | DeleteUsing (q : Unnest) (on : JoinOn)
  | InsertInto (c : Col) (cs : list Col) (conflict : option ((KeyCol * list KeyCol) * ConflictAction))
  | CreateTable (sch : Schema).

(** ** Text *)

Definition key_text (c : KeyCol) : pystr := match c with KNs => lit "ns" | KK => lit "k" end.
Definition col_text (c : Col) : pystr := match c with ColKey c => key_text c | ColV => lit "v" end.

Definition comma_key (c : KeyCol) : pystr := lit ", " ++ key_text c.
Definition comma_col (c : Col) : pystr := lit ", " ++ col_text c.
Definition tcol_text (c : Col) : pystr := lit "t." ++ col_text c.
Definition comma_tcol (c : Col) : pystr := lit ", " ++ tcol_text c.

Definition cond_text (c : Cond) : pystr :=
  match c with
  | CondEq c => key_text c ++ lit " = %s"
  | CondNe c => key_text c ++ lit " <> %s"
  | CondStarts c => lit "starts_with(" ++ key_text c ++ lit ", %s)"
  end.
Definition conn_text (x : Conn * Cond) : pystr :=
  match x.1 with ConnAnd => lit " AND " | ConnOr => lit " OR " end ++ cond_text x.2.
Definition where_text (w : Where) : pystr :=
  match w with
  | None => []
  | Some (c, l) => lit " WHERE " ++ cond_text c ++ (l ≫= conn_text)
  end.

Definition sel_text (s : Sel) : pystr :=
  match s with
  | SelCols c cs => col_text c ++ (cs ≫= comma_col)
  | SelOne => lit "1"
  | SelMax c => lit "max(" ++ key_text c ++ lit ")"
  | SelMin c => lit "min(" ++ key_text c ++ lit ")"
  | SelCount => lit "count(*)"
  end.

Definition unnest_text (q : Unnest) : pystr :=
  lit "unnest(%s::text[], %s::text[]) AS q(" ++ key_text q.1 ++ lit ", " ++ key_text q.2 ++ lit ")".
Definition eq_text (e : KeyCol * KeyCol) : pystr :=
  lit "t." ++ key_text e.1 ++ lit " = q." ++ key_text e.2.
Definition and_eq (e : KeyCol * KeyCol) : pystr := lit " AND " ++ eq_text e.
Definition on_text (on : JoinOn) : pystr := eq_text on.1 ++ (on.2 ≫= and_eq).

Definition keys_text (l : KeyCol * list KeyCol) : pystr :=
  lit "(" ++ key_text l.1 ++ (l.2 ≫= comma_key) ++ lit ")".

Definition conflict_text (c : option ((KeyCol * list KeyCol) * ConflictAction)) : pystr :=
  match c with
  | None => []
  | Some (target, a) => lit " ON CONFLICT " ++ keys_text target ++
      match a with DoNothing => lit " DO NOTHING" | DoUpdate => lit " DO UPDATE SET v = EXCLUDED.v" end
  end.

Definition def_text (d : ColDef) : pystr :=
  match def_type d with TyText => lit "text" | TyBytea => lit "bytea" end ++
  (if def_collate_c d then lit " COLLATE " ++ 34%N :: lit "C" ++ [34%N] else []) ++
  (if def_not_null d then lit " NOT NULL" else []).
Definition pkey_text (o : option (KeyCol * list KeyCol)) : pystr :=
  match o with None => [] | Some l => lit ", PRIMARY KEY " ++ keys_text l end.

(** One placeholder for each column. *)
Definition more_values (cs : list Col) : pystr := cs ≫= (λ _, lit ", %s").

(** The statement for the table [t]. *)
Definition sql_text (t : pystr) (s : Sql) : pystr :=
  match s with
  | Select distinct sel w limit_1 =>
      lit "SELECT " ++ (if distinct then lit "DISTINCT " else []) ++ sel_text sel ++
      lit " FROM " ++ t ++ where_text w ++ (if limit_1 then lit " LIMIT 1" else [])
  | SelectJoin c cs q on =>
      lit "SELECT " ++ tcol_text c ++ (cs ≫= comma_tcol) ++ lit " FROM " ++ t ++ lit " t JOIN " ++
      unnest_text q ++ lit " ON " ++ on_text on
  | DeleteFrom w => lit "DELETE FROM " ++ t ++ where_text w
  | DeleteUsing q on => lit "DELETE FROM " ++ t ++ lit " t USING " ++ unnest_text q ++ lit " WHERE " ++ on_text on
  | InsertInto c cs conflict =>
      lit "INSERT INTO " ++ t ++ lit " (" ++ col_text c ++ (cs ≫= comma_col) ++ lit ") VALUES (%s" ++
      more_values cs ++ lit ")" ++ conflict_text conflict
  | CreateTable sch =>
      lit "CREATE TABLE IF NOT EXISTS " ++ t ++ lit " (ns " ++ def_text (sch_ns sch) ++
      lit ", k " ++ def_text (sch_k sch) ++ lit ", v " ++ def_text (sch_v sch) ++
      pkey_text (sch_pkey sch) ++ lit ")"
  end.

(** ** Meaning *)

Definition key_of (c : KeyCol) (p : pystr * pystr) : pystr := match c with KNs => p.1 | KK => p.2 end.
Definition col_cell (c : Col) (r : row) : Cell :=
  match c with ColKey c => CText (key_of c r.1) | ColV => CBytea r.2 end.

Definition cond_holds (c : Cond) (x : pystr) (p : pystr * pystr) : bool :=
  match c with
  | CondEq c => str_eqb (key_of c p) x
  | CondNe c => negb (str_eqb (key_of c p) x)
  | CondStarts c => starts_with x (key_of c p)
  end.

(** The conditions after one that evaluated to [acc], each with its parameter. *)
Fixpoint conds_hold (acc : bool) (l : list (Conn * Cond)) (xs : list pystr) (p : pystr * pystr) : bool :=
  match l, xs with
  | (ConnAnd, c) :: l', x :: xs' => conds_hold (acc && cond_holds c x p) l' xs' p
  | (ConnOr, c) :: l', x :: xs' => acc || conds_hold (cond_holds c x p) l' xs' p
  | _, _ => acc
  end.

Definition where_holds (w : Where) (xs : list pystr) (p : pystr * pystr) : bool :=
  match w, xs with
  | Some (c, l), x :: xs' => conds_hold (cond_holds c x p) l xs' p
  | _, _ => true
  end.

Definition param_texts (ps : list Param) : list pystr :=
  omap (λ p, match p with TextP s => Some s | _ => None end) ps.

(** The rows a WHERE clause keeps. *)
Definition hits (w : Where) (ps : list Param) (t : table) : list row :=
  filter (λ r, where_holds w (param_texts ps) r.1 = true) (map_to_list t).

(** [COLLATE "C"] compares by code point, as Python does. *)
Definition text_min (l : list pystr) : option pystr :=
  foldr (λ x o, Some (match o with None => x | Some y => if str_leb x y then x else y end)) None l.
Definition opt_text (o : option pystr) : Cell := match o with Some s => CText s | None => CNull end.

Definition select_rows (sel : Sel) (l : list row) : list (list Cell) :=
  match sel with
  | SelCols c cs => (λ r, (λ c, col_cell c r) <$> c :: cs) <$> l
  | SelOne => (λ _, [CInt 1]) <$> l
  | SelMax c => [[opt_text (py_max ((λ r, key_of c r.1) <$> l))]]
  | SelMin c => [[opt_text (text_min ((λ r, key_of c r.1) <$> l))]]
  | SelCount => [[CInt (Z.of_nat (length l))]]
  end.

(** The rows of [unnest], and those a row of the table joins with. *)
Definition unnest_rows (q : Unnest) (ps : list Param) : list (pystr * pystr) :=
  match ps with
  | [TextsP a; TextsP b] => zip a b
  | _ => []
  end.
Definition unnest_col (q : Unnest) (c : KeyCol) (x : pystr * pystr) : pystr :=
  if decide (q.1 = c) then x.1 else x.2.
Definition joins (q : Unnest) (on : JoinOn) (p x : pystr * pystr) : bool :=
  forallb (λ e, str_eqb (key_of e.1 p) (unnest_col q e.2 x)) (on.1 :: on.2).

Definition join_rows (cols : list Col) (q : Unnest) (on : JoinOn) (ps : list Param) (t : table)
    : list (list Cell) :=
  map_to_list t ≫= λ r,
    (λ _, (λ c, col_cell c r) <$> cols) <$> filter (λ x, joins q on r.1 x = true) (unnest_rows q ps).

(** The row an INSERT writes: each column's parameter. *)
Fixpoint col_param (c : Col) (cols : list Col) (ps : list Param) : option Param :=
  match cols, ps with
  | c' :: cols', x :: ps' => if decide (c = c') then Some x else col_param c cols' ps'
  | _, _ => None
  end.
Definition insert_row (cols : list Col) (ps : list Param) : option row :=
  match col_param (ColKey KNs) cols ps, col_param (ColKey KK) cols ps, col_param ColV cols ps with
  | Some (TextP ns), Some (TextP k), Some (ByteaP v) => Some (ns, k, v)
  | _, _, _ => None
  end.

(** The rows a statement leaves, in a table keyed on [(ns, k)]. *)
Definition sql_effect (s : Sql) (ps : list Param) (t : table) : table :=
  match s with
  | DeleteFrom w => filter (λ e, where_holds w (param_texts ps) e.1 = false) t
  | DeleteUsing q on => filter (λ e, existsb (joins q on e.1) (unnest_rows q ps) = false) t
  | InsertInto c cs conflict =>
      match insert_row (c :: cs) ps with
      | None => t
      | Some r => match conflict, t !! r.1 with
                  | Some (_, DoNothing), Some _ => t
                  | _, _ => <[r.1 := r.2]> t
                  end
      end
  | Select _ _ _ _ | SelectJoin _ _ _ _ | CreateTable _ => t
  end.

(** What it answers, on the rows it finds: rows come in any order, DISTINCT makes
    each come once, a LIMIT keeps the first; a DELETE counts the rows it removed. *)
Definition sql_reply (s : Sql) (ps : list Param) (t : table) (cur : Cursor) : Prop :=
  match s with
  | Select distinct sel w limit_1 => ∃ l,
      (if distinct : bool then NoDup l ∧ ∀ x, x ∈ l ↔ x ∈ select_rows sel (hits w ps t)
       else l ≡ₚ select_rows sel (hits w ps t)) ∧
      cur_rows cur = if limit_1 : bool then take 1 l else l
  | SelectJoin c cs q on => cur_rows cur ≡ₚ join_rows (c :: cs) q on ps t
  | DeleteFrom _ | DeleteUsing _ _ => cur_rowcount cur = kv_removed t (sql_effect s ps t)
  | InsertInto _ _ _ | CreateTable _ => True
  end.

(** ** What a statement asks for *)

(** The layout of the store's table: [(ns text, k text, v bytea, primary key (ns, k))]
    with [ns] and [k] in [COLLATE "C"]. *)
Definition name_def : ColDef := {| def_type := TyText; def_collate_c := true; def_not_null := true |}.
Definition kv_schema : Schema := {|
  sch_ns := name_def; sch_k := name_def;
  sch_v := {| def_type := TyBytea; def_collate_c := false; def_not_null := true |};
  sch_pkey := Some (KNs, [KK]);
|}.

(** Only text collates, and a key names a column once. *)
Definition schema_valid (sch : Schema) : Prop :=
  Forall (λ d, def_collate_c d = true → def_type d = TyText) [sch_ns sch; sch_k sch; sch_v sch] ∧
  from_option (λ l, NoDup (l.1 :: l.2)) True (sch_pkey sch).

Definition is_text (p : Param) : bool := match p with TextP _ => true | _ => false end.
Definition where_length (w : Where) : nat := match w with None => 0 | Some (_, l) => S (length l) end.

(** One parameter for each placeholder, of its type; an INSERT gives every column,
    and names the primary key where it says ON CONFLICT. *)
Definition sql_typed (s : Sql) (ps : list Param) : bool :=
  match s with
  | Select _ _ w _ | DeleteFrom w => forallb is_text ps && (length ps =? where_length w)%nat
  | SelectJoin _ _ q _ | DeleteUsing q _ =>
      match ps with [TextsP a; TextsP b] => (length a =? length b)%nat | _ => false end && bool_decide (q.1 ≠ q.2)
  | InsertInto c cs conflict =>
      (length ps =? 3)%nat && (length cs =? 2)%nat && bool_decide (is_Some (insert_row (c :: cs) ps)) &&
      match conflict with None => true | Some (target, _) => bool_decide (target.1 :: target.2 ≡ₚ [KNs; KK]) end
  | CreateTable _ => false
  end.

(** The texts of a parameter, all of which have to be names the server takes. *)
Definition param_names (p : Param) : list pystr :=
  match p with TextP s => [s] | TextsP l => l | ByteaP _ => [] end.

Definition sql_takes (P : pystr → Prop) (s : Sql) (ps : list Param) (t : table) : Prop :=
  sql_typed s ps = true ∧ Forall P (ps ≫= param_names) ∧
  match s with
  | InsertInto c cs None => from_option (λ r, t !! r.1 = None) False (insert_row (c :: cs) ps)
  | _ => True
  end.

(** The same statement over and over, each on what the last left. *)
Fixpoint sql_takes_all (P : pystr → Prop) (s : Sql) (pss : list (list Param)) (t : table) : Prop :=
  match pss with
  | [] => True
  | ps :: pss' => sql_takes P s ps t ∧ sql_takes_all P s pss' (sql_effect s ps t)
  end.
Definition sql_effects (s : Sql) (pss : list (list Param)) (t : table) : table :=
  foldl (λ t ps, sql_effect s ps t) t pss.
