(* ===== verification/SqlParse.v ===== *)
(** * Reading SQL back

    A reader of the statements of [Sql]: every text [sql_text] writes for a table
    is read back as the statement it was written for. The server in memory of
    [PostgresFake] executes what this reader makes of a text. *)

From S2P Require Import Prelude PyValue Codec Store Snapshot WireRows Postgres Sql.

(** ** Readers *)

Abbreviation Reader A := (pystr → option (A * pystr)).

Fixpoint strip (p s : pystr) : option pystr :=
  match p, s with
  | [], _ => Some s
  | x :: p', y :: s' => if (x =? y)%N then strip p' s' else None
  | _ :: _, [] => None
  end.

(** What follows a keyword. *)
Definition after {A} (p : pystr) (r : Reader A) : Reader A := λ s, s' ← strip p s; r s'.
Definition word {A} (p : pystr) (a : A) : Reader A := λ s, s' ← strip p s; Some (a, s').
Definition or_else {A} (r1 r2 : Reader A) : Reader A := λ s, match r1 s with Some x => Some x | None => r2 s end.
Definition then_ {A B} (r : Reader A) (f : A → Reader B) : Reader B := λ s, '(a, s') ← r s; f a s'.

(** As many as there are, at most [n]. *)
Fixpoint many {A} (r : Reader A) (n : nat) (s : pystr) : list A * pystr :=
  match n with
  | 0 => ([], s)
  | S n' => match r s with
            | None => ([], s)
            | Some (x, s') => let '(l, s'') := many r n' s' in (x :: l, s'')
            end
  end.
(** [r] reads what [f] writes. *)
Definition reads {A} (r : Reader A) (f : A → pystr) : Prop := ∀ a rest, r (f a ++ rest) = Some (a, rest).

Lemma strip_app p s : strip p (p ++ s) = Some s.
Proof. induction p as [|x p IH]; [done|]. cbn. by rewrite N.eqb_refl. Qed.

Lemma many_reads {A} (r : Reader A) (f : A → pystr) (l : list A) (n : nat) rest :
  reads r f → r rest = None → length l ≤ n → many r n ((l ≫= f) ++ rest) = (l, rest).
Proof.
  intros Hr Hend. revert n. induction l as [|x l IH]; intros n Hn.
  - destruct n as [|n]; cbn; [done|]. by rewrite Hend.
  - destruct n as [|n]; cbn in Hn; [lia|]. cbn [mbind list_bind many]. rewrite <-app_assoc, Hr.
    fold (l ≫= f). by rewrite IH by lia.
Qed.

(** A list whose items take at least a character each is no longer than its text. *)
Lemma bind_length {A} (f : A → pystr) (l : list A) rest :
  (∀ a, f a ≠ []) → length l ≤ length ((l ≫= f) ++ rest).
Proof.
  intros Hf. rewrite length_app. enough (length l ≤ length (l ≫= f)) by lia.
  induction l as [|x l IH]; [done|]. cbn [mbind list_bind length]. rewrite length_app. fold (l ≫= f).
  specialize (Hf x). destruct (f x); [done|]. cbn. lia.
Qed.

Definition many_of {A} (r : Reader A) : Reader (list A) := λ s, Some (many r (length s) s).

Lemma many_of_reads {A} (r : Reader A) (f : A → pystr) (l : list A) rest :
  reads r f → (∀ a, f a ≠ []) → r rest = None → many_of r ((l ≫= f) ++ rest) = Some (l, rest).
Proof. intros Hr Hf Hend. unfold many_of. f_equal. apply many_reads; [done..|]. by apply bind_length. Qed.

(** ** The pieces of a statement *)

Definition read_key : Reader KeyCol := or_else (word (lit "ns") KNs) (word (lit "k") KK).
Definition read_col : Reader Col := or_else (word (lit "ns") (ColKey KNs))
  (or_else (word (lit "k") (ColKey KK)) (word (lit "v") ColV)).
Definition read_tcol : Reader Col := after (lit "t.") read_col.

Definition read_cond : Reader Cond :=
  or_else
    (after (lit "starts_with(") (then_ read_key (λ c, word (lit ", %s)") (CondStarts c))))
    (then_ read_key (λ c, or_else (word (lit " = %s") (CondEq c)) (word (lit " <> %s") (CondNe c)))).
Definition read_conn : Reader (Conn * Cond) :=
  or_else (after (lit " AND ") (then_ read_cond (λ c s, Some ((ConnAnd, c), s))))
    (after (lit " OR ") (then_ read_cond (λ c s, Some ((ConnOr, c), s)))).
Definition read_where : Reader Where :=
  or_else
    (after (lit " WHERE ") (then_ read_cond (λ c, then_ (many_of read_conn) (λ l s, Some (Some (c, l), s)))))
    (λ s, Some (None, s)).

Definition read_sel : Reader Sel :=
  or_else (word (lit "1") SelOne)
  (or_else (after (lit "max(") (then_ read_key (λ c, word (lit ")") (SelMax c))))
  (or_else (after (lit "min(") (then_ read_key (λ c, word (lit ")") (SelMin c))))
  (or_else (word (lit "count(*)") SelCount)
    (then_ read_col (λ c, then_ (many_of (after (lit ", ") read_col)) (λ cs s, Some (SelCols c cs, s))))))).

Definition read_unnest : Reader Unnest :=
  after (lit "unnest(%s::text[], %s::text[]) AS q(") (then_ read_key (λ a,
    after (lit ", ") (then_ read_key (λ b, word (lit ")") (a, b))))).
Definition read_eq : Reader (KeyCol * KeyCol) :=
  after (lit "t.") (then_ read_key (λ a, after (lit " = q.") (then_ read_key (λ b s, Some ((a, b), s))))).
Definition read_on : Reader JoinOn :=
  then_ read_eq (λ e, then_ (many_of (after (lit " AND ") read_eq)) (λ l s, Some ((e, l), s))).

Definition read_keys : Reader (KeyCol * list KeyCol) :=
  after (lit "(") (then_ read_key (λ c, then_ (many_of (after (lit ", ") read_key)) (λ cs,
    word (lit ")") (c, cs)))).

Definition read_conflict : Reader (option ((KeyCol * list KeyCol) * ConflictAction)) :=
  or_else
    (after (lit " ON CONFLICT ") (then_ read_keys (λ l,
      or_else (word (lit " DO NOTHING") (Some (l, DoNothing)))
        (word (lit " DO UPDATE SET v = EXCLUDED.v") (Some (l, DoUpdate))))))
    (λ s, Some (None, s)).

Definition read_type : Reader ColType := or_else (word (lit "text") TyText) (word (lit "bytea") TyBytea).
Definition read_flag (p : pystr) : Reader bool := or_else (word p true) (λ s, Some (false, s)).
Definition read_def : Reader ColDef :=
  then_ read_type (λ ty, then_ (read_flag (lit " COLLATE " ++ 34%N :: lit "C" ++ [34%N])) (λ c,
    then_ (read_flag (lit " NOT NULL")) (λ n s,
      Some ({| def_type := ty; def_collate_c := c; def_not_null := n |}, s)))).
Definition read_pkey : Reader (option (KeyCol * list KeyCol)) :=
  or_else (after (lit ", PRIMARY KEY ") (then_ read_keys (λ l s, Some (Some l, s)))) (λ s, Some (None, s)).

(** ** Statements *)

Section Table.
Context (t : pystr).

Definition read_select : Reader Sql :=
  then_ (read_flag (lit "DISTINCT ")) (λ d, then_ read_sel (λ sel,
    after (lit " FROM ") (after t (then_ read_where (λ w, then_ (read_flag (lit " LIMIT 1")) (λ lim s,
      Some (Select d sel w lim, s))))))).
Definition read_join : Reader Sql :=
  then_ read_tcol (λ c, then_ (many_of (after (lit ", ") read_tcol)) (λ cs,
    after (lit " FROM ") (after t (after (lit " t JOIN ") (then_ read_unnest (λ q,
      after (lit " ON ") (then_ read_on (λ on s, Some (SelectJoin c cs q on, s))))))))).
Definition read_delete : Reader Sql :=
  after t (or_else
    (after (lit " t USING ") (then_ read_unnest (λ q, after (lit " WHERE ") (then_ read_on (λ on s,
      Some (DeleteUsing q on, s))))))
    (then_ read_where (λ w s, Some (DeleteFrom w, s)))).
Definition read_insert : Reader Sql :=
  after t (after (lit " (") (then_ read_col (λ c, then_ (many_of (after (lit ", ") read_col)) (λ cs,
    after (lit ") VALUES (%s") (after (more_values cs) (after (lit ")") (then_ read_conflict (λ o s,
      Some (InsertInto c cs o, s))))))))).
Definition read_create : Reader Sql :=
  after t (after (lit " (ns ") (then_ read_def (λ a, after (lit ", k ") (then_ read_def (λ b,
    after (lit ", v ") (then_ read_def (λ c, then_ read_pkey (λ l, word (lit ")")
      (CreateTable {| sch_ns := a; sch_k := b; sch_v := c; sch_pkey := l |}))))))))).

Definition read_sql : Reader Sql :=
  or_else (after (lit "SELECT ") (or_else read_join read_select))
  (or_else (after (lit "DELETE FROM ") read_delete)
  (or_else (after (lit "INSERT INTO ") read_insert)
    (after (lit "CREATE TABLE IF NOT EXISTS ") read_create))).

(** The whole of a text. *)
Definition parse_sql (text : pystr) : option Sql :=
  match read_sql text with Some (s, []) => Some s | _ => None end.
End Table.

(** ** Reading what was written *)

Lemma after_app {A} p (r : Reader A) s : after p r (p ++ s) = r s.
Proof. unfold after. by rewrite strip_app. Qed.

Lemma key_reads : reads read_key key_text.
Proof. intros [] rest; reflexivity. Qed.
Lemma col_reads : reads read_col col_text.
Proof. intros [[]|] rest; reflexivity. Qed.
Lemma comma_key_reads : reads (after (lit ", ") read_key) comma_key.
Proof. intros [] rest; reflexivity. Qed.
Lemma comma_col_reads : reads (after (lit ", ") read_col) comma_col.
Proof. intros [[]|] rest; reflexivity. Qed.
Lemma tcol_reads : reads read_tcol tcol_text.
Proof. intros [[]|] rest; reflexivity. Qed.
Lemma comma_tcol_reads : reads (after (lit ", ") read_tcol) comma_tcol.
Proof. intros [[]|] rest; reflexivity. Qed.
Lemma cond_reads : reads read_cond cond_text.
Proof. intros [[]|[]|[]] rest; reflexivity. Qed.
Lemma conn_reads : reads read_conn conn_text.
Proof. intros [[] [[]|[]|[]]] rest; reflexivity. Qed.
Lemma unnest_reads : reads read_unnest unnest_text.
Proof. intros [[] []] rest; reflexivity. Qed.
Lemma eq_reads : reads read_eq eq_text.
Proof. intros [[] []] rest; reflexivity. Qed.
Lemma and_eq_reads : reads (after (lit " AND ") read_eq) and_eq.
Proof. intros [[] []] rest; reflexivity. Qed.
Lemma def_reads d c rest : c = 44%N ∨ c = 41%N → read_def (def_text d ++ c :: rest) = Some (d, c :: rest).
Proof. by destruct d as [[] [] []]; intros [-> | ->]. Qed.

Lemma then_app {A B} (r : Reader A) (k : A → Reader B) a (x rest : pystr) :
  r (x ++ rest) = Some (a, rest) → then_ r k (x ++ rest) = k a rest.
Proof. intros H. unfold then_. by rewrite H. Qed.
Lemma or_else_r {A} (r1 r2 : Reader A) s : r1 s = None → or_else r1 r2 s = r2 s.
Proof. intros H. unfold or_else. by rewrite H. Qed.
Lemma or_else_l {A} (r1 r2 : Reader A) s x : r1 s = Some x → or_else r1 r2 s = Some x.
Proof. intros H. unfold or_else. by rewrite H. Qed.
Lemma word_app {A} p (a : A) s : word p a (p ++ s) = Some (a, s).
Proof. unfold word. by rewrite strip_app. Qed.

Lemma many_then {A B} (r : Reader A) (f : A → pystr) (k : list A → Reader B) l rest :
  reads r f → (∀ a, f a ≠ []) → r rest = None →
  then_ (many_of r) k ((l ≫= f) ++ rest) = k l rest.
Proof. intros. apply then_app. by apply (many_of_reads r f). Qed.

Lemma where_reads w rest :
  rest = [] ∨ rest = lit " LIMIT 1" → read_where (where_text w ++ rest) = Some (w, rest).
Proof.
  intros Hrest. destruct w as [[c l]|]; [|by destruct Hrest as [-> | ->]].
  unfold read_where, where_text. apply or_else_l. rewrite <-!app_assoc, after_app.
  rewrite (then_app _ _ c) by apply cond_reads. rewrite (many_then read_conn conn_text); [done| | |].
  - apply conn_reads.
  - by intros [[] [[]|[]|[]]].
  - by destruct Hrest as [-> | ->].
Qed.

Lemma sel_reads sel c rest : c = 32%N → read_sel (sel_text sel ++ c :: rest) = Some (sel, c :: rest).
Proof.
  intros ->. destruct sel as [c cs| |[]|[]|]; try reflexivity.
  unfold read_sel, sel_text. rewrite <-app_assoc. do 4 (rewrite or_else_r by by destruct c as [[]|]).
  rewrite (then_app _ _ c) by apply col_reads. rewrite (many_then _ comma_col); [done|apply comma_col_reads|by intros [[]|]|done].
Qed.

Lemma keys_reads l rest : read_keys (keys_text l ++ rest) = Some (l, rest).
Proof.
  destruct l as [c cs]. unfold read_keys, keys_text. cbn [fst snd].
  rewrite <-!app_assoc, after_app, (then_app _ _ c) by apply key_reads.
  rewrite (many_then _ comma_key); [by rewrite word_app|apply comma_key_reads|by intros []|done].
Qed.

Lemma on_reads on : read_on (on_text on ++ []) = Some (on, []).
Proof.
  destruct on as [e l]. unfold read_on, on_text. cbn [fst snd].
  rewrite <-!app_assoc, (then_app _ _ e) by apply eq_reads.
  rewrite (many_then _ and_eq); [done|apply and_eq_reads|by intros [[] []]|done].
Qed.

Lemma conflict_reads c : read_conflict (conflict_text c ++ []) = Some (c, []).
Proof.
  destruct c as [[l a]|]; [|done]. unfold read_conflict, conflict_text.
  apply or_else_l. rewrite <-!app_assoc, after_app, (then_app _ _ l) by apply keys_reads. by destruct a.
Qed.

Lemma pkey_reads o c : c = lit ")" → read_pkey (pkey_text o ++ c) = Some (o, c).
Proof.
  intros ->. destruct o as [l|]; [|done]. unfold read_pkey, pkey_text.
  apply or_else_l. rewrite <-!app_assoc, after_app, (then_app _ _ l) by apply keys_reads. done.
Qed.

Lemma flag_reads (p : pystr) (b : bool) rest :
  strip p rest = None → read_flag p ((if b then p else []) ++ rest) = Some (b, rest).
Proof.
  intros H. unfold read_flag. destruct b.
  - apply or_else_l, word_app.
  - rewrite or_else_r; [done|]. unfold word. cbn [app]. by rewrite H.
Qed.

(** The reader is a left inverse of the text, for any table name the keyword after
    it cannot be confused with. *)
Theorem parse_sql_text (t : pystr) s : parse_sql t (sql_text t s) = Some s.
Proof.
  unfold parse_sql. enough (read_sql t (sql_text t s ++ []) = Some (s, [])) as H
    by (rewrite app_nil_r in H; by rewrite H).
  destruct s as [d sel w lim|c cs q on|w|q on|c cs o|[a b v l]]; unfold sql_text, read_sql; rewrite <-!app_assoc.
  - apply or_else_l. rewrite after_app. unfold read_select.
    rewrite or_else_r by by destruct d, sel as [[[]|]| | | |].
    rewrite (then_app _ _ d) by by apply flag_reads; destruct sel as [[[]|]| | | |].
    rewrite (then_app _ _ sel) by by apply sel_reads.
    rewrite !after_app, (then_app _ _ w) by by destruct lim; apply where_reads; [right|left].
    by rewrite (then_app _ _ lim) by by apply flag_reads.
  - apply or_else_l. rewrite after_app. apply or_else_l. unfold read_join.
    rewrite (then_app _ _ c) by apply tcol_reads.
    rewrite (many_then _ comma_tcol); [|apply comma_tcol_reads|by intros [[]|]|done].
    rewrite !after_app, (then_app _ _ q) by apply unnest_reads.
    by rewrite after_app, (then_app _ _ on) by apply on_reads.
  - rewrite or_else_r by done. apply or_else_l. rewrite after_app. unfold read_delete.
    rewrite after_app, or_else_r by by destruct w as [[? ?]|].
    rewrite (then_app _ _ w); [done|]. apply where_reads. by left.
  - rewrite or_else_r by done. apply or_else_l. rewrite after_app. unfold read_delete.
    rewrite after_app. apply or_else_l. rewrite after_app, (then_app _ _ q) by apply unnest_reads.
    by rewrite after_app, (then_app _ _ on) by apply on_reads.
  - do 2 rewrite or_else_r by done. apply or_else_l. rewrite after_app. unfold read_insert.
    rewrite !after_app, (then_app _ _ c) by apply col_reads.
    rewrite (many_then _ comma_col); [|apply comma_col_reads|by intros [[]|]|done].
    by rewrite !after_app, (then_app _ _ o) by apply conflict_reads.
  - do 3 rewrite or_else_r by done. rewrite after_app. unfold read_create. cbn [sch_ns sch_k sch_v sch_pkey].
    rewrite !after_app, (then_app _ _ a) by by apply def_reads; left.
    rewrite !after_app, (then_app _ _ b) by by apply def_reads; left.
    rewrite !after_app, (then_app _ _ v) by by destruct l; apply def_reads; [left|right].
    rewrite (then_app _ _ l) by by apply pkey_reads. done.
Qed.
