(* ===== verification/PostgresLaws.v ===== *)
(** * What the Postgres store relies on

    [PgLaws] is the documented behaviour of a server for every statement of [Sql]
    on one table [t], and of a [transaction()] block. [Stmt] is what the store means
    each statement of [Queries_init] to do; that the SQL it writes does mean that is
    proved here, from the text ([stmt_text_sql]) and the meaning of its clauses
    ([stmt_effect_sql], [stmt_reply_sql]). [PostgresFake] is a server in memory that
    meets the laws. *)

From S2P Require Import Prelude PyValue Codec Store Snapshot WireRows Postgres Sql.

(** ** The statements, by meaning *)

Inductive Stmt :=
  | SUpsert (r : row)
  | SInsert (r : row)
  | SGet (p : pystr * pystr)
  | SGetMany (pairs : list (pystr * pystr))
  | SContains (p : pystr * pystr)
  | SDelete (p : pystr * pystr)
  | SDeleteMany (pairs : list (pystr * pystr))
  | SDeleteNamespace (ns : pystr)
  | SKeys (ns : pystr)
  | SKeysPrefix (ns p : pystr)
  | SMaxKey (ns : pystr)
  | SNamespaces
  | SNamespacesPrefix (p : pystr)
  | SClear
  | SCount
  | SHasNamespace (ns : pystr)
  | SAllRows.

Definition stmt_text (q : Queries) (st : Stmt) : pystr :=
  match st with
  | SUpsert _ => q_upsert q
  | SInsert _ => q_insert q
  | SGet _ => q_get q
  | SGetMany _ => q_get_many q
  | SContains _ => q_contains q
  | SDelete _ => q_delete q
  | SDeleteMany _ => q_delete_many q
  | SDeleteNamespace _ => q_delete_namespace q
  | SKeys _ => q_keys q
  | SKeysPrefix _ _ => q_keys_prefix q
  | SMaxKey _ => q_max_key q
  | SNamespaces => q_namespaces q
  | SNamespacesPrefix _ => q_namespaces_prefix q
  | SClear => q_clear q
  | SCount => q_count q
  | SHasNamespace _ => q_has_namespace q
  | SAllRows => q_all_rows q
  end.

Definition stmt_params (st : Stmt) : list Param :=
  match st with
  | SUpsert r | SInsert r => row_params r
  | SGet p | SContains p | SDelete p => [TextP p.1; TextP p.2]
  | SGetMany pairs | SDeleteMany pairs => unzip pairs
  | SDeleteNamespace ns | SKeys ns | SMaxKey ns | SHasNamespace ns => [TextP ns]
  | SKeysPrefix ns p => [TextP ns; TextP p]
  | SNamespacesPrefix p => [TextP p]
  | SNamespaces | SClear | SCount | SAllRows => []
  end.

(** The rows a statement leaves. *)
Definition stmt_effect (st : Stmt) (t : table) : table :=
  match st with
  | SUpsert r | SInsert r => <[r.1 := r.2]> t
  | SDelete p => delete p t
  | SDeleteMany pairs => foldl (λ t p, delete p t) t pairs
  | SDeleteNamespace ns => filter (λ e, e.1.1 ≠ ns) t
  | SClear => ∅
  | _ => t
  end.

(** A column of distinct texts, in any order. *)
Definition column (cur : Cursor) (P : pystr → Prop) : Prop :=
  ∃ l, cur_rows cur = (λ k, [CText k]) <$> l ∧ NoDup l ∧ ∀ k, k ∈ l ↔ P k.

Definition row_cells (r : row) : list Cell := [CText r.1.1; CText r.1.2; CBytea r.2].
Definition has_key (t : table) (ns k : pystr) : Prop := is_Some (t !! (ns, k)).

(** What the statement answers, on the rows it finds. *)
Definition stmt_reply (st : Stmt) (t : table) (cur : Cursor) : Prop :=
  match st with
  | SGet p => cur_rows cur = match t !! p with Some b => [[CBytea b]] | None => [] end
  | SGetMany pairs => ∃ found, cur_rows cur = row_cells <$> found ∧
      ∀ r, r ∈ found ↔ r.1 ∈ pairs ∧ t !! r.1 = Some r.2
  | SContains p => cur_rows cur = if bool_decide (is_Some (t !! p)) then [[CInt 1]] else []
  | SDelete _ | SDeleteMany _ | SDeleteNamespace _ =>
      cur_rowcount cur = kv_removed t (stmt_effect st t)
  | SKeys ns => column cur (has_key t ns)
  | SKeysPrefix ns p => column cur (λ k, has_key t ns k ∧ starts_with p k = true)
  | SMaxKey ns => ∃ l, NoDup l ∧ (∀ k, k ∈ l ↔ has_key t ns k) ∧
      cur_rows cur = [[match py_max l with Some k => CText k | None => CNull end]]
  | SNamespaces => column cur (λ ns, ∃ k, has_key t ns k)
  | SNamespacesPrefix p => column cur (λ ns, (∃ k, has_key t ns k) ∧ starts_with p ns = true)
  | SCount => cur_rows cur = [[CInt (Z.of_nat (size t))]]
  | SHasNamespace ns => cur_rows cur = [] ↔ ¬ ∃ k, has_key t ns k
  | SAllRows => ∃ l, cur_rows cur = row_cells <$> l ∧ l ≡ₚ map_to_list t
  | SUpsert _ | SInsert _ | SClear => True
  end.

(** Parameters the server takes: names it can store and index ([P]), and for a
    plain [INSERT] a key that is free. *)
Definition stmt_ok (P : pystr → Prop) (st : Stmt) (t : table) : Prop :=
  match st with
  | SUpsert r => P r.1.1 ∧ P r.1.2
  | SInsert r => (P r.1.1 ∧ P r.1.2) ∧ t !! r.1 = None
  | SGet p | SContains p | SDelete p => P p.1 ∧ P p.2
  | SGetMany pairs | SDeleteMany pairs => Forall (λ p, P p.1 ∧ P p.2) pairs
  | SDeleteNamespace ns | SKeys ns | SMaxKey ns | SHasNamespace ns => P ns
  | SKeysPrefix ns p => P ns ∧ P p
  | SNamespacesPrefix p => P p
  | SNamespaces | SClear | SCount | SAllRows => True
  end.

(** The statement, as SQL. *)
Definition at_key : Where := Some (CondEq KNs, [(ConnAnd, CondEq KK)]).
Definition in_ns : Where := Some (CondEq KNs, []).
Definition by_key : JoinOn := ((KNs, KNs), [(KK, KK)]).

Definition stmt_sql (st : Stmt) : Sql :=
  match st with
  | SUpsert _ => InsertInto (ColKey KNs) [ColKey KK; ColV] (Some ((KNs, [KK]), DoUpdate))
  | SInsert _ => InsertInto (ColKey KNs) [ColKey KK; ColV] None
  | SGet _ => Select false (SelCols ColV []) at_key false
  | SGetMany _ => SelectJoin (ColKey KNs) [ColKey KK; ColV] (KNs, KK) by_key
  | SContains _ => Select false SelOne at_key false
  | SDelete _ => DeleteFrom at_key
  | SDeleteMany _ => DeleteUsing (KNs, KK) by_key
  | SDeleteNamespace _ => DeleteFrom in_ns
  | SKeys _ => Select false (SelCols (ColKey KK) []) in_ns false
  | SKeysPrefix _ _ =>
      Select false (SelCols (ColKey KK) []) (Some (CondEq KNs, [(ConnAnd, CondStarts KK)])) false
  | SMaxKey _ => Select false (SelMax KK) in_ns false
  | SNamespaces => Select true (SelCols (ColKey KNs) []) None false
  | SNamespacesPrefix _ => Select true (SelCols (ColKey KNs) []) (Some (CondStarts KNs, [])) false
  | SClear => DeleteFrom None
  | SCount => Select false SelCount None false
  | SHasNamespace _ => Select false SelOne in_ns true
  | SAllRows => Select false (SelCols (ColKey KNs) [ColKey KK; ColV]) None false
  end.

(** The rows of a sequence of upserts, or of inserts. *)
Definition write_stmt (insert : bool) (r : row) : Stmt := if insert then SInsert r else SUpsert r.

(** Every write of a sequence is fine where it runs. *)
Fixpoint stmts_ok (P : pystr → Prop) (sts : list Stmt) (t : table) : Prop :=
  match sts with
  | [] => True
  | st :: sts' => stmt_ok P st t ∧ stmts_ok P sts' (stmt_effect st t)
  end.

(** ** The laws *)

Class PgLaws (C : Type) `{!PgClient C} (t : pystr) := {
  (** The table's layout, if it exists, and its rows, as the connection sees them:
      inside a block, with what it did. *)
  pg_schema : C → option Schema;
  pg_rows : C → table;
  (** The server is reachable and nothing fails. *)
  pg_up : C → Prop;
  (** The names it takes: no NUL, no lone surrogate, not too long for an index. *)
  pg_name : pystr → Prop;
  pg_name_text s : pg_name s → valid_text s;
  pg_rows_names c ns k b : pg_up c → pg_rows c !! (ns, k) = Some b → pg_name ns ∧ pg_name k;

  (** [IF NOT EXISTS]: a table that is there stays as it is. *)
  create_law c sch : pg_up c → schema_valid sch →
    wp (pg_execute (sql_text t (CreateTable sch)) []) c (λ _ c', pg_up c' ∧
      match pg_schema c with
      | None => pg_schema c' = Some sch ∧ pg_rows c' = ∅
      | Some old => pg_schema c' = Some old ∧ pg_rows c' = pg_rows c
      end);
  (** Any statement, any number of times, on a table of this layout. *)
  execute_law c s ps : pg_up c → pg_schema c = Some kv_schema → sql_takes pg_name s ps (pg_rows c) →
    wp (pg_execute (sql_text t s) ps) c (λ cur c',
      (pg_up c' ∧ pg_schema c' = Some kv_schema ∧ pg_rows c' = sql_effect s ps (pg_rows c)) ∧
      sql_reply s ps (pg_rows c) cur);
  executemany_law c s pss : pg_up c → pg_schema c = Some kv_schema →
    sql_takes_all pg_name s pss (pg_rows c) →
    wp (pg_executemany (sql_text t s) pss) c (λ _ c',
      pg_up c' ∧ pg_schema c' = Some kv_schema ∧ pg_rows c' = sql_effects s pss (pg_rows c));
  transaction_law {A} c (body : PyM C A) (Q : A → option Schema → table → Prop) : pg_up c →
    (∀ c0, pg_up c0 → pg_schema c0 = pg_schema c → pg_rows c0 = pg_rows c →
       wp body c0 (λ a c1, pg_up c1 ∧ Q a (pg_schema c1) (pg_rows c1))) →
    wp (pg_transaction body) c (λ a c', pg_up c' ∧ Q a (pg_schema c') (pg_rows c'));

  (** What is known whatever fails: a statement that returns did what it says ... *)
  execute_done c s ps cur c' : pg_schema c = Some kv_schema → sql_typed s ps = true →
    pg_execute (sql_text t s) ps c = (Ok cur, c') →
    pg_schema c' = Some kv_schema ∧ pg_rows c' = sql_effect s ps (pg_rows c);
  executemany_done c s pss c' : pg_schema c = Some kv_schema → Forall (λ ps, sql_typed s ps = true) pss →
    pg_executemany (sql_text t s) pss c = (Ok tt, c') →
    pg_schema c' = Some kv_schema ∧ pg_rows c' = sql_effects s pss (pg_rows c);
  (** ... and a block does all its body did (which then returned), or nothing; it
      returns only in the first case. *)
  transaction_atomic {A} c (body : PyM C A) res c' : pg_transaction body c = (res, c') →
    (pg_schema c' = pg_schema c ∧ pg_rows c' = pg_rows c ∧ ∀ a, res ≠ Ok a) ∨
    ∃ c0 a c1, (pg_schema c0 = pg_schema c ∧ pg_rows c0 = pg_rows c) ∧ body c0 = (Ok a, c1) ∧
      (pg_schema c' = pg_schema c1 ∧ pg_rows c' = pg_rows c1);
}.

(** The server is up and the table is there, as [create] makes it. *)
Definition pg_ready {C t} `{!PgClient C} `{!PgLaws C t} (c : C) : Prop :=
  pg_up c ∧ pg_schema c = Some kv_schema.

(** ** The text of the statements *)

#[local] Arguments lit : simpl never.

Lemma create_text_sql (t : pystr) : q_create (Queries_init t) = sql_text t (CreateTable kv_schema).
Proof. reflexivity. Qed.

Lemma stmt_text_sql (t : pystr) st : stmt_text (Queries_init t) st = sql_text t (stmt_sql st).
Proof. destruct st; first [reflexivity | rewrite <-(app_nil_r t) at 1; reflexivity]. Qed.

(** ** The meaning of the statements *)

Lemma str_eqb_true a b : str_eqb a b = true ↔ a = b.
Proof. destruct (str_eqb_spec a b); naive_solver. Qed.

Lemma where_at_key p q : where_holds at_key [p.1; p.2] q = true ↔ q = p.
Proof.
  destruct p, q. cbn [where_holds conds_hold at_key cond_holds key_of fst snd].
  rewrite andb_true_iff, !str_eqb_true. naive_solver.
Qed.

Lemma where_in_ns ns q : where_holds in_ns [ns] q = true ↔ q.1 = ns.
Proof. apply str_eqb_true. Qed.

Lemma where_prefix ns p q :
  where_holds (Some (CondEq KNs, [(ConnAnd, CondStarts KK)])) [ns; p] q = true ↔
  q.1 = ns ∧ starts_with p q.2 = true.
Proof. cbn [where_holds conds_hold cond_holds key_of]. by rewrite andb_true_iff, str_eqb_true. Qed.

(** What a WHERE clause keeps, from what it says of a key. *)
Section Hits.
Context (w : Where) (ps : list Param) (t : table) (Q : pystr * pystr → Prop).
Hypothesis HQ : ∀ p, where_holds w (param_texts ps) p = true ↔ Q p.

Lemma hits_elem r : r ∈ hits w ps t ↔ Q r.1 ∧ t !! r.1 = Some r.2.
Proof.
  unfold hits. rewrite list_elem_of_filter, HQ. destruct r as [p b]. by rewrite elem_of_map_to_list.
Qed.

Lemma hits_NoDup : NoDup (hits w ps t).
Proof. apply NoDup_filter, NoDup_map_to_list. Qed.

Lemma hits_keys_NoDup : NoDup ((hits w ps t).*1).
Proof.
  apply NoDup_fmap_2_strong; [|apply hits_NoDup].
  intros [p b] [p' b'] [_ H]%hits_elem [_ H']%hits_elem. cbn in *. intros <-. congruence.
Qed.
End Hits.

Lemma key_hits (p : pystr * pystr) (t : table) :
  hits at_key [TextP p.1; TextP p.2] t ≡ₚ match t !! p with Some b => [(p, b)] | None => [] end.
Proof.
  apply NoDup_Permutation; [apply hits_NoDup|destruct (t !! p); [apply NoDup_singleton|constructor]|].
  intros [q b]. rewrite (hits_elem _ _ _ (λ q, q = p)) by apply where_at_key. cbn [fst snd].
  destruct (t !! p) as [b'|] eqn:E.
  - rewrite list_elem_of_singleton. naive_solver.
  - split; [naive_solver|by intros ?%not_elem_of_nil].
Qed.

(** *** Effects *)

Lemma delete_using_effect (pairs : list (pystr * pystr)) (t : table) :
  sql_effect (DeleteUsing (KNs, KK) by_key) (unzip pairs) t = foldl (λ t p, delete p t) t pairs.
Proof.
  apply map_eq. intros p. rewrite deletes_lookup. cbn [sql_effect unzip unnest_rows].
  rewrite zip_fst_snd.
  assert (∀ x, joins (KNs, KK) by_key p x = true ↔ x = p) as Hj.
  { intros x. destruct p, x. unfold joins. cbn. rewrite andb_true_r, andb_true_iff, !str_eqb_true. naive_solver. }
  assert (existsb (joins (KNs, KK) by_key p) pairs = true ↔ p ∈ pairs) as He.
  { rewrite existsb_exists. setoid_rewrite Hj. setoid_rewrite <-list_elem_of_In. naive_solver. }
  case_decide as Hp.
  - apply map_lookup_filter_None. right. intros b _ Hf. cbn in Hf. apply He in Hp. congruence.
  - destruct (t !! p) as [b|] eqn:E.
    + apply map_lookup_filter_Some. split; [done|]. cbn. by destruct (existsb _ _); [destruct Hp; apply He|].
    + apply map_lookup_filter_None. by left.
Qed.

Lemma delete_where_lookup (w : Where) (ps : list Param) (t : table) (p : pystr * pystr) :
  sql_effect (DeleteFrom w) ps t !! p = if where_holds w (param_texts ps) p then None else t !! p.
Proof.
  cbn [sql_effect]. destruct (where_holds w (param_texts ps) p) eqn:Ew.
  - apply map_lookup_filter_None. right. intros b _ Hf. cbn in Hf. congruence.
  - destruct (t !! p) as [b|] eqn:E.
    + by apply map_lookup_filter_Some.
    + apply map_lookup_filter_None. by left.
Qed.

Lemma stmt_effect_sql st t : sql_effect (stmt_sql st) (stmt_params st) t = stmt_effect st t.
Proof.
  destruct st as [[[]]|[[]]|p|pairs|p|p|pairs|ns|ns|ns p|ns| |p| | |ns|]; cbn [stmt_sql stmt_params stmt_effect];
    try reflexivity.
  - apply map_eq. intros q. rewrite delete_where_lookup, lookup_delete.
    pose proof (where_at_key p q) as H. cbn [param_texts omap list_omap].
    destruct (where_holds _ _ q); case_decide; naive_solver.
  - apply delete_using_effect.
  - apply map_eq. intros q. rewrite delete_where_lookup, delete_ns_lookup.
    pose proof (where_in_ns ns q) as H. cbn [param_texts omap list_omap].
    destruct (where_holds _ _ q); case_decide; naive_solver.
  - apply map_eq. intros q. by rewrite delete_where_lookup, lookup_empty.
Qed.

Lemma writes_effect_sql ins (rows : list row) t :
  sql_effects (stmt_sql (write_stmt ins ([], [], []))) (row_params <$> rows) t = rows_written t rows.
Proof.
  revert t. induction rows as [|r rows IH]; intros t; [done|].
  unfold sql_effects, rows_written in *. cbn [fmap list_fmap foldl]. rewrite IH. f_equal.
  destruct ins; [apply (stmt_effect_sql (SInsert r))|apply (stmt_effect_sql (SUpsert r))].
Qed.

(** *** Answers *)

Lemma column_perm cur (l : list pystr) (P : pystr → Prop) :
  cur_rows cur ≡ₚ (λ k, [CText k]) <$> l → NoDup l → (∀ k, k ∈ l ↔ P k) → column cur P.
Proof.
  intros Hc Hnd HP. apply Permutation_map_inv in Hc as (l'&Hl'&Hp). exists l'. split; [done|].
  rewrite <-Hp. split; [done|]. intros k. by rewrite <-Hp.
Qed.

Lemma column_distinct cur (l : list pystr) (P : pystr → Prop) :
  NoDup (cur_rows cur) → (∀ x, x ∈ cur_rows cur ↔ x ∈ (λ k, [CText k]) <$> l) →
  (∀ k, k ∈ l ↔ P k) → column cur P.
Proof.
  intros Hnd Hx HP. apply (column_perm cur (remove_dups l)); [|apply NoDup_remove_dups|].
  - apply NoDup_Permutation; [done|apply NoDup_fmap_2, NoDup_remove_dups; by intros ?? [= ?]|].
    intros x. rewrite Hx, !list_elem_of_fmap. by setoid_rewrite elem_of_remove_dups.
  - intros k. by rewrite elem_of_remove_dups.
Qed.

(** The keys of one namespace that a WHERE clause keeps. *)
Lemma ns_hits (w : Where) (ps : list Param) (t : table) ns (Q : pystr → Prop) :
  (∀ p, where_holds w (param_texts ps) p = true ↔ p.1 = ns ∧ Q p.2) →
  let l := (λ r : row, r.1.2) <$> hits w ps t in
  NoDup l ∧ ∀ k, k ∈ l ↔ has_key t ns k ∧ Q k.
Proof.
  intros HQ l. subst l. split.
  - apply NoDup_fmap_2_strong; [|apply hits_NoDup].
    intros [[a x] b] [[a' x'] b'] [[Ha _] H]%(hits_elem _ _ _ (λ p, p.1 = ns ∧ Q p.2)) [[Ha' _] H']%(hits_elem _ _ _ (λ p, p.1 = ns ∧ Q p.2)); [|done..].
    cbn in *. intros <-. congruence.
  - intros k. rewrite list_elem_of_fmap. setoid_rewrite (hits_elem _ _ _ (λ p, p.1 = ns ∧ Q p.2)); [|done].
    unfold has_key. split.
    + intros ([[a x] b]&->&[[Ha HQk] Hb]). cbn in *. subst. by split; [exists b|].
    + intros [[b Hb] HQk]. by exists (ns, k, b).
Qed.

(** The namespaces a WHERE clause keeps. *)
Lemma namespace_hits (w : Where) (ps : list Param) (t : table) (Q : pystr → Prop) :
  (∀ p, where_holds w (param_texts ps) p = true ↔ Q p.1) →
  ∀ ns, ns ∈ (λ r : row, r.1.1) <$> hits w ps t ↔ (∃ k, has_key t ns k) ∧ Q ns.
Proof.
  intros HQ ns. rewrite list_elem_of_fmap. setoid_rewrite (hits_elem _ _ _ (λ p, Q p.1)); [|done].
  unfold has_key. split.
  - intros ([[a x] b]&->&[HQk Hb]). cbn in *. split; [|done]. by exists x, b.
  - intros [[k [b Hb]] HQk]. by exists (ns, k, b).
Qed.

Lemma all_hits (ps : list Param) (t : table) : hits None ps t = map_to_list t.
Proof. unfold hits. apply filter_all. by apply Forall_forall. Qed.

Lemma join_by_key (pairs : list (pystr * pystr)) (t : table) cur :
  cur_rows cur ≡ₚ join_rows [ColKey KNs; ColKey KK; ColV] (KNs, KK) by_key (unzip pairs) t →
  ∃ found, cur_rows cur = row_cells <$> found ∧ ∀ r, r ∈ found ↔ r.1 ∈ pairs ∧ t !! r.1 = Some r.2.
Proof.
  set (found := map_to_list t ≫= λ r,
    (λ _, r) <$> filter (λ x, joins (KNs, KK) by_key r.1 x = true) pairs).
  assert (join_rows [ColKey KNs; ColKey KK; ColV] (KNs, KK) by_key (unzip pairs) t = row_cells <$> found) as ->.
  { unfold join_rows, found. cbn [unzip unnest_rows]. rewrite zip_fst_snd.
    generalize (map_to_list t). intros l. induction l as [|r l IH]; [done|].
    cbn [mbind list_bind]. rewrite fmap_app. f_equal; [|exact IH]. rewrite <-list_fmap_compose. done. }
  intros (found'&Hc&Hp)%Permutation_map_inv. exists found'. split; [done|]. intros [p b]. rewrite <-Hp.
  unfold found. rewrite list_elem_of_bind. cbn [fst snd].
  assert (∀ x, joins (KNs, KK) by_key p x = true ↔ x = p) as Hj.
  { intros x. destruct p, x. unfold joins. cbn. rewrite andb_true_r, andb_true_iff, !str_eqb_true. naive_solver. }
  split.
  - intros (r&(x&<-&[Hx%Hj Hin]%list_elem_of_filter)%list_elem_of_fmap&Hr). cbn in Hx. subst x.
    by rewrite elem_of_map_to_list in Hr.
  - intros [Hin Hb]. exists (p, b). rewrite elem_of_map_to_list. split; [|done].
    apply list_elem_of_fmap. exists p. split; [done|]. apply list_elem_of_filter. by rewrite Hj.
Qed.

Lemma stmt_reply_sql st t cur : sql_reply (stmt_sql st) (stmt_params st) t cur → stmt_reply st t cur.
Proof.
  destruct st as [r|r|p|pairs|p|p|pairs|ns|ns|ns p|ns| |p| | |ns|]; cbn [stmt_sql sql_reply stmt_reply]; try done.
  - intros (l&Hl&->). cbn [stmt_params select_rows] in Hl. rewrite key_hits in Hl.
    destruct (t !! p) as [b|]; cbn in Hl;
      [by apply Permutation_singleton_r in Hl|by apply Permutation_nil_r in Hl].
  - apply join_by_key.
  - intros (l&Hl&->). cbn [stmt_params select_rows] in Hl. rewrite key_hits in Hl.
    destruct (t !! p) as [b|]; cbn in Hl;
      [by apply Permutation_singleton_r in Hl|by apply Permutation_nil_r in Hl].
  - intros ->. by rewrite <-(stmt_effect_sql (SDelete p)).
  - intros ->. by rewrite <-(stmt_effect_sql (SDeleteMany pairs)).
  - intros ->. by rewrite <-(stmt_effect_sql (SDeleteNamespace ns)).
  - intros (l&Hl&Hc). rewrite <-Hc in Hl. cbn [select_rows] in Hl.
    destruct (ns_hits in_ns [TextP ns] t ns (λ _, True)) as [Hnd Hin]; [intros p; cbn; rewrite str_eqb_true; tauto|].
    eapply column_perm; [|exact Hnd|].
    + rewrite Hl, <-list_fmap_compose. done.
    + intros k. rewrite Hin. tauto.
  - intros (l&Hl&Hc). rewrite <-Hc in Hl. cbn [select_rows] in Hl.
    destruct (ns_hits _ [TextP ns; TextP p] t ns (λ k, starts_with p k = true) (where_prefix ns p)) as [Hnd Hin].
    eapply column_perm; [|exact Hnd|exact Hin]. rewrite Hl, <-list_fmap_compose. done.
  - intros (l&Hl&->). cbn [select_rows] in Hl. apply Permutation_singleton_r in Hl as ->.
    destruct (ns_hits in_ns [TextP ns] t ns (λ _, True)) as [Hnd Hin]; [intros p; cbn; rewrite str_eqb_true; tauto|].
    eexists. split_and!; [exact Hnd| |done]. intros k. rewrite Hin. tauto.
  - intros (l&[Hnd Hx]&Hc). rewrite <-Hc in *. cbn [select_rows] in Hx.
    apply (column_distinct cur ((λ r : row, r.1.1) <$> hits None [] t)); [done| |].
    + intros x. rewrite Hx, <-list_fmap_compose. done.
    + intros ns. rewrite (namespace_hits None [] t (λ _, True)) by done. tauto.
  - intros (l&[Hnd Hx]&Hc). rewrite <-Hc in *. cbn [select_rows] in Hx.
    apply (column_distinct cur ((λ r : row, r.1.1) <$> hits (Some (CondStarts KNs, [])) [TextP p] t)); [done| |].
    + intros x. rewrite Hx, <-list_fmap_compose. done.
    + intros ns. by rewrite (namespace_hits (Some (CondStarts KNs, [])) [TextP p] t (λ k, starts_with p k = true)).
  - intros (l&Hl&->). cbn [select_rows] in Hl. apply Permutation_singleton_r in Hl as ->.
    by rewrite all_hits, length_map_to_list.
  - intros (l&Hl&->). cbn [select_rows] in Hl.
    destruct (ns_hits in_ns [TextP ns] t ns (λ _, True)) as [_ Hin]; [intros p; cbn; rewrite str_eqb_true; tauto|].
    split.
    + intros Hn [k Hk]. destruct l; [|done]. apply Permutation_nil_l in Hl. symmetry in Hl. apply fmap_nil_inv in Hl.
      assert (k ∈ (λ r : row, r.1.2) <$> hits in_ns [TextP ns] t) as H by (by apply Hin).
      cbn [stmt_params] in Hl. rewrite Hl in H. by apply not_elem_of_nil in H.
    + intros Hn. destruct l as [|x l]; [done|]. exfalso. apply Hn.
      destruct (hits in_ns (stmt_params (SHasNamespace ns)) t) as [|r rs] eqn:E; [by apply Permutation_nil_r in Hl|].
      exists r.1.2. apply Hin. cbn [stmt_params] in E. rewrite E. left.
  - intros (l&Hl&->). rewrite all_hits in Hl. cbn [select_rows] in Hl.
    apply Permutation_map_inv in Hl as (l'&->&Hp). by exists l'.
Qed.

Lemma writes_typed ins (rows : list row) :
  Forall (λ ps, sql_typed (stmt_sql (write_stmt ins ([], [], []))) ps = true) (row_params <$> rows).
Proof. apply Forall_fmap, Forall_forall. intros [[ns k] b] _. by destruct ins. Qed.

Lemma stmt_typed_sql st : sql_typed (stmt_sql st) (stmt_params st) = true.
Proof.
  destruct st as [[[]]|[[]]|p|pairs|p|p|pairs|ns|ns|ns p|ns| |p| | |ns|]; try reflexivity;
    cbn [stmt_sql stmt_params sql_typed unzip]; by rewrite !length_fmap, Nat.eqb_refl.
Qed.

Lemma stmt_takes_sql P st t : stmt_ok P st t → sql_takes P (stmt_sql st) (stmt_params st) t.
Proof.
  intros H. split; [apply stmt_typed_sql|].
  destruct st as [[[]]|[[]]|p|pairs|p|p|pairs|ns|ns|ns p|ns| |p| | |ns|]; cbn in H |- *;
    try (split; [|done]); repeat constructor; try naive_solver.
  all: rewrite app_nil_r; apply Forall_app; split; apply Forall_fmap; eapply Forall_impl; try done;
    by intros ? [??].
Qed.

Lemma writes_take_sql P ins (rows : list row) t :
  stmts_ok P (write_stmt ins <$> rows) t →
  sql_takes_all P (stmt_sql (write_stmt ins ([], [], []))) (row_params <$> rows) t.
Proof.
  revert t. induction rows as [|r rows IH]; intros t; [done|]. cbn [fmap list_fmap stmts_ok sql_takes_all].
  intros [Hr Hrows]. split.
  - apply stmt_takes_sql in Hr. by destruct ins.
  - rewrite <-stmt_effect_sql in Hrows. destruct ins; by apply IH.
Qed.

(** ** The laws, for the statements of the store *)

Section Stmts.
Context {C : Type} {client : PgClient C} {t : pystr} {laws : PgLaws C t}.

Lemma execute_stmt c st : pg_ready c → stmt_ok pg_name st (pg_rows c) →
  wp (pg_execute (stmt_text (Queries_init t) st) (stmt_params st)) c (λ cur c',
    (pg_ready c' ∧ pg_rows c' = stmt_effect st (pg_rows c)) ∧ stmt_reply st (pg_rows c) cur).
Proof.
  intros [Hup Hs] Hst. rewrite stmt_text_sql. eapply wp_mono.
  { apply execute_law; [done..|by apply stmt_takes_sql]. }
  intros cur c' [(?&?&Hr) Hc]. rewrite stmt_effect_sql in Hr. split; [done|]. by apply stmt_reply_sql.
Qed.

Lemma executemany_stmt c ins rows : pg_ready c → stmts_ok pg_name (write_stmt ins <$> rows) (pg_rows c) →
  wp (pg_executemany (stmt_text (Queries_init t) (write_stmt ins ([], [], []))) (row_params <$> rows)) c
    (λ _ c', pg_ready c' ∧ pg_rows c' = rows_written (pg_rows c) rows).
Proof.
  intros [Hup Hs] Hst. rewrite stmt_text_sql. eapply wp_mono.
  { apply executemany_law; [done..|by apply writes_take_sql]. }
  intros [] c' (?&?&Hr). by rewrite writes_effect_sql in Hr.
Qed.

Lemma execute_stmt_done c st cur c' : pg_schema c = Some kv_schema →
  pg_execute (stmt_text (Queries_init t) st) (stmt_params st) c = (Ok cur, c') →
  pg_schema c' = Some kv_schema ∧ pg_rows c' = stmt_effect st (pg_rows c).
Proof.
  intros Hs H. rewrite stmt_text_sql in H. rewrite <-stmt_effect_sql.
  by eapply execute_done; [|apply stmt_typed_sql|].
Qed.

Lemma executemany_stmt_done c ins rows c' : pg_schema c = Some kv_schema →
  pg_executemany (stmt_text (Queries_init t) (write_stmt ins ([], [], []))) (row_params <$> rows) c =
    (Ok tt, c') →
  pg_schema c' = Some kv_schema ∧ pg_rows c' = rows_written (pg_rows c) rows.
Proof.
  intros Hs H. rewrite stmt_text_sql in H. rewrite <-(writes_effect_sql ins).
  by eapply executemany_done; [|apply writes_typed|].
Qed.

(** [CREATE TABLE IF NOT EXISTS]: the table is there afterwards. *)
Lemma create_stmt c : pg_up c → pg_schema c = None ∨ pg_schema c = Some kv_schema →
  wp (pg_execute (q_create (Queries_init t)) []) c (λ _ c', pg_ready c' ∧
    pg_rows c' = match pg_schema c with None => ∅ | Some _ => pg_rows c end).
Proof.
  intros Hup Hs. rewrite create_text_sql. eapply wp_mono; [apply create_law; [done|]|].
  - split; [|repeat constructor; set_solver]. repeat constructor; done.
  - intros _ c' [Hup' H]. destruct Hs as [Hs|Hs]; rewrite Hs in *; destruct H; by split.
Qed.
End Stmts.
