(* ===== verification/PostgresTheorems.v ===== *)
(** * The Postgres store meets the contract

    On a server that keeps its documented promises, for the names the server takes. *)

From Stdlib Require Import ZifyBool.
From S2P Require Import Prelude PyValue Codec Store StoreTrace Snapshot WireRows.
From S2P Require Import Postgres Sql PostgresLaws.

#[local] Arguments lit : simpl never.
#[local] Arguments Queries_init : simpl never.

(** ** Lemmas on rows *)

Lemma cells_rows (rows : list row) : mapM as_row (row_cells <$> rows) = Ok rows.
Proof.
  induction rows as [|[[ns k] b] rows IH]; [done|]. cbn [fmap list_fmap mapM].
  change (as_row (row_cells (ns, k, b))) with (Ok (ns, k, b)). cbn [mbind result_bind]. by rewrite IH.
Qed.

Lemma texts_column (l : list pystr) (n : Z) :
  first_texts {| cur_rows := (λ k, [CText k]) <$> l; cur_rowcount := n |} = Ok l.
Proof.
  unfold first_texts. cbn [cur_rows]. induction l as [|k l IH]; [done|].
  cbn [fmap list_fmap mapM cell0 head or_raise mbind result_bind cell_text] in *. by rewrite IH.
Qed.

Lemma column_texts cur P : column cur P → ∃ l, first_texts cur = Ok l ∧ NoDup l ∧ ∀ k, k ∈ l ↔ P k.
Proof.
  intros (l&Hl&?&?). exists l. split; [|done]. destruct cur as [rows n]. cbn in Hl. subst rows.
  apply texts_column.
Qed.

(** The dictionary a join's rows make. *)
Lemma found_get (found : list row) (t : table) (P : pystr * pystr → Prop) p :
  (∀ r, r ∈ found ↔ P r.1 ∧ t !! r.1 = Some r.2) → P p → od_get (od_of_list found) p = t !! p.
Proof.
  intros Hf Hp. destruct (od_get (od_of_list found) p) as [b|] eqn:E.
  - apply od_of_list_get, Hf in E as [_ E]. cbn in E. by rewrite E.
  - destruct (t !! p) as [b|] eqn:Hb; [|done]. exfalso.
    apply (eq_None_not_Some (od_get (od_of_list found) p)); [done|].
    apply od_get_Some_keys, od_of_list_keys, list_elem_of_fmap. exists (p, b).
    split; [done|]. by apply Hf.
Qed.

(** Upserts are fine as long as their names are. *)
Lemma upserts_ok (P : pystr → Prop) (rows : list row) (t : table) :
  Forall (λ r, P r.1.1 ∧ P r.1.2) rows → stmts_ok P (write_stmt false <$> rows) t.
Proof. intros H. revert t. induction H as [|r rows Hr _ IH]; intros t; [done|]. split; [done|apply IH]. Qed.

(** Inserts, if their keys are free and distinct. *)
Lemma inserts_ok (P : pystr → Prop) (rows : list row) (t : table) :
  Forall (λ r, P r.1.1 ∧ P r.1.2) rows → NoDup rows.*1 → (∀ p, p ∈ rows.*1 → t !! p = None) →
  stmts_ok P (write_stmt true <$> rows) t.
Proof.
  intros H. revert t. induction H as [|r rows Hr _ IH]; intros t; [done|].
  cbn [fmap list_fmap]. intros [Hn Hnd]%NoDup_cons Hfree. split; [split; [done|apply Hfree; by left]|].
  apply IH; [done|]. intros p Hp. cbn [stmt_effect write_stmt].
  rewrite lookup_insert_ne; [apply Hfree; by right|]. by intros <-.
Qed.

Section Postgres.
Context {C : Type} {client : PgClient C} (cfg : PgConfig) {laws : PgLaws C (pg_table cfg)}.
Context (pack : pyval → result bytes) (unpack : bytes → result pyval).
Implicit Types s : PostgresStore C.

(** ** The content of a store *)

Definition store_rows s : table := pg_rows (pg_server s).
Definition pg_open s : bool := pg_pool s || pg_conn s.
Definition pg_view s : kv := unpacked unpack <$> store_rows s.
(** The server is up with the table there, the store is open, and every value unpacks. *)
Definition pg_ok s : Prop :=
  (pg_ready (pg_server s) ∧ pg_open s = true) ∧ map_Forall (row_ok unpack) (store_rows s).

Lemma pg_view_is_Some s ns k : is_Some (pg_view s !! (ns, k)) ↔ has_key (store_rows s) ns k.
Proof. unfold pg_view, has_key. rewrite lookup_fmap. apply fmap_is_Some. Qed.

Lemma pg_rows_unpack s p b :
  pg_ok s → store_rows s !! p = Some b → unpack b = Ok (unpacked unpack b).
Proof. intros [_ Hok] Hb. destruct (Hok _ _ Hb) as (_&_&v&Hv&_). unfold unpacked. by rewrite Hv. Qed.

Lemma row_unpack_get s ns k cur :
  pg_ok s → cur_rows cur = match store_rows s !! (ns, k) with Some b => [[CBytea b]] | None => [] end →
  unpack_row unpack PNone cur = Ok (kv_get (pg_view s) ns k).
Proof.
  intros Hs Hc. unfold unpack_row, fetchone0, kv_get, pg_view. rewrite Hc, lookup_fmap.
  destruct (store_rows s !! (ns, k)) as [b|] eqn:E; [|done]. exact (pg_rows_unpack s _ _ Hs E).
Qed.

(** ** Lemmas: statements *)

Lemma connection_wp s (Q : unit → PostgresStore C → Prop) :
  pg_ok s → Q tt s → wp connection s Q.
Proof. intros [[_ Ho] _] HQ. unfold connection. apply wp_bind, wp_gets. unfold pg_open in Ho. cbn. by rewrite Ho. Qed.

Lemma on_pg_wp {A} (m : PyM C A) s (Q : A → PostgresStore C → Prop) :
  wp m (pg_server s) (λ a c, Q a (set_pg_server c s)) → wp (on_pg m) s Q.
Proof. unfold wp, on_pg, act. by destruct (m (pg_server s)) as [[a|e|] c]. Qed.

Lemma stmt_wp st s :
  pg_ok s → stmt_ok pg_name st (store_rows s) →
  wp (pg_run (stmt_text (pg_queries cfg) st) (stmt_params st)) s (λ cur s',
    ((pg_ready (pg_server s') ∧ pg_open s' = true) ∧ store_rows s' = stmt_effect st (store_rows s)) ∧
    stmt_reply st (store_rows s) cur).
Proof.
  intros [[Hup Ho] _] Hst. unfold pg_run. apply on_pg_wp.
  eapply wp_mono; [by apply execute_stmt|]. by intros cur c' [[Hup' Hr] Hc].
Qed.

(** A statement that only reads, and what is made of its answer. *)
Lemma query_wp {A : Type} st (read : Cursor → result A) s (Q : A → Prop) :
  pg_ok s → stmt_ok pg_name st (store_rows s) → stmt_effect st = id →
  (∀ cur, stmt_reply st (store_rows s) cur → ∃ a, read cur = Ok a ∧ Q a) →
  wp (connection ;; cur ← pg_run (stmt_text (pg_queries cfg) st) (stmt_params st); lift (read cur)) s
    (λ a s', (pg_ok s' ∧ pg_view s' = pg_view s) ∧ Q a).
Proof.
  intros Hs Hst Heff Hr. apply wp_bind, connection_wp; [done|].
  eapply wp_bind_mono; [by apply stmt_wp|]. intros cur s' [[Hup' Hrows] Hc].
  rewrite Heff in Hrows. destruct (Hr cur Hc) as (a&Ha&HQ). apply (wp_lift _ _ _ _ Ha).
  split; [|done]. destruct Hs as [_ Hok]. unfold pg_ok, pg_view. by rewrite Hrows.
Qed.

Lemma pg_ok_rows s s' (t : table) :
  (pg_ready (pg_server s') ∧ pg_open s' = true) → store_rows s' = t → map_Forall (row_ok unpack) t →
  pg_ok s' ∧ pg_view s' = unpacked unpack <$> t.
Proof. intros ? Ht ?. unfold pg_ok, pg_view. by rewrite Ht. Qed.

(** ** Lemmas: the operations *)

Hypothesis unpack_pack : ∀ v, storable v → ∃ b, pack v = Ok b ∧ unpack b = Ok v.

Lemma pg_set_ok s ns k v :
  pg_ok s → pg_name ns → pg_name k → storable v →
  wp (PostgresStore_set cfg pack ns k v) s (λ _ s',
    pg_ok s' ∧ pg_view s' = <[(ns, k) := v]> (pg_view s)).
Proof.
  intros Hs Hns Hk Hv. destruct (unpack_pack v Hv) as (b&Hp&Hu). unfold PostgresStore_set.
  apply wp_bind, connection_wp; [done|]. apply wp_bind, (wp_lift _ _ _ _ Hp).
  eapply wp_bind_mono; [by apply (stmt_wp (SUpsert (ns, k, b)))|].
  intros cur s' [[Hup' Hrows] _]. apply wp_ret.
  destruct (pg_ok_rows s s' _ Hup' Hrows) as [Hok' Hview].
  - apply map_Forall_insert_2; [|apply Hs]. unfold row_ok. cbn.
    split_and!; [by apply pg_name_text..|by exists v].
  - split; [done|]. cbn in Hview. rewrite Hview, fmap_insert. f_equal. unfold unpacked. by rewrite Hu.
Qed.

Lemma pg_get_ok s ns k :
  pg_ok s → pg_name ns → pg_name k →
  wp (PostgresStore_get cfg unpack ns k PNone) s (λ v s',
    (pg_ok s' ∧ pg_view s' = pg_view s) ∧ v = kv_get (pg_view s) ns k).
Proof.
  intros Hs Hns Hk. apply (query_wp (SGet (ns, k)) (unpack_row unpack PNone)); [done..|].
  intros cur Hc. eexists. split; [|done]. by apply row_unpack_get.
Qed.

Lemma pg_contains_ok s ns k :
  pg_ok s → pg_name ns → pg_name k →
  wp (PostgresStore_contains cfg ns k) s (λ b s', (pg_ok s' ∧ pg_view s' = pg_view s) ∧
    b = bool_decide (is_Some (pg_view s !! (ns, k)))).
Proof.
  intros Hs Hns Hk. apply (query_wp (SContains (ns, k)) (λ cur, Ok (some_row cur))); [done..|].
  intros cur Hc. eexists. split; [done|]. unfold some_row. cbn in Hc. rewrite Hc.
  rewrite (bool_decide_ext _ _ (pg_view_is_Some s ns k)). unfold has_key. by case_bool_decide.
Qed.

Lemma pg_delete_ok s ns k :
  pg_ok s → pg_name ns → pg_name k →
  wp (PostgresStore_delete cfg ns k) s (λ b s',
    (pg_ok s' ∧ pg_view s' = delete (ns, k) (pg_view s)) ∧
    b = bool_decide (is_Some (pg_view s !! (ns, k)))).
Proof.
  intros Hs Hns Hk. unfold PostgresStore_delete. apply wp_bind, connection_wp; [done|].
  eapply wp_bind_mono; [by apply (stmt_wp (SDelete (ns, k)))|].
  intros cur s' [[Hup' Hrows] Hc]. apply wp_ret. split.
  - destruct (pg_ok_rows s s' _ Hup' Hrows) as [Hok' Hview].
    + eapply row_ok_subset; [|apply Hs]. cbn [stmt_effect]. by intros p b [_ ?]%lookup_delete_Some.
    + split; [done|]. rewrite Hview. cbn. by rewrite fmap_delete.
  - cbn in Hc. rewrite Hc, kv_removed_delete, (bool_decide_ext _ _ (pg_view_is_Some s ns k)).
    unfold has_key. by case_bool_decide; case_decide.
Qed.

(** *** Batches *)

Lemma packed_rows_ok (P : pystr → Prop) (items : list (pystr * pystr * pyval)) :
  (∀ k, P k → valid_text k) → Forall (λ i, P i.1.1 ∧ P i.1.2 ∧ storable i.2) items →
  ∃ rows, mapM (packed_row pack) items = Ok rows ∧ Forall2 (packs unpack) items rows ∧
    Forall (λ r, P r.1.1 ∧ P r.1.2) rows.
Proof.
  intros HP. induction 1 as [|[[ns k] v] items (Hns&Hk&Hv) _ (rows&Hrows&Hp&Hn)]; [by exists []|].
  cbn in *. destruct (unpack_pack v Hv) as (b&Hb&Hu). exists ((ns, k, b) :: rows). cbn [mapM].
  assert (packed_row pack (ns, k, v) = Ok (ns, k, b)) as -> by (unfold packed_row; cbn [snd]; by rewrite Hb).
  cbn [mbind result_bind]. rewrite Hrows. split_and!; [done| |by constructor].
  constructor; [|done]. unfold packs, row_ok. cbn. eauto 10.
Qed.

Lemma pg_set_many_ok s items :
  pg_ok s → Forall (λ i, pg_name i.1.1 ∧ pg_name i.1.2 ∧ storable i.2) items →
  wp (PostgresStore_set_many cfg pack items) s
    (λ _ s', pg_ok s' ∧ pg_view s' = kv_set_many items (pg_view s)).
Proof.
  intros Hs Hi. unfold PostgresStore_set_many.
  destruct items as [|i items]; [by apply wp_ret|]. cbv beta iota.
  destruct (packed_rows_ok pg_name _ pg_name_text Hi) as (rows&Hrows&Hp&Hn).
  apply wp_bind, (wp_lift _ _ _ _ Hrows), wp_bind, connection_wp; [done|].
  apply on_pg_wp. eapply wp_mono.
  { apply (transaction_law _ _ (λ _ sch t, sch = Some kv_schema ∧ t = rows_written (store_rows s) rows)); [apply Hs|].
    intros c0 Hup0 Hs0 H0. unfold store_rows. rewrite <-H0. eapply wp_mono.
    { apply (executemany_stmt c0 false); [split; [done|rewrite Hs0; apply Hs]|by apply upserts_ok]. }
    by intros [] c1 [[??] ?]. }
  intros [] c' (Hup'&Hsch'&Hrows').
  destruct (pg_ok_rows s (set_pg_server c' s) _ (conj (conj Hup' Hsch') (proj2 (proj1 Hs))) Hrows') as [Hok' Hview].
  - eapply packed_row_ok; [done|apply Hs].
  - split; [done|]. rewrite Hview. by apply (packed_insert unpack (store_rows s) (i :: items)).
Qed.

Lemma in_order_get s (pairs : list (pystr * pystr)) (found : list row) :
  pg_ok s → (∀ r, r ∈ found ↔ r.1 ∈ pairs ∧ store_rows s !! r.1 = Some r.2) →
  in_order unpack pairs (row_cells <$> found) = Ok ((λ p, kv_get (pg_view s) p.1 p.2) <$> pairs).
Proof.
  intros Hs Hf. unfold in_order. rewrite cells_rows. cbn [mbind result_bind].
  assert (∀ ps : list (pystr * pystr), (∀ p, p ∈ ps → p ∈ pairs) →
    mapM (λ p, match od_get (od_of_list found) p with None => Ok PNone | Some v => unpack v end) ps =
    Ok ((λ p, kv_get (pg_view s) p.1 p.2) <$> ps)) as H; [|by apply H].
  induction ps as [|p ps IH]; intros Hps; [done|]. cbn [mapM fmap list_fmap].
  assert (od_get (od_of_list found) p = store_rows s !! p) as ->
    by (apply (found_get found (store_rows s) (λ p, p ∈ pairs)); [done|apply Hps; by left]).
  rewrite IH by (intros q Hq; apply Hps; by right).
  unfold kv_get at 2, pg_view at 2. rewrite <-surjective_pairing, lookup_fmap.
  destruct (store_rows s !! p) as [b|] eqn:E; [|done]. by rewrite (pg_rows_unpack s p b Hs E).
Qed.

Lemma pg_get_many_ok s (pairs : list (pystr * pystr)) :
  pg_ok s → Forall (λ p, pg_name p.1 ∧ pg_name p.2) pairs →
  wp (PostgresStore_get_many cfg unpack pairs) s (λ l s',
    (pg_ok s' ∧ pg_view s' = pg_view s) ∧
    l = (λ p, kv_get (pg_view s) p.1 p.2) <$> pairs).
Proof.
  intros Hs Hp. unfold PostgresStore_get_many. destruct pairs as [|p pairs]; [by apply wp_ret|].
  cbv beta iota.
  apply (query_wp (SGetMany (p :: pairs)) (λ cur, in_order unpack (p :: pairs) (cur_rows cur))); [done..|].
  intros cur (found&Hc&Hf). eexists. split; [|done]. rewrite Hc. by apply in_order_get.
Qed.

Lemma pg_delete_many_ok s pairs :
  pg_ok s → Forall (λ p, pg_name p.1 ∧ pg_name p.2) pairs →
  wp (PostgresStore_delete_many cfg pairs) s (λ n s',
    (pg_ok s' ∧ pg_view s' = kv_delete_many pairs (pg_view s)) ∧
    n = kv_removed (pg_view s) (kv_delete_many pairs (pg_view s))).
Proof.
  intros Hs Hp. unfold PostgresStore_delete_many.
  destruct pairs as [|p pairs]; [apply wp_ret; split; [done|unfold kv_removed; cbn; lia]|].
  cbv beta iota. apply wp_bind, connection_wp; [done|].
  eapply wp_bind_mono; [by apply (stmt_wp (SDeleteMany (p :: pairs)))|].
  intros cur s' [[Hup' Hrows] Hc]. apply wp_ret.
  pose proof (unpacked_deletes unpack (store_rows s) (p :: pairs)) as Hdel. fold (pg_view s) in Hdel.
  destruct (pg_ok_rows s s' _ Hup' Hrows) as [Hok' Hview].
  - apply deletes_row_ok, Hs.
  - split; [split; [done|by rewrite Hview]|]. rewrite Hc, <-Hdel. symmetry. apply kv_removed_fmap.
Qed.

Lemma pg_delete_namespace_ok s ns :
  pg_ok s → pg_name ns →
  wp (PostgresStore_delete_namespace cfg ns) s (λ n s',
    (pg_ok s' ∧ pg_view s' = kv_delete_namespace ns (pg_view s)) ∧
    n = kv_removed (pg_view s) (kv_delete_namespace ns (pg_view s))).
Proof.
  intros Hs Hns. unfold PostgresStore_delete_namespace. apply wp_bind, connection_wp; [done|].
  eapply wp_bind_mono; [by apply (stmt_wp (SDeleteNamespace ns))|].
  intros cur s' [[Hup' Hrows] Hc]. apply wp_ret.
  pose proof (unpacked_delete_ns unpack (store_rows s) ns) as Hdel. fold (pg_view s) in Hdel.
  destruct (pg_ok_rows s s' _ Hup' Hrows) as [Hok' Hview].
  - eapply row_ok_subset; [|apply Hs]. cbn [stmt_effect]. by intros p b [? _]%map_lookup_filter_Some.
  - split; [split; [done|by rewrite Hview]|]. rewrite Hc, <-Hdel. symmetry. apply kv_removed_fmap.
Qed.

(** *** Listing *)

Lemma pg_keys_ok s ns (pfx : option pystr) :
  pg_ok s → pg_name ns → from_option pg_name True pfx →
  wp (PostgresStore_keys cfg ns pfx) s (λ l s', (pg_ok s' ∧ pg_view s' = pg_view s) ∧
    lists_keys (pg_view s) ns pfx l).
Proof.
  intros Hs Hns Hpfx.
  assert (wp (PostgresStore_keys cfg ns pfx) s (λ l s', (pg_ok s' ∧ pg_view s' = pg_view s) ∧
    (NoDup l ∧ ∀ k, k ∈ l ↔ has_key (store_rows s) ns k ∧ has_prefix pfx k = true))) as H.
  { unfold PostgresStore_keys. destruct pfx as [p|].
    - apply (query_wp (SKeysPrefix ns p) first_texts); [done..|]. intros cur. apply column_texts.
    - apply (query_wp (SKeys ns) first_texts); [done..|].
      intros cur (l&Hl&Hnd&Hin)%column_texts. exists l. split_and!; [done..|].
      intros k. rewrite Hin. cbn. tauto. }
  eapply wp_mono; [exact H|]. intros l s' [Hs' [Hnd Hin]]. split; [done|]. split; [done|].
  intros k. by rewrite Hin, pg_view_is_Some.
Qed.

Lemma pg_max_key_ok s ns :
  pg_ok s → pg_name ns →
  wp (PostgresStore_max_key cfg ns) s (λ o s', (pg_ok s' ∧ pg_view s' = pg_view s) ∧
    ∃ l, lists_keys (pg_view s) ns None l ∧ o = py_max l).
Proof.
  intros Hs Hns. apply (query_wp (SMaxKey ns) max_cell); [done..|]. intros cur (l&Hnd&Hl&Hc).
  exists (py_max l). unfold max_cell, fetchone0. rewrite Hc. cbn [cell0 head or_raise mbind result_bind].
  split; [by destruct (py_max l)|]. exists l. split; [|done]. split; [done|].
  intros k. rewrite pg_view_is_Some, Hl. cbn. tauto.
Qed.

Lemma pg_namespaces_ok s (pfx : option pystr) :
  pg_ok s → from_option pg_name True pfx →
  wp (PostgresStore_namespaces cfg pfx) s (λ l s', (pg_ok s' ∧ pg_view s' = pg_view s) ∧
    lists_namespaces (pg_view s) pfx l).
Proof.
  intros Hs Hpfx.
  assert (wp (PostgresStore_namespaces cfg pfx) s (λ l s', (pg_ok s' ∧ pg_view s' = pg_view s) ∧
    (NoDup l ∧ ∀ ns, ns ∈ l ↔ (∃ k, has_key (store_rows s) ns k) ∧ has_prefix pfx ns = true))) as H.
  { unfold PostgresStore_namespaces. destruct pfx as [p|].
    - apply (query_wp (SNamespacesPrefix p) first_texts); [done..|]. intros cur. apply column_texts.
    - apply (query_wp SNamespaces first_texts); [done..|].
      intros cur (l&Hl&Hnd&Hin)%column_texts. exists l. split_and!; [done..|].
      intros ns. rewrite Hin. cbn. tauto. }
  eapply wp_mono; [exact H|]. intros l s' [Hs' [Hnd Hin]]. split; [done|]. split; [done|].
  intros ns. rewrite Hin.
  split; intros [[k Hk] Hp]; (split; [exists k|done]); by apply pg_view_is_Some.
Qed.

(** ** Opening a store *)

(** [__init__] makes the table where there is none, and leaves one that is there. *)
Lemma postgres_init_ok (psycopg_pool conn pool apool : bool) (c : C) :
  is_ident (pg_table cfg) = true → pg_up c → pg_schema c = None ∨ pg_schema c = Some kv_schema →
  map_Forall (row_ok unpack) (pg_rows c) →
  ∃ cfg' s, PostgresStore_init psycopg_pool conn pool apool (pg_table cfg) (lit "msgpack") c = Ok (cfg', s) ∧
    pg_table cfg' = pg_table cfg ∧ pg_ok s ∧
    pg_view s = match pg_schema c with None => ∅ | Some _ => unpacked unpack <$> pg_rows c end.
Proof.
  intros Hid Hup Hsch Hrows. unfold PostgresStore_init.
  change (str_eqb (lit "msgpack") (lit "msgpack")) with true. rewrite Hid. cbn [negb].
  set (s := {| pg_server := c; pg_meta := _; pg_pool := _; pg_conn := _ |}).
  assert (pg_open s = true) as Ho by by destruct conn, pool, psycopg_pool.
  assert (wp (connection ;; pg_run (q_create (Queries_init (pg_table cfg))) []) s (λ _ s',
    (pg_ready (pg_server s') ∧ pg_open s' = true) ∧
    store_rows s' = match pg_schema c with None => ∅ | Some _ => pg_rows c end)) as Hwp.
  { apply wp_bind. unfold connection. apply wp_bind, wp_gets. unfold pg_open in Ho. cbn [id]. rewrite Ho.
    apply wp_ret. unfold pg_run. apply on_pg_wp. eapply wp_mono; [by apply create_stmt|].
    intros cur c' [Hr Hc]. by split. }
  destruct (wp_elim _ _ _ Hwp) as (cur&s'&E&Hs'&Hr). cbv zeta.
  change (pg_queries _) with (Queries_init (pg_table cfg)). rewrite E.
  destruct (pg_ok_rows s s' _ Hs' Hr) as [Hok Hview].
  { destruct (pg_schema c); [done|by apply map_Forall_empty]. }
  eexists _, s'. split_and!; [done|done|done|]. rewrite Hview.
  destruct (pg_schema c); [done|by rewrite fmap_empty].
Qed.

(** ** The contract *)

#[refine] Definition postgres_spec :
    @StoreLaws pg_name (PostgresStore C) (postgres_ops cfg pack unpack) := {|
  sv_view := pg_view; sv_ok := pg_ok; sv_takes_prefix := true;
|}.
Proof.
  all: unfold postgres_ops; simpl.
  - intros s ns k v [[[Hup _] _] Ht]. unfold pg_view. rewrite lookup_fmap.
    intros (b&Hb&->)%fmap_Some. destruct (Ht _ _ Hb) as (_&_&v'&Hv&?).
    destruct (pg_rows_names _ _ _ _ Hup Hb). unfold unpacked. by rewrite Hv.
  - intros. by apply pg_set_ok.
  - intros. by apply pg_get_ok.
  - intros. by apply pg_contains_ok.
  - intros. by apply pg_delete_ok.
  - intros s ns ??. by apply (pg_keys_ok s ns None).
  - intros s ns p ???. by apply (pg_keys_ok s ns (Some p)).
  - intros. by apply pg_max_key_ok.
  - intros s ?. by apply (pg_namespaces_ok s None).
  - intros s p ??. by apply (pg_namespaces_ok s (Some p)).
  - intros f s items [= <-] ??. by apply pg_set_many_ok.
  - intros f s pairs [= <-] ??. by apply pg_get_many_ok.
  - intros f s pairs [= <-] ??. by apply pg_delete_many_ok.
  - intros f s ns [= <-] ??. by apply pg_delete_namespace_ok.
Defined.
End Postgres.
