(* ===== verification/PostgresFake.v ===== *)
(** * A Postgres server in memory

    A server that meets [PgLaws], for the examples: it reads the text of a statement
    back with [SqlParse], executes what it says on a table of rows, and fails the
    statements (and COMMITs) its schedule says. *)

From S2P Require Import Prelude PyValue Codec Store Snapshot WireRows.
From S2P Require Import Postgres Sql SqlParse PostgresLaws PostgresTheorems.

Record FakePg := {
  fpg_schema : option Schema;
  fpg_rows : table;
  fpg_faults : list bool;   (* the empty schedule: nothing fails *)
}.

Definition fpg_table : pystr := lit "kv".

(** The names it takes: text without NUL. *)
Definition fpg_name (s : pystr) : Prop := valid_text s ∧ 0%N ∉ s.

#[export] Instance fpg_name_dec s : Decision (fpg_name s).
Proof. unfold fpg_name. apply _. Defined.
#[export] Instance Cell_dec : EqDecision Cell.
Proof. solve_decision. Defined.
#[export] Instance ColType_dec : EqDecision ColType.
Proof. solve_decision. Defined.
#[export] Instance ColDef_dec : EqDecision ColDef.
Proof. solve_decision. Defined.
#[export] Instance Schema_dec : EqDecision Schema.
Proof. solve_decision. Defined.
#[export] Instance schema_valid_dec sch : Decision (schema_valid sch).
Proof. unfold schema_valid. destruct (sch_pkey sch); apply _. Defined.
#[export] Instance sql_takes_dec s ps t : Decision (sql_takes fpg_name s ps t).
Proof.
  unfold sql_takes. destruct s as [| | | |c cs [?|]|]; try apply _.
  destruct (insert_row _ _); cbn [from_option]; apply _.
Defined.

(** The answer to a statement: rows in the order of the map, each once for DISTINCT. *)
Definition fpg_answer (s : Sql) (ps : list Param) (t : table) : list (list Cell) :=
  match s with
  | Select distinct sel w limit_1 =>
      let l := select_rows sel (hits w ps t) in
      let l := if distinct then remove_dups l else l in
      if limit_1 then take 1 l else l
  | SelectJoin c cs q on => join_rows (c :: cs) q on ps t
  | _ => []
  end.

Definition fpg_cursor (s : Sql) (ps : list Param) (t : table) : Cursor :=
  {| cur_rows := fpg_answer s ps t; cur_rowcount := kv_removed t (sql_effect s ps t) |}.

Definition set_fpg_rows (t : table) (c : FakePg) : FakePg :=
  {| fpg_schema := fpg_schema c; fpg_rows := t; fpg_faults := fpg_faults c |}.

(** The next step fails if the schedule says so. *)
Definition fpg_step : PyM FakePg unit := λ c,
  match fpg_faults c with
  | b :: f => (if b : bool then Raise StoreError else Ok tt,
               {| fpg_schema := fpg_schema c; fpg_rows := fpg_rows c; fpg_faults := f |})
  | [] => (Ok tt, c)
  end.

(** CREATE TABLE, and anything else on a table that is there. *)
Definition fpg_create (sch : Schema) (ps : list Param) (c : FakePg) : result Cursor * FakePg :=
  if decide (ps = [] ∧ schema_valid sch)
  then (Ok {| cur_rows := []; cur_rowcount := 0 |},
        match fpg_schema c with
        | None => {| fpg_schema := Some sch; fpg_rows := ∅; fpg_faults := fpg_faults c |}
        | Some _ => c
        end)
  else (Raise StoreError, c).

Definition fpg_run (s : Sql) (ps : list Param) (c : FakePg) : result Cursor * FakePg :=
  if decide (fpg_schema c = Some kv_schema ∧ sql_takes fpg_name s ps (fpg_rows c))
  then (Ok (fpg_cursor s ps (fpg_rows c)), set_fpg_rows (sql_effect s ps (fpg_rows c)) c)
  else (Raise StoreError, c).

Definition fpg_sql (s : Sql) (ps : list Param) : PyM FakePg Cursor :=
  fpg_step ;; act (match s with CreateTable sch => fpg_create sch ps | _ => fpg_run s ps end).

Definition fpg_execute (text : pystr) (ps : list Param) : PyM FakePg Cursor :=
  match parse_sql fpg_table text with
  | Some s => fpg_sql s ps
  | None => raise StoreError
  end.

#[export] Instance fpg_client : PgClient FakePg := {
  pg_execute := fpg_execute;
  pg_executemany text rows := for_each rows (λ ps, fpg_execute text ps ;; mret tt);
  pg_transaction A body := act (λ c,
    match (fpg_step ;; a ← body; fpg_step ;; mret a) c with
    | (Ok a, c') => (Ok a, c')
    | (r, c') => (r, {| fpg_schema := fpg_schema c; fpg_rows := fpg_rows c; fpg_faults := fpg_faults c' |})
    end);
  pg_shut := mret tt;
}.

Definition fpg_up (c : FakePg) : Prop :=
  fpg_faults c = [] ∧ map_Forall (λ p _, fpg_name p.1 ∧ fpg_name p.2) (fpg_rows c).

(** ** It meets the laws *)

Lemma fpg_execute_sql s ps : fpg_execute (sql_text fpg_table s) ps = fpg_sql s ps.
Proof. unfold fpg_execute. by rewrite parse_sql_text. Qed.

Lemma fpg_cursor_ok s ps t : sql_reply s ps t (fpg_cursor s ps t).
Proof.
  destruct s as [d sel w lim|c cs q on|w|q on|c cs o|sch]; cbn [sql_reply fpg_cursor cur_rows fpg_answer]; try done.
  eexists. split; [|done]. destruct d; [|done]. split; [apply NoDup_remove_dups|]. intros x.
  by rewrite elem_of_remove_dups.
Qed.

Lemma col_param_elem c (cols : list Col) (ps : list Param) x : col_param c cols ps = Some x → x ∈ ps.
Proof.
  revert ps. induction cols as [|c' cols IH]; intros [|y ps]; cbn; try done.
  case_decide; [intros [= ->]; left|]. intros Hx. right. by apply IH.
Qed.

Lemma insert_row_names (P : pystr → Prop) (cols : list Col) (ps : list Param) r :
  insert_row cols ps = Some r → Forall P (ps ≫= param_names) → P r.1.1 ∧ P r.1.2.
Proof.
  intros Hr HP. rewrite Forall_forall in HP. unfold insert_row in Hr.
  destruct (col_param (ColKey KNs) cols ps) as [[ns| |]|] eqn:E1; try done.
  destruct (col_param (ColKey KK) cols ps) as [[k| |]|] eqn:E2; try done.
  destruct (col_param ColV cols ps) as [[| v|]|]; try done. injection Hr as <-.
  apply col_param_elem in E1, E2. split; apply HP, list_elem_of_bind.
  - exists (TextP ns). split; [left|done].
  - exists (TextP k). split; [left|done].
Qed.

Lemma fpg_effect_up s ps c :
  fpg_up c → sql_takes fpg_name s ps (fpg_rows c) → fpg_up (set_fpg_rows (sql_effect s ps (fpg_rows c)) c).
Proof.
  intros [Hf Hn] (_&HP&_). split; [done|]. cbn [fpg_rows set_fpg_rows].
  revert Hn. generalize (fpg_rows c). intros t Hn.
  destruct s as [d sel w lim|c' cs q on|w|q on|c' cs o|sch]; cbn [sql_effect]; try done.
  1,2: intros p b [Hp _]%map_lookup_filter_Some; by apply (Hn p b).
  destruct (insert_row _ ps) as [r|] eqn:E; [|done].
  assert (map_Forall (λ p _, fpg_name p.1 ∧ fpg_name p.2) (<[r.1:=r.2]> t))
    by (apply map_Forall_insert_2; [by eapply insert_row_names|done]).
  destruct o as [[target []]|], (t !! r.1); done.
Qed.

Lemma fpg_sql_up s ps c :
  fpg_up c → fpg_schema c = Some kv_schema → sql_takes fpg_name s ps (fpg_rows c) →
  fpg_sql s ps c = (Ok (fpg_cursor s ps (fpg_rows c)), set_fpg_rows (sql_effect s ps (fpg_rows c)) c).
Proof.
  intros [Hf _] Hs Ht. unfold fpg_sql, mbind, pym_bind, fpg_step, act. rewrite Hf.
  destruct s; try (unfold fpg_run; by rewrite decide_True). by destruct Ht.
Qed.

Lemma fpg_step_same c r c' :
  fpg_step c = (r, c') → fpg_schema c' = fpg_schema c ∧ fpg_rows c' = fpg_rows c.
Proof. unfold fpg_step. destruct (fpg_faults c) as [|[] f]; by intros [= _ <-]. Qed.

Lemma fpg_sql_done s ps c cur c' :
  fpg_schema c = Some kv_schema → sql_typed s ps = true → fpg_sql s ps c = (Ok cur, c') →
  fpg_schema c' = Some kv_schema ∧ fpg_rows c' = sql_effect s ps (fpg_rows c).
Proof.
  intros Hs Ht. unfold fpg_sql, mbind, pym_bind, act. destruct (fpg_step c) as [[[]|e|] c1] eqn:E; [|done..].
  apply fpg_step_same in E as [E1 E2].
  assert (fpg_run s ps c1 = (Ok cur, c') → fpg_schema c' = Some kv_schema ∧
    fpg_rows c' = sql_effect s ps (fpg_rows c)) as H
    by (unfold fpg_run; case_decide; [|done]; intros [= _ <-]; cbn; by rewrite E1, E2).
  destruct s; try exact H. done.
Qed.

Lemma fpg_writes_up s (pss : list (list Param)) c :
  fpg_up c → fpg_schema c = Some kv_schema → sql_takes_all fpg_name s pss (fpg_rows c) →
  wp (pg_executemany (sql_text fpg_table s) pss) c (λ _ c',
    fpg_up c' ∧ fpg_schema c' = Some kv_schema ∧ fpg_rows c' = sql_effects s pss (fpg_rows c)).
Proof.
  revert c. induction pss as [|ps pss IH]; intros c Hup Hs Hok; [by apply wp_ret|].
  destruct Hok as [Hr Hok]. cbn [pg_executemany fpg_client for_each]. rewrite fpg_execute_sql.
  apply wp_bind, wp_bind. eapply wp_intro; [by apply fpg_sql_up|]. apply wp_ret.
  exact (IH (set_fpg_rows (sql_effect s ps (fpg_rows c)) c) (fpg_effect_up _ _ _ Hup Hr) Hs Hok).
Qed.

Lemma fpg_writes_done s (pss : list (list Param)) c c' :
  fpg_schema c = Some kv_schema → Forall (λ ps, sql_typed s ps = true) pss →
  pg_executemany (sql_text fpg_table s) pss c = (Ok tt, c') →
  fpg_schema c' = Some kv_schema ∧ fpg_rows c' = sql_effects s pss (fpg_rows c).
Proof.
  intros Hs Ht. revert c Hs. induction Ht as [|ps pss Hps _ IH]; intros c Hs; [by intros [= <-]|].
  cbn [pg_executemany fpg_client for_each]. rewrite fpg_execute_sql.
  unfold mbind, pym_bind. destruct (fpg_sql s ps c) as [[cur|e|] c1] eqn:E; [|done..].
  apply fpg_sql_done in E as [Hs1 E]; [|done..]. cbn [mret pym_ret]. intros [? H]%IH; [|done].
  split; [done|]. rewrite H, E. done.
Qed.

#[refine] Definition fpg_laws : PgLaws FakePg fpg_table := {|
  pg_schema := fpg_schema; pg_rows := fpg_rows; pg_up := fpg_up; pg_name := fpg_name;
|}.
Proof.
  - by intros s [? _].
  - intros c ns k b [_ Hn] Hb. by apply (Hn _ _ Hb).
  - intros c sch [Hf Hn] Hsch. cbn [pg_execute fpg_client]. rewrite fpg_execute_sql.
    unfold wp, fpg_sql, mbind, pym_bind, fpg_step, act, fpg_create. rewrite Hf, decide_True by done.
    destruct (fpg_schema c) eqn:E; [by rewrite E|]. split; [|done]. split; [done|]. apply map_Forall_empty.
  - intros c s ps Hup Hs Ht. cbn [pg_execute fpg_client]. rewrite fpg_execute_sql.
    eapply wp_intro; [by apply fpg_sql_up|]. split; [split; [by apply fpg_effect_up|done]|].
    apply fpg_cursor_ok.
  - intros c s pss. apply fpg_writes_up.
  - intros A c body Q Hup Hb. unfold wp. cbn [pg_transaction fpg_client]. unfold act.
    unfold mbind, pym_bind. unfold fpg_step at 1. pose proof Hup as [Hf _]. rewrite Hf.
    specialize (Hb c Hup eq_refl eq_refl). unfold wp in Hb. destruct (body c) as [[a|e|] c1]; [|done..].
    destruct Hb as [Hup1 HQ]. unfold fpg_step. pose proof Hup1 as [Hf1 _]. rewrite Hf1. done.
  - intros c s ps cur c' Hs Ht. cbn [pg_execute fpg_client]. rewrite fpg_execute_sql. by apply fpg_sql_done.
  - intros c s pss c'. apply fpg_writes_done.
  - intros A c body res c'. cbn [pg_transaction fpg_client]. unfold act, mbind, pym_bind.
    destruct (fpg_step c) as [[[]|e|] c0] eqn:E0; [|by intros [= <- <-]; left..].
    destruct (body c0) as [[a|e|] c1] eqn:Eb; [|by intros [= <- <-]; left..].
    destruct (fpg_step c1) as [[[]|e|] c2] eqn:E2; [|by intros [= <- <-]; left..].
    intros [= <- <-]. right. exists c0, a, c1. apply fpg_step_same in E0, E2.
    by destruct E0, E2.
Defined.
