(* ===== verification/PostgresProps.v ===== *)
(** * Properties of the Postgres store

    The refinement of the reference store, what the transactions leave when
    something fails, and the async twins. *)

From Stdlib Require Import ZifyBool.
From S2P Require Import Prelude PyValue Codec CodecLemmas CodecTheorems Store StoreTrace Snapshot WireRows.
From S2P Require Import Postgres Sql PostgresLaws PostgresTheorems PostgresFake.

#[local] Arguments lit : simpl never.
#[local] Arguments Queries_init : simpl never.

Section Theorems.
Context {C : Type} {client : PgClient C} (cfg : PgConfig).
Context (pack : pyval → result bytes) (unpack : bytes → result pyval).
Implicit Types s : PostgresStore C.

(** ** Lemmas: what an operation leaves as it is *)

(** No operation opens or closes the store. *)
Definition same_open s s' : Prop := pg_open s' = pg_open s.

#[local] Instance same_open_preorder : PreOrder same_open.
Proof. split; [done|]. intros x y z Hxy Hyz. unfold same_open in *. congruence. Qed.

Lemma steps_on_pg {A : Type} (m : PyM C A) : steps same_open (on_pg m).
Proof. intros s. unfold on_pg, act. by destruct (m (pg_server s)) as [r c]. Qed.

Lemma steps_connection : steps same_open (connection (C:=C)).
Proof. intros s. unfold connection, mbind, pym_bind, gets. cbn. by destruct (_ || _). Qed.

#[local] Hint Resolve steps_on_pg steps_connection : steps.

Lemma run_call_open c : steps same_open (run_call (postgres_ops cfg pack unpack) c).
Proof.
  destruct c as [ns k v|ns k|ns k|ns k|ns [p|]|ns|[p|]|[|i items]|[|p pairs]|[|p pairs]|ns];
    unfold run_call, postgres_ops; cbn [op_set op_get op_contains op_delete op_keys op_max_key
      op_namespaces op_set_many op_get_many op_delete_many op_delete_namespace];
    try lazymatch goal with
    | |- steps ?R (method (Some ?f) ≫= ?g) => change (steps R (g f)); cbv beta
    end;
    unfold PostgresStore_set, PostgresStore_get, PostgresStore_contains, PostgresStore_delete,
      PostgresStore_keys, PostgresStore_max_key, PostgresStore_namespaces, PostgresStore_set_many,
      PostgresStore_get_many, PostgresStore_delete_many, PostgresStore_delete_namespace, pg_run;
    steps_all.
Qed.

Lemma connection_then {A : Type} (m : PyM (PostgresStore C) A) s :
  pg_open s = true → (connection ;; m) s = m s.
Proof. unfold pg_open, connection, mbind, pym_bind, gets. cbn. by intros ->. Qed.

Lemma aconnection_then {A : Type} (m : PyM (PostgresStore C) A) s :
  PostgresStore_supports_async cfg = true → (aconnection cfg ;; m) s = m s.
Proof.
  unfold PostgresStore_supports_async, aconnection.
  destruct (pg_apool cfg), (pg_dsn cfg); done.
Qed.

Lemma aconnection_raises {A : Type} (m : PyM (PostgresStore C) A) s :
  PostgresStore_supports_async cfg = false → (aconnection cfg ;; m) s = (Raise RuntimeError, s).
Proof.
  unfold PostgresStore_supports_async, aconnection.
  destruct (pg_apool cfg), (pg_dsn cfg); done.
Qed.

Lemma async_call_pg c s :
  PostgresStore_supports_async cfg = true → pg_open s = true →
  run_call (apostgres_ops cfg pack unpack) c s = run_call (postgres_ops cfg pack unpack) c s.
Proof.
  intros Ha Ho.
  assert (∀ A (m : PyM (PostgresStore C) A), (aconnection cfg ;; m) s = (connection ;; m) s) as H
    by (intros A m; by rewrite aconnection_then, connection_then).
  destruct c as [ns k v|ns k|ns k|ns k|ns pfx|ns|pfx|items|pairs|pairs|ns];
    cbn [run_call op_set op_get op_contains op_delete op_keys op_max_key
      op_namespaces op_set_many op_get_many op_delete_many op_delete_namespace apostgres_ops postgres_ops].
  all: try (apply bind_same; exact (H _ _)).
  - apply (bind_same (PostgresStore_aset_many cfg pack items)). destruct items as [|i items]; [done|].
    unfold PostgresStore_aset_many, PostgresStore_set_many, mbind, pym_bind, lift.
    destruct (mapM (packed_row pack) (i :: items)); [|done..]. exact (H _ _).
  - apply (bind_same (PostgresStore_aget_many cfg unpack pairs)). destruct pairs; [done|]. exact (H _ _).
  - apply (bind_same (PostgresStore_adelete_many cfg pairs)). destruct pairs; [done|]. exact (H _ _).
  - apply (bind_same (PostgresStore_adelete_namespace cfg ns)). exact (H _ _).
Qed.

(** ** Properties *)

(** The async methods of [PostgresStore] are its sync methods: on an open store
    with an async pool (given, or built from the DSN) any sequence of awaited calls
    gives the answers and leaves the store of the same sync calls. On a store
    without one, every awaited call that has work to do raises before the server is
    contacted: RuntimeError, or for [aset_many], which packs first, what packing a
    value raised. *)
Theorem postgres_async_twins cs s :
  pg_open s = true →
  if PostgresStore_supports_async cfg
  then run_calls (apostgres_ops cfg pack unpack) cs s = run_calls (postgres_ops cfg pack unpack) cs s
  else ∀ c, match c with CSetMany [] | CGetMany [] | CDeleteMany [] => False | _ => True end →
       let '(r, s') := run_call (apostgres_ops cfg pack unpack) c s in
       s' = s ∧ is_ok r = false ∧ match c with CSetMany _ => True | _ => r = Raise RuntimeError end.
Proof.
  intros Ho. destruct (PostgresStore_supports_async cfg) eqn:Hs.
  - unfold run_calls. revert s Ho. induction cs as [|c' cs IH]; intros s Ho; [done|]. cbn [mapM].
    unfold mbind, pym_bind. rewrite async_call_pg by done. pose proof (run_call_open c' s) as Hopen.
    destruct (run_call _ _ s) as [[a|e|] s']; [|done..].
    by rewrite IH by (etransitivity; [exact Hopen|done]).
  - intros c Hc.
    assert (∀ A B (m m' : PyM (PostgresStore C) A) (f : A → PyM (PostgresStore C) B),
      m = (aconnection cfg ;; m') → (m ≫= f) s = (Raise RuntimeError, s)) as H
      by (intros A B m m' f ->; unfold mbind at 1, pym_bind at 1; by rewrite aconnection_raises).
    destruct c as [ns k v|ns k|ns k|ns k|ns pfx|ns|pfx|[|i items]|[|p pairs]|[|p pairs]|ns]; try done.
    8:{ change (run_call _ (CSetMany (i :: items)) s) with
          ((PostgresStore_aset_many cfg pack (i :: items) ;; mret ADone) s).
        unfold PostgresStore_aset_many, mbind at 1, pym_bind at 1. unfold mbind at 1, pym_bind at 1, lift.
        destruct (mapM (packed_row pack) (i :: items)) as [rows|e|]; [|done..].
        by rewrite aconnection_raises. }
    all: match goal with |- let '(_, _) := ?x in _ => cut (x = (Raise RuntimeError, s)); [by intros ->|] end.
    all: try (by eapply H).
    + exact (H _ _ (PostgresStore_aget_many cfg unpack (p :: pairs)) _ (λ l, mret (AValues l)) eq_refl).
    + exact (H _ _ (PostgresStore_adelete_many cfg (p :: pairs)) _ (λ n, mret (ACount n)) eq_refl).
    + exact (H _ _ (PostgresStore_adelete_namespace cfg ns) _ (λ n, mret (ACount n)) eq_refl).
Qed.

Context {laws : PgLaws C (pg_table cfg)}.

(** C25: [PostgresStore] implements the contract of [protocols.py], for the names
    Postgres takes: on a server that gives SQL its documented meaning, for whatever
    statement it is sent, with a [msgpack] that unpacks what it packs, a client that
    makes any sequence of calls with such names and storable values gets, call by
    call, the answers of the reference store holding the same data (the counts of
    batch deletes included), and leaves the same data behind. Opening the store makes
    its table where there is none, empty, and otherwise starts from the rows there. *)
Theorem postgres_refines_reference :
  (∀ v, storable v → ∃ b, pack v = Ok b ∧ unpack b = Ok v) →
  (∀ cs s, pg_ok cfg unpack s → Forall (call_takes pg_name) cs →
   ∃ answers s',
     run_calls (postgres_ops cfg pack unpack) cs s = (Ok answers, s') ∧
     run_calls (reference true) cs (pg_view cfg unpack s) = (Ok answers, pg_view cfg unpack s') ∧
     pg_ok cfg unpack s') ∧
  (∀ psycopg_pool conn pool apool c, is_ident (pg_table cfg) = true → pg_up c →
   pg_schema c = None ∨ pg_schema c = Some kv_schema → map_Forall (row_ok unpack) (pg_rows c) →
   ∃ cfg' s,
     PostgresStore_init psycopg_pool conn pool apool (pg_table cfg) (lit "msgpack") c = Ok (cfg', s) ∧
     pg_table cfg' = pg_table cfg ∧ pg_ok cfg unpack s ∧
     pg_view cfg unpack s = match pg_schema c with None => ∅ | Some _ => unpacked unpack <$> pg_rows c end).
Proof.
  intros Hpack. split; [|apply postgres_init_ok]. intros cs s Hs Hcs.
  destruct (wp_elim _ _ _ (run_calls_simulates (ops:=postgres_ops cfg pack unpack)
    (spec:=postgres_spec cfg pack unpack Hpack) true
    ltac:(split; [done|split_and!; by eexists]) cs s Hs Hcs)) as (l&s'&H&Hok&Hr).
  exists l, s'. by split_and!.
Qed.

Lemma packed_rows (items : list (pystr * pystr * pyval)) rows :
  mapM (packed_row pack) items = Ok rows → Forall2 (λ i x, x.1 = i.1 ∧ pack i.2 = Ok x.2) items rows.
Proof.
  intros H%mapM_Ok_Forall2. eapply Forall2_impl; [exact H|]. intros [p v] x.
  unfold packed_row. cbn. destruct (pack v); by intros [= <-].
Qed.

(** What a block leaves of a table of this layout, whatever happens. *)
Lemma block_rows {A : Type} (body : PyM C A) s (r : result A) s' (R : table → table → Prop) :
  pg_schema (pg_server s) = Some kv_schema →
  (∀ c a c', pg_schema c = Some kv_schema → body c = (Ok a, c') → R (pg_rows c) (pg_rows c')) →
  on_pg (pg_transaction body) s = (r, s') →
  R (store_rows cfg s) (store_rows cfg s') ∨ store_rows cfg s' = store_rows cfg s ∧ is_ok r = false.
Proof.
  intros Hs Hbody. unfold on_pg, act. destruct (pg_transaction body (pg_server s)) as [res c'] eqn:E.
  intros [= <- <-]. unfold store_rows. cbn [pg_server set_pg_server].
  destruct (transaction_atomic _ _ _ _ E) as [(_&Hc&Hne)|(c0&a&c1&[H0 H1]&Hb&_&H2)].
  - right. split; [done|]. destruct res as [a| |]; [by destruct (Hne a)|done..].
  - left. rewrite H2, <-H1. apply (Hbody _ _ _ (eq_trans H0 Hs) Hb).
Qed.

(** [set_many] is atomic on Postgres: when it returns, every item of the batch is
    written (in order, so the last of two items with one key wins); when it raises,
    whatever failed, the table is as it was, or holds all of the batch (when the
    server's answer to the COMMIT was what got lost); never a part of it. *)
Theorem postgres_set_many_atomic items s (r : result unit) s' :
  pg_schema (pg_server s) = Some kv_schema → PostgresStore_set_many cfg pack items s = (r, s') →
  (∃ rows, Forall2 (λ i x, x.1 = i.1 ∧ pack i.2 = Ok x.2) items rows ∧
           store_rows cfg s' = rows_written (store_rows cfg s) rows) ∨
  store_rows cfg s' = store_rows cfg s ∧ is_ok r = false.
Proof.
  intros Hs. unfold PostgresStore_set_many. destruct items as [|i items].
  { intros [= <- <-]. left. exists []. by split. }
  cbv beta iota. unfold mbind at 1, pym_bind at 1, lift.
  destruct (mapM (packed_row pack) (i :: items)) as [rows|e|] eqn:E; [|by intros [= <- <-]; right..].
  apply packed_rows in E. unfold mbind, pym_bind, connection, gets. cbn [mret pym_ret id].
  unfold mbind, pym_bind. destruct (pg_pool s || pg_conn s); cbn [mret pym_ret raise];
    [|by intros [= <- <-]; right].
  intros H. apply (block_rows _ _ _ _ (λ t t', t' = rows_written t rows) Hs) in H as [H|H]; [left|by right|].
  - by exists rows.
  - intros c [] c' Hc Hb. by apply (executemany_stmt_done c false).
Qed.

(** A snapshot holds the rows of the table, once each. *)
Lemma snapshot_rows now s snap s1 :
  pg_ok cfg unpack s → PostgresStore_snapshot cfg now s = (Ok snap, s1) →
  snap_rows snap ≡ₚ map_to_list (store_rows cfg s) ∧
  Forall (λ r, pg_name r.1.1 ∧ pg_name r.1.2) (snap_rows snap).
Proof.
  intros Hs E.
  cut (wp (PostgresStore_snapshot cfg now) s (λ snap _, snap_rows snap ≡ₚ map_to_list (store_rows cfg s))).
  { unfold wp. rewrite E. intros Hp. split; [done|]. rewrite Hp. apply Forall_forall.
    intros [[ns k] b] Hin%elem_of_map_to_list. by eapply pg_rows_names; [apply Hs|]. }
  unfold PostgresStore_snapshot. apply wp_bind, (connection_wp cfg unpack); [done|].
  eapply wp_bind_mono; [by apply (stmt_wp cfg unpack SAllRows)|].
  intros cur s' [_ (l&Hl&Hp)]. rewrite Hl, cells_rows. apply wp_bind, (wp_lift _ l); [done|].
  by unfold wp, act.
Qed.

(** On a healthy server, [restore] writes the rows of the snapshot. *)
Lemma pg_restore_wp (rows : list row) (t : table) (s : PostgresStore C) snap :
  snap_rows snap = rows → rows ≡ₚ map_to_list t → Forall (λ r, pg_name r.1.1 ∧ pg_name r.1.2) rows →
  pg_ready (pg_server s) → pg_open s = true →
  wp (PostgresStore_restore cfg snap) s (λ _ s',
    (pg_ready (pg_server s') ∧ pg_open s' = true) ∧ store_rows cfg s' = t).
Proof.
  intros <- Hp Hn [Hup Hs] Ho. unfold PostgresStore_restore, wp. rewrite connection_then by done.
  apply on_pg_wp. eapply wp_mono.
  { apply (transaction_law _ _ (λ _ sch t', sch = Some kv_schema ∧ t' = t)); [done|].
    intros c0 Hup0 Hs0 _. eapply wp_bind_mono; [apply (execute_stmt c0 SClear); [by split; [|rewrite Hs0]|done]|].
    intros cur c1 [[Hup1 H1] _]. eapply wp_mono; [apply (executemany_stmt c1 true); [done|]|].
    - rewrite H1. apply inserts_ok; [done| |done]. rewrite Hp. apply NoDup_fst_map_to_list.
    - intros [] c2 [[? ?] H2]. split_and!; [done..|]. rewrite H2, H1. by apply rows_written_perm. }
  by intros [] c2 (?&?&H2).
Qed.

(** [restore] brings back what [snapshot] saw or leaves what is there: with any
    writes in between and whatever fails, the table afterwards holds exactly the
    rows the snapshot was taken of, or [restore] raises with exactly the rows there
    were (it is never left emptied or half filled); on a healthy server it returns. *)
Theorem postgres_restore_snapshot now s snap s1 s2 (r : result unit) s3 :
  pg_ok cfg unpack s → PostgresStore_snapshot cfg now s = (Ok snap, s1) →
  pg_schema (pg_server s2) = Some kv_schema → PostgresStore_restore cfg snap s2 = (r, s3) →
  (store_rows cfg s3 = store_rows cfg s ∨ store_rows cfg s3 = store_rows cfg s2 ∧ is_ok r = false) ∧
  (pg_up (pg_server s2) → pg_open s2 = true → r = Ok tt).
Proof.
  intros Hs Hsnap Hsch Hr. apply snapshot_rows in Hsnap as [Hp Hn]; [|done].
  pose proof (rows_written_perm _ _ Hp) as Hrows. split.
  - revert Hr. unfold PostgresStore_restore, mbind at 1, pym_bind at 1, connection, gets.
    unfold mbind, pym_bind, mret, pym_ret. cbn [id].
    destruct (pg_pool s2 || pg_conn s2); [|by intros [= <- <-]; right].
    intros H. apply (block_rows _ _ _ _ (λ _ t', t' = store_rows cfg s) Hsch) in H; [done|].
    intros c [] c' Hc. destruct (pg_execute _ _ c) as [[cur|e|] c1] eqn:E1; [|done..].
    apply (execute_stmt_done _ SClear) in E1 as [Hc1 E1]; [|done].
    intros [_ E2]%(executemany_stmt_done _ true); [|done]. by rewrite E2, E1, <-Hrows.
  - intros Hup Ho. pose proof (pg_restore_wp _ _ s2 snap eq_refl Hp Hn (conj Hup Hsch) Ho) as Hwp.
    unfold wp in Hwp. rewrite Hr in Hwp. by destruct r as [[]| |].
Qed.
End Theorems.

(** ** Examples *)

Definition ex_pg_cfg : PgConfig := {| pg_table := fpg_table; pg_dsn := true; pg_apool := false |}.
Definition ex_one : bytes := match encode (PInt 1) with Ok b => b | _ => [] end.

(** A store with one row, on a server that will fail the given steps. *)
Definition ex_pg (f : list bool) (t : table) : PostgresStore FakePg :=
  {| pg_server := {| fpg_schema := Some kv_schema; fpg_rows := t; fpg_faults := f |}; pg_meta := SnapshotMeta_init;
     pg_pool := true; pg_conn := false |}.
Definition ex_rows : table := {[ (lit "n", lit "k") := ex_one ]}.

#[local] Existing Instance fpg_client.
#[local] Existing Instance fpg_laws.

Lemma ex_pg_ok : pg_ok (laws:=fpg_laws) ex_pg_cfg decode (ex_pg [] ex_rows).
Proof.
  split; [split; [split; [split; [done|]|done]|done]|].
  - apply map_Forall_singleton. split; (split; [by apply (bool_decide_unpack _)|]);
      by apply (bool_decide_unpack _).
  - apply map_Forall_singleton. split_and!; [by apply (bool_decide_unpack _)..|].
    exists (PInt 1). split; [by vm_compute|]. by apply (bool_decide_unpack _).
Qed.

Abbreviation ex_pg_calls :=
  [CSetMany [(lit "n", lit "j", PInt 2); (lit "n", lit "j", PInt 3)];
   CKeys (lit "n") (Some (lit "j")); CMaxKey (lit "n");
   CDeleteMany [(lit "n", lit "k"); (lit "n", lit "no")]].

Lemma postgres_refines_reference_witness :
  (∃ answers s',
    run_calls (postgres_ops ex_pg_cfg encode decode) ex_pg_calls (ex_pg [] ex_rows) = (Ok answers, s') ∧
    run_calls (reference true) ex_pg_calls (pg_view ex_pg_cfg decode (ex_pg [] ex_rows)) =
      (Ok answers, pg_view ex_pg_cfg decode s') ∧
    pg_ok (laws:=fpg_laws) ex_pg_cfg decode s') ∧
  (∃ cfg' s,
    PostgresStore_init true false false false fpg_table (lit "msgpack")
      {| fpg_schema := None; fpg_rows := ∅; fpg_faults := [] |} = Ok (cfg', s) ∧
    pg_table cfg' = fpg_table ∧ pg_ok (laws:=fpg_laws) ex_pg_cfg decode s ∧
    pg_view ex_pg_cfg decode s = ∅).
Proof.
  destruct (postgres_refines_reference (laws:=fpg_laws) ex_pg_cfg encode decode codec_round_trip) as [Hcalls Hinit].
  split.
  - apply (Hcalls ex_pg_calls); [exact ex_pg_ok|]. repeat constructor; by apply (bool_decide_unpack _).
  - apply (Hinit true false false false {| fpg_schema := None; fpg_rows := ∅; fpg_faults := [] |});
      [reflexivity|split; [reflexivity|apply map_Forall_empty]|by left|apply map_Forall_empty].
Defined.

(** BEGIN, two upserts, the second of which fails: nothing is written. *)
Lemma postgres_set_many_atomic_witness :
  let '(r, s') := PostgresStore_set_many ex_pg_cfg encode
    [(lit "n", lit "j", PInt 2); (lit "n", lit "l", PInt 3)] (ex_pg [false; false; true] ex_rows) in
  r = Raise StoreError ∧
  ((∃ rows, Forall2 (λ i x, x.1 = i.1 ∧ encode i.2 = Ok x.2)
      [(lit "n", lit "j", PInt 2); (lit "n", lit "l", PInt 3)] rows ∧
    store_rows (laws:=fpg_laws) ex_pg_cfg s' = rows_written ex_rows rows) ∨
   store_rows (laws:=fpg_laws) ex_pg_cfg s' = ex_rows ∧ is_ok r = false).
Proof.
  destruct (PostgresStore_set_many ex_pg_cfg encode [(lit "n", lit "j", PInt 2); (lit "n", lit "l", PInt 3)]
    (ex_pg [false; false; true] ex_rows)) as [r s'] eqn:E. split.
  - transitivity (PostgresStore_set_many ex_pg_cfg encode
      [(lit "n", lit "j", PInt 2); (lit "n", lit "l", PInt 3)] (ex_pg [false; false; true] ex_rows)).1;
      [by rewrite E|by vm_compute].
  - exact (postgres_set_many_atomic (laws:=fpg_laws) ex_pg_cfg encode _ (ex_pg [false; false; true] ex_rows) _ _ eq_refl E).
Defined.

(** A snapshot restored into a table that has since changed. *)
Lemma postgres_restore_snapshot_witness : ∃ snap s1 s3,
  PostgresStore_snapshot ex_pg_cfg 7 (ex_pg [] ex_rows) = (Ok snap, s1) ∧
  PostgresStore_restore ex_pg_cfg snap (ex_pg [] {[ (lit "n", lit "x") := [] ]}) = (Ok tt, s3) ∧
  store_rows (laws:=fpg_laws) ex_pg_cfg s3 = ex_rows.
Proof.
  destruct (PostgresStore_snapshot ex_pg_cfg 7 (ex_pg [] ex_rows)) as [r s1] eqn:Es.
  assert (is_ok r = true) as Hr.
  { transitivity (is_ok (PostgresStore_snapshot ex_pg_cfg 7 (ex_pg [] ex_rows)).1);
      [by rewrite Es|by vm_compute]. }
  destruct r as [snap|e|]; [|discriminate Hr..].
  destruct (PostgresStore_restore ex_pg_cfg snap (ex_pg [] {[ (lit "n", lit "x") := [] ]})) as [r s3] eqn:Er.
  pose proof (postgres_restore_snapshot (laws:=fpg_laws) ex_pg_cfg decode 7 (ex_pg [] ex_rows) snap s1
    (ex_pg [] {[ (lit "n", lit "x") := [] ]}) r s3 ex_pg_ok Es eq_refl Er) as [Hrows Hok].
  assert (r = Ok tt) as ->.
  { apply Hok; [|reflexivity]. split; [reflexivity|]. apply map_Forall_singleton.
    split; (split; [by apply (bool_decide_unpack _)|]); by apply (bool_decide_unpack _). }
  exists snap, s1, s3. split; [reflexivity|]. split; [exact Er|].
  destruct Hrows as [H|[_ H]]; [exact H|discriminate H].
Defined.

Lemma postgres_async_twins_witness :
  run_calls (apostgres_ops ex_pg_cfg encode decode) ex_pg_calls (ex_pg [] ex_rows) =
  run_calls (postgres_ops ex_pg_cfg encode decode) ex_pg_calls (ex_pg [] ex_rows).
Proof.
  exact (postgres_async_twins ex_pg_cfg encode decode ex_pg_calls (ex_pg [] ex_rows) eq_refl).
Defined.
