(* ===== verification/AsyncPools.v ===== *)
(** * The async pools of [PostgresStore] and clients of [RedisStore]

    Async connections belong to an event loop. [PostgresStore] keeps a pool (or one
    locked connection) per loop, opened by the first operation that needs it; opening
    is awaited, so two tasks can race and the loser closes what it opened.
    [RedisStore] keeps a client per loop. The tasks interleave at their awaits; loops
    in different threads interleave anywhere. A loop lives as long as its tasks. *)

From stdpp Require Import relations.
From S2P Require Import Prelude Interleave.

(** ** Postgres *)

(** What [_open_async] returns: a pool, or a connection and its lock. *)
Inductive Entry := EPool (p : nat) | EConn (c : nat).

#[global] Instance Entry_eq_dec : EqDecision Entry.
Proof. solve_decision. Defined.

Definition entry_id (e : Entry) : nat := match e with EPool p => p | EConn c => c end.

Record PgPools := {
  pp_handles : Handles;           (* the pools and connections the store opened *)
  pp_apools : gmap nat Entry;     (* [self._apools], by event loop *)
  pp_locked : gset nat;           (* the connections whose lock is taken *)
  pp_dsn : bool;                  (* [self._dsn is not None] *)
  pp_apool : bool;                (* [self._apool is not None] *)
}.

Definition PgPools_init (dsn apool : bool) : PgPools := {|
  pp_handles := no_handles; pp_apools := ∅; pp_locked := ∅;
  pp_dsn := dsn; pp_apool := apool;
|}.

Definition set_pools (h : Handles) (m : gmap nat Entry) (s : PgPools) : PgPools := {|
  pp_handles := h; pp_apools := m; pp_locked := pp_locked s;
  pp_dsn := pp_dsn s; pp_apool := pp_apool s;
|}.
Definition set_locked (l : gset nat) (s : PgPools) : PgPools := {|
  pp_handles := pp_handles s; pp_apools := pp_apools s; pp_locked := l;
  pp_dsn := pp_dsn s; pp_apool := pp_apool s;
|}.
(** [self._apool = None] *)
Definition drop_injected (s : PgPools) : PgPools := {|
  pp_handles := pp_handles s; pp_apools := pp_apools s; pp_locked := pp_locked s;
  pp_dsn := pp_dsn s; pp_apool := false;
|}.

Inductive PgTask :=
  | AStart (l : nat)                      (* [_aconnection] is entered on loop [l] *)
  | AOpening (l : nat)                    (* awaits [pool.open()] or [connect] *)
  | AMade (l : nat) (made : Entry)        (* before [setdefault] *)
  | ALosing (l : nat) (made e : Entry)    (* awaits [_close_async(made)] *)
  | AEntry (l : nat) (e : Entry)          (* awaits the pool's connection or the lock *)
  | AUsing (l : nat) (e : Entry)          (* yielded the connection *)
  | AInjected (l : nat)                   (* yielded one of the injected pool's *)
  | AServed (l : nat) (e : option Entry)  (* returned *)
  | ARefused                              (* raised RuntimeError *)
  | AFailed (e : option Entry)            (* raised otherwise, with [e] left open *)
  | AClose (l : nat)                      (* [aclose] is called on loop [l] *)
  | AClosing (e : Entry)                  (* awaits [_close_async(e)] *)
  | AClosingInjected                      (* awaits [self._apool.close()] *)
  | AClosed.

Section postgres.
Context (psycopg_pool : bool).  (* whether it is installed *)

(** [_open_async], once awaited *)
Definition open_async (s : PgPools) : PgPools * Entry :=
  let id := h_next (pp_handles s) in
  (set_pools (h_new (pp_handles s)) (pp_apools s) s,
   if psycopg_pool then EPool id else EConn id).

(** [_close_async], once awaited *)
Definition close_async (e : Entry) (s : PgPools) : PgPools :=
  set_pools (h_close (entry_id e) (pp_handles s)) (pp_apools s) s.

Definition aconnection_step (ok : bool) (s : PgPools) (t : PgTask) : option (PgPools * PgTask) :=
  match t with
  | AStart l =>
      if pp_apool s then Some (s, AInjected l)
      else match pp_apools s !! l with
           | Some e => Some (s, AEntry l e)
           | None => if pp_dsn s then Some (s, AOpening l) else Some (s, ARefused)
           end
  | AOpening l =>
      if ok then let '(s', made) := open_async s in Some (s', AMade l made)
      else Some (s, AFailed None)
  | AMade l made =>
      match pp_apools s !! l with
      | None => Some (set_pools (pp_handles s) (<[l := made]> (pp_apools s)) s, AEntry l made)
      | Some e => if decide (e = made) then Some (s, AEntry l e) else Some (s, ALosing l made e)
      end
  | ALosing l made e =>
      if ok then Some (close_async made s, AEntry l e) else Some (s, AFailed (Some made))
  | AEntry l (EPool p) => if ok then Some (s, AUsing l (EPool p)) else Some (s, AFailed None)
  | AEntry l (EConn c) =>
      if decide (c ∈ pp_locked s) then None
      else Some (set_locked ({[c]} ∪ pp_locked s) s, AUsing l (EConn c))
  | AUsing l (EPool p) => Some (s, AServed l (Some (EPool p)))
  | AUsing l (EConn c) =>
      Some (set_locked (pp_locked s ∖ {[c]}) s, AServed l (Some (EConn c)))
  | AInjected l => if ok then Some (s, AServed l None) else Some (s, AFailed None)
  | _ => None
  end.

Definition aclose_step (ok : bool) (s : PgPools) (t : PgTask) : option (PgPools * PgTask) :=
  match t with
  | AClose l =>
      if pp_apool s then Some (s, AClosingInjected)
      else match pp_apools s !! l with
           | Some e => Some (set_pools (pp_handles s) (delete l (pp_apools s)) s, AClosing e)
           | None => Some (s, AClosed)
           end
  | AClosing e => if ok then Some (close_async e s, AClosed) else Some (s, AFailed (Some e))
  | AClosingInjected => if ok then Some (drop_injected s, AClosed) else Some (s, AFailed None)
  | _ => None
  end.

Definition pool_step (ok : bool) (s : PgPools) (t : PgTask) : option (PgPools * PgTask) :=
  match t with
  | AClose _ | AClosing _ | AClosingInjected => aclose_step ok s t
  | _ => aconnection_step ok s t
  end.

Abbreviation pool_run := (rtc (istep pool_step)).

Definition pool_called (t : PgTask) : bool :=
  match t with AStart _ | AClose _ => true | _ => false end.
Definition pool_ended (t : PgTask) : bool :=
  match t with AServed _ _ | ARefused | AFailed _ | AClosed => true | _ => false end.
Definition pool_failed (t : PgTask) : bool := match t with AFailed _ => true | _ => false end.

(** *** The account of the pools *)

Definition pool_kept (s : PgPools) : list nat := entry_id <$> (map_to_list (pp_apools s)).*2.
Definition pool_held (t : PgTask) : list nat :=
  match t with
  | AMade _ e | ALosing _ e _ | AClosing e | AFailed (Some e) => [entry_id e]
  | _ => []
  end.
Definition pool_account (s : PgPools) (ts : list PgTask) : Prop :=
  owns (pool_kept s ++ (ts ≫= pool_held)) (pp_handles s).

Lemma pool_kept_insert l e s :
  pp_apools s !! l = None →
  entry_id <$> (map_to_list (<[l := e]> (pp_apools s))).*2 ≡ₚ entry_id e :: pool_kept s.
Proof. intros Hl. unfold pool_kept. by rewrite map_to_list_insert. Qed.

Lemma pool_kept_delete l e s :
  pp_apools s !! l = Some e →
  pool_kept s ≡ₚ entry_id e :: (entry_id <$> (map_to_list (delete l (pp_apools s))).*2).
Proof. intros Hl. unfold pool_kept. by rewrite <-(map_to_list_delete _ l e). Qed.

Lemma pool_account_step ok s t s' t' ts :
  pool_step ok s t = Some (s', t') → pool_account s (t :: ts) → pool_account s' (t' :: ts).
Proof.
  unfold pool_account. rewrite !bind_cons. intros Hs H.
  destruct t as [l|l|l m|l m e|l [p|c]|l [p|c]|l|l e| |e|l|e| |]; cbn in Hs; try done.
  - destruct (pp_apool s), (pp_apools s !! l), (pp_dsn s); by simplify_eq.
  - destruct ok; simplify_eq; [|done]. cbn -[owns]. unfold pool_kept in *. cbn.
    replace (entry_id (if psycopg_pool then _ else _)) with (h_next (pp_handles s))
      by by destruct psycopg_pool.
    rewrite <-Permutation_middle. by apply owns_new.
  - destruct (pp_apools s !! l) as [e|] eqn:El; [case_decide|]; simplify_eq; cbn in *; [|done|].
    + apply owns_NoDup in H. rewrite (pool_kept_delete _ _ _ El) in H.
      apply NoDup_cons in H as [[]%not_elem_of_app _]. set_solver.
    + unfold pool_kept at 1. cbn. rewrite pool_kept_insert by done. cbn.
      by rewrite Permutation_middle.
  - destruct ok; simplify_eq; [|done]. cbn in *. apply owns_close.
    by rewrite Permutation_middle.
  - destruct ok; by simplify_eq.
  - case_decide; by simplify_eq.
  - by simplify_eq.
  - by simplify_eq.
  - destruct ok; by simplify_eq.
  - destruct (pp_apool s); [by simplify_eq|]. destruct (pp_apools s !! l) as [e|] eqn:El; simplify_eq; [|done].
    cbn in *. rewrite (pool_kept_delete _ _ _ El) in H. unfold pool_kept at 1. cbn.
    by rewrite <-Permutation_middle.
  - destruct ok; simplify_eq; [|done]. cbn in *. apply owns_close. by rewrite Permutation_middle.
  - destruct ok; by simplify_eq.
Qed.

(** *** The locks of the single connections *)

Definition pool_in_use (t : PgTask) : list nat :=
  match t with AUsing _ (EConn c) => [c] | _ => [] end.
Definition pool_locks (s : PgPools) (ts : list PgTask) : Prop :=
  (ts ≫= pool_in_use) ≡ₚ elements (pp_locked s).

Lemma pool_locks_step ok s t s' t' ts :
  pool_step ok s t = Some (s', t') → pool_locks s (t :: ts) → pool_locks s' (t' :: ts).
Proof.
  unfold pool_locks. rewrite !bind_cons. intros Hs H.
  destruct t as [l|l|l m|l m e|l [p|c]|l [p|c]|l|l e| |e|l|e| |]; cbn in Hs; try done.
  - destruct (pp_apool s), (pp_apools s !! l), (pp_dsn s); by simplify_eq.
  - destruct ok; by simplify_eq.
  - destruct (pp_apools s !! l) as [e|]; [case_decide|]; by simplify_eq.
  - destruct ok; by simplify_eq.
  - destruct ok; by simplify_eq.
  - case_decide; simplify_eq. cbn in *. rewrite elements_union_singleton by done. by f_equiv.
  - by simplify_eq.
  - simplify_eq. cbn in *.
    assert (c ∈ pp_locked s) as Hc by (apply elem_of_elements; rewrite <-H; set_solver).
    rewrite (union_difference_singleton_L c (pp_locked s)) in H by done.
    rewrite elements_union_singleton in H by set_solver. by apply (inj (c ::.)) in H.
  - destruct ok; by simplify_eq.
  - destruct (pp_apool s), (pp_apools s !! l); by simplify_eq.
  - destruct ok; by simplify_eq.
  - destruct ok; by simplify_eq.
Qed.

(** *** One pool per loop *)

(** Where nothing closes a pool, the entry a task works with is its loop's. *)
Definition pool_shared (s : PgPools) (ts : list PgTask) : Prop :=
  Forall (λ t, match t with
    | ALosing l _ e | AEntry l e | AUsing l e | AServed l (Some e) => pp_apools s !! l = Some e
    | AClose _ | AClosing _ | AClosingInjected => False
    | _ => True
    end) ts.

Lemma pool_shared_grow s s' ts :
  (∀ l e, pp_apools s !! l = Some e → pp_apools s' !! l = Some e) →
  pool_shared s ts → pool_shared s' ts.
Proof.
  intros Hg Hts. eapply Forall_impl; [exact Hts|]. intros []; try done; try apply Hg.
  case_match; [apply Hg|done].
Qed.

Lemma pool_shared_step ok s t s' t' ts :
  pool_step ok s t = Some (s', t') → pool_shared s (t :: ts) → pool_shared s' (t' :: ts).
Proof.
  intros Hs [Ht H]%Forall_cons.
  destruct t as [l|l|l m|l m e|l [p|c]|l [p|c]|l|l e| |e|l|e| |]; cbn in Hs; try done.
  - destruct (pp_apool s); [simplify_eq; by constructor|].
    destruct (pp_apools s !! l) eqn:El; [|destruct (pp_dsn s)]; simplify_eq; by constructor.
  - destruct ok; simplify_eq; by constructor.
  - destruct (pp_apools s !! l) as [e|] eqn:El; [case_decide; simplify_eq; by constructor|].
    simplify_eq. constructor; [cbn; by rewrite lookup_insert_eq|].
    eapply (pool_shared_grow s (set_pools (pp_handles s) (<[l:=m]> (pp_apools s)) s)); [|exact H].
    cbn. intros l' e' Hl'.
    rewrite lookup_insert_ne; [done|]. intros ->. congruence.
  - destruct ok; simplify_eq; by constructor.
  - destruct ok; simplify_eq; by constructor.
  - case_decide; simplify_eq; by constructor.
  - simplify_eq; by constructor.
  - simplify_eq; by constructor.
  - destruct ok; simplify_eq; by constructor.
Qed.

(** *** Runs *)

Definition pool_sound (s : PgPools) (ts : list PgTask) : Prop :=
  pool_account s ts ∧ pool_locks s ts.

Lemma pool_sound_run s ts s' ts' :
  pool_run (s, ts) (s', ts') → pool_sound s ts → pool_sound s' ts'.
Proof.
  intros Hr. refine (steps_invariant pool_step pool_sound _ _ _ _ Hr).
  - intros s1 ts1 ts2 Hp. unfold pool_sound, pool_account, pool_locks. by rewrite Hp.
  - intros ok s1 t s2 t' ts1 Hs []. split; [by eapply pool_account_step|by eapply pool_locks_step].
Qed.

Lemma pool_shared_run s ts s' ts' :
  pool_run (s, ts) (s', ts') → pool_shared s ts → pool_shared s' ts'.
Proof.
  intros Hr. refine (steps_invariant pool_step pool_shared _ _ _ _ Hr).
  - intros s1 ts1 ts2 Hp. unfold pool_shared. by rewrite Hp.
  - intros. by eapply pool_shared_step.
Qed.

Lemma pool_sound_init dsn apool ts :
  Forall (λ t, pool_called t = true) ts → pool_sound (PgPools_init dsn apool) ts.
Proof.
  intros Hts. split; unfold pool_account, pool_locks;
    rewrite (bind_called _ pool_called) by (done || by intros []); [|done].
  apply owns_none.
Qed.

Definition pool_rank (t : PgTask) : nat :=
  match t with
  | AStart _ => 6 | AOpening _ => 5 | AMade _ _ => 4 | ALosing _ _ _ => 3 | AEntry _ _ => 2
  | AUsing _ _ | AInjected _ => 1
  | AClose _ => 2 | AClosing _ | AClosingInjected => 1
  | _ => 0
  end.

Lemma pool_rank_step ok s t s' t' :
  pool_step ok s t = Some (s', t') → pool_rank t' < pool_rank t.
Proof.
  intros Hs. destruct t as [l|l|l m|l m e|l [p|c]|l [p|c]|l|l e| |e|l|e| |]; cbn in Hs; try done;
    repeat case_match; simplify_eq; cbn; lia.
Qed.

Lemma settled_nothing ts :
  Forall (λ t, pool_ended t = true ∧ pool_failed t = false) ts → ts ≫= pool_held = [].
Proof.
  induction 1 as [|t ts [He Hf] _ IH]; [done|]. rewrite bind_cons, IH. by destruct t.
Qed.

(** A task without a step has ended, or waits for a lock. *)
Lemma pool_progress s t :
  pool_step true s t = None →
  pool_ended t = true ∨ ∃ l c, t = AEntry l (EConn c) ∧ c ∈ pp_locked s.
Proof.
  destruct t as [l|l|l m|l m e|l [p|c]|l [p|c]|l|l e| |e|l|e| |]; cbn; intros Hs;
    repeat case_match; try done; eauto 6.
Qed.

(** No deadlock: whoever holds a lock has a step. *)
Lemma pool_stuck_ended s ts :
  pool_locks s ts → (∀ c, ¬ istep pool_step (s, ts) c) → Forall (λ t, pool_ended t = true) ts.
Proof.
  intros Hl Hstuck. pose proof (stuck_tasks pool_step s ts true Hstuck) as Hn.
  apply Forall_forall. intros t Ht. rewrite Forall_forall in Hn.
  destruct (pool_progress s t (Hn _ Ht)) as [|(l&c&->&Hc)]; [done|]. exfalso.
  apply elem_of_elements in Hc. rewrite <-Hl in Hc.
  apply list_elem_of_bind in Hc as (t&Hc&Hin). specialize (Hn _ Hin).
  by destruct t as [| | | | |? [|]| | | | | | | |]; try by apply elem_of_nil in Hc.
Qed.
End postgres.

(** Two tasks of loop 0 race while one of loop 1 opens its own pool; the one that
    opened first registers second, and closes the pool it made. *)
Definition example_tasks : list PgTask := [AStart 0; AStart 0; AStart 1].
Definition example_race : list (nat * bool) :=
  (λ i, (i, true)) <$> [0; 1; 0; 2; 1; 1; 2; 0; 1; 0; 0; 0; 2].

Example race_one_winner :
  run_schedule (pool_step true) example_race (PgPools_init true false, example_tasks) =
  ({| pp_handles := {| h_open := {[1; 2]}; h_next := 3 |};
      pp_apools := {[0 := EPool 1; 1 := EPool 2]}; pp_locked := ∅;
      pp_dsn := true; pp_apool := false |},
   [AServed 0 (Some (EPool 1)); AUsing 0 (EPool 1); AEntry 1 (EPool 2)]).
Proof. vm_compute. reflexivity. Qed.

(** C33: one pool per event loop. While nothing closes the store's pools, whatever the
    interleaving of operations on any number of loops and whichever opens fail, the
    pool an operation works with is the one registered for its loop, and is open; so
    operations of one loop share one pool, the loser of a race having closed its own.
    Without the pool package, no two operations use a loop's connection at a time. *)
Theorem pg_one_pool_per_loop psycopg_pool dsn apool ts0 s ts :
  Forall (λ t, ∃ l, t = AStart l) ts0 →
  rtc (istep (pool_step psycopg_pool)) (PgPools_init dsn apool, ts0) (s, ts) →
  (∀ l e, AUsing l e ∈ ts ∨ AServed l (Some e) ∈ ts →
     pp_apools s !! l = Some e ∧ entry_id e ∈ h_open (pp_handles s)) ∧
  NoDup (ts ≫= pool_in_use) ∧
  (Forall (λ t, pool_ended t = true ∧ pool_failed t = false) ts →
     size (h_open (pp_handles s)) = size (pp_apools s)).
Proof.
  intros H0 Hr.
  destruct (pool_sound_run _ _ _ _ _ Hr) as [Ha Hl].
  { apply pool_sound_init. eapply Forall_impl; [exact H0|]. by intros ? [l ->]. }
  assert (pool_shared s ts) as Hs.
  { eapply pool_shared_run; [exact Hr|]. eapply Forall_impl; [exact H0|]. by intros ? [l ->]. }
  split_and!.
  - intros l e He. assert (pp_apools s !! l = Some e) as El.
    { unfold pool_shared in Hs. rewrite Forall_forall in Hs. by destruct He as [He|He]; apply Hs in He. }
    split; [done|]. apply (owns_elem _ _ _ Ha), elem_of_app. left.
    unfold pool_kept. apply list_elem_of_fmap. exists e. split; [done|].
    apply list_elem_of_fmap. exists (l, e). split; [done|]. by apply elem_of_map_to_list.
  - unfold pool_locks in Hl. rewrite Hl. apply NoDup_elements.
  - intros Hend. unfold pool_account in Ha.
    rewrite (settled_nothing _ Hend), app_nil_r in Ha. rewrite (owns_size _ _ Ha).
    unfold pool_kept. by rewrite !length_fmap, length_map_to_list.
Qed.

Lemma pg_one_pool_per_loop_witness :
  let '(s, ts) := run_schedule (pool_step true) example_race (PgPools_init true false, example_tasks) in
  (∀ l e, AUsing l e ∈ ts ∨ AServed l (Some e) ∈ ts →
     pp_apools s !! l = Some e ∧ entry_id e ∈ h_open (pp_handles s)) ∧
  NoDup (ts ≫= pool_in_use) ∧
  (Forall (λ t, pool_ended t = true ∧ pool_failed t = false) ts →
     size (h_open (pp_handles s)) = size (pp_apools s)).
Proof.
  pose proof (run_schedule_steps (pool_step true) example_race (PgPools_init true false, example_tasks)) as H.
  destruct (run_schedule (pool_step true) example_race (PgPools_init true false, example_tasks)) as [s ts].
  apply (pg_one_pool_per_loop true true false example_tasks); [|exact H].
  unfold example_tasks. repeat constructor; by eexists.
Defined.

(** C34: every operation and every aclose ends. Whatever the interleaving, at most six
    steps are taken for each, no operation waits for ever for a lock, and when no step
    is left every call has returned or raised; if none failed, the pools open are those
    registered for a loop, so no race and no aclose loses one. *)
Theorem pg_pools_settle psycopg_pool dsn apool n ts0 s ts :
  Forall (λ t, pool_called t = true) ts0 →
  nsteps (istep (pool_step psycopg_pool)) n (PgPools_init dsn apool, ts0) (s, ts) →
  n ≤ 6 * length ts0 ∧
  ((∀ c, ¬ istep (pool_step psycopg_pool) (s, ts) c) →
   Forall (λ t, pool_ended t = true) ts ∧
   (Forall (λ t, pool_failed t = false) ts → pool_kept s ≡ₚ elements (h_open (pp_handles s)))).
Proof.
  intros H0 Hn. split.
  { pose proof (steps_bounded (pool_step psycopg_pool) (λ _, 0) pool_rank _ _ _
      (λ ok s t s' t', pool_rank_step psycopg_pool ok s t s' t') Hn) as Hb.
    enough (total_rank (λ _, 0) pool_rank (PgPools_init dsn apool, ts0) ≤ 6 * length ts0) by lia.
    apply (total_rank_bound (pool_step psycopg_pool) (λ _, 0) pool_rank 6).
    apply Forall_forall. intros [] _; cbn; lia. }
  intros Hstuck.
  destruct (pool_sound_run _ _ _ _ _ (rtc_nsteps_2 _ _ _ Hn)) as [Ha Hl]; [by apply pool_sound_init|].
  assert (Forall (λ t, pool_ended t = true) ts) as He by (by eapply pool_stuck_ended).
  split; [done|]. intros Hf. unfold pool_account in Ha.
  rewrite settled_nothing, app_nil_r in Ha; [apply Ha|].
  apply Forall_and. by split.
Qed.

Lemma pg_pools_settle_witness :
  let tasks := [AStart 0; AStart 0; AClose 0] in
  let schedule := (λ i, (i, true)) <$> [0; 1; 0; 0; 1; 0; 1; 2; 0; 2; 1; 1; 1] in
  let '(s, ts) := run_schedule (pool_step false) schedule (PgPools_init true false, tasks) in
  ts = [AServed 0 (Some (EConn 0)); AServed 0 (Some (EConn 0)); AClosed] ∧
  13 ≤ 6 * length tasks ∧ pool_kept s ≡ₚ elements (h_open (pp_handles s)).
Proof.
  cbv zeta. set (tasks := [AStart 0; AStart 0; AClose 0]).
  set (schedule := (λ i, (i, true)) <$> [0; 1; 0; 0; 1; 0; 1; 2; 0; 2; 1; 1; 1]).
  pose proof (run_schedule_nsteps (pool_step false) schedule (PgPools_init true false, tasks)
    ltac:(vm_compute; reflexivity)) as H.
  destruct (run_schedule (pool_step false) schedule (PgPools_init true false, tasks)) as [s ts] eqn:E.
  assert (ts = [AServed 0 (Some (EConn 0)); AServed 0 (Some (EConn 0)); AClosed]) as ->
    by (apply (f_equal snd) in E; vm_compute in E; by symmetry).
  destruct (pg_pools_settle false true false 13 tasks s
    [AServed 0 (Some (EConn 0)); AServed 0 (Some (EConn 0)); AClosed]) as [Hn Hs];
    [by repeat constructor|exact H|].
  split; [done|]. split; [exact Hn|]. apply Hs; [|by repeat constructor].
  intros c. apply (ended_stuck _ pool_ended); [|by repeat constructor]. by intros ok s' [].
Defined.

(** ** Redis *)

Record RedisClients := {
  rc_handles : Handles;            (* the clients the store created *)
  rc_aclients : gmap nat nat;      (* [self._aclients], by event loop *)
  rc_url : bool;                   (* [self._url is not None] *)
  rc_aclient : bool;               (* [self._aclient is not None] *)
}.

Definition RedisClients_init (url aclient : bool) : RedisClients := {|
  rc_handles := no_handles; rc_aclients := ∅; rc_url := url; rc_aclient := aclient;
|}.
Definition set_clients (h : Handles) (m : gmap nat nat) (s : RedisClients) : RedisClients :=
  {| rc_handles := h; rc_aclients := m; rc_url := rc_url s; rc_aclient := rc_aclient s |}.

Inductive RedisTask :=
  | RStart (l : nat)                   (* [_ar] is called on loop [l] *)
  | RUsing (l : nat) (c : option nat)  (* awaits a command of [c], or of the injected client *)
  | RServed (l : nat) (c : option nat)
  | RRefused                           (* raised RuntimeError *)
  | RFailed (c : option nat)           (* raised otherwise, with [c] left open *)
  | RClose (l : nat)                   (* [aclose] is called on loop [l] *)
  | RClosing (c : nat)                 (* awaits [closer()] *)
  | RClosingInjected
  | RClosed.

(** [_ar], which awaits nothing *)
Definition ar_client (l : nat) (s : RedisClients) : RedisClients * RedisTask :=
  if rc_aclient s then (s, RUsing l None)
  else if negb (rc_url s) then (s, RRefused)
  else match rc_aclients s !! l with
       | Some c => (s, RUsing l (Some c))
       | None =>
           let c := h_next (rc_handles s) in
           (set_clients (h_new (rc_handles s)) (<[l := c]> (rc_aclients s)) s, RUsing l (Some c))
       end.

Definition redis_step (ok : bool) (s : RedisClients) (t : RedisTask)
    : option (RedisClients * RedisTask) :=
  match t with
  | RStart l => Some (ar_client l s)
  | RUsing l c => if ok then Some (s, RServed l c) else Some (s, RFailed None)
  | RClose l =>
      if rc_aclient s then Some (s, RClosingInjected)
      else match rc_aclients s !! l with
           | Some c => Some (set_clients (rc_handles s) (delete l (rc_aclients s)) s, RClosing c)
           | None => Some (s, RClosed)
           end
  | RClosing c =>
      if ok then Some (set_clients (h_close c (rc_handles s)) (rc_aclients s) s, RClosed)
      else Some (s, RFailed (Some c))
  | RClosingInjected => if ok then Some (s, RClosed) else Some (s, RFailed None)
  | _ => None
  end.

Definition redis_called (t : RedisTask) : bool :=
  match t with RStart _ | RClose _ => true | _ => false end.
Definition redis_held (t : RedisTask) : list nat :=
  match t with RClosing c | RFailed (Some c) => [c] | _ => [] end.
Definition redis_kept (s : RedisClients) : list nat := (map_to_list (rc_aclients s)).*2.
Definition redis_account (s : RedisClients) (ts : list RedisTask) : Prop :=
  owns (redis_kept s ++ (ts ≫= redis_held)) (rc_handles s).

Lemma redis_account_step ok s t s' t' ts :
  redis_step ok s t = Some (s', t') → redis_account s (t :: ts) → redis_account s' (t' :: ts).
Proof.
  unfold redis_account. rewrite !bind_cons. intros Hs H.
  destruct t as [l|l c|l c| |c|l|c| |]; cbn in Hs; try done.
  - unfold ar_client in Hs. destruct (rc_aclient s); [by simplify_eq|].
    destruct (rc_url s); cbn in Hs; [|by simplify_eq].
    destruct (rc_aclients s !! l) as [c|] eqn:El; simplify_eq; [done|]. cbn in *.
    unfold redis_kept in *. cbn [rc_aclients set_clients]. rewrite map_to_list_insert by done.
    by apply owns_new.
  - destruct ok; by simplify_eq.
  - destruct (rc_aclient s); [by simplify_eq|].
    destruct (rc_aclients s !! l) as [c|] eqn:El; simplify_eq; [|done]. cbn in *.
    unfold redis_kept in *. cbn [rc_aclients set_clients].
    rewrite <-(map_to_list_delete _ _ _ El) in H. by rewrite <-Permutation_middle.
  - destruct ok; simplify_eq; [|done]. cbn in *. apply owns_close. by rewrite Permutation_middle.
  - destruct ok; by simplify_eq.
Qed.

(** Whatever the interleaving, every client created and not closed is its loop's, or
    one that a call of [aclose] is closing or failed to close. *)
Theorem redis_clients_accounted url aclient ts0 s ts :
  Forall (λ t, redis_called t = true) ts0 →
  rtc (istep redis_step) (RedisClients_init url aclient, ts0) (s, ts) →
  redis_kept s ++ (ts ≫= redis_held) ≡ₚ elements (h_open (rc_handles s)).
Proof.
  intros H0 Hr. enough (redis_account s ts) as [Ha _] by exact Ha.
  refine (steps_invariant redis_step redis_account _ _ _ _ Hr _).
  - intros s1 ts1 ts2 Hp. unfold redis_account. by rewrite Hp.
  - intros. by eapply redis_account_step.
  - unfold redis_account. rewrite (bind_called _ redis_called) by (done || by intros []).
    apply owns_none.
Qed.
