(* ===== verification/Saver.v ===== *)
(** * The LangGraph checkpointer: state, keys and store access

    [python/swarmstate/integrations/langgraph.py], first part: the names of the
    namespaces and keys, the saver's state, the helpers through which it reaches
    its store (with their fallbacks for stores that lack the batch methods or the
    [prefix] argument), and the decoding of stored records. The LangGraph package
    is a parameter ([LangGraph], with what the code relies on in
    [LangGraphSpec]). *)

From S2P Require Import Prelude PyValue Store.

(** ** What comes from the LangGraph package *)

(** A [RunnableConfig], as far as the saver reads it. *)
Record RunnableConfig := {
  cfg_thread_id : pystr;
  cfg_checkpoint_ns : option pystr;
  cfg_checkpoint_id : option pystr;
  cfg_metadata : pyval;
}.

Class LangGraph := {
  (** the serializer *)
  dumps_typed : pyval → result (pyval * pyval);
  loads_typed : list pyval → result pyval;
  get_checkpoint_id : RunnableConfig → option pystr;
  get_checkpoint_metadata : RunnableConfig → pyval → pyval;
  WRITES_IDX_MAP : pystr → option Z;
  (** [str()] of a version that is neither a string nor an integer *)
  str_of_other : pyval → pystr;
}.

Class LangGraphSpec `{!LangGraph} := {
  loads_dumps v t b : dumps_typed v = Ok (t, b) → loads_typed [t; b] = Ok v;
  (** the serializer's output is a type tag and bytes *)
  dumps_storable v t b : dumps_typed v = Ok (t, b) →
    ∃ tag raw, t = PStr tag ∧ b = PBytes raw ∧ text_ok tag = true ∧ len32 raw = true;
  get_checkpoint_id_spec c : get_checkpoint_id c = cfg_checkpoint_id c;
  (** the special channels have negative indices *)
  writes_idx_map_neg ch i : WRITES_IDX_MAP ch = Some i → (i < 0)%Z;
}.

(** ** Names *)

(** [_SEP], the unit separator. *)
Definition SEP : N := 0x1f.
Definition LATEST_NS : pystr := lit "lt".
Definition MAX_HINTS : nat := Nat.pow 2 12.
Definition PRUNE_SLACK : Z := 8.
Definition DELTA_COUNTERS : pystr := lit "counters_since_delta_snapshot".

Definition ckpt_ns (thread_id checkpoint_ns : pystr) : pystr :=
  lit "ck" ++ SEP :: thread_id ++ SEP :: checkpoint_ns.
Definition writes_ns (thread_id checkpoint_ns checkpoint_id : pystr) : pystr :=
  lit "wr" ++ SEP :: thread_id ++ SEP :: checkpoint_ns ++ SEP :: checkpoint_id.
Definition blobs_ns (thread_id checkpoint_ns : pystr) : pystr :=
  lit "bl" ++ SEP :: thread_id ++ SEP :: checkpoint_ns.
Definition latest_key (thread_id checkpoint_ns : pystr) : pystr :=
  thread_id ++ SEP :: checkpoint_ns.

#[global] Arguments ckpt_ns : simpl never.
#[global] Arguments writes_ns : simpl never.
#[global] Arguments blobs_ns : simpl never.
#[global] Arguments latest_key : simpl never.
#[global] Arguments LATEST_NS : simpl never.

(** [f"{task_id}{_SEP}{widx}"] *)
Definition write_key (task_id : pystr) (widx : Z) : pystr := task_id ++ SEP :: str_of_Z widx.

(** [_write_order]: [(task_id, int(idx))]. *)
Definition write_order (k : pystr) : result (pystr * Z) :=
  let '(task_id, idx) := rpartition SEP k in
  n ← or_raise ValueError (py_int idx);
  Ok (task_id, n).

(** Tuples compare first by task, then by number. *)
Definition write_order_le (a b : (pystr * Z) * pystr) : Prop :=
  str_lt a.1.1 b.1.1 ∨ (a.1.1 = b.1.1 ∧ (a.1.2 ≤ b.1.2)%Z).
#[global] Instance write_order_le_dec : RelDecision write_order_le.
Proof. intros a b. unfold write_order_le. apply _. Defined.

(** [sorted(keys, key=_write_order)] *)
Definition sort_write_keys (keys : list pystr) : result (list pystr) :=
  decorated ← mapM (λ k, o ← write_order k; Ok (o, k)) keys;
  Ok (merge_sort write_order_le decorated).*2.

(** [_config] *)
Definition mk_config (thread_id checkpoint_ns checkpoint_id : pystr) : RunnableConfig :=
  {| cfg_thread_id := thread_id; cfg_checkpoint_ns := Some checkpoint_ns;
     cfg_checkpoint_id := Some checkpoint_id; cfg_metadata := PNone |}.

(** [cfg.get("checkpoint_ns", "")] *)
Definition cfg_ns (c : RunnableConfig) : pystr := from_option id [] (cfg_checkpoint_ns c).

(** An id the code tests with [if checkpoint_id]: the empty string is no id. *)
Definition truthy_id (o : option pystr) : option pystr :=
  match o with Some [] | None => None | Some s => Some s end.

(** [f"{ch}{_SEP}{ver}"] *)
Definition py_format `{!LangGraph} (v : pyval) : pystr :=
  match v with
  | PStr s => s
  | PInt z => str_of_Z z
  | _ => str_of_other v
  end.
Definition blob_key `{!LangGraph} (ch ver : pyval) : pystr := py_format ch ++ SEP :: py_format ver.

(** The stored record of a checkpoint. *)
Definition ck_record (cp md : pyval * pyval) (parent : option pystr) : pyval :=
  PDict [(key "cp", PList [cp.1; cp.2]); (key "md", PList [md.1; md.2]);
         (key "parent", opt_str parent)].

(** ** The saver's state *)

Record MetricEvent := { me_op : pystr; me_thread_id : pystr; me_ok : bool }.

Inductive SpanEvent :=
  | SpanStart (name : pystr)
  | SpanAttribute (k : pystr) (v : pyval)
  | SpanError (e : exn)
  | SpanEnd.

Record Saver (S : Type) := mkSaver {
  store : S;
  incremental : bool;
  max_checkpoints_per_thread : option Z;
  metrics : option (list MetricEvent);
  tracer : option (list SpanEvent);
  max_seen : gmap (pystr * pystr) pystr;
  prune_floor : gmap (pystr * pystr) Z;
  store_takes_prefix : bool;
  store_indexes_max_key : bool;
  native_async : bool;
}.
Arguments mkSaver {S}.
Arguments store {S}. Arguments incremental {S}. Arguments max_checkpoints_per_thread {S}.
Arguments metrics {S}. Arguments tracer {S}. Arguments max_seen {S}.
Arguments prune_floor {S}. Arguments store_takes_prefix {S}.
Arguments store_indexes_max_key {S}. Arguments native_async {S}.

Section setters.
Context {S : Type}.
Implicit Types s : Saver S.

Definition set_store st s : Saver S :=
  mkSaver st (incremental s) (max_checkpoints_per_thread s) (metrics s) (tracer s)
    (max_seen s) (prune_floor s) (store_takes_prefix s) (store_indexes_max_key s) (native_async s).
Definition set_max_seen m s : Saver S :=
  mkSaver (store s) (incremental s) (max_checkpoints_per_thread s) (metrics s) (tracer s)
    m (prune_floor s) (store_takes_prefix s) (store_indexes_max_key s) (native_async s).
Definition set_prune_floor m s : Saver S :=
  mkSaver (store s) (incremental s) (max_checkpoints_per_thread s) (metrics s) (tracer s)
    (max_seen s) m (store_takes_prefix s) (store_indexes_max_key s) (native_async s).
Definition set_takes_prefix b s : Saver S :=
  mkSaver (store s) (incremental s) (max_checkpoints_per_thread s) (metrics s) (tracer s)
    (max_seen s) (prune_floor s) b (store_indexes_max_key s) (native_async s).
Definition set_instruments me tr s : Saver S :=
  mkSaver (store s) (incremental s) (max_checkpoints_per_thread s) me tr
    (max_seen s) (prune_floor s) (store_takes_prefix s) (store_indexes_max_key s) (native_async s).
End setters.

(** [SwarmStateSaver.__init__] *)
Definition Saver_init {S : Type} `{ops : !StoreOps S} (st : S) (inc : bool) (limit : option Z)
    (me : option (list MetricEvent)) (tr : option (list SpanEvent)) : result (Saver S) :=
  if match limit with Some n => (n <? 1)%Z | None => false end then Raise ValueError
  else Ok (mkSaver st inc limit me tr ∅ ∅ true op_indexed_max_key op_supports_async).

(** [_bounded_set] *)
Definition bounded_set {V} (hints : gmap (pystr * pystr) V) (k : pystr * pystr) (v : V)
    : gmap (pystr * pystr) V :=
  <[k := v]> (if (MAX_HINTS <=? size hints)%nat then ∅ else hints).

(** A pending write: [(task_id, channel, value)]. *)
Abbreviation pending := (pyval * pyval * pyval)%type.

Record CheckpointTuple := {
  ct_config : RunnableConfig;
  ct_checkpoint : pyval;
  ct_metadata : pyval;
  ct_parent_config : option RunnableConfig;
  ct_pending_writes : list pending;
}.

(** ** Decoding of stored records (no store access) *)

Section Decoding.
Context `{lg : !LangGraph}.

(** [self.serde.loads_typed(tuple(v))] *)
Definition loads (v : pyval) : result pyval := l ← py_iter v; loads_typed l.

(** [self.serde.loads_typed(tuple(saved[field]))] *)
Definition loads_field (saved : pyval) (field : pyval) : result pyval :=
  v ← py_getitem saved field; loads v.

(** [checkpoint.get("channel_versions", {}).items()] *)
Definition channel_versions (checkpoint : pyval) : result pydict :=
  v ← py_get_default checkpoint (key "channel_versions") (PDict []); py_items v.

(** [blob and blob[0] == "v"] *)
Definition is_value_blob (blob : pyval) : result bool :=
  if truthy blob then b ← py_index blob 0; Ok (py_eq b (key "v")) else Ok false.

(** [self.serde.loads_typed((blob[1], blob[2]))] *)
Definition loads_blob (blob : pyval) : result pyval :=
  t ← py_index blob 1; b ← py_index blob 2; loads_typed [t; b].

(** [_attach_values]: the values of a checkpoint stored without them. *)
Definition attach_values (checkpoint : pyval) (versions : pydict) (blobs : list pyval)
    : result pyval :=
  values ← foldR (zip versions blobs) (λ values e,
      is_value ← is_value_blob e.2;
      if is_value : bool then v ← loads_blob e.2; Ok (dict_set values e.1.1 v)
      else Ok values) [];
  match checkpoint with
  | PDict d => Ok (PDict (dict_set d (key "channel_values") (PDict values)))
  | _ => Raise TypeError
  end.

(** [v in names], on a set of strings: an unhashable value raises. *)
Definition in_names (v : pyval) (names : gset pystr) : result bool :=
  match v with
  | PStr s => Ok (bool_decide (s ∈ names))
  | PList _ | PDict _ => Raise TypeError
  | _ => Ok false
  end.

(** [channels is None or channel in channels] *)
Definition channel_wanted (channels : option (gset pystr)) (channel : pyval) : result bool :=
  match channels with
  | None => Ok true
  | Some chs => in_names channel chs
  end.

(** [_decode_writes] *)
Definition decode_writes (raw : list pyval) (channels : option (gset pystr))
    : result (list pending) :=
  foldR raw (λ out saved_write,
    if is_none saved_write then Ok out
    else
      '(task_id, channel, tv, _) ← unpack4 saved_write;
      wanted ← channel_wanted channels channel;
      if wanted : bool then v ← loads tv; Ok (out ++ [(task_id, channel, v)])
      else Ok out) [].

(** [_config(thread_id, checkpoint_ns, parent_id) if parent_id else None] *)
Definition parent_config (thread_id checkpoint_ns : pystr) (saved : pyval)
    : result (option RunnableConfig) :=
  parent_id ← py_get saved (key "parent");
  if truthy parent_id then
    p ← as_str parent_id; Ok (Some (mk_config thread_id checkpoint_ns p))
  else Ok None.

(** [self.incremental and "channel_values" not in checkpoint] *)
Definition detached (inc : bool) (checkpoint : pyval) : result bool :=
  if inc then inline ← py_in (key "channel_values") checkpoint; Ok (negb inline) else Ok false.

(** [_metadata_if_matching]; [PNone] stands for [None]. *)
Definition metadata_if_matching (saved : pyval) (filter : list (pystr * pyval))
    : result pyval :=
  if is_none saved then Ok PNone
  else
    metadata ← loads_field saved (key "md");
    matching ← foldR filter (λ ok kv,
        if ok : bool then v ← py_get metadata (PStr kv.1); Ok (py_eq v kv.2)
        else Ok false) true;
    Ok (if matching : bool then metadata else PNone).
End Decoding.

Section Access.
Context {S : Type} `{ops : !StoreOps S} `{lg : !LangGraph}.

(** A call of a store method: [self.store.m(...)] *)
Definition on_store {A} (m : PyM S A) : PyM (Saver S) A := λ s,
  let '(r, st) := m (store s) in (r, set_store st s).

(** *** [_namespaces], [_keys]: filtered by the store when it can *)

Definition namespaces_filtered (prefix : pystr) : PyM (Saver S) (list pystr) :=
  l ← on_store (op_namespaces None); mret (filter (λ ns, starts_with prefix ns = true) l).

Definition namespaces (prefix : pystr) : PyM (Saver S) (list pystr) :=
  takes ← gets store_takes_prefix;
  if takes : bool then
    catch TypeError (on_store (op_namespaces (Some prefix)))
      (modify (set_takes_prefix false) ;; namespaces_filtered prefix)
  else namespaces_filtered prefix.

Definition keys_filtered (ns prefix : pystr) : PyM (Saver S) (list pystr) :=
  l ← on_store (op_keys ns None); mret (filter (λ k, starts_with prefix k = true) l).

Definition keys (ns prefix : pystr) : PyM (Saver S) (list pystr) :=
  takes ← gets store_takes_prefix;
  if takes : bool then
    catch TypeError (on_store (op_keys ns (Some prefix)))
      (modify (set_takes_prefix false) ;; keys_filtered ns prefix)
  else keys_filtered ns prefix.

(** [_thread_namespaces] *)
Definition thread_namespaces (kind thread_id : pystr) : PyM (Saver S) (list pystr) :=
  l ← namespaces (kind ++ SEP :: thread_id ++ [SEP]);
  mret (filter (λ ns, take 1 (drop 1 (split_on SEP ns)) = [thread_id]) l).

(** *** Batches, with their per-item fallbacks *)

Definition get_many (ns : pystr) (ks : list pystr) : PyM (Saver S) (list pyval) :=
  match op_get_many with
  | Some getter => on_store (getter ((λ k, (ns, k)) <$> ks))
  | None => mapM (λ k, on_store (op_get ns k)) ks
  end.

Definition set_many (items : list (pystr * pystr * pyval)) : PyM (Saver S) unit :=
  match items with
  | [] => mret tt
  | _ =>
      match op_set_many with
      | Some setter => on_store (setter items)
      | None => for_each items (λ i, on_store (op_set i.1.1 i.1.2 i.2))
      end
  end.

Definition delete_many (pairs : list (pystr * pystr)) : PyM (Saver S) unit :=
  match pairs with
  | [] => mret tt
  | _ =>
      match op_delete_many with
      | Some deleter => on_store (deleter pairs) ;; mret tt
      | None => for_each pairs (λ p, on_store (op_delete p.1 p.2) ;; mret tt)
      end
  end.

Definition delete_namespace (ns : pystr) : PyM (Saver S) unit :=
  match op_delete_namespace with
  | Some deleter => on_store (deleter ns) ;; mret tt
  | None => ks ← on_store (op_keys ns None); delete_many ((λ k, (ns, k)) <$> ks)
  end.

(** *** Decoding with the store *)

(** [_channel_values]: the values [saved] holds for [channels]. *)
Definition channel_values (thread_id checkpoint_ns : pystr) (saved : pyval)
    (channels : gset pystr) : PyM (Saver S) (list (pystr * pyval)) :=
  checkpoint ← lift (loads_field saved (key "cp"));
  inline ← lift (py_in (key "channel_values") checkpoint);
  if inline : bool then
    stored ← lift (py_getitem checkpoint (key "channel_values"));
    lift (foldR (elements channels) (λ out ch,
      present ← py_in (PStr ch) stored;
      if present : bool then v ← py_getitem stored (PStr ch); Ok (od_set out ch v)
      else Ok out) [])
  else
    all ← lift (channel_versions checkpoint);
    let versions := omap (λ e, match e.1 with
                               | PStr ch => if decide (ch ∈ channels) then Some (ch, e.2) else None
                               | _ => None
                               end) all in
    blobs ← get_many (blobs_ns thread_id checkpoint_ns)
              ((λ e, blob_key (PStr e.1) e.2) <$> versions);
    lift (foldR (zip versions blobs) (λ out e,
      is_value ← is_value_blob e.2;
      if is_value : bool then v ← loads_blob e.2; Ok (od_set out e.1.1 v)
      else Ok out) []).

(** [_pending_writes] *)
Definition pending_writes (thread_id checkpoint_ns checkpoint_id : pystr)
    (channels : option (gset pystr)) : PyM (Saver S) (list pending) :=
  let ns := writes_ns thread_id checkpoint_ns checkpoint_id in
  ks ← on_store (op_keys ns None);
  sorted ← lift (sort_write_keys ks);
  raw ← get_many ns sorted;
  lift (decode_writes raw channels).

(** [_decode_checkpoint]: the checkpoint and the versions whose blobs it needs. *)
Definition decode_checkpoint (saved : pyval) : PyM (Saver S) (pyval * pydict) :=
  checkpoint ← lift (loads_field saved (key "cp"));
  inc ← gets incremental;
  without_values ← lift (detached inc checkpoint);
  if without_values : bool then
    versions ← lift (channel_versions checkpoint); mret (checkpoint, versions)
  else mret (checkpoint, []).

(** [_build_tuple] *)
Definition build_tuple (thread_id checkpoint_ns checkpoint_id : pystr) (saved : pyval)
    (metadata : pyval) : PyM (Saver S) CheckpointTuple :=
  checkpoint ← lift (loads_field saved (key "cp"));
  inc ← gets incremental;
  without_values ← lift (detached inc checkpoint);
  checkpoint ← (if without_values : bool then
    versions ← lift (channel_versions checkpoint);
    blobs ← get_many (blobs_ns thread_id checkpoint_ns)
              ((λ e, blob_key e.1 e.2) <$> versions);
    lift (attach_values checkpoint versions blobs)
  else mret checkpoint);
  metadata ← (if is_none metadata then lift (loads_field saved (key "md")) else mret metadata);
  let ns := writes_ns thread_id checkpoint_ns checkpoint_id in
  ks ← on_store (op_keys ns None);
  sorted ← (if (1 <? length ks)%nat then lift (sort_write_keys ks) else mret ks);
  raw ← get_many ns sorted;
  writes ← lift (decode_writes raw None);
  parent ← lift (parent_config thread_id checkpoint_ns saved);
  mret {| ct_config := mk_config thread_id checkpoint_ns checkpoint_id;
          ct_checkpoint := checkpoint; ct_metadata := metadata;
          ct_parent_config := parent; ct_pending_writes := writes |}.
End Access.
