(* ===== verification/SaverOps.v ===== *)
(** * The LangGraph checkpointer: its operations

    [python/swarmstate/integrations/langgraph.py], second part: the methods of
    [SwarmStateSaver], over any store. Loops that follow the [parent] chain take
    fuel ([OutOfFuel] when it is used up); everything else is structural. A
    generator ([list]) is modelled by the list of what it yields. *)

From S2P Require Import Prelude PyValue Store Saver.

Definition PRUNE_STRATEGIES : list pystr := [lit "keep_latest"; lit "delete"].

(** [ids[-keep:]] *)
Definition slice_last {A} (keep : Z) (ids : list A) : list A :=
  if (keep <=? 0)%Z then drop (Z.to_nat (- keep)) ids
  else drop (length ids - Z.to_nat keep) ids.

(** [dict(zip(ks, vs))], added to [d] *)
Definition dict_zip (ks : list pystr) (vs : list pyval) (d : gmap pystr pyval)
    : gmap pystr pyval :=
  foldl (λ d kv, <[kv.1 := kv.2]> d) d (zip ks vs).

(** [set(v)] of a collection of channel names *)
Definition name_set (v : pyval) : result (gset pystr) :=
  l ← py_iter v; names ← mapM as_str l; Ok (list_to_set names).

(** [dict.get] on the cache of records *)
Definition rec_get (records : gmap pystr pyval) (i : pystr) : pyval :=
  from_option id PNone (records !! i).

Section Saver.
Context {S : Type} `{ops : !StoreOps S} `{lg : !LangGraph}.
Implicit Types (thread_id checkpoint_ns checkpoint_id : pystr).

(** ** Instrumentation *)

Definition span_event (e : SpanEvent) : PyM (Saver S) unit :=
  modify (λ s, set_instruments (metrics s) ((λ l, l ++ [e]) <$> tracer s) s).

Definition record_metric (e : MetricEvent) : PyM (Saver S) unit :=
  modify (λ s, set_instruments ((λ l, l ++ [e]) <$> metrics s) (tracer s) s).

(** [_measure] around the call, [_run]. A failure of the body is recorded on
    the span and re-raised; the metric and the end of the span come last. *)
Definition measured {A} (op thread_id : pystr) (attrs : list (pystr * pyval))
    (fn : PyM (Saver S) A) : PyM (Saver S) A :=
  span_event (SpanStart (lit "swarmstate.checkpoint." ++ op)) ;;
  for_each attrs (λ a,
    when (negb (is_none a.2)) (span_event (SpanAttribute (lit "swarmstate." ++ a.1) a.2))) ;;
  act (λ s,
    let '(r, s1) := fn s in
    let ok := is_ok r in
    let '(_, s2) := (match r with Raise e => span_event (SpanError e) | _ => mret tt end) s1 in
    let '(_, s3) := record_metric {| me_op := op; me_thread_id := thread_id; me_ok := ok |} s2 in
    let '(_, s4) := span_event SpanEnd s3 in
    (r, s4)).

Definition uninstrumented : PyM (Saver S) bool :=
  gets (λ s, match metrics s, tracer s with None, None => true | _, _ => false end).

Definition put_attrs (config : RunnableConfig) (checkpoint : pyval)
    : PyM (Saver S) (list (pystr * pyval)) :=
  checkpoint_id ← lift (py_getitem checkpoint (key "id"));
  inc ← gets incremental;
  mret [(lit "thread_id", PStr (cfg_thread_id config));
        (lit "checkpoint_ns", PStr (cfg_ns config));
        (lit "checkpoint_id", checkpoint_id);
        (lit "incremental", PBool inc)].

Definition writes_attrs (config : RunnableConfig) (writes : list (pystr * pyval))
    (task_id : pystr) : list (pystr * pyval) :=
  [(lit "thread_id", PStr (cfg_thread_id config));
   (lit "checkpoint_ns", PStr (cfg_ns config));
   (lit "checkpoint_id", opt_str (cfg_checkpoint_id config));
   (lit "task_id", PStr task_id);
   (lit "writes", PInt (Z.of_nat (length writes)))].

Definition get_attrs (config : RunnableConfig) : list (pystr * pyval) :=
  [(lit "thread_id", PStr (cfg_thread_id config));
   (lit "checkpoint_ns", PStr (cfg_ns config));
   (lit "checkpoint_id", opt_str (get_checkpoint_id config))].

(** ** Retention: what a surviving checkpoint depends on *)

(** The loop of [_delta_ancestors]: [while missing and cursor]. *)
Fixpoint delta_walk (fuel : nat) thread_id checkpoint_ns (cursor : pyval)
    (missing : gset pystr) (records : gmap pystr pyval) (needed : gset pystr)
    : PyM (Saver S) (gmap pystr pyval * gset pystr) :=
  if bool_decide (missing = ∅) || negb (truthy cursor) then mret (records, needed)
  else match fuel with
  | O => out_of_fuel
  | Datatypes.S fuel' =>
      c ← lift (as_str cursor);
      records ← (match records !! c with
                 | Some _ => mret records
                 | None => v ← on_store (op_get (ckpt_ns thread_id checkpoint_ns) c);
                           mret (<[c := v]> records)
                 end);
      let ancestor := rec_get records c in
      if is_none ancestor then mret (records, needed)
      else
        found ← channel_values thread_id checkpoint_ns ancestor missing;
        parent ← lift (py_get ancestor (key "parent"));
        delta_walk fuel' thread_id checkpoint_ns parent
          (missing ∖ list_to_set found.*1) records ({[ c ]} ∪ needed)
  end.

(** The delta channels the metadata of a checkpoint names. *)
Definition delta_channels (metadata : pyval) : result pyval :=
  if is_dict metadata then py_get metadata (PStr DELTA_COUNTERS) else Ok PNone.

(** [_delta_ancestors]: the records read on the way are returned too, since the
    source adds them to the dictionary it was given. *)
Definition delta_ancestors (fuel : nat) thread_id checkpoint_ns (survivors : list pystr)
    (records : gmap pystr pyval) : PyM (Saver S) (gmap pystr pyval * gset pystr) :=
  for_fold survivors (λ acc checkpoint_id,
    let '(records, needed) := acc in
    let saved := rec_get records checkpoint_id in
    if is_none saved then mret (records, needed)
    else
      metadata ← lift (loads_field saved (key "md"));
      delta ← lift (delta_channels metadata);
      if negb (truthy delta) then mret (records, needed)
      else
        names ← lift (name_set delta);
        found ← channel_values thread_id checkpoint_ns saved names;
        cursor ← lift (py_get saved (key "parent"));
        delta_walk fuel thread_id checkpoint_ns cursor (names ∖ list_to_set found.*1)
          records needed)
    (records, ∅).

(** [_referenced_blobs] *)
Definition referenced_blobs thread_id checkpoint_ns (checkpoint_ids : list pystr)
    (records : gmap pystr pyval) : PyM (Saver S) (gset pystr) :=
  let missing := filter (λ i, records !! i = None) checkpoint_ids in
  records ← (match missing with
             | [] => mret records
             | _ => vs ← get_many (ckpt_ns thread_id checkpoint_ns) missing;
                    mret (dict_zip missing vs records)
             end);
  for_fold checkpoint_ids (λ keep checkpoint_id,
    let saved := rec_get records checkpoint_id in
    if is_none saved then mret keep
    else
      checkpoint ← lift (loads_field saved (key "cp"));
      versions ← lift (channel_versions checkpoint);
      mret (keep ∪ list_to_set ((λ e, blob_key e.1 e.2) <$> versions)))
    ∅.

(** [_drop_checkpoints] *)
Definition drop_checkpoints thread_id checkpoint_ns (doomed kept : list pystr)
    (records : gmap pystr pyval) : PyM (Saver S) unit :=
  let ck_ns := ckpt_ns thread_id checkpoint_ns in
  inc ← gets incremental;
  (if inc : bool then
     keep ← referenced_blobs thread_id checkpoint_ns kept records;
     let bl_ns := blobs_ns thread_id checkpoint_ns in
     stored ← on_store (op_keys bl_ns None);
     delete_many ((λ b, (bl_ns, b)) <$> filter (λ b, b ∉ keep) stored)
   else mret tt) ;;
  for_each doomed (λ checkpoint_id,
    delete_namespace (writes_ns thread_id checkpoint_ns checkpoint_id)) ;;
  delete_many ((λ checkpoint_id, (ck_ns, checkpoint_id)) <$> doomed) ;;
  indexed ← gets store_indexes_max_key;
  if indexed : bool then mret tt
  else
    let k := latest_key thread_id checkpoint_ns in
    latest ← on_store (op_get LATEST_NS k);
    dangling ← lift (in_names latest (list_to_set doomed));
    if dangling : bool then
      (match py_max kept with
       | Some newest => on_store (op_set LATEST_NS k (PStr newest))
       | None => on_store (op_delete LATEST_NS k) ;; mret tt
       end) ;;
      modify (λ s, set_max_seen (delete (thread_id, checkpoint_ns) (max_seen s)) s)
    else mret tt.

(** [_trim]: how many checkpoints were kept *)
Definition trim (fuel : nat) thread_id checkpoint_ns (ids : list pystr) (keep : Z)
    : PyM (Saver S) nat :=
  let survivors := slice_last keep ids in
  vs ← get_many (ckpt_ns thread_id checkpoint_ns) survivors;
  '(records, ancestors) ←
    delta_ancestors fuel thread_id checkpoint_ns survivors (dict_zip survivors vs ∅);
  let kept : gset pystr := list_to_set survivors ∪ ancestors in
  let doomed := filter (λ i, i ∉ kept) ids in
  (match doomed with
   | [] => mret tt
   | _ => drop_checkpoints thread_id checkpoint_ns doomed (py_sorted (elements kept)) records
   end) ;;
  mret (size kept).

(** [_prune_thread] *)
Definition prune_thread (fuel : nat) thread_id checkpoint_ns : PyM (Saver S) unit :=
  max_checkpoints ← gets max_checkpoints_per_thread;
  match max_checkpoints with
  | None => mret tt
  | Some limit =>
      let k := (thread_id, checkpoint_ns) in
      floors ← gets prune_floor;
      let floor := Z.max limit (from_option id limit (floors !! k)) in
      ids ← on_store (op_keys (ckpt_ns thread_id checkpoint_ns) None);
      if (Z.of_nat (length ids) <=? floor + Z.max PRUNE_SLACK (floor / 4))%Z then mret tt
      else
        kept ← trim fuel thread_id checkpoint_ns (py_sorted ids) limit;
        modify (λ s, set_prune_floor (bounded_set (prune_floor s) k (Z.of_nat kept)) s)
  end.

(** ** Writing *)

(** The blob of one [(channel, version)]: its value, or that it has none. *)
Definition blob_row (values ch : pyval) : result pyval :=
  present ← py_in ch values;
  if present : bool then
    value ← py_getitem values ch;
    '(vt, vb) ← dumps_typed value;
    Ok (PList [key "v"; vt; vb])
  else Ok (PList [key "empty"]).

(** The checkpoint to serialize and its candidate blobs: when [incremental], each
    new channel value goes to a blob of its own. *)
Definition split_checkpoint (inc : bool) (checkpoint : pyval) (new_versions : pydict)
    : result (pyval * list (pystr * pyval)) :=
  if inc then
    d ← py_items checkpoint;
    let values := from_option id (PDict []) (dict_get d (key "channel_values")) in
    blobs ← foldR new_versions (λ blobs e,
      b ← (row ← blob_row values e.1; Ok (blob_key e.1 e.2, row)); Ok (blobs ++ [b])) [];
    Ok (PDict (dict_pop d (key "channel_values")), blobs)
  else Ok (checkpoint, []).

(** [_put_rows]: thread, namespace, rows, candidate channel blobs *)
Definition put_rows (config : RunnableConfig) (checkpoint metadata : pyval)
    (new_versions : pydict)
    : PyM (Saver S) (pystr * pystr * list (pystr * pystr * pyval) * list (pystr * pyval)) :=
  let thread_id := cfg_thread_id config in
  let checkpoint_ns := cfg_ns config in
  id_value ← lift (py_getitem checkpoint (key "id"));
  checkpoint_id ← lift (as_str id_value);
  inc ← gets incremental;
  '(cp_to_store, blobs) ← lift (split_checkpoint inc checkpoint new_versions);
  cp ← lift (dumps_typed cp_to_store);
  md ← lift (dumps_typed (get_checkpoint_metadata config metadata));
  let row := (ckpt_ns thread_id checkpoint_ns, checkpoint_id,
              ck_record cp md (cfg_checkpoint_id config)) in
  indexed ← gets store_indexes_max_key;
  rows ← (if indexed : bool then mret [row]
    else
      let k := (thread_id, checkpoint_ns) in
      seen ← gets max_seen;
      if match seen !! k with None => true | Some s => str_ltb s checkpoint_id end then
        modify (λ s, set_max_seen (bounded_set (max_seen s) k checkpoint_id) s) ;;
        mret [row; (LATEST_NS, latest_key thread_id checkpoint_ns, PStr checkpoint_id)]
      else mret [row]);
  mret (thread_id, checkpoint_ns, rows, blobs).

(** [_put_impl] *)
Definition put_impl (fuel : nat) (config : RunnableConfig) (checkpoint metadata : pyval)
    (new_versions : pydict) : PyM (Saver S) RunnableConfig :=
  '(thread_id, checkpoint_ns, rows, blobs) ← put_rows config checkpoint metadata new_versions;
  (match blobs with
   | [] => mret tt
   | _ =>
       let bl_ns := blobs_ns thread_id checkpoint_ns in
       fresh ← for_fold blobs (λ out b,
           stored ← on_store (op_contains bl_ns b.1);
           mret (if stored : bool then out else out ++ [(bl_ns, b.1, b.2)])) [];
       set_many fresh
   end) ;;
  set_many rows ;;
  max_checkpoints ← gets max_checkpoints_per_thread;
  (match max_checkpoints with
   | Some _ => prune_thread fuel thread_id checkpoint_ns
   | None => mret tt
   end) ;;
  id_value ← lift (py_getitem checkpoint (key "id"));
  checkpoint_id ← lift (as_str id_value);
  mret (mk_config thread_id checkpoint_ns checkpoint_id).

Definition put (fuel : nat) (config : RunnableConfig) (checkpoint metadata : pyval)
    (new_versions : pydict) : PyM (Saver S) RunnableConfig :=
  plain ← uninstrumented;
  if plain : bool then put_impl fuel config checkpoint metadata new_versions
  else
    attrs ← put_attrs config checkpoint;
    measured (lit "put") (cfg_thread_id config) attrs
      (put_impl fuel config checkpoint metadata new_versions).

(** [enumerate(writes)] with the index [WRITES_IDX_MAP.get(channel, idx)] *)
Definition indexed_writes (writes : list (pystr * pyval)) : list (Z * (pystr * pyval)) :=
  imap (λ idx w, (from_option id (Z.of_nat idx) (WRITES_IDX_MAP w.1), w)) writes.

(** [cfg["checkpoint_id"]] *)
Definition required_id (config : RunnableConfig) : result pystr :=
  or_raise KeyError (cfg_checkpoint_id config).

Definition write_record (task_id channel task_path : pystr) (tv : pyval * pyval) : pyval :=
  PList [PStr task_id; PStr channel; PList [tv.1; tv.2]; PStr task_path].

(** [_put_writes_impl] *)
Definition put_writes_impl (config : RunnableConfig) (writes : list (pystr * pyval))
    (task_id task_path : pystr) : PyM (Saver S) unit :=
  checkpoint_id ← lift (required_id config);
  let ns := writes_ns (cfg_thread_id config) (cfg_ns config) checkpoint_id in
  batch ← for_fold (indexed_writes writes) (λ batch w,
      let '(widx, (channel, value)) := w in
      let k := write_key task_id widx in
      skip ← (if (0 <=? widx)%Z then on_store (op_contains ns k) else mret false);
      if skip : bool then mret batch
      else
        tv ← lift (dumps_typed value);
        mret (batch ++ [(ns, k, write_record task_id channel task_path tv)])) [];
  set_many batch.

Definition put_writes (config : RunnableConfig) (writes : list (pystr * pyval))
    (task_id task_path : pystr) : PyM (Saver S) unit :=
  plain ← uninstrumented;
  if plain : bool then put_writes_impl config writes task_id task_path
  else
    measured (lit "put_writes") (cfg_thread_id config) (writes_attrs config writes task_id)
      (put_writes_impl config writes task_id task_path).

(** [_write_rows] *)
Definition write_rows (config : RunnableConfig) (writes : list (pystr * pyval))
    (task_id task_path : pystr) : result (pystr * list (pystr * pyval * bool)) :=
  checkpoint_id ← required_id config;
  rows ← mapM (λ w : Z * (pystr * pyval),
      let '(widx, (channel, value)) := w in
      tv ← dumps_typed value;
      Ok (write_key task_id widx, write_record task_id channel task_path tv, (0 <=? widx)%Z))
    (indexed_writes writes);
  Ok (writes_ns (cfg_thread_id config) (cfg_ns config) checkpoint_id, rows).
End Saver.
