(* ===== verification/SaverRead.v ===== *)
(** * The LangGraph checkpointer: reading, administration, and the async twins

    [python/swarmstate/integrations/langgraph.py], third part. An [await] of an
    [a*] method of the store is the store operation itself; [asyncio.to_thread]
    of a method is that method. *)

From S2P Require Import Prelude PyValue Store Saver SaverOps.

Section SaverRead.
Context {S : Type} `{ops : !StoreOps S} `{lg : !LangGraph}.
Implicit Types (thread_id checkpoint_ns checkpoint_id : pystr).

(** A resolved checkpoint: ids and stored record. *)
Abbreviation resolved := (pystr * pystr * pystr * pyval)%type.

(** [_resolve] *)
Definition resolve (config : RunnableConfig) : PyM (Saver S) (option resolved) :=
  let thread_id := cfg_thread_id config in
  let checkpoint_ns := cfg_ns config in
  let ns := ckpt_ns thread_id checkpoint_ns in
  let finish checkpoint_id (saved : pyval) : PyM (Saver S) (option resolved) :=
    saved ← (if is_none saved then on_store (op_get ns checkpoint_id) else mret saved);
    mret (if is_none saved then None
          else Some (thread_id, checkpoint_ns, checkpoint_id, saved)) in
  indexed ← gets store_indexes_max_key;
  match truthy_id (get_checkpoint_id config) with
  | Some checkpoint_id => finish checkpoint_id PNone
  | None =>
      if indexed : bool then
        m ← on_store (op_max_key ns);
        match truthy_id m with
        | None => mret None
        | Some checkpoint_id => finish checkpoint_id PNone
        end
      else
        let k := latest_key thread_id checkpoint_ns in
        pointer ← on_store (op_get LATEST_NS k);
        pointed ← (if truthy pointer
                   then i ← lift (as_str pointer); saved ← on_store (op_get ns i); mret (i, saved)
                   else mret ([], PNone));
        if is_none pointed.2 then
          ks ← on_store (op_keys ns None);
          match py_max ks with
          | None => mret None
          | Some checkpoint_id =>
              on_store (op_set LATEST_NS k (PStr checkpoint_id)) ;;
              finish checkpoint_id PNone
          end
        else finish pointed.1 pointed.2
  end.

(** [_get_tuple_impl] *)
Definition get_tuple_impl (config : RunnableConfig) : PyM (Saver S) (option CheckpointTuple) :=
  r ← resolve config;
  match r with
  | None => mret None
  | Some (thread_id, checkpoint_ns, checkpoint_id, saved) =>
      t ← build_tuple thread_id checkpoint_ns checkpoint_id saved PNone; mret (Some t)
  end.

Definition get_tuple (config : RunnableConfig) : PyM (Saver S) (option CheckpointTuple) :=
  plain ← uninstrumented;
  if plain : bool then get_tuple_impl config
  else measured (lit "get_tuple") (cfg_thread_id config) (get_attrs config)
         (get_tuple_impl config).

(** [_list_targets]: thread, checkpoint namespace, store namespace *)
Definition list_targets (config : option RunnableConfig)
    : PyM (Saver S) (list (pystr * pystr * pystr)) :=
  match config with
  | None =>
      l ← namespaces (lit "ck" ++ [SEP]);
      mret (omap (λ ns, match split_on SEP ns with
                        | [_; t; c] => Some (t, c, ns)
                        | _ => None
                        end) l)
  | Some config =>
      let thread_id := cfg_thread_id config in
      l ← namespaces (lit "ck" ++ SEP :: thread_id ++ [SEP]);
      mret (omap (λ ns, match split_on SEP ns with
                        | [_; t; c] =>
                            if str_eqb t thread_id &&
                               match cfg_checkpoint_ns config with
                               | Some want_ns => str_eqb c want_ns
                               | None => true
                               end
                            then Some (t, c, ns) else None
                        | _ => None
                        end) l)
  end.

(** [limit is not None and n >= limit] *)
Definition limit_reached (limit : option Z) (n : nat) : bool :=
  match limit with Some l => (l <=? Z.of_nat n)%Z | None => false end.

Section listing.
Context (fetch : pystr → pystr → PyM (Saver S) pyval)
  (build : pystr → pystr → pystr → pyval → pyval → PyM (Saver S) CheckpointTuple)
  (filter : list (pystr * pyval)) (before_id : option pystr) (limit : option Z).

(** The inner loop of [list]: what was yielded so far, and whether the limit
    was reached (the [return]). *)
Fixpoint list_ids thread_id checkpoint_ns (ns : pystr) (ids : list pystr)
    (out : list CheckpointTuple) : PyM (Saver S) (list CheckpointTuple * bool) :=
  match ids with
  | [] => mret (out, false)
  | checkpoint_id :: ids' =>
      if match before_id with Some b => str_leb b checkpoint_id | None => false end
      then list_ids thread_id checkpoint_ns ns ids' out
      else
        saved ← fetch ns checkpoint_id;
        metadata ← lift (metadata_if_matching saved filter);
        if is_none metadata then list_ids thread_id checkpoint_ns ns ids' out
        else
          t ← build thread_id checkpoint_ns checkpoint_id saved metadata;
          let out' := out ++ [t] in
          if limit_reached limit (length out') then mret (out', true)
          else list_ids thread_id checkpoint_ns ns ids' out'
  end.

Fixpoint list_loop (want_id : option pystr) (targets : list (pystr * pystr * pystr))
    (out : list CheckpointTuple) : PyM (Saver S) (list CheckpointTuple) :=
  match targets with
  | [] => mret out
  | (thread_id, checkpoint_ns, ns) :: targets' =>
      ids ← (match want_id with
             | Some i => mret [i]
             | None => ks ← on_store (op_keys ns None); mret (py_sorted_rev ks)
             end);
      '(out', stop) ← list_ids thread_id checkpoint_ns ns ids out;
      if stop : bool then mret out' else list_loop want_id targets' out'
  end.
End listing.

(** [list] *)
Definition list_checkpoints (config : option RunnableConfig) (filter : list (pystr * pyval))
    (before : option RunnableConfig) (limit : option Z)
    : PyM (Saver S) (list CheckpointTuple) :=
  let want_id := truthy_id (config ≫= get_checkpoint_id) in
  let before_id := truthy_id (before ≫= get_checkpoint_id) in
  targets ← list_targets config;
  list_loop (λ ns k, on_store (op_get ns k)) build_tuple filter before_id limit
    want_id targets [].

(** ** [get_delta_channel_history] *)

Record DeltaWalk := {
  dw_collected : gmap pystr (list (pyval * pyval * pyval));
  dw_seeds : gmap pystr pyval;
  dw_remaining : gset pystr;
}.

(** [collected[write[1]].append(write)] *)
Definition collect (w : pyval * pyval * pyval)
    (collected : gmap pystr (list (pyval * pyval * pyval)))
    : result (gmap pystr (list (pyval * pyval * pyval))) :=
  ch ← as_str w.1.2;
  l ← or_raise KeyError (collected !! ch);
  Ok (<[ch := l ++ [w]]> collected).

(** [while cursor and remaining] *)
Fixpoint history_walk (fuel : nat) thread_id checkpoint_ns (cursor : pyval) (d : DeltaWalk)
    : PyM (Saver S) DeltaWalk :=
  if negb (truthy cursor) || bool_decide (dw_remaining d = ∅) then mret d
  else match fuel with
  | O => out_of_fuel
  | Datatypes.S fuel' =>
      c ← lift (as_str cursor);
      saved ← on_store (op_get (ckpt_ns thread_id checkpoint_ns) c);
      if is_none saved then mret d
      else
        writes ← pending_writes thread_id checkpoint_ns c (Some (dw_remaining d));
        collected ← for_fold (reverse writes) (λ col w, lift (collect w col)) (dw_collected d);
        present ← channel_values thread_id checkpoint_ns saved (dw_remaining d);
        let d' := {| dw_collected := collected;
                     dw_seeds := foldl (λ m e, <[e.1 := e.2]> m) (dw_seeds d) present;
                     dw_remaining := dw_remaining d ∖ list_to_set present.*1 |} in
        parent ← lift (py_get saved (key "parent"));
        history_walk fuel' thread_id checkpoint_ns parent d'
  end.

Record DeltaEntry := {
  de_writes : list (pyval * pyval * pyval);
  de_seed : option pyval;
}.

Definition get_delta_channel_history (fuel : nat) (config : RunnableConfig)
    (channels : list pystr) : PyM (Saver S) (list (pystr * DeltaEntry)) :=
  match channels with
  | [] => mret []
  | _ =>
      r ← resolve config;
      let '(thread_id, checkpoint_ns, _, target) :=
        from_option id ([], [], [], PDict []) r in
      cursor ← lift (py_get target (key "parent"));
      d ← history_walk fuel thread_id checkpoint_ns cursor
            {| dw_collected := list_to_map ((λ ch, (ch, [])) <$> channels);
               dw_seeds := ∅; dw_remaining := list_to_set channels |};
      mret (od_of_list ((λ ch, (ch, {|
        de_writes := reverse (from_option id [] (dw_collected d !! ch));
        de_seed := dw_seeds d !! ch |})) <$> channels))
  end.

(** ** Administration *)

(** [parts = ns.split(SEP); parts[1] = target; SEP.join(parts)] *)
Definition retarget_ns (ns target : pystr) : pystr :=
  join_with SEP (<[1%nat := target]> (split_on SEP ns)).

(** [ns.split(SEP)[2]] *)
Definition third_part (ns : pystr) : result pystr :=
  or_raise IndexError (split_on SEP ns !! 2%nat).

Definition forget_thread {V} thread_id (hints : gmap (pystr * pystr) V) : gmap (pystr * pystr) V :=
  filter (λ e, e.1.1 ≠ thread_id) hints.

Definition delete_thread thread_id : PyM (Saver S) unit :=
  for_each [lit "ck"; lit "wr"; lit "bl"] (λ kind,
    l ← thread_namespaces kind thread_id;
    for_each l delete_namespace) ;;
  indexed ← gets store_indexes_max_key;
  (if indexed : bool then mret tt
   else
     ks ← keys LATEST_NS (thread_id ++ [SEP]);
     delete_many ((λ k, (LATEST_NS, k)) <$> ks)) ;;
  modify (λ s, set_max_seen (forget_thread thread_id (max_seen s)) s) ;;
  modify (λ s, set_prune_floor (forget_thread thread_id (prune_floor s)) s).

(** [_retarget] *)
Definition retarget (saved : pyval) (source target : pystr) : result pyval :=
  md ← py_getitem saved (key "md");
  l ← py_iter md;
  metadata ← loads_typed l;
  match metadata with
  | PDict d =>
      if py_eq (from_option id PNone (dict_get d (key "thread_id"))) (PStr source) then
        tb ← dumps_typed (PDict (dict_set d (key "thread_id") (PStr target)));
        saved_items ← py_items saved;
        Ok (PDict (dict_set saved_items (key "md") (PList [tb.1; tb.2])))
      else Ok saved
  | _ => Ok saved
  end.

Definition copy_thread (source target : pystr) : PyM (Saver S) unit :=
  if str_eqb source target then mret tt
  else
    for_each [lit "ck"; lit "wr"; lit "bl"] (λ kind,
      l ← thread_namespaces kind source;
      for_each l (λ ns,
        let target_ns := retarget_ns ns target in
        ks ← on_store (op_keys ns None);
        vs ← get_many ns ks;
        rows ← for_fold (zip ks vs) (λ rows e,
            let '(k, value) := e in
            if is_none value then mret rows
            else
              value ← (if str_eqb kind (lit "ck") then lift (retarget value source target)
                       else mret value);
              mret (rows ++ [(target_ns, k, value)])) [];
        set_many rows)) ;;
    indexed ← gets store_indexes_max_key;
    if indexed : bool then mret tt
    else
      l ← thread_namespaces (lit "ck") target;
      for_each l (λ ns,
        newest ← on_store (op_max_key ns);
        match truthy_id newest with
        | None => mret tt
        | Some newest =>
            checkpoint_ns ← lift (third_part ns);
            on_store (op_set LATEST_NS (latest_key target checkpoint_ns) (PStr newest)) ;;
            modify (λ s, set_max_seen (bounded_set (max_seen s) (target, checkpoint_ns) newest) s)
        end).

Definition delete_for_runs (run_ids : list pystr) : PyM (Saver S) unit :=
  let wanted : gset pystr := list_to_set run_ids in
  if bool_decide (wanted = ∅) then mret tt
  else
    targets ← list_targets None;
    for_each targets (λ target,
      let '(thread_id, checkpoint_ns, ns) := target in
      ids ← on_store (op_keys ns None);
      vs ← get_many ns ids;
      doomed ← for_fold (zip ids vs) (λ (doomed : gset pystr) e,
          let '(checkpoint_id, saved) := e in
          if is_none saved then mret doomed
          else
            metadata ← lift (loads_field saved (key "md"));
            hit ← (if is_dict metadata
                   then run ← lift (py_get metadata (key "run_id")); lift (in_names run wanted)
                   else mret false);
            mret (if hit : bool then {[ checkpoint_id ]} ∪ doomed else doomed)) ∅;
      if bool_decide (doomed = ∅) then mret tt
      else
        let kept := filter (λ i, i ∉ doomed) ids in
        drop_checkpoints thread_id checkpoint_ns (py_sorted (elements doomed)) kept ∅).

Definition prune (fuel : nat) (thread_ids : list pystr) (strategy : pystr) : PyM (Saver S) unit :=
  if negb (bool_decide (strategy ∈ PRUNE_STRATEGIES)) then raise ValueError
  else for_each thread_ids (λ thread_id,
    if str_eqb strategy (lit "delete") then delete_thread thread_id
    else
      l ← thread_namespaces (lit "ck") thread_id;
      for_each l (λ ns,
        checkpoint_ns ← lift (third_part ns);
        ids ← on_store (op_keys ns None);
        trim fuel thread_id checkpoint_ns (py_sorted ids) 1 ;; mret tt)).

(** ** The native async paths *)

Definition aset_many (items : list (pystr * pystr * pyval)) : PyM (Saver S) unit :=
  match op_set_many with Some f => on_store (f items) | None => raise AttributeError end.
Definition aget_many (pairs : list (pystr * pystr)) : PyM (Saver S) (list pyval) :=
  match op_get_many with Some f => on_store (f pairs) | None => raise AttributeError end.

(** [_aput_impl] *)
Definition aput_impl (fuel : nat) (config : RunnableConfig) (checkpoint metadata : pyval)
    (new_versions : pydict) : PyM (Saver S) RunnableConfig :=
  '(thread_id, checkpoint_ns, rows, blobs) ← put_rows config checkpoint metadata new_versions;
  (match blobs with
   | [] => mret tt
   | _ =>
       let bl_ns := blobs_ns thread_id checkpoint_ns in
       stored ← mapM (λ b, on_store (op_contains bl_ns b.1)) blobs;
       let new_blobs := omap (λ e : (pystr * pyval) * bool,
         if e.2 then None else Some (bl_ns, e.1.1, e.1.2)) (zip blobs stored) in
       match new_blobs with [] => mret tt | _ => aset_many new_blobs end
   end) ;;
  aset_many rows ;;
  max_checkpoints ← gets max_checkpoints_per_thread;
  (match max_checkpoints with
   | Some _ => prune_thread fuel thread_id checkpoint_ns
   | None => mret tt
   end) ;;
  id_value ← lift (py_getitem checkpoint (key "id"));
  checkpoint_id ← lift (as_str id_value);
  mret (mk_config thread_id checkpoint_ns checkpoint_id).

Definition aput (fuel : nat) (config : RunnableConfig) (checkpoint metadata : pyval)
    (new_versions : pydict) : PyM (Saver S) RunnableConfig :=
  native ← gets native_async;
  if negb native then put fuel config checkpoint metadata new_versions
  else
    plain ← uninstrumented;
    if plain : bool then aput_impl fuel config checkpoint metadata new_versions
    else
      attrs ← put_attrs config checkpoint;
      measured (lit "put") (cfg_thread_id config) attrs
        (aput_impl fuel config checkpoint metadata new_versions).

(** [_aput_writes_impl] *)
Definition aput_writes_impl (config : RunnableConfig) (writes : list (pystr * pyval))
    (task_id task_path : pystr) : PyM (Saver S) unit :=
  '(ns, rows) ← lift (write_rows config writes task_id task_path);
  existing ← (if existsb snd rows
              then l ← on_store (op_keys ns (Some (task_id ++ [SEP])));
                   mret (list_to_set l : gset pystr)
              else mret ∅);
  let batch := omap (λ r : pystr * pyval * bool,
    if r.2 && bool_decide (r.1.1 ∈ existing) then None else Some (ns, r.1.1, r.1.2)) rows in
  match batch with [] => mret tt | _ => aset_many batch end.

Definition aput_writes (config : RunnableConfig) (writes : list (pystr * pyval))
    (task_id task_path : pystr) : PyM (Saver S) unit :=
  native ← gets native_async;
  if negb native then put_writes config writes task_id task_path
  else
    plain ← uninstrumented;
    if plain : bool then aput_writes_impl config writes task_id task_path
    else
      measured (lit "put_writes") (cfg_thread_id config) (writes_attrs config writes task_id)
        (aput_writes_impl config writes task_id task_path).

(** [_aresolve] *)
Definition aresolve (config : RunnableConfig) : PyM (Saver S) (option resolved) :=
  let thread_id := cfg_thread_id config in
  let checkpoint_ns := cfg_ns config in
  let ns := ckpt_ns thread_id checkpoint_ns in
  let finish checkpoint_id (saved : pyval) : PyM (Saver S) (option resolved) :=
    saved ← (if is_none saved then on_store (op_get ns checkpoint_id) else mret saved);
    mret (if is_none saved then None
          else Some (thread_id, checkpoint_ns, checkpoint_id, saved)) in
  indexed ← gets store_indexes_max_key;
  match truthy_id (get_checkpoint_id config) with
  | Some checkpoint_id => finish checkpoint_id PNone
  | None =>
      if indexed : bool then
        m ← on_store (op_max_key ns);
        match truthy_id m with
        | None => mret None
        | Some checkpoint_id => finish checkpoint_id PNone
        end
      else
        let latest := latest_key thread_id checkpoint_ns in
        pointer ← on_store (op_get LATEST_NS latest);
        pointed ← (if truthy pointer
                   then i ← lift (as_str pointer); saved ← on_store (op_get ns i); mret (i, saved)
                   else mret ([], PNone));
        if is_none pointed.2 then
          ks ← on_store (op_keys ns None);
          match py_max ks with
          | None => mret None
          | Some checkpoint_id =>
              on_store (op_set LATEST_NS latest (PStr checkpoint_id)) ;;
              finish checkpoint_id PNone
          end
        else finish pointed.1 pointed.2
  end.

(** [_abuild_tuple] *)
Definition abuild_tuple thread_id checkpoint_ns checkpoint_id (saved metadata : pyval)
    : PyM (Saver S) CheckpointTuple :=
  '(checkpoint, versions) ← decode_checkpoint saved;
  let wr_ns := writes_ns thread_id checkpoint_ns checkpoint_id in
  '(checkpoint, write_keys) ← (match versions with
    | [] => ks ← on_store (op_keys wr_ns None); mret (checkpoint, ks)
    | _ =>
        let bl_ns := blobs_ns thread_id checkpoint_ns in
        blobs ← aget_many ((λ e, (bl_ns, blob_key e.1 e.2)) <$> versions);
        ks ← on_store (op_keys wr_ns None);
        checkpoint ← lift (attach_values checkpoint versions blobs);
        mret (checkpoint, ks)
    end);
  metadata ← (if is_none metadata then lift (loads_field saved (key "md")) else mret metadata);
  write_keys ← lift (sort_write_keys write_keys);
  raw ← (match write_keys with
         | [] => mret []
         | _ => aget_many ((λ k, (wr_ns, k)) <$> write_keys)
         end);
  writes ← lift (decode_writes raw None);
  parent ← lift (parent_config thread_id checkpoint_ns saved);
  mret {| ct_config := mk_config thread_id checkpoint_ns checkpoint_id;
          ct_checkpoint := checkpoint; ct_metadata := metadata;
          ct_parent_config := parent; ct_pending_writes := writes |}.

(** [_aget_tuple_impl] *)
Definition aget_tuple_impl (config : RunnableConfig) : PyM (Saver S) (option CheckpointTuple) :=
  r ← aresolve config;
  match r with
  | None => mret None
  | Some (thread_id, checkpoint_ns, checkpoint_id, saved) =>
      t ← abuild_tuple thread_id checkpoint_ns checkpoint_id saved PNone; mret (Some t)
  end.

Definition aget_tuple (config : RunnableConfig) : PyM (Saver S) (option CheckpointTuple) :=
  native ← gets native_async;
  if negb native then get_tuple config
  else
    plain ← uninstrumented;
    if plain : bool then aget_tuple_impl config
    else measured (lit "get_tuple") (cfg_thread_id config) (get_attrs config)
           (aget_tuple_impl config).

(** [alist] *)
Definition alist (config : option RunnableConfig) (filter : list (pystr * pyval))
    (before : option RunnableConfig) (limit : option Z)
    : PyM (Saver S) (list CheckpointTuple) :=
  native ← gets native_async;
  if negb native then list_checkpoints config filter before limit
  else
    let want_id := truthy_id (config ≫= get_checkpoint_id) in
    let before_id := truthy_id (before ≫= get_checkpoint_id) in
    targets ← list_targets config;
    list_loop (λ ns k, on_store (op_get ns k)) abuild_tuple filter before_id limit
      want_id targets [].

(** The administrative operations in a worker thread. *)
Definition adelete_thread thread_id : PyM (Saver S) unit := delete_thread thread_id.
Definition acopy_thread (source target : pystr) : PyM (Saver S) unit := copy_thread source target.
Definition adelete_for_runs (run_ids : list pystr) : PyM (Saver S) unit :=
  delete_for_runs run_ids.
Definition aprune (fuel : nat) (thread_ids : list pystr) (strategy : pystr)
    : PyM (Saver S) unit :=
  prune fuel thread_ids strategy.
Definition aget_delta_channel_history (fuel : nat) (config : RunnableConfig)
    (channels : list pystr) : PyM (Saver S) (list (pystr * DeltaEntry)) :=
  get_delta_channel_history fuel config channels.
End SaverRead.
