(* ===== verification/SaverLemmas.v ===== *)
(** * The LangGraph checkpointer: how its operations use a store

    The lemmas the theorems about [SwarmStateSaver] share. They hold over every
    store that satisfies [StoreSpec], with or without the batch methods and the
    [prefix] argument: the fallbacks of the source are dealt with here, once.

    - [at_view m s s']: [s'] is the saver [s] with its store now holding [m].
    - [reads c s r]: the computation [c], from [s], ends with the outcome [r]
      (a value or an exception) and leaves the content of the store alone. *)

From S2P Require Import Prelude PyValue Store Saver SaverOps SaverRead.

(** ** Names *)

Lemma ckpt_ns_split t c :
  SEP ∉ t → SEP ∉ c → split_on SEP (ckpt_ns t c) = [lit "ck"; t; c].
Proof.
  intros. apply (split_on_join SEP [lit "ck"; t; c]); [done|].
  repeat constructor; try done. by apply (bool_decide_unpack _).
Qed.

Lemma str_of_Z_nosep z : SEP ∉ str_of_Z z.
Proof. by apply str_of_Z_not_elem. Qed.

Lemma write_order_write_key task z : write_order (write_key task z) = Ok (task, z).
Proof.
  unfold write_order, write_key. rewrite rpartition_app by apply str_of_Z_nosep.
  cbn. by rewrite py_int_str_of_Z.
Qed.

Lemma write_key_inj t1 z1 t2 z2 : write_key t1 z1 = write_key t2 z2 → t1 = t2 ∧ z1 = z2.
Proof.
  intros H. pose proof (write_order_write_key t1 z1) as H1. rewrite H in H1.
  rewrite write_order_write_key in H1. by simplify_eq.
Qed.

Lemma valid_write_key t z : valid_text t → valid_text (write_key t z).
Proof.
  intros. unfold write_key. rewrite valid_text_app, valid_text_cons. auto using str_of_Z_valid.
Qed.

Lemma valid_ckpt_ns t c : valid_text t → valid_text c → valid_text (ckpt_ns t c).
Proof.
  intros. unfold ckpt_ns. rewrite !valid_text_app, !valid_text_cons, valid_text_app, valid_text_cons.
  repeat split; auto. by apply (bool_decide_unpack _).
Qed.

Lemma valid_blobs_ns t c : valid_text t → valid_text c → valid_text (blobs_ns t c).
Proof.
  intros. unfold blobs_ns. rewrite !valid_text_app, !valid_text_cons, valid_text_app, valid_text_cons.
  repeat split; auto. by apply (bool_decide_unpack _).
Qed.

Lemma valid_writes_ns t c i :
  valid_text t → valid_text c → valid_text i → valid_text (writes_ns t c i).
Proof.
  intros. unfold writes_ns.
  rewrite !valid_text_app, !valid_text_cons, valid_text_app, valid_text_cons, valid_text_app,
    valid_text_cons.
  repeat split; auto. by apply (bool_decide_unpack _).
Qed.

Lemma valid_latest_key t c : valid_text t → valid_text c → valid_text (latest_key t c).
Proof. intros. unfold latest_key. rewrite valid_text_app, valid_text_cons. auto. Qed.

Lemma valid_LATEST_NS : valid_text LATEST_NS.
Proof. by apply (bool_decide_unpack _). Qed.

Create HintDb text discriminated.
#[export] Hint Resolve valid_write_key valid_ckpt_ns valid_blobs_ns valid_writes_ns
  valid_latest_key valid_LATEST_NS : text.

(** Two names are equal only if their parts are, when no part holds the separator. *)
Lemma sep_inj (a b a' b' : pystr) :
  SEP ∉ a → SEP ∉ a' → a ++ SEP :: b = a' ++ SEP :: b' → a = a' ∧ b = b'.
Proof.
  intros Ha Ha' H.
  assert (split_on SEP (a ++ SEP :: b) = split_on SEP (a' ++ SEP :: b')) as Hs by congruence.
  rewrite !split_on_app in Hs by done. injection Hs as -> Hs.
  split; [done|]. rewrite <-(join_split_on SEP b), <-(join_split_on SEP b'). congruence.
Qed.

Lemma latest_key_inj t c t' c' :
  SEP ∉ t → SEP ∉ t' → latest_key t c = latest_key t' c' → t = t' ∧ c = c'.
Proof. apply sep_inj. Qed.

Lemma ckpt_ns_inj t c t' c' :
  SEP ∉ t → SEP ∉ t' → ckpt_ns t c = ckpt_ns t' c' → t = t' ∧ c = c'.
Proof. intros ?? H. apply app_inv_head in H. injection H as H. by apply sep_inj. Qed.

Lemma blobs_ns_inj t c t' c' :
  SEP ∉ t → SEP ∉ t' → blobs_ns t c = blobs_ns t' c' → t = t' ∧ c = c'.
Proof. intros ?? H. apply app_inv_head in H. injection H as H. by apply sep_inj. Qed.

Lemma writes_ns_inj t c i t' c' i' :
  SEP ∉ t → SEP ∉ t' → SEP ∉ c → SEP ∉ c' →
  writes_ns t c i = writes_ns t' c' i' → t = t' ∧ c = c' ∧ i = i'.
Proof.
  intros ???? H. apply app_inv_head in H. injection H as H.
  apply sep_inj in H as [-> H]; [|done..]. by apply sep_inj in H as [-> ->].
Qed.

(** The kinds of namespaces are told apart by their first character or two. *)
Lemma ckpt_ne_writes t c t' c' i : ckpt_ns t c ≠ writes_ns t' c' i.
Proof. intros H. apply (f_equal (take 1)) in H. by vm_compute in H. Qed.
Lemma ckpt_ne_blobs t c t' c' : ckpt_ns t c ≠ blobs_ns t' c'.
Proof. intros H. apply (f_equal (take 1)) in H. by vm_compute in H. Qed.
Lemma ckpt_ne_latest t c : ckpt_ns t c ≠ LATEST_NS.
Proof. intros H. apply (f_equal (take 1)) in H. by vm_compute in H. Qed.
Lemma writes_ne_blobs t c i t' c' : writes_ns t c i ≠ blobs_ns t' c'.
Proof. intros H. apply (f_equal (take 1)) in H. by vm_compute in H. Qed.
Lemma writes_ne_latest t c i : writes_ns t c i ≠ LATEST_NS.
Proof. intros H. apply (f_equal (take 1)) in H. by vm_compute in H. Qed.
Lemma blobs_ne_latest t c : blobs_ns t c ≠ LATEST_NS.
Proof. intros H. apply (f_equal (take 2)) in H. by vm_compute in H. Qed.
#[export] Hint Resolve ckpt_ne_writes ckpt_ne_blobs ckpt_ne_latest writes_ne_blobs
  writes_ne_latest blobs_ne_latest : text.
#[export] Hint Extern 2 (_ ≠ _) => apply not_eq_sym : text.

(** ** Loops without state *)

Lemma foldR_app {A B} (l1 l2 : list A) (body : B → A → result B) acc :
  foldR (l1 ++ l2) body acc = (acc' ← foldR l1 body acc; foldR l2 body acc').
Proof.
  revert acc. induction l1 as [|x l1 IH]; intros acc; [done|].
  cbn [foldR app]. cbn. destruct (body acc x); cbn; [apply IH|done..].
Qed.

(** ** The state of a saver after an operation *)

Section lemmas.
Context {S : Type} `{ops : !StoreOps S} `{spec : !StoreSpec S} `{lg : !LangGraph}.
Implicit Types s : Saver S.

Definition sok s : Prop := sv_ok (store s).
Definition sview s : kv := sv_view (store s).

Definition at_view (m : kv) s s' : Prop :=
  ∃ st b, s' = set_takes_prefix b (set_store st s) ∧ sv_ok st ∧ sv_view st = m.

Lemma at_view_refl s : sok s → at_view (sview s) s s.
Proof. intros H. exists (store s), (store_takes_prefix s). by destruct s. Qed.

Lemma at_view_trans m m' s s' s'' : at_view m s s' → at_view m' s' s'' → at_view m' s s''.
Proof. intros (st&b&->&_) (st'&b'&->&?&?). by exists st', b'. Qed.

Lemma at_view_ok m s s' : at_view m s s' → sok s'.
Proof. by intros (st&b&->&?&?). Qed.
Lemma at_view_view m s s' : at_view m s s' → sview s' = m.
Proof. by intros (st&b&->&?&?). Qed.
Lemma at_view_incremental m s s' : at_view m s s' → incremental s' = incremental s.
Proof. by intros (st&b&->&?&?). Qed.
Lemma at_view_max_checkpoints m s s' :
  at_view m s s' → max_checkpoints_per_thread s' = max_checkpoints_per_thread s.
Proof. by intros (st&b&->&?&?). Qed.
Lemma at_view_metrics m s s' : at_view m s s' → metrics s' = metrics s.
Proof. by intros (st&b&->&?&?). Qed.
Lemma at_view_tracer m s s' : at_view m s s' → tracer s' = tracer s.
Proof. by intros (st&b&->&?&?). Qed.
Lemma at_view_max_seen m s s' : at_view m s s' → max_seen s' = max_seen s.
Proof. by intros (st&b&->&?&?). Qed.
Lemma at_view_prune_floor m s s' : at_view m s s' → prune_floor s' = prune_floor s.
Proof. by intros (st&b&->&?&?). Qed.
Lemma at_view_indexes m s s' : at_view m s s' → store_indexes_max_key s' = store_indexes_max_key s.
Proof. by intros (st&b&->&?&?). Qed.
Lemma at_view_native m s s' : at_view m s s' → native_async s' = native_async s.
Proof. by intros (st&b&->&?&?). Qed.

(** ** Reading *)

Definition reads {A} (c : PyM (Saver S) A) s (r : result A) : Prop :=
  ∃ s', c s = (r, s') ∧ at_view (sview s) s s'.

Lemma reads_ret {A} (a : A) s : sok s → reads (mret a) s (Ok a).
Proof. intros. exists s. split; [done|by apply at_view_refl]. Qed.

Lemma reads_lift {A} (r : result A) s : sok s → reads (lift r) s r.
Proof. intros. exists s. split; [done|by apply at_view_refl]. Qed.

Lemma reads_out_of_fuel {A} s : sok s → reads (A:=A) out_of_fuel s OutOfFuel.
Proof. intros. exists s. split; [done|by apply at_view_refl]. Qed.

Lemma reads_gets {A} (f : Saver S → A) s : sok s → reads (gets f) s (Ok (f s)).
Proof. intros. exists s. split; [done|by apply at_view_refl]. Qed.

Lemma reads_bind {A B} (c : PyM (Saver S) A) (f : A → PyM (Saver S) B) s r (g : A → result B) :
  reads c s r →
  (∀ a s', r = Ok a → at_view (sview s) s s' → reads (f a) s' (g a)) →
  reads (c ≫= f) s (r ≫= g).
Proof.
  intros (s1&E&Hs1) Hf. unfold reads, mbind, pym_bind. rewrite E.
  destruct r as [a|e|]; cbn; [|by exists s1..].
  destruct (Hf a s1 eq_refl Hs1) as (s2&E2&Hs2). exists s2. split; [done|].
  rewrite (at_view_view _ _ _ Hs1) in Hs2. by eapply at_view_trans.
Qed.

Lemma reads_foldR {A B} (l : list A) (body : B → A → PyM (Saver S) B) g b s :
  sok s →
  (∀ b x s', x ∈ l → at_view (sview s) s s' → reads (body b x) s' (g b x)) →
  reads (for_fold l body b) s (foldR l g b).
Proof.
  revert b s. induction l as [|x l IH]; intros b s Hs Hb; cbn [for_fold foldR].
  - by apply reads_ret.
  - apply reads_bind; [apply Hb; [left|by apply at_view_refl]|].
    intros b' s' _ Hs'. apply IH; [by eapply at_view_ok|]. intros b'' y s'' Hy Hs''.
    apply Hb; [by right|]. rewrite (at_view_view _ _ _ Hs') in Hs''. by eapply at_view_trans.
Qed.

Lemma reads_mapM {A B} (l : list A) (f : A → PyM (Saver S) B) (g : A → result B) s :
  sok s →
  (∀ x s', x ∈ l → at_view (sview s) s s' → reads (f x) s' (g x)) →
  reads (mapM f l) s (mapM g l).
Proof.
  revert s. induction l as [|x l IH]; intros s Hs Hb; cbn [mapM].
  - by apply reads_ret.
  - apply reads_bind; [apply Hb; [left|by apply at_view_refl]|].
    intros b' s' _ Hs'. apply reads_bind.
    + apply IH; [by eapply at_view_ok|]. intros y s'' Hy Hs''.
      apply Hb; [by right|]. rewrite (at_view_view _ _ _ Hs') in Hs''. by eapply at_view_trans.
    + intros ? ? _ ?. apply reads_ret. by eapply at_view_ok.
Qed.

Lemma reads_ok {A} (c : PyM (Saver S) A) s r : reads c s r →
  ∃ s', c s = (r, s') ∧ sok s' ∧ sview s' = sview s.
Proof. intros (s'&?&?). exists s'. split_and!; eauto using at_view_ok, at_view_view. Qed.

(** A read as a step of a total-correctness proof. *)
Lemma wp_reads {A} (c : PyM (Saver S) A) s r a Q :
  reads c s r → r = Ok a → (∀ s', at_view (sview s) s s' → Q a s') → wp c s Q.
Proof. intros (s'&E&Hs') -> HQ. eapply wp_intro; [exact E|]. by apply HQ. Qed.

(** ** One call of a store method *)

Lemma on_store_wp {A} (m : PyM S A) s (P : A → S → Prop) (Q : A → Saver S → Prop) :
  wp m (store s) P → (∀ a st, P a st → Q a (set_store st s)) → wp (on_store m) s Q.
Proof. unfold wp, on_store. destruct (m (store s)) as [[] ]; naive_solver. Qed.

Lemma on_store_at {A} (m : PyM S A) s view' (P : A → Prop) :
  wp m (store s) (λ a st, (sv_ok st ∧ sv_view st = view') ∧ P a) →
  wp (on_store m) s (λ a s', at_view view' s s' ∧ P a).
Proof.
  intros Hm. eapply on_store_wp; [exact Hm|]. intros a st [[? ?] ?]. split; [|done].
  exists st, (store_takes_prefix s). split; [by destruct s|done].
Qed.

Lemma reads_get s ns k : sok s → valid_text ns → valid_text k →
  reads (on_store (op_get ns k)) s (Ok (kv_get (sview s) ns k)).
Proof.
  intros. pose proof (on_store_at (op_get ns k) s _ _ (get_spec (store s) ns k ltac:(done) ltac:(done) ltac:(done)))
    as (v&s'&E&?&->)%wp_elim. by exists s'.
Qed.

Lemma reads_contains s ns k : sok s → valid_text ns → valid_text k →
  reads (on_store (op_contains ns k)) s (Ok (bool_decide (is_Some (sview s !! (ns, k))))).
Proof.
  intros. pose proof (on_store_at (op_contains ns k) s _ _
    (contains_spec (store s) ns k ltac:(done) ltac:(done) ltac:(done)))
    as (v&s'&E&?&->)%wp_elim. by exists s'.
Qed.

Lemma keys_at s ns : sok s → valid_text ns →
  ∃ l, reads (on_store (op_keys ns None)) s (Ok l) ∧ lists_keys (sview s) ns None l.
Proof.
  intros. pose proof (on_store_at (op_keys ns None) s _ _
    (keys_spec (store s) ns ltac:(done) ltac:(done))) as (l&s'&E&?&?)%wp_elim.
  exists l. split; [by exists s'|done].
Qed.

Lemma reads_max_key s ns l : sok s → valid_text ns → lists_keys (sview s) ns None l →
  reads (on_store (op_max_key ns)) s (Ok (py_max l)).
Proof.
  intros Hs Hns Hl. pose proof (on_store_at (op_max_key ns) s _ _
    (max_key_spec (store s) ns ltac:(done) ltac:(done))) as (o&s'&E&?&l'&Hl'&->)%wp_elim.
  exists s'. split; [|done]. rewrite E. do 2 f_equal. apply py_max_perm.
  by eapply lists_keys_perm.
Qed.

(** A filtered listing, whatever the store offers. *)
Lemma namespaces_at s p : sok s → valid_text p →
  ∃ l, reads (namespaces p) s (Ok l) ∧ lists_namespaces (sview s) (Some p) l.
Proof.
  intros Hs Hp.
  assert (∀ s0 s1, at_view (sview s) s0 s1 → sok s1 →
    ∃ l s2, namespaces_filtered p s1 = (Ok l, s2) ∧ at_view (sview s) s0 s2
      ∧ lists_namespaces (sview s) (Some p) l) as Hfilter.
  { intros s0 s1 H01 Hs1. pose proof (on_store_at (op_namespaces None) s1 _ _
      (namespaces_spec (store s1) ltac:(done))) as (l&s2&E&H12&Hl)%wp_elim.
    rewrite (at_view_view _ _ _ H01 : sv_view (store s1) = _) in *.
    eexists _, s2. split_and!; [|by eapply at_view_trans|by apply lists_namespaces_filter].
    unfold namespaces_filtered, mbind, pym_bind. by rewrite E. }
  unfold namespaces. unfold reads, gets, mbind at 1, pym_bind at 1.
  destruct (store_takes_prefix s) eqn:Etakes.
  - pose proof (namespaces_prefix_spec (store s) p Hs Hp) as H.
    destruct sv_takes_prefix.
    + apply on_store_at in H as (l&s'&E&?&?)%wp_elim. exists l. split; [|done].
      exists s'. split; [|done]. unfold catch. by rewrite E.
    + unfold catch, on_store. rewrite H. cbn [decide]. rewrite decide_True by done.
      destruct (Hfilter s (set_takes_prefix false (set_store (store s) s)))
        as (l&s2&E2&?&?); [by exists (store s), false|done|].
      exists l. split; [exists s2|done]. split; [|done]. rewrite <-E2. by destruct s.
  - destruct (Hfilter s s (at_view_refl _ Hs) Hs) as (l&s2&E2&?&?). exists l.
    split; [by exists s2|done].
Qed.

Lemma saver_keys_at s ns p : sok s → valid_text ns → valid_text p →
  ∃ l, reads (keys ns p) s (Ok l) ∧ lists_keys (sview s) ns (Some p) l.
Proof.
  intros Hs Hns Hp.
  assert (∀ s0 s1, at_view (sview s) s0 s1 → sok s1 →
    ∃ l s2, keys_filtered ns p s1 = (Ok l, s2) ∧ at_view (sview s) s0 s2
      ∧ lists_keys (sview s) ns (Some p) l) as Hfilter.
  { intros s0 s1 H01 Hs1. pose proof (on_store_at (op_keys ns None) s1 _ _
      (keys_spec (store s1) ns ltac:(done) Hns)) as (l&s2&E&H12&Hl)%wp_elim.
    rewrite (at_view_view _ _ _ H01 : sv_view (store s1) = _) in *.
    eexists _, s2. split_and!; [|by eapply at_view_trans|by apply lists_keys_filter].
    unfold keys_filtered, mbind, pym_bind. by rewrite E. }
  unfold keys. unfold reads, gets, mbind at 1, pym_bind at 1.
  destruct (store_takes_prefix s) eqn:Etakes.
  - pose proof (keys_prefix_spec (store s) ns p Hs Hns Hp) as H.
    destruct sv_takes_prefix.
    + apply on_store_at in H as (l&s'&E&?&?)%wp_elim. exists l. split; [|done].
      exists s'. split; [|done]. unfold catch. by rewrite E.
    + unfold catch, on_store. rewrite H. cbn [decide]. rewrite decide_True by done.
      destruct (Hfilter s (set_takes_prefix false (set_store (store s) s)))
        as (l&s2&E2&?&?); [by exists (store s), false|done|].
      exists l. split; [exists s2|done]. split; [|done]. rewrite <-E2. by destruct s.
  - destruct (Hfilter s s (at_view_refl _ Hs) Hs) as (l&s2&E2&?&?). exists l.
    split; [by exists s2|done].
Qed.

(** *** Batches, with or without the batch methods *)

Lemma mapM_Ok {A B} (f : A → B) (l : list A) : mapM (λ x, Ok (f x)) l = Ok (f <$> l).
Proof. induction l as [|x l IH]; [done|]. cbn [mapM fmap list_fmap]. by rewrite IH. Qed.

Lemma reads_get_many s ns ks : sok s → valid_text ns → Forall valid_text ks →
  reads (get_many ns ks) s (Ok (kv_get (sview s) ns <$> ks)).
Proof.
  intros Hs Hns Hks. unfold get_many. destruct op_get_many as [getter|] eqn:E.
  - pose proof (on_store_at (getter ((λ k, (ns, k)) <$> ks)) s _ _
      (get_many_spec getter (store s) ((λ k, (ns, k)) <$> ks) E ltac:(done)
        ltac:(apply Forall_fmap; eapply Forall_impl; [exact Hks|done])))
      as (l&s'&E'&?&->)%wp_elim.
    exists s'. split; [|done]. by rewrite E', <-list_fmap_compose.
  - rewrite <-mapM_Ok. apply reads_mapM; [done|]. intros k s' Hk Hs'.
    rewrite <-(at_view_view _ _ _ Hs'). apply reads_get; [by eapply at_view_ok|done|].
    by eapply Forall_forall in Hks.
Qed.

Definition item_ok (i : pystr * pystr * pyval) : Prop :=
  valid_text i.1.1 ∧ valid_text i.1.2 ∧ storable i.2.
Definition pair_ok (p : pystr * pystr) : Prop := valid_text p.1 ∧ valid_text p.2.

(** A step that only changes the content of the store, to [f] of what it was. *)
Definition writes_to {A} (c : PyM (Saver S) A) s (m : kv) : Prop :=
  wp c s (λ _ s', at_view m s s').

Lemma writes_set s ns k v : sok s → valid_text ns → valid_text k → storable v →
  writes_to (on_store (op_set ns k v)) s (<[(ns, k) := v]> (sview s)).
Proof.
  intros Hs ???. eapply wp_mono; [apply (on_store_at _ s (<[(ns, k) := v]> (sview s)) (λ _, True))|].
  - eapply wp_mono; [by apply (set_spec (store s))|]. auto.
  - by intros ?? [? _].
Qed.

Lemma writes_delete s ns k : sok s → valid_text ns → valid_text k →
  writes_to (on_store (op_delete ns k)) s (delete (ns, k) (sview s)).
Proof.
  intros Hs ??. eapply wp_mono; [apply (on_store_at _ s (delete (ns, k) (sview s)) (λ _, True))|].
  - eapply wp_mono; [by apply (delete_spec (store s))|]. intros ?? [? _]. auto.
  - by intros ?? [? _].
Qed.

(** A loop of such steps. *)
Lemma writes_for_each {A} (l : list A) (body : A → PyM (Saver S) unit) (f : A → kv → kv) s :
  sok s →
  (∀ x s', x ∈ l → sok s' → writes_to (body x) s' (f x (sview s'))) →
  writes_to (for_each l body) s (foldl (λ m x, f x m) (sview s) l).
Proof.
  revert s. induction l as [|x l IH]; intros s Hs Hb; cbn [for_each foldl].
  - apply wp_ret. by apply at_view_refl.
  - eapply wp_bind_mono; [apply Hb; [left|done]|]. intros [] s' Hs'. cbn beta in Hs'.
    rewrite <-(at_view_view _ _ _ Hs').
    eapply wp_mono; [apply IH; [by eapply at_view_ok|]|].
    + intros y s'' ?. apply Hb. by right.
    + intros ? s'' ?. by eapply at_view_trans.
Qed.

Lemma writes_set_many s items : sok s → Forall item_ok items →
  writes_to (set_many items) s (kv_set_many items (sview s)).
Proof.
  intros Hs Hi. unfold set_many. destruct items as [|i items]; [by apply wp_ret, at_view_refl|].
  destruct op_set_many as [setter|] eqn:E.
  - eapply wp_mono;
      [apply (on_store_at _ s (kv_set_many (i :: items) (sview s)) (λ _, True))|].
    + eapply wp_mono; [by apply (set_many_spec setter (store s))|]. auto.
    + by intros ?? [? _].
  - apply (writes_for_each _ _ (λ i, <[i.1 := i.2]>)); [done|].
    intros [[ns k] v] s' Hin ?. eapply Forall_forall in Hi as (?&?&?); [|exact Hin].
    by apply writes_set.
Qed.

Lemma writes_delete_many s pairs : sok s → Forall pair_ok pairs →
  writes_to (delete_many pairs) s (kv_delete_many pairs (sview s)).
Proof.
  intros Hs Hi. unfold delete_many. destruct pairs as [|p pairs]; [by apply wp_ret, at_view_refl|].
  destruct op_delete_many as [deleter|] eqn:E.
  - eapply wp_bind_mono;
      [apply (on_store_at _ s (kv_delete_many (p :: pairs) (sview s)) (λ _, True))|].
    + eapply wp_mono; [by apply (delete_many_spec deleter (store s))|]. by intros ?? [??].
    + intros ?? [? _]. by apply wp_ret.
  - apply (writes_for_each _ _ (λ p, delete p)); [done|].
    intros [ns k] s' Hin ?. eapply Forall_forall in Hi as (?&?); [|exact Hin].
    eapply wp_bind_mono; [by apply writes_delete|]. intros ???. by apply wp_ret.
Qed.

(** Every name the store holds is text it can be asked about. *)
Lemma stored_text s ns k : sok s → is_Some (sview s !! (ns, k)) → valid_text ns ∧ valid_text k.
Proof. intros Hs [v Hv]. by destruct (sv_text _ _ _ _ Hs Hv) as (?&?&_). Qed.

Lemma lists_keys_valid s ns pfx l : sok s → lists_keys (sview s) ns pfx l → Forall valid_text l.
Proof.
  intros Hs [_ Hl]. apply Forall_forall. intros k [Hk _]%Hl. by apply (stored_text s ns k).
Qed.

Lemma lists_namespaces_valid s pfx l :
  sok s → lists_namespaces (sview s) pfx l → Forall valid_text l.
Proof.
  intros Hs [_ Hl]. apply Forall_forall. intros ns [[k Hk] _]%Hl. by apply (stored_text s ns k).
Qed.

(** Deleting the listed keys of a namespace is deleting the namespace. *)
Lemma kv_delete_listed m ns l :
  lists_keys m ns None l → kv_delete_many ((λ k, (ns, k)) <$> l) m = kv_delete_namespace ns m.
Proof.
  intros [_ Hl]. apply map_eq. intros [a b].
  rewrite kv_delete_many_lookup, kv_delete_namespace_lookup. cbn [fst].
  destruct (decide (a = ns)) as [->|Hne].
  - destruct (m !! (ns, b)) as [v|] eqn:E; [|by case_decide].
    rewrite decide_True; [done|]. apply list_elem_of_fmap. exists b. split; [done|].
    apply Hl. split; [by exists v|done].
  - rewrite decide_False; [done|]. by intros (?&[= -> ->]&_)%list_elem_of_fmap.
Qed.

Lemma writes_delete_namespace s ns : sok s → valid_text ns →
  writes_to (delete_namespace ns) s (kv_delete_namespace ns (sview s)).
Proof.
  intros Hs Hns. unfold delete_namespace. destruct op_delete_namespace as [deleter|] eqn:E.
  - eapply wp_bind_mono;
      [apply (on_store_at _ s (kv_delete_namespace ns (sview s)) (λ _, True))|].
    + eapply wp_mono; [by apply (delete_namespace_spec deleter (store s))|]. by intros ?? [??].
    + intros ?? [? _]. by apply wp_ret.
  - destruct (keys_at s ns Hs Hns) as (l&(s'&E'&Hs')&Hl).
    eapply wp_bind, wp_intro; [exact E'|]. rewrite <-(kv_delete_listed _ _ _ Hl).
    eapply wp_mono; [apply (writes_delete_many s')|].
    + by eapply at_view_ok.
    + apply Forall_fmap. eapply Forall_impl; [by apply (lists_keys_valid s ns None l)|]. by intros.
    + intros [] s'' ?. rewrite <-(at_view_view _ _ _ Hs'). by eapply at_view_trans.
Qed.

Lemma writes_weaken {A} (c : PyM (Saver S) A) s m m' : writes_to c s m → m = m' → writes_to c s m'.
Proof. intros H E. by destruct E. Qed.
End lemmas.
