(* ===== verification/SaverSpec.v ===== *)
(** * The LangGraph checkpointer: what a read returns

    A specification of the read side as functions of the content of the store
    ([view_*], in the [result] monad), and the proofs that the operations of
    [SwarmStateSaver] compute them on every store: the answer depends on the
    content alone, not on the backend, on the batch methods it has, or on the
    order in which it lists keys. *)

From S2P Require Import Prelude PyValue Store Saver SaverOps SaverRead SaverLemmas.

(** ** Sorting the keys of pending writes *)

Definition write_index_le (a b : pystr * Z) : Prop :=
  str_lt a.1 b.1 ∨ (a.1 = b.1 ∧ (a.2 ≤ b.2)%Z).
#[global] Instance write_index_le_dec : RelDecision write_index_le.
Proof. intros a b. unfold write_index_le. apply _. Defined.

#[global] Instance write_index_le_trans : Transitive write_index_le.
Proof.
  intros [a x] [b y] [c z]. unfold write_index_le. simpl.
  intros [?|[-> ?]] [?|[-> ?]]; [left|left|left|right]; eauto using str_lt_trans.
  split; [done|lia].
Qed.

#[global] Instance write_index_le_total : Total write_index_le.
Proof.
  intros [a x] [b y]. unfold write_index_le. simpl.
  destruct (decide (str_le a b)) as [Hab|Hab]; [|right; left; by apply str_nle_lt].
  destruct (decide (a = b)) as [->|Hne]; [|left; left; by apply str_lt_le].
  destruct (Z.le_ge_cases x y); [left|right]; right; done.
Qed.

#[global] Instance write_index_le_antisymm : AntiSymm (=) write_index_le.
Proof.
  intros [a x] [b y]. unfold write_index_le. simpl.
  intros [H1|[-> H1]] [H2|[H2' H2]]; subst.
  - destruct (str_lt_irrefl a). by eapply str_lt_trans.
  - by destruct (str_lt_irrefl a).
  - by destruct (str_lt_irrefl b).
  - f_equal. lia.
Qed.

Definition wkey (p : pystr * Z) : pystr := write_key p.1 p.2.

Lemma write_order_le_total : Total write_order_le.
Proof. intros [a x] [b y]. apply (write_index_le_total a b). Qed.
Lemma write_order_le_trans : Transitive write_order_le.
Proof. intros [a x] [b y] [c z]. apply (write_index_le_trans a b c). Qed.

Lemma sort_write_keys_wkeys (l : list (pystr * Z)) :
  sort_write_keys (wkey <$> l) = Ok (wkey <$> merge_sort write_index_le l).
Proof.
  unfold sort_write_keys.
  assert (mapM (λ k, o ← write_order k; Ok (o, k)) (wkey <$> l)
          = Ok ((λ p, (p, wkey p)) <$> l)) as ->.
  { induction l as [|[t z] l IH]; [done|]. cbn [fmap list_fmap mapM].
    change (write_order (wkey (t, z))) with (write_order (write_key t z)).
    rewrite write_order_write_key. cbn. by rewrite IH. }
  cbn. f_equal.
  enough (merge_sort write_order_le ((λ p, (p, wkey p)) <$> l)
          = (λ p, (p, wkey p)) <$> merge_sort write_index_le l) as ->.
  { by rewrite <-list_fmap_compose. }
  apply (StronglySorted_unique_strong write_order_le).
  - intros x y Hx Hy Hxy Hyx.
    rewrite merge_sort_Permutation in Hx. rewrite merge_sort_Permutation in Hy.
    apply list_elem_of_fmap in Hx as (p&->&_), Hy as (q&->&_).
    by rewrite (anti_symm write_index_le p q Hxy Hyx).
  - apply StronglySorted_merge_sort; [apply write_order_le_trans|apply write_order_le_total].
  - apply (StronglySorted_fmap _ write_index_le); [by intros|].
    apply (StronglySorted_merge_sort _).
  - by rewrite !merge_sort_Permutation.
Qed.

(** Keys of that form sort to the same list however they were listed. *)
Definition is_wkey (k : pystr) : Prop := ∃ p, k = wkey p.

Lemma wkeys_inv ks : Forall is_wkey ks → ∃ l, ks = wkey <$> l.
Proof.
  induction 1 as [|k ks [p ->] _ [l ->]]; [by exists []|by exists (p :: l)].
Qed.

#[global] Instance wkey_inj : Inj (=) (=) wkey.
Proof. intros [t z] [t' z'] H. apply write_key_inj in H as [??]. simpl in *. by subst. Qed.

Lemma wkeys_perm l l' : wkey <$> l ≡ₚ wkey <$> l' → l ≡ₚ l'.
Proof.
  intros H. set (unkey := λ k, match write_order k with Ok p => p | _ => ([], 0%Z) end).
  assert (∀ k : list (pystr * Z), unkey <$> (wkey <$> k) = k) as Hinv.
  { intros l0. rewrite <-list_fmap_compose. etrans; [|apply list_fmap_id].
    apply list_fmap_ext. intros _ [t z] _. unfold compose, unkey.
    change (wkey (t, z)) with (write_key t z). by rewrite write_order_write_key. }
  rewrite <-(Hinv l), <-(Hinv l'). by rewrite H.
Qed.

Lemma sort_write_keys_perm ks ks' :
  Forall is_wkey ks → ks ≡ₚ ks' → sort_write_keys ks = sort_write_keys ks'.
Proof.
  intros Hks Hp. assert (Forall is_wkey ks') as Hks' by (by rewrite <-Hp).
  apply wkeys_inv in Hks as [l ->], Hks' as [l' ->].
  rewrite !sort_write_keys_wkeys. do 2 f_equal.
  apply (StronglySorted_unique write_index_le).
  - apply (StronglySorted_merge_sort _).
  - apply (StronglySorted_merge_sort _).
  - rewrite !merge_sort_Permutation. by apply wkeys_perm.
Qed.

Lemma sort_write_keys_ok ks : Forall is_wkey ks →
  ∃ ks', sort_write_keys ks = Ok ks' ∧ ks' ≡ₚ ks.
Proof.
  intros [l ->]%wkeys_inv. rewrite sort_write_keys_wkeys. eexists. split; [done|].
  by rewrite merge_sort_Permutation.
Qed.

Lemma sort_write_keys_short ks : length ks ≤ 1 → Forall is_wkey ks → sort_write_keys ks = Ok ks.
Proof.
  intros Hl [l ->]%wkeys_inv. rewrite sort_write_keys_wkeys.
  rewrite length_fmap in Hl. destruct l as [|p [|q l]]; [done|done|]. simpl in Hl. lia.
Qed.

(** ** The answers as functions of the content *)

Section views.
Context `{lg : !LangGraph}.
Implicit Types (m : kv) (t c i : pystr).

(** The decoded pending writes of a checkpoint, in order. *)
Definition view_pending m t c i (channels : option (gset pystr)) : result (list pending) :=
  ks ← sort_write_keys (ref_keys m (writes_ns t c i));
  decode_writes (kv_get m (writes_ns t c i) <$> ks) channels.

(** The decoded checkpoint, with its channel values. *)
Definition view_checkpoint m (inc : bool) t c (saved : pyval) : result pyval :=
  checkpoint ← loads_field saved (key "cp");
  without_values ← detached inc checkpoint;
  if without_values : bool then
    versions ← channel_versions checkpoint;
    attach_values checkpoint versions
      (kv_get m (blobs_ns t c) <$> ((λ e, blob_key e.1 e.2) <$> versions))
  else Ok checkpoint.

Definition view_metadata (saved metadata : pyval) : result pyval :=
  if is_none metadata then loads_field saved (key "md") else Ok metadata.

Definition view_tuple m (inc : bool) t c i (saved metadata : pyval) : result CheckpointTuple :=
  checkpoint ← view_checkpoint m inc t c saved;
  md ← view_metadata saved metadata;
  writes ← view_pending m t c i None;
  parent ← parent_config t c saved;
  Ok {| ct_config := mk_config t c i; ct_checkpoint := checkpoint; ct_metadata := md;
        ct_parent_config := parent; ct_pending_writes := writes |}.

(** [_channel_values] *)
Definition view_channel_values m t c (saved : pyval) (channels : gset pystr)
    : result (list (pystr * pyval)) :=
  checkpoint ← loads_field saved (key "cp");
  inline ← py_in (key "channel_values") checkpoint;
  if inline : bool then
    stored ← py_getitem checkpoint (key "channel_values");
    foldR (elements channels) (λ out ch,
      present ← py_in (PStr ch) stored;
      if present : bool then v ← py_getitem stored (PStr ch); Ok (od_set out ch v)
      else Ok out) []
  else
    all ← channel_versions checkpoint;
    let versions := omap (λ e, match e.1 with
                               | PStr ch => if decide (ch ∈ channels) then Some (ch, e.2) else None
                               | _ => None
                               end) all in
    foldR (zip versions
             (kv_get m (blobs_ns t c) <$> ((λ e, blob_key (PStr e.1) e.2) <$> versions)))
      (λ out e,
        is_value ← is_value_blob e.2;
        if is_value : bool then v ← loads_blob e.2; Ok (od_set out e.1.1 v)
        else Ok out) [].

(** The keys of a writes namespace are those [put_writes] makes. *)
Definition write_keys_ok m (ns : pystr) : Prop :=
  ∀ k, is_Some (m !! (ns, k)) → is_wkey k.

(** The blob keys a detached checkpoint needs are text. *)
Definition blob_names_ok (saved : pyval) : Prop :=
  ∀ checkpoint versions,
    loads_field saved (key "cp") = Ok checkpoint → channel_versions checkpoint = Ok versions →
    Forall (λ e, valid_text (blob_key e.1 e.2)) versions.

(** Only a checkpoint without its values is completed from blobs. *)
Definition blobs_readable (saved : pyval) : Prop :=
  ∀ checkpoint versions,
    loads_field saved (key "cp") = Ok checkpoint → py_in (key "channel_values") checkpoint = Ok false →
    channel_versions checkpoint = Ok versions → Forall (λ e, valid_text (blob_key e.1 e.2)) versions.

(** The checkpoint an unqualified read finds, and what it republishes. *)
Definition view_latest m (indexed : bool) t c : option pystr :=
  if indexed then truthy_id (py_max (ref_keys m (ckpt_ns t c)))
  else match kv_get m LATEST_NS (latest_key t c) with
       | PStr (x :: p) =>
           if is_none (kv_get m (ckpt_ns t c) (x :: p)) then py_max (ref_keys m (ckpt_ns t c))
           else Some (x :: p)
       | _ => py_max (ref_keys m (ckpt_ns t c))
       end.

(** Does the pointer name a stored checkpoint? *)
Definition pointer_live m t c : bool :=
  match kv_get m LATEST_NS (latest_key t c) with
  | PStr (x :: p) => negb (is_none (kv_get m (ckpt_ns t c) (x :: p)))
  | _ => false
  end.

Definition view_published m (indexed : bool) (config : RunnableConfig) : kv :=
  let '(t, c) := (cfg_thread_id config, cfg_ns config) in
  match truthy_id (get_checkpoint_id config) with
  | Some _ => m
  | None =>
      if indexed || pointer_live m t c then m
      else match py_max (ref_keys m (ckpt_ns t c)) with
           | None => m
           | Some i => <[(LATEST_NS, latest_key t c) := PStr i]> m
           end
  end.

Definition view_resolve m (indexed : bool) (config : RunnableConfig)
    : option (pystr * pystr * pystr * pyval) :=
  let '(t, c) := (cfg_thread_id config, cfg_ns config) in
  i ← (match truthy_id (get_checkpoint_id config) with
       | Some i => Some i
       | None => view_latest m indexed t c
       end);
  let saved := kv_get m (ckpt_ns t c) i in
  if is_none saved then None else Some (t, c, i, saved).

(** A pointer is a string. *)
Definition pointers_ok m : Prop :=
  ∀ k v, m !! (LATEST_NS, k) = Some v → ∃ i, v = PStr i.

(** What the saver relies on in the content of its store, and keeps true: ids
    and pointers are strings, write keys have an index, the names of channel
    blobs are text. *)
Record content_ok (inc : bool) m : Prop := {
  content_pointers : pointers_ok m;
  content_ids t c i : is_Some (m !! (ckpt_ns t c, i)) → text_ok i = true;
  content_writes t c i : write_keys_ok m (writes_ns t c i);
  content_blobs t c i : inc = true → blob_names_ok (kv_get m (ckpt_ns t c) i);
}.

Lemma content_ok_empty inc : content_ok inc ∅.
Proof.
  split.
  - intros k v Hv. by rewrite lookup_empty in Hv.
  - intros t c i Hi. rewrite lookup_empty in Hi. by destruct Hi.
  - intros t c i k Hk. rewrite lookup_empty in Hk. by destruct Hk.
  - intros t c i _ cp vs Hcp. unfold kv_get in Hcp. by rewrite lookup_empty in Hcp.
Qed.

Lemma content_pointer_set inc m k i :
  content_ok inc m → content_ok inc (<[(LATEST_NS, k) := PStr i]> m).
Proof.
  intros Hm.
  assert (∀ ns k', ns ≠ LATEST_NS → <[(LATEST_NS, k) := PStr i]> m !! (ns, k') = m !! (ns, k')) as Hns.
  { intros ns k' Hne. apply lookup_insert_ne. by intros [= ? _]. }
  split.
  - intros k' v [[_ <-]|[_ Hv]]%lookup_insert_Some; [by eexists|by eapply content_pointers].
  - intros t c j. rewrite Hns by auto with text. by eapply content_ids.
  - intros t c j k'. rewrite Hns by auto with text. by eapply content_writes.
  - intros t c j Hinc. unfold kv_get. rewrite Hns by auto with text. by apply (content_blobs _ _ Hm).
Qed.

(** Removing rows keeps it. *)
Lemma content_subset m m' : m' ⊆ m → content_ok false m → content_ok false m'.
Proof.
  intros Hsub Hm. assert (∀ p, is_Some (m' !! p) → is_Some (m !! p)) as Hin.
  { intros p [v Hv]. exists v. by eapply lookup_weaken. }
  split; [|intros t c i Hi|intros t c i k Hk|done].
  - intros k v Hv. eapply content_pointers; [done|]. by eapply lookup_weaken.
  - by eapply content_ids, Hin.
  - by eapply content_writes, Hin.
Qed.
End views.

(** ** The operations compute them *)

Section reads.
Context {S : Type} `{ops : !StoreOps S} `{spec : !StoreSpec S} `{lg : !LangGraph}.
Implicit Types (s : Saver S) (t c i : pystr).

(** [steady m s0 x r]: from any state that differs from [s0] only in its store,
    which holds [m], the computation [x] ends with [r] and in such a state. *)
Definition steady {A : Type} (m : kv) (s0 : Saver S) (x : PyM (Saver S) A) (r : result A) : Prop :=
  ∀ s, at_view m s0 s → ∃ s', x s = (r, s') ∧ at_view m s0 s'.

Lemma steady_of_reads {A : Type} m s0 (x : PyM (Saver S) A) r :
  (∀ s, sok s → sview s = m → reads x s r) → steady m s0 x r.
Proof.
  intros Hx s Hs. destruct (Hx s) as (s'&E&Hs'); [by eapply at_view_ok|by eapply at_view_view|].
  exists s'. split; [done|]. rewrite (at_view_view _ _ _ Hs) in Hs'. by eapply at_view_trans.
Qed.

Lemma reads_of_steady {A} s (x : PyM (Saver S) A) r :
  sok s → steady (sview s) s x r → reads x s r.
Proof. intros Hs Hx. apply Hx. by apply at_view_refl. Qed.

Lemma steady_wp {A : Type} m s0 (x : PyM (Saver S) A) a s (Q : A → Saver S → Prop) :
  steady m s0 x (Ok a) → at_view m s0 s → (∀ s', at_view m s0 s' → Q a s') → wp x s Q.
Proof. intros Hx Hs HQ. destruct (Hx s Hs) as (s'&E&Hs'). eapply wp_intro; eauto. Qed.

Lemma steady_bind {A B : Type} m s0 (x : PyM (Saver S) A) (f : A → PyM (Saver S) B) r
    (g : A → result B) :
  steady m s0 x r → (∀ a, r = Ok a → steady m s0 (f a) (g a)) →
  steady m s0 (x ≫= f) (r ≫= g).
Proof.
  intros Hx Hf s Hs. destruct (Hx s Hs) as (s1&E&Hs1).
  unfold mbind, pym_bind, result_bind. rewrite E.
  destruct r as [a|e|]; [|by exists s1..]. by apply Hf.
Qed.

Lemma steady_bind_ok {A B : Type} m s0 (x : PyM (Saver S) A) (f : A → PyM (Saver S) B) a r :
  steady m s0 x (Ok a) → steady m s0 (f a) r → steady m s0 (x ≫= f) r.
Proof.
  intros Hx Hf. change r with (Ok a ≫= λ _, r). apply steady_bind; [done|].
  by intros ? [= <-].
Qed.

Lemma steady_assoc {A B C : Type} m s0 (x : PyM (Saver S) A) (f : A → PyM (Saver S) B)
    (g : B → PyM (Saver S) C) r :
  steady m s0 (x ≫= λ a, f a ≫= g) r → steady m s0 ((x ≫= f) ≫= g) r.
Proof.
  intros H s Hs. destruct (H s Hs) as (s'&E&Hs'). exists s'. split; [|done].
  unfold mbind, pym_bind in *. by destruct (x s) as [[] ?].
Qed.

Lemma steady_lift {A : Type} m s0 (r : result A) : steady m s0 (lift r) r.
Proof. intros s Hs. by exists s. Qed.
Lemma steady_ret {A : Type} m s0 (a : A) : steady m s0 (mret a) (Ok a).
Proof. intros s Hs. by exists s. Qed.
Lemma steady_out_of_fuel {A : Type} m s0 : steady (A:=A) m s0 out_of_fuel OutOfFuel.
Proof. intros s Hs. by exists s. Qed.
Lemma steady_incremental m s0 : steady m s0 (gets incremental) (Ok (incremental s0)).
Proof. intros s Hs. exists s. by rewrite <-(at_view_incremental _ _ _ Hs). Qed.
Lemma steady_indexes m s0 :
  steady m s0 (gets store_indexes_max_key) (Ok (store_indexes_max_key s0)).
Proof. intros s Hs. exists s. by rewrite <-(at_view_indexes _ _ _ Hs). Qed.
Lemma steady_if {A : Type} m s0 (b : bool) (x y : PyM (Saver S) A) r r' :
  (b = true → steady m s0 x r) → (b = false → steady m s0 y r') →
  steady m s0 (if b then x else y) (if b then r else r').
Proof. destruct b; auto. Qed.

Lemma steady_foldR {A B : Type} m s0 (l : list A) (body : B → A → PyM (Saver S) B) g b :
  (∀ b x, x ∈ l → steady m s0 (body b x) (g b x)) →
  steady m s0 (for_fold l body b) (foldR l g b).
Proof.
  revert b. induction l as [|x l IH]; intros b Hb; cbn [for_fold foldR]; [apply steady_ret|].
  apply steady_bind; [apply Hb; left|]. intros b' _. apply IH. intros. apply Hb. by right.
Qed.

Lemma steady_mapM {A B : Type} m s0 (l : list A) (f : A → PyM (Saver S) B) g :
  (∀ x, x ∈ l → steady m s0 (f x) (g x)) → steady m s0 (mapM f l) (mapM g l).
Proof.
  induction l as [|x l IH]; intros Hb; cbn [mapM]; [apply steady_ret|].
  apply steady_bind; [apply Hb; left|]. intros b' _.
  apply steady_bind; [apply IH; intros; apply Hb; by right|]. intros ??. apply steady_ret.
Qed.

(** *** Store calls *)

Lemma steady_get m s0 ns k : valid_text ns → valid_text k →
  steady m s0 (on_store (op_get ns k)) (Ok (kv_get m ns k)).
Proof. intros. apply steady_of_reads. intros s Hs <-. by apply reads_get. Qed.

Lemma steady_contains m s0 ns k : valid_text ns → valid_text k →
  steady m s0 (on_store (op_contains ns k)) (Ok (bool_decide (is_Some (m !! (ns, k))))).
Proof. intros. apply steady_of_reads. intros s Hs <-. by apply reads_contains. Qed.

Lemma steady_get_many m s0 ns ks : valid_text ns → Forall valid_text ks →
  steady m s0 (get_many ns ks) (Ok (kv_get m ns <$> ks)).
Proof. intros. apply steady_of_reads. intros s Hs <-. by apply reads_get_many. Qed.

Lemma steady_max_key m s0 ns : valid_text ns →
  steady m s0 (on_store (op_max_key ns)) (Ok (py_max (ref_keys m ns))).
Proof.
  intros. apply steady_of_reads. intros s Hs <-. apply reads_max_key; [done..|].
  apply ref_keys_lists.
Qed.

(** A listing: some permutation of the keys, so what follows must not depend on it. *)
Lemma steady_bind_keys {B} m s0 ns (f : list pystr → PyM (Saver S) B) r :
  valid_text ns →
  (∀ l, lists_keys m ns None l → steady m s0 (f l) r) →
  steady m s0 (on_store (op_keys ns None) ≫= f) r.
Proof.
  intros Hns Hf s Hs. destruct (keys_at s ns) as (l&(s1&E&H1)&Hl); [by eapply at_view_ok|done|].
  rewrite (at_view_view _ _ _ Hs) in H1, Hl.
  destruct (Hf l Hl s1) as (s2&E2&H2); [by eapply at_view_trans|].
  exists s2. split; [|done]. unfold mbind, pym_bind. by rewrite E.
Qed.

Lemma steady_bind_namespaces {B} m s0 p (f : list pystr → PyM (Saver S) B) r :
  valid_text p →
  (∀ l, lists_namespaces m (Some p) l → steady m s0 (f l) r) →
  steady m s0 (namespaces p ≫= f) r.
Proof.
  intros Hns Hf s Hs. destruct (namespaces_at s p) as (l&(s1&E&H1)&Hl);
    [by eapply at_view_ok|done|].
  rewrite (at_view_view _ _ _ Hs) in H1, Hl.
  destruct (Hf l Hl s1) as (s2&E2&H2); [by eapply at_view_trans|].
  exists s2. split; [|done]. unfold mbind, pym_bind. by rewrite E.
Qed.

(** *** Reading a checkpoint *)

(** The store only holds text. *)
Definition text_keys (m : kv) : Prop := ∀ ns k, is_Some (m !! (ns, k)) → valid_text ns ∧ valid_text k.

Lemma sview_text s : sok s → text_keys (sview s).
Proof. intros Hs ns k Hk. by eapply stored_text. Qed.

Lemma listed_valid m ns pfx l : text_keys m → lists_keys m ns pfx l → Forall valid_text l.
Proof. intros Hm [_ Hl]. apply Forall_forall. intros k [Hk _]%Hl. by apply (Hm ns k). Qed.

Lemma listed_wkeys m ns l : write_keys_ok m ns → lists_keys m ns None l → Forall is_wkey l.
Proof. intros Hw [_ Hl]. apply Forall_forall. intros k [Hk _]%Hl. by apply Hw. Qed.

Lemma sorted_write_keys m ns l :
  write_keys_ok m ns → lists_keys m ns None l →
  sort_write_keys l = sort_write_keys (ref_keys m ns).
Proof.
  intros Hw Hl. apply sort_write_keys_perm; [by eapply listed_wkeys|].
  eapply lists_keys_perm; [done|apply ref_keys_lists].
Qed.

Lemma sort_write_keys_valid ks ks' :
  Forall is_wkey ks → Forall valid_text ks → sort_write_keys ks = Ok ks' → Forall valid_text ks'.
Proof.
  intros Hw Hks E. destruct (sort_write_keys_ok ks Hw) as (ks''&E'&Hp).
  rewrite E in E'. injection E' as ->. by rewrite Hp.
Qed.

(** Fetching and decoding the writes, once listed. *)
Lemma steady_fetch_writes m s0 ns chs : text_keys m → valid_text ns → write_keys_ok m ns →
  steady m s0
    (sorted ← lift (sort_write_keys (ref_keys m ns));
     raw ← get_many ns sorted;
     lift (decode_writes raw chs))
    (ks ← sort_write_keys (ref_keys m ns); decode_writes (kv_get m ns <$> ks) chs).
Proof.
  intros Hm Hns Hw. pose proof (ref_keys_lists m ns) as Hl.
  apply steady_bind; [apply steady_lift|]. intros ks Hks.
  eapply steady_bind_ok; [|apply steady_lift]. apply steady_get_many; [done|].
  eapply sort_write_keys_valid; [by eapply listed_wkeys|by eapply listed_valid|done].
Qed.

Lemma steady_pending_writes m s0 t c i chs :
  text_keys m → valid_text t → valid_text c → valid_text i →
  write_keys_ok m (writes_ns t c i) →
  steady m s0 (pending_writes t c i chs) (view_pending m t c i chs).
Proof.
  intros Hm Ht Hc Hi Hw. unfold pending_writes, view_pending.
  apply steady_bind_keys; [auto with text|]. intros l Hl.
  rewrite (sorted_write_keys _ _ _ Hw Hl). apply steady_fetch_writes; auto with text.
Qed.

Lemma steady_blobs m s0 t c saved checkpoint (versions : pydict) :
  valid_text t → valid_text c → blob_names_ok saved →
  loads_field saved (key "cp") = Ok checkpoint → channel_versions checkpoint = Ok versions →
  steady m s0 (get_many (blobs_ns t c) ((λ e, blob_key e.1 e.2) <$> versions))
    (Ok (kv_get m (blobs_ns t c) <$> ((λ e, blob_key e.1 e.2) <$> versions))).
Proof.
  intros Ht Hc Hb ??. apply steady_get_many; [auto with text|].
  apply Forall_fmap. eapply Forall_impl; [by eapply Hb|]. done.
Qed.

Lemma steady_sorted m s0 ns l : write_keys_ok m ns → lists_keys m ns None l →
  steady m s0 (if (1 <? length l)%nat then lift (sort_write_keys l) else mret l)
    (sort_write_keys (ref_keys m ns)).
Proof.
  intros Hw Hl. rewrite <-(sorted_write_keys _ _ _ Hw Hl). destruct (Nat.ltb_spec 1 (length l)).
  - apply steady_lift.
  - rewrite sort_write_keys_short; [apply steady_ret|lia|by eapply listed_wkeys].
Qed.

Theorem steady_build_tuple m s0 t c i saved md :
  text_keys m → valid_text t → valid_text c → valid_text i →
  write_keys_ok m (writes_ns t c i) → (incremental s0 = true → blob_names_ok saved) →
  steady m s0 (build_tuple t c i saved md) (view_tuple m (incremental s0) t c i saved md).
Proof.
  intros Hm Ht Hc Hi Hw Hb. unfold build_tuple, view_tuple, view_checkpoint, view_pending.
  rewrite !result_bind_assoc.
  apply steady_bind; [apply steady_lift|]. intros cp Hcp.
  eapply steady_bind_ok; [apply steady_incremental|]. rewrite !result_bind_assoc.
  apply steady_bind; [apply steady_lift|]. intros wv Hwv.
  apply steady_bind.
  { apply steady_if; intros ->; [|apply steady_ret].
    apply steady_bind; [apply steady_lift|]. intros vs Hvs.
    eapply steady_bind_ok; [|apply steady_lift].
    destruct (incremental s0); [|done]. eapply steady_blobs; eauto. }
  intros cp' _. apply steady_bind; [unfold view_metadata; case_match; [apply steady_lift|apply steady_ret]|].
  intros md' _. apply steady_bind_keys; [auto with text|]. intros l Hl.
  rewrite !result_bind_assoc. apply steady_bind; [by apply steady_sorted|]. intros ks Hks.
  eapply steady_bind_ok.
  { apply steady_get_many; [auto with text|]. pose proof (ref_keys_lists m (writes_ns t c i)).
    eapply sort_write_keys_valid; [by eapply listed_wkeys|by eapply listed_valid|done]. }
  apply steady_bind; [apply steady_lift|]. intros ws _.
  apply steady_bind; [apply steady_lift|]. intros pc _. apply steady_ret.
Qed.

Lemma steady_channel_values m s0 t c saved channels :
  valid_text t → valid_text c → blobs_readable saved →
  steady m s0 (channel_values t c saved channels) (view_channel_values m t c saved channels).
Proof.
  intros Ht Hc Hb. unfold channel_values, view_channel_values.
  apply steady_bind; [apply steady_lift|]. intros cp Hcp.
  apply steady_bind; [apply steady_lift|]. intros inline Hinline.
  apply steady_if; intros ->.
  - apply steady_bind; [apply steady_lift|]. intros ? _. apply steady_lift.
  - apply steady_bind; [apply steady_lift|]. intros vs Hvs.
    eapply steady_bind_ok; [|apply steady_lift]. apply steady_get_many; [auto with text|].
    specialize (Hb cp vs Hcp Hinline Hvs). apply Forall_forall. intros k Hk.
    apply list_elem_of_fmap in Hk as ([ch ver]&->&Hin).
    apply list_elem_of_omap in Hin as ([k v]&Hin&Hsome). simpl in Hsome.
    destruct k; simplify_eq. case_decide; simplify_eq.
    eapply Forall_forall in Hb; [|exact Hin]. done.
Qed.

(** *** Finding a checkpoint *)

Definition valid_config (config : RunnableConfig) : Prop :=
  valid_text (cfg_thread_id config) ∧ valid_text (cfg_ns config) ∧
  ∀ i, get_checkpoint_id config = Some i → valid_text i.

Lemma truthy_id_Some o i : truthy_id o = Some i → o = Some i ∧ i ≠ [].
Proof. destruct o as [[|x o]|]; simpl; try done. by intros [= <-]. Qed.

Lemma py_max_ref_keys m ns i :
  py_max (ref_keys m ns) = Some i →
  is_Some (m !! (ns, i)) ∧ ∀ k, is_Some (m !! (ns, k)) → str_le k i.
Proof.
  intros [Hin Hmax]%py_max_Some. destruct (ref_keys_lists m ns) as [_ Hl].
  split; [by apply Hl in Hin as [? _]|]. intros k Hk. apply Hmax. by apply Hl.
Qed.

Lemma py_max_listed m ns l : lists_keys m ns None l → py_max l = py_max (ref_keys m ns).
Proof. intros Hl. apply py_max_perm. eapply lists_keys_perm; [done|apply ref_keys_lists]. Qed.

(** The pointer is republished only where nothing but pointers live. *)
Lemma view_published_ckpt m ix config t c i :
  kv_get (view_published m ix config) (ckpt_ns t c) i = kv_get m (ckpt_ns t c) i.
Proof.
  unfold view_published. repeat case_match; try done. unfold kv_get.
  rewrite lookup_insert_ne; [done|]. intros Heq%(f_equal fst). by apply (ckpt_ne_latest t c).
Qed.

Lemma stored_value_text s ns k p : sok s → kv_get (sview s) ns k = PStr p → valid_text p.
Proof.
  unfold kv_get, sok, sview. intros Hs.
  destruct (sv_view (store s) !! (ns, k)) as [v|] eqn:E; [|done].
  cbn. intros ->. destruct (sv_text _ _ _ _ Hs E) as (_&_&Hv&_).
  by apply text_ok_valid.
Qed.

(** The scan, once the pointer is found unusable. *)
Lemma resolve_scan m s0 s t c :
  at_view m s0 s → text_keys m → valid_text t → valid_text c →
  (∀ i, is_Some (m !! (ckpt_ns t c, i)) → text_ok i = true) →
  wp (ks ← on_store (op_keys (ckpt_ns t c) None);
      match py_max ks with
      | Some i =>
          on_store (op_set LATEST_NS (latest_key t c) (PStr i));;
          saved ← on_store (op_get (ckpt_ns t c) i);
          mret (if is_none saved then None else Some (t, c, i, saved))
      | None => mret None
      end) s (λ r s',
    r = (i ← py_max (ref_keys m (ckpt_ns t c));
         if is_none (kv_get m (ckpt_ns t c) i) then None
         else Some (t, c, i, kv_get m (ckpt_ns t c) i)) ∧
    at_view (match py_max (ref_keys m (ckpt_ns t c)) with
             | Some i => <[(LATEST_NS, latest_key t c):=PStr i]> m
             | None => m
             end) s0 s').
Proof.
  intros Hs Htext Ht Hc Hids.
  destruct (keys_at s (ckpt_ns t c)) as (l&(s1&E&H1)&Hl);
    [by eapply at_view_ok|auto with text|].
  rewrite (at_view_view _ _ _ Hs) in H1, Hl. eapply wp_bind, wp_intro; [exact E|].
  rewrite (py_max_listed _ _ _ Hl). pose proof (at_view_trans _ _ _ _ _ Hs H1) as H01.
  destruct (py_max (ref_keys m (ckpt_ns t c))) as [i|] eqn:Emax; [|by apply wp_ret].
  cbn [mbind option_bind]. apply py_max_ref_keys in Emax as [Hin _].
  destruct (Htext _ _ Hin) as [Hns Hti].
  eapply wp_bind_mono.
  { apply writes_set; [by eapply at_view_ok|auto with text..|].
    split; [by apply (Hids i)|cbn; lia]. }
  intros [] s2 H2. cbn beta in H2. rewrite (at_view_view _ _ _ H01) in H2.
  pose proof (at_view_trans _ _ _ _ _ H01 H2) as H02.
  eapply wp_bind, steady_wp; [by apply steady_get|exact H02|]. intros s3 H3.
  apply wp_ret. unfold kv_get. rewrite lookup_insert_ne; [done|].
  intros Heq%(f_equal fst). by apply (ckpt_ne_latest t c).
Qed.

Theorem resolve_at s config inc :
  sok s → valid_config config → content_ok inc (sview s) →
  wp (resolve config) s (λ r s',
    r = view_resolve (sview s) (store_indexes_max_key s) config ∧
    at_view (view_published (sview s) (store_indexes_max_key s) config) s s').
Proof.
  intros Hs (Ht&Hc&Hi) Hm. unfold resolve, view_resolve, view_published.
  set (t := cfg_thread_id config) in *. set (c := cfg_ns config) in *.
  set (m := sview s) in *. pose proof (at_view_refl s Hs) as H0. fold m in H0.
  pose proof (sview_text s Hs) as Htext. fold m in Htext.
  apply wp_bind, wp_gets.
  destruct (truthy_id (get_checkpoint_id config)) as [i|] eqn:Eid; cbn [mbind option_bind].
  { apply truthy_id_Some in Eid as [Eid _].
    eapply wp_bind, (steady_wp m s); [by apply steady_get; [auto with text|eauto]|done|].
    intros s1 H1. by apply wp_ret. }
  unfold view_latest. destruct (store_indexes_max_key s) eqn:Eix; cbn [orb].
  { eapply wp_bind, (steady_wp m s); [by apply steady_max_key; auto with text|done|].
    intros s1 H1. destruct (truthy_id (py_max _)) as [i|] eqn:Emax; [|by apply wp_ret].
    apply truthy_id_Some in Emax as [Emax _]. apply py_max_ref_keys in Emax as [Hin _].
    eapply wp_bind, (steady_wp m s); [by apply steady_get; [auto with text|by apply (Htext _ _ Hin)]|done|].
    intros s2 H2. by apply wp_ret. }
  eapply wp_bind, (steady_wp m s); [by apply steady_get; auto with text|done|]. intros s1 H1.
  assert (∃ p, kv_get m LATEST_NS (latest_key t c) = PNone ∧ p = [] ∨
               kv_get m LATEST_NS (latest_key t c) = PStr p) as [p Hp].
  { unfold kv_get. destruct (m !! _) as [v|] eqn:E; [|exists []; by left].
    destruct (content_pointers _ _ Hm _ _ E) as [p ->]. exists p. by right. }
  assert (∀ s2, at_view m s s2 → _) as Hscan
    by exact (λ s2 H, resolve_scan m s s2 t c H Htext Ht Hc (content_ids _ _ Hm t c)).
  unfold pointer_live. destruct Hp as [[-> ->]|Hp].
  { apply wp_bind, wp_ret. by apply Hscan. }
  rewrite Hp. destruct p as [|x p]; [apply wp_bind, wp_ret; by apply Hscan|].
  cbn -[wp is_none]. apply wp_bind, wp_bind.
  eapply wp_bind, (steady_wp m s); [apply steady_get; [auto with text|]|done|].
  { by eapply (stored_value_text s). }
  intros s2 H2. apply wp_ret. cbn -[wp is_none].
  destruct (is_none (kv_get m (ckpt_ns t c) (x :: p))) eqn:Enone; [by apply Hscan|].
  apply wp_bind, wp_ret, wp_ret. split; [|done]. cbn -[is_none]. by rewrite Enone.
Qed.

(** *** Reading a tuple *)

Lemma content_record_blobs inc m t c i saved :
  content_ok inc m → saved = kv_get m (ckpt_ns t c) i → inc = true → blob_names_ok saved.
Proof. intros Hm -> ?. by apply (content_blobs _ _ Hm). Qed.

Lemma view_resolve_Some s config inc t c i saved :
  sok s → valid_config config → content_ok inc (sview s) →
  view_resolve (sview s) (store_indexes_max_key s) config = Some (t, c, i, saved) →
  t = cfg_thread_id config ∧ c = cfg_ns config ∧ valid_text i ∧
  saved = kv_get (sview s) (ckpt_ns t c) i.
Proof.
  intros Hs (Ht&Hc&Hi) Hm. unfold view_resolve.
  set (m := sview s) in *. pose proof (sview_text s Hs) as Htext. fold m in Htext.
  assert (∀ j, py_max (ref_keys m (ckpt_ns (cfg_thread_id config) (cfg_ns config))) = Some j →
    valid_text j) as Hmax.
  { intros j Hj. apply py_max_ref_keys in Hj as [Hin _]. by apply (Htext _ _ Hin). }
  destruct (truthy_id (get_checkpoint_id config)) as [j|] eqn:Eid; cbn [mbind option_bind].
  - apply truthy_id_Some in Eid as [Eid _]. case_match; [done|]. intros [= <- <- <- <-]. auto.
  - destruct (view_latest _ _ _ _) as [j|] eqn:E; [|done]. cbn [mbind option_bind].
    case_match; [done|]. intros [= <- <- <- <-]. split_and!; [done..| |done].
    unfold view_latest in E. repeat case_match; simplify_eq; try by apply Hmax.
    + apply Hmax. by apply truthy_id_Some in E as [? _].
    + by eapply (stored_value_text s).
Qed.

(** A tuple depends on the writes of its checkpoint and the blobs it names. *)
Lemma view_tuple_frame m m' inc t c i saved md :
  write_keys_ok m (writes_ns t c i) →
  (∀ k, m !! (writes_ns t c i, k) = m' !! (writes_ns t c i, k)) →
  (inc = true → ∀ checkpoint versions e,
     loads_field saved (key "cp") = Ok checkpoint → channel_versions checkpoint = Ok versions →
     e ∈ versions →
     kv_get m (blobs_ns t c) (blob_key e.1 e.2) = kv_get m' (blobs_ns t c) (blob_key e.1 e.2)) →
  view_tuple m inc t c i saved md = view_tuple m' inc t c i saved md.
Proof.
  intros Hw Hwr Hbl. unfold view_tuple.
  assert (view_checkpoint m inc t c saved = view_checkpoint m' inc t c saved) as ->.
  { unfold view_checkpoint. destruct (loads_field saved (key "cp")) as [cp| |] eqn:Ecp; [|done..].
    cbn. destruct inc; [|done]. destruct (detached true cp) as [[]| |] eqn:Ed; [|done..]. cbn.
    destruct (channel_versions cp) as [vs| |] eqn:Evs; [|done..]. cbn. f_equal.
    rewrite <-!list_fmap_compose. apply list_fmap_ext. intros j e He.
    apply list_elem_of_lookup_2 in He. by eapply Hbl. }
  assert (view_pending m t c i None = view_pending m' t c i None) as ->; [|done].
  unfold view_pending. rewrite (sort_write_keys_perm (ref_keys m _) (ref_keys m' (writes_ns t c i))).
  - destruct (sort_write_keys _) as [ks| |]; [|done..]. cbn. f_equal. apply list_fmap_ext.
    intros j k _. unfold kv_get. by rewrite Hwr.
  - eapply listed_wkeys; [done|apply ref_keys_lists].
  - apply NoDup_Permutation; [apply ref_keys_lists..|]. intros k.
    destruct (ref_keys_lists m (writes_ns t c i)) as [_ ->],
      (ref_keys_lists m' (writes_ns t c i)) as [_ ->]. by rewrite Hwr.
Qed.

Definition view_get_tuple (m : kv) (inc indexed : bool) (config : RunnableConfig)
    : result (option CheckpointTuple) :=
  match view_resolve m indexed config with
  | None => Ok None
  | Some (t, c, i, saved) => tup ← view_tuple m inc t c i saved PNone; Ok (Some tup)
  end.

(** Reading with one way or another of building a tuple. *)
Lemma get_tuple_by (build : pystr → pystr → pystr → pyval → pyval → PyM (Saver S) CheckpointTuple) s config :
  sok s → valid_config config → content_ok (incremental s) (sview s) →
  (∀ m' t c i saved,
     view_resolve (sview s) (store_indexes_max_key s) config = Some (t, c, i, saved) →
     text_keys m' → valid_text t → valid_text c → valid_text i →
     write_keys_ok m' (writes_ns t c i) → (incremental s = true → blob_names_ok saved) →
     steady m' s (build t c i saved PNone) (view_tuple m' (incremental s) t c i saved PNone)) →
  ∃ s', (r ← resolve config;
         match r with
         | None => mret None
         | Some (t, c, i, saved) => tup ← build t c i saved PNone; mret (Some tup)
         end) s =
          (view_get_tuple (sview s) (incremental s) (store_indexes_max_key s) config, s') ∧
        at_view (view_published (sview s) (store_indexes_max_key s) config) s s'.
Proof.
  intros Hs Hc Hm Hbuild. destruct (wp_elim _ _ _ (resolve_at s config _ Hs Hc Hm)) as (r&s1&E&->&H1).
  unfold view_get_tuple, mbind at 1, pym_bind at 1. rewrite E.
  set (m := sview s) in *. set (m' := view_published m (store_indexes_max_key s) config) in *.
  destruct (view_resolve m (store_indexes_max_key s) config) as [[[[t c] i] saved]|] eqn:Er;
    [|by exists s1].
  destruct (view_resolve_Some s config _ _ _ _ _ Hs Hc Hm Er) as (->&->&Hi&Hsaved).
  destruct Hc as (Ht&Hc&_).
  assert (∀ ns k, ns ≠ LATEST_NS → m' !! (ns, k) = m !! (ns, k)) as Hframe.
  { intros ns k Hns. unfold m', view_published. repeat case_match; try done.
    rewrite lookup_insert_ne; [done|]. by intros [=]. }
  rewrite (view_tuple_frame m m'); [|apply (content_writes _ _ Hm)|intros; symmetry|]; cycle 1.
  { apply Hframe, writes_ne_latest. }
  { intros ???????. unfold kv_get. by rewrite Hframe by apply blobs_ne_latest. }
  assert (text_keys m') as Htext.
  { rewrite <-(at_view_view _ _ _ H1). apply sview_text. by eapply at_view_ok. }
  eapply (steady_bind m' s); [|intros; apply steady_ret|exact H1].
  apply Hbuild; try done.
  - intros k Hk. rewrite Hframe in Hk by apply writes_ne_latest. by eapply content_writes.
  - intros Hinc. by eapply content_record_blobs.
Qed.

Theorem get_tuple_impl_at s config :
  sok s → valid_config config → content_ok (incremental s) (sview s) →
  ∃ s', get_tuple_impl config s =
          (view_get_tuple (sview s) (incremental s) (store_indexes_max_key s) config, s') ∧
        at_view (view_published (sview s) (store_indexes_max_key s) config) s s'.
Proof. intros. apply get_tuple_by; [done..|]. intros. by apply steady_build_tuple. Qed.
End reads.
