(* ===== verification/SaverPut.v ===== *)
(** * The LangGraph checkpointer: writing

    What [put] and [put_writes] leave in the store, and that a read finds it. *)

From S2P Require Import Prelude PyValue Store Saver SaverOps SaverRead SaverLemmas SaverSpec.

(** ** The records are storable *)

Definition typed_ok (tv : pyval * pyval) : Prop :=
  ∃ tag raw, tv = (PStr tag, PBytes raw) ∧ text_ok tag = true ∧ len32 raw = true.

Definition opt_text_ok (o : option pystr) : Prop :=
  match o with Some s => text_ok s = true | None => True end.

Lemma storable_ck_record cp md parent :
  typed_ok cp → typed_ok md → opt_text_ok parent → storable (ck_record cp md parent).
Proof.
  intros (t1&r1&->&Ht1&Hr1) (t2&r2&->&Ht2&Hr2) Hp. split.
  - unfold ck_record. cbn -[text_ok len32 keys_distinct key_ok]. rewrite Ht1, Hr1, Ht2, Hr2.
    destruct parent as [p|]; cbn -[text_ok]; [rewrite Hp|]; by vm_compute.
  - unfold ck_record. destruct parent; vm_compute; lia.
Qed.

Lemma storable_write_record task channel path tv :
  text_ok task = true → text_ok channel = true → text_ok path = true → typed_ok tv →
  storable (write_record task channel path tv).
Proof.
  intros H1 H2 H3 (t&r&->&Ht&Hr). split.
  - unfold write_record. cbn -[text_ok len32]. by rewrite H1, H2, H3, Ht, Hr.
  - unfold write_record. vm_compute. lia.
Qed.

Lemma storable_blob tv : typed_ok tv → storable (PList [key "v"; tv.1; tv.2]).
Proof.
  intros (t&r&->&Ht&Hr). split; [|vm_compute; lia]. cbn -[text_ok len32 key]. by rewrite Ht, Hr.
Qed.

Lemma storable_empty : storable (PList [key "empty"]).
Proof. split; [by vm_compute|vm_compute; lia]. Qed.

Lemma storable_str p : text_ok p = true → storable (PStr p).
Proof. intros. split; [done|cbn; lia]. Qed.

Lemma dumps_typed_ok `{!LangGraph, !LangGraphSpec} v tv : dumps_typed v = Ok tv → typed_ok tv.
Proof.
  destruct tv as [t b]. intros Hd. destruct (dumps_storable _ _ _ Hd) as (tag&raw&->&->&?&?).
  by exists tag, raw.
Qed.

(** ** [put] *)

Section put.
Context {S : Type} `{ops : !StoreOps S} `{spec : !StoreSpec S}.
Context `{lg : !LangGraph} `{lgspec : !LangGraphSpec}.
Implicit Types (s : Saver S) (t c i : pystr) (m : kv).

(** Does [put] publish the checkpoint as the latest one? *)
Definition publishes s t c i : bool :=
  negb (store_indexes_max_key s) &&
  match max_seen s !! (t, c) with None => true | Some x => str_ltb x i end.

Definition hints_after s t c i : gmap (pystr * pystr) pystr :=
  if publishes s t c i then bounded_set (max_seen s) (t, c) i else max_seen s.

(** The row(s) of a put: the checkpoint, and the latest pointer. *)
Definition put_items (pub : bool) t c i (record : pyval) : list (pystr * pystr * pyval) :=
  (ckpt_ns t c, i, record) ::
  if pub then [(LATEST_NS, latest_key t c, PStr i)] else [].

(** The blobs the store does not have yet. *)
Definition fresh_blobs m t c (blobs : list (pystr * pyval)) : list (pystr * pystr * pyval) :=
  (λ b, (blobs_ns t c, b.1, b.2)) <$>
    filter (λ b, ¬ is_Some (m !! (blobs_ns t c, b.1))) blobs.

(** The content of the store after a put, retention apart. *)
Definition put_view m (pub : bool) t c i (record : pyval) (blobs : list (pystr * pyval)) : kv :=
  kv_set_many (put_items pub t c i record) (kv_set_many (fresh_blobs m t c blobs) m).

Lemma at_view_hints m s s' h :
  at_view m s s' → at_view m (set_max_seen h s) (set_max_seen h s').
Proof. intros (st&b&->&?&?). by exists st, b. Qed.

Lemma set_max_seen_id s : set_max_seen (max_seen s) s = s.
Proof. by destruct s. Qed.

Lemma at_view_max_seen_refl s h : sok s → at_view (sview s) (set_max_seen h s) (set_max_seen h s).
Proof. intros. apply at_view_hints. by apply at_view_refl. Qed.

(** What [put] is given, once encoded. *)
Record put_encoded s (config : RunnableConfig) (checkpoint metadata : pyval)
    (new_versions : pydict) i (tcp tmd : pyval * pyval) (blobs : list (pystr * pyval))
    (stored : pyval) : Prop := {
  pe_id : py_getitem checkpoint (key "id") = Ok (PStr i);
  pe_split : split_checkpoint (incremental s) checkpoint new_versions = Ok (stored, blobs);
  pe_cp : dumps_typed stored = Ok tcp;
  pe_md : dumps_typed (get_checkpoint_metadata config metadata) = Ok tmd;
}.

Lemma put_rows_run s config checkpoint metadata nv i tcp tmd blobs stored :
  put_encoded s config checkpoint metadata nv i tcp tmd blobs stored →
  put_rows config checkpoint metadata nv s =
    (Ok (cfg_thread_id config, cfg_ns config,
         put_items (publishes s (cfg_thread_id config) (cfg_ns config) i)
           (cfg_thread_id config) (cfg_ns config) i
           (ck_record tcp tmd (cfg_checkpoint_id config)), blobs),
     set_max_seen (hints_after s (cfg_thread_id config) (cfg_ns config) i) s).
Proof.
  intros [Hid Hsplit Hcp Hmd]. unfold put_rows, hints_after, publishes, put_items.
  unfold mbind, pym_bind, lift, gets, modify, mret, pym_ret, as_str.
  rewrite Hid. cbn -[ck_record str_ltb dumps_typed split_checkpoint]. rewrite Hsplit, Hcp, Hmd.
  cbn -[ck_record str_ltb]. destruct (store_indexes_max_key s); cbn -[ck_record str_ltb].
  - by rewrite set_max_seen_id.
  - destruct (max_seen s !! _) as [x|]; [|done]. destruct (str_ltb x i); [done|].
    cbn -[ck_record]. by rewrite set_max_seen_id.
Qed.

Lemma fresh_blobs_steady m s0 t c blobs :
  valid_text t → valid_text c → Forall (λ b, valid_text b.1) blobs →
  steady m s0
    (for_fold blobs (λ out b,
       stored ← on_store (op_contains (blobs_ns t c) b.1);
       mret (if stored : bool then out else out ++ [(blobs_ns t c, b.1, b.2)])) [])
    (Ok (fresh_blobs m t c blobs)).
Proof.
  intros Ht Hc Hb.
  assert (∀ out, foldR blobs (λ out b,
      Ok (if bool_decide (is_Some (m !! (blobs_ns t c, b.1))) then out
          else out ++ [(blobs_ns t c, b.1, b.2)])) out = Ok (out ++ fresh_blobs m t c blobs))
    as Hfold.
  { clear. unfold fresh_blobs.
    induction blobs as [|b l IH]; intros out; cbn [foldR]; [by rewrite app_nil_r|].
    cbn [mbind result_bind]. rewrite IH, filter_cons.
    case_bool_decide; case_decide; try done. by rewrite <-app_assoc. }
  rewrite <-(app_nil_l (fresh_blobs m t c blobs)), <-Hfold.
  apply steady_foldR. intros out b Hin. eapply steady_bind_ok.
  - apply steady_contains; [auto with text|]. by eapply Forall_forall in Hb.
  - apply steady_ret.
Qed.

Lemma blob_row_storable values ch row : blob_row values ch = Ok row → storable row.
Proof.
  unfold blob_row. destruct (py_in ch values) as [[]| |]; cbn; [|..]; try done.
  - destruct (py_getitem values ch) as [v| |]; cbn; try done.
    destruct (dumps_typed v) as [[vt vb]| |] eqn:E; cbn; try done. intros [= <-].
    apply (storable_blob (vt, vb)). by eapply dumps_typed_ok.
  - intros [= <-]. apply storable_empty.
Qed.

(** The blobs of a put, one for each new version. *)
Definition blob_entry (values : pyval) (e : pyval * pyval) (b : pystr * pyval) : Prop :=
  b.1 = blob_key e.1 e.2 ∧ blob_row values e.1 = Ok b.2.

Lemma split_incremental checkpoint nv stored blobs :
  split_checkpoint true checkpoint nv = Ok (stored, blobs) →
  ∃ d, checkpoint = PDict d ∧ stored = PDict (dict_pop d (key "channel_values")) ∧
    Forall2 (blob_entry (from_option id (PDict []) (dict_get d (key "channel_values")))) nv blobs.
Proof.
  unfold split_checkpoint. destruct checkpoint as [| | | | | | | |d|]; try done.
  cbn [py_items mbind result_bind]. set (values := from_option id _ _).
  rewrite (foldR_append (λ e, row ← blob_row values e.1; Ok (blob_key e.1 e.2, row))).
  destruct (mapM _ nv) as [bs| |] eqn:E; cbn [mbind result_bind app]; [|done..].
  intros [= <- <-]. exists d. split_and!; [done..|].
  eapply Forall2_impl; [by apply mapM_Ok_Forall2|]. intros e b. unfold blob_entry.
  fold values. destruct (blob_row values e.1); cbn; [|done..]. by intros [= <-].
Qed.

Lemma split_storable inc checkpoint nv stored blobs :
  split_checkpoint inc checkpoint nv = Ok (stored, blobs) →
  Forall (λ b, storable b.2) blobs.
Proof.
  destruct inc; [|by intros [= <- <-]]. intros (d&_&_&H)%split_incremental.
  induction H as [|e b nv' bs [_ Hb] _ IH]; constructor; [by eapply blob_row_storable|done].
Qed.

(** The checkpoint, its blobs and the pointer are in the store; then retention.
    [write_blobs] and [batch] are how the blobs and the rows are written. *)
Lemma put_by (write_blobs : pystr → pystr → list (pystr * pyval) → PyM (Saver S) unit)
    (batch : list (pystr * pystr * pyval) → PyM (Saver S) unit)
    s fuel config checkpoint metadata nv i tcp tmd blobs stored Q :
  let t := cfg_thread_id config in
  let c := cfg_ns config in
  (∀ s0, at_view (sview s) s0 s0 → Forall item_ok (fresh_blobs (sview s) t c blobs) →
     wp (write_blobs t c blobs) s0 (λ _ s1, at_view (kv_set_many (fresh_blobs (sview s) t c blobs) (sview s)) s0 s1)) →
  (∀ s1 items, sok s1 → Forall item_ok items → writes_to (batch items) s1 (kv_set_many items (sview s1))) →
  sok s → valid_config config → text_ok i = true → opt_text_ok (cfg_checkpoint_id config) →
  Forall (λ b, valid_text b.1) blobs →
  put_encoded s config checkpoint metadata nv i tcp tmd blobs stored →
  (∀ s1, at_view (put_view (sview s) (publishes s t c i) t c i
                    (ck_record tcp tmd (cfg_checkpoint_id config)) blobs)
           (set_max_seen (hints_after s t c i) s) s1 →
     wp (match max_checkpoints_per_thread s with
         | Some _ => prune_thread fuel t c
         | None => mret tt
         end) s1 (λ _ s2, Q (mk_config t c i) s2)) →
  wp ('(thread_id, checkpoint_ns, rows, blobs) ← put_rows config checkpoint metadata nv;
      write_blobs thread_id checkpoint_ns blobs ;;
      batch rows ;;
      max_checkpoints ← gets max_checkpoints_per_thread;
      (match max_checkpoints with
       | Some _ => prune_thread fuel thread_id checkpoint_ns
       | None => mret tt
       end) ;;
      id_value ← lift (py_getitem checkpoint (key "id"));
      checkpoint_id ← lift (as_str id_value);
      mret (mk_config thread_id checkpoint_ns checkpoint_id)) s Q.
Proof.
  intros t c Hblobs Hbatch Hs (Ht&Hc&_) Hi Hparent Hb He HQ. pose proof He as [Hid Hsplit Hcp Hmd].
  fold t in Ht. fold c in Hc.
  eapply wp_bind, wp_intro; [exact (put_rows_run _ _ _ _ _ _ _ _ _ _ He)|].
  fold t c. set (s0 := set_max_seen (hints_after s t c i) s).
  set (m := sview s) in *. assert (at_view m s0 s0) as H0 by (by apply at_view_max_seen_refl).
  assert (Forall (λ b, storable b.2) blobs) as Hbs by exact (split_storable _ _ _ _ _ Hsplit).
  eapply wp_bind_mono; [apply (Hblobs s0 H0)|].
  { apply Forall_fmap, Forall_forall. intros b' [_ Hin]%list_elem_of_filter.
    rewrite Forall_forall in Hb, Hbs. split_and!; cbn; auto with text. }
  intros [] s1 H1. eapply wp_bind_mono.
  { apply Hbatch; [by eapply at_view_ok|]. unfold put_items. constructor.
    - split_and!; cbn; auto using text_ok_valid with text.
      apply storable_ck_record; [by eapply dumps_typed_ok|by eapply dumps_typed_ok|done].
    - destruct (publishes s t c i); constructor; [|constructor].
      split_and!; cbn; auto using storable_str with text. }
  intros [] s2 H2. cbn beta in H2. rewrite (at_view_view _ _ _ H1) in H2.
  pose proof (at_view_trans _ _ _ _ _ H1 H2) as H02.
  apply wp_bind, wp_gets. rewrite (at_view_max_checkpoints _ _ _ H02).
  apply wp_bind. eapply wp_mono; [by apply HQ|]. intros [] s3 H3.
  eapply wp_bind, wp_lift; [exact Hid|]. cbn. by apply wp_ret.
Qed.

Theorem put_impl_wp s fuel config checkpoint metadata nv i tcp tmd blobs stored Q :
  let t := cfg_thread_id config in
  let c := cfg_ns config in
  sok s → valid_config config → text_ok i = true → opt_text_ok (cfg_checkpoint_id config) →
  Forall (λ b, valid_text b.1) blobs →
  put_encoded s config checkpoint metadata nv i tcp tmd blobs stored →
  (∀ s1, at_view (put_view (sview s) (publishes s t c i) t c i
                    (ck_record tcp tmd (cfg_checkpoint_id config)) blobs)
           (set_max_seen (hints_after s t c i) s) s1 →
     wp (match max_checkpoints_per_thread s with
         | Some _ => prune_thread fuel t c
         | None => mret tt
         end) s1 (λ _ s2, Q (mk_config t c i) s2)) →
  wp (put_impl fuel config checkpoint metadata nv) s Q.
Proof.
  intros t c Hs Hc Hi Hparent Hb He HQ.
  eapply (put_by (λ thread_id checkpoint_ns blobs, match blobs with
    | [] => mret tt
    | _ =>
        fresh ← for_fold blobs (λ out b,
            stored ← on_store (op_contains (blobs_ns thread_id checkpoint_ns) b.1);
            mret (if stored : bool then out else out ++ [(blobs_ns thread_id checkpoint_ns, b.1, b.2)])) [];
        set_many fresh
    end) set_many); try done.
  - intros s0 H0 Hok. fold t c in Hok |- *. destruct blobs as [|b blobs]; [by apply wp_ret|].
    eapply wp_bind, steady_wp; [apply fresh_blobs_steady; [exact (proj1 Hc)|exact (proj1 (proj2 Hc))|done]|exact H0|]. intros s1 H1.
    eapply wp_mono; [apply writes_set_many; [by eapply at_view_ok|exact Hok]|].
    intros [] s2 H2. cbn beta in H2. rewrite (at_view_view _ _ _ H1) in H2. by eapply at_view_trans.
  - intros. by apply writes_set_many.
Qed.

(** *** The content after a put *)

Lemma put_items_other pub t c i record ns k :
  (ns, k) ≠ (ckpt_ns t c, i) → (ns, k) ≠ (LATEST_NS, latest_key t c) →
  (ns, k) ∉ (put_items pub t c i record).*1.
Proof.
  intros H1 H2. unfold put_items. destruct pub; cbn [fmap list_fmap fst];
    rewrite ?not_elem_of_cons; auto using not_elem_of_nil.
Qed.

Lemma put_items_NoDup pub t c i record : NoDup (put_items pub t c i record).*1.
Proof.
  unfold put_items. destruct pub; cbn [fmap list_fmap fst]; [|apply NoDup_singleton].
  apply NoDup_cons. split; [|apply NoDup_singleton]. rewrite list_elem_of_singleton.
  intros Heq%(f_equal fst). by apply (ckpt_ne_latest t c).
Qed.

Lemma fresh_blobs_other m t c blobs ns k :
  ns ≠ blobs_ns t c → kv_set_many (fresh_blobs m t c blobs) m !! (ns, k) = m !! (ns, k).
Proof.
  intros Hns. apply kv_set_many_lookup_ne. unfold fresh_blobs.
  rewrite <-list_fmap_compose. by intros (?&[= -> _]&_)%list_elem_of_fmap.
Qed.

Lemma put_view_record m pub t c i record blobs :
  put_view m pub t c i record blobs !! (ckpt_ns t c, i) = Some record.
Proof.
  apply (kv_set_many_lookup (put_items pub t c i record)); [apply put_items_NoDup|].
  unfold put_items. by left.
Qed.

Lemma put_view_pointer m pub t c i record blobs :
  put_view m pub t c i record blobs !! (LATEST_NS, latest_key t c) =
    if pub then Some (PStr i) else m !! (LATEST_NS, latest_key t c).
Proof.
  unfold put_view. destruct pub.
  - apply kv_set_many_lookup; [apply put_items_NoDup|]. unfold put_items. right. by left.
  - rewrite kv_set_many_lookup_ne; [apply fresh_blobs_other; auto with text|].
    cbn. rewrite list_elem_of_singleton. intros Heq%(f_equal fst).
    by apply (ckpt_ne_latest t c).
Qed.

Lemma put_view_other m pub t c i record blobs ns k :
  (ns, k) ≠ (ckpt_ns t c, i) → (ns, k) ≠ (LATEST_NS, latest_key t c) → ns ≠ blobs_ns t c →
  put_view m pub t c i record blobs !! (ns, k) = m !! (ns, k).
Proof.
  intros. unfold put_view. rewrite kv_set_many_lookup_ne by by apply put_items_other.
  by apply fresh_blobs_other.
Qed.

(** A blob: kept if it was there, else the one given. *)
Lemma put_view_blob m pub t c i record blobs b :
  NoDup blobs.*1 → b ∈ blobs →
  put_view m pub t c i record blobs !! (blobs_ns t c, b.1) =
    Some (from_option id b.2 (m !! (blobs_ns t c, b.1))).
Proof.
  intros Hnd Hb. unfold put_view. rewrite kv_set_many_lookup_ne.
  2:{ apply put_items_other; intros Heq%(f_equal fst); cbn in Heq.
      - by apply (ckpt_ne_blobs t c t c).
      - by apply (blobs_ne_latest t c). }
  destruct (m !! (blobs_ns t c, b.1)) as [v|] eqn:E.
  - rewrite kv_set_many_lookup_ne; [done|]. unfold fresh_blobs. rewrite <-list_fmap_compose.
    intros (b'&[= Heq]&[Hin _]%list_elem_of_filter)%list_elem_of_fmap.
    rewrite <-Heq, E in Hin. by destruct Hin.
  - apply kv_set_many_lookup.
    + unfold fresh_blobs. rewrite <-list_fmap_compose.
      apply (NoDup_fmap_1 snd). rewrite <-list_fmap_compose.
      change (NoDup ((λ b, b.1) <$> filter (λ b, ¬ is_Some (m !! (blobs_ns t c, b.1))) blobs)).
      eapply sublist_NoDup; [exact Hnd|]. apply fmap_sublist, sublist_filter.
    + apply list_elem_of_fmap. exists b. split; [done|]. apply list_elem_of_filter.
      split; [|done]. rewrite E. by intros [].
Qed.

Lemma put_view_blob_other m pub t c i record blobs k :
  k ∉ blobs.*1 →
  put_view m pub t c i record blobs !! (blobs_ns t c, k) = m !! (blobs_ns t c, k).
Proof.
  intros Hk. unfold put_view. rewrite kv_set_many_lookup_ne.
  2:{ apply put_items_other; intros Heq%(f_equal fst); cbn in Heq.
      - by apply (ckpt_ne_blobs t c t c).
      - by apply (blobs_ne_latest t c). }
  apply kv_set_many_lookup_ne. unfold fresh_blobs. rewrite <-list_fmap_compose.
  intros (b&[= ->]&[_ Hin]%list_elem_of_filter)%list_elem_of_fmap. apply Hk.
  apply list_elem_of_fmap. by exists b.
Qed.

Lemma put_view_content inc m pub t c i record blobs :
  content_ok inc m → text_ok i = true → (inc = true → blob_names_ok record) →
  content_ok inc (put_view m pub t c i record blobs).
Proof.
  intros Hm Hi Hbl.
  assert (∀ t' c' j, (ckpt_ns t' c', j) ≠ (ckpt_ns t c, i) →
    put_view m pub t c i record blobs !! (ckpt_ns t' c', j) = m !! (ckpt_ns t' c', j)) as Hck.
  { intros t' c' j Hne. apply put_view_other; [done| |auto with text].
    intros Heq%(f_equal fst). by apply (ckpt_ne_latest t' c'). }
  split.
  - intros k v Hv. destruct (decide (k = latest_key t c)) as [->|Hne].
    + rewrite put_view_pointer in Hv. destruct pub; [exists i; congruence|].
      by eapply content_pointers.
    + rewrite put_view_other in Hv; [by eapply content_pointers| |congruence|auto with text].
      intros Heq%(f_equal fst). by apply (ckpt_ne_latest t c).
  - intros t' c' j. destruct (decide ((ckpt_ns t' c', j) = (ckpt_ns t c, i))) as [[= _ ->]|Hne];
      [done|]. rewrite Hck by done. by eapply content_ids.
  - intros t' c' j k Hk. rewrite put_view_other in Hk; [by eapply content_writes|..].
    + intros Heq%(f_equal fst). by apply (ckpt_ne_writes t c t' c' j).
    + intros Heq%(f_equal fst). by apply (writes_ne_latest t' c' j).
    + auto with text.
  - intros t' c' j Hinc. unfold kv_get.
    destruct (decide ((ckpt_ns t' c', j) = (ckpt_ns t c, i))) as [Heq|Hne].
    + rewrite Heq, put_view_record. by apply Hbl.
    + rewrite Hck by done. by apply (content_blobs _ _ Hm).
Qed.

(** *** Decoding a record of [put] *)

Lemma loads_dumps_pair v tv : dumps_typed v = Ok tv → loads (PList [tv.1; tv.2]) = Ok v.
Proof. destruct tv as [t b]. intros Hd. by apply loads_dumps. Qed.

Lemma ck_record_cp tcp tmd parent v :
  dumps_typed v = Ok tcp → loads_field (ck_record tcp tmd parent) (key "cp") = Ok v.
Proof. intros Hd. by apply loads_dumps_pair in Hd. Qed.

Lemma ck_record_md tcp tmd parent v :
  dumps_typed v = Ok tmd → loads_field (ck_record tcp tmd parent) (key "md") = Ok v.
Proof. intros Hd. by apply loads_dumps_pair in Hd. Qed.

Lemma ck_record_parent tcp tmd parent t c :
  parent_config t c (ck_record tcp tmd parent) = Ok (mk_config t c <$> truthy_id parent).
Proof. by destruct parent as [[|x p]|]. Qed.
End put.
