(* ===== verification/SaverExample.v ===== *)
(** * A concrete LangGraph, for the examples

    The theorems about [SwarmStateSaver] hold for any serializer with the laws of
    [LangGraphSpec]. This file builds one, so that they can be run: a value is
    turned into a tree, the tree into a positive number (stdpp's encoding of
    generic trees), the number into one byte per bit. *)

From stdpp Require Import countable.
From S2P Require Import Prelude PyValue Store Saver SaverOps SaverRead.

(** ** Values as trees *)

Abbreviation leaf := (Z + (list N + (list Z + N)))%type.

Fixpoint to_tree (v : pyval) : gen_tree leaf :=
  match v with
  | PNone => GenNode 0 []
  | PBool b => GenNode (if b then 1 else 2) []
  | PInt z => GenNode 3 [GenLeaf (inl z)]
  | PFloat z => GenNode 4 [GenLeaf (inl z)]
  | PStr s => GenNode 5 [GenLeaf (inr (inl s))]
  | PBytes b => GenNode 6 [GenLeaf (inr (inr (inl ((λ x, Z.of_N (Byte.to_N x)) <$> b))))]
  | PList l => GenNode 7 (to_tree <$> l)
  | PTuple l => GenNode 8 (to_tree <$> l)
  | PDict d => GenNode 9 ((λ kv, GenNode 0 [to_tree kv.1; to_tree kv.2]) <$> d)
  | PObject n => GenNode 10 [GenLeaf (inr (inr (inr n)))]
  end.

Definition byte_of_Z (z : Z) : Byte.byte := from_option id Byte.x00 (Byte.of_N (Z.to_N z)).

Fixpoint of_tree (t : gen_tree leaf) : pyval :=
  match t with
  | GenNode 0 [] => PNone
  | GenNode 1 [] => PBool true
  | GenNode 2 [] => PBool false
  | GenNode 3 [GenLeaf (inl z)] => PInt z
  | GenNode 4 [GenLeaf (inl z)] => PFloat z
  | GenNode 5 [GenLeaf (inr (inl s))] => PStr s
  | GenNode 6 [GenLeaf (inr (inr (inl b)))] => PBytes (byte_of_Z <$> b)
  | GenNode 7 l => PList (of_tree <$> l)
  | GenNode 8 l => PTuple (of_tree <$> l)
  | GenNode 9 l => PDict ((λ t, match t with
                                | GenNode _ [k; v] => (of_tree k, of_tree v)
                                | _ => (PNone, PNone)
                                end) <$> l)
  | GenNode 10 [GenLeaf (inr (inr (inr n)))] => PObject n
  | _ => PNone
  end.

Lemma byte_of_to b : byte_of_Z (Z.of_N (Byte.to_N b)) = b.
Proof. unfold byte_of_Z. rewrite N2Z.id, Byte.of_to_N. done. Qed.

Lemma of_to_tree v : of_tree (to_tree v) = v.
Proof.
  induction v as [|[]| | | |b|l IH|l IH|d IH|] using pyval_nested_ind; cbn; try done; f_equal.
  - rewrite <-list_fmap_compose. etrans; [|apply list_fmap_id]. apply list_fmap_ext.
    intros _ x _. apply byte_of_to.
  - rewrite <-list_fmap_compose. induction IH as [|x l Hx _ IHl]; cbn; [done|].
    by rewrite Hx, IHl.
  - rewrite <-list_fmap_compose. induction IH as [|x l Hx _ IHl]; cbn; [done|].
    by rewrite Hx, IHl.
  - rewrite <-list_fmap_compose. induction IH as [|[k x] l [Hk Hx] _ IHl]; cbn; [done|].
    cbn in Hk, Hx. by rewrite Hk, Hx, IHl.
Qed.

(** ** Numbers as bytes *)

Fixpoint bits_of (p : positive) : bytes :=
  match p with
  | xH => []
  | xO p => Byte.x00 :: bits_of p
  | xI p => Byte.x01 :: bits_of p
  end.
Definition of_bits (l : bytes) : positive :=
  foldr (λ b p, match b with Byte.x00 => xO p | _ => xI p end) xH l.

Lemma of_bits_of p : of_bits (bits_of p) = p.
Proof. induction p; cbn; unfold of_bits in *; congruence. Qed.

(** ** The instance *)

Definition example_dumps (v : pyval) : result (pyval * pyval) :=
  let raw := bits_of (encode (to_tree v)) in
  if len32 raw then Ok (key "tree", PBytes raw) else Raise ValueError.

Definition example_loads (l : list pyval) : result pyval :=
  match l with
  | [_; PBytes raw] => t ← or_raise ValueError (decode (A:=gen_tree leaf) (of_bits raw)); Ok (of_tree t)
  | _ => Raise ValueError
  end.

(** [get_checkpoint_metadata] of the examples keeps the metadata it is given. *)
#[export] Instance example_langgraph : LangGraph := {|
  dumps_typed := example_dumps;
  loads_typed := example_loads;
  get_checkpoint_id := cfg_checkpoint_id;
  get_checkpoint_metadata := λ _ md, md;
  WRITES_IDX_MAP ch := if str_eqb ch (lit "__error__") then Some (-1)%Z else None;
  str_of_other := λ _, lit "?";
|}.

#[export] Instance example_langgraph_spec : LangGraphSpec.
Proof.
  split; cbn.
  - intros v t b. unfold example_dumps. case_match; [|done]. intros [= <- <-].
    cbn. rewrite of_bits_of, decode_encode. cbn. by rewrite of_to_tree.
  - intros v t b. unfold example_dumps. case_match eqn:E; [|done]. intros [= <- <-].
    eexists _, _. split_and!; [done..|by vm_compute|done].
  - done.
  - intros ch i. case_match; [|done]. by intros [= <-].
Qed.

(** ** A saver on the reference store, and its inputs *)

#[export] Existing Instance ref_spec.

(** The reference store with every optional method, and one with none of them. *)
Definition full_ops : StoreOps kv := ref_ops true true false.
Definition bare_ops : StoreOps kv := ref_ops false false false.

Definition ex_saver (inc : bool) (limit : option Z) (m : kv) : Saver kv :=
  mkSaver m inc limit None None ∅ ∅ true false false.

Definition ex_thread : pystr := lit "t1".
Definition ex_config (parent : option pystr) : RunnableConfig :=
  {| cfg_thread_id := ex_thread; cfg_checkpoint_ns := Some []; cfg_checkpoint_id := parent;
     cfg_metadata := PNone |}.

Definition ex_values : pydict := [(key "a", PInt 7); (key "b", key "seven")].
Definition ex_versions : pydict := [(key "a", PInt 1); (key "b", PInt 2)].
Definition ex_checkpoint (i : String.string) : pydict :=
  [(key "id", key i); (key "channel_values", PDict ex_values);
   (key "channel_versions", PDict ex_versions)].
Definition ex_metadata : pyval := PDict [(key "step", PInt 1)].

(** What the example serializer makes of a value. *)
Definition ex_typed (v : pyval) : pyval * pyval :=
  match example_dumps v with Ok p => p | _ => (PNone, PNone) end.

Lemma kv_ok_empty : kv_ok ∅.
Proof. apply map_Forall_empty. Qed.

