(* ===== verification/DiskTheorems.v ===== *)
(** * Properties of the SQLite backend

    Atomicity of the batch writes under any schedule of statement failures, the
    snapshot/restore round trip, [get_many] against [get], and the refinement of
    the reference store. *)

From stdpp Require Import countable.
From S2P Require Import Prelude PyValue Prefix Store StoreTrace Snapshot WireRows DiskStore SaverExample.

(** ** A concrete [msgpack], for the examples *)

Definition example_pack (v : pyval) : result bytes := Ok (bits_of (encode (to_tree v))).
Definition example_unpack (b : bytes) : result pyval :=
  t ← or_raise ValueError (countable.decode (A:=gen_tree leaf) (of_bits b)); Ok (of_tree t).

Lemma example_unpack_pack v :
  storable v → ∃ b, example_pack v = Ok b ∧ example_unpack b = Ok v.
Proof.
  intros _. eexists. split; [done|]. unfold example_unpack.
  rewrite of_bits_of, decode_encode. cbn. by rewrite of_to_tree.
Qed.

(** A fresh database, on which the given statements will fail. *)
Definition ex_disk (f : list bool) (t : table) : Disk :=
  {| committed := t; tx := None; faults := f; disk_meta := SnapshotMeta_init |}.

(** ** Lemmas: runs of statements *)

Section Pack.
Context (pack : pyval → result bytes).

Lemma pack_items_state items d r d' :
  mapM (pack_item pack) items d = (r, d') →
  d' = d ∧ ∀ rows, r = Ok rows → Forall2 (λ i x, x.1 = i.1 ∧ pack i.2 = Ok x.2) items rows.
Proof.
  revert d r d'. induction items as [|i items IH]; intros d r d'; cbn [mapM].
  - intros [= <- <-]. split; [done|]. intros rows [= <-]. constructor.
  - unfold mbind at 1, pym_bind at 1, pack_item at 1. unfold mbind at 1, pym_bind at 1, lift.
    destruct (pack i.2) as [b|e|] eqn:Hb; [|by intros [= <- <-]..]. cbn.
    unfold mbind, pym_bind. destruct (mapM (pack_item pack) items d) as [s d1] eqn:E.
    apply IH in E as [-> Hs]. destruct s as [rows|e|]; [|by intros [= <- <-]..].
    intros [= <- <-]. split; [done|]. intros ? [= <-]. constructor; [done|]. by apply Hs.
Qed.
End Pack.

Lemma deletes_tx (pairs : list (pystr * pystr)) (n : Z) d t r d' :
  tx d = Some t →
  for_fold pairs (λ n p, m ← sql_delete p; mret (n + m)%Z) n d = (Ok r, d') →
  ∃ t', tx d' = Some t' ∧ t' = foldl (λ t p, delete p t) t pairs ∧
        (r = n + (Z.of_nat (size t) - Z.of_nat (size t')))%Z.
Proof.
  revert n d t. induction pairs as [|p pairs IH]; intros n d t Ht; cbn [for_fold].
  - intros [= <- <-]. exists t. split_and!; [done..|lia].
  - unfold mbind at 1, pym_bind at 1, mbind at 1, pym_bind at 1.
    destruct (sql_delete p d) as [s d1] eqn:E.
    destruct (execute_tx _ _ _ _ _ _ Ht E) as [_ Hs].
    destruct s as [m|?|]; [|done..]. destruct Hs as [[= Hm Hd] [t1 Ht1]].
    rewrite Ht1 in Hd. cbn in Hd. subst t1. cbn. intros H.
    destruct (IH _ _ _ Ht1 H) as (t'&Ht'&->&->). eexists. split_and!; [done..|].
    assert (m = Z.of_nat (size t) - Z.of_nat (size (delete p t)))%Z as ->; [|lia].
    rewrite <-Hm. destruct (t !! p) as [b|] eqn:Hp.
    + rewrite decide_True by done. rewrite map_size_delete_Some by done.
      assert (size t ≠ 0); [|lia]. apply map_size_non_empty_iff. by intros ->.
    + rewrite decide_False by by intros []. rewrite delete_id by done. lia.
Qed.

(** A query outside a transaction reads the committed table. *)
Lemma query_autocommit {A} (q : table → A) d a d' :
  tx d = None → query [] q d = (Ok a, d') → a = q (committed d).
Proof.
  intros Ht. unfold query, execute. cbn [for_each]. unfold mbind, pym_bind, mret, pym_ret.
  unfold statement_start, on_table. destruct d as [c t [|[] f] m]; simpl in *; subst;
    try done; by intros [= <- _].
Qed.

(** The body of [restore], where nothing fails. *)
Lemma restore_body_ok (rows : list row) d t :
  NoDup rows.*1 → Forall (λ p, valid_text p.1 ∧ valid_text p.2) rows.*1 →
  tx d = Some t → faults d = [] →
  wp (execute [] (λ t, (Ok tt, ∅)) ;; for_each rows sql_insert) d
    (λ _ d', faults d' = [] ∧ tx d' = Some (rows_written ∅ rows) ∧ committed d' = committed d).
Proof.
  intros Hnd Hv Ht Hf. apply wp_bind. eapply wp_execute_tx; [done..|constructor|done|].
  eapply wp_mono.
  { apply (wp_for_each (λ l1 d', d' = set_tx (Some (rows_written ∅ l1)) d)); [done|].
    intros l1 [p b] l2 d' -> ->. rewrite fmap_app in Hnd, Hv.
    apply Forall_app in Hv as [_ [[? ?] _]%Forall_cons_iff].
    apply NoDup_app in Hnd as (Hnd&Hp&_).
    eapply wp_execute_tx; [done|done|by repeat constructor| |].
    - assert (rows_written ∅ l1 !! p = None) as Hnone; [|by cbn; rewrite Hnone].
      rewrite rows_written_list_to_map by done. apply not_elem_of_list_to_map.
      intros Hin. apply (Hp p Hin). left.
    - unfold rows_written. by rewrite foldl_app. }
  by intros [] d' ->.
Qed.

(** ** Properties *)

Section Theorems.
Context (pack : pyval → result bytes) (unpack : bytes → result pyval).

(** C11: [DiskStore] implements the contract of [protocols.py]: given that
    [msgpack] unpacks what it packs, a client that makes any sequence of calls
    with storable arguments on a database (on which no statement fails) gets, call
    by call, the answers of the reference store holding the same data (the counts of
    [delete_many] and [delete_namespace] included), and leaves the same data behind. *)
Theorem disk_refines_reference cs d :
  (∀ v, storable v → ∃ b, pack v = Ok b ∧ unpack b = Ok v) →
  disk_ok unpack d → Forall call_ok cs →
  ∃ answers d',
    run_calls (disk_ops pack unpack) cs d = (Ok answers, d') ∧
    run_calls (reference true) cs (disk_view unpack d) = (Ok answers, disk_view unpack d') ∧
    disk_ok unpack d'.
Proof.
  intros Hpack Hd Hcs.
  destruct (wp_elim _ _ _ (run_calls_simulates (ops:=disk_ops pack unpack)
    (spec:=disk_spec pack unpack Hpack) true
    ltac:(split; [done|split_and!; by eexists]) cs d Hd Hcs)) as (l&d'&H&Hok&Hr).
  exists l, d'. by split_and!.
Qed.

(** C12: [set_many] is atomic: whatever statements fail, it either returns and
    every item is written (in order, so the last of two items with one key wins),
    or raises and the table is as before. *)
Theorem set_many_atomic items d r d' :
  tx d = None → DiskStore_set_many pack items d = (r, d') →
  (r = Ok tt → ∃ rows, Forall2 (λ i x, x.1 = i.1 ∧ pack i.2 = Ok x.2) items rows ∧
                       committed d' = rows_written (committed d) rows) ∧
  (r ≠ Ok tt → committed d' = committed d).
Proof.
  intros Ht. unfold DiskStore_set_many. destruct items as [|i items].
  { intros [= <- <-]. split; [|done]. intros _. exists []. by split. }
  cbv beta iota. unfold mbind at 1, pym_bind at 1.
  destruct (mapM (pack_item pack) (i :: items) d) as [s d1] eqn:E.
  apply pack_items_state in E as [-> Hs].
  destruct s as [rows|e|]; [|by intros [= <- <-]..]. intros Htr.
  apply transaction_atomic in Htr; [|by intros; apply for_each_tx_safe; intros ?;
    apply execute_tx_safe|done].
  destruct r as [[]|e|]; [|done..]. destruct Htr as (f&d2&Hb&Hd2&_).
  split; [|done]. intros _. exists rows. split; [by apply Hs|].
  apply (upserts_tx _ _ (committed d)) in Hb; [|done].
  rewrite Hd2 in Hb. by injection Hb.
Qed.

(** [delete_many] is atomic under the same failures, and what it returns is
    the number of pairs that existed. *)
Theorem delete_many_atomic pairs d r d' :
  tx d = None → DiskStore_delete_many pairs d = (r, d') →
  (∀ n, r = Ok n →
     committed d' = foldl (λ t p, delete p t) (committed d) pairs ∧
     n = (Z.of_nat (size (committed d)) - Z.of_nat (size (committed d')))%Z) ∧
  ((∀ n, r ≠ Ok n) → committed d' = committed d).
Proof.
  intros Ht. unfold DiskStore_delete_many. destruct pairs as [|p pairs].
  { intros [= <- <-]. split; [|done]. intros n [= <-]. split; [done|lia]. }
  cbv beta iota. intros Htr. apply transaction_atomic in Htr; [| |done].
  2:{ apply for_fold_tx_safe. intros n q. apply bind_tx_safe; [apply execute_tx_safe|].
      intros m. apply ret_tx_safe. }
  destruct r as [n|e|]; [|done..]. destruct Htr as (f&d2&Hb&Hd2&_).
  split; [|intros Hne; by destruct (Hne n)]. intros ? [= <-].
  destruct (deletes_tx _ _ (set_tx (Some (committed d)) (set_faults f d))
    (committed d) _ _ eq_refl Hb) as (t'&Ht'&->&->).
  rewrite Hd2 in Ht'. injection Ht' as ->. split; [done|]. rewrite Z.add_0_l. done.
Qed.

(** A snapshot of a database outside a transaction holds its rows. *)
Lemma disk_snapshot_rows now d s d1 :
  DiskStore_snapshot now d = (Ok s, d1) → tx d = None → snap_rows s = map_to_list (committed d).
Proof.
  intros Hs Ht. revert Hs. unfold DiskStore_snapshot. unfold mbind at 1, pym_bind at 1.
  destruct (query [] map_to_list d) as [[rows|e|] d0] eqn:E; [|done..].
  apply query_autocommit in E as ->; [|done].
  unfold act. destruct (SnapshotMeta_next now (disk_meta d0)) as [[[? ?] ?] m'].
  by intros [= <- _].
Qed.

(** Where nothing fails, [restore] writes the rows of the snapshot. *)
Lemma disk_restore_wp s t d :
  snap_rows s = map_to_list t → map_Forall (row_ok unpack) t → quiet d →
  wp (DiskStore_restore s) d (λ _ d', disk_ok unpack d' ∧ committed d' = t).
Proof.
  intros Hrows Hok Hd. apply wp_transaction; [done|]. rewrite Hrows. eapply wp_mono.
  { apply (restore_body_ok _ _ (committed d)); [apply NoDup_fst_map_to_list| |done|by destruct Hd].
    apply Forall_forall. intros p ([q b]&->&Hin%elem_of_map_to_list)%list_elem_of_fmap.
    destruct (Hok _ _ Hin) as (?&?&_). done. }
  intros [] d' (Hf'&Ht'&_). split; [done|]. eexists. split; [exact Ht'|].
  rewrite rows_written_snapshot. by split.
Qed.

(** [restore] undoes everything since [snapshot]: whatever was written in
    between, and whatever statements fail, [restore] either returns with exactly
    the rows the snapshot was taken of, or raises with the table as it was (it is
    never left emptied); and when no statement fails it returns. *)
Theorem restore_snapshot now d s d1 d2 r d3 :
  DiskStore_snapshot now d = (Ok s, d1) → tx d = None → tx d2 = None →
  DiskStore_restore s d2 = (r, d3) →
  (r = Ok tt → committed d3 = committed d) ∧
  (r ≠ Ok tt → committed d3 = committed d2) ∧
  (faults d2 = [] → disk_ok unpack d → r = Ok tt).
Proof.
  intros Hs Ht Ht2 Hr.
  apply disk_snapshot_rows in Hs as Hrows; [|done].
  apply transaction_atomic in Hr as Ha; [|apply bind_tx_safe; [apply execute_tx_safe|];
    intros ?; apply for_each_tx_safe; intros ?; apply execute_tx_safe|done].
  split_and!.
  - intros ->. destruct Ha as (f&d4&Hb&Hd4&_). revert Hb. unfold mbind, pym_bind.
    destruct (execute [] _ _) as [[[]|?|] d5] eqn:E; [|done..].
    apply (execute_tx _ _ _ (committed d2)) in E as [_ [[= He] [t Ht5]]]; [|done].
    rewrite Ht5 in He. cbn in He. subst t. intros Hb. apply (inserts_tx _ _ ∅) in Hb; [|done].
    rewrite Hd4 in Hb. injection Hb as ->. rewrite Hrows. apply rows_written_snapshot.
  - destruct r as [[]|e|]; [done|done|done].
  - intros Hf [_ Hok]. pose proof (disk_restore_wp s (committed d) d2 Hrows Hok (conj Ht2 Hf)) as Hwp.
    unfold wp in Hwp. rewrite Hr in Hwp. by destruct r as [[]|e|].
Qed.

(** [get_many], with its grouping by namespace and its chunks of at most 899
    keys, is [get] of each pair in turn: the same values in the same order
    ([None] for a missing one, repeats repeated), however many pairs there are. *)
Theorem get_many_is_get d pairs :
  disk_ok unpack d → Forall (λ p, valid_text p.1 ∧ valid_text p.2) pairs →
  ∃ values, DiskStore_get_many unpack pairs d = (Ok values, d) ∧
            mapM (λ p, DiskStore_get unpack p.1 p.2 PNone) pairs d = (Ok values, d).
Proof.
  intros Hd Hp.
  destruct (wp_elim _ _ _ (disk_get_many_ok unpack d pairs Hd Hp)) as (l&d'&Hm&->&->).
  eexists. split; [exact Hm|].
  assert (wp (mapM (λ p, DiskStore_get unpack p.1 p.2 PNone) pairs) d (λ l d',
    Forall2 (λ p v, v = kv_get (disk_view unpack d) p.1 p.2) pairs l ∧ d' = d)) as Hg.
  { apply (wp_mapM (λ d', d' = d)); [done|]. intros p d' Hin ->.
    rewrite Forall_forall in Hp. destruct (Hp p Hin).
    eapply wp_mono; [by apply disk_get_ok|]. by intros v d' [-> ->]. }
  apply wp_elim in Hg as (l&d'&Hg&Hl&->). by apply Forall2_fmap_r_eq in Hl as ->.
Qed.
End Theorems.

(** ** Witnesses *)

Definition ex_item (k : String.string) (z : Z) : pystr * pystr * pyval := (lit "ns", lit k, PInt z).
Definition ex_table : table := {[ (lit "ns", lit "k") := bits_of (encode (to_tree (PInt 3))) ]}.

Lemma ex_table_ok : disk_ok example_unpack (ex_disk [] ex_table).
Proof.
  split; [done|]. cbn. apply map_Forall_singleton. split_and!; [by apply (bool_decide_unpack _)..|].
  exists (PInt 3). split; [by vm_compute|]. split; [done|]. cbn. lia.
Qed.

Lemma disk_refines_reference_witness :
  ∃ answers d',
    run_calls (disk_ops example_pack example_unpack)
      [CSet (lit "ns") (lit "a") (PBool true); CKeys (lit "ns") (Some []); CMaxKey (lit "ns")]
      (ex_disk [] ex_table) = (Ok answers, d') ∧
    run_calls (reference true)
      [CSet (lit "ns") (lit "a") (PBool true); CKeys (lit "ns") (Some []); CMaxKey (lit "ns")]
      (disk_view example_unpack (ex_disk [] ex_table)) =
      (Ok answers, disk_view example_unpack d') ∧
    disk_ok example_unpack d'.
Proof.
  apply (disk_refines_reference example_pack example_unpack); [apply example_unpack_pack|
    exact ex_table_ok|].
  repeat constructor; by apply (bool_decide_unpack _).
Defined.

(** The third statement (the second row) fails: nothing is written. *)
Lemma set_many_atomic_witness :
  committed (DiskStore_set_many example_pack [ex_item "k" 4; ex_item "l" 5]
               (ex_disk [false; false; true] ex_table)).2 = ex_table.
Proof.
  refine (proj2 (set_many_atomic example_pack [ex_item "k" 4; ex_item "l" 5]
    (ex_disk [false; false; true] ex_table) (Raise StoreError) _ eq_refl _) _); [|done].
  vm_compute. reflexivity.
Defined.

Lemma delete_many_atomic_witness :
  1%Z = (Z.of_nat (size ex_table) -
               Z.of_nat (size (committed (DiskStore_delete_many
                 [(lit "ns", lit "k"); (lit "ns", lit "no")] (ex_disk [] ex_table)).2)))%Z.
Proof.
  refine (proj2 (proj1 (delete_many_atomic [(lit "ns", lit "k"); (lit "ns", lit "no")]
    (ex_disk [] ex_table) (Ok 1%Z) _ eq_refl _) 1%Z eq_refl)).
  vm_compute. reflexivity.
Defined.

(** A snapshot restored into a database that has since changed. *)
Definition ex_snapshot : CopySnapshot :=
  {| snap_rows := map_to_list ex_table; snap_id := 1; snap_timestamp := 7; snap_parent := None;
     snap_size_bytes := length (bits_of (encode (to_tree (PInt 3)))) |}.

Lemma restore_snapshot_witness :
  committed (DiskStore_restore ex_snapshot (ex_disk [] {[ (lit "ns", lit "x") := [] ]})).2 = ex_table.
Proof.
  refine (proj1 (restore_snapshot example_unpack 7 (ex_disk [] ex_table) ex_snapshot
    (set_meta {| sm_seq := 1; sm_last := Some 1%Z |} (ex_disk [] ex_table))
    (ex_disk [] {[ (lit "ns", lit "x") := [] ]}) (Ok tt) _ _ eq_refl eq_refl _) eq_refl).
  - vm_compute. reflexivity.
  - vm_compute. reflexivity.
Defined.

Lemma get_many_is_get_witness :
  ∃ values,
    DiskStore_get_many example_unpack [(lit "ns", lit "k"); (lit "m", []); (lit "ns", lit "k")]
      (ex_disk [] ex_table) = (Ok values, ex_disk [] ex_table) ∧
    mapM (λ p, DiskStore_get example_unpack p.1 p.2 PNone)
      [(lit "ns", lit "k"); (lit "m", []); (lit "ns", lit "k")]
      (ex_disk [] ex_table) = (Ok values, ex_disk [] ex_table).
Proof.
  apply (get_many_is_get example_unpack); [exact ex_table_ok|].
  repeat (apply Forall_cons; split; [by apply (bool_decide_unpack _)|]). constructor.
Defined.
