(* ===== verification/DiskConns.v ===== *)
(** * The connections of a [DiskStore] ([backends/disk.py])

    [_connect] keeps one SQLite connection per thread in a [threading.local] and all
    of them in a list; [close] closes the list and drops the [threading.local]. The
    calls of several threads interleave between any two accesses to that shared
    state. *)

From stdpp Require Import relations.
From S2P Require Import Prelude Interleave.

Record DiskConns := {
  dc_handles : Handles;                 (* the connections SQLite has open *)
  dc_conns : list nat;                  (* [self._conns] *)
  dc_local : gmap (nat * nat) nat;      (* [conn] of a [threading.local] and a thread *)
  dc_gen : nat;                         (* which [threading.local] [self._local] is *)
}.

(** [__init__], before its call of [_connect] *)
Definition DiskConns_init : DiskConns := {|
  dc_handles := no_handles; dc_conns := []; dc_local := ∅; dc_gen := 0;
|}.

Inductive DiskTask :=
  | Connect (th : nat)                        (* [_connect] is called *)
  | Opening (th : nat)                        (* in [sqlite3.connect] *)
  | Configuring (th c : nat)                  (* in its pragmas and CREATE TABLE *)
  | Caching (th c : nat)                      (* before [self._local.conn = conn] *)
  | Listing (th c : nat)                      (* before the append *)
  | Connected (th c : nat)                    (* returned [c] *)
  | ConnectFailed (th : nat) (c : option nat) (* raised, with [c] left to the collector *)
  | Close                                     (* [close] is called *)
  | Closing (conns : list nat) (i : nat)      (* before [conns[i].close()] *)
  | CloseFailed (conns : list nat) (i : nat)  (* [conns[i].close()] raised *)
  | Closed.

Definition connect_step (ok : bool) (s : DiskConns) (t : DiskTask)
    : option (DiskConns * DiskTask) :=
  match t with
  | Connect th =>
      match dc_local s !! (dc_gen s, th) with
      | Some c => Some (s, Connected th c)
      | None => Some (s, Opening th)
      end
  | Opening th =>
      if ok then
        Some ({| dc_handles := h_new (dc_handles s); dc_conns := dc_conns s;
                 dc_local := dc_local s; dc_gen := dc_gen s |},
              Configuring th (h_next (dc_handles s)))
      else Some (s, ConnectFailed th None)
  | Configuring th c =>
      if ok then Some (s, Caching th c) else Some (s, ConnectFailed th (Some c))
  | Caching th c =>
      Some ({| dc_handles := dc_handles s; dc_conns := dc_conns s;
               dc_local := <[(dc_gen s, th) := c]> (dc_local s); dc_gen := dc_gen s |},
            Listing th c)
  | Listing th c =>
      Some ({| dc_handles := dc_handles s; dc_conns := dc_conns s ++ [c];
               dc_local := dc_local s; dc_gen := dc_gen s |}, Connected th c)
  | _ => None
  end.

(** [conn.close()] *)
Definition DiskConns_closing (c : nat) (s : DiskConns) : DiskConns :=
  {| dc_handles := h_close c (dc_handles s); dc_conns := dc_conns s;
     dc_local := dc_local s; dc_gen := dc_gen s |}.

Definition close_step (ok : bool) (s : DiskConns) (t : DiskTask)
    : option (DiskConns * DiskTask) :=
  match t with
  | Close =>
      Some ({| dc_handles := dc_handles s; dc_conns := []; dc_local := dc_local s;
               dc_gen := dc_gen s |}, Closing (dc_conns s) 0)
  | Closing conns i =>
      match conns !! i with
      | Some c =>
          if ok then Some (DiskConns_closing c s, Closing conns (S i))
          else Some (s, CloseFailed conns i)
      | None =>
          Some ({| dc_handles := dc_handles s; dc_conns := dc_conns s;
                   dc_local := dc_local s; dc_gen := S (dc_gen s) |}, Closed)
      end
  | _ => None
  end.

Definition disk_step (ok : bool) (s : DiskConns) (t : DiskTask)
    : option (DiskConns * DiskTask) :=
  match connect_step ok s t with Some r => Some r | None => close_step ok s t end.

Abbreviation disk_run := (rtc (istep disk_step)).

(** The tasks whose call has not begun, and those whose call has ended. *)
Definition disk_called (t : DiskTask) : bool :=
  match t with Connect _ | Close => true | _ => false end.
Definition disk_ended (t : DiskTask) : bool :=
  match t with Connected _ _ | ConnectFailed _ _ | CloseFailed _ _ | Closed => true | _ => false end.
Definition disk_failed (t : DiskTask) : bool :=
  match t with ConnectFailed _ _ | CloseFailed _ _ => true | _ => false end.

(** ** The account of the connections *)

(** The open connections only the task knows of. *)
Definition disk_held (t : DiskTask) : list nat :=
  match t with
  | Configuring _ c | Caching _ c | Listing _ c | ConnectFailed _ (Some c) => [c]
  | Closing conns i | CloseFailed conns i => drop i conns
  | _ => []
  end.

Definition disk_account (s : DiskConns) (ts : list DiskTask) : Prop :=
  owns (dc_conns s ++ (ts ≫= disk_held)) (dc_handles s).

Lemma disk_account_step ok s t s' t' ts :
  disk_step ok s t = Some (s', t') → disk_account s (t :: ts) → disk_account s' (t' :: ts).
Proof.
  unfold disk_account, disk_step. rewrite !bind_cons.
  destruct t as [th|th|th c|th c|th c|th c|th o| |conns i|conns i|]; cbn; try done.
  - destruct (dc_local s !! (dc_gen s, th)); intros [= <- <-]; done.
  - destruct ok; intros [= <- <-] H; cbn; [|done].
    rewrite <-Permutation_middle. by apply owns_new.
  - destruct ok; intros [= <- <-]; done.
  - by intros [= <- <-].
  - intros [= <- <-] H; cbn. by rewrite <-(assoc_L (++)).
  - by intros [= <- <-].
  - destruct (conns !! i) as [c|] eqn:Ei; [destruct ok|]; intros [= <- <-] H; cbn.
    + apply owns_close. rewrite Permutation_middle. by erewrite drop_S in H.
    + done.
    + by rewrite drop_ge in H by by apply lookup_ge_None.
Qed.

Lemma disk_account_run s ts s' ts' :
  disk_run (s, ts) (s', ts') → disk_account s ts → disk_account s' ts'.
Proof.
  intros Hr. refine (steps_invariant disk_step disk_account _ _ _ _ Hr).
  - intros s1 ts1 ts2 Hp. unfold disk_account. by rewrite Hp.
  - intros. by eapply disk_account_step.
Qed.

(** ** A connection belongs to one thread *)

Definition disk_conn (t : DiskTask) : option (nat * nat) :=
  match t with
  | Configuring th c | Caching th c | Listing th c | Connected th c
  | ConnectFailed th (Some c) => Some (th, c)
  | _ => None
  end.

(** Thread [th] can use [c]: it is cached for the thread, or a call of the thread
    works on it or returned it. *)
Definition disk_uses (s : DiskConns) (ts : list DiskTask) (th c : nat) : Prop :=
  (∃ g, dc_local s !! (g, th) = Some c) ∨ ∃ t, t ∈ ts ∧ disk_conn t = Some (th, c).

Definition disk_private (s : DiskConns) (ts : list DiskTask) : Prop :=
  (∀ th c, disk_uses s ts th c → c < h_next (dc_handles s)) ∧
  ∀ th th' c, disk_uses s ts th c → disk_uses s ts th' c → th = th'.

Ltac keep_uses := intros th c [?|(t&[->|?]&Ht)]; cbn in *; simplify_eq; eauto 10.

(** A step lets a thread use a new connection, or no other than before. *)
Lemma disk_uses_step ok s t s' t' ts :
  disk_step ok s t = Some (s', t') →
  h_next (dc_handles s') = h_next (dc_handles s) ∧
    (∀ th c, disk_uses s' (t' :: ts) th c → disk_uses s (t :: ts) th c) ∨
  ∃ th0, h_next (dc_handles s') = S (h_next (dc_handles s)) ∧
    ∀ th c, disk_uses s' (t' :: ts) th c →
      disk_uses s (t :: ts) th c ∨ th = th0 ∧ c = h_next (dc_handles s).
Proof.
  unfold disk_step, disk_uses. intros Hs. setoid_rewrite elem_of_cons.
  destruct t as [th0|th0|th0 c0|th0 c0|th0 c0|th0 c0|th0 o| |conns i|conns i|]; cbn in Hs; try done.
  - left. destruct (dc_local s !! (dc_gen s, th0)) as [c0|] eqn:E; simplify_eq; (split; [done|keep_uses]).
  - destruct ok; simplify_eq; [right; exists th0|left]; (split; [done|keep_uses]).
  - left. destruct ok; simplify_eq; (split; [done|keep_uses]).
  - left. simplify_eq. split; [done|]. cbn. intros th c [[g Hg]|(t&[->|?]&Ht)]; cbn in *; simplify_eq; eauto 10.
    destruct (decide ((dc_gen s, th0) = (g, th))) as [[= <- <-]|Hne].
    + rewrite lookup_insert_eq in Hg. simplify_eq. eauto 10.
    + rewrite lookup_insert_ne in Hg by done. eauto.
  - left. simplify_eq. split; [done|keep_uses].
  - left. simplify_eq. split; [done|keep_uses].
  - left. destruct (conns !! i), ok; simplify_eq; (split; [done|keep_uses]).
Qed.

Lemma disk_private_step ok s t s' t' ts :
  disk_step ok s t = Some (s', t') → disk_private s (t :: ts) → disk_private s' (t' :: ts).
Proof.
  intros Hs [Hlt Hone].
  destruct (disk_uses_step _ _ _ _ _ ts Hs) as [[Hn Hu]|(th0&Hn&Hu)]; rewrite ?Hn; split; rewrite ?Hn.
  - eauto.
  - eauto.
  - intros th c [H%Hlt|[_ ->]]%Hu; lia.
  - intros th th' c [H1|[-> ->]]%Hu [H2|[H3 H4]]%Hu; subst; [by eauto| | |done].
    + apply Hlt in H1. lia.
    + apply Hlt in H2. lia.
Qed.

(** ** What a thread finds in its cache *)

(** The connections a call of [close] has closed. *)
Definition disk_closed (t : DiskTask) : list nat :=
  match t with Closing conns i | CloseFailed conns i => take i conns | _ => [] end.

Definition disk_cached (s : DiskConns) (ts : list DiskTask) : Prop :=
  (∀ g th, dc_gen s < g → dc_local s !! (g, th) = None) ∧
  ∀ th c, dc_local s !! (dc_gen s, th) = Some c →
    c ∈ dc_conns s ++ (ts ≫= λ t, disk_held t ++ disk_closed t).

Lemma disk_cached_step ok s t s' t' ts :
  disk_step ok s t = Some (s', t') → disk_cached s (t :: ts) → disk_cached s' (t' :: ts).
Proof.
  unfold disk_cached, disk_step. rewrite !bind_cons. intros Hs [Hnew Hc].
  destruct t as [th0|th0|th0 c0|th0 c0|th0 c0|th0 c0|th0 o| |conns i|conns i|]; cbn in Hs; try done.
  - destruct (dc_local s !! (dc_gen s, th0)); by simplify_eq.
  - destruct ok; simplify_eq; [|done]. split; [done|]. intros th c H%Hc. cbn in *. set_solver.
  - destruct ok; by simplify_eq.
  - simplify_eq. cbn in *. split.
    + intros g th Hg. rewrite lookup_insert_ne by (intros [= <- <-]; lia). by apply Hnew.
    + intros th c H. destruct (decide (th0 = th)) as [->|Hne].
      * rewrite lookup_insert_eq in H. simplify_eq. set_solver.
      * rewrite lookup_insert_ne in H by congruence. by apply Hc in H.
  - simplify_eq. cbn in *. split; [done|]. intros th c H%Hc. set_solver.
  - simplify_eq. cbn in *. split; [done|]. intros th c H%Hc. rewrite app_nil_r. set_solver.
  - destruct (conns !! i) as [c1|] eqn:Ei; [destruct ok|]; simplify_eq; cbn in *.
    + split; [done|]. intros th c H%Hc. erewrite drop_S in H by done. erewrite take_S_r by done.
      set_solver.
    + done.
    + split; [intros; apply Hnew; lia|]. intros th c H. by rewrite Hnew in H by lia.
Qed.

(** ** Runs *)

(** What every moment of a run satisfies. *)
Definition disk_sound (s : DiskConns) (ts : list DiskTask) : Prop :=
  disk_account s ts ∧ disk_private s ts ∧ disk_cached s ts.

Lemma disk_private_perm s ts ts' : ts ≡ₚ ts' → disk_private s ts → disk_private s ts'.
Proof.
  intros Hp. unfold disk_private, disk_uses. by setoid_rewrite Hp.
Qed.

Lemma disk_sound_run s ts s' ts' :
  disk_run (s, ts) (s', ts') → disk_sound s ts → disk_sound s' ts'.
Proof.
  intros Hr. refine (steps_invariant disk_step disk_sound _ _ _ _ Hr).
  - intros s1 ts1 ts2 Hp (H1&H2&H3). split_and!; [|by eapply disk_private_perm|].
    + unfold disk_account in *. by rewrite <-Hp.
    + unfold disk_cached in *. by setoid_rewrite <-Hp.
  - intros ok s1 t s2 t' ts1 Hs (?&?&?).
    split_and!; [by eapply disk_account_step|by eapply disk_private_step|by eapply disk_cached_step].
Qed.

Lemma disk_sound_init ts :
  Forall (λ t, disk_called t = true) ts → disk_sound DiskConns_init ts.
Proof.
  intros Hts. split_and!.
  - unfold disk_account. rewrite (bind_called _ disk_called) by (done || by intros []).
    apply owns_none.
  - assert (∀ th c, ¬ disk_uses DiskConns_init ts th c) as Hno.
    { intros th c [[g Hg]|(t&Ht%(proj1 (Forall_forall _ _) Hts)&Hc)]; [done|by destruct t]. }
    split; intros; exfalso; by eapply Hno.
  - by split.
Qed.

(** ** Runs end *)

Definition disk_rank (t : DiskTask) : nat :=
  match t with
  | Connect _ => 6 | Opening _ => 5 | Configuring _ _ => 4 | Caching _ _ => 3 | Listing _ _ => 2
  | Close => 2
  | Closing conns i => 1 + (length conns - i)
  | _ => 0
  end.

Lemma disk_rank_step ok s t s' t' :
  disk_step ok s t = Some (s', t') →
  length (dc_conns s') + disk_rank t' < length (dc_conns s) + disk_rank t.
Proof.
  unfold disk_step. intros Hs.
  destruct t as [th0|th0|th0 c0|th0 c0|th0 c0|th0 c0|th0 o| |conns i|conns i|]; cbn in Hs; try done.
  - destruct (dc_local s !! (dc_gen s, th0)); simplify_eq; cbn; lia.
  - destruct ok; simplify_eq; cbn; lia.
  - destruct ok; simplify_eq; cbn; lia.
  - simplify_eq; cbn; lia.
  - simplify_eq; cbn. rewrite length_app. cbn. lia.
  - simplify_eq; cbn; lia.
  - destruct (conns !! i) eqn:Ei; [apply lookup_lt_Some in Ei|]; try destruct ok; simplify_eq; cbn; lia.
Qed.

Lemma disk_progress s t : disk_step true s t = None → disk_ended t = true.
Proof.
  unfold disk_step. destruct t as [th0| | | | | | | |conns i| |]; cbn; try done.
  - by destruct (dc_local s !! (dc_gen s, th0)).
  - by destruct (conns !! i).
Qed.

Lemma disk_called_rank t : disk_called t = true → disk_rank t ≤ 6.
Proof. destruct t; cbn; (lia || done). Qed.

(** When every call has returned, no handle is left with a call. *)
Definition disk_returned (t : DiskTask) : bool := disk_ended t && negb (disk_failed t).

Lemma returned_nothing ts :
  Forall (λ t, disk_returned t = true) ts →
  ts ≫= disk_held = [] ∧ (ts ≫= λ t, disk_held t ++ disk_closed t) = [].
Proof. intros H. split; apply (bind_called _ disk_returned); try done; by intros []. Qed.

Lemma close_loop conns s ts k i :
  length conns = i + k →
  ∃ s', run_schedule disk_step (replicate (S k) (0, true)) (s, Closing conns i :: ts) =
          (s', Closed :: ts) ∧ dc_conns s' = dc_conns s.
Proof.
  revert s i. induction k as [|k IH]; intros s i Hl; cbn [replicate run_schedule fst snd].
  - cbn. rewrite (lookup_ge_None_2 conns i) by lia. cbn. by eexists.
  - destruct (lookup_lt_is_Some_2 conns i) as [c Hc]; [lia|].
    edestruct (IH (DiskConns_closing c s) (S i)) as (s'&E&Ec); [lia|]. exists s'. split; [|exact Ec].
    rewrite <-E. cbn. by rewrite Hc.
Qed.

(** Two threads connect while a third closes: the first thread's connection is closed
    and still in its cache, the second's is open but was listed too late to be closed. *)
Definition example_calls : list DiskTask := [Connect 1; Connect 2; Close; Connect 1].
Definition example_schedule : list (nat * bool) :=
  ((λ i, (i, true)) <$> [0; 0; 0; 0; 0; 1; 1; 1; 2; 1; 2; 1; 3]).

Example close_overlaps :
  run_schedule disk_step example_schedule (DiskConns_init, example_calls) =
  ({| dc_handles := {| h_open := {[1]}; h_next := 2 |}; dc_conns := [1];
      dc_local := {[(0, 1) := 0; (0, 2) := 1]}; dc_gen := 0 |},
   [Connected 1 0; Connected 2 1; Closing [0] 1; Connected 1 0]).
Proof. vm_compute. reflexivity. Qed.

(** ** What the store promises *)

(** C32: whatever the interleaving of calls to _connect and close by any number of
    threads, and whichever of SQLite's steps fail: every open connection is in the
    store's list, or held by one running (or failed) call, exactly once, so none is
    lost; no connection is ever cached for, opened by or returned to two threads; and
    the connection cached for a thread is open, unless a close that has not finished
    has already closed it. *)
Theorem disk_connections ts0 s ts :
  Forall (λ t, disk_called t = true) ts0 →
  disk_run (DiskConns_init, ts0) (s, ts) →
  dc_conns s ++ (ts ≫= disk_held) ≡ₚ elements (h_open (dc_handles s)) ∧
  (∀ th th' c, disk_uses s ts th c → disk_uses s ts th' c → th = th') ∧
  (∀ th c, dc_local s !! (dc_gen s, th) = Some c →
     c ∈ h_open (dc_handles s) ∨ ∃ t, t ∈ ts ∧ c ∈ disk_closed t).
Proof.
  intros H0 Hr. destruct (disk_sound_run _ _ _ _ Hr) as (Ha&[_ Hp]&[_ Hc]); [by apply disk_sound_init|].
  split; [apply Ha|]. split; [exact Hp|]. intros th c H%Hc.
  rewrite <-(owns_elem _ _ c Ha). rewrite elem_of_app, list_elem_of_bind in *.
  destruct H as [?|(t&[?|?]%elem_of_app&?)]; [by auto| |right; by eauto].
  left. right. by eauto.
Qed.

Lemma disk_connections_witness :
  let '(s, ts) := run_schedule disk_step example_schedule (DiskConns_init, example_calls) in
  dc_conns s ++ (ts ≫= disk_held) ≡ₚ elements (h_open (dc_handles s)) ∧
  (∀ th th' c, disk_uses s ts th c → disk_uses s ts th' c → th = th') ∧
  (∀ th c, dc_local s !! (dc_gen s, th) = Some c →
     c ∈ h_open (dc_handles s) ∨ ∃ t, t ∈ ts ∧ c ∈ disk_closed t).
Proof.
  pose proof (run_schedule_steps disk_step example_schedule (DiskConns_init, example_calls)) as H.
  destruct (run_schedule disk_step example_schedule (DiskConns_init, example_calls)) as [s ts].
  apply (disk_connections example_calls); [|exact H]. unfold example_calls. by repeat constructor.
Defined.

(** X: the calls end. A run takes at most six steps a call, and when no step is left
    every call has returned or raised; if none raised, the open connections are those
    of the store's list, and every cached one is open. *)
Theorem disk_calls_end n ts0 s ts :
  Forall (λ t, disk_called t = true) ts0 →
  nsteps (istep disk_step) n (DiskConns_init, ts0) (s, ts) →
  n ≤ 6 * length ts0 ∧
  ((∀ c, ¬ istep disk_step (s, ts) c) →
   Forall (λ t, disk_ended t = true) ts ∧
   (Forall (λ t, disk_failed t = false) ts →
    dc_conns s ≡ₚ elements (h_open (dc_handles s)) ∧
    ∀ th c, dc_local s !! (dc_gen s, th) = Some c → c ∈ h_open (dc_handles s))).
Proof.
  intros H0 Hn. split.
  { pose proof (steps_bounded disk_step (length ∘ dc_conns) disk_rank _ _ _
      (λ ok s t s' t', disk_rank_step ok s t s' t') Hn) as Hb.
    pose proof (total_rank_bound disk_step (length ∘ dc_conns) disk_rank 6 DiskConns_init ts0) as Hk.
    cbn [compose dc_conns DiskConns_init length] in Hk.
    enough (total_rank (length ∘ dc_conns) disk_rank (DiskConns_init, ts0) ≤ 6 * length ts0) by lia.
    apply Hk. eapply Forall_impl; [exact H0|]. apply disk_called_rank. }
  intros Hstuck. assert (Forall (λ t, disk_ended t = true) ts) as He.
  { eapply Forall_impl; [exact (stuck_tasks disk_step s ts true Hstuck)|]. apply disk_progress. }
  split; [exact He|]. intros Hf.
  assert (Forall (λ t, disk_returned t = true) ts) as Hret.
  { apply Forall_forall. intros t Ht. unfold disk_returned.
    rewrite (proj1 (Forall_forall _ _) He), (proj1 (Forall_forall _ _) Hf) by done. done. }
  destruct (returned_nothing ts Hret) as [E1 E2].
  destruct (disk_sound_run DiskConns_init ts0 s ts) as (Ha&_&[_ Hc]);
    [by eapply rtc_nsteps_2|by apply disk_sound_init|].
  unfold disk_account in Ha. rewrite E1, app_nil_r in Ha. split; [apply Ha|].
  intros th c H%Hc. rewrite E2, app_nil_r in H. by apply (owns_elem _ _ c Ha).
Qed.

(** Close closes every thread's connection. When every call so far has returned, a
    close that no other call overlaps returns with no connection open, and each
    thread's next _connect opens a new one. *)
Theorem disk_close_closes ts0 s ts :
  Forall (λ t, disk_called t = true) ts0 →
  disk_run (DiskConns_init, ts0) (s, ts) →
  Forall (λ t, disk_returned t = true) ts →
  ∃ s', run_schedule disk_step (replicate (2 + length (dc_conns s)) (0, true)) (s, Close :: ts) =
          (s', Closed :: ts) ∧
    h_open (dc_handles s') = ∅ ∧ dc_conns s' = [] ∧
    ∀ th, disk_step true s' (Connect th) = Some (s', Opening th).
Proof.
  intros H0 Hr Hret. destruct (returned_nothing ts Hret) as [E1 E2].
  pose proof (disk_sound_run _ _ _ _ Hr (disk_sound_init _ H0)) as Hs.
  assert (disk_sound s (Close :: ts)) as Hs'.
  { destruct Hs as (Ha&Hp&Hc). split_and!; [exact Ha| |exact Hc].
    unfold disk_private, disk_uses in *. destruct Hp as [Hlt Hone].
    setoid_rewrite elem_of_cons. split.
    - intros th c [?|(t&[->|?]&?)]; [by eauto|done|by eauto].
    - intros th th' c [?|(t&[->|?]&?)] [?|(t'&[->|?]&?)]; try done; apply (Hone th th' c); eauto. }
  set (s1 := {| dc_handles := dc_handles s; dc_conns := []; dc_local := dc_local s; dc_gen := dc_gen s |}).
  destruct (close_loop (dc_conns s) s1 ts (length (dc_conns s)) 0 eq_refl) as (s'&E&Ec).
  exists s'. assert (run_schedule disk_step (replicate (2 + length (dc_conns s)) (0, true)) (s, Close :: ts) =
          (s', Closed :: ts)) as Erun by exact E.
  split; [exact Erun|].
  pose proof (run_schedule_steps disk_step (replicate (2 + length (dc_conns s)) (0, true)) (s, Close :: ts)) as Hr'.
  rewrite Erun in Hr'. destruct (disk_sound_run _ _ _ _ Hr' Hs') as (Ha&_&[_ Hc]).
  unfold disk_account in Ha. rewrite bind_cons in Ha, Hc. rewrite E1 in Ha. rewrite E2, Ec in Hc. rewrite Ec in Ha.
  split_and!; [|done|].
  - apply leibniz_equiv, elements_empty_inv, Permutation_nil. by destruct Ha.
  - intros th. unfold disk_step. cbn. destruct (dc_local s' !! (dc_gen s', th)) eqn:El; [|done].
    by apply Hc, elem_of_nil in El.
Qed.

Lemma disk_close_closes_witness :
  let '(s, ts) := run_schedule disk_step ((λ i, (i, true)) <$> [0; 1; 1; 1; 1; 1; 0; 0; 0; 0])
                    (DiskConns_init, [Connect 1; Connect 2]) in
  ts = [Connected 1 1; Connected 2 0] ∧
  ∃ s', run_schedule disk_step (replicate (2 + length (dc_conns s)) (0, true)) (s, Close :: ts) =
          (s', Closed :: ts) ∧
    h_open (dc_handles s') = ∅ ∧ dc_conns s' = [] ∧
    ∀ th, disk_step true s' (Connect th) = Some (s', Opening th).
Proof.
  set (sch := (λ i, (i, true)) <$> [0; 1; 1; 1; 1; 1; 0; 0; 0; 0]).
  pose proof (run_schedule_steps disk_step sch (DiskConns_init, [Connect 1; Connect 2])) as H.
  destruct (run_schedule disk_step sch (DiskConns_init, [Connect 1; Connect 2])) as [s ts] eqn:E.
  assert (ts = [Connected 1 1; Connected 2 0]) as ->
    by (apply (f_equal snd) in E; vm_compute in E; by symmetry).
  split; [done|]. apply (disk_close_closes [Connect 1; Connect 2]); [by repeat constructor|exact H|].
  by repeat constructor.
Defined.
