(* ===== verification/SaverMeasure.v ===== *)
(** * The LangGraph checkpointer: instrumentation is transparent

    [put], [put_writes] and [get_tuple] run their [_impl] inside [_measure] when a
    metrics sink or a tracer is set. A computation is [quiet] when it neither
    looks at the instruments nor touches them; every [_impl] is, so measuring one
    changes neither its outcome nor its effect. *)

From S2P Require Import Prelude PyValue Store Saver SaverOps SaverRead.

Section quiet.
Context {S : Type} `{ops : !StoreOps S} `{lg : !LangGraph}.
Implicit Types s : Saver S.

Definition quiet {A : Type} (x : PyM (Saver S) A) : Prop :=
  ∀ s me tr, x (set_instruments me tr s) =
    (let '(r, s') := x s in (r, set_instruments me tr s')).

Lemma quiet_ret {A : Type} (a : A) : quiet (mret a).
Proof. done. Qed.
Lemma quiet_lift {A : Type} (r : result A) : quiet (lift r).
Proof. done. Qed.
Lemma quiet_raise {A : Type} e : quiet (A:=A) (raise e).
Proof. done. Qed.
Lemma quiet_out_of_fuel {A : Type} : quiet (A:=A) out_of_fuel.
Proof. done. Qed.
Lemma quiet_bind {A B : Type} (x : PyM (Saver S) A) (f : A → PyM (Saver S) B) :
  quiet x → (∀ a, quiet (f a)) → quiet (x ≫= f).
Proof.
  intros Hx Hf s me tr. unfold mbind, pym_bind. rewrite Hx.
  destruct (x s) as [[a|e|] s']; [apply Hf|done..].
Qed.
Lemma quiet_gets {A : Type} (f : Saver S → A) :
  (∀ s me tr, f (set_instruments me tr s) = f s) → quiet (gets f).
Proof. intros Hf s me tr. unfold gets. by rewrite Hf. Qed.
Lemma quiet_modify (f : Saver S → Saver S) :
  (∀ s me tr, f (set_instruments me tr s) = set_instruments me tr (f s)) → quiet (modify f).
Proof. intros Hf s me tr. unfold modify. by rewrite Hf. Qed.
Lemma quiet_on_store {A : Type} (x : PyM S A) : quiet (on_store x).
Proof. intros s me tr. unfold on_store. cbn. by destruct (x (store s)). Qed.
Lemma quiet_catch {A : Type} e (x h : PyM (Saver S) A) : quiet x → quiet h → quiet (catch e x h).
Proof.
  intros Hx Hh s me tr. unfold catch. rewrite Hx. destruct (x s) as [[a|e'|] s']; try done.
  case_decide; [apply Hh|done].
Qed.
Lemma quiet_for_each {A : Type} (l : list A) (body : A → PyM (Saver S) unit) :
  (∀ a, quiet (body a)) → quiet (for_each l body).
Proof.
  intros Hb. induction l as [|a l IH]; [done|]. cbn [for_each].
  apply quiet_bind; [apply Hb|]. by intros [].
Qed.
Lemma quiet_for_fold {A B : Type} (l : list A) (body : B → A → PyM (Saver S) B) b :
  (∀ b a, quiet (body b a)) → quiet (for_fold l body b).
Proof.
  intros Hb. revert b. induction l as [|a l IH]; intros b; [done|]. cbn [for_fold].
  apply quiet_bind; [apply Hb|]. intros. apply IH.
Qed.
Lemma quiet_mapM {A B : Type} (f : A → PyM (Saver S) B) (l : list A) :
  (∀ a, quiet (f a)) → quiet (mapM f l).
Proof.
  intros Hb. induction l as [|a l IH]; [done|]. cbn [mapM].
  apply quiet_bind; [apply Hb|]. intros. apply quiet_bind; [done|]. intros. apply quiet_ret.
Qed.
End quiet.

Create HintDb quiet discriminated.
#[export] Hint Resolve quiet_ret quiet_lift quiet_raise quiet_out_of_fuel quiet_on_store : quiet.

(** Goes down the structure of a computation, splitting its branches. *)
Ltac quiet_step :=
  match goal with
  | |- quiet (_ ≫= _) => apply quiet_bind; [|intros]
  | |- quiet (gets _) => apply quiet_gets; done
  | |- quiet (modify _) => apply quiet_modify; done
  | |- quiet (catch _ _ _) => apply quiet_catch
  | |- quiet (for_each _ _) => apply quiet_for_each; intros
  | |- quiet (for_fold _ _ _) => apply quiet_for_fold; intros
  | |- quiet (mapM _ _) => apply quiet_mapM; intros
  | |- quiet _ => solve [auto with quiet]
  | |- quiet (match ?x with _ => _ end) => destruct x
  end.
Ltac solve_quiet := repeat quiet_step.

Section quiet_ops.
Context {S : Type} `{ops : !StoreOps S} `{lg : !LangGraph}.
Implicit Types s : Saver S.

Lemma quiet_get_many ns ks : quiet (S:=S) (get_many ns ks).
Proof. unfold get_many. solve_quiet. Qed.
Lemma quiet_set_many items : quiet (S:=S) (set_many items).
Proof. unfold set_many. solve_quiet. Qed.
Lemma quiet_delete_many pairs : quiet (S:=S) (delete_many pairs).
Proof. unfold delete_many. solve_quiet. Qed.
#[local] Hint Resolve quiet_get_many quiet_set_many quiet_delete_many : quiet.
Lemma quiet_delete_namespace ns : quiet (S:=S) (delete_namespace ns).
Proof. unfold delete_namespace. solve_quiet. Qed.
Lemma quiet_channel_values t c saved chs : quiet (S:=S) (channel_values t c saved chs).
Proof. unfold channel_values. solve_quiet. Qed.
#[local] Hint Resolve quiet_delete_namespace quiet_channel_values : quiet.
Lemma quiet_build_tuple t c i saved md : quiet (S:=S) (build_tuple t c i saved md).
Proof. unfold build_tuple. solve_quiet. Qed.
Lemma quiet_delta_walk fuel t c cursor missing records needed :
  quiet (S:=S) (delta_walk fuel t c cursor missing records needed).
Proof.
  revert cursor missing records needed.
  induction fuel as [|fuel IH]; intros; cbn [delta_walk]; solve_quiet.
Qed.
#[local] Hint Resolve quiet_build_tuple quiet_delta_walk : quiet.
Lemma quiet_delta_ancestors fuel t c survivors records :
  quiet (S:=S) (delta_ancestors fuel t c survivors records).
Proof. unfold delta_ancestors. solve_quiet. Qed.
Lemma quiet_referenced_blobs t c ids records : quiet (S:=S) (referenced_blobs t c ids records).
Proof. unfold referenced_blobs. solve_quiet. Qed.
#[local] Hint Resolve quiet_delta_ancestors quiet_referenced_blobs : quiet.
Lemma quiet_drop_checkpoints t c doomed kept records :
  quiet (S:=S) (drop_checkpoints t c doomed kept records).
Proof. unfold drop_checkpoints. solve_quiet. Qed.
#[local] Hint Resolve quiet_drop_checkpoints : quiet.
Lemma quiet_trim fuel t c ids keep : quiet (S:=S) (trim fuel t c ids keep).
Proof. unfold trim. solve_quiet. Qed.
#[local] Hint Resolve quiet_trim : quiet.
Lemma quiet_prune_thread fuel t c : quiet (S:=S) (prune_thread fuel t c).
Proof. unfold prune_thread. solve_quiet. Qed.
Lemma quiet_put_rows config checkpoint metadata nv :
  quiet (S:=S) (put_rows config checkpoint metadata nv).
Proof. unfold put_rows. solve_quiet. Qed.
Lemma quiet_resolve config : quiet (S:=S) (resolve config).
Proof. unfold resolve. solve_quiet. Qed.
#[local] Hint Resolve quiet_prune_thread quiet_put_rows quiet_resolve : quiet.
Lemma quiet_put_impl fuel config checkpoint metadata nv :
  quiet (S:=S) (put_impl fuel config checkpoint metadata nv).
Proof. unfold put_impl. solve_quiet. Qed.
Lemma quiet_put_writes_impl config writes task_id task_path :
  quiet (S:=S) (put_writes_impl config writes task_id task_path).
Proof. unfold put_writes_impl. solve_quiet. Qed.
Lemma quiet_get_tuple_impl config : quiet (S:=S) (get_tuple_impl config).
Proof. unfold get_tuple_impl. solve_quiet. Qed.
End quiet_ops.
#[export] Hint Resolve quiet_put_impl quiet_put_writes_impl quiet_get_tuple_impl : quiet.

(** ** What measuring records *)

Definition span_of {A : Type} (op : pystr) (attrs : list (pystr * pyval)) (r : result A)
    : list SpanEvent :=
  [SpanStart (lit "swarmstate.checkpoint." ++ op)] ++
  ((λ a, SpanAttribute (lit "swarmstate." ++ a.1) a.2) <$>
     filter (λ a, is_none a.2 = false) attrs) ++
  (match r with Raise e => [SpanError e] | _ => [] end) ++ [SpanEnd].

(** The state after a measured call that ended with [r] in [s1], from [s]. *)
Definition recorded {S A : Type} (op thread_id : pystr) (attrs : list (pystr * pyval))
    (r : result A) (s s1 : Saver S) : Saver S :=
  set_instruments
    ((λ l, l ++ [{| me_op := op; me_thread_id := thread_id; me_ok := is_ok r |}]) <$> metrics s)
    ((λ l, l ++ span_of op attrs r) <$> tracer s) s1.

Section measured.
Context {S : Type} `{ops : !StoreOps S} `{lg : !LangGraph}.
Implicit Types s : Saver S.

Lemma set_instruments_id s : set_instruments (metrics s) (tracer s) s = s.
Proof. by destruct s. Qed.

Lemma set_instruments_twice me tr me' tr' s :
  set_instruments me tr (set_instruments me' tr' s) = set_instruments me tr s.
Proof. done. Qed.

Lemma quiet_keeps {A : Type} (x : PyM (Saver S) A) s r s' :
  quiet x → x s = (r, s') → metrics s' = metrics s ∧ tracer s' = tracer s.
Proof.
  intros Hx E. pose proof (Hx s (metrics s) (tracer s)) as H.
  rewrite set_instruments_id, E in H. injection H as ->. done.
Qed.

Lemma attributes_run attrs s :
  for_each attrs (λ a,
    when (negb (is_none a.2)) (span_event (SpanAttribute (lit "swarmstate." ++ a.1) a.2))) s =
  (Ok tt, set_instruments (metrics s)
     ((λ l, l ++ ((λ a, SpanAttribute (lit "swarmstate." ++ a.1) a.2) <$>
                    filter (λ a, is_none a.2 = false) attrs)) <$> tracer s) s).
Proof.
  revert s. induction attrs as [|a attrs IH]; intros s; cbn [for_each].
  - destruct s as [? ? ? ? [l|]]; cbn; [by rewrite app_nil_r|done].
  - rewrite filter_cons. unfold mbind, pym_bind. destruct (is_none a.2); cbn [negb when].
    + rewrite decide_False by done. apply IH.
    + rewrite decide_True by done. unfold span_event, modify at 1. rewrite IH.
      cbn. destruct (tracer s); cbn; [|done]. by rewrite <-app_assoc.
Qed.

Lemma measured_run {A : Type} op thread_id attrs (fn : PyM (Saver S) A) s r s1 :
  quiet fn → fn s = (r, s1) →
  measured op thread_id attrs fn s = (r, recorded op thread_id attrs r s s1).
Proof.
  intros Hq E. unfold measured, recorded, span_of. unfold mbind at 1, pym_bind at 1.
  unfold span_event at 1, modify at 1. unfold mbind at 1, pym_bind at 1.
  rewrite attributes_run. cbn [metrics tracer set_instruments]. unfold act.
  rewrite set_instruments_twice, Hq, E. clear E.
  destruct r as [a|e|], (metrics s), (tracer s); cbn; rewrite <-?app_assoc; done.
Qed.

(** Without instruments nothing is recorded. *)
Lemma unmeasured_run {A : Type} op thread_id attrs (fn : PyM (Saver S) A) s r s1 :
  quiet fn → metrics s = None → tracer s = None → fn s = (r, s1) →
  s1 = recorded op thread_id attrs r s s1.
Proof.
  intros Hq Hm Ht E. destruct (quiet_keeps _ _ _ _ Hq E) as [Hm1 Ht1].
  unfold recorded. rewrite Hm, Ht. cbn. rewrite Hm in Hm1. rewrite Ht in Ht1.
  rewrite <-Hm1, <-Ht1 at 1. by rewrite set_instruments_id.
Qed.

Lemma get_tuple_run config s r s1 :
  get_tuple_impl config s = (r, s1) →
  get_tuple config s =
    (r, recorded (lit "get_tuple") (cfg_thread_id config) (get_attrs config) r s s1).
Proof.
  intros E. unfold get_tuple, uninstrumented, mbind, pym_bind, gets.
  destruct (metrics s) eqn:Em, (tracer s) eqn:Et;
    try (apply measured_run; auto using quiet_get_tuple_impl).
  rewrite E. f_equal. eapply unmeasured_run; eauto using quiet_get_tuple_impl.
Qed.

Lemma put_writes_run config writes task_id task_path s r s1 :
  put_writes_impl config writes task_id task_path s = (r, s1) →
  put_writes config writes task_id task_path s =
    (r, recorded (lit "put_writes") (cfg_thread_id config)
          (writes_attrs config writes task_id) r s s1).
Proof.
  intros E. unfold put_writes, uninstrumented, mbind, pym_bind, gets.
  destruct (metrics s) eqn:Em, (tracer s) eqn:Et;
    try (apply measured_run; auto using quiet_put_writes_impl).
  rewrite E. f_equal. eapply unmeasured_run; eauto using quiet_put_writes_impl.
Qed.

(** The attributes [put] gives its span. *)
Definition put_span_attrs s (config : RunnableConfig) (checkpoint_id : pyval)
    : list (pystr * pyval) :=
  [(lit "thread_id", PStr (cfg_thread_id config));
   (lit "checkpoint_ns", PStr (cfg_ns config));
   (lit "checkpoint_id", checkpoint_id);
   (lit "incremental", PBool (incremental s))].

Lemma put_run fuel config checkpoint metadata nv checkpoint_id s r s1 :
  py_getitem checkpoint (key "id") = Ok checkpoint_id →
  put_impl fuel config checkpoint metadata nv s = (r, s1) →
  put fuel config checkpoint metadata nv s =
    (r, recorded (lit "put") (cfg_thread_id config) (put_span_attrs s config checkpoint_id) r s s1).
Proof.
  intros Hid E. unfold put, uninstrumented, mbind, pym_bind, gets.
  destruct (metrics s) eqn:Em, (tracer s) eqn:Et;
    try (unfold put_attrs, mbind, pym_bind, lift, gets; rewrite Hid;
         apply measured_run; auto using quiet_put_impl).
  rewrite E. f_equal. eapply unmeasured_run; eauto using quiet_put_impl.
Qed.

Lemma quiet_aset_many items : quiet (S:=S) (aset_many items).
Proof. unfold aset_many. solve_quiet. Qed.
#[local] Hint Resolve quiet_aset_many : quiet.

Lemma quiet_aput_writes_impl config writes task_id task_path :
  quiet (S:=S) (aput_writes_impl config writes task_id task_path).
Proof. unfold aput_writes_impl. solve_quiet. Qed.

Lemma aput_writes_run config writes task_id task_path s r s1 :
  native_async s = true →
  aput_writes_impl config writes task_id task_path s = (r, s1) →
  aput_writes config writes task_id task_path s =
    (r, recorded (lit "put_writes") (cfg_thread_id config)
          (writes_attrs config writes task_id) r s s1).
Proof.
  intros Hn E. unfold aput_writes, uninstrumented, mbind, pym_bind, gets. rewrite Hn. cbn [negb].
  destruct (metrics s) eqn:Em, (tracer s) eqn:Et;
    try (apply measured_run; auto using quiet_aput_writes_impl).
  rewrite E. f_equal. eapply unmeasured_run; eauto using quiet_aput_writes_impl.
Qed.
End measured.
