(* ===== verification/ObservabilityTheorems.v ===== *)
(** * The metrics sinks: what a summary says

    The percentiles of a summary, its counts against the calls recorded, and against
    the calls of a checkpointer that reports to the sink. *)

From Stdlib Require Import ZifyBool.
From S2P Require Import Prelude PyValue PyFloat Store Saver SaverOps SaverRead SaverMeasure SaverExample Observability.

(** ** The order of floats *)

Lemma fl_den_pos x : (0 < fl_den x)%Z.
Proof. unfold fl_den. apply Z.pow_pos_nonneg; lia. Qed.

#[export] Instance fl_le_total : Total fl_le.
Proof. intros x y. unfold fl_le, fl_leb. lia. Qed.

#[export] Instance fl_le_trans : Transitive fl_le.
Proof.
  intros x y z. unfold fl_le, fl_leb. rewrite !Z.leb_le.
  pose proof (fl_den_pos x). pose proof (fl_den_pos y). pose proof (fl_den_pos z). intros Hxy Hyz.
  apply (Z.mul_le_mono_pos_r _ _ (fl_den y)); [lia|].
  apply (Z.le_trans _ (fl_num y * fl_den x * fl_den z)); nia.
Qed.

Lemma fl_le_refl x : fl_le x x.
Proof. unfold fl_le, fl_leb. lia. Qed.

(** ** Ranks in a sorted list *)

Section ranks.
Context {A : Type} (R : relation A) `{!RelDecision R}.

Lemma StronglySorted_lookup_le (l : list A) i j x y :
  (∀ z, R z z) → StronglySorted R l → i ≤ j → l !! i = Some x → l !! j = Some y → R x y.
Proof.
  intros Hrefl Hs. revert i j. induction Hs as [|z l Hs IH Hz]; intros [|i] [|j] Hij Hx Hy; cbn in *; simplify_eq.
  - done.
  - rewrite Forall_lookup in Hz. by eapply Hz.
  - lia.
  - by apply (IH i j); [lia|..].
Qed.

Lemma length_filter_all (P : A → Prop) `{!∀ x, Decision (P x)} (l : list A) :
  Forall P l → length (filter P l) = length l.
Proof. induction 1; [done|]. rewrite filter_cons_True by done. cbn. congruence. Qed.

(** At index [i] of a sorted list, [i + 1] elements are not above and [n - i] not below. *)
Lemma sorted_rank (l : list A) i x :
  (∀ z, R z z) → StronglySorted R l → l !! i = Some x →
  S i ≤ length (filter (λ y, R y x) l) ∧ length l - i ≤ length (filter (λ y, R x y) l).
Proof.
  intros Hr Hs Hi. pose proof (lookup_lt_Some _ _ _ Hi) as Hlt. split.
  - rewrite <-(take_drop (S i) l) at 1. rewrite filter_app, length_app, (length_filter_all _ (take (S i) l)).
    { rewrite length_take. lia. }
    apply Forall_lookup. intros j y [Hj Hy]%lookup_take_Some.
    apply (StronglySorted_lookup_le l j i); [done|done|lia|done|done].
  - rewrite <-(take_drop i l) at 2. rewrite filter_app, length_app, (length_filter_all _ (drop i l)).
    { rewrite length_drop. lia. }
    apply Forall_lookup. intros j y Hy. rewrite lookup_drop in Hy.
    eapply (StronglySorted_lookup_le l i (i + j)); [done|done|lia|done|done].
Qed.
End ranks.

(** ** [round(0.99 * n)] *)

(** The float [0.99], in units of [2^-53]. *)
Definition m099 : Z := Eval vm_compute in (fl_nearest 99 100).1.

Lemma fl_099 : fl_nearest 99 100 = (m099, -53)%Z.
Proof. reflexivity. Qed.

Lemma ratio_ulp_le a n : (0 < a)%Z → (0 < n)%Z →
  (ratio_ulp a n <= Z.max (Z.log2 a - Z.log2 n - 52) (-1074))%Z.
Proof. intros. unfold ratio_ulp. repeat case_match; lia. Qed.

(** Rounding to a float with an ulp of at most [2^-12], then to an integer. *)
Lemma fl_round_nearest a n :
  (0 < a)%Z → (0 < n)%Z → (Z.log2 a - Z.log2 n <= 40)%Z →
  (2 ^ 13 * Z.abs (n * fl_round (fl_nearest a n) - a) <= (2 ^ 12 + 1) * n)%Z.
Proof.
  intros Ha Hn Hl. unfold fl_nearest. destruct (Z.eqb_spec a 0); [lia|]. cbv zeta.
  pose proof (ratio_ulp_le a n Ha Hn) as He. revert He. generalize (ratio_ulp a n). intros e He.
  assert (e <= -12)%Z as He' by lia. clear He.
  unfold fl_round, fl_num, fl_den, ratio_mantissa. cbn [fst snd].
  destruct (Z.leb_spec 0 e); [lia|].
  rewrite (Z.max_l 0 e), (Z.max_r 0 (- e)) by lia. rewrite Z.pow_0_r, Z.mul_1_r.
  assert (2 ^ 12 <= 2 ^ (- e))%Z as Hd by (apply Z.pow_le_mono_r; lia).
  revert Hd. generalize (2 ^ (- e))%Z. intros d Hd.
  pose proof (div_even_bounds (a * d) n Hn) as H1. revert H1. generalize (div_even (a * d) n). intros q H1.
  pose proof (div_even_bounds q d ltac:(lia)) as H2. revert H2. generalize (div_even q d). intros r H2.
  assert (2 * d * Z.abs (n * r - a) <= n * (d + 1))%Z as H3 by nia.
  change (2 ^ 12)%Z with 4096%Z in *. change (2 ^ 13)%Z with 8192%Z. nia.
Qed.

Lemma rank99_bounds n : (0 < n < 2 ^ 40)%Z → (99 * n - 51 <= 100 * rank99 n <= 99 * n + 51)%Z.
Proof.
  intros Hn. unfold rank99, fl_mul. rewrite fl_099.
  assert (fl_num (m099, (-53)%Z) = m099) as -> by reflexivity.
  assert (fl_den (m099, (-53)%Z) = (2 ^ 53)%Z) as -> by reflexivity.
  assert (fl_num (fl_of_int n) = n) as -> by (unfold fl_num, fl_of_int; cbn [fst snd]; change (2 ^ Z.max 0 0)%Z with 1%Z; lia).
  assert (fl_den (fl_of_int n) = 1%Z) as -> by reflexivity. rewrite Z.mul_1_r.
  pose proof (fl_round_nearest (m099 * n) (2 ^ 53) ltac:(unfold m099; lia) eq_refl) as H.
  assert (Z.log2 (m099 * n) - Z.log2 (2 ^ 53) <= 40)%Z as Hl.
  { rewrite Z.log2_pow2 by lia. enough (Z.log2 (m099 * n) < 93)%Z by lia.
    apply Z.log2_lt_pow2; unfold m099; lia. }
  specialize (H Hl). revert H. generalize (fl_round (fl_nearest (m099 * n) (2 ^ 53))). intros r H.
  unfold m099 in H. lia.
Qed.

Lemma percentile99_total s :
  s ≠ [] → (Z.of_nat (length s) < 2 ^ 40)%Z →
  ∃ i p, s !! i = Some p ∧ percentile99 s = Ok p ∧ Z.of_nat (S i) = rank99 (Z.of_nat (length s)).
Proof.
  intros Hne Hl. assert (0 < length s) as Hpos by (destruct s; [done|cbn; lia]).
  pose proof (rank99_bounds (Z.of_nat (length s)) ltac:(lia)) as Hr.
  unfold percentile99. cbv zeta. set (n := Z.of_nat (length s)) in *.
  replace (Z.min (n - 1) (Z.max 0 (rank99 n - 1)))%Z with (rank99 n - 1)%Z by lia.
  destruct (lookup_lt_is_Some_2 s (Z.to_nat (rank99 n - 1))) as [p Hp]; [lia|].
  exists (Z.to_nat (rank99 n - 1)), p. rewrite Hp. split; [done|]. split; [done|lia].
Qed.

Lemma sorted_samples ms : StronglySorted fl_le (merge_sort fl_le ms).
Proof. apply (StronglySorted_merge_sort fl_le); apply _. Qed.

(** Ranks do not depend on the order of the samples. *)
Lemma sample_rank ms i p :
  merge_sort fl_le ms !! i = Some p →
  p ∈ ms ∧ S i ≤ length (filter (λ y, fl_le y p) ms) ∧ length ms - i ≤ length (filter (λ y, fl_le p y) ms).
Proof.
  intros Hp. split; [by rewrite <-(merge_sort_Permutation fl_le ms); eapply list_elem_of_lookup_2|].
  rewrite <-(merge_sort_Permutation fl_le ms).
  apply sorted_rank; [apply fl_le_refl|apply sorted_samples|done].
Qed.

(** ** A log of measurements *)

Record Measurement := {
  mt_op : pystr;
  mt_duration : float;
  mt_thread : pystr;
  mt_ok : bool;
}.

Definition record_measurement (m : InMemoryMetrics) (e : Measurement) : InMemoryMetrics :=
  InMemoryMetrics_record (mt_op e) (mt_duration e) (mt_thread e) (mt_ok e) m.
Definition record_all (log : list Measurement) : InMemoryMetrics :=
  foldl record_measurement InMemoryMetrics_init log.

Definition of_op (op : pystr) (log : list Measurement) : list Measurement :=
  filter (λ e, mt_op e = op) log.
Definition failures (log : list Measurement) : list Measurement := filter (λ e, mt_ok e = false) log.
Definition samples_of (log : list Measurement) : list float :=
  (λ e, fl_mul (mt_duration e) (fl_of_int 1000)) <$> log.

Lemma record_all_snoc log e : record_all (log ++ [e]) = record_measurement (record_all log) e.
Proof. unfold record_all. by rewrite foldl_snoc. Qed.

Lemma of_op_snoc op log e :
  of_op op (log ++ [e]) = of_op op log ++ (if decide (mt_op e = op) then [e] else []).
Proof. unfold of_op. rewrite filter_app, filter_cons. by case_decide. Qed.

Lemma record_all_samples log op :
  od_get (im_samples (record_all log)) op =
    match of_op op log with [] => None | mine => Some (samples_of mine) end.
Proof.
  revert op. induction log as [|e log IH] using rev_ind; intros op; [done|].
  rewrite record_all_snoc, of_op_snoc. cbn. rewrite od_get_set.
  destruct (decide (mt_op e = op)) as [->|Hne].
  - rewrite IH. unfold samples_of.
    destruct (of_op op log); cbn; [done|]. by rewrite fmap_app.
  - by rewrite app_nil_r.
Qed.

Lemma record_all_NoDup log : NoDup (im_samples (record_all log)).*1.
Proof.
  induction log as [|e log IH] using rev_ind; [constructor|].
  rewrite record_all_snoc. by apply od_set_NoDup.
Qed.

Lemma record_all_errors log op :
  from_option id 0%Z (od_get (im_errors (record_all log)) op) =
    Z.of_nat (length (failures (of_op op log))).
Proof.
  revert op. induction log as [|e log IH] using rev_ind; intros op; [done|].
  rewrite record_all_snoc, of_op_snoc. unfold failures in *. rewrite filter_app, length_app. cbn [record_measurement InMemoryMetrics_record im_errors].
  destruct (mt_ok e) eqn:Eo.
  - rewrite IH. case_decide; [|cbn; lia]. rewrite filter_cons_False by congruence. cbn. lia.
  - rewrite od_get_set. case_decide; subst.
    + rewrite filter_cons_True by done. cbn. rewrite IH. lia.
    + cbn. rewrite IH. lia.
Qed.

(** The loop of [summary], where every operation has a row. *)
Lemma summary_rows errors (l : list (pystr * list float)) acc (row : list float → pystr → OpSummary) :
  NoDup l.*1 → (∀ op ms, (op, ms) ∈ l → op_summary errors op ms = Ok (row ms op)) →
  ∃ out, foldR l (λ out '(op, ms), r ← op_summary errors op ms; Ok (od_set out op r)) acc = Ok out ∧
    ∀ op, od_get out op =
      match od_get l op with Some ms => Some (row ms op) | None => od_get acc op end.
Proof.
  revert acc. induction l as [|[op ms] l IH]; intros acc Hnd Hrow; cbn; [by eexists|].
  apply NoDup_cons in Hnd as [Hop Hnd]. rewrite Hrow by left. cbn.
  destruct (IH (od_set acc op (row ms op)) Hnd) as (out&E&Hout); [intros; apply Hrow; by right|].
  exists out. split; [exact E|]. intros op'. rewrite Hout, od_get_set.
  destruct (decide (op = op')) as [->|Hne].
  - destruct (od_get l op') eqn:El; [|done]. destruct Hop. apply od_get_Some_keys. by eexists.
  - done.
Qed.

(** *** What a row says of the measurements of its operation *)

Definition row_describes (mine : list Measurement) (row : OpSummary) : Prop :=
  let n := Z.of_nat (length mine) in
  os_count row = n ∧
  os_errors row = Z.of_nat (length (failures mine)) ∧
  (∃ p, p ∈ samples_of mine ∧ os_p99_ms row = fl_round5 p ∧
    (99 * n - 51 <= 100 * Z.of_nat (length (filter (λ y, fl_le y p) (samples_of mine))))%Z ∧
    (n + 49 <= 100 * Z.of_nat (length (filter (λ y, fl_le p y) (samples_of mine))))%Z) ∧
  (Nat.odd (length mine) = true → ∃ q, q ∈ samples_of mine ∧ os_p50_ms row = fl_round5 q ∧
    (n < 2 * Z.of_nat (length (filter (λ y, fl_le y q) (samples_of mine))))%Z ∧
    (n < 2 * Z.of_nat (length (filter (λ y, fl_le q y) (samples_of mine))))%Z).

Lemma op_summary_describes log op :
  of_op op log ≠ [] → (Z.of_nat (length log) < 2 ^ 40)%Z →
  ∃ row, op_summary (im_errors (record_all log)) op (samples_of (of_op op log)) = Ok row ∧
    row_describes (of_op op log) row.
Proof.
  intros Hne Hl. unfold op_summary. set (mine := of_op op log) in *.
  assert (length mine ≤ length log) as Hle by apply length_filter.
  set (s := merge_sort fl_le (samples_of mine)).
  assert (length s = length mine) as Hs.
  { unfold s. rewrite merge_sort_Permutation. apply length_fmap. }
  destruct (percentile99_total s) as (i&p&Hp&->&Hi).
  { intros E. rewrite E in Hs. by destruct mine. }
  { lia. }
  rewrite Hs in *. eexists. split; [reflexivity|]. unfold row_describes. cbv zeta.
  cbn [os_count os_errors os_p99_ms os_p50_ms].
  pose proof (rank99_bounds (Z.of_nat (length mine))) as Hr.
  assert (0 < length mine) as Hpos by (destruct mine; [done|cbn; lia]).
  split_and!; [done|apply record_all_errors| |].
  - destruct (sample_rank _ _ _ Hp) as (?&H1&H2). unfold samples_of in H2 at 1.
    rewrite length_fmap in H2. exists p. split_and!; [done|done|lia|lia].
  - intros Hodd. destruct (lookup_lt_is_Some_2 s (length mine / 2)) as [q Hq].
    { rewrite Hs. apply Nat.div_lt; lia. }
    destruct (sample_rank _ _ _ Hq) as (?&H1&H2). unfold samples_of in H2 at 1.
    rewrite length_fmap in H2. exists q. unfold median. rewrite Hs, Hodd, Hq.
    apply Nat.odd_spec in Hodd as [k Hk]. rewrite Hk in *.
    replace ((2 * k + 1) / 2) with k in * by (apply (Nat.div_unique _ _ _ 1); lia).
    split_and!; [done|done|lia|lia].
Qed.

Lemma log_summary (log : list Measurement) :
  (Z.of_nat (length log) < 2 ^ 40)%Z →
  ∃ out, InMemoryMetrics_summary (record_all log) = Ok out ∧
    ∀ op, match od_get out op with
          | None => of_op op log = []
          | Some row => of_op op log ≠ [] ∧ row_describes (of_op op log) row
          end.
Proof.
  intros Hl.
  set (row ms op := match op_summary (im_errors (record_all log)) op ms with
                    | Ok r => r | _ => {| os_count := 0; os_errors := 0; os_mean_ms := (0, 0)%Z;
                                          os_p50_ms := (0, 0)%Z; os_p99_ms := (0, 0)%Z |} end).
  destruct (summary_rows (im_errors (record_all log)) (im_samples (record_all log)) [] row)
    as (out&E&Hout).
  - apply record_all_NoDup.
  - intros op ms Hin. apply od_get_elem_of in Hin; [|apply record_all_NoDup].
    rewrite record_all_samples in Hin. unfold row.
    destruct (of_op op log) eqn:Eo; [done|]. simplify_eq.
    destruct (op_summary_describes log op) as (r&Er&_); [congruence|done|].
    rewrite Eo in Er. by rewrite Er.
  - exists out. split; [exact E|]. intros op. rewrite Hout, record_all_samples. unfold row.
    destruct (of_op op log) eqn:Eo; [done|]. split; [done|].
    destruct (op_summary_describes log op) as (r&Er&Hr); [congruence|done|].
    rewrite Eo in Er, Hr. by rewrite Er.
Qed.

(** A summary describes what was recorded. After any sequence of records, summary
    returns (it never indexes out of range), with a row for exactly the operations
    recorded; the row counts the operation's records and those that failed; its p99 is
    one of the samples, rounded, and not below 99% of them nor above more than all but
    1%, up to the rounding of the rank; an odd number of samples has its median as p50. *)
Theorem summary_describes (log : list Measurement) :
  (Z.of_nat (length log) < 2 ^ 40)%Z →
  ∃ out, InMemoryMetrics_summary (record_all log) = Ok out ∧
    ∀ op, match od_get out op with
          | None => of_op op log = []
          | Some row => of_op op log ≠ [] ∧ row_describes (of_op op log) row
          end.
Proof. apply log_summary. Qed.

Definition example_log : list Measurement :=
  [{| mt_op := lit "put"; mt_duration := (3, -10)%Z; mt_thread := lit "t"; mt_ok := true |};
   {| mt_op := lit "get_tuple"; mt_duration := (1, -12)%Z; mt_thread := lit "t"; mt_ok := true |};
   {| mt_op := lit "put"; mt_duration := (1, -10)%Z; mt_thread := lit "u"; mt_ok := false |};
   {| mt_op := lit "put"; mt_duration := (5, -11)%Z; mt_thread := lit "t"; mt_ok := true |}].

Example example_log_summary :
  InMemoryMetrics_summary (record_all example_log) =
  Ok [(lit "put", {| os_count := 3; os_errors := 1; os_mean_ms := fl_nearest 211589 (10 ^ 5);
                     os_p50_ms := fl_nearest 244141 (10 ^ 5); os_p99_ms := fl_nearest 292969 (10 ^ 5) |});
      (lit "get_tuple", {| os_count := 1; os_errors := 0; os_mean_ms := fl_nearest 24414 (10 ^ 5);
                           os_p50_ms := fl_nearest 24414 (10 ^ 5); os_p99_ms := fl_nearest 24414 (10 ^ 5) |})].
Proof. vm_compute. reflexivity. Qed.

Lemma summary_describes_witness :
  (Z.of_nat (length example_log) < 2 ^ 40)%Z ∧
  ∃ out, InMemoryMetrics_summary (record_all example_log) = Ok out ∧
    ∀ op, match od_get out op with
          | None => of_op op example_log = []
          | Some row => of_op op example_log ≠ [] ∧ row_describes (of_op op example_log) row
          end.
Proof. split; [reflexivity|]. apply (summary_describes example_log). reflexivity. Defined.

(** ** A checkpointer that reports to a sink *)

Inductive SaverCall :=
  | CallPut (fuel : nat) (config : RunnableConfig) (checkpoint metadata : pyval) (nv : pydict)
  | CallPutWrites (config : RunnableConfig) (writes : list (pystr * pyval)) (task_id task_path : pystr)
  | CallGetTuple (config : RunnableConfig).

Definition call_op (c : SaverCall) : pystr :=
  match c with
  | CallPut _ _ _ _ _ => lit "put"
  | CallPutWrites _ _ _ _ => lit "put_writes"
  | CallGetTuple _ => lit "get_tuple"
  end.
Definition call_thread (c : SaverCall) : pystr :=
  match c with
  | CallPut _ config _ _ _ | CallPutWrites config _ _ _ | CallGetTuple config => cfg_thread_id config
  end.

(** The attributes of a span of [put] read the checkpoint's id before measuring. *)
Definition measurable (c : SaverCall) : Prop :=
  match c with
  | CallPut _ _ checkpoint _ _ => is_ok (py_getitem checkpoint (key "id")) = true
  | _ => True
  end.

Section calls.
Context {S : Type} `{ops : !StoreOps S} `{lg : !LangGraph}.
Implicit Types s : Saver S.

(** Whether the call returned, and the saver after it. *)
Definition run_call (c : SaverCall) (s : Saver S) : bool * Saver S :=
  match c with
  | CallPut fuel config checkpoint metadata nv =>
      let '(r, s') := put fuel config checkpoint metadata nv s in (is_ok r, s')
  | CallPutWrites config writes task_id task_path =>
      let '(r, s') := put_writes config writes task_id task_path s in (is_ok r, s')
  | CallGetTuple config => let '(r, s') := get_tuple config s in (is_ok r, s')
  end.

Fixpoint run_calls (calls : list SaverCall) (s : Saver S) : list bool * Saver S :=
  match calls with
  | [] => ([], s)
  | c :: calls' =>
      let '(ok, s1) := run_call c s in
      let '(oks, s2) := run_calls calls' s1 in (ok :: oks, s2)
  end.

Definition event_of (c : SaverCall) (ok : bool) : MetricEvent :=
  {| me_op := call_op c; me_thread_id := call_thread c; me_ok := ok |}.

(** A call reports itself once. *)
Lemma run_call_event c s :
  measurable c →
  metrics (run_call c s).2 = (λ l, l ++ [event_of c (run_call c s).1]) <$> metrics s.
Proof.
  intros Hm. unfold run_call. destruct c as [fuel config cp md nv|config ws tid tp|config].
  - destruct (put_impl fuel config cp md nv s) as [r s1] eqn:E. cbn in Hm.
    destruct (py_getitem cp (key "id")) as [i| |] eqn:Ei; try done.
    by rewrite (put_run _ _ _ _ _ _ _ _ _ Ei E).
  - destruct (put_writes_impl config ws tid tp s) as [r s1] eqn:E.
    by rewrite (put_writes_run _ _ _ _ _ _ _ E).
  - destruct (get_tuple_impl config s) as [r s1] eqn:E. by rewrite (get_tuple_run _ _ _ _ E).
Qed.

Lemma run_calls_events calls s oks s' l :
  Forall measurable calls → run_calls calls s = (oks, s') → metrics s = Some l →
  length oks = length calls ∧ metrics s' = Some (l ++ zip_with event_of calls oks).
Proof.
  intros Hm. revert s oks l. induction Hm as [|c calls Hc _ IH]; intros s oks l; cbn.
  - intros [= <- <-] ->. by rewrite app_nil_r.
  - pose proof (run_call_event c s Hc) as He. destruct (run_call c s) as [ok s1]. cbn in He.
    destruct (run_calls calls s1) as [oks' s2] eqn:E. intros [= <- <-] Hl. rewrite Hl in He.
    destruct (IH _ _ _ E He) as [IHl ->]. split; [cbn; congruence|].
    cbn. by rewrite <-(assoc_L (++)).
Qed.
End calls.

(** What the sink is told: the events with the time each call took. *)
Definition measurement (e : MetricEvent) (duration : float) : Measurement :=
  {| mt_op := me_op e; mt_duration := duration; mt_thread := me_thread_id e; mt_ok := me_ok e |}.

Lemma of_op_measurements op calls oks durations :
  length oks = length calls → length durations = length calls →
  let mine := of_op op (zip_with measurement (zip_with event_of calls oks) durations) in
  length mine = length (filter (λ c, call_op c = op) calls) ∧
  length (failures mine) = length (filter (λ c, call_op c.1 = op ∧ c.2 = false) (zip calls oks)).
Proof.
  revert oks durations. induction calls as [|c calls IH]; intros [|ok oks] [|d durations];
    cbn [length]; intros Ho Hd; try done.
  destruct (IH oks durations) as [IH1 IH2]; [lia..|]. cbn zeta in *. cbn [zip_with zip].
  unfold of_op, failures in *. rewrite !filter_cons. cbn [mt_op measurement event_of me_op].
  destruct (decide (call_op c = op)) as [Hc|Hc].
  - rewrite filter_cons. cbn [mt_ok measurement me_ok event_of fst snd length]. split; [lia|].
    destruct ok; [rewrite !decide_False by naive_solver; done|].
    rewrite !decide_True by done. cbn [length]. lia.
  - cbn [fst snd]. rewrite decide_False by tauto. done.
Qed.

(** C35: the sink counts the calls of the checkpointer. After any sequence of put,
    put_writes and get_tuple calls on a saver with an empty in-memory sink, on any
    store, its summary has a row for exactly the operations called, with the number of
    calls and of those that raised, each call counted once, failed ones included. *)
Theorem saver_calls_summarised {S : Type} `{ops : !StoreOps S} `{lg : !LangGraph}
    (calls : list SaverCall) (s : Saver S) oks s' (durations : list float) :
  metrics s = Some [] → Forall measurable calls → run_calls calls s = (oks, s') →
  length durations = length calls → (Z.of_nat (length calls) < 2 ^ 40)%Z →
  ∃ events out, metrics s' = Some events ∧
    InMemoryMetrics_summary (record_all (zip_with measurement events durations)) = Ok out ∧
    ∀ op, match od_get out op with
          | None => op ∉ call_op <$> calls
          | Some row =>
              os_count row = Z.of_nat (length (filter (λ c, call_op c = op) calls)) ∧
              os_errors row =
                Z.of_nat (length (filter (λ c, call_op c.1 = op ∧ c.2 = false) (zip calls oks)))
          end.
Proof.
  intros Hs Hm Hr Hd Hl. destruct (run_calls_events _ _ _ _ _ Hm Hr Hs) as [Ho He].
  set (log := zip_with measurement (zip_with event_of calls oks) durations).
  assert (length log = length calls) as Hlog by (unfold log; rewrite !length_zip_with; lia).
  destruct (log_summary log) as (out&E&Hout); [lia|].
  exists (zip_with event_of calls oks), out. split; [exact He|]. split; [exact E|]. intros op.
  destruct (of_op_measurements op calls oks durations Ho Hd) as [H1 H2]. fold log in H1, H2.
  specialize (Hout op). destruct (od_get out op) as [row|].
  - destruct Hout as [_ (Hc&Hf&_)]. by rewrite Hc, Hf, H1, H2.
  - rewrite Hout in H1. intros (c&->&Hc)%list_elem_of_fmap.
    assert (c ∈ filter (λ c', call_op c' = call_op c) calls) as Hin by by apply list_elem_of_filter.
    symmetry in H1. apply nil_length_inv in H1. rewrite H1 in Hin. by apply elem_of_nil in Hin.
Qed.

(** Two puts, a read, and a put_writes that raises for want of a checkpoint id. *)
Definition example_saver_calls : list SaverCall :=
  [CallPut 10 (ex_config None) (PDict [(key "id", key "1")]) ex_metadata [];
   CallPut 10 (ex_config None) (PDict (ex_checkpoint "1")) ex_metadata ex_versions;
   CallGetTuple (ex_config None);
   CallPutWrites (ex_config None) [(lit "a", PInt 1)] (lit "task") []].
Definition observed_saver : Saver kv := set_instruments (Some []) None (ex_saver true None ∅).

Example example_calls_run :
  (run_calls (ops:=full_ops) example_saver_calls observed_saver).1 = [true; true; true; false].
Proof. vm_compute. reflexivity. Qed.

Lemma saver_calls_summarised_witness :
  let '(oks, s') := run_calls (ops:=full_ops) example_saver_calls observed_saver in
  ∃ events out, metrics s' = Some events ∧
    InMemoryMetrics_summary (record_all (zip_with measurement events (replicate 4 (3, -10)%Z))) = Ok out ∧
    ∀ op, match od_get out op with
          | None => op ∉ call_op <$> example_saver_calls
          | Some row =>
              os_count row = Z.of_nat (length (filter (λ c, call_op c = op) example_saver_calls)) ∧
              os_errors row =
                Z.of_nat (length (filter (λ c, call_op c.1 = op ∧ c.2 = false) (zip example_saver_calls oks)))
          end.
Proof.
  destruct (run_calls (ops:=full_ops) example_saver_calls observed_saver) as [oks s'] eqn:E.
  apply (saver_calls_summarised (ops:=full_ops) example_saver_calls observed_saver oks s');
    [reflexivity|unfold example_saver_calls; repeat constructor|exact E|reflexivity|reflexivity].
Defined.

(** OpenTelemetry's counter is told as much: one increment a record. *)
Lemma otel_counts log op ok :
  let sent := foldl (λ sent e,
    OpenTelemetryMetrics_record (mt_op e) (mt_duration e) (mt_thread e) (mt_ok e) sent) [] log in
  sum_list_with (λ ev, match ev with
    | OpsAdd n [(_, PStr o); (_, PBool b)] => if decide (o = op ∧ b = ok) then Z.to_nat n else 0
    | _ => 0
    end) sent =
  length (filter (λ e, mt_op e = op ∧ mt_ok e = ok) log).
Proof.
  cbv zeta. induction log as [|e log IH] using rev_ind; [done|].
  rewrite foldl_snoc, filter_app, length_app, filter_cons, filter_nil.
  unfold OpenTelemetryMetrics_record at 1. rewrite sum_list_with_app, IH. cbn -[decide].
  by destruct (decide (mt_op e = op ∧ mt_ok e = ok)).
Qed.
