(* ===== verification/SaverTheorems.v ===== *)
(** * The LangGraph checkpointer: writing and reading back

    The theorems about [put], [put_writes] and [get_tuple], each with an example
    that runs it. *)

From S2P Require Import Prelude PyValue Store Saver SaverOps SaverRead.
From S2P Require Import SaverLemmas SaverSpec SaverPut SaverMeasure SaverExample.

Section lemmas.
Context {S : Type} `{ops : !StoreOps S} `{spec : !StoreSpec S}.
Context `{lg : !LangGraph} `{lgspec : !LangGraphSpec}.
Implicit Types (s : Saver S) (t c i : pystr) (m : kv).

(** A state reached from [s], with the store at [m]: hints and instruments may
    differ. *)
Definition same_setup s s' : Prop :=
  incremental s' = incremental s ∧ store_indexes_max_key s' = store_indexes_max_key s ∧
  max_checkpoints_per_thread s' = max_checkpoints_per_thread s.

Lemma wp_get_tuple config s (Q : option CheckpointTuple → Saver S → Prop) :
  wp (get_tuple_impl config) s (λ r s', ∀ me tr, Q r (set_instruments me tr s')) →
  wp (get_tuple config) s Q.
Proof.
  intros (r&s'&E&HQ)%wp_elim. eapply wp_intro; [by apply get_tuple_run|]. apply HQ.
Qed.

Lemma wp_put fuel config checkpoint metadata nv (i : pyval) s (Q : RunnableConfig → Saver S → Prop) :
  py_getitem checkpoint (key "id") = Ok i →
  wp (put_impl fuel config checkpoint metadata nv) s (λ r s', ∀ me tr, Q r (set_instruments me tr s')) →
  wp (put fuel config checkpoint metadata nv) s Q.
Proof.
  intros Hi (r&s'&E&HQ)%wp_elim. eapply wp_intro; [by eapply put_run|]. apply HQ.
Qed.

Lemma wp_put_writes config writes task_id task_path s (Q : unit → Saver S → Prop) :
  wp (put_writes_impl config writes task_id task_path) s
    (λ r s', ∀ me tr, Q r (set_instruments me tr s')) →
  wp (put_writes config writes task_id task_path) s Q.
Proof.
  intros (r&s'&E&HQ)%wp_elim. eapply wp_intro; [by apply put_writes_run|]. apply HQ.
Qed.

Lemma mk_config_valid t c i :
  valid_text t → valid_text c → valid_text i → valid_config (mk_config t c i).
Proof.
  intros. split_and!; [done..|]. intros j. rewrite get_checkpoint_id_spec. by intros [= <-].
Qed.

(** Reading a stored checkpoint by its id. *)
Lemma get_by_id s t c i saved tup (Q : option CheckpointTuple → Saver S → Prop) :
  sok s → content_ok (incremental s) (sview s) →
  valid_text t → valid_text c → valid_text i → i ≠ [] →
  sview s !! (ckpt_ns t c, i) = Some saved → is_none saved = false →
  view_tuple (sview s) (incremental s) t c i saved PNone = Ok tup →
  (∀ s', sok s' → sview s' = sview s → Q (Some tup) s') →
  wp (get_tuple (mk_config t c i)) s Q.
Proof.
  intros Hs Hm Ht Hc Hi Hne Hsaved Hnone Htup HQ. apply wp_get_tuple.
  destruct (get_tuple_impl_at s (mk_config t c i)) as (s'&E&Hs');
    [done|by apply mk_config_valid|done|].
  assert (truthy_id (get_checkpoint_id (mk_config t c i)) = Some i) as Hid.
  { rewrite get_checkpoint_id_spec. cbn. by destruct i. }
  unfold view_published in Hs'. cbn in Hs'. rewrite Hid in Hs'.
  unfold view_get_tuple, view_resolve in E. rewrite Hid in E.
  cbn [mbind option_bind cfg_thread_id cfg_ns mk_config cfg_checkpoint_ns from_option] in E.
  unfold kv_get in E. cbn [id] in E. rewrite Hsaved in E. cbn [from_option id] in E.
  rewrite Hnone, Htup in E. eapply wp_intro; [exact E|]. intros me tr.
  apply HQ; [by eapply at_view_ok in Hs'|by eapply at_view_view in Hs'].
Qed.

Lemma ck_record_not_none cp md parent : is_none (ck_record cp md parent) = false.
Proof. done. Qed.

(** The writes of a checkpoint are untouched by a put. *)
Lemma put_view_pending m pub t c i record blobs t' c' j chs :
  write_keys_ok m (writes_ns t' c' j) →
  view_pending (put_view m pub t c i record blobs) t' c' j chs = view_pending m t' c' j chs.
Proof.
  intros Hw. unfold view_pending.
  assert (∀ k, put_view m pub t c i record blobs !! (writes_ns t' c' j, k)
               = m !! (writes_ns t' c' j, k)) as Hk.
  { intros k. apply put_view_other; [| |auto with text]; intros Heq%(f_equal fst).
    - by apply (ckpt_ne_writes t c t' c' j).
    - by apply (writes_ne_latest t' c' j). }
  rewrite (sort_write_keys_perm (ref_keys (put_view m pub t c i record blobs) _)
             (ref_keys m (writes_ns t' c' j))).
  - destruct (sort_write_keys _) as [ks| |]; [|done..]. cbn. f_equal. apply list_fmap_ext.
    intros n k _. unfold kv_get. by rewrite Hk.
  - eapply listed_wkeys; [|apply ref_keys_lists]. intros k. rewrite Hk. apply Hw.
  - apply NoDup_Permutation; [apply ref_keys_lists..|]. intros k.
    destruct (ref_keys_lists m (writes_ns t' c' j)) as [_ ->],
      (ref_keys_lists (put_view m pub t c i record blobs) (writes_ns t' c' j)) as [_ ->].
    by rewrite Hk.
Qed.

(** Putting a checkpoint and reading it back, once the tuple is worked out. *)
Lemma put_then_get s fuel config checkpoint metadata nv i tcp tmd blobs stored tup
    (Q : option CheckpointTuple → Saver S → Prop) :
  let t := cfg_thread_id config in
  let c := cfg_ns config in
  let record := ck_record tcp tmd (cfg_checkpoint_id config) in
  sok s → content_ok (incremental s) (sview s) → valid_config config →
  max_checkpoints_per_thread s = None →
  text_ok i = true → i ≠ [] → opt_text_ok (cfg_checkpoint_id config) →
  Forall (λ b, valid_text b.1) blobs →
  (incremental s = true → blob_names_ok record) →
  put_encoded s config checkpoint metadata nv i tcp tmd blobs stored →
  (∀ pub, view_tuple (put_view (sview s) pub t c i record blobs) (incremental s) t c i
            record PNone = Ok tup) →
  (∀ s', sok s' → Q (Some tup) s') →
  wp (config' ← put fuel config checkpoint metadata nv; get_tuple config') s Q.
Proof.
  intros t c record Hs Hm Hconf Hmax Hi Hne Hpar Hb Hbn He Htup HQ.
  eapply wp_bind, wp_put; [by apply (pe_id _ _ _ _ _ _ _ _ _ _ He)|].
  eapply put_impl_wp; try done. intros s1 H1. rewrite Hmax. apply wp_ret. intros me tr.
  pose proof (at_view_ok _ _ _ H1) as Hs1. pose proof (at_view_view _ _ _ H1) as Hv1.
  pose proof (at_view_incremental _ _ _ H1) as Hinc1. cbn in Hinc1.
  eapply (get_by_id (set_instruments me tr s1)).
  - done.
  - change (content_ok (incremental s1) (sview s1)). rewrite Hv1, Hinc1.
    by apply put_view_content.
  - exact (proj1 Hconf).
  - exact (proj1 (proj2 Hconf)).
  - by apply text_ok_valid.
  - done.
  - change (sview (set_instruments me tr s1)) with (sview s1). rewrite Hv1.
    apply put_view_record.
  - done.
  - change (sview (set_instruments me tr s1)) with (sview s1).
    change (incremental (set_instruments me tr s1)) with (incremental s1).
    rewrite Hv1, Hinc1. apply Htup.
  - intros s' Hs' _. by apply HQ.
Qed.

(** *** Values stored apart *)

Lemma blob_row_value values ch row :
  blob_row (PDict values) ch = Ok row →
  match dict_get values ch with
  | Some v => is_value_blob row = Ok true ∧ loads_blob row = Ok v
  | None => is_value_blob row = Ok false
  end.
Proof.
  unfold blob_row. cbn [py_in mbind result_bind]. unfold dict_has, py_getitem.
  destruct (dict_get values ch) as [v|]; cbn [or_raise mbind result_bind].
  - destruct (dumps_typed v) as [[vt vb]| |] eqn:E; cbn [mbind result_bind]; [|done..].
    intros [= <-]. split; [done|]. by apply loads_dumps.
  - by intros [= <-].
Qed.

(** The channel values put together again. *)
Definition regather (values : pydict) (versions : pydict) : pydict :=
  foldl (λ out e, match dict_get values e.1 with
                  | Some v => dict_set out e.1 v
                  | None => out
                  end) [] versions.

Lemma attach_regather checkpoint values versions rows :
  Forall2 (λ e row, blob_row (PDict values) e.1 = Ok row) versions rows →
  attach_values (PDict checkpoint) versions rows =
    Ok (PDict (dict_set checkpoint (key "channel_values") (PDict (regather values versions)))).
Proof.
  intros Hrows. unfold attach_values, regather.
  enough (∀ out, foldR (zip versions rows) (λ values e,
      is_value ← is_value_blob e.2;
      if is_value : bool then v ← loads_blob e.2; Ok (dict_set values e.1.1 v)
      else Ok values) out =
    Ok (foldl (λ out e, match dict_get values e.1 with
                        | Some v => dict_set out e.1 v
                        | None => out
                        end) out versions)) as -> by done.
  induction Hrows as [|e row versions rows Hrow _ IH]; intros out; [done|].
  cbn [zip zip_with foldR foldl fst snd]. apply blob_row_value in Hrow.
  destruct (dict_get values e.1) as [v|].
  - destruct Hrow as [-> ->]. cbn [mbind result_bind]. apply IH.
  - rewrite Hrow. cbn [mbind result_bind]. apply IH.
Qed.

Lemma regather_get values (versions : pydict) (chs : list pystr) ch :
  versions.*1 = PStr <$> chs →
  dict_get (regather values versions) (PStr ch) =
    if decide (ch ∈ chs) then dict_get values (PStr ch) else None.
Proof.
  intros Hchs. unfold regather.
  enough (∀ out, dict_get (foldl (λ out e, match dict_get values e.1 with
                  | Some v => dict_set out e.1 v
                  | None => out
                  end) out versions) (PStr ch) =
    if decide (ch ∈ chs) then from_option Some (dict_get out (PStr ch)) (dict_get values (PStr ch))
    else dict_get out (PStr ch)) as ->.
  { case_decide; [|done]. by destruct (dict_get values (PStr ch)). }
  revert chs Hchs. induction versions as [|[k v] versions IH]; intros [|x chs]; try done.
  intros [= -> Hchs] out. cbn [foldl fst]. rewrite (IH chs Hchs). clear IH.
  destruct (decide (ch ∈ chs)) as [Hin|Hin].
  - rewrite (decide_True _ _ (list_elem_of_further ch x chs Hin)).
    destruct (dict_get values (PStr ch)) as [w|] eqn:E; [done|]. cbn [from_option].
    destruct (dict_get values (PStr x)) as [w|] eqn:Ex; [|done].
    apply dict_get_set_ne. congruence.
  - destruct (decide (ch = x)) as [->|Hne].
    + rewrite decide_True by by left.
      destruct (dict_get values (PStr x)) as [w|]; [|done]. apply dict_get_set_eq.
    + rewrite decide_False by (by rewrite not_elem_of_cons).
      destruct (dict_get values (PStr x)) as [w|]; [|done].
      apply dict_get_set_ne. congruence.
Qed.

(** The blobs of a checkpoint after the put that stored it. *)
Lemma put_view_rows m pub t c i record blobs (values versions : pydict) :
  NoDup blobs.*1 →
  (∀ e b, e ∈ versions →
     (blob_key e.1 e.2, b) ∈ blobs ∨ m !! (blobs_ns t c, blob_key e.1 e.2) = Some b →
     blob_row (PDict values) e.1 = Ok b) →
  (∀ e, e ∈ versions → blob_key e.1 e.2 ∈ blobs.*1 ∨
     is_Some (m !! (blobs_ns t c, blob_key e.1 e.2))) →
  Forall2 (λ e row, blob_row (PDict values) e.1 = Ok row) versions
    (kv_get (put_view m pub t c i record blobs) (blobs_ns t c) <$>
       ((λ e, blob_key e.1 e.2) <$> versions)).
Proof.
  intros Hnd Hone Hstored. rewrite <-list_fmap_compose.
  apply Forall2_same_length_lookup_2; [by rewrite length_fmap|].
  intros j e row He Hrow. rewrite list_lookup_fmap, He in Hrow.
  injection Hrow as <-. unfold compose. apply list_elem_of_lookup_2 in He. unfold kv_get.
  destruct (decide (blob_key e.1 e.2 ∈ blobs.*1)) as [Hin|Hout].
  - apply list_elem_of_fmap in Hin as ([k b]&Hk&Hb). cbn in Hk. subst k.
    pose proof (put_view_blob m pub t c i record blobs _ Hnd Hb) as Hlook. cbn [fst snd] in Hlook.
    rewrite Hlook.
    destruct (m !! (blobs_ns t c, blob_key e.1 e.2)) as [v|] eqn:E; cbn; apply Hone; auto.
  - rewrite put_view_blob_other by done. destruct (Hstored e He) as [?|[v Hv]]; [done|].
    rewrite Hv. cbn. apply Hone; auto.
Qed.

Lemma split_names_valid checkpoint (nv : pydict) stored blobs (l : pydict) :
  Forall (λ e, valid_text (blob_key e.1 e.2)) (l ++ nv) →
  split_checkpoint true checkpoint nv = Ok (stored, blobs) →
  Forall (λ b, valid_text b.1) blobs.
Proof.
  intros [_ Hv]%Forall_app (d&_&_&Hb)%split_incremental.
  induction Hb as [|e b nv' bs [Hk _] _ IH]; [done|].
  apply Forall_cons in Hv as [??]. constructor; [by rewrite Hk|auto].
Qed.

(** *** The latest pointer *)

(** A live pointer is the greatest id; a hint is the pointer. *)
Definition latest_ok s : Prop :=
  store_indexes_max_key s = false → ∀ t c i, SEP ∉ t →
    (sview s !! (LATEST_NS, latest_key t c) = Some (PStr i) →
     is_Some (sview s !! (ckpt_ns t c, i)) →
     ∀ j, is_Some (sview s !! (ckpt_ns t c, j)) → str_le j i) ∧
    (max_seen s !! (t, c) = Some i →
     sview s !! (LATEST_NS, latest_key t c) = Some (PStr i) ∧
     is_Some (sview s !! (ckpt_ns t c, i))).

Lemma latest_ok_change s0 s1 m me tr :
  at_view m s0 s1 →
  (store_indexes_max_key s0 = false → ∀ t c i, SEP ∉ t →
    (m !! (LATEST_NS, latest_key t c) = Some (PStr i) → is_Some (m !! (ckpt_ns t c, i)) →
     ∀ j, is_Some (m !! (ckpt_ns t c, j)) → str_le j i) ∧
    (max_seen s0 !! (t, c) = Some i →
     m !! (LATEST_NS, latest_key t c) = Some (PStr i) ∧ is_Some (m !! (ckpt_ns t c, i)))) →
  latest_ok (set_instruments me tr s1).
Proof.
  intros H1 H Hix t c i Ht. change (sview (set_instruments me tr s1)) with (sview s1).
  change (max_seen (set_instruments me tr s1)) with (max_seen s1).
  rewrite (at_view_view _ _ _ H1), (at_view_max_seen _ _ _ H1). apply H; [|done].
  by rewrite <-(at_view_indexes _ _ _ H1).
Qed.

Lemma bounded_set_eq {V : Type} (h : gmap (pystr * pystr) V) k v : bounded_set h k v !! k = Some v.
Proof. apply lookup_insert_eq. Qed.

Lemma bounded_set_ne {V : Type} (h : gmap (pystr * pystr) V) k v k' w :
  k' ≠ k → bounded_set h k v !! k' = Some w → h !! k' = Some w.
Proof.
  intros Hne. unfold bounded_set. rewrite lookup_insert_ne by done. by case_match.
Qed.

Lemma put_view_records m pub t c i record blobs t' c' j :
  is_Some (put_view m pub t c i record blobs !! (ckpt_ns t' c', j)) ↔
  (ckpt_ns t' c', j) = (ckpt_ns t c, i) ∨ is_Some (m !! (ckpt_ns t' c', j)).
Proof.
  destruct (decide ((ckpt_ns t' c', j) = (ckpt_ns t c, i))) as [Heq|Hne].
  - rewrite Heq, put_view_record. split; [by left|by eexists].
  - rewrite put_view_other; [|done| |auto with text].
    + split; [by right|by intros [|]].
    + intros Heq%(f_equal fst). by apply (ckpt_ne_latest t' c').
Qed.

Lemma put_view_pointers m pub t c i record blobs t' c' :
  SEP ∉ t → SEP ∉ t' →
  put_view m pub t c i record blobs !! (LATEST_NS, latest_key t' c') =
    if decide ((t', c') = (t, c)) then (if pub then Some (PStr i) else m !! (LATEST_NS, latest_key t c))
    else m !! (LATEST_NS, latest_key t' c').
Proof.
  intros Ht Ht'. case_decide as Htc; [injection Htc as -> ->; apply put_view_pointer|].
  apply put_view_other; [| |auto with text].
  - intros Heq%(f_equal fst). by apply (ckpt_ne_latest t c).
  - intros Heq%(f_equal snd). apply latest_key_inj in Heq as [-> ->]; done.
Qed.

Lemma put_latest_ok s t c i record blobs :
  SEP ∉ t → latest_ok s →
  is_Some (max_seen s !! (t, c)) ∨
    (∀ j, is_Some (sview s !! (ckpt_ns t c, j)) → str_le j i) →
  let m' := put_view (sview s) (publishes s t c i) t c i record blobs in
  let s0 := set_max_seen (hints_after s t c i) s in
  store_indexes_max_key s0 = false → ∀ t' c' i', SEP ∉ t' →
    (m' !! (LATEST_NS, latest_key t' c') = Some (PStr i') → is_Some (m' !! (ckpt_ns t' c', i')) →
     ∀ j, is_Some (m' !! (ckpt_ns t' c', j)) → str_le j i') ∧
    (max_seen s0 !! (t', c') = Some i' →
     m' !! (LATEST_NS, latest_key t' c') = Some (PStr i') ∧ is_Some (m' !! (ckpt_ns t' c', i'))).
Proof.
  intros Ht Hl Hnew m' s0 Hix t' c' i' Ht'. subst m' s0.
  change (store_indexes_max_key s = false) in Hix.
  rewrite put_view_pointers by done. cbn [max_seen set_max_seen].
  setoid_rewrite put_view_records. destruct (Hl Hix t' c' i' Ht') as [H1 H2].
  case_decide as Htc.
  - injection Htc as -> ->. unfold hints_after, publishes.
    rewrite Hix. cbn [negb andb].
    destruct (max_seen s !! (t, c)) as [h|] eqn:Eh.
    + destruct (Hl Hix t c h Ht) as [H1h H2h]. destruct (H2h Eh) as [Hp Hlive].
      specialize (H1h Hp Hlive). destruct (str_ltb h i) eqn:Ehi.
      * split; [|rewrite bounded_set_eq; intros [= <-]; auto].
        intros [= <-] _ j [[= ->]|Hj]; [done|].
        apply (transitivity (y:=h)); [by apply H1h|]. by apply str_lt_le.
      * rewrite Hp. split; [|rewrite Eh; intros [= <-]; auto].
        intros [= <-] _ j [[= ->]|Hj]; [|by apply H1h]. apply str_nlt_le. unfold str_lt. congruence.
    + destruct Hnew as [[? ?]|Hnew]; [done|].
      split; [|rewrite bounded_set_eq; intros [= <-]; auto].
      intros [= <-] _ j [[= ->]|Hj]; [done|]. by apply Hnew.
  - assert (∀ j, (ckpt_ns t' c', j) ≠ (ckpt_ns t c, i)) as Hne.
    { intros j Heq%(f_equal fst). apply ckpt_ns_inj in Heq as [-> ->]; done. }
    split.
    + intros Hp [?|Hlive]; [by destruct (Hne i')|]. intros j [?|Hj]; [by destruct (Hne j)|]. by apply H1.
    + intros Hh. destruct H2 as [? ?]; [|auto]. unfold hints_after in Hh.
      destruct (publishes s t c i); [by eapply bounded_set_ne|done].
Qed.

(** Looking the newest up: through a pointer that, if live, names it, or by a scan. *)
Lemma latest_of_pointer m t c :
  pointers_ok m → (∀ j, is_Some (m !! (ckpt_ns t c, j)) → j ≠ []) →
  (∀ i, m !! (LATEST_NS, latest_key t c) = Some (PStr i) → is_Some (m !! (ckpt_ns t c, i)) →
     ∀ j, is_Some (m !! (ckpt_ns t c, j)) → str_le j i) →
  view_latest m false t c = py_max (ref_keys m (ckpt_ns t c)).
Proof.
  intros Hp Hne Hmax. unfold view_latest, kv_get.
  destruct (m !! (LATEST_NS, latest_key t c)) as [v|] eqn:Ep; [|done].
  destruct (Hp _ _ Ep) as [p ->]. destruct p as [|x p]; [done|]. cbn [from_option id].
  destruct (m !! (ckpt_ns t c, x :: p)) as [v|] eqn:Ev; [|done].
  cbn [from_option id]. destruct (is_none v); [done|]. symmetry. apply py_max_Some.
  destruct (ref_keys_lists m (ckpt_ns t c)) as [_ Hk]. split; [apply Hk; by rewrite Ev|].
  intros j [Hj _]%Hk. by apply (Hmax (x :: p)).
Qed.

Lemma latest_of_index m t c :
  (∀ j, is_Some (m !! (ckpt_ns t c, j)) → j ≠ []) →
  view_latest m true t c = py_max (ref_keys m (ckpt_ns t c)).
Proof.
  intros Hne. unfold view_latest. destruct (py_max _) as [i|] eqn:E; [|done].
  apply py_max_ref_keys in E as [Hi _]. apply Hne in Hi. by destruct i.
Qed.

Lemma view_latest_max s t c :
  latest_ok s → SEP ∉ t → pointers_ok (sview s) →
  (∀ j, is_Some (sview s !! (ckpt_ns t c, j)) → j ≠ []) →
  view_latest (sview s) (store_indexes_max_key s) t c = py_max (ref_keys (sview s) (ckpt_ns t c)).
Proof.
  intros Hl Ht Hp Hne. destruct (store_indexes_max_key s) eqn:Eix; [by apply latest_of_index|].
  apply latest_of_pointer; [done..|]. intros i. by destruct (Hl Eix t c i Ht) as [H1 _].
Qed.
End lemmas.

Section theorems.
Context {S : Type} `{ops : !StoreOps S} `{spec : !StoreSpec S}.
Context `{lg : !LangGraph} `{lgspec : !LangGraphSpec}.
Implicit Types (s : Saver S) (t c i : pystr) (m : kv).

(** C4: the checkpoint that [put] stores (whole, not [incremental]) is the one
    [get_tuple] returns for the config that [put] returned: same checkpoint, the
    metadata LangGraph computed, the parent the caller named, and the writes
    that were pending for it. Instruments do not matter. *)
Theorem put_get_tuple s fuel config checkpoint metadata nv i tcp tmd pend :
  let t := cfg_thread_id config in
  let c := cfg_ns config in
  sok s → content_ok false (sview s) → valid_config config →
  incremental s = false → max_checkpoints_per_thread s = None →
  py_getitem checkpoint (key "id") = Ok (PStr i) → text_ok i = true → i ≠ [] →
  opt_text_ok (cfg_checkpoint_id config) →
  dumps_typed checkpoint = Ok tcp →
  dumps_typed (get_checkpoint_metadata config metadata) = Ok tmd →
  view_pending (sview s) t c i None = Ok pend →
  wp (config' ← put fuel config checkpoint metadata nv; get_tuple config') s (λ r _,
    r = Some {| ct_config := mk_config t c i;
                ct_checkpoint := checkpoint;
                ct_metadata := get_checkpoint_metadata config metadata;
                ct_parent_config := mk_config t c <$> truthy_id (cfg_checkpoint_id config);
                ct_pending_writes := pend |}).
Proof.
  intros t c Hs Hm Hconf Hinc Hmax Hid Hi Hne Hpar Hcp Hmd Hpend.
  eapply (put_then_get s fuel config checkpoint metadata nv i tcp tmd [] checkpoint); try done.
  - by rewrite Hinc.
  - by rewrite Hinc.
  - split; [done|by rewrite Hinc|done..].
  - intros pub. rewrite Hinc. unfold view_tuple, view_checkpoint, view_metadata.
    erewrite ck_record_cp by done. cbn [mbind result_bind detached is_none].
    erewrite ck_record_md by done. cbn [mbind result_bind].
    rewrite put_view_pending by apply (content_writes _ _ Hm). fold t c. rewrite Hpend.
    cbn [mbind result_bind]. by rewrite ck_record_parent.
Qed.

(** C5: the same in the [incremental] mode, where each channel value is stored
    once per version: the checkpoint comes back with its [channel_values] put
    together from the blobs, and every channel of [channel_versions] has the
    value it had, those of earlier puts included. It relies on LangGraph's own
    rule that a channel version names one value. *)
Theorem put_get_tuple_incremental s fuel config d values versions metadata nv chs i tcp tmd
    blobs pend :
  let t := cfg_thread_id config in
  let c := cfg_ns config in
  let m := sview s in
  sok s → content_ok true m → valid_config config →
  incremental s = true → max_checkpoints_per_thread s = None →
  dict_get d (key "id") = Some (PStr i) → text_ok i = true → i ≠ [] →
  opt_text_ok (cfg_checkpoint_id config) →
  dict_get d (key "channel_values") = Some (PDict values) →
  NoDup (d.*1) →
  channel_versions (PDict d) = Ok versions →
  versions.*1 = PStr <$> chs →
  NoDup (blobs.*1) →
  Forall (λ e, valid_text (blob_key e.1 e.2)) (versions ++ nv) →
  split_checkpoint true (PDict d) nv =
    Ok (PDict (dict_pop d (key "channel_values")), blobs) →
  (* a version names one value *)
  (∀ e b, e ∈ versions →
     (blob_key e.1 e.2, b) ∈ blobs ∨ m !! (blobs_ns t c, blob_key e.1 e.2) = Some b →
     blob_row (PDict values) e.1 = Ok b) →
  (* a version that is not new is stored *)
  (∀ e, e ∈ versions → blob_key e.1 e.2 ∈ blobs.*1 ∨
     is_Some (m !! (blobs_ns t c, blob_key e.1 e.2))) →
  dumps_typed (PDict (dict_pop d (key "channel_values"))) = Ok tcp →
  dumps_typed (get_checkpoint_metadata config metadata) = Ok tmd →
  view_pending m t c i None = Ok pend →
  wp (config' ← put fuel config (PDict d) metadata nv; get_tuple config') s (λ r _,
    ∃ values',
      r = Some {| ct_config := mk_config t c i;
                  ct_checkpoint := PDict (dict_set (dict_pop d (key "channel_values"))
                                      (key "channel_values") (PDict values'));
                  ct_metadata := get_checkpoint_metadata config metadata;
                  ct_parent_config := mk_config t c <$> truthy_id (cfg_checkpoint_id config);
                  ct_pending_writes := pend |} ∧
      ∀ ch, dict_get values' (PStr ch) =
        if decide (ch ∈ chs) then dict_get values (PStr ch) else None).
Proof.
  intros t c m Hs Hm Hconf Hinc Hmax Hid Hi Hne Hpar Hcv Hnd Hvs Hchs Hndb Hvalid Hsplit
    Hone Hstored Hcp Hmd Hpend.
  set (popped := dict_pop d (key "channel_values")) in *.
  assert (channel_versions (PDict popped) = Ok versions) as Hvs'.
  { unfold channel_versions, py_get_default in *. unfold popped, key.
    by rewrite dict_get_pop_ne by by vm_compute. }
  assert (dict_get popped (key "channel_values") = None) as Hpop by by apply dict_get_pop_eq.
  eapply (put_then_get s fuel config (PDict d) metadata nv i tcp tmd blobs (PDict popped));
    try done.
  - by rewrite Hinc.
  - by eapply split_names_valid.
  - intros _ cp vs Hl Hv. erewrite ck_record_cp in Hl by done. injection Hl as <-.
    rewrite Hvs' in Hv. injection Hv as <-. by apply Forall_app in Hvalid as [? _].
  - split; [by cbn; rewrite Hid|by rewrite Hinc|done..].
  - intros pub. rewrite Hinc. unfold view_tuple, view_checkpoint, view_metadata.
    erewrite (ck_record_cp _ _ _ (PDict popped)) by done.
    cbn [mbind result_bind detached is_none py_in]. unfold dict_has. rewrite Hpop.
    cbn [negb mbind result_bind]. rewrite Hvs'. cbn [mbind result_bind].
    rewrite (attach_regather popped values versions).
    2:{ by eapply put_view_rows. }
    cbn [mbind result_bind].
    erewrite ck_record_md by done. cbn [mbind result_bind].
    rewrite put_view_pending by apply (content_writes _ _ Hm). fold t c. fold m. rewrite Hpend.
    cbn [mbind result_bind]. by rewrite ck_record_parent.
  - intros s' _. eexists. split; [done|]. intros ch. by apply regather_get.
Qed.

(** C6: the latest pointer never lags behind. When it names a stored checkpoint,
    that is the greatest id of its thread and namespace; and a saver's hint is
    always the pointer. [put] keeps this, provided the id is the newest one, or
    the saver already has a hint for the thread: then an older id leaves the
    pointer where it is. *)
Theorem put_keeps_latest s fuel config checkpoint metadata nv i tcp tmd blobs stored :
  let t := cfg_thread_id config in
  let c := cfg_ns config in
  sok s → valid_config config → SEP ∉ t → max_checkpoints_per_thread s = None →
  text_ok i = true → i ≠ [] → opt_text_ok (cfg_checkpoint_id config) →
  Forall (λ b, valid_text b.1) blobs →
  put_encoded s config checkpoint metadata nv i tcp tmd blobs stored →
  latest_ok s →
  is_Some (max_seen s !! (t, c)) ∨
    (∀ j, is_Some (sview s !! (ckpt_ns t c, j)) → str_le j i) →
  wp (put fuel config checkpoint metadata nv) s (λ _ s', latest_ok s').
Proof.
  intros t c Hs Hconf Ht Hmax Hi Hne Hpar Hb He Hl Hnew.
  eapply wp_put; [by apply (pe_id _ _ _ _ _ _ _ _ _ _ He)|].
  eapply put_impl_wp; try done. intros s1 H1. rewrite Hmax. apply wp_ret. intros me tr.
  apply (latest_ok_change (set_max_seen (hints_after s t c i) s) s1 _ me tr H1).
  by apply put_latest_ok.
Qed.

(** Under that invariant, [get_tuple] without an id returns the checkpoint
    with the greatest id (whichever way the store finds it), or nothing when the
    thread has none. *)
Theorem get_tuple_newest s config :
  let t := cfg_thread_id config in
  let c := cfg_ns config in
  let m := sview s in
  let inc := incremental s in
  sok s → content_ok inc m → valid_config config → SEP ∉ t →
  get_checkpoint_id config = None → latest_ok s →
  (∀ j, is_Some (m !! (ckpt_ns t c, j)) → j ≠ []) →
  (∀ j saved, m !! (ckpt_ns t c, j) = Some saved → is_none saved = false) →
  (py_max (ref_keys m (ckpt_ns t c)) = None → wp (get_tuple config) s (λ r _, r = None)) ∧
  (∀ i saved tup,
     py_max (ref_keys m (ckpt_ns t c)) = Some i → m !! (ckpt_ns t c, i) = Some saved →
     view_tuple m inc t c i saved PNone = Ok tup →
     wp (get_tuple config) s (λ r _, r = Some tup)).
Proof.
  intros t c m inc Hs Hm Hconf Ht Hid Hl Hne Hnn.
  destruct (get_tuple_impl_at s config Hs Hconf Hm) as (s'&E&Hs'). fold m inc in E.
  unfold view_get_tuple, view_resolve in E. rewrite Hid in E. fold t c in E. cbn [truthy_id] in E.
  pose proof (view_latest_max s t c Hl Ht (content_pointers _ _ Hm) Hne) as Hlatest.
  fold m in Hlatest. rewrite Hlatest in E.
  split.
  - intros Emax. rewrite Emax in E. cbn [mbind option_bind] in E.
    apply wp_get_tuple. eapply wp_intro; [exact E|]. done.
  - intros i saved tup Emax Hsaved Htup. rewrite Emax in E. cbn [mbind option_bind] in E.
    unfold kv_get in E. rewrite Hsaved in E.
    cbn [from_option id] in E. rewrite (Hnn _ _ Hsaved), Htup in E.
    apply wp_get_tuple. eapply wp_intro; [exact E|]. done.
Qed.
End theorems.


(** ** Examples *)

(** The side conditions of an example, by running them. *)
Ltac run_example := first [vm_compute; reflexivity | done].

Lemma ex_config_valid parent : opt_text_ok parent → valid_config (ex_config parent).
Proof.
  intros H. split_and!; [by apply (bool_decide_unpack _)..|].
  intros i [= E]. cbn in E. rewrite E in H. by apply text_ok_valid.
Qed.

Lemma put_get_tuple_witness :
  wp (config' ← put (ops:=full_ops) 0 (ex_config (Some (lit "c0")))
                  (PDict (ex_checkpoint "c1")) ex_metadata ex_versions;
      get_tuple (ops:=full_ops) config') (ex_saver false None ∅) (λ r _,
    r = Some {| ct_config := mk_config ex_thread [] (lit "c1");
                ct_checkpoint := PDict (ex_checkpoint "c1");
                ct_metadata := ex_metadata;
                ct_parent_config := Some (mk_config ex_thread [] (lit "c0"));
                ct_pending_writes := [] |}).
Proof.
  refine (put_get_tuple (ops:=full_ops) (spec:=ref_spec true true false)
            (ex_saver false None ∅) 0 (ex_config (Some (lit "c0")))
            (PDict (ex_checkpoint "c1")) ex_metadata ex_versions (lit "c1")
            (ex_typed (PDict (ex_checkpoint "c1"))) (ex_typed ex_metadata) []
            kv_ok_empty (content_ok_empty _) (ex_config_valid (Some (lit "c0")) eq_refl) _ _ _ _ _ _ _ _ _).
  all: run_example.
Defined.

(** A saver after one put. *)
Definition ex_record (i : String.string) (parent : option pystr) : pyval :=
  ck_record (ex_typed (PDict (ex_checkpoint i))) (ex_typed ex_metadata) parent.
Definition ex_content : kv := put_view ∅ true ex_thread [] (lit "c1") (ex_record "c1" None) [].
Definition ex_saver1 : Saver kv :=
  set_max_seen {[ (ex_thread, []) := lit "c1" ]} (ex_saver false None ex_content).

Lemma ex_typed_ok v : is_ok (example_dumps v) = true → typed_ok (ex_typed v).
Proof.
  unfold ex_typed. destruct (example_dumps v) eqn:E; [|done..]. intros _.
  by apply (dumps_typed_ok v).
Qed.

Lemma ex_content_sok : kv_ok ex_content.
Proof.
  apply kv_ok_set_many; [apply kv_ok_empty|]. unfold put_items.
  constructor; [|constructor; [|constructor]];
    (split_and!; [by apply (bool_decide_unpack _)..|]).
  - apply storable_ck_record; [apply ex_typed_ok; by vm_compute..|done].
  - by apply storable_str.
Qed.

Lemma ex_content_ok : content_ok false ex_content.
Proof. apply put_view_content; [apply content_ok_empty|by vm_compute|intros [=]]. Qed.

Lemma ex_latest_empty : latest_ok (ops:=full_ops) (spec:=ref_spec true true false) (ex_saver false None ∅).
Proof.
  intros _ t c i _. split; [intros Hv; discriminate Hv|intros Hv; discriminate Hv].
Qed.

Lemma ex_saver1_latest : latest_ok (ops:=full_ops) (spec:=ref_spec true true false) ex_saver1.
Proof.
  pose proof (put_latest_ok (ops:=full_ops) (spec:=ref_spec true true false)
    (ex_saver false None ∅) ex_thread [] (lit "c1") (ex_record "c1" None) []) as H.
  intros Hix. apply H; [by apply (bool_decide_unpack _)|apply ex_latest_empty| |done].
  right. intros j [v Hv]. discriminate Hv.
Qed.

Lemma put_keeps_latest_witness :
  wp (put (ops:=full_ops) 0 (ex_config None) (PDict (ex_checkpoint "c1")) ex_metadata ex_versions)
    (ex_saver false None ∅)
    (λ _ s', latest_ok (ops:=full_ops) (spec:=ref_spec true true false) s').
Proof.
  refine (put_keeps_latest (ops:=full_ops) (spec:=ref_spec true true false)
            (ex_saver false None ∅) 0 (ex_config None)
            (PDict (ex_checkpoint "c1")) ex_metadata ex_versions (lit "c1")
            (ex_typed (PDict (ex_checkpoint "c1"))) (ex_typed ex_metadata) []
            (PDict (ex_checkpoint "c1"))
            kv_ok_empty (ex_config_valid None I) _ _ _ _ _ _ _ ex_latest_empty _).
  - by apply (bool_decide_unpack _).
  - done.
  - done.
  - done.
  - done.
  - constructor.
  - split; run_example.
  - right. intros j [v Hv]. discriminate Hv.
Defined.

Lemma ex_content_c1 j saved :
  ex_content !! (ckpt_ns ex_thread [], j) = Some saved → j = lit "c1" ∧ saved = ex_record "c1" None.
Proof.
  unfold ex_content. destruct (decide ((ckpt_ns ex_thread [], j) = (ckpt_ns ex_thread [], lit "c1"))) as [Heq|Hne].
  - injection Heq as ->. rewrite put_view_record. by intros [= <-].
  - rewrite put_view_other; [by rewrite lookup_empty|done| |by apply (bool_decide_unpack _)].
    intros Heq%(f_equal fst). by apply (ckpt_ne_latest ex_thread []).
Qed.

Lemma get_tuple_newest_witness :
  wp (get_tuple (ops:=full_ops) (ex_config None)) ex_saver1 (λ r _,
    r = Some {| ct_config := mk_config ex_thread [] (lit "c1");
                ct_checkpoint := PDict (ex_checkpoint "c1");
                ct_metadata := ex_metadata;
                ct_parent_config := None;
                ct_pending_writes := [] |}).
Proof.
  refine (proj2 (get_tuple_newest (ops:=full_ops) (spec:=ref_spec true true false) ex_saver1
            (ex_config None) ex_content_sok ex_content_ok (ex_config_valid None I)
            _ eq_refl ex_saver1_latest _ _) (lit "c1") (ex_record "c1" None) _ _ _ _).
  - by apply (bool_decide_unpack _).
  - intros j [v Hv]. by apply ex_content_c1 in Hv as [-> _].
  - intros j v Hv. by apply ex_content_c1 in Hv as [_ ->].
  - vm_compute. reflexivity.
  - vm_compute. reflexivity.
  - vm_compute. reflexivity.
Defined.

Definition ex_blob (v : pyval) : pyval := PList [key "v"; (ex_typed v).1; (ex_typed v).2].
Definition ex_blobs : list (pystr * pyval) :=
  [(lit "a" ++ SEP :: lit "1", ex_blob (PInt 7)); (lit "b" ++ SEP :: lit "2", ex_blob (key "seven"))].
Definition ex_popped : pydict := dict_pop (ex_checkpoint "c1") (key "channel_values").

Lemma put_get_tuple_incremental_witness :
  wp (config' ← put (ops:=bare_ops) 0 (ex_config None)
                  (PDict (ex_checkpoint "c1")) ex_metadata ex_versions;
      get_tuple (ops:=bare_ops) config') (ex_saver true None ∅) (λ r _,
    ∃ values',
      r = Some {| ct_config := mk_config ex_thread [] (lit "c1");
                  ct_checkpoint :=
                    PDict (dict_set ex_popped (key "channel_values") (PDict values'));
                  ct_metadata := ex_metadata; ct_parent_config := None;
                  ct_pending_writes := [] |} ∧
      ∀ ch, dict_get values' (PStr ch) =
        if decide (ch ∈ [lit "a"; lit "b"]) then dict_get ex_values (PStr ch) else None).
Proof.
  refine (put_get_tuple_incremental (ops:=bare_ops) (spec:=ref_spec false false false)
            (ex_saver true None ∅) 0 (ex_config None) (ex_checkpoint "c1") ex_values ex_versions
            ex_metadata ex_versions [lit "a"; lit "b"] (lit "c1")
            (ex_typed (PDict ex_popped)) (ex_typed ex_metadata) ex_blobs []
            kv_ok_empty (content_ok_empty _) (ex_config_valid None I)
            _ _ _ _ _ _ _ _ _ _ _ _ _ _ _ _ _ _).
  all: try lazymatch goal with |- _ = _ => vm_compute; reflexivity end.
  - done.
  - exact I.
  - change (NoDup (PStr <$> [lit "id"; lit "channel_values"; lit "channel_versions"])).
    apply NoDup_fmap_2; [by intros ?? [=]|by apply (bool_decide_unpack _)].
  - repeat (apply NoDup_cons; split; [by apply (bool_decide_unpack _)|]). constructor.
  - repeat (apply Forall_cons; split; [by apply (bool_decide_unpack _)|]). constructor.
  - intros e b He [Hb|Hb]; [|discriminate Hb]. unfold ex_versions in He. unfold ex_blobs in Hb.
    apply elem_of_cons in He as [->|[->|He%not_elem_of_nil]%elem_of_cons]; [| |done];
      (apply elem_of_cons in Hb as [Hb|[Hb|Hb%not_elem_of_nil]%elem_of_cons]; [| |done]);
      pose proof (f_equal fst Hb) as Hk; apply (f_equal snd) in Hb; cbn [snd] in Hb;
      rewrite Hb; vm_compute in Hk; try discriminate Hk; vm_compute; reflexivity.
  - unfold ex_versions. intros e [->|[->|He%not_elem_of_nil]%elem_of_cons]%elem_of_cons;
      [left|left|done]; by apply (bool_decide_unpack _).
Defined.
