(* ===== verification/SaverWrites.v ===== *)
(** * The LangGraph checkpointer: pending writes

    What [put_writes] and its async twin leave in the store, and the order in
    which the writes are read back. *)

From S2P Require Import Prelude PyValue Store Saver SaverOps SaverRead.
From S2P Require Import SaverLemmas SaverSpec SaverPut SaverMeasure SaverTheorems SaverExample.

Section writes.
Context {S : Type} `{ops : !StoreOps S} `{spec : !StoreSpec S}.
Context `{lg : !LangGraph} `{lgspec : !LangGraphSpec}.
Implicit Types (s : Saver S) (t c i ns : pystr) (m : kv).

(** A row as [_write_rows] makes it: key, value, positional. *)
Abbreviation wrow := (pystr * pyval * bool)%type.

(** The rows that go through: a positional one only when its key is free. *)
Definition free_rows m ns (rows : list wrow) : list (pystr * pystr * pyval) :=
  omap (λ r, if r.2 && bool_decide (is_Some (m !! (ns, r.1.1))) then None
             else Some (ns, r.1.1, r.1.2)) rows.

Definition writes_view m ns (rows : list wrow) : kv := kv_set_many (free_rows m ns rows) m.

Definition row_ok (r : wrow) : Prop := valid_text r.1.1 ∧ storable r.1.2.

(** The encoded form of one write. *)
Definition row_of (task_id task_path : pystr) (w : Z * (pystr * pyval)) (r : wrow) : Prop :=
  ∃ tv, dumps_typed w.2.2 = Ok tv ∧
    r = (write_key task_id w.1, write_record task_id w.2.1 task_path tv, (0 <=? w.1)%Z).

Lemma write_rows_inv config writes task_id task_path ns rows :
  write_rows config writes task_id task_path = Ok (ns, rows) →
  ∃ i, cfg_checkpoint_id config = Some i ∧
    ns = writes_ns (cfg_thread_id config) (cfg_ns config) i ∧
    Forall2 (row_of task_id task_path) (indexed_writes writes) rows.
Proof.
  unfold write_rows, required_id. destruct (cfg_checkpoint_id config) as [i|]; [|done].
  cbn [or_raise mbind result_bind].
  destruct (mapM _ _) as [rs| |] eqn:E; cbn [mbind result_bind]; [|done..].
  intros [= <- <-]. exists i. split_and!; [done..|].
  eapply Forall2_impl; [by apply mapM_Ok_Forall2|]. intros [z [ch v]] r.
  destruct (dumps_typed v) as [tv| |] eqn:Ed; cbn [mbind result_bind]; [|done..].
  intros [= <-]. by exists tv.
Qed.

Lemma write_rows_total config writes task_id task_path i :
  cfg_checkpoint_id config = Some i → Forall (λ w, is_ok (dumps_typed w.2) = true) writes →
  ∃ rows, write_rows config writes task_id task_path =
    Ok (writes_ns (cfg_thread_id config) (cfg_ns config) i, rows).
Proof.
  intros Hi Hw. unfold write_rows, required_id. rewrite Hi. cbn [or_raise mbind result_bind].
  assert (∃ rows, mapM (λ '(widx, (channel, value)),
      tv ← dumps_typed value;
      Ok (write_key task_id widx, write_record task_id channel task_path tv, (0 <=? widx)%Z))
    (indexed_writes writes) = Ok rows) as [rows Hrows].
  { assert (Forall (λ w, is_ok (dumps_typed w.2.2) = true) (indexed_writes writes)) as Hd.
    { apply Forall_lookup. intros n w. unfold indexed_writes. rewrite list_lookup_imap.
      destruct (writes !! n) as [x|] eqn:E; cbn; [|done]. intros [= <-]. by eapply Forall_lookup in Hw. }
    induction Hd as [|[z [ch v]] ws Hv _ [rows IH]]; [by exists []|]. cbn [mapM fst snd] in *.
    destruct (dumps_typed v) as [tv| |]; [|done..]. cbn [mbind result_bind]. rewrite IH. by eexists. }
  exists rows. by rewrite Hrows.
Qed.

Definition writes_text (task_id task_path : pystr) (writes : list (pystr * pyval)) : Prop :=
  text_ok task_id = true ∧ text_ok task_path = true ∧ Forall (λ w, text_ok w.1 = true) writes.

Lemma indexed_writes_text writes :
  Forall (λ w, text_ok w.1 = true) writes →
  Forall (λ w, text_ok w.2.1 = true) (indexed_writes writes).
Proof.
  intros H. apply Forall_lookup. intros n w Hw. unfold indexed_writes in Hw.
  rewrite list_lookup_imap in Hw. destruct (writes !! n) as [x|] eqn:E; [|done].
  cbn in Hw. injection Hw as <-. cbn. by eapply Forall_lookup in H.
Qed.

Lemma rows_ok task_id task_path writes rows :
  writes_text task_id task_path writes →
  Forall2 (row_of task_id task_path) (indexed_writes writes) rows → Forall row_ok rows.
Proof.
  intros (Ht&Hp&Hw%indexed_writes_text) Hrows.
  induction Hrows as [|w r ws rs (tv&Htv&->) _ IH]; constructor.
  - apply Forall_cons in Hw as [Hw _]. split; cbn.
    + by apply valid_write_key, text_ok_valid.
    + apply storable_write_record; [done..|]. by eapply dumps_typed_ok.
  - apply IH. by apply Forall_cons in Hw as [_ ?].
Qed.

Lemma free_rows_ok m ns rows :
  valid_text ns → Forall row_ok rows → Forall item_ok (free_rows m ns rows).
Proof.
  intros Hns Hr. apply Forall_forall. intros x (r&Hr'&Hx)%list_elem_of_omap.
  eapply Forall_forall in Hr as [??]; [|exact Hr'].
  destruct (r.2 && _); [done|]. injection Hx as <-. by split_and!.
Qed.

(** The loop of [_put_writes_impl] collects the rows that go through. *)
Lemma steady_write_loop m s0 ns task_id task_path ws rows :
  valid_text ns → text_ok task_id = true →
  Forall2 (row_of task_id task_path) ws rows →
  ∀ out, steady m s0
    (for_fold ws (λ batch w,
      let '(widx, (channel, value)) := w in
      let k := write_key task_id widx in
      skip ← (if (0 <=? widx)%Z then on_store (op_contains ns k) else mret false);
      if skip : bool then mret batch
      else
        tv ← lift (dumps_typed value);
        mret (batch ++ [(ns, k, write_record task_id channel task_path tv)])) out)
    (Ok (out ++ free_rows m ns rows)).
Proof.
  intros Hns Htask Hrows.
  induction Hrows as [|[z [ch v]] r ws rs (tv&Htv&->) _ IH]; intros out; cbn [for_fold].
  { rewrite app_nil_r. apply steady_ret. }
  cbn [fst snd] in Htv. cbn [free_rows omap list_omap fst snd]. set (k := write_key task_id z).
  apply steady_bind_ok with (a :=
    out ++ if (0 <=? z)%Z && bool_decide (is_Some (m !! (ns, k))) then []
           else [(ns, k, write_record task_id ch task_path tv)]).
  - eapply steady_bind_ok with (a := (0 <=? z)%Z && bool_decide (is_Some (m !! (ns, k)))).
    + destruct (0 <=? z)%Z; [|apply steady_ret]. apply steady_contains; [done|].
      by apply valid_write_key, text_ok_valid.
    + destruct (_ && _); [rewrite app_nil_r; apply steady_ret|].
      eapply steady_bind_ok; [rewrite Htv; apply steady_lift|apply steady_ret].
  - destruct (_ && _); [rewrite app_nil_r; apply IH|].
    specialize (IH (out ++ [(ns, k, write_record task_id ch task_path tv)])).
    rewrite <-app_assoc in IH. exact IH.
Qed.

Theorem put_writes_impl_at s config writes task_id task_path ns rows :
  sok s → valid_text ns → writes_text task_id task_path writes →
  write_rows config writes task_id task_path = Ok (ns, rows) →
  writes_to (put_writes_impl config writes task_id task_path) s
    (writes_view (sview s) ns rows).
Proof.
  intros Hs Hns Htext Hrows. apply write_rows_inv in Hrows as (i&Hi&Hns'&Hrows).
  unfold put_writes_impl, required_id. rewrite Hi. eapply wp_bind, wp_lift; [done|].
  rewrite <-Hns'. set (m := sview s).
  destruct Htext as [Htask Htext'].
  pose proof (steady_write_loop m s ns task_id task_path _ _ Hns Htask Hrows []) as Hsteady.
  eapply wp_bind, steady_wp; [exact Hsteady|by apply at_view_refl|]. intros s1 H1.
  eapply wp_mono; [apply writes_set_many; [by eapply at_view_ok|]|].
  - apply free_rows_ok; [done|]. eapply rows_ok; [split; [exact Htask|exact Htext']|done].
  - intros [] s2 H2. cbn beta in H2. rewrite (at_view_view _ _ _ H1) in H2.
    by eapply at_view_trans.
Qed.

(** *** The async twin *)

Lemma row_of_prefix task_id task_path w r :
  row_of task_id task_path w r → starts_with (task_id ++ [SEP]) r.1.1 = true.
Proof.
  intros (tv&_&->). cbn [fst]. unfold write_key.
  change (SEP :: str_of_Z w.1) with ([SEP] ++ str_of_Z w.1). rewrite app_assoc.
  apply starts_with_app.
Qed.

(** The rows that are not among the listed keys are those with a free key. *)
Lemma async_rows m ns task_id task_path ws rows l :
  Forall2 (row_of task_id task_path) ws rows →
  lists_keys m ns (Some (task_id ++ [SEP])) l →
  omap (λ r : wrow, if r.2 && bool_decide (r.1.1 ∈ (list_to_set l : gset pystr)) then None
                    else Some (ns, r.1.1, r.1.2)) rows = free_rows m ns rows.
Proof.
  intros Hrows [_ Hl]. induction Hrows as [|w r ws rs Hr _ IH]; [done|].
  cbn [omap list_omap free_rows]. unfold free_rows in IH. rewrite IH.
  apply row_of_prefix in Hr.
  replace (bool_decide (r.1.1 ∈ (list_to_set l : gset pystr)))
    with (bool_decide (is_Some (m !! (ns, r.1.1)))); [done|].
  apply bool_decide_ext. rewrite elem_of_list_to_set, Hl. cbn [has_prefix]. tauto.
Qed.

Lemma positional_none m ns (rows : list wrow) (existing : gset pystr) :
  existsb snd rows = false →
  omap (λ r : wrow, if r.2 && bool_decide (r.1.1 ∈ existing) then None
                    else Some (ns, r.1.1, r.1.2)) rows = free_rows m ns rows.
Proof.
  induction rows as [|[[k v] []] rows IH]; cbn; [done|done|]. intros H.
  unfold free_rows in IH. by rewrite IH.
Qed.

Lemma aset_many_at f s items : op_set_many = Some f → sok s → Forall item_ok items →
  writes_to (aset_many items) s (kv_set_many items (sview s)).
Proof.
  intros Hf Hs Hi. unfold aset_many. rewrite Hf.
  eapply wp_mono; [apply (on_store_at _ s (kv_set_many items (sview s)) (λ _, True))|].
  - eapply wp_mono; [by apply (set_many_spec f (store s))|]. auto.
  - by intros ?? [? _].
Qed.

Theorem aput_writes_impl_at f s config writes task_id task_path ns rows :
  op_set_many = Some f → sv_takes_prefix = true →
  sok s → valid_text ns → writes_text task_id task_path writes →
  write_rows config writes task_id task_path = Ok (ns, rows) →
  writes_to (aput_writes_impl config writes task_id task_path) s
    (writes_view (sview s) ns rows).
Proof.
  intros Hf Htp Hs Hns Htext Hrows. unfold aput_writes_impl.
  eapply wp_bind, wp_lift; [exact Hrows|].
  apply write_rows_inv in Hrows as (i&Hi&Hns'&Hrows). set (m := sview s).
  pose proof (rows_ok _ _ _ _ Htext Hrows) as Hok.
  assert (∀ s1 batch, at_view m s s1 → batch = free_rows m ns rows →
    wp (match batch with [] => mret tt | _ => aset_many batch end) s1
      (λ _ s', at_view (writes_view m ns rows) s s')) as Hend.
  { intros s1 batch H1 ->. unfold writes_view.
    pose proof (free_rows_ok m ns rows Hns Hok) as Hfree.
    destruct (free_rows m ns rows) as [|x l]; [by apply wp_ret|].
    eapply wp_mono; [apply (aset_many_at f); [done|by eapply at_view_ok|done]|].
    intros [] s2 H2. cbn beta in H2. rewrite (at_view_view _ _ _ H1) in H2.
    by eapply at_view_trans. }
  destruct (existsb snd rows) eqn:Eany.
  - pose proof (keys_prefix_spec (store s) ns (task_id ++ [SEP]) Hs Hns) as Hk.
    rewrite Htp in Hk. destruct Htext as (Htask&_).
    apply on_store_at in Hk as (l&s1&E&H1&Hl)%wp_elim.
    2:{ rewrite valid_text_app, valid_text_cons. auto using text_ok_valid, valid_text_nil. }
    apply wp_bind, wp_bind. eapply wp_intro; [exact E|]. apply wp_ret. apply Hend; [done|].
    by eapply async_rows.
  - apply wp_bind, wp_ret. apply Hend; [by apply at_view_refl|]. by apply positional_none.
Qed.

(** *** Reading the writes back *)

Definition positional (writes : list (pystr * pyval)) : Prop :=
  Forall (λ w, WRITES_IDX_MAP w.1 = None) writes.

Lemma positional_indices writes :
  positional writes → (indexed_writes writes).*1 = Z.of_nat <$> seq 0 (length writes).
Proof.
  intros Hp. apply list_eq. intros n. unfold indexed_writes.
  rewrite !list_lookup_fmap, list_lookup_imap.
  destruct (writes !! n) as [[ch v]|] eqn:E; cbn.
  - pose proof (Forall_lookup_1 _ _ _ _ Hp E) as Hn. cbn in Hn. rewrite Hn.
    rewrite lookup_seq_lt by by eapply lookup_lt_Some. done.
  - rewrite lookup_seq_ge; [done|]. by apply lookup_ge_None.
Qed.

Lemma write_indices_sorted task_id (n k : nat) :
  StronglySorted write_index_le ((λ z, (task_id, z)) <$> (Z.of_nat <$> seq k n)).
Proof.
  revert k. induction n as [|n IH]; intros k; cbn; constructor; [apply IH|].
  apply Forall_forall. intros p (z&->&(j&->&Hj)%list_elem_of_fmap)%list_elem_of_fmap.
  apply elem_of_seq in Hj. right. split; [done|]. cbn. lia.
Qed.

Lemma rows_keys task_id task_path ws rows :
  Forall2 (row_of task_id task_path) ws rows →
  (λ r : wrow, r.1.1) <$> rows = wkey <$> ((λ z, (task_id, z)) <$> ws.*1).
Proof. induction 1 as [|w r ws rs (tv&_&->) _ IH]; [done|]. cbn. by rewrite IH. Qed.

Lemma free_rows_all m ns (rows : list wrow) :
  (∀ k, m !! (ns, k) = None) → free_rows m ns rows = (λ r, (ns, r.1.1, r.1.2)) <$> rows.
Proof.
  intros Hm. induction rows as [|r rows IH]; [done|]. cbn. rewrite Hm.
  rewrite bool_decide_false by by intros []. rewrite andb_false_r. f_equal. exact IH.
Qed.

(** A stored write, and the pending write it is read back as. *)
Definition decoded_as (saved : pyval) (w : pending) : Prop :=
  ∃ task channel path v tv, dumps_typed v = Ok tv ∧
    saved = write_record task channel path tv ∧ w = (PStr task, PStr channel, v).

(** Is the write to one of the channels asked for? *)
Definition wanted (channels : option (gset pystr)) (w : pending) : bool :=
  match channels, w.1.2 with
  | None, _ => true
  | Some chs, PStr ch => bool_decide (ch ∈ chs)
  | Some _, _ => false
  end.

Lemma decode_records_in (channels : option (gset pystr)) (raw : list pyval) (out : list pending) :
  Forall2 decoded_as raw out → decode_writes raw channels = Ok (filter (wanted channels) out).
Proof.
  intros Hrows. unfold decode_writes.
  enough (∀ acc, foldR raw (λ out saved_write,
    if is_none saved_write then Ok out
    else
      '(task_id, channel, tv, _) ← unpack4 saved_write;
      wanted ← channel_wanted channels channel;
      if wanted : bool then v ← loads tv; Ok (out ++ [(task_id, channel, v)])
      else Ok out) acc = Ok (acc ++ filter (wanted channels) out)) as H by apply (H []).
  induction Hrows as [|r w raw out (task&ch&path&v&tv&Htv&->&->) _ IH]; intros acc;
    [by rewrite app_nil_r|].
  cbn [foldR].
  change (is_none (write_record task ch path tv)) with false.
  change (unpack4 (write_record task ch path tv)) with
    (Ok (PStr task, PStr ch, PList [tv.1; tv.2], PStr path)).
  assert (channel_wanted channels (PStr ch) = Ok (wanted channels (PStr task, PStr ch, v))) as Hw
    by by destruct channels.
  cbn [mbind result_bind]. rewrite Hw, filter_cons. cbn [mbind result_bind].
  rewrite (loads_dumps_pair _ _ Htv). destruct (wanted channels (PStr task, PStr ch, v)).
  - cbn [mbind result_bind]. rewrite IH, decide_True by done. by rewrite <-app_assoc.
  - cbn [mbind result_bind]. rewrite IH, decide_False by (intros []). done.
Qed.

Lemma decode_records (raw : list pyval) (out : list pending) :
  Forall2 decoded_as raw out → decode_writes raw None = Ok out.
Proof.
  intros Hrows. rewrite (decode_records_in None _ _ Hrows). f_equal. by apply filter_all, Forall_true.
Qed.

Lemma decode_rows task_id task_path ws rows :
  Forall2 (row_of task_id task_path) ws rows →
  decode_writes ((λ r : wrow, r.1.2) <$> rows) None =
    Ok ((λ w : Z * (pystr * pyval), (PStr task_id, PStr w.2.1, w.2.2)) <$> ws).
Proof.
  intros Hrows. apply decode_records.
  induction Hrows as [|w r ws rs (tv&Htv&->) _ IH]; constructor; [|done].
  by exists task_id, w.2.1, task_path, w.2.2, tv.
Qed.

Lemma writes_view_pending m t c i task_id task_path writes rows :
  positional writes → (∀ k, m !! (writes_ns t c i, k) = None) →
  Forall2 (row_of task_id task_path) (indexed_writes writes) rows →
  view_pending (writes_view m (writes_ns t c i) rows) t c i None =
    Ok ((λ w, (PStr task_id, PStr w.1, w.2)) <$> writes).
Proof.
  intros Hp Hm Hrows. unfold view_pending. set (ns := writes_ns t c i) in *.
  pose proof (rows_keys _ _ _ _ Hrows) as Hkeys. rewrite positional_indices in Hkeys by done.
  set (order := (λ z, (task_id, z)) <$> (Z.of_nat <$> seq 0 (length writes))) in *.
  unfold writes_view. rewrite free_rows_all by done.
  set (items := (λ r : wrow, (ns, r.1.1, r.1.2)) <$> rows).
  assert (items.*1 = (λ k, (ns, k)) <$> ((λ r : wrow, r.1.1) <$> rows)) as Hitems.
  { unfold items. by rewrite <-!list_fmap_compose. }
  assert (NoDup ((λ r : wrow, r.1.1) <$> rows)) as Hnd.
  { rewrite Hkeys. unfold order. repeat apply NoDup_fmap_2; try apply _; try apply NoDup_seq. }
  assert (NoDup items.*1) as Hndi.
  { rewrite Hitems. apply NoDup_fmap_2; [|done]. intros ?? [=]. done. }
  assert (∀ r, r ∈ rows → kv_set_many items m !! (ns, r.1.1) = Some r.1.2) as Hlook.
  { intros r Hr. apply kv_set_many_lookup; [done|]. apply list_elem_of_fmap. by exists r. }
  rewrite (sort_write_keys_perm _ (wkey <$> order)).
  - rewrite sort_write_keys_wkeys. cbn [mbind result_bind].
    replace (merge_sort write_index_le order) with order.
    2:{ apply (StronglySorted_unique write_index_le); [apply write_indices_sorted| |].
        - apply (StronglySorted_merge_sort _).
        - by rewrite merge_sort_Permutation. }
    rewrite <-Hkeys.
    replace (kv_get (kv_set_many items m) ns <$> ((λ r : wrow, r.1.1) <$> rows))
      with ((λ r : wrow, r.1.2) <$> rows).
    + rewrite (decode_rows _ _ _ _ Hrows). f_equal. unfold indexed_writes.
      apply list_eq. intros n. rewrite !list_lookup_fmap, list_lookup_imap.
      by destruct (writes !! n).
    + rewrite <-list_fmap_compose. apply list_fmap_ext. intros n r Hr.
      apply list_elem_of_lookup_2 in Hr. unfold compose, kv_get. by rewrite Hlook.
  - apply Forall_forall. intros k Hk. destruct (ref_keys_lists (kv_set_many items m) ns) as [_ Hl].
    apply Hl in Hk as [Hk _]. destruct (decide ((ns, k) ∈ items.*1)) as [Hin|Hout].
    + rewrite Hitems, Hkeys in Hin. apply list_elem_of_fmap in Hin as (k'&[= ->]&Hin).
      apply list_elem_of_fmap in Hin as (p&->&_). by exists p.
    + rewrite kv_set_many_lookup_ne in Hk by done. rewrite Hm in Hk. by destruct Hk.
  - apply NoDup_Permutation; [apply ref_keys_lists|by rewrite <-Hkeys|]. intros k.
    destruct (ref_keys_lists (kv_set_many items m) ns) as [_ Hl]. rewrite Hl, <-Hkeys. clear Hl.
    split.
    + intros [Hk _]. destruct (decide ((ns, k) ∈ items.*1)) as [Hin|Hout].
      * rewrite Hitems in Hin. by apply list_elem_of_fmap in Hin as (k'&[= ->]&Hin).
      * rewrite kv_set_many_lookup_ne in Hk by done. rewrite Hm in Hk. by destruct Hk.
    + intros (r&->&Hr)%list_elem_of_fmap. split; [|done]. rewrite Hlook by done. by eexists.
Qed.

Lemma writes_view_other m ns rows ns' k :
  ns' ≠ ns → writes_view m ns rows !! (ns', k) = m !! (ns', k).
Proof.
  intros Hne. apply kv_set_many_lookup_ne. intros ([[a b] v]&Heq&Hin)%list_elem_of_fmap.
  cbn in Heq. injection Heq as -> ->. apply list_elem_of_omap in Hin as (r&_&Hr).
  destruct (_ && _); [done|]. by injection Hr as <- _ _.
Qed.

Lemma rows_are_wkeys task_id task_path ws rows :
  Forall2 (row_of task_id task_path) ws rows → Forall (λ r : wrow, is_wkey r.1.1) rows.
Proof.
  induction 1 as [|w r ws rs (tv&_&->) _ IH]; constructor; [|done].
  by exists (task_id, w.1).
Qed.

Lemma writes_view_content inc m t c i rows :
  content_ok inc m → Forall (λ r : wrow, is_wkey r.1.1) rows →
  content_ok inc (writes_view m (writes_ns t c i) rows).
Proof.
  intros Hm Hr. split.
  - intros k v. rewrite writes_view_other by auto with text. by apply content_pointers with inc.
  - intros t' c' j. rewrite writes_view_other by auto with text. by eapply content_ids.
  - intros t' c' j k. destruct (decide (writes_ns t' c' j = writes_ns t c i)) as [->|Hne].
    + intros Hk. unfold writes_view in Hk.
      destruct (decide ((writes_ns t c i, k) ∈ (free_rows m (writes_ns t c i) rows).*1)) as [Hin|Hout].
      * apply list_elem_of_fmap in Hin as ([[a b] v]&Heq&Hin). cbn in Heq. injection Heq as <- <-.
        apply list_elem_of_omap in Hin as (r&Hin&Hsome). destruct (_ && _); [done|].
        injection Hsome as <- _. by eapply Forall_forall in Hr.
      * rewrite kv_set_many_lookup_ne in Hk by done. by eapply content_writes.
    + rewrite writes_view_other by done. by eapply content_writes.
  - intros t' c' j Hinc. unfold kv_get. rewrite writes_view_other by auto with text.
    by apply (content_blobs _ _ Hm).
Qed.

Lemma view_checkpoint_frame m m' inc t c saved :
  (∀ k, kv_get m (blobs_ns t c) k = kv_get m' (blobs_ns t c) k) →
  view_checkpoint m inc t c saved = view_checkpoint m' inc t c saved.
Proof.
  intros Hk. unfold view_checkpoint. destruct (loads_field _ _) as [cp| |]; cbn; [|done..].
  destruct (detached inc cp) as [[]| |]; cbn; [|done..].
  destruct (channel_versions cp) as [vs| |]; cbn; [|done..]. f_equal.
  by apply list_fmap_ext.
Qed.
End writes.

Section theorems.
Context {S : Type} `{ops : !StoreOps S} `{spec : !StoreSpec S}.
Context `{lg : !LangGraph} `{lgspec : !LangGraphSpec}.
Implicit Types (s : Saver S) (t c i ns : pystr) (m : kv).

(** The writes of a step come back in the order they were made, however many
    there are (the indices are compared as numbers), on a checkpoint that had
    none; the rest of its tuple is unchanged. *)
Theorem put_writes_get_tuple s config writes task_id task_path ns rows i saved tup :
  let t := cfg_thread_id config in
  let c := cfg_ns config in
  let m := sview s in
  sok s → content_ok (incremental s) m →
  valid_text t → valid_text c → valid_text i → i ≠ [] →
  cfg_checkpoint_id config = Some i →
  writes_text task_id task_path writes → positional writes →
  write_rows config writes task_id task_path = Ok (ns, rows) →
  m !! (ckpt_ns t c, i) = Some saved → is_none saved = false →
  (∀ k, m !! (writes_ns t c i, k) = None) →
  view_tuple m (incremental s) t c i saved PNone = Ok tup →
  wp (put_writes config writes task_id task_path ;; get_tuple (mk_config t c i)) s (λ r _,
    r = Some {| ct_config := ct_config tup;
                ct_checkpoint := ct_checkpoint tup;
                ct_metadata := ct_metadata tup;
                ct_parent_config := ct_parent_config tup;
                ct_pending_writes := (λ w, (PStr task_id, PStr w.1, w.2)) <$> writes |}).
Proof.
  intros t c m Hs Hm Ht Hc Hi Hne Hid Htext Hpos Hrows Hsaved Hnone Hfree Htup.
  pose proof (write_rows_inv _ _ _ _ _ _ Hrows) as (i'&Hid'&Hns&Hr).
  rewrite Hid in Hid'. injection Hid' as <-. fold t c in Hns.
  assert (valid_text ns) as Hvns by (rewrite Hns; auto with text).
  eapply wp_bind, wp_put_writes.
  eapply wp_mono; [by apply put_writes_impl_at|]. intros [] s1 H1 me tr. cbn beta in H1.
  fold m in H1. pose proof (at_view_view _ _ _ H1) as Hv1.
  pose proof (at_view_incremental _ _ _ H1) as Hi1.
  assert (∀ ns' k, ns' ≠ ns → writes_view m ns rows !! (ns', k) = m !! (ns', k)) as Hframe.
  { intros. by apply writes_view_other. }
  eapply (get_by_id (set_instruments me tr s1) t c i saved); try done.
  - by apply (at_view_ok _ _ _ H1).
  - change (content_ok (incremental s1) (sview s1)). rewrite Hv1, Hi1, Hns.
    apply writes_view_content; [done|]. by eapply rows_are_wkeys.
  - change (sview (set_instruments me tr s1)) with (sview s1). rewrite Hv1, Hframe; [done|].
    rewrite Hns. auto with text.
  - change (sview (set_instruments me tr s1)) with (sview s1).
    change (incremental (set_instruments me tr s1)) with (incremental s1). rewrite Hv1, Hi1.
    revert Htup. unfold view_tuple.
    replace (view_checkpoint (writes_view m ns rows) (incremental s) t c saved)
      with (view_checkpoint m (incremental s) t c saved).
    2:{ apply view_checkpoint_frame. intros k. unfold kv_get. rewrite Hframe; [done|].
        rewrite Hns. auto with text. }
    destruct (view_checkpoint _ _ _ _ _) as [cp| |]; cbn [mbind result_bind]; [|done..].
    destruct (view_metadata _ _) as [md| |]; cbn [mbind result_bind]; [|done..].
    destruct (view_pending m t c i None) as [p| |]; cbn [mbind result_bind]; [|done..].
    rewrite Hns, (writes_view_pending m t c i _ _ _ _ Hpos Hfree Hr). cbn [mbind result_bind].
    destruct (parent_config t c saved) as [pc| |]; cbn [mbind result_bind]; [|done..].
    by intros [= <-].
Qed.

(** C9: a positional write is never overwritten: whatever [put_writes] is given,
    a write that was stored under a non-negative index keeps its value (a retry
    of a step changes nothing), and nothing outside the checkpoint's writes
    changes. *)
Theorem put_writes_write_once s config writes task_id task_path ns rows :
  sok s → valid_text ns → writes_text task_id task_path writes →
  write_rows config writes task_id task_path = Ok (ns, rows) →
  wp (put_writes config writes task_id task_path) s (λ _ s',
    (∀ task idx v, (0 <= idx)%Z → sview s !! (ns, write_key task idx) = Some v →
       sview s' !! (ns, write_key task idx) = Some v) ∧
    (∀ ns' k, ns' ≠ ns → sview s' !! (ns', k) = sview s !! (ns', k))).
Proof.
  intros Hs Hns Htext Hrows. apply wp_put_writes.
  eapply wp_mono; [by apply put_writes_impl_at|]. intros [] s1 H1 me tr. cbn beta in H1.
  change (sview (set_instruments me tr s1)) with (sview s1). rewrite (at_view_view _ _ _ H1).
  split; [|intros; by apply writes_view_other].
  intros task idx v Hidx Hv. apply write_rows_inv in Hrows as (i&_&_&Hr).
  unfold writes_view. rewrite kv_set_many_lookup_ne; [done|].
  intros ([[ns0 k] x]&Heq&Hin)%list_elem_of_fmap. cbn in Heq. injection Heq as <- <-.
  apply list_elem_of_omap in Hin as (r&Hin&Hsome).
  destruct (r.2 && _) eqn:E; [done|]. injection Hsome as Hk _.
  rewrite Hk, Hv, bool_decide_true, andb_true_r in E by by eexists.
  apply list_elem_of_lookup in Hin as [n Hn].
  destruct (Forall2_lookup_r _ _ _ _ _ Hr Hn) as (w&_&tv&_&->). cbn in Hk, E.
  apply write_key_inj in Hk as [_ Hz]. apply Z.leb_gt in E. lia.
Qed.

(** C10: the native async path of [put_writes] (one filtered listing instead of a
    check per write, values serialized first) leaves the same content as the
    synchronous one. *)
Theorem put_writes_sync_async f s config writes task_id task_path ns rows :
  op_set_many = Some f → sv_takes_prefix = true → native_async s = true →
  sok s → valid_text ns → writes_text task_id task_path writes →
  write_rows config writes task_id task_path = Ok (ns, rows) →
  ∃ m', wp (put_writes config writes task_id task_path) s (λ _ s', sview s' = m') ∧
        wp (aput_writes config writes task_id task_path) s (λ _ s', sview s' = m').
Proof.
  intros Hf Htp Hna Hs Hns Htext Hrows. exists (writes_view (sview s) ns rows). split.
  - apply wp_put_writes. eapply wp_mono; [by apply put_writes_impl_at|].
    intros [] s1 H1 me tr. by apply (at_view_view _ _ _ H1).
  - pose proof (aput_writes_impl_at f s _ _ _ _ _ _ Hf Htp Hs Hns Htext Hrows)
      as ([]&s1&E&H1)%wp_elim.
    eapply wp_intro; [by apply aput_writes_run|]. by apply (at_view_view _ _ _ H1).
Qed.
End theorems.

(** ** Examples *)

Definition ex_writes : list (pystr * pyval) := [(lit "a", PInt 1); (lit "b", PInt 2)].
Definition ex_task : pystr := lit "task".
Definition ex_rows : list (pystr * pyval * bool) :=
  [(write_key ex_task 0, write_record ex_task (lit "a") [] (ex_typed (PInt 1)), true);
   (write_key ex_task 1, write_record ex_task (lit "b") [] (ex_typed (PInt 2)), true)].
Definition ex_writes_ns : pystr := writes_ns ex_thread [] (lit "c1").
Definition ex_tuple : CheckpointTuple :=
  {| ct_config := mk_config ex_thread [] (lit "c1");
     ct_checkpoint := PDict (ex_checkpoint "c1");
     ct_metadata := ex_metadata; ct_parent_config := None; ct_pending_writes := [] |}.

Lemma ex_writes_text : writes_text ex_task [] ex_writes.
Proof. split_and!; [done..|]. repeat constructor. Qed.

Lemma ex_no_writes k : ex_content !! (writes_ns ex_thread [] (lit "c1"), k) = None.
Proof.
  unfold ex_content. rewrite put_view_other; [apply lookup_empty|..].
  - intros Heq%(f_equal fst). by apply (ckpt_ne_writes ex_thread [] ex_thread [] (lit "c1")).
  - intros Heq%(f_equal fst). by apply (writes_ne_latest ex_thread [] (lit "c1")).
  - auto with text.
Qed.

Lemma put_writes_get_tuple_witness :
  wp (put_writes (ops:=full_ops) (ex_config (Some (lit "c1"))) ex_writes ex_task [] ;;
      get_tuple (ops:=full_ops) (mk_config ex_thread [] (lit "c1"))) ex_saver1 (λ r _,
    r = Some {| ct_config := mk_config ex_thread [] (lit "c1");
                ct_checkpoint := PDict (ex_checkpoint "c1");
                ct_metadata := ex_metadata; ct_parent_config := None;
                ct_pending_writes := [(PStr ex_task, key "a", PInt 1);
                                      (PStr ex_task, key "b", PInt 2)] |}).
Proof.
  refine (put_writes_get_tuple (ops:=full_ops) (spec:=ref_spec true true false) ex_saver1
            (ex_config (Some (lit "c1"))) ex_writes ex_task [] ex_writes_ns ex_rows (lit "c1")
            (ex_record "c1" None) ex_tuple ex_content_sok ex_content_ok _ _ _ _ _
            ex_writes_text _ _ _ _ ex_no_writes _).
  - by apply (bool_decide_unpack _).
  - by apply (bool_decide_unpack _).
  - by apply (bool_decide_unpack _).
  - done.
  - done.
  - repeat constructor.
  - vm_compute. reflexivity.
  - apply put_view_record.
  - done.
  - vm_compute. reflexivity.
Defined.

(** The content once [ex_writes] are stored, and a retry with another value. *)
Definition ex_written : kv := writes_view ex_content ex_writes_ns ex_rows.
Definition ex_retry : list (pystr * pyval) := [(lit "a", PInt 99)].
Definition ex_retry_rows : list (pystr * pyval * bool) :=
  [(write_key ex_task 0, write_record ex_task (lit "a") [] (ex_typed (PInt 99)), true)].

Lemma ex_written_sok : kv_ok ex_written.
Proof.
  apply kv_ok_set_many; [apply ex_content_sok|].
  apply free_rows_ok; [by apply (bool_decide_unpack _)|].
  destruct (write_rows_inv (ex_config (Some (lit "c1"))) ex_writes ex_task [] ex_writes_ns ex_rows)
    as (i&_&_&Hrows); [by vm_compute|].
  by eapply rows_ok; [apply ex_writes_text|].
Qed.

Lemma put_writes_write_once_witness :
  wp (put_writes (ops:=full_ops) (ex_config (Some (lit "c1"))) ex_retry ex_task [])
    (ex_saver false None ex_written)
    (λ _ s', store s' !! (ex_writes_ns, write_key ex_task 0) =
               Some (write_record ex_task (lit "a") [] (ex_typed (PInt 1)))).
Proof.
  eapply wp_mono.
  - refine (put_writes_write_once (ops:=full_ops) (spec:=ref_spec true true false)
              (ex_saver false None ex_written) (ex_config (Some (lit "c1"))) ex_retry ex_task []
              ex_writes_ns ex_retry_rows ex_written_sok _ _ _).
    + by apply (bool_decide_unpack _).
    + split_and!; [done..|]. repeat constructor.
    + vm_compute. reflexivity.
  - intros [] s' [Honce _]. apply (Honce ex_task 0%Z); [done|]. vm_compute. reflexivity.
Defined.

Definition ex_async_saver : Saver kv :=
  mkSaver ex_content false None None None ∅ ∅ true false true.

Lemma put_writes_sync_async_witness :
  ∃ m', wp (put_writes (ops:=full_ops) (ex_config (Some (lit "c1"))) ex_writes ex_task [])
            ex_async_saver (λ _ s', store s' = m') ∧
        wp (aput_writes (ops:=full_ops) (ex_config (Some (lit "c1"))) ex_writes ex_task [])
            ex_async_saver (λ _ s', store s' = m').
Proof.
  refine (put_writes_sync_async (ops:=full_ops) (spec:=ref_spec true true false) _
            ex_async_saver (ex_config (Some (lit "c1"))) ex_writes ex_task [] ex_writes_ns ex_rows
            eq_refl eq_refl eq_refl ex_content_sok _ ex_writes_text _).
  - by apply (bool_decide_unpack _).
  - vm_compute. reflexivity.
Defined.
