(* ===== verification/SaverAdmin.v ===== *)
(** * The LangGraph checkpointer: deleting and copying threads *)

From S2P Require Import Prelude PyValue Store Saver SaverOps SaverRead.
From S2P Require Import SaverLemmas SaverSpec SaverPut SaverMeasure SaverTheorems SaverExample.

(** The prefix of the namespaces of one kind of one thread. *)
Definition thread_prefix (kind t : pystr) : pystr := kind ++ SEP :: t ++ [SEP].
#[global] Arguments thread_prefix : simpl never.

Definition kinds : list pystr := [lit "ck"; lit "wr"; lit "bl"].

Lemma thread_prefix_split kind t ns :
  SEP ∉ kind → SEP ∉ t → starts_with (thread_prefix kind t) ns = true →
  ∃ rest, split_on SEP ns = kind :: t :: rest ∧ rest ≠ [].
Proof.
  intros Hk Ht [r ->]%starts_with_spec. unfold thread_prefix.
  rewrite <-app_assoc. cbn [app]. rewrite <-app_assoc. cbn [app].
  rewrite !split_on_app by done. eexists. split; [done|]. apply split_on_not_nil.
Qed.

Lemma kinds_nosep kind : kind ∈ kinds → SEP ∉ kind.
Proof.
  intros [->|[->|[->|H]%elem_of_cons]%elem_of_cons]%elem_of_cons;
    [by apply (bool_decide_unpack _)..|by apply not_elem_of_nil in H].
Qed.

Lemma kinds_valid kind : kind ∈ kinds → valid_text kind.
Proof.
  intros [->|[->|[->|H]%elem_of_cons]%elem_of_cons]%elem_of_cons;
    [by apply (bool_decide_unpack _)..|by apply not_elem_of_nil in H].
Qed.

Lemma valid_thread_prefix kind t : valid_text kind → valid_text t → valid_text (thread_prefix kind t).
Proof.
  intros. unfold thread_prefix. rewrite valid_text_app, valid_text_cons, valid_text_app, valid_text_cons.
  auto using valid_text_nil.
Qed.

(** The content without the namespaces of one kind. *)
Definition purge_kind (t kind : pystr) (m : kv) : kv :=
  filter (λ e, starts_with (thread_prefix kind t) e.1.1 = false) m.

Lemma filter_lookup {K A : Type} `{Countable K} (P : K → bool) (m : gmap K A) p :
  filter (λ e, P e.1 = false) m !! p = if P p then None else m !! p.
Proof.
  destruct (m !! p) as [v|] eqn:E.
  - destruct (P p) eqn:EP.
    + apply map_lookup_filter_None. right. intros w _. cbn. congruence.
    + by apply map_lookup_filter_Some.
  - replace (if P p then None else None : option A) with (None : option A)
      by (by destruct (P p)).
    apply map_lookup_filter_None. by left.
Qed.

Lemma purge_kind_lookup t kind m p :
  purge_kind t kind m !! p = if starts_with (thread_prefix kind t) p.1 then None else m !! p.
Proof. apply (filter_lookup (λ p, starts_with (thread_prefix kind t) p.1)). Qed.

Lemma delete_namespaces_lookup (l : list pystr) (m : kv) p :
  foldl (λ m ns, kv_delete_namespace ns m) m l !! p = if decide (p.1 ∈ l) then None else m !! p.
Proof.
  revert m. induction l as [|ns l IH]; intros m; cbn [foldl].
  - by rewrite decide_False by apply not_elem_of_nil.
  - rewrite IH, kv_delete_namespace_lookup.
    destruct (decide (p.1 ∈ l)) as [Hl|Hl], (decide (p.1 ∈ ns :: l)) as [Hn|Hn],
      (decide (p.1 = ns)) as [Hns|Hns]; rewrite ?elem_of_cons in Hn; try done; naive_solver.
Qed.

Section admin.
Context {S : Type} `{ops : !StoreOps S} `{spec : !StoreSpec S}.
Context `{lg : !LangGraph} `{lgspec : !LangGraphSpec}.
Implicit Types (s : Saver S) (t c i ns : pystr) (m : kv).

Lemma thread_namespaces_at s kind t :
  sok s → kind ∈ kinds → valid_text t → SEP ∉ t →
  ∃ l s', thread_namespaces kind t s = (Ok l, s') ∧ at_view (sview s) s s' ∧
    lists_namespaces (sview s) (Some (thread_prefix kind t)) l.
Proof.
  intros Hs Hk Hvt Ht.
  destruct (namespaces_at s (thread_prefix kind t)) as (l&(s1&E&H1)&Hl);
    [done|auto using valid_thread_prefix, kinds_valid|].
  exists l, s1. split_and!; [|done|done]. unfold thread_namespaces, mbind, pym_bind.
  change (kind ++ SEP :: t ++ [SEP]) with (thread_prefix kind t). rewrite E.
  unfold mret, pym_ret. do 2 f_equal. apply filter_all. apply Forall_forall. intros ns Hns.
  apply (proj2 Hl) in Hns as [_ Hp].
  destruct (thread_prefix_split kind t ns) as (rest&->&_); auto using kinds_nosep.
Qed.

(** Deleting the listed namespaces of a kind. *)
Lemma writes_purge_kind s kind t :
  sok s → kind ∈ kinds → valid_text t → SEP ∉ t →
  writes_to (l ← thread_namespaces kind t; for_each l delete_namespace) s
    (purge_kind t kind (sview s)).
Proof.
  intros Hs Hk Hvt Ht. destruct (thread_namespaces_at s kind t) as (l&s1&E&H1&Hl); [done..|].
  eapply wp_bind, wp_intro; [exact E|].
  eapply wp_mono; [apply (writes_for_each l _ kv_delete_namespace s1)|].
  - by eapply at_view_ok.
  - intros ns s2 Hin Hs2. apply writes_delete_namespace; [done|].
    pose proof (lists_namespaces_valid s _ _ Hs Hl) as Hv. by eapply Forall_forall in Hv.
  - intros [] s2 H2. cbn beta in H2. rewrite (at_view_view _ _ _ H1) in H2.
    replace (purge_kind t kind (sview s)) with
      (foldl (λ m ns, kv_delete_namespace ns m) (sview s) l); [by eapply at_view_trans|].
    apply map_eq. intros [ns k]. rewrite delete_namespaces_lookup, purge_kind_lookup. cbn [fst].
    destruct Hl as [_ Hl]. destruct (starts_with _ ns) eqn:Ep.
    + destruct (sview s !! (ns, k)) as [v|] eqn:Ev; [|by case_decide].
      rewrite decide_True; [done|]. apply Hl. split; [|done]. exists k. by rewrite Ev.
    + rewrite decide_False; [done|]. intros [_ Hp]%Hl. cbn in Hp. congruence.
Qed.

(** What belongs to a thread: its checkpoints, writes and blobs, in every
    checkpoint namespace, and (in a store that needs them) its latest pointers. *)
Definition thread_owned (indexed : bool) t (p : pystr * pystr) : bool :=
  existsb (λ kind, starts_with (thread_prefix kind t) p.1) kinds ||
  (negb indexed && (str_eqb p.1 LATEST_NS && starts_with (t ++ [SEP]) p.2)).

Definition without_thread (indexed : bool) t (m : kv) : kv :=
  filter (λ e, thread_owned indexed t e.1 = false) m.

Lemma purge_kinds_lookup t (l : list pystr) m p :
  foldl (λ m kind, purge_kind t kind m) m l !! p =
    if existsb (λ kind, starts_with (thread_prefix kind t) p.1) l then None else m !! p.
Proof.
  revert m. induction l as [|kind l IH]; intros m; [done|]. cbn [foldl existsb].
  rewrite IH, purge_kind_lookup. destruct (existsb _ l); [by rewrite orb_true_r|].
  by rewrite orb_false_r.
Qed.

Lemma without_thread_indexed t m :
  foldl (λ m kind, purge_kind t kind m) m kinds = without_thread true t m.
Proof.
  apply map_eq. intros p. unfold without_thread. rewrite purge_kinds_lookup, filter_lookup.
  unfold thread_owned. by rewrite orb_false_r.
Qed.

(** Deleting the listed pointers of a thread, once the namespaces are gone. *)
Lemma without_pointers t m l :
  lists_keys (without_thread true t m) LATEST_NS (Some (t ++ [SEP])) l →
  kv_delete_many ((λ k, (LATEST_NS, k)) <$> l) (without_thread true t m) =
    without_thread false t m.
Proof.
  intros [_ Hl]. apply map_eq. intros [ns k]. rewrite kv_delete_many_lookup.
  unfold without_thread in *. setoid_rewrite filter_lookup in Hl. rewrite !filter_lookup.
  unfold thread_owned in *. cbn [fst snd negb andb] in *. setoid_rewrite orb_false_r in Hl.
  rewrite orb_false_r. destruct (existsb _ kinds) eqn:Eex; cbn [orb]; [by case_decide|].
  destruct (str_eqb_spec ns LATEST_NS) as [->|Hns]; cbn [andb].
  - destruct (starts_with (t ++ [SEP]) k) eqn:Ek.
    + destruct (m !! (LATEST_NS, k)) as [v|] eqn:Ev; [|by case_decide].
      rewrite decide_True; [done|]. apply list_elem_of_fmap. exists k. split; [done|].
      apply Hl. split; [by rewrite Ev|done].
    + rewrite decide_False; [done|]. intros (k'&[= <-]&Hk)%list_elem_of_fmap.
      apply Hl in Hk as [_ Hk]. cbn in Hk. congruence.
  - rewrite decide_False; [by rewrite ?orb_false_r|].
    intros (k'&Heq%(f_equal fst)&_)%list_elem_of_fmap. by apply Hns.
Qed.

Lemma writes_delete_pointers s t m :
  sok s → valid_text t → sview s = without_thread true t m →
  writes_to (ks ← keys LATEST_NS (t ++ [SEP]); delete_many ((λ k, (LATEST_NS, k)) <$> ks)) s
    (without_thread false t m).
Proof.
  intros Hs Hvt Hv. destruct (saver_keys_at s LATEST_NS (t ++ [SEP])) as (l&(s2&E&H2)&Hl).
  { done. }
  { auto with text. }
  { rewrite valid_text_app, valid_text_cons. auto using valid_text_nil. }
  eapply wp_bind, wp_intro; [exact E|].
  eapply wp_mono; [apply (writes_delete_many s2); [by eapply at_view_ok|]|].
  - apply Forall_fmap. eapply Forall_impl; [by eapply (lists_keys_valid s)|].
    intros k Hk. split; [apply valid_LATEST_NS|done].
  - intros [] s3 H3. cbn beta in H3. rewrite (at_view_view _ _ _ H2), Hv in H3.
    rewrite Hv in Hl. rewrite (without_pointers _ _ _ Hl) in H3. by eapply at_view_trans.
Qed.

Lemma delete_thread_run s t :
  sok s → valid_text t → SEP ∉ t →
  wp (delete_thread t) s (λ _ s',
    at_view (without_thread (store_indexes_max_key s) t (sview s))
      (set_prune_floor (forget_thread t (prune_floor s))
         (set_max_seen (forget_thread t (max_seen s)) s)) s').
Proof.
  intros Hs Hvt Ht. unfold delete_thread. set (m := sview s).
  eapply wp_bind_mono.
  { apply (writes_for_each kinds _ (purge_kind t) s Hs). intros kind s' Hk Hs'.
    by apply writes_purge_kind. }
  intros [] s1 H1. cbn beta in H1. fold m in H1. rewrite without_thread_indexed in H1.
  apply wp_bind, wp_gets. rewrite (at_view_indexes _ _ _ H1).
  apply wp_bind_mono with
    (R := λ _ s2, at_view (without_thread (store_indexes_max_key s) t m) s s2).
  - destruct (store_indexes_max_key s) eqn:Eix; [by apply wp_ret|].
    eapply wp_mono; [apply writes_delete_pointers; [by eapply at_view_ok|done|]|].
    + by apply (at_view_view _ _ _ H1).
    + intros [] s2 H2. by eapply at_view_trans.
  - intros [] s2 (st&b&->&Hst&Hv). apply wp_bind, wp_modify, wp_modify. by exists st, b.
Qed.

Lemma forget_thread_lookup {V : Type} t (h : gmap (pystr * pystr) V) t' c :
  forget_thread t h !! (t', c) = if decide (t' = t) then None else h !! (t', c).
Proof. unfold forget_thread. apply (delete_ns_lookup h t (t', c)). Qed.

(** *** Names and owners *)

Lemma thread_prefix_own kind t rest : starts_with (thread_prefix kind t) (kind ++ SEP :: t ++ SEP :: rest) = true.
Proof.
  unfold thread_prefix. apply starts_with_spec. exists rest.
  rewrite <-app_assoc. cbn. by rewrite <-app_assoc.
Qed.

Lemma thread_prefix_other kind kind' t t' rest :
  SEP ∉ kind → SEP ∉ kind' → SEP ∉ t → SEP ∉ t' → t' ≠ t →
  starts_with (thread_prefix kind t) (kind' ++ SEP :: t' ++ SEP :: rest) = false.
Proof.
  intros Hk Hk' Ht Ht' Hne. destruct (starts_with _ _) eqn:E; [|done].
  apply thread_prefix_split in E as (r&E&_); [|done..]. rewrite !split_on_app in E by done.
  injection E as _ ? _. done.
Qed.

Lemma owned_names indexed t c i k :
  thread_owned indexed t (ckpt_ns t c, k) = true ∧
  thread_owned indexed t (writes_ns t c i, k) = true ∧
  thread_owned indexed t (blobs_ns t c, k) = true ∧
  thread_owned false t (LATEST_NS, latest_key t c) = true.
Proof.
  unfold thread_owned, kinds. cbn [existsb fst snd].
  pose proof (thread_prefix_own (lit "ck") t c) as H1.
  pose proof (thread_prefix_own (lit "wr") t (c ++ SEP :: i)) as H2.
  pose proof (thread_prefix_own (lit "bl") t c) as H3.
  unfold ckpt_ns, writes_ns, blobs_ns, latest_key. rewrite H1, H2, H3.
  rewrite !orb_true_r. split_and!; [done..|].
  change (t ++ SEP :: c) with (t ++ [SEP] ++ c). rewrite app_assoc, starts_with_app.
  rewrite str_eqb_refl. by rewrite orb_true_r.
Qed.

Lemma not_latest_kind kind t : kind ∈ kinds → starts_with (thread_prefix kind t) LATEST_NS = false.
Proof.
  intros [->|[->|[->|H]%elem_of_cons]%elem_of_cons]%elem_of_cons; [done..|].
  by apply not_elem_of_nil in H.
Qed.

Lemma not_owned_names indexed t t' c i k :
  SEP ∉ t → SEP ∉ t' → t' ≠ t →
  thread_owned indexed t (ckpt_ns t' c, k) = false ∧
  thread_owned indexed t (writes_ns t' c i, k) = false ∧
  thread_owned indexed t (blobs_ns t' c, k) = false ∧
  thread_owned indexed t (LATEST_NS, latest_key t' c) = false.
Proof.
  intros Ht Ht' Hne.
  assert (∀ ns, (∀ kind, kind ∈ kinds → starts_with (thread_prefix kind t) ns = false) →
    existsb (λ kind, starts_with (thread_prefix kind t) ns) kinds = false) as Hex.
  { intros ns Hns. apply not_true_iff_false. intros (kind&Hin&Hk)%existsb_exists.
    rewrite Hns in Hk; [done|]. by apply list_elem_of_In. }
  unfold thread_owned. cbn [fst snd]. split_and!.
  - rewrite Hex. { by rewrite str_eqb_neq, andb_false_r by auto with text. }
    intros kind Hk. apply thread_prefix_other; auto using kinds_nosep.
    apply kinds_nosep. by left.
  - rewrite Hex. { by rewrite str_eqb_neq, andb_false_r by auto with text. }
    intros kind Hk. apply (thread_prefix_other kind (lit "wr") t t' (c ++ SEP :: i));
      auto using kinds_nosep. apply kinds_nosep. right. by left.
  - rewrite Hex. { by rewrite str_eqb_neq, andb_false_r by auto with text. }
    intros kind Hk. apply thread_prefix_other; auto using kinds_nosep.
    apply kinds_nosep. right. right. by left.
  - rewrite Hex by (intros; by apply not_latest_kind). cbn [orb].
    destruct (starts_with (t ++ [SEP]) (latest_key t' c)) eqn:E; [|by rewrite !andb_false_r].
    exfalso. apply starts_with_spec in E as [r E]. unfold latest_key in E.
    rewrite <-app_assoc in E. cbn [app] in E. by apply sep_inj in E as [-> _].
Qed.

(** C8: [delete_thread] removes exactly what belongs to the thread: all its
    checkpoints, pending writes and channel blobs in every checkpoint namespace,
    its latest pointers and the saver's hints about it. Everything else in the
    store stays, the rows of other threads included. *)
Theorem delete_thread_exact s t :
  sok s → valid_text t → SEP ∉ t →
  wp (delete_thread t) s (λ _ s',
    (∀ c i k, sview s' !! (ckpt_ns t c, k) = None ∧ sview s' !! (writes_ns t c i, k) = None ∧
       sview s' !! (blobs_ns t c, k) = None) ∧
    (store_indexes_max_key s = false → ∀ c, sview s' !! (LATEST_NS, latest_key t c) = None) ∧
    (∀ c, max_seen s' !! (t, c) = None ∧ prune_floor s' !! (t, c) = None) ∧
    (∀ p, thread_owned (store_indexes_max_key s) t p = false → sview s' !! p = sview s !! p) ∧
    (∀ t' c i k, SEP ∉ t' → t' ≠ t →
       sview s' !! (ckpt_ns t' c, k) = sview s !! (ckpt_ns t' c, k) ∧
       sview s' !! (writes_ns t' c i, k) = sview s !! (writes_ns t' c i, k) ∧
       sview s' !! (blobs_ns t' c, k) = sview s !! (blobs_ns t' c, k) ∧
       sview s' !! (LATEST_NS, latest_key t' c) = sview s !! (LATEST_NS, latest_key t' c))).
Proof.
  intros Hs Hvt Ht. eapply wp_mono; [by apply delete_thread_run|]. intros [] s' H'. cbn beta in H'.
  rewrite (at_view_view _ _ _ H'), (at_view_max_seen _ _ _ H'), (at_view_prune_floor _ _ _ H').
  cbn [max_seen prune_floor set_max_seen set_prune_floor]. unfold without_thread.
  split_and!.
  - intros c i k. rewrite !filter_lookup.
    destruct (owned_names (store_indexes_max_key s) t c i k) as (->&->&->&_). done.
  - intros -> c. rewrite filter_lookup. by destruct (owned_names false t c [] []) as (_&_&_&->).
  - intros c. rewrite !forget_thread_lookup. by rewrite !decide_True by done.
  - intros p Hp. by rewrite filter_lookup, Hp.
  - intros t' c i k Ht' Hne. rewrite !filter_lookup.
    by destruct (not_owned_names (store_indexes_max_key s) t t' c i k) as (->&->&->&->).
Qed.
End admin.

(** ** Examples *)

Lemma delete_thread_exact_witness :
  wp (delete_thread (ops:=bare_ops) ex_thread) ex_saver1 (λ _ s',
    store s' !! (ckpt_ns ex_thread [], lit "c1") = None ∧
    store s' !! (LATEST_NS, latest_key ex_thread []) = None ∧
    max_seen s' !! (ex_thread, []) = None).
Proof.
  eapply wp_mono.
  - refine (delete_thread_exact (ops:=bare_ops) (spec:=ref_spec false false false) ex_saver1
              ex_thread ex_content_sok _ _).
    + by apply (bool_decide_unpack _).
    + by apply (bool_decide_unpack _).
  - intros [] s' (Hrows&Hptr&Hhints&_). split_and!.
    + apply (Hrows [] [] (lit "c1")).
    + by apply Hptr.
    + apply Hhints.
Defined.
