(* ===== verification/SaverRetention.v ===== *)
(** * The LangGraph checkpointer: retention

    What [_trim] keeps: the newest checkpoints and, for [DeltaChannel] state, the
    ancestors that state is rebuilt from; and that a checkpoint which is kept
    reads back as before. [view_walk] is the walk up the parent chain as a
    function of the content. *)

From S2P Require Import Prelude PyValue Store Saver SaverOps SaverRead.
From S2P Require Import SaverLemmas SaverSpec SaverPut SaverMeasure SaverTheorems SaverAdmin SaverExample.

(** ** The walks as functions of the content *)

Section views.
Context `{lg : !LangGraph}.
Implicit Types (m : kv) (t c i : pystr).

(** The ancestors visited, nearest first. *)
Fixpoint view_walk (fuel : nat) m t c (cursor : pyval) (missing : gset pystr)
    : result (list pystr) :=
  if bool_decide (missing = ∅) || negb (truthy cursor) then Ok []
  else match fuel with
  | O => OutOfFuel
  | Datatypes.S fuel' =>
      p ← as_str cursor;
      let ancestor := kv_get m (ckpt_ns t c) p in
      if is_none ancestor then Ok []
      else
        found ← view_channel_values m t c ancestor missing;
        parent ← py_get ancestor (key "parent");
        rest ← view_walk fuel' m t c parent (missing ∖ list_to_set found.*1);
        Ok (p :: rest)
  end.

(** The ancestors one checkpoint depends on. *)
Definition view_needed (fuel : nat) m t c i : result (list pystr) :=
  let saved := kv_get m (ckpt_ns t c) i in
  if is_none saved then Ok []
  else
    metadata ← loads_field saved (key "md");
    delta ← delta_channels metadata;
    if negb (truthy delta) then Ok []
    else
      names ← name_set delta;
      found ← view_channel_values m t c saved names;
      cursor ← py_get saved (key "parent");
      view_walk fuel m t c cursor (names ∖ list_to_set found.*1).

Definition view_ancestors (fuel : nat) m t c (survivors : list pystr) : result (gset pystr) :=
  foldR survivors (λ needed i,
    vs ← view_needed fuel m t c i; Ok (list_to_set vs ∪ needed)) ∅.

(** The blob keys a record refers to. *)
Definition record_blobs (saved : pyval) : result (gset pystr) :=
  if is_none saved then Ok ∅
  else
    checkpoint ← loads_field saved (key "cp");
    versions ← channel_versions checkpoint;
    Ok (list_to_set ((λ e, blob_key e.1 e.2) <$> versions)).

Definition view_referenced m t c (ids : list pystr) : result (gset pystr) :=
  foldR ids (λ keep i,
    blobs ← record_blobs (kv_get m (ckpt_ns t c) i); Ok (keep ∪ blobs)) ∅.

(** Cached records are the stored ones. *)
Definition coherent m t c (records : gmap pystr pyval) : Prop :=
  ∀ i v, records !! i = Some v → v = kv_get m (ckpt_ns t c) i.
End views.

Section reads.
Context {S : Type} `{ops : !StoreOps S} `{spec : !StoreSpec S} `{lg : !LangGraph}.
Implicit Types (s : Saver S) (t c i : pystr) (m : kv).

Lemma coherent_insert m t c records i :
  coherent m t c records → coherent m t c (<[i := kv_get m (ckpt_ns t c) i]> records).
Proof.
  intros H j v. destruct (decide (i = j)) as [->|Hne].
  - rewrite lookup_insert_eq. by intros [= <-].
  - rewrite lookup_insert_ne by done. apply H.
Qed.

Lemma coherent_dict_zip m t c ks records :
  coherent m t c records →
  coherent m t c (dict_zip ks (kv_get m (ckpt_ns t c) <$> ks) records).
Proof.
  unfold dict_zip. revert records. induction ks as [|k ks IH]; intros records H; [done|].
  cbn. apply IH. by apply coherent_insert.
Qed.

Lemma coherent_get m t c records i v :
  coherent m t c records → records !! i = Some v → rec_get records i = kv_get m (ckpt_ns t c) i.
Proof. intros H Hi. unfold rec_get. rewrite Hi. by apply H. Qed.

(** The blob names a record needs are text. *)
Definition names_ok m t c : Prop := ∀ i, blobs_readable (kv_get m (ckpt_ns t c) i).

(** The cache after more reads. *)
Definition grown m t c (records records' : gmap pystr pyval) : Prop :=
  coherent m t c records' ∧ ∀ j, is_Some (records !! j) → is_Some (records' !! j).

Lemma grown_trans m t c r1 r2 r3 : grown m t c r1 r2 → grown m t c r2 r3 → grown m t c r1 r3.
Proof. intros [_ H1] [Hc H2]. split; [done|]. auto. Qed.

(** Reading an ancestor through the cache. *)
Lemma steady_cached m s0 t c records i :
  coherent m t c records → valid_text t → valid_text c → valid_text i →
  ∃ records', grown m t c records records' ∧ rec_get records' i = kv_get m (ckpt_ns t c) i ∧
    steady m s0
      (match records !! i with
       | Some _ => mret records
       | None => v ← on_store (op_get (ckpt_ns t c) i); mret (<[i := v]> records)
       end) (Ok records').
Proof.
  intros Hr Ht Hc Hi. destruct (records !! i) as [v|] eqn:E.
  - exists records. split_and!; [by split|by eapply coherent_get|apply steady_ret].
  - exists (<[i := kv_get m (ckpt_ns t c) i]> records). split_and!.
    + split; [by apply coherent_insert|]. intros j Hj.
      rewrite lookup_insert. case_decide; [by eexists|done].
    + unfold rec_get. by rewrite lookup_insert_eq.
    + eapply steady_bind_ok; [apply steady_get; auto with text|apply steady_ret].
Qed.

(** Parents are text, so that the store can be asked about them. *)
Definition parent_text (v : pyval) : Prop := ∀ p, v = PStr p → valid_text p.
Definition parents_ok m t c : Prop :=
  ∀ i v, py_get (kv_get m (ckpt_ns t c) i) (key "parent") = Ok v → parent_text v.

Lemma delta_walk_steady m s0 t c fuel cursor missing records needed vs :
  coherent m t c records → valid_text t → valid_text c → names_ok m t c → parents_ok m t c →
  parent_text cursor →
  view_walk fuel m t c cursor missing = Ok vs →
  ∃ records', grown m t c records records' ∧
    steady m s0 (delta_walk fuel t c cursor missing records needed)
      (Ok (records', list_to_set vs ∪ needed)).
Proof.
  intros Hr Ht Hc Hn Hp. revert cursor missing records needed vs Hr.
  induction fuel as [|fuel IH]; intros cursor missing records needed vs Hr Hcur;
    cbn [view_walk delta_walk]; destruct (_ || _); try done.
  1,2: intros [= <-]; exists records; split; [by split|]; rewrite list_to_set_nil, union_empty_l_L; apply steady_ret.
  destruct (as_str cursor) as [p| |] eqn:Ecur; cbn [mbind result_bind]; [|done..].
  assert (cursor = PStr p) as -> by (destruct cursor; simpl in Ecur; congruence).
  destruct (steady_cached m s0 t c records p Hr Ht Hc (Hcur p eq_refl)) as (recs&Hrecs&Hget&Hst).
  destruct (is_none (kv_get m (ckpt_ns t c) p)) eqn:Enone.
  { intros [= <-]. exists recs. split; [done|]. rewrite list_to_set_nil, union_empty_l_L.
    eapply steady_bind_ok; [apply steady_lift|]. eapply steady_bind_ok; [exact Hst|].
    rewrite Hget, Enone. apply steady_ret. }
  destruct (view_channel_values m t c _ missing) as [found| |] eqn:Efound;
    cbn [mbind result_bind]; [|done..].
  destruct (py_get _ (key "parent")) as [parent| |] eqn:Epar; cbn [mbind result_bind]; [|done..].
  destruct (view_walk fuel m t c parent _) as [rest| |] eqn:Erest; cbn [mbind result_bind]; [|done..].
  intros [= <-].
  destruct (IH parent (missing ∖ list_to_set found.*1) recs ({[p]} ∪ needed) rest) as (recs'&Hrecs'&Hst');
    [apply Hrecs|by eapply Hp|done|].
  exists recs'. split; [by eapply grown_trans|].
  eapply steady_bind_ok; [apply steady_lift|]. eapply steady_bind_ok; [exact Hst|].
  rewrite Hget, Enone. eapply steady_bind_ok.
  { rewrite <-Efound. apply steady_channel_values; auto. }
  eapply steady_bind_ok; [rewrite Epar; apply steady_lift|].
  replace (list_to_set (p :: rest) ∪ needed) with (list_to_set rest ∪ ({[p]} ∪ needed))
    by (cbn; set_solver). exact Hst'.
Qed.

(** One survivor of [_delta_ancestors]. *)
Lemma delta_needed_steady m s0 t c fuel i records needed vs :
  coherent m t c records → is_Some (records !! i) →
  valid_text t → valid_text c → names_ok m t c → parents_ok m t c →
  view_needed fuel m t c i = Ok vs →
  ∃ records', grown m t c records records' ∧
    steady m s0
      (let saved := rec_get records i in
       if is_none saved then mret (records, needed)
       else
         metadata ← lift (loads_field saved (key "md"));
         delta ← lift (delta_channels metadata);
         if negb (truthy delta) then mret (records, needed)
         else
           names ← lift (name_set delta);
           found ← channel_values t c saved names;
           cursor ← lift (py_get saved (key "parent"));
           delta_walk fuel t c cursor (names ∖ list_to_set found.*1) records needed)
      (Ok (records', list_to_set vs ∪ needed)).
Proof.
  intros Hr [v Hi] Ht Hc Hn Hp. cbn zeta. rewrite (coherent_get _ _ _ _ _ _ Hr Hi).
  unfold view_needed.
  destruct (is_none (kv_get m (ckpt_ns t c) i)).
  { intros [= <-]. exists records. split; [by split|]. rewrite list_to_set_nil, union_empty_l_L.
    apply steady_ret. }
  destruct (loads_field _ (key "md")) as [md| |]; cbn [mbind result_bind]; [|done..].
  destruct (delta_channels md) as [delta| |] eqn:Ed; cbn [mbind result_bind]; [|done..].
  destruct (negb (truthy delta)) eqn:Et.
  { intros [= <-]. exists records. split; [by split|]. rewrite list_to_set_nil, union_empty_l_L.
    eapply steady_bind_ok; [apply steady_lift|]. eapply steady_bind_ok; [rewrite Ed; apply steady_lift|].
    rewrite Et. apply steady_ret. }
  destruct (name_set delta) as [names| |] eqn:Enames; cbn [mbind result_bind]; [|done..].
  destruct (view_channel_values _ _ _ _ names) as [found| |] eqn:Ef; cbn [mbind result_bind]; [|done..].
  destruct (py_get _ (key "parent")) as [cursor| |] eqn:Epar; cbn [mbind result_bind]; [|done..].
  intros Hw. destruct (delta_walk_steady m s0 t c fuel cursor (names ∖ list_to_set found.*1)
    records needed vs) as (records'&Hr'&Hst); try done; [by eapply Hp|].
  exists records'. split; [done|].
  eapply steady_bind_ok; [apply steady_lift|]. eapply steady_bind_ok; [rewrite Ed; apply steady_lift|].
  rewrite Et. eapply steady_bind_ok; [rewrite Enames; apply steady_lift|].
  eapply steady_bind_ok; [rewrite <-Ef; apply steady_channel_values; auto|].
  eapply steady_bind_ok; [apply steady_lift|]. exact Hst.
Qed.

Lemma delta_ancestors_steady m s0 t c fuel survivors records anc :
  coherent m t c records → (∀ i, i ∈ survivors → is_Some (records !! i)) →
  valid_text t → valid_text c → names_ok m t c → parents_ok m t c →
  view_ancestors fuel m t c survivors = Ok anc →
  ∃ records', grown m t c records records' ∧
    steady m s0 (delta_ancestors fuel t c survivors records) (Ok (records', anc)).
Proof.
  intros Hr Hin Ht Hc Hn Hp. unfold view_ancestors, delta_ancestors.
  generalize (∅ : gset pystr). revert records Hr Hin.
  induction survivors as [|i l IH]; intros records Hr Hin needed; cbn [foldR for_fold].
  - intros [= ->]. exists records. split; [by split|apply steady_ret].
  - destruct (view_needed fuel m t c i) as [vs| |] eqn:E; cbn [mbind result_bind]; [|done..].
    intros Hrest.
    destruct (delta_needed_steady m s0 t c fuel i records needed vs) as (r1&Hr1&Hst1); try done.
    { apply Hin. by left. }
    destruct (IH r1 (proj1 Hr1) (λ j Hj, proj2 Hr1 j (Hin j (list_elem_of_further _ _ _ Hj)))
                _ Hrest) as (r2&Hr2&Hst2).
    exists r2. split; [by eapply grown_trans|]. eapply steady_bind_ok; [exact Hst1|exact Hst2].
Qed.

Lemma dict_zip_dom ks vs records :
  length vs = length ks → ∀ i, i ∈ ks ∨ is_Some (records !! i) → is_Some (dict_zip ks vs records !! i).
Proof.
  unfold dict_zip. revert vs records. induction ks as [|k ks IH]; intros [|v vs] records Hl i Hi;
    try done; [by destruct Hi as [[]%not_elem_of_nil|]|].
  cbn. apply IH; [by injection Hl|]. rewrite elem_of_cons in Hi.
  destruct (decide (i = k)) as [->|Hne]; [right; rewrite lookup_insert_eq; by eexists|].
  rewrite lookup_insert_ne by done. naive_solver.
Qed.

Lemma referenced_blobs_steady m s0 t c ids records keep :
  coherent m t c records → Forall valid_text ids → valid_text t → valid_text c →
  view_referenced m t c ids = Ok keep →
  steady m s0 (referenced_blobs t c ids records) (Ok keep).
Proof.
  intros Hr Hids Ht Hc Hk. unfold referenced_blobs.
  set (missing := filter (λ i, records !! i = None) ids).
  assert (∃ records', coherent m t c records' ∧ (∀ i, i ∈ ids → is_Some (records' !! i)) ∧
    steady m s0 (match missing with
                 | [] => mret records
                 | _ => vs ← get_many (ckpt_ns t c) missing; mret (dict_zip missing vs records)
                 end) (Ok records')) as (recs&Hrecs&Hdom&Hst).
  { assert (∀ i, i ∈ ids → i ∈ missing ∨ is_Some (records !! i)) as Hcase.
    { intros i Hi. destruct (records !! i) as [v|] eqn:E; [right; by eexists|left].
      by apply list_elem_of_filter. }
    destruct missing as [|x l] eqn:Em.
    - exists records. split_and!; [done| |apply steady_ret]. intros i Hi.
      destruct (Hcase i Hi) as [[]%not_elem_of_nil|]. done.
    - rewrite <-Em in *. exists (dict_zip missing (kv_get m (ckpt_ns t c) <$> missing) records).
      split_and!; [by apply coherent_dict_zip| |].
      + intros i Hi. apply dict_zip_dom; [by rewrite length_fmap|auto].
      + rewrite Em. eapply steady_bind_ok; [|apply steady_ret]. apply steady_get_many; [auto with text|].
        rewrite <-Em. apply Forall_forall. intros i [_ Hi]%list_elem_of_filter. by eapply Forall_forall in Hids. }
  eapply steady_bind_ok; [exact Hst|]. rewrite <-Hk. unfold view_referenced.
  apply steady_foldR. intros acc i Hi. destruct (Hdom i Hi) as [v Hv].
  rewrite (coherent_get _ _ _ _ _ _ Hrecs Hv). unfold record_blobs.
  destruct (is_none _).
  - cbn [mbind result_bind]. rewrite union_empty_r_L. apply steady_ret.
  - rewrite !result_bind_assoc. apply steady_bind; [apply steady_lift|]. intros cp _.
    rewrite !result_bind_assoc. apply steady_bind; [apply steady_lift|]. intros vs _.
    apply steady_ret.
Qed.

(** *** Dropping checkpoints *)

(** The rows that go: unreferenced blobs, the writes of the doomed, the doomed. *)
Definition drop_rows (inc : bool) t c (doomed : list pystr) (keep : gset pystr)
    (p : pystr * pystr) : bool :=
  (inc && (str_eqb p.1 (blobs_ns t c) && bool_decide (p.2 ∉ keep))) ||
  bool_decide (p.1 ∈ (writes_ns t c <$> doomed)) ||
  (str_eqb p.1 (ckpt_ns t c) && bool_decide (p.2 ∈ doomed)).

Definition dropped (inc : bool) t c (doomed : list pystr) (keep : gset pystr) m : kv :=
  filter (λ e, drop_rows inc t c doomed keep e.1 = false) m.

(** Where the latest pointer goes when it named a doomed checkpoint. *)
Definition pointer_doomed m t c (doomed : list pystr) : bool :=
  match kv_get m LATEST_NS (latest_key t c) with
  | PStr p => bool_decide (p ∈ doomed)
  | _ => false
  end.

Definition repointed m t c (doomed kept : list pystr) : kv :=
  if pointer_doomed m t c doomed then
    match py_max kept with
    | Some newest => <[(LATEST_NS, latest_key t c) := PStr newest]> m
    | None => delete (LATEST_NS, latest_key t c) m
    end
  else m.

Definition drop_view (inc indexed : bool) t c (doomed kept : list pystr) (keep : gset pystr) m : kv :=
  if indexed then dropped inc t c doomed keep m
  else repointed (dropped inc t c doomed keep m) t c doomed kept.

Definition drop_hints s m t c (doomed : list pystr) : gmap (pystr * pystr) pystr :=
  if negb (store_indexes_max_key s) && pointer_doomed m t c doomed
  then delete (t, c) (max_seen s) else max_seen s.

Lemma drop_hints_sub s m t c (doomed : list pystr) : drop_hints s m t c doomed ⊆ max_seen s.
Proof. unfold drop_hints. destruct (_ && _); [apply delete_subseteq|done]. Qed.

Lemma foldl_map {A B C : Type} (f : C → B → C) (g : A → B) (l : list A) (acc : C) :
  foldl (λ acc x, f acc (g x)) acc l = foldl f acc (g <$> l).
Proof. revert acc. induction l as [|x l IH]; intros acc; [done|]. apply IH. Qed.

Lemma dropped_eq (inc : bool) t c (doomed : list pystr) (keep : gset pystr) m (l : list pystr) :
  lists_keys m (blobs_ns t c) None l →
  kv_delete_many ((λ i, (ckpt_ns t c, i)) <$> doomed)
    (foldl (λ m ns, kv_delete_namespace ns m)
       (if inc : bool then kv_delete_many ((λ b, (blobs_ns t c, b)) <$> filter (λ b, b ∉ keep) l) m else m)
       (writes_ns t c <$> doomed)) =
  dropped inc t c doomed keep m.
Proof.
  intros [_ Hl]. apply map_eq. intros [ns k]. unfold dropped. rewrite filter_lookup.
  rewrite kv_delete_many_lookup, delete_namespaces_lookup. unfold drop_rows. cbn [fst snd].
  assert ((ns, k) ∈ ((λ i, (ckpt_ns t c, i)) <$> doomed) ↔ ns = ckpt_ns t c ∧ k ∈ doomed) as Hd.
  { rewrite list_elem_of_fmap. split; [intros (i&Heq&Hi)|intros [-> Hk]; by exists k].
    split; [by apply (f_equal fst) in Heq|]. apply (f_equal snd) in Heq. by simpl in Heq; subst. }
  assert ((if inc then kv_delete_many ((λ b, (blobs_ns t c, b)) <$> filter (λ b, b ∉ keep) l) m else m)
          !! (ns, k) =
          if inc && (str_eqb ns (blobs_ns t c) && bool_decide (k ∉ keep)) then None else m !! (ns, k))
    as ->.
  { destruct inc; [|done]. cbn [andb]. rewrite kv_delete_many_lookup.
    destruct (str_eqb_spec ns (blobs_ns t c)) as [->|Hns]; cbn [andb].
    - case_bool_decide as Hk.
      + destruct (m !! (blobs_ns t c, k)) as [v|] eqn:E; [|by case_decide].
        rewrite decide_True; [done|]. apply list_elem_of_fmap. exists k. split; [done|].
        apply list_elem_of_filter. split; [done|]. apply Hl. by rewrite E.
      + rewrite decide_False; [done|]. intros (b&Heq&[Hb _]%list_elem_of_filter)%list_elem_of_fmap.
        apply (f_equal snd) in Heq. cbn in Heq. by subst.
    - rewrite decide_False; [done|]. intros (b&Heq&_)%list_elem_of_fmap.
      by apply (f_equal fst) in Heq. }
  destruct (decide ((ns, k) ∈ _)) as [H1|H1].
  - apply Hd in H1 as [-> Hk]. rewrite str_eqb_refl, (bool_decide_true _ Hk).
    by rewrite orb_true_r.
  - replace (str_eqb ns (ckpt_ns t c) && bool_decide (k ∈ doomed)) with false.
    2:{ symmetry. apply not_true_iff_false. rewrite andb_true_iff, str_eqb_eq, bool_decide_eq_true.
        by rewrite <-Hd. }
    rewrite orb_false_r. destruct (decide (ns ∈ _)) as [H2|H2].
    + by rewrite (bool_decide_true _ H2), orb_true_r.
    + by rewrite (bool_decide_false _ H2), orb_false_r.
Qed.

(** The pointer, after the rows are gone. *)
Lemma repoint_wp s m t c (doomed kept : list pystr) :
  sok s → sview s = m → store_indexes_max_key s = false →
  valid_text t → valid_text c → pointers_ok m → Forall (λ i, text_ok i = true) kept →
  wp (latest ← on_store (op_get LATEST_NS (latest_key t c));
      dangling ← lift (in_names latest (list_to_set doomed));
      if dangling : bool then
        (match py_max kept with
         | Some newest => on_store (op_set LATEST_NS (latest_key t c) (PStr newest))
         | None => on_store (op_delete LATEST_NS (latest_key t c)) ;; mret tt
         end) ;;
        modify (λ s, set_max_seen (delete (t, c) (max_seen s)) s)
      else mret tt) s (λ _ s',
    at_view (repointed m t c doomed kept) (set_max_seen (drop_hints s m t c doomed) s) s').
Proof.
  intros Hs Hv Hix Ht Hc Hp Hkept. subst m. unfold repointed, drop_hints. rewrite Hix. cbn [negb andb].
  eapply wp_bind, (steady_wp (sview s) s); [apply steady_get; auto with text|by apply at_view_refl|].
  intros s1 H1.
  assert (in_names (kv_get (sview s) LATEST_NS (latest_key t c)) (list_to_set doomed) =
          Ok (pointer_doomed (sview s) t c doomed)) as Hin.
  { unfold pointer_doomed. unfold kv_get.
    destruct (sview s !! (LATEST_NS, latest_key t c)) as [v|] eqn:E; [|done].
    destruct (Hp _ _ E) as [p ->]. cbn. f_equal. apply bool_decide_ext. apply elem_of_list_to_set. }
  eapply wp_bind, wp_lift; [exact Hin|].
  destruct (pointer_doomed (sview s) t c doomed).
  - apply wp_bind_mono with (R := λ _ s2,
      at_view (match py_max kept with
               | Some newest => <[(LATEST_NS, latest_key t c):=PStr newest]> (sview s)
               | None => delete (LATEST_NS, latest_key t c) (sview s)
               end) s s2).
    + destruct (py_max kept) as [newest|] eqn:Emax.
      * eapply wp_mono.
        { apply writes_set; [by eapply at_view_ok|by auto with text|by auto with text|].
          apply storable_str. apply py_max_Some in Emax as [Hin' _].
          by eapply (proj1 (Forall_forall _ _)) in Hkept. }
        intros [] s2 H2. cbn beta in H2. rewrite (at_view_view _ _ _ H1) in H2.
        by eapply at_view_trans.
      * eapply wp_bind_mono.
        { apply writes_delete; [by eapply at_view_ok|by auto with text|by auto with text]. }
        intros b s2 H2. cbn beta in H2. rewrite (at_view_view _ _ _ H1) in H2. apply wp_ret.
        by eapply at_view_trans.
    + intros [] s2 H2. apply wp_modify. rewrite (at_view_max_seen _ _ _ H2).
      by apply at_view_hints.
  - apply wp_ret. by rewrite set_max_seen_id.
Qed.

(** What [_drop_checkpoints] leaves. *)
Theorem drop_checkpoints_wp s t c (doomed kept : list pystr) records keep :
  let m := sview s in
  let inc := incremental s in
  sok s → content_ok inc m → valid_text t → valid_text c →
  coherent m t c records → Forall valid_text doomed → Forall (λ i, text_ok i = true) kept →
  (inc = true → view_referenced m t c kept = Ok keep) →
  wp (drop_checkpoints t c doomed kept records) s (λ _ s',
    at_view (drop_view inc (store_indexes_max_key s) t c doomed kept keep m)
      (set_max_seen (drop_hints s (dropped inc t c doomed keep m) t c doomed) s) s').
Proof.
  intros m inc Hs Hm Ht Hc Hr Hd Hk Hkeep. unfold drop_checkpoints.
  pose proof (ref_keys_lists m (blobs_ns t c)) as Hbl.
  apply wp_bind, wp_gets. fold inc.
  (* the blobs *)
  apply wp_bind_mono with (R := λ _ s1, ∃ l, lists_keys m (blobs_ns t c) None l ∧
    at_view (if inc then kv_delete_many ((λ b, (blobs_ns t c, b)) <$> filter (λ b, b ∉ keep) l) m
             else m) s s1).
  { destruct inc eqn:Einc.
    - eapply wp_bind, (steady_wp m s); [|by apply at_view_refl|].
      { apply referenced_blobs_steady; [done| |done..|by apply Hkeep].
        eapply Forall_impl; [exact Hk|]. intros i. apply text_ok_valid. }
      intros s1 H1. destruct (keys_at s1 (blobs_ns t c)) as (l&(s2&E&H2)&Hl);
        [by eapply at_view_ok|auto with text|]. rewrite (at_view_view _ _ _ H1) in H2, Hl.
      eapply wp_bind, wp_intro; [exact E|].
      eapply wp_mono; [apply (writes_delete_many s2); [by eapply at_view_ok|]|].
      + apply Forall_fmap, Forall_forall. intros b [_ Hb]%list_elem_of_filter.
        split; cbn; [auto with text|]. pose proof (lists_keys_valid s _ _ _ Hs Hl) as Hv.
        by eapply Forall_forall in Hv.
      + intros [] s3 H3. cbn beta in H3. rewrite (at_view_view _ _ _ H2) in H3. exists l.
        split; [done|]. by eapply at_view_trans, at_view_trans.
    - apply wp_ret. eexists. split; [exact Hbl|]. by apply at_view_refl. }
  intros [] s1 (l&Hl&H1).
  (* the writes of the doomed, the doomed *)
  eapply wp_bind_mono.
  { apply (writes_for_each doomed _ (λ i, kv_delete_namespace (writes_ns t c i)) s1);
      [by eapply at_view_ok|].
    intros i s2 Hi Hs2. apply writes_delete_namespace; [done|].
    eapply Forall_forall in Hd; [|exact Hi]. auto with text. }
  intros [] s2 H2. cbn beta in H2. rewrite (at_view_view _ _ _ H1) in H2.
  eapply wp_bind_mono.
  { apply (writes_delete_many s2); [by eapply at_view_ok|]. apply Forall_fmap.
    eapply Forall_impl; [exact Hd|]. intros i Hi. split; [by apply valid_ckpt_ns|done]. }
  intros [] s3 H3. cbn beta in H3. rewrite (at_view_view _ _ _ H2) in H3.
  rewrite (foldl_map (λ m ns, kv_delete_namespace ns m) (writes_ns t c)) in H3.
  rewrite (dropped_eq inc t c doomed keep m l Hl) in H3.
  set (m' := dropped inc t c doomed keep m) in *.
  assert (at_view m' s s3) as H03 by (by eapply at_view_trans, at_view_trans).
  apply wp_bind, wp_gets. rewrite (at_view_indexes _ _ _ H03). unfold drop_view.
  destruct (store_indexes_max_key s) eqn:Eix.
  { apply wp_ret. unfold drop_hints. rewrite Eix. cbn [negb andb]. by rewrite set_max_seen_id. }
  eapply wp_mono.
  { apply (repoint_wp s3 m'); [by eapply at_view_ok|by eapply at_view_view| |done..| |done].
    - by rewrite (at_view_indexes _ _ _ H03).
    - intros k v. unfold m', dropped. rewrite filter_lookup. destruct (drop_rows _ _ _ _ _ _); [done|].
      by apply (content_pointers _ _ Hm). }
  intros [] s4 H4. cbn beta in H4. fold m'.
  replace (drop_hints s3 m' t c doomed) with (drop_hints s m' t c doomed) in H4.
  2:{ unfold drop_hints. by rewrite (at_view_indexes _ _ _ H03), (at_view_max_seen _ _ _ H03). }
  destruct H03 as (st&b&->&_). destruct H4 as (st4&b4&->&?&?). by exists st4, b4.
Qed.

(** *** Trimming *)

(** The checkpoints that stay. *)
Definition kept_set (keep : Z) (ids : list pystr) (anc : gset pystr) : gset pystr :=
  list_to_set (slice_last keep ids) ∪ anc.

Definition doomed_ids (keep : Z) (ids : list pystr) (anc : gset pystr) : list pystr :=
  filter (λ i, i ∉ kept_set keep ids anc) ids.

Definition trim_view (inc indexed : bool) t c (ids : list pystr) (keep : Z) (anc blobs : gset pystr)
    m : kv :=
  match doomed_ids keep ids anc with
  | [] => m
  | doomed => drop_view inc indexed t c doomed
                (py_sorted (elements (kept_set keep ids anc))) blobs m
  end.

Lemma slice_last_sub {A : Type} keep (ids : list A) x : x ∈ slice_last keep ids → x ∈ ids.
Proof. unfold slice_last. case_match; apply subseteq_drop. Qed.

(** A pointer that survives a trim without doomed ids, or one with them. *)
Lemma trim_wp s fuel t c (ids : list pystr) keep anc blobs :
  let m := sview s in
  let inc := incremental s in
  sok s → content_ok inc m → valid_text t → valid_text c → names_ok m t c → parents_ok m t c →
  Forall (λ i, text_ok i = true) ids → (∀ i, i ∈ anc → text_ok i = true) →
  view_ancestors fuel m t c (slice_last keep ids) = Ok anc →
  (inc = true → view_referenced m t c (py_sorted (elements (kept_set keep ids anc))) = Ok blobs) →
  wp (trim fuel t c ids keep) s (λ n s',
    n = size (kept_set keep ids anc) ∧
    ∃ hints, hints ⊆ max_seen s ∧ at_view (trim_view inc (store_indexes_max_key s) t c ids keep anc blobs m)
               (set_max_seen hints s) s').
Proof.
  intros m inc Hs Hm Ht Hc Hn Hp Hids Hanc Hview Hblobs. unfold trim.
  set (survivors := slice_last keep ids) in *.
  assert (Forall valid_text survivors) as Hsurv.
  { apply Forall_forall. intros i Hi%slice_last_sub. apply text_ok_valid.
    by eapply (proj1 (Forall_forall _ _)) in Hids. }
  eapply wp_bind, (steady_wp m s); [apply steady_get_many; auto with text|by apply at_view_refl|].
  intros s1 H1.
  assert (coherent m t c ∅) as Hempty by (intros i v Hi; by rewrite lookup_empty in Hi).
  destruct (delta_ancestors_steady m s t c fuel survivors
    (dict_zip survivors (kv_get m (ckpt_ns t c) <$> survivors) ∅) anc)
    as (records&[Hr _]&Hst); try done.
  { by apply coherent_dict_zip. }
  { intros i Hi. apply dict_zip_dom; [by rewrite length_fmap|by left]. }
  eapply wp_bind, (steady_wp m s); [exact Hst|exact H1|]. intros s2 H2.
  cbv beta iota zeta. change (list_to_set survivors ∪ anc) with (kept_set keep ids anc).
  change (filter (λ i, i ∉ kept_set keep ids anc) ids) with (doomed_ids keep ids anc).
  unfold trim_view. destruct (doomed_ids keep ids anc) as [|x doomed] eqn:Ed.
  { apply wp_bind, wp_ret, wp_ret. split; [done|]. exists (max_seen s). split; [done|]. by rewrite set_max_seen_id. }
  rewrite <-Ed. eapply wp_bind_mono.
  - apply (drop_checkpoints_wp s2 t c (doomed_ids keep ids anc) _ records blobs);
      rewrite ?(at_view_view _ _ _ H2), ?(at_view_incremental _ _ _ H2);
      [by eapply at_view_ok|done..| | |done].
    + apply Forall_forall. intros i [_ Hi]%list_elem_of_filter. apply text_ok_valid.
      by eapply (proj1 (Forall_forall _ _)) in Hids.
    + apply Forall_forall. intros i Hi. rewrite elem_of_py_sorted, elem_of_elements in Hi.
      unfold kept_set in Hi. apply elem_of_union in Hi as [Hi|Hi]; [|by apply Hanc].
      apply elem_of_list_to_set, slice_last_sub in Hi.
      by eapply (proj1 (Forall_forall _ _)) in Hids.
  - intros [] s3 H3. cbn beta in H3. apply wp_ret. split; [done|].
    rewrite (at_view_view _ _ _ H2), (at_view_incremental _ _ _ H2), (at_view_indexes _ _ _ H2) in H3.
    destruct H2 as (st&b&->&_). eexists. split; [|destruct H3 as (st3&b3&->&?&?); by exists st3, b3].
    exact (drop_hints_sub (set_takes_prefix b (set_store st s)) _ _ _ _).
Qed.

(** The walks only visit stored checkpoints. *)
Lemma kv_get_stored m ns k : is_none (kv_get m ns k) = false → is_Some (m !! (ns, k)).
Proof. unfold kv_get. destruct (m !! (ns, k)); [by eexists|done]. Qed.

Lemma view_walk_stored fuel m t c cursor missing vs i :
  view_walk fuel m t c cursor missing = Ok vs → i ∈ vs → is_Some (m !! (ckpt_ns t c, i)).
Proof.
  revert cursor missing vs. induction fuel as [|fuel IH]; intros cursor missing vs;
    cbn [view_walk]; destruct (_ || _); try done.
  1,2: by intros [= <-] []%not_elem_of_nil.
  destruct (as_str cursor) as [p| |]; cbn [mbind result_bind]; [|done..].
  destruct (is_none (kv_get m (ckpt_ns t c) p)) eqn:En; [by intros [= <-] []%not_elem_of_nil|].
  destruct (view_channel_values _ _ _ _ _) as [found| |]; cbn [mbind result_bind]; [|done..].
  destruct (py_get _ _) as [parent| |]; cbn [mbind result_bind]; [|done..].
  destruct (view_walk fuel m t c parent _) as [rest| |] eqn:Er; cbn [mbind result_bind]; [|done..].
  intros [= <-] [->|Hi]%elem_of_cons; [by apply kv_get_stored|by eapply IH].
Qed.

Lemma view_needed_stored fuel m t c i vs j :
  view_needed fuel m t c i = Ok vs → j ∈ vs → is_Some (m !! (ckpt_ns t c, j)).
Proof.
  unfold view_needed. destruct (is_none _); [by intros [= <-] []%not_elem_of_nil|].
  destruct (loads_field _ _) as [md| |]; cbn [mbind result_bind]; [|done..].
  destruct (delta_channels md) as [d| |]; cbn [mbind result_bind]; [|done..].
  destruct (negb _); [by intros [= <-] []%not_elem_of_nil|].
  destruct (name_set d) as [names| |]; cbn [mbind result_bind]; [|done..].
  destruct (view_channel_values _ _ _ _ _) as [found| |]; cbn [mbind result_bind]; [|done..].
  destruct (py_get _ _) as [cur| |]; cbn [mbind result_bind]; [|done..].
  apply view_walk_stored.
Qed.

Lemma view_ancestors_stored fuel m t c survivors anc j :
  view_ancestors fuel m t c survivors = Ok anc → j ∈ anc → is_Some (m !! (ckpt_ns t c, j)).
Proof.
  unfold view_ancestors.
  assert (∀ i : pystr, i ∈ (∅ : gset pystr) → is_Some (m !! (ckpt_ns t c, i))) as H0
    by (intros i Hi; by apply not_elem_of_empty in Hi).
  revert H0. generalize (∅ : gset pystr). induction survivors as [|i l IH]; intros acc H0; cbn [foldR].
  - intros [= ->]. apply H0.
  - destruct (view_needed fuel m t c i) as [vs| |] eqn:E; cbn [mbind result_bind]; [|done..].
    apply IH. intros k [Hk|Hk]%elem_of_union; [|by apply H0].
    apply elem_of_list_to_set in Hk. by eapply view_needed_stored.
Qed.

(** The blobs of every checkpoint in the list are among those referenced. *)
Lemma view_referenced_in m t c ids keep i :
  view_referenced m t c ids = Ok keep → i ∈ ids →
  ∃ bs, record_blobs (kv_get m (ckpt_ns t c) i) = Ok bs ∧ bs ⊆ keep.
Proof.
  unfold view_referenced. generalize (∅ : gset pystr).
  induction ids as [|j ids IH]; intros acc; [by intros _ []%not_elem_of_nil|]. cbn [foldR].
  destruct (record_blobs (kv_get m (ckpt_ns t c) j)) as [bs| |] eqn:E;
    cbn [mbind result_bind]; [|done..].
  intros Hk [->|Hi]%elem_of_cons; [|by eapply IH].
  exists bs. split; [done|].
  assert (∀ l acc keep, foldR l (λ keep i,
    blobs ← record_blobs (kv_get m (ckpt_ns t c) i); Ok (keep ∪ blobs)) acc = Ok keep →
    acc ⊆ keep) as Hmono.
  { clear. induction l as [|x l IH]; intros acc keep; cbn [foldR]; [by intros [= <-]|].
    destruct (record_blobs _) as [bs| |]; cbn [mbind result_bind]; [|done..].
    intros Hk%IH. set_solver. }
  apply Hmono in Hk. set_solver.
Qed.

Lemma record_blobs_in saved bs cp (vs : pydict) e :
  is_none saved = false → record_blobs saved = Ok bs →
  loads_field saved (key "cp") = Ok cp → channel_versions cp = Ok vs → e ∈ vs →
  blob_key e.1 e.2 ∈ bs.
Proof.
  intros Hn Hr Hcp Hvs He. unfold record_blobs in Hr. rewrite Hn, Hcp in Hr.
  cbn [mbind result_bind] in Hr. rewrite Hvs in Hr. injection Hr as <-.
  apply elem_of_list_to_set, list_elem_of_fmap. by exists e.
Qed.

(** *** The content after a trim *)

Lemma repointed_other m t c doomed kept ns k :
  ns ≠ LATEST_NS → repointed m t c doomed kept !! (ns, k) = m !! (ns, k).
Proof.
  intros Hns. unfold repointed. destruct (pointer_doomed m t c doomed); [|done].
  destruct (py_max kept); [rewrite lookup_insert_ne|rewrite lookup_delete_ne]; try done;
    intros Heq%(f_equal fst); by apply Hns.
Qed.

Lemma trim_view_other inc indexed t c ids keep anc blobs m ns k :
  ns ≠ LATEST_NS →
  trim_view inc indexed t c ids keep anc blobs m !! (ns, k) =
    if bool_decide (doomed_ids keep ids anc ≠ []) &&
       drop_rows inc t c (doomed_ids keep ids anc) blobs (ns, k)
    then None else m !! (ns, k).
Proof.
  intros Hns. unfold trim_view. destruct (doomed_ids keep ids anc) as [|x d] eqn:E; [done|].
  rewrite bool_decide_true by done. cbn [andb]. unfold drop_view. destruct indexed.
  - unfold dropped. by rewrite filter_lookup.
  - rewrite repointed_other by done. unfold dropped. by rewrite filter_lookup.
Qed.

Lemma writes_ns_inj_id t c i j : writes_ns t c i = writes_ns t c j → i = j.
Proof.
  intros H. apply app_inv_head in H. injection H as H. apply app_inv_head in H.
  injection H as H. apply app_inv_head in H. by injection H.
Qed.

Lemma drop_rows_ckpt inc t c doomed blobs k :
  drop_rows inc t c doomed blobs (ckpt_ns t c, k) = bool_decide (k ∈ doomed).
Proof.
  unfold drop_rows. cbn [fst snd]. rewrite str_eqb_neq by auto with text. rewrite andb_false_r.
  rewrite bool_decide_false, str_eqb_refl; [done|].
  intros (i&Heq&_)%list_elem_of_fmap. by apply (ckpt_ne_writes t c t c i).
Qed.

Lemma drop_rows_writes inc t c doomed blobs i k :
  drop_rows inc t c doomed blobs (writes_ns t c i, k) = bool_decide (i ∈ doomed).
Proof.
  unfold drop_rows. cbn [fst snd]. rewrite !str_eqb_neq by auto with text.
  rewrite andb_false_r, orb_false_r. cbn [orb]. apply bool_decide_ext.
  rewrite list_elem_of_fmap. split; [intros (j&->%writes_ns_inj_id&Hj); done|intros; by exists i].
Qed.

Lemma drop_rows_blobs inc t c doomed blobs k :
  drop_rows inc t c doomed blobs (blobs_ns t c, k) = inc && bool_decide (k ∉ blobs).
Proof.
  unfold drop_rows. cbn [fst snd]. rewrite str_eqb_refl, str_eqb_neq by auto with text.
  rewrite (bool_decide_false (blobs_ns t c ∈ writes_ns t c <$> doomed)).
  - by rewrite andb_false_l, !orb_false_r.
  - intros (i&Heq&_)%list_elem_of_fmap. by apply (writes_ne_blobs t c i t c).
Qed.

Lemma doomed_elem keep ids anc i :
  i ∈ doomed_ids keep ids anc ↔ i ∈ ids ∧ i ∉ kept_set keep ids anc.
Proof. unfold doomed_ids. rewrite list_elem_of_filter. tauto. Qed.

Lemma trim_view_record inc indexed t c ids keep anc blobs m i :
  trim_view inc indexed t c ids keep anc blobs m !! (ckpt_ns t c, i) =
    if decide (i ∈ doomed_ids keep ids anc) then None else m !! (ckpt_ns t c, i).
Proof.
  rewrite trim_view_other by auto with text. rewrite drop_rows_ckpt.
  destruct (decide (i ∈ doomed_ids keep ids anc)) as [Hi|Hi].
  - rewrite (bool_decide_true _ Hi), bool_decide_true; [done|].
    intros E. rewrite E in Hi. by apply not_elem_of_nil in Hi.
  - by rewrite (bool_decide_false _ Hi), andb_false_r.
Qed.

(** A checkpoint that stays reads back as before. *)
Lemma trim_view_tuple inc indexed t c ids keep anc blobs m i saved md :
  content_ok inc m → m !! (ckpt_ns t c, i) = Some saved → is_none saved = false →
  i ∈ kept_set keep ids anc →
  (inc = true → view_referenced m t c (py_sorted (elements (kept_set keep ids anc))) = Ok blobs) →
  view_tuple (trim_view inc indexed t c ids keep anc blobs m) inc t c i saved md =
    view_tuple m inc t c i saved md.
Proof.
  intros Hm Hsaved Hnone Hi Hblobs.
  assert (i ∉ doomed_ids keep ids anc) as Hnd by (intros [_ ?]%doomed_elem; done).
  symmetry. apply view_tuple_frame; [by eapply content_writes| |].
  - intros k. rewrite trim_view_other by auto with text.
    by rewrite drop_rows_writes, (bool_decide_false _ Hnd), andb_false_r.
  - intros Hinc cp vs e Hcp Hvs He. unfold kv_get at 2.
    rewrite trim_view_other by auto with text. rewrite drop_rows_blobs.
    rewrite (bool_decide_false (blob_key e.1 e.2 ∉ blobs)); [by rewrite !andb_false_r|].
    intros Hk. apply Hk.
    destruct (view_referenced_in m t c _ _ i (Hblobs Hinc)) as (bs&Hbs&Hsub).
    { by rewrite elem_of_py_sorted, elem_of_elements. }
    unfold kv_get in Hbs. rewrite Hsaved in Hbs. cbn [from_option id] in Hbs.
    apply Hsub. by eapply record_blobs_in.
Qed.

(** *** The walks end *)

(** Records decode, and a parent is older than its child: checkpoint ids grow. *)
Definition chain_ok m t c : Prop :=
  ∀ i, is_Some (m !! (ckpt_ns t c, i)) →
    let saved := kv_get m (ckpt_ns t c) i in
    (∃ md d, loads_field saved (key "md") = Ok md ∧ delta_channels md = Ok d ∧
       (truthy d = true → ∃ names, name_set d = Ok names)) ∧
    (∀ chs, ∃ found, view_channel_values m t c saved chs = Ok found) ∧
    (∃ p, py_get saved (key "parent") = Ok p ∧ (p = PNone ∨ ∃ q, p = PStr q ∧ str_lt q i)).

(** How many checkpoints a walk from [p] can still meet. *)
Definition below m t c (p : pystr) : nat :=
  length (filter (λ j, str_le j p) (ref_keys m (ckpt_ns t c))).

Lemma below_lt m t c p q :
  is_Some (m !! (ckpt_ns t c, p)) → str_lt q p → below m t c q < below m t c p.
Proof.
  intros Hp Hq. unfold below. destruct (ref_keys_lists m (ckpt_ns t c)) as [Hnd Hl].
  assert (p ∈ ref_keys m (ckpt_ns t c)) as Hin by (by apply Hl).
  revert Hnd Hin. generalize (ref_keys m (ckpt_ns t c)) as l. clear -Hq.
  induction l as [|j l IH]; [by intros _ []%not_elem_of_nil|].
  intros [Hj Hnd]%NoDup_cons Hin. rewrite !filter_cons.
  assert (length (filter (λ j, str_le j q) l) ≤ length (filter (λ j, str_le j p) l)) as Hmono.
  { clear -Hq. induction l as [|x l IH]; [done|]. rewrite !filter_cons.
    assert (str_le x q → str_le x p) as Himp.
    { intros Hx. apply (transitivity (y:=q)); [done|]. by apply str_lt_le. }
    repeat case_decide; cbn [length]; first [lia|tauto]. }
  destruct (decide (j = p)) as [->|Hne].
  - rewrite (decide_True (P:=str_le p p)) by done.
    rewrite decide_False by (by apply str_nle_lt). cbn [length]. lia.
  - apply elem_of_cons in Hin as [->|Hin]; [done|]. specialize (IH Hnd Hin).
    assert (str_le j q → str_le j p) as Himp.
    { intros Hx. apply (transitivity (y:=q)); [done|]. by apply str_lt_le. }
    repeat case_decide; cbn [length]; first [lia|tauto].
Qed.

Lemma below_le m t c p : below m t c p ≤ length (ref_keys m (ckpt_ns t c)).
Proof. apply length_filter. Qed.

Lemma view_walk_ends fuel m t c cursor missing :
  chain_ok m t c → (cursor = PNone ∨ ∃ p, cursor = PStr p ∧ below m t c p < fuel) →
  ∃ vs, view_walk fuel m t c cursor missing = Ok vs.
Proof.
  intros Hm. revert cursor missing. induction fuel as [|fuel IH]; intros cursor missing Hcur;
    cbn [view_walk]; destruct (bool_decide (missing = ∅) || negb (truthy cursor)) eqn:E;
    try by eexists.
  - destruct Hcur as [->|(p&->&?)]; [by rewrite orb_true_r in E|lia].
  - destruct Hcur as [->|(p&->&Hp)]; [by rewrite orb_true_r in E|]. cbn [as_str mbind result_bind].
    destruct (is_none _) eqn:En; [by eexists|]. apply kv_get_stored in En.
    destruct (Hm p En) as (_&Hcv&(par&Hpar&Hq)). destruct (Hcv missing) as [found ->].
    cbn [mbind result_bind]. rewrite Hpar. cbn [mbind result_bind].
    destruct (IH par (missing ∖ list_to_set found.*1)) as [rest ->]; [|by eexists].
    destruct Hq as [->|(q&->&Hq)]; [by left|]. right. exists q. split; [done|].
    pose proof (below_lt m t c p q En Hq). lia.
Qed.

Lemma view_needed_ends fuel m t c i :
  chain_ok m t c → length (ref_keys m (ckpt_ns t c)) < fuel →
  ∃ vs, view_needed fuel m t c i = Ok vs.
Proof.
  intros Hm Hf. unfold view_needed. destruct (is_none _) eqn:En; [by eexists|].
  apply kv_get_stored in En. destruct (Hm i En) as ((md&d&->&Hd&Hnames)&Hcv&(par&Hpar&Hq)).
  cbn [mbind result_bind]. rewrite Hd. cbn [mbind result_bind].
  destruct (truthy d); [|by eexists]. destruct (Hnames eq_refl) as [names ->].
  cbn [negb mbind result_bind]. destruct (Hcv names) as [found ->]. cbn [mbind result_bind].
  rewrite Hpar. cbn [mbind result_bind]. apply view_walk_ends; [done|].
  destruct Hq as [->|(q&->&Hq)]; [by left|right]. exists q. split; [done|].
  pose proof (below_le m t c q). lia.
Qed.

Lemma view_ancestors_ends fuel m t c survivors :
  chain_ok m t c → length (ref_keys m (ckpt_ns t c)) < fuel →
  ∃ anc, view_ancestors fuel m t c survivors = Ok anc.
Proof.
  intros Hm Hf. unfold view_ancestors. generalize (∅ : gset pystr).
  induction survivors as [|i l IH]; intros acc; cbn [foldR]; [by eexists|].
  destruct (view_needed_ends fuel m t c i Hm Hf) as [vs ->]. apply IH.
Qed.

End reads.

Section theorems.
Context {S : Type} `{ops : !StoreOps S} `{spec : !StoreSpec S}.
Context `{lg : !LangGraph} `{lgspec : !LangGraphSpec}.
Implicit Types (s : Saver S) (t c i : pystr) (m : kv).

(** C7: [_trim] keeps the newest [keep] checkpoints and the ancestors their
    delta channels are rebuilt from, drops every other checkpoint of the thread
    with its pending writes, and returns how many it kept. Every checkpoint it
    keeps reads back exactly as before: same values (in the incremental mode no
    blob it refers to is lost, however the checkpoints were forked), same
    metadata, parent and writes. Nothing outside this thread and checkpoint
    namespace changes, but for the latest pointer. *)
Theorem trim_keeps_survivors s fuel t c l keep anc blobs :
  let m := sview s in
  let inc := incremental s in
  let ids := py_sorted l in
  let kept := kept_set keep ids anc in
  sok s → content_ok inc m → valid_text t → valid_text c →
  names_ok m t c → parents_ok m t c →
  lists_keys m (ckpt_ns t c) None l →
  view_ancestors fuel m t c (slice_last keep ids) = Ok anc →
  (inc = true → view_referenced m t c (py_sorted (elements kept)) = Ok blobs) →
  wp (trim fuel t c ids keep) s (λ n s',
    n = size kept ∧
    (∀ i, i ∈ slice_last keep ids → i ∈ kept) ∧
    (∀ i, sview s' !! (ckpt_ns t c, i) = if decide (i ∈ kept) then m !! (ckpt_ns t c, i) else None) ∧
    (∀ i k, i ∈ ids → i ∉ kept → sview s' !! (writes_ns t c i, k) = None) ∧
    (∀ i saved md, i ∈ kept → m !! (ckpt_ns t c, i) = Some saved → is_none saved = false →
       view_tuple (sview s') inc t c i saved md = view_tuple m inc t c i saved md) ∧
    (∀ ns k, ns ≠ LATEST_NS → ns ≠ ckpt_ns t c → ns ≠ blobs_ns t c →
       (∀ i, ns ≠ writes_ns t c i) → sview s' !! (ns, k) = m !! (ns, k))).
Proof.
  intros m inc ids kept Hs Hm Ht Hc Hn Hp [Hnd Hl] Hanc Hblobs.
  assert (∀ i, i ∈ ids ↔ is_Some (m !! (ckpt_ns t c, i))) as Hids.
  { intros i. unfold ids. rewrite elem_of_py_sorted, Hl. by split; [intros [? _]|]. }
  eapply wp_mono; [apply (trim_wp s fuel t c ids keep anc blobs); try done|].
  { apply Forall_forall. intros i Hi%Hids. by eapply content_ids. }
  { intros i Hi. eapply content_ids; [done|]. by eapply view_ancestors_stored. }
  intros n s' [-> [hints [_ H']]]. cbn beta in H'. rewrite (at_view_view _ _ _ H'). fold m inc kept.
  split_and!.
  - done.
  - intros i Hi. unfold kept, kept_set. rewrite elem_of_union, elem_of_list_to_set. by left.
  - intros i. rewrite trim_view_record. destruct (decide (i ∈ kept)) as [Hk|Hk].
    + rewrite decide_False; [done|]. by intros [_ ?]%doomed_elem.
    + destruct (m !! (ckpt_ns t c, i)) as [v|] eqn:E; [|by case_decide].
      rewrite decide_True; [done|]. apply doomed_elem. split; [|done]. apply Hids. by eexists.
  - intros i k Hi Hk. rewrite trim_view_other by auto with text. rewrite drop_rows_writes.
    assert (i ∈ doomed_ids keep ids anc) as Hd by (by apply doomed_elem).
    rewrite (bool_decide_true _ Hd), bool_decide_true; [done|].
    intros E. rewrite E in Hd. by apply not_elem_of_nil in Hd.
  - intros i saved md Hi Hsaved Hnone. by apply trim_view_tuple.
  - intros ns k H1 H2 H3 H4. rewrite trim_view_other by done. unfold drop_rows. cbn [fst snd].
    rewrite !str_eqb_neq by done. rewrite (bool_decide_false (ns ∈ writes_ns t c <$> _));
      [by rewrite !andb_false_r|].
    intros (i&->&_)%list_elem_of_fmap. by apply (H4 i).
Qed.

(** C13: the walk up the parent chain ends. When the records of the thread decode
    and every parent id is smaller than its child's, one unit of fuel more than
    the number of stored checkpoints is enough, whatever the survivors; the walk
    changes nothing in the store and returns stored checkpoints only. *)
Theorem delta_ancestors_ends s fuel t c survivors :
  let m := sview s in
  sok s → valid_text t → valid_text c → names_ok m t c → parents_ok m t c → chain_ok m t c →
  length (ref_keys m (ckpt_ns t c)) < fuel →
  wp (delta_ancestors fuel t c survivors
        (dict_zip survivors (kv_get m (ckpt_ns t c) <$> survivors) ∅)) s (λ r s',
    sview s' = m ∧ ∀ i, i ∈ r.2 → is_Some (m !! (ckpt_ns t c, i))).
Proof.
  intros m Hs Ht Hc Hn Hp Hm Hf.
  destruct (view_ancestors_ends fuel m t c survivors Hm Hf) as [anc Hanc].
  assert (coherent m t c ∅) as Hempty by (intros i v Hi; by rewrite lookup_empty in Hi).
  destruct (delta_ancestors_steady m s t c fuel survivors
    (dict_zip survivors (kv_get m (ckpt_ns t c) <$> survivors) ∅) anc)
    as (records&_&Hst); try done.
  { by apply coherent_dict_zip. }
  { intros i Hi. apply dict_zip_dom; [by rewrite length_fmap|by left]. }
  eapply steady_wp; [exact Hst|by apply at_view_refl|]. intros s' H'. cbn [snd].
  split; [by eapply at_view_view|]. intros i. by eapply view_ancestors_stored.
Qed.

(** The size a thread may reach before it is cut back, from what the last trim kept. *)
Definition prune_bound (floor : Z) : Z := (floor + Z.max PRUNE_SLACK (floor / 4))%Z.
Definition floor_of (limit : Z) (floors : gmap (pystr * pystr) Z) t c : Z :=
  Z.max limit (from_option id limit (floors !! (t, c))).

Lemma prune_bound_mono x y : (x ≤ y)%Z → (prune_bound x ≤ prune_bound y)%Z.
Proof. intros H. unfold prune_bound. pose proof (Z.div_le_mono x y 4 ltac:(lia) H). lia. Qed.

Lemma prune_bound_ge x : (x ≤ prune_bound x)%Z.
Proof. unfold prune_bound, PRUNE_SLACK. lia. Qed.

Lemma ref_keys_size m (ns : pystr) (k : gset pystr) :
  (∀ i, is_Some (m !! (ns, i)) ↔ i ∈ k) → length (ref_keys m ns) = size k.
Proof.
  intros Hk. destruct (ref_keys_lists m ns) as [Hnd Hl].
  rewrite <-(size_list_to_set (C:=gset pystr)) by done. f_equal. apply set_eq. intros i.
  rewrite elem_of_list_to_set, Hl, <-Hk. cbn. tauto.
Qed.

(** A trim leaves the checkpoints it keeps, all of which are there. *)
(** What is left of the thread is what was to be kept. *)
Lemma trim_view_kept inc indexed t c keep anc blobs m i :
  let ids := py_sorted (ref_keys m (ckpt_ns t c)) in
  trim_view inc indexed t c ids keep anc blobs m !! (ckpt_ns t c, i) =
    if decide (i ∈ kept_set keep ids anc) then m !! (ckpt_ns t c, i) else None.
Proof.
  intros ids. rewrite trim_view_record. destruct (decide (i ∈ doomed_ids keep ids anc)) as [Hd|Hd].
  - apply doomed_elem in Hd as [_ Hd]. by rewrite decide_False.
  - destruct (decide (i ∈ kept_set keep ids anc)) as [|Hk]; [done|].
    destruct (m !! (ckpt_ns t c, i)) as [v|] eqn:E; [|done]. destruct Hd. apply doomed_elem. split; [|done].
    unfold ids. rewrite elem_of_py_sorted. apply (proj2 (ref_keys_lists m (ckpt_ns t c))). split; [by exists v|done].
Qed.

Lemma trim_view_size inc indexed t c keep anc blobs m fuel :
  let ids := py_sorted (ref_keys m (ckpt_ns t c)) in
  view_ancestors fuel m t c (slice_last keep ids) = Ok anc →
  length (ref_keys (trim_view inc indexed t c ids keep anc blobs m) (ckpt_ns t c)) =
    size (kept_set keep ids anc).
Proof.
  intros ids Hanc. apply ref_keys_size. intros i. rewrite trim_view_record.
  assert (i ∈ ids ↔ is_Some (m !! (ckpt_ns t c, i))) as Hids.
  { unfold ids. rewrite elem_of_py_sorted, (proj2 (ref_keys_lists m (ckpt_ns t c))). cbn. tauto. }
  destruct (decide (i ∈ doomed_ids keep ids anc)) as [Hd|Hd].
  - apply doomed_elem in Hd as [_ Hd]. split; [by intros []|done].
  - split.
    + intros Hi%Hids. destruct (decide (i ∈ kept_set keep ids anc)); [done|]. destruct Hd. by apply doomed_elem.
    + unfold kept_set. rewrite elem_of_union, elem_of_list_to_set.
      intros [Hi|Hi]; [by apply slice_last_sub in Hi; apply Hids|by eapply view_ancestors_stored].
Qed.

(** C14: retention bounds a thread. [_prune_thread] (which every [put] runs when a
    limit is set) leaves a thread alone, and what it remembers of it, while it has at
    most [floor + max(8, floor / 4)] checkpoints, [floor] being the limit or what the
    last trim had to keep for delta channels, if more; a longer thread is cut down to
    exactly the newest [limit] checkpoints and the ancestors those need, and that
    number is what it remembers. The newest [limit] are all still there; the floors of
    other threads do not change, but may be forgotten. So while no trim has to keep
    more than some [B] (at least the limit), the remembered floor never passes [B] and
    a thread has at most [B + max(8, B / 4)] checkpoints after every [put]. *)
Theorem prune_thread_bounds s fuel t c limit anc blobs :
  let m := sview s in
  let inc := incremental s in
  let ids := py_sorted (ref_keys m (ckpt_ns t c)) in
  let kept := kept_set limit ids anc in
  sok s → content_ok inc m → valid_text t → valid_text c →
  names_ok m t c → parents_ok m t c → max_checkpoints_per_thread s = Some limit →
  view_ancestors fuel m t c (slice_last limit ids) = Ok anc →
  (inc = true → view_referenced m t c (py_sorted (elements kept)) = Ok blobs) →
  wp (prune_thread fuel t c) s (λ _ s',
    (if decide (Z.of_nat (length ids) ≤ prune_bound (floor_of limit (prune_floor s) t c))%Z
     then sview s' = m ∧ prune_floor s' = prune_floor s
     else (∀ i, sview s' !! (ckpt_ns t c, i) = if decide (i ∈ kept) then m !! (ckpt_ns t c, i) else None) ∧
          length (ref_keys (sview s') (ckpt_ns t c)) = size kept ∧
          prune_floor s' !! (t, c) = Some (Z.of_nat (size kept))) ∧
    (∀ i, i ∈ slice_last limit ids → sview s' !! (ckpt_ns t c, i) = m !! (ckpt_ns t c, i)) ∧
    (∀ p n, p ≠ (t, c) → prune_floor s' !! p = Some n → prune_floor s !! p = Some n) ∧
    (∀ B, limit ≤ B → Z.of_nat (size kept) ≤ B → floor_of limit (prune_floor s) t c ≤ B →
       floor_of limit (prune_floor s') t c ≤ B ∧
       Z.of_nat (length (ref_keys (sview s') (ckpt_ns t c))) ≤ prune_bound B)%Z).
Proof.
  intros m inc ids kept Hs Hm Ht Hc Hn Hp Hlim Hanc Hblobs. unfold prune_thread.
  apply wp_bind, wp_gets. rewrite Hlim. apply wp_bind, wp_gets.
  destruct (keys_at s (ckpt_ns t c)) as (l&(s1&E&H1)&Hl); [done|auto with text|].
  fold m in H1, Hl. eapply wp_bind, wp_intro; [exact E|].
  pose proof (lists_keys_perm _ _ _ _ _ Hl (ref_keys_lists m (ckpt_ns t c))) as Hperm.
  rewrite (Permutation_length Hperm). rewrite (py_sorted_eq _ _ Hperm). fold ids.
  assert (length (ref_keys m (ckpt_ns t c)) = length ids) as -> by (unfold ids; by rewrite py_sorted_perm).
  fold (floor_of limit (prune_floor s) t c). fold (prune_bound (floor_of limit (prune_floor s) t c)).
  destruct (Z.leb_spec (Z.of_nat (length ids)) (prune_bound (floor_of limit (prune_floor s) t c))) as [Hle|Hgt].
  { apply wp_ret. rewrite decide_True by done.
    rewrite (at_view_view _ _ _ H1), (at_view_prune_floor _ _ _ H1). split_and!; [done..|].
    intros B _ _ HB. split; [done|]. pose proof (prune_bound_mono _ _ HB).
    assert (length (ref_keys m (ckpt_ns t c)) = length ids) as -> by (unfold ids; by rewrite py_sorted_perm).
    lia. }
  eapply wp_bind_mono.
  { apply (trim_wp s1 fuel t c ids limit anc blobs);
      rewrite ?(at_view_view _ _ _ H1), ?(at_view_incremental _ _ _ H1); try done.
    - by eapply at_view_ok.
    - apply Forall_forall. intros i Hi. eapply content_ids; [done|].
      unfold ids in Hi. rewrite elem_of_py_sorted in Hi. by apply ref_keys_lists in Hi as [? _].
    - intros i Hi. eapply content_ids; [done|]. by eapply view_ancestors_stored. }
  intros n s2 [-> [hints [_ H2]]]. fold kept.
  pose proof (at_view_prune_floor _ _ _ H2) as Hf. cbn [prune_floor set_max_seen] in Hf.
  rewrite (at_view_prune_floor _ _ _ H1) in Hf.
  rewrite (at_view_view _ _ _ H1), (at_view_incremental _ _ _ H1) in H2.
  apply wp_modify. change (sview (set_prune_floor _ s2)) with (sview s2).
  rewrite (at_view_view _ _ _ H2). cbn [prune_floor set_prune_floor]. rewrite Hf.
  fold inc. rewrite decide_False by lia.
  pose proof (trim_view_size inc (store_indexes_max_key s1) t c limit anc blobs m fuel Hanc) as Hsize.
  cbv zeta in Hsize. fold ids kept in Hsize. rewrite Hsize, bounded_set_eq. split_and!; [|done|done| | |].
  - intros i. apply trim_view_kept.
  - intros i Hi. rewrite trim_view_record, decide_False; [done|].
    intros [_ Hk]%doomed_elem. apply Hk. unfold kept_set.
    rewrite elem_of_union, elem_of_list_to_set. by left.
  - intros p n Hne. by apply bounded_set_ne.
  - intros B HB Hk _. unfold floor_of. rewrite bounded_set_eq. cbn [from_option id].
    pose proof (prune_bound_ge B). lia.
Qed.
End theorems.

(** ** Examples

    A thread of twelve checkpoints, [b0] to [b7] and [c0] to [c3]. The delta channel
    [x] has a value in [c1] only, so the newest one, [c3], depends on [c2] and [c1]. *)

Definition ex_delta_md : pyval := PDict [(PStr DELTA_COUNTERS, PDict [(key "x", PInt 3)])].
Definition ex_chain_cp (i : String.string) (values : pydict) : pyval :=
  PDict [(key "id", key i); (key "channel_values", PDict values)].
Definition ex_chain_record (i : String.string) (values : pydict) (parent : option pystr) : pyval :=
  ck_record (ex_typed (ex_chain_cp i values)) (ex_typed ex_delta_md) parent.
Definition ex_chain_list : list (String.string * pydict * option pystr) :=
  [("b0", [], None); ("b1", [], Some (lit "b0")); ("b2", [], Some (lit "b1")); ("b3", [], Some (lit "b2"));
   ("b4", [], Some (lit "b3")); ("b5", [], Some (lit "b4")); ("b6", [], Some (lit "b5"));
   ("b7", [], Some (lit "b6")); ("c0", [], Some (lit "b7"));
   ("c1", [(key "x", PInt 1)], Some (lit "c0")); ("c2", [], Some (lit "c1"));
   ("c3", [], Some (lit "c2"))]%string.
Definition ex_chain_rows : list (pystr * pystr * pyval) :=
  (λ e, (ckpt_ns ex_thread [], lit e.1.1, ex_chain_record e.1.1 e.1.2 e.2)) <$> ex_chain_list.
Definition ex_chain : kv := kv_set_many ex_chain_rows ∅.
Definition ex_chain_saver (limit : option Z) : Saver kv := ex_saver false limit ex_chain.

Lemma kv_set_many_inv items p v :
  kv_set_many items ∅ !! p = Some v → (p, v) ∈ items.
Proof.
  induction items as [|[q w] items IH] using rev_ind; [unfold kv_set_many; cbn [foldl]; by rewrite lookup_empty|].
  rewrite kv_set_many_app. cbn. rewrite lookup_insert, elem_of_app, list_elem_of_singleton.
  case_decide; [subst; intros [= <-]; by right|]. intros. left. auto.
Qed.

Lemma ex_chain_inv i saved : ex_chain !! (ckpt_ns ex_thread [], i) = Some saved →
  ∃ n values parent, saved = ex_chain_record n values parent ∧ i = lit n ∧
    (n, values, parent) ∈ ex_chain_list.
Proof.
  intros ([[n values] parent]&[= -> ->]&Hin)%kv_set_many_inv%list_elem_of_fmap. by exists n, values, parent.
Qed.

(** What holds of each checkpoint of the example, by evaluation. *)
Lemma ex_chain_each (P : String.string → pydict → option pystr → bool) n values parent :
  forallb (λ e, P e.1.1 e.1.2 e.2) ex_chain_list = true →
  (n, values, parent) ∈ ex_chain_list → P n values parent = true.
Proof.
  intros Hall Hin%list_elem_of_In. rewrite forallb_forall in Hall. apply (Hall _ Hin).
Qed.

(** Looking up values stored inline always succeeds. *)
Lemma inline_values_total `{!LangGraph} m t c saved d values chs :
  loads_field saved (key "cp") = Ok (PDict d) → dict_get d (key "channel_values") = Some (PDict values) →
  ∃ found, view_channel_values m t c saved chs = Ok found.
Proof.
  intros Hcp Hd. unfold view_channel_values. rewrite Hcp. cbn [mbind result_bind py_in].
  unfold dict_has, py_getitem. rewrite Hd. cbn [mbind result_bind or_raise].
  generalize (@nil (pystr * pyval)) at 1.
  induction (elements chs) as [|ch l IH]; intros out; cbn [foldR]; [by eexists|].
  cbn [py_in mbind result_bind]. unfold dict_has.
  destruct (dict_get values (PStr ch)); cbn [or_raise mbind result_bind]; apply IH.
Qed.

Lemma ex_chain_sok : kv_ok ex_chain.
Proof.
  apply kv_ok_set_many; [apply kv_ok_empty|]. unfold ex_chain_rows, ex_chain_list. cbn [fmap list_fmap].
  repeat (apply Forall_cons; split; [split_and!; [by apply (bool_decide_unpack _)..|];
    apply storable_ck_record; [apply ex_typed_ok; by vm_compute|apply ex_typed_ok; by vm_compute|
      by apply (bool_decide_unpack _)]|]).
  by apply Forall_nil.
Qed.

Lemma ex_chain_other ns k : ns ≠ ckpt_ns ex_thread [] → ex_chain !! (ns, k) = None.
Proof.
  intros Hns. destruct (ex_chain !! (ns, k)) as [v|] eqn:E; [|done].
  apply kv_set_many_inv, list_elem_of_fmap in E as (e&E&_). destruct Hns. exact (f_equal (λ x, x.1.1) E).
Qed.

Lemma ex_record_versions n values parent cp vs :
  loads_field (ex_chain_record n values parent) (key "cp") = Ok cp → channel_versions cp = Ok vs →
  is_ok (example_dumps (ex_chain_cp n values)) = true → vs = [].
Proof.
  intros Hcp Hvs Hok. unfold ex_chain_record in Hcp.
  rewrite (ck_record_cp _ _ _ (ex_chain_cp n values)) in Hcp.
  2:{ unfold ex_typed. cbn [dumps_typed example_langgraph].
      destruct (example_dumps (ex_chain_cp n values)); [done|discriminate Hok..]. }
  injection Hcp as <-. unfold ex_chain_cp, channel_versions in Hvs. vm_compute in Hvs.
  by injection Hvs.
Qed.

Lemma ex_chain_dumps n values parent :
  (n, values, parent) ∈ ex_chain_list → is_ok (example_dumps (ex_chain_cp n values)) = true.
Proof. by apply (ex_chain_each (λ n values _, is_ok (example_dumps (ex_chain_cp n values)))). Qed.

Lemma ex_chain_names : names_ok ex_chain ex_thread [].
Proof.
  intros i. unfold kv_get. destruct (ex_chain !! _) as [saved|] eqn:E; [|by intros ????].
  apply ex_chain_inv in E as (n&values&parent&->&_&Hin). intros cp vs Hcp _ Hvs.
  rewrite (ex_record_versions n values parent cp vs Hcp Hvs); [constructor|].
  by apply ex_chain_dumps in Hin.
Qed.

Lemma ex_chain_parent n values parent i v :
  (n, values, parent) ∈ ex_chain_list → i = lit n →
  py_get (ex_chain_record n values parent) (key "parent") = Ok v →
  v = PNone ∨ ∃ q, v = PStr q ∧ valid_text q ∧ str_lt q i.
Proof.
  intros Hin -> Hv. apply (ex_chain_each (λ n _ parent, match parent with
    | None => true | Some q => bool_decide (valid_text q ∧ str_lt q (lit n)) end)) in Hin; [|by vm_compute].
  destruct parent as [q|]; [right|left].
  - apply bool_decide_eq_true in Hin. exists q. split; [|done]. by injection Hv as <-.
  - by injection Hv as <-.
Qed.

Lemma ex_chain_parents : parents_ok ex_chain ex_thread [].
Proof.
  intros i v. unfold kv_get. destruct (ex_chain !! _) as [saved|] eqn:E; [|done].
  apply ex_chain_inv in E as (n&values&parent&->&->&Hin). intros Hv p ->.
  destruct (ex_chain_parent _ _ _ _ _ Hin eq_refl Hv) as [|(q&[= ->]&?&_)]; done.
Qed.

Lemma ex_chain_content : content_ok false ex_chain.
Proof.
  split.
  - intros k v Hv. rewrite ex_chain_other in Hv by by vm_compute. done.
  - intros t c i [v Hv]. destruct (decide (ckpt_ns t c = ckpt_ns ex_thread [])) as [Heq|Hne].
    + rewrite Heq in Hv. apply ex_chain_inv in Hv as (n&values&parent&_&->&Hin).
      by apply (ex_chain_each (λ n _ _, text_ok (lit n))) in Hin.
    + by rewrite ex_chain_other in Hv.
  - intros t c i k [v Hv]. by rewrite ex_chain_other in Hv by auto with text.
  - intros t c i [=].
Qed.

Definition ex_ids : list pystr := (λ e, lit e.1.1) <$> ex_chain_list.
Definition ex_kept : gset pystr := {[ lit "c1"; lit "c2"; lit "c3" ]}.
Definition ex_anc : gset pystr := {[ lit "c1"; lit "c2" ]}.

Lemma trim_keeps_survivors_witness :
  wp (trim (ops:=full_ops) 5 ex_thread [] ex_ids 1) (ex_chain_saver (Some 1%Z)) (λ n s',
    n = 3%nat ∧
    store s' !! (ckpt_ns ex_thread [], lit "c0") = None ∧
    store s' !! (ckpt_ns ex_thread [], lit "c1") = ex_chain !! (ckpt_ns ex_thread [], lit "c1")).
Proof.
  eapply wp_mono.
  - refine (trim_keeps_survivors (ops:=full_ops) (spec:=ref_spec true true false)
              (ex_chain_saver (Some 1%Z)) 5 ex_thread [] (ref_keys ex_chain (ckpt_ns ex_thread [])) 1
              ex_anc ∅ ex_chain_sok ex_chain_content _ _ ex_chain_names ex_chain_parents
              (ref_keys_lists _ _) _ _).
    + by apply (bool_decide_unpack _).
    + by apply (bool_decide_unpack _).
    + vm_compute. reflexivity.
    + intros [=].
  - cbn beta zeta.
    assert (kept_set 1 (py_sorted (ref_keys ex_chain (ckpt_ns ex_thread []))) ex_anc = ex_kept) as Hk
      by (vm_compute; reflexivity).
    intros n s' (->&_&Hrec&_). rewrite Hk in *. split_and!.
    + vm_compute. reflexivity.
    + pose proof (Hrec (lit "c0")) as H0.
      rewrite decide_False in H0 by (by apply (bool_decide_unpack _)). exact H0.
    + pose proof (Hrec (lit "c1")) as H1.
      rewrite decide_True in H1 by (by apply (bool_decide_unpack _)). exact H1.
Defined.

Lemma ex_chain_chain_ok : chain_ok ex_chain ex_thread [].
Proof.
  intros i [saved E]. unfold kv_get. rewrite E. cbn [from_option id].
  apply ex_chain_inv in E as (n&values&parent&->&->&Hin).
  pose proof (ex_chain_parent n values parent (lit n)) as Hpar.
  pose proof (ex_chain_dumps _ _ _ Hin) as Hok.
  split_and!.
  - exists ex_delta_md, (PDict [(key "x", PInt 3)]). split_and!.
    + apply ck_record_md. by vm_compute.
    + by vm_compute.
    + intros _. exists {[ lit "x" ]}. by vm_compute.
  - intros chs. eapply inline_values_total.
    + apply (ck_record_cp _ _ _ (ex_chain_cp n values)). unfold ex_typed.
      cbn [dumps_typed example_langgraph].
      destruct (example_dumps (ex_chain_cp n values)); [done|discriminate Hok..].
    + reflexivity.
  - exists (opt_str parent). split; [by destruct parent|].
    destruct (Hpar (opt_str parent) Hin eq_refl) as [->|(q&->&_&Hq)];
      [by destruct parent|by left|right; by exists q].
Qed.

Lemma delta_ancestors_ends_witness :
  wp (delta_ancestors (ops:=full_ops) 20 ex_thread [] [lit "c3"]
        (dict_zip [lit "c3"] (kv_get ex_chain (ckpt_ns ex_thread []) <$> [lit "c3"]) ∅))
    (ex_chain_saver (Some 1%Z))
    (λ r s', store s' = ex_chain ∧ ∀ i, i ∈ r.2 → is_Some (ex_chain !! (ckpt_ns ex_thread [], i))).
Proof.
  refine (delta_ancestors_ends (ops:=full_ops) (spec:=ref_spec true true false)
            (ex_chain_saver (Some 1%Z)) 20 ex_thread [] [lit "c3"] ex_chain_sok _ _
            ex_chain_names ex_chain_parents ex_chain_chain_ok _).
  - by apply (bool_decide_unpack _).
  - by apply (bool_decide_unpack _).
  - apply Nat.ltb_lt. vm_compute. reflexivity.
Defined.

(** Twelve checkpoints are more than 1 + 8: the thread is cut down to three. *)
Lemma prune_thread_bounds_witness :
  wp (prune_thread (ops:=full_ops) 20 ex_thread []) (ex_chain_saver (Some 1%Z)) (λ _ s',
    (length (ref_keys (store s') (ckpt_ns ex_thread [])) = 3%nat ∧
     prune_floor s' !! (ex_thread, []) = Some 3%Z) ∧
    store s' !! (ckpt_ns ex_thread [], lit "c3") = ex_chain !! (ckpt_ns ex_thread [], lit "c3")).
Proof.
  eapply wp_mono.
  - refine (prune_thread_bounds (ops:=full_ops) (spec:=ref_spec true true false)
              (ex_chain_saver (Some 1%Z)) 20 ex_thread [] 1 ex_anc ∅ ex_chain_sok ex_chain_content
              _ _ ex_chain_names ex_chain_parents eq_refl _ _).
    + by apply (bool_decide_unpack _).
    + by apply (bool_decide_unpack _).
    + vm_compute. reflexivity.
    + intros [=].
  - cbn beta zeta. intros [] s' (Hb&Hk&_&_).
    rewrite decide_False in Hb by (apply (bool_decide_unpack _); vm_compute; reflexivity).
    destruct Hb as (_&Hn&Hf).
    split; [split|].
    + etransitivity; [exact Hn|]. vm_compute. reflexivity.
    + etransitivity; [exact Hf|]. vm_compute. reflexivity.
    + apply Hk. apply (bool_decide_unpack _). vm_compute. reflexivity.
Defined.
