(* ===== verification/SaverList.v ===== *)
(** * The LangGraph checkpointer: listing checkpoints

    [list], over any configuration: of one thread and namespace, of a thread with
    all its namespaces, of the whole store, or of one checkpoint by its id. *)

From S2P Require Import Prelude PyValue Store Saver SaverOps SaverRead.
From S2P Require Import SaverLemmas SaverSpec SaverPut SaverMeasure SaverTheorems SaverAdmin.
From S2P Require Import SaverExample SaverRetention.

(** ** What is listed *)

(** How many more tuples [list] may yield after [n] of them: the limit is tested
    once a tuple has been yielded, so the first one always is. *)
Definition room (limit : option Z) (n : nat) (l : list CheckpointTuple) : list CheckpointTuple :=
  match limit with
  | None => l
  | Some k => take (Nat.max 1 (Z.to_nat k - n)) l
  end.

(** The ids [list] looks at: older than [before]. *)
Definition is_before (before_id : option pystr) (i : pystr) : bool :=
  match before_id with Some b => str_ltb i b | None => true end.

(** Does the metadata have the values the filter asks for? *)
Definition md_matches (filter_by : list (pystr * pyval)) (metadata : pyval) : bool :=
  match metadata with
  | PDict d =>
      forallb (λ kv, py_eq (from_option id PNone (dict_get d (PStr kv.1))) kv.2) filter_by
  | _ => false
  end.

(** The threads and namespaces a configuration asks for: all of them, those of a
    thread, or one. *)
Definition config_names (config : option RunnableConfig) (t c : pystr) : bool :=
  match config with
  | None => true
  | Some config => str_eqb t (cfg_thread_id config) &&
      match cfg_checkpoint_ns config with Some want => str_eqb c want | None => true end
  end.

(** Those of them that have checkpoints, each once, in some order. *)
Definition lists_names (m : kv) (config : option RunnableConfig) (names : list (pystr * pystr)) : Prop :=
  NoDup names ∧ ∀ t c, (t, c) ∈ names ↔
    config_names config t c = true ∧ (SEP ∉ t) ∧ (SEP ∉ c) ∧ ∃ i, is_Some (m !! (ckpt_ns t c, i)).

(** The ids looked at under one name: the one asked for, or all, newest first. *)
Definition ids_at (m : kv) (want_id : option pystr) (t c : pystr) : list pystr :=
  match want_id with
  | Some i => [i]
  | None => py_sorted_rev (ref_keys m (ckpt_ns t c))
  end.

(** ** The metadata filter *)

Section filter.
Context `{lg : !LangGraph}.

Lemma metadata_if_matching_spec saved filter_by md :
  is_none saved = false → loads_field saved (key "md") = Ok md → is_dict md = true →
  metadata_if_matching saved filter_by = Ok (if md_matches filter_by md then md else PNone).
Proof.
  intros Hn Hmd Hdict. unfold metadata_if_matching. rewrite Hn, Hmd. cbn [mbind result_bind].
  destruct md as [| | | | | | | |dict|]; try done. cbn [md_matches].
  enough (∀ ok, foldR filter_by (λ (ok : bool) kv,
      if ok then v ← py_get (PDict dict) (PStr kv.1); Ok (py_eq v kv.2) else Ok false) ok =
    Ok (ok && forallb (λ kv, py_eq (from_option id PNone (dict_get dict (PStr kv.1))) kv.2) filter_by)) as ->
    by done.
  induction filter_by as [|kv l IH]; intros ok; cbn [foldR forallb]; [by rewrite andb_true_r|].
  destruct ok; [exact (IH _)|exact (IH false)].
Qed.
End filter.

(** ** The limit *)

(** A tuple was yielded and the limit reached. *)
Definition full (limit : option Z) (out : list CheckpointTuple) : bool :=
  bool_decide (out ≠ []) && limit_reached limit (length out).

Lemma room_app limit out (A B : list CheckpointTuple) :
  full limit out = false →
  let out' := out ++ room limit (length out) A in
  out ++ room limit (length out) (A ++ B) =
    if full limit out' then out' else out' ++ room limit (length out') B.
Proof.
  intros Hfull out'. subst out'. unfold full, limit_reached, room in *.
  destruct limit as [k|]; [|cbv beta iota; by rewrite andb_false_r, app_assoc].
  apply andb_false_iff in Hfull as [Hn|Hk].
  - apply bool_decide_eq_false, dec_stable in Hn as ->. cbn [app length].
    rewrite Nat.sub_0_r, length_take, take_app. destruct A as [|x A].
    { rewrite !take_nil. cbn [length app]. by rewrite Nat.min_0_r, !Nat.sub_0_r. }
    rewrite bool_decide_true by (destruct (Nat.max 1 (Z.to_nat k)) eqn:E; [lia|done]). cbn [andb].
    destruct (Z.leb_spec k (Z.of_nat (Nat.min (Nat.max 1 (Z.to_nat k)) (length (x :: A))))) as [Hle|Hgt].
    + assert (Nat.max 1 (Z.to_nat k) - length (x :: A) = 0) as -> by (cbn [length] in *; lia).
      by rewrite take_0, app_nil_r.
    + f_equal. f_equal. cbn [length] in *. lia.
  - apply Z.leb_gt in Hk. rewrite length_app, length_take, take_app.
    set (N := Nat.max 1 (Z.to_nat k - length out)) in *.
    destruct (Z.leb_spec k (Z.of_nat (length out + Nat.min N (length A)))) as [Hle|Hgt].
    + assert (N - length A = 0) as -> by lia. rewrite take_0, app_nil_r.
      rewrite bool_decide_true; [done|]. intros H%(f_equal length). rewrite length_app, length_take in H.
      cbn in H. lia.
    + rewrite andb_false_r, <-app_assoc. f_equal. f_equal. f_equal. lia.
Qed.

Lemma room_nil limit n : room limit n [] = [].
Proof. destruct limit; [apply take_nil|done]. Qed.

Lemma room_one limit n x : room limit n [x] = [x].
Proof.
  unfold room. destruct limit as [k|]; [|done].
  destruct (Nat.max 1 (Z.to_nat k - n)) as [|j] eqn:E; [lia|]. cbn [take]. by rewrite take_nil.
Qed.

Lemma full_nil limit : full limit [] = false.
Proof. done. Qed.

Section listing.
Context {S : Type} `{ops : !StoreOps S} `{spec : !StoreSpec S}.
Context `{lg : !LangGraph} `{lgspec : !LangGraphSpec}.
Implicit Types (s : Saver S) (t c i ns : pystr) (m : kv).

(** ** The targets *)

Definition target_if (want : pystr → pystr → bool) (ns : pystr) : option (pystr * pystr * pystr) :=
  match split_on SEP ns with
  | [_; t; c] => if want t c then Some (t, c, ns) else None
  | _ => None
  end.

Lemma target_if_Some want ns x : starts_with (lit "ck" ++ [SEP]) ns = true →
  target_if want ns = Some x ↔
    ∃ t c, x = (t, c, ns) ∧ ns = ckpt_ns t c ∧ (SEP ∉ t) ∧ (SEP ∉ c) ∧ want t c = true.
Proof.
  intros [rest ->]%starts_with_spec. unfold target_if. rewrite <-app_assoc. cbn [app].
  rewrite split_on_app by (by apply (bool_decide_unpack _)). split.
  - pose proof (join_split_on SEP rest) as Hj. pose proof (split_on_parts_nosep SEP rest) as Hp.
    destruct (split_on SEP rest) as [|t' [|c' [|]]]; try done. destruct (want t' c') eqn:E; [|done].
    intros [= <-]. cbn in Hj. subst rest. apply Forall_cons in Hp as [? [? _]%Forall_cons]. by exists t', c'.
  - intros (t&c&->&Heq&Ht&Hc&Hw). apply app_inv_head in Heq. injection Heq as ->.
    rewrite split_on_app, split_on_nosep by done. by rewrite Hw.
Qed.

Definition target_prefix (config : option RunnableConfig) : pystr :=
  match config with
  | None => lit "ck" ++ [SEP]
  | Some config => thread_prefix (lit "ck") (cfg_thread_id config)
  end.

Lemma target_prefix_ck config ns :
  starts_with (target_prefix config) ns = true → starts_with (lit "ck" ++ [SEP]) ns = true.
Proof.
  destruct config as [config|]; [|done]. intros [r ->]%starts_with_spec. apply starts_with_spec.
  exists (cfg_thread_id config ++ [SEP] ++ r). unfold target_prefix, thread_prefix.
  rewrite <-!app_assoc. cbn [app]. by rewrite <-app_assoc.
Qed.

Lemma target_prefix_own config t c :
  config_names config t c = true → starts_with (target_prefix config) (ckpt_ns t c) = true.
Proof.
  destruct config as [config|]; cbn [config_names target_prefix].
  - intros [Ht _]%andb_true_iff. destruct (str_eqb_spec t (cfg_thread_id config)) as [->|]; [|done].
    apply thread_prefix_own.
  - intros _. apply starts_with_spec. exists (t ++ SEP :: c). unfold ckpt_ns. by rewrite <-app_assoc.
Qed.

Definition target (n : pystr * pystr) : pystr * pystr * pystr := (n.1, n.2, ckpt_ns n.1 n.2).

Lemma list_targets_at s config :
  sok s → from_option (λ cf, valid_text (cfg_thread_id cf)) True config →
  ∃ names s1, list_targets config s = (Ok (target <$> names), s1) ∧ at_view (sview s) s s1 ∧
    lists_names (sview s) config names.
Proof.
  intros Hs Hc. destruct (namespaces_at s (target_prefix config)) as (l&(s1&E&H1)&Hnd&Hl); [done| |].
  { destruct config as [cf|]; [apply valid_thread_prefix; [by apply (bool_decide_unpack _)|done]|].
    by apply (bool_decide_unpack _). }
  assert (list_targets config s = (Ok (omap (target_if (config_names config)) l), s1)) as Et.
  { unfold list_targets, mbind, pym_bind. destruct config as [cf|]; cbn [target_prefix] in E.
    - change (lit "ck" ++ SEP :: cfg_thread_id cf ++ [SEP]) with (thread_prefix (lit "ck") (cfg_thread_id cf)).
      by rewrite E.
    - by rewrite E. }
  assert (∀ ns x, ns ∈ l → target_if (config_names config) ns = Some x ↔
    ∃ t c, x = (t, c, ns) ∧ ns = ckpt_ns t c ∧ (SEP ∉ t) ∧ (SEP ∉ c) ∧ config_names config t c = true) as Hif.
  { intros ns x [_ Hp]%Hl. apply target_if_Some. by eapply target_prefix_ck. }
  exists (fst <$> omap (target_if (config_names config)) l), s1. rewrite Et.
  assert (∀ x, x ∈ omap (target_if (config_names config)) l ↔ ∃ t c, x = target (t, c) ∧
    config_names config t c = true ∧ (SEP ∉ t) ∧ (SEP ∉ c) ∧ ∃ i, is_Some (sview s !! (ckpt_ns t c, i))) as Hin.
  { intros x. rewrite list_elem_of_omap. split.
    - intros (ns&Hns&H). pose proof Hns as [Hk _]%Hl. apply Hif in H as (t&c&->&->&Ht&Hc'&Hw); [|done].
      by exists t, c.
    - intros (t&c&->&Hw&Ht&Hc'&Hi). assert (ckpt_ns t c ∈ l) as Hns
        by (apply Hl; split; [exact Hi|by apply target_prefix_own]).
      exists (ckpt_ns t c). split; [done|]. apply Hif; [done|]. by exists t, c. }
  split; [|split; [done|split]].
  - do 2 f_equal. rewrite <-list_fmap_compose. symmetry. etransitivity; [|apply list_fmap_id].
    apply list_fmap_ext. intros _ x Hx%list_elem_of_lookup_2. apply Hin in Hx as (t&c&->&_). done.
  - apply NoDup_fmap_2_strong.
    + intros x y (t&c&->&_)%Hin (t'&c'&->&_)%Hin. by intros [= -> ->].
    + clear -Hnd Hif. revert Hif. generalize (config_names config). intros want Hif.
      induction Hnd as [|ns l Hn _ IH]; [constructor|]. cbn [omap list_omap].
      specialize (IH (λ n x H, Hif n x (list_elem_of_further _ _ _ H))).
      destruct (target_if want ns) as [x|] eqn:E; [|done]. constructor; [|done].
      intros (ns'&Hin&E')%list_elem_of_omap. apply Hif in E as (?&?&->&_); [|left].
      apply Hif in E' as (?&?&[= _ _ ->]&_); [done|by right].
  - intros t c. rewrite list_elem_of_fmap. setoid_rewrite Hin. split.
    + intros (x&Hx&t'&c'&->&?). cbn in Hx. injection Hx as -> ->. done.
    + intros H. exists (target (t, c)). split; [done|]. by exists t, c.
Qed.

Lemma ckpt_ns_valid t c : valid_text (ckpt_ns t c) → valid_text t ∧ valid_text c.
Proof.
  unfold ckpt_ns. rewrite valid_text_app, valid_text_cons, valid_text_app, valid_text_cons. naive_solver.
Qed.

(** ** The loops *)

Section loops.
Context (m : kv) (s0 : Saver S).
Context (filter_by : list (pystr * pyval)) (before_id : option pystr) (limit : option Z).
(** the metadata and the tuple of each record *)
Context (md : pystr → pystr → pystr → pyval) (tup : pystr → pystr → pystr → CheckpointTuple).
Context (build : pystr → pystr → pystr → pyval → pyval → PyM (Saver S) CheckpointTuple).

(** A stored record decodes, to a dictionary of metadata and to a tuple. *)
Definition decodes t c i : Prop :=
  match m !! (ckpt_ns t c, i) with
  | None => True
  | Some saved =>
      is_none saved = false ∧ loads_field saved (key "md") = Ok (md t c i) ∧ is_dict (md t c i) = true ∧
      view_tuple m (incremental s0) t c i saved (md t c i) = Ok (tup t c i)
  end.

(** How the tuple of a stored record is built. *)
Definition builds t c i : Prop := ∀ saved, m !! (ckpt_ns t c, i) = Some saved →
  steady m s0 (build t c i saved (md t c i)) (view_tuple m (incremental s0) t c i saved (md t c i)).

(** Those of some ids that are stored, older than [before], and match. *)
Definition selected t c (ids : list pystr) : list pystr :=
  filter (λ i, is_Some (m !! (ckpt_ns t c, i)) ∧ is_before before_id i = true ∧
               md_matches filter_by (md t c i) = true) ids.
Definition listed t c (ids : list pystr) : list CheckpointTuple := tup t c <$> selected t c ids.

Lemma steady_list_ids t c ids out :
  valid_text t → valid_text c → Forall valid_text ids → Forall (decodes t c) ids → Forall (builds t c) ids →
  full limit out = false →
  let out' := out ++ room limit (length out) (listed t c ids) in
  steady m s0
    (list_ids (λ ns k, on_store (op_get ns k)) build filter_by before_id limit t c (ckpt_ns t c) ids out)
    (Ok (out', full limit out')).
Proof.
  intros Ht Hc. revert out. induction ids as [|i ids IH]; intros out Hv Hd Hbs Hout out'; subst out'.
  { change (listed t c []) with (@nil CheckpointTuple). rewrite room_nil, app_nil_r, Hout. apply steady_ret. }
  apply Forall_cons in Hv as [Hi Hv], Hd as [Hdi Hd], Hbs as [Hbuild Hbs]. cbn [list_ids].
  unfold listed, selected. rewrite filter_cons. fold (selected t c ids).
  destruct (match before_id with Some b => str_leb b i | None => false end) eqn:Eb.
  { rewrite decide_False; [by apply IH|]. intros (_&Hb&_). destruct before_id as [b|]; [|done].
    cbn in Hb. unfold str_ltb in Hb. by rewrite Eb in Hb. }
  assert (is_before before_id i = true) as Hbefore.
  { destruct before_id as [b|]; [|done]. cbn. unfold str_ltb. by rewrite Eb. }
  eapply steady_bind_ok; [apply steady_get; auto with text|].
  unfold decodes in Hdi. unfold builds in Hbuild. unfold kv_get.
  destruct (m !! (ckpt_ns t c, i)) as [saved|] eqn:Es; cbn [from_option id].
  2:{ eapply steady_bind_ok; [apply steady_lift|]. cbn [is_none]. rewrite decide_False; [by apply IH|].
      by intros [[? [=]] _]. }
  destruct Hdi as (Hn&Hmd&Hdict&Htup).
  eapply steady_bind_ok; [rewrite (metadata_if_matching_spec _ _ _ Hn Hmd Hdict); apply steady_lift|].
  destruct (md_matches filter_by (md t c i)) eqn:Em.
  2:{ cbn [is_none]. rewrite decide_False; [by apply IH|]. by intros (_&_&?). }
  replace (is_none (md t c i)) with false by by destruct (md t c i).
  rewrite decide_True by done. cbn [fmap list_fmap]. fold (listed t c ids).
  eapply steady_bind_ok; [rewrite <-Htup; by apply Hbuild|].
  pose proof (room_app limit out [tup t c i] (listed t c ids) Hout) as Hroom. cbv zeta in Hroom.
  rewrite room_one in Hroom. cbn [app] in Hroom. rewrite Hroom.
  assert (full limit (out ++ [tup t c i]) = limit_reached limit (length (out ++ [tup t c i]))) as Hfull
    by (unfold full; rewrite bool_decide_true; [done|by destruct out]).
  rewrite <-Hfull. destruct (full limit (out ++ [tup t c i])) eqn:Ef; [rewrite Ef; apply steady_ret|].
  by apply IH.
Qed.

Lemma steady_list_loop want_id (names : list (pystr * pystr)) out :
  Forall (λ n, valid_text n.1 ∧ valid_text n.2) names → from_option valid_text True want_id → text_keys m →
  (∀ n i, n ∈ names → i ∈ ids_at m want_id n.1 n.2 → decodes n.1 n.2 i ∧ builds n.1 n.2 i) →
  full limit out = false →
  steady m s0
    (list_loop (λ ns k, on_store (op_get ns k)) build filter_by before_id limit want_id (target <$> names) out)
    (Ok (out ++ room limit (length out) (names ≫= λ n, listed n.1 n.2 (ids_at m want_id n.1 n.2)))).
Proof.
  intros Hv Hw Hm. revert out. induction names as [|[t c] names IH]; intros out Hd Hout.
  { cbn [mbind list_bind]. rewrite room_nil, app_nil_r. apply steady_ret. }
  apply Forall_cons in Hv as [[Ht Hc] Hv]. cbn [fst snd] in *.
  cbn [fmap list_fmap list_loop target fst snd mbind list_bind].
  set (A := listed t c (ids_at m want_id t c)). set (B := names ≫= _).
  set (get := λ ns k, _). set (rest := λ ids : list pystr, '(out', stop) ← list_ids _ _ _ _ _ _ _ _ ids out; _).
  assert (∀ ids, ids = ids_at m want_id t c → steady m s0 (rest ids)
    (Ok (out ++ room limit (length out) (A ++ B)))) as Hrest.
  { intros ids ->. unfold rest. eapply steady_bind_ok.
    { apply steady_list_ids; try done.
      - destruct want_id as [i|]; cbn [ids_at]; [by repeat constructor|]. rewrite py_sorted_rev_perm.
        eapply listed_valid; [exact Hm|apply ref_keys_lists].
      - apply Forall_forall. intros i Hi. by apply (Hd (t, c)); [left|].
      - apply Forall_forall. intros i Hi. by apply (Hd (t, c)); [left|]. }
    cbv beta iota. rewrite (room_app limit out A B Hout). fold A.
    destruct (full limit (out ++ room limit (length out) A)) eqn:Ef; [apply steady_ret|].
    apply IH; [done| |done]. intros n i Hn. apply Hd. by right. }
  unfold ids_at in Hrest. destruct want_id as [i|].
  - eapply steady_bind_ok; [apply steady_ret|]. by apply Hrest.
  - apply steady_assoc. apply steady_bind_keys; [auto with text|]. intros l Hl.
    eapply steady_bind_ok; [apply steady_ret|]. apply Hrest.
    apply py_sorted_rev_eq. eapply lists_keys_perm; [exact Hl|apply ref_keys_lists].
Qed.
End loops.

(** ** The operation *)

(** What is asked for decodes. *)
Definition asked_decodes s (config : option RunnableConfig) md tup : Prop :=
  ∀ t c i, config_names config t c = true → (SEP ∉ t) → (SEP ∉ c) →
    (match truthy_id (config ≫= get_checkpoint_id) with Some want => i = want | None => True end) →
    decodes (sview s) s md tup t c i.

(** The tuples under some names. *)
Definition list_answer (m : kv) filter_by before_id want_id md tup (names : list (pystr * pystr))
    : list CheckpointTuple :=
  names ≫= λ n, listed m filter_by before_id md tup n.1 n.2 (ids_at m want_id n.1 n.2).

Definition config_text (config : RunnableConfig) : Prop :=
  valid_text (cfg_thread_id config) ∧ from_option valid_text True (truthy_id (get_checkpoint_id config)).

(** What [list] answers, and the state it leaves, with either way of building
    a tuple. *)
Lemma list_by build s config filter_by before_id limit md tup :
  let want_id := truthy_id (config ≫= get_checkpoint_id) in
  sok s → from_option config_text True config → asked_decodes s config md tup →
  (∀ t c i, valid_text t → valid_text c → valid_text i → (SEP ∉ t) → (SEP ∉ c) → config_names config t c = true →
    builds (sview s) s md build t c i) →
  wp (targets ← list_targets config;
      list_loop (λ ns k, on_store (op_get ns k)) build filter_by before_id limit want_id targets [])
    s (λ r s', ∃ names, lists_names (sview s) config names ∧
      r = room limit 0 (list_answer (sview s) filter_by before_id want_id md tup names) ∧
      at_view (sview s) s s').
Proof.
  intros want_id Hs Hc Hdec Hbuild. pose proof (sview_text s Hs) as Htext.
  destruct (list_targets_at s config) as (names&s1&E&H1&Hl);
    [done|by destruct config; [apply Hc|]|].
  assert (from_option valid_text True want_id) as Hw by (destruct config; [apply Hc|done]).
  assert (∀ n, n ∈ names → valid_text n.1 ∧ valid_text n.2) as Hv.
  { intros [t c] (_&_&_&i&Hi)%Hl. by apply ckpt_ns_valid, (Htext _ _ Hi). }
  eapply wp_bind, wp_intro; [exact E|].
  eapply (steady_wp (sview s) s); [|exact H1|intros s2 H2; exists names; split; [exact Hl|split; [reflexivity|exact H2]]].
  apply (steady_list_loop (sview s) s filter_by before_id limit md tup build want_id names []); try done.
  { by apply Forall_forall. }
  intros [t c] i Hn Hi. pose proof (Hv _ Hn) as [Ht Hc']. apply Hl in Hn as (Hcfg&Hst&Hsc&_). cbn [fst snd] in *.
  split; [apply Hdec; [done..|]|apply Hbuild; try done].
  - unfold ids_at in Hi. fold want_id. destruct want_id; [|done]. by apply list_elem_of_singleton in Hi.
  - unfold ids_at in Hi. destruct want_id; [by apply list_elem_of_singleton in Hi as ->|].
    rewrite py_sorted_rev_perm in Hi.
    pose proof (listed_valid _ _ _ _ Htext (ref_keys_lists (sview s) (ckpt_ns t c))) as Hall.
    rewrite Forall_forall in Hall. by apply Hall.
Qed.

Lemma list_checkpoints_at s config filter_by before limit md tup :
  let want_id := truthy_id (config ≫= get_checkpoint_id) in
  let before_id := truthy_id (before ≫= get_checkpoint_id) in
  sok s → content_ok (incremental s) (sview s) →
  from_option config_text True config → asked_decodes s config md tup →
  wp (list_checkpoints config filter_by before limit) s (λ r s',
    ∃ names, lists_names (sview s) config names ∧
      r = room limit 0 (list_answer (sview s) filter_by before_id want_id md tup names) ∧
      at_view (sview s) s s').
Proof.
  intros want_id before_id Hs Hm Hc Hdec. unfold list_checkpoints. apply list_by; try done.
  intros t c i Ht Hc' Hi _ _ _ saved Hsaved. pose proof (sview_text s Hs) as Htext.
  apply steady_build_tuple; try done; [by apply (content_writes _ _ Hm)|].
  intros Hinc. pose proof (content_blobs _ _ Hm t c i Hinc) as Hb. unfold kv_get in Hb. by rewrite Hsaved in Hb.
Qed.
End listing.

Section claim.
Context {S : Type} `{ops : !StoreOps S} `{spec : !StoreSpec S}.
Context `{lg : !LangGraph} `{lgspec : !LangGraphSpec}.
Implicit Types s : Saver S.

(** C15: [list], over the whole store, a thread, one of its namespaces, or one
    checkpoint named by its id: it goes through the threads and namespaces asked
    for that have checkpoints, each once, and in each yields the stored
    checkpoints newest first (or the one asked for, if it is stored): exactly those
    whose id is smaller than that of [before] and whose metadata has, under every
    name of [filter], a value equal to the one asked for. Each is the tuple
    [get_tuple] would return. No more than [limit] of them are yielded, except
    that a limit below one still yields one, and the store is left as it was. *)
Theorem list_newest_first s config filter_by before limit md tup :
  let m := sview s in
  let want_id := truthy_id (config ≫= get_checkpoint_id) in
  let before_id := truthy_id (before ≫= get_checkpoint_id) in
  sok s → content_ok (incremental s) m →
  from_option config_text True config → asked_decodes s config md tup →
  wp (list_checkpoints config filter_by before limit) s (λ r s', ∃ names,
    lists_names m config names ∧
    r = room limit 0 (list_answer m filter_by before_id want_id md tup names) ∧
    sview s' = m).
Proof.
  intros m want_id before_id Hs Hm Hc Hdec.
  eapply wp_mono; [by apply list_checkpoints_at|]. intros r s' (names&Hn&->&H'). exists names.
  split; [done|]. split; [done|]. by apply (at_view_view _ _ _ H').
Qed.
End claim.

(** ** Examples *)

(** A thread with three checkpoints, the second of them of another source, and a
    checkpoint of another thread. *)
Definition ex_source (src : String.string) : pyval := PDict [(key "source", key src)].
Definition ex_list_row (t : pystr) (i src : String.string) : pystr * pystr * pyval :=
  (ckpt_ns t [], lit i, ck_record (ex_typed (ex_chain_cp i [])) (ex_typed (ex_source src)) None).
Definition ex_other_thread : pystr := lit "other".
Definition ex_list_rows : list (pystr * pystr * pyval) :=
  [ex_list_row ex_thread "a1" "loop"; ex_list_row ex_thread "a2" "input";
   ex_list_row ex_thread "a3" "loop"; ex_list_row ex_other_thread "a1" "loop"]%string.
Definition ex_listing : kv := kv_set_many ex_list_rows ∅.
Definition ex_listing_saver : Saver kv := ex_saver false None ex_listing.
Definition ex_list_config : RunnableConfig :=
  {| cfg_thread_id := ex_thread; cfg_checkpoint_ns := None; cfg_checkpoint_id := None;
     cfg_metadata := PNone |}.

Definition ex_list_md (t c i : pystr) : pyval :=
  match loads_field (kv_get ex_listing (ckpt_ns t c) i) (key "md") with Ok v => v | _ => PNone end.
Definition ex_list_tuple (t c i : pystr) : CheckpointTuple :=
  match view_tuple ex_listing false t c i (kv_get ex_listing (ckpt_ns t c) i) (ex_list_md t c i) with
  | Ok t => t
  | _ => {| ct_config := mk_config [] [] []; ct_checkpoint := PNone; ct_metadata := PNone;
            ct_parent_config := None; ct_pending_writes := [] |}
  end.

Lemma ex_listing_inv p v : ex_listing !! p = Some v →
  (p, v) ∈ ex_list_rows.
Proof. apply kv_set_many_inv. Qed.

Lemma ex_listing_ok : kv_ok ex_listing.
Proof.
  apply kv_ok_set_many; [apply kv_ok_empty|]. unfold ex_list_rows, ex_list_row.
  repeat (apply Forall_cons; split; [split_and!; [by apply (bool_decide_unpack _)..|];
    apply storable_ck_record; [apply ex_typed_ok; by vm_compute|apply ex_typed_ok; by vm_compute|
      by apply (bool_decide_unpack _)]|]).
  by apply Forall_nil.
Qed.

(** Only checkpoints are stored, in the namespace of the root. *)
Lemma ex_listing_ckpt ns i v : ex_listing !! (ns, i) = Some v →
  text_ok i = true ∧ (ns = ckpt_ns ex_thread [] ∨ ns = ckpt_ns ex_other_thread []).
Proof.
  intros H%ex_listing_inv. unfold ex_list_rows, ex_list_row in H. set_unfold in H.
  destruct H as [[= -> ->]|[[= -> ->]|[[= -> ->]|[[= -> ->]|[]]]]];
    (split; [by vm_compute|auto]).
Qed.

Lemma ex_listing_content : content_ok false ex_listing.
Proof.
  split.
  - intros k v Hv. apply ex_listing_ckpt in Hv as [_ [Hv|Hv]]; discriminate (Hv).
  - intros t c i [v Hv]. by apply ex_listing_ckpt in Hv as [? _].
  - intros t c i k [v Hv]. apply ex_listing_ckpt in Hv as [_ [Hv|Hv]]; discriminate (Hv).
  - intros t c i [=].
Qed.

Lemma ex_listing_decodes :
  asked_decodes (ops:=bare_ops) (spec:=ref_spec false false false) ex_listing_saver
    (Some ex_list_config) ex_list_md ex_list_tuple.
Proof.
  intros t c i Hn _ _ _. unfold decodes.
  apply andb_true_iff in Hn as [Ht _]. destruct (str_eqb_spec t (cfg_thread_id ex_list_config)) as [->|]; [|done].
  change (sview ex_listing_saver) with ex_listing.
  destruct (ex_listing !! _) as [saved|] eqn:E; [|done].
  assert (ckpt_ns ex_thread c = ckpt_ns ex_thread []) as Hc.
  { apply ex_listing_ckpt in E as [_ [E|E]]; [done|discriminate (E)]. }
  apply app_inv_head in Hc. injection Hc as ->. pose proof (ex_listing_inv _ _ E) as H.
  unfold ex_list_rows, ex_list_row in H. set_unfold in H.
  destruct H as [[= -> ->]|[[= -> ->]|[[= -> ->]|[[= _ _]|[]]]]];
    split_and!; vm_compute; reflexivity.
Qed.

Lemma singleton_names {A} (l : list A) a : NoDup l → (∀ x, x ∈ l ↔ x = a) → l = [a].
Proof.
  intros Hnd Hl. apply Permutation_singleton_r, NoDup_Permutation; [done|apply NoDup_singleton|].
  intros x. by rewrite Hl, list_elem_of_singleton.
Qed.

(** Asked for the checkpoints of the thread that came from the loop, [list]
    yields the third and the first. *)
Lemma list_newest_first_witness :
  wp (list_checkpoints (ops:=bare_ops) (Some ex_list_config) [(lit "source", key "loop")] None None)
    ex_listing_saver
    (λ r s', ct_config <$> r =
               [mk_config ex_thread [] (lit "a3"); mk_config ex_thread [] (lit "a1")] ∧
             store s' = ex_listing).
Proof.
  eapply wp_mono.
  - refine (list_newest_first (ops:=bare_ops) (spec:=ref_spec false false false) ex_listing_saver
              (Some ex_list_config) [(lit "source", key "loop")] None None ex_list_md ex_list_tuple
              ex_listing_ok ex_listing_content _ ex_listing_decodes).
    split; [by apply (bool_decide_unpack _)|done].
  - cbn beta zeta. intros r s' (names&[Hnd Hl]&->&Hs').
    rewrite (singleton_names names (ex_thread, []) Hnd).
    + split; [vm_compute; reflexivity|exact Hs'].
    + intros [t c]. rewrite Hl. split.
      * intros (Hn&_&_&i&v&Hv). apply andb_true_iff in Hn as [Ht _].
        destruct (str_eqb_spec t (cfg_thread_id ex_list_config)) as [->|]; [|done].
        apply ex_listing_ckpt in Hv as [_ [Hv|Hv]]; [|discriminate (Hv)].
        apply app_inv_head in Hv. by injection Hv as ->.
      * intros [= -> ->]. split_and!; try by apply (bool_decide_unpack _).
        exists (lit "a1"). by apply (bool_decide_unpack _).
Defined.
