(* ===== verification/SaverAsync.v ===== *)
(** * The LangGraph checkpointer: the native async methods

    Over a store that can be awaited, [aput], [aput_writes], [aget_tuple] and
    [alist] are written out again with the batch methods of the store. They leave
    and answer what the sync methods do, with one exception ([has_versions]). *)

From S2P Require Import Prelude PyValue Store Saver SaverOps SaverRead.
From S2P Require Import SaverLemmas SaverSpec SaverPut SaverMeasure SaverTheorems SaverList SaverWrites.

Section measured.
Context {S : Type} `{ops : !StoreOps S} `{lg : !LangGraph}.
Implicit Types s : Saver S.

#[local] Hint Resolve quiet_aset_many quiet_resolve quiet_put_rows quiet_prune_thread : quiet.

Lemma quiet_aget_many pairs : quiet (S:=S) (aget_many pairs).
Proof. unfold aget_many. solve_quiet. Qed.
#[local] Hint Resolve quiet_aget_many : quiet.

Lemma quiet_abuild_tuple t c i saved md : quiet (S:=S) (abuild_tuple t c i saved md).
Proof. unfold abuild_tuple, decode_checkpoint. solve_quiet. Qed.
#[local] Hint Resolve quiet_abuild_tuple : quiet.

Lemma quiet_aget_tuple_impl config : quiet (S:=S) (aget_tuple_impl config).
Proof. unfold aget_tuple_impl. change (aresolve config) with (resolve (S:=S) config). solve_quiet. Qed.

Lemma quiet_aput_impl fuel config checkpoint metadata nv :
  quiet (S:=S) (aput_impl fuel config checkpoint metadata nv).
Proof. unfold aput_impl. solve_quiet. Qed.

Lemma aget_tuple_run config s r s1 :
  native_async s = true → aget_tuple_impl config s = (r, s1) →
  aget_tuple config s =
    (r, recorded (lit "get_tuple") (cfg_thread_id config) (get_attrs config) r s s1).
Proof.
  intros Hn E. unfold aget_tuple, uninstrumented, mbind, pym_bind, gets. rewrite Hn. cbn [negb].
  destruct (metrics s) eqn:Em, (tracer s) eqn:Et;
    try (apply measured_run; auto using quiet_aget_tuple_impl).
  rewrite E. f_equal. eapply unmeasured_run; eauto using quiet_aget_tuple_impl.
Qed.

Lemma aput_run fuel config checkpoint metadata nv checkpoint_id s r s1 :
  native_async s = true → py_getitem checkpoint (key "id") = Ok checkpoint_id →
  aput_impl fuel config checkpoint metadata nv s = (r, s1) →
  aput fuel config checkpoint metadata nv s =
    (r, recorded (lit "put") (cfg_thread_id config) (put_span_attrs s config checkpoint_id) r s s1).
Proof.
  intros Hn Hid E. unfold aput, uninstrumented, mbind, pym_bind, gets. rewrite Hn. cbn [negb].
  destruct (metrics s) eqn:Em, (tracer s) eqn:Et;
    try (unfold put_attrs, mbind, pym_bind, lift, gets; rewrite Hid;
         apply measured_run; auto using quiet_aput_impl).
  rewrite E. f_equal. eapply unmeasured_run; eauto using quiet_aput_impl.
Qed.
End measured.

Section async.
Context {S : Type} `{ops : !StoreOps S} `{spec : !StoreSpec S}.
Context `{lg : !LangGraph} `{lgspec : !LangGraphSpec}.
Implicit Types (s : Saver S) (t c i ns : pystr) (m : kv).

(** A store with [supports_async] has the batch methods and the prefix listings
    ([AsyncStoreLike]). *)
Record async_store : Prop := {
  as_set_many : is_Some op_set_many;
  as_get_many : is_Some op_get_many;
  as_prefix : sv_takes_prefix = true;
}.
Hypothesis Hasync : async_store.

(** *** Reading *)

Lemma steady_aget_many m s0 ns ks : valid_text ns → Forall valid_text ks →
  steady m s0 (aget_many ((λ k, (ns, k)) <$> ks)) (Ok (kv_get m ns <$> ks)).
Proof.
  intros Hns Hks. destruct (as_get_many Hasync) as [f Hf].
  replace (aget_many (S:=S) ((λ k, (ns, k)) <$> ks)) with (get_many (S:=S) ns ks); [by apply steady_get_many|].
  unfold aget_many, get_many. by rewrite Hf.
Qed.

(** What [abuild_tuple] asks of a checkpoint stored without its values: that it
    names a version. Without one it leaves [channel_values] out, where
    [build_tuple] puts an empty dictionary. *)
Definition has_versions (inc : bool) (saved : pyval) : Prop :=
  ∀ checkpoint, loads_field saved (key "cp") = Ok checkpoint → detached inc checkpoint = Ok true →
    channel_versions checkpoint ≠ Ok [].

Lemma has_versions_whole saved : has_versions false saved.
Proof. by intros checkpoint _. Qed.

(** What follows once the checkpoint is whole. *)
Definition afinish_tuple (t c i : pystr) (saved metadata checkpoint : pyval) (write_keys : list pystr)
    : PyM (Saver S) CheckpointTuple :=
  metadata ← (if is_none metadata then lift (loads_field saved (key "md")) else mret metadata);
  write_keys ← lift (sort_write_keys write_keys);
  raw ← (match write_keys with
         | [] => mret []
         | _ => aget_many ((λ k, (writes_ns t c i, k)) <$> write_keys)
         end);
  writes ← lift (decode_writes raw None);
  parent ← lift (parent_config t c saved);
  mret {| ct_config := mk_config t c i; ct_checkpoint := checkpoint; ct_metadata := metadata;
          ct_parent_config := parent; ct_pending_writes := writes |}.

Definition view_finish m (t c i : pystr) (saved metadata checkpoint : pyval) : result CheckpointTuple :=
  md ← view_metadata saved metadata;
  writes ← view_pending m t c i None;
  parent ← parent_config t c saved;
  Ok {| ct_config := mk_config t c i; ct_checkpoint := checkpoint; ct_metadata := md;
        ct_parent_config := parent; ct_pending_writes := writes |}.

Lemma steady_afinish m s0 t c i saved metadata checkpoint l :
  text_keys m → valid_text t → valid_text c → valid_text i → write_keys_ok m (writes_ns t c i) →
  lists_keys m (writes_ns t c i) None l →
  steady m s0 (afinish_tuple t c i saved metadata checkpoint l) (view_finish m t c i saved metadata checkpoint).
Proof.
  intros Hm Ht Hc Hi Hw Hl. unfold afinish_tuple, view_finish, view_pending. rewrite ?result_bind_assoc.
  apply steady_bind; [unfold view_metadata; case_match; [apply steady_lift|apply steady_ret]|].
  intros md _. rewrite (sorted_write_keys _ _ _ Hw Hl), result_bind_assoc.
  apply steady_bind; [apply steady_lift|]. intros ks Hks.
  eapply steady_bind_ok with (a := kv_get m (writes_ns t c i) <$> ks).
  { destruct ks as [|k ks]; [apply steady_ret|]. apply steady_aget_many; [auto with text|].
    pose proof (ref_keys_lists m (writes_ns t c i)).
    eapply sort_write_keys_valid; [by eapply listed_wkeys|by eapply listed_valid|done]. }
  apply steady_bind; [apply steady_lift|]. intros ws _.
  apply steady_bind; [apply steady_lift|]. intros pc _. apply steady_ret.
Qed.

(** [_decode_checkpoint], as a result *)
Definition view_decode (inc : bool) (saved : pyval) : result (pyval * pydict) :=
  checkpoint ← loads_field saved (key "cp");
  without_values ← detached inc checkpoint;
  if without_values : bool then versions ← channel_versions checkpoint; Ok (checkpoint, versions)
  else Ok (checkpoint, []).

Lemma steady_decode_checkpoint m s0 saved :
  steady m s0 (decode_checkpoint saved) (view_decode (incremental s0) saved).
Proof.
  unfold decode_checkpoint, view_decode. apply steady_bind; [apply steady_lift|]. intros cp _.
  eapply steady_bind_ok; [apply steady_incremental|].
  apply steady_bind; [apply steady_lift|]. intros wv _.
  apply steady_if; intros _; [|apply steady_ret].
  apply steady_bind; [apply steady_lift|]. intros vs _. apply steady_ret.
Qed.

(** The values attached, when there are versions to attach. *)
Definition view_attached m t c (e : pyval * pydict) : result pyval :=
  match e.2 with
  | [] => Ok e.1
  | _ => attach_values e.1 e.2 (kv_get m (blobs_ns t c) <$> ((λ x, blob_key x.1 x.2) <$> e.2))
  end.

Lemma view_tuple_decoded m inc t c i saved md : has_versions inc saved →
  view_tuple m inc t c i saved md =
    (e ← view_decode inc saved; cp ← view_attached m t c e; view_finish m t c i saved md cp).
Proof.
  intros Hv.
  change (view_tuple m inc t c i saved md) with
    (cp ← view_checkpoint m inc t c saved; view_finish m t c i saved md cp).
  unfold view_checkpoint, view_decode. specialize (Hv).
  destruct (loads_field saved (key "cp")) as [cp| |] eqn:Ecp; [|done..]. cbn [mbind result_bind].
  destruct (detached inc cp) as [[]| |] eqn:Ed; [|done..]. cbn [mbind result_bind].
  specialize (Hv cp Ecp Ed).
  destruct (channel_versions cp) as [vs| |]; [|done..]. cbn [mbind result_bind].
  unfold view_attached. cbn [fst snd]. by destruct vs.
Qed.

Theorem steady_abuild_tuple m s0 t c i saved md :
  text_keys m → valid_text t → valid_text c → valid_text i →
  write_keys_ok m (writes_ns t c i) → (incremental s0 = true → blob_names_ok saved) →
  has_versions (incremental s0) saved →
  steady m s0 (abuild_tuple t c i saved md) (view_tuple m (incremental s0) t c i saved md).
Proof.
  intros Hm Ht Hc Hi Hw Hb Hv. rewrite view_tuple_decoded by done. unfold abuild_tuple.
  apply steady_bind; [apply steady_decode_checkpoint|]. intros [cp vs] Hdec.
  change (steady m s0 (
    '(checkpoint, write_keys) ← (match vs with
      | [] => ks ← on_store (op_keys (writes_ns t c i) None); mret (cp, ks)
      | _ =>
          blobs ← aget_many ((λ e, (blobs_ns t c, blob_key e.1 e.2)) <$> vs);
          ks ← on_store (op_keys (writes_ns t c i) None);
          checkpoint ← lift (attach_values cp vs blobs);
          mret (checkpoint, ks)
      end);
    afinish_tuple t c i saved md checkpoint write_keys)
    (cp' ← view_attached m t c (cp, vs); view_finish m t c i saved md cp')).
  unfold view_attached. cbn [fst snd]. destruct vs as [|e vs].
  { cbn [mbind result_bind]. apply steady_assoc. apply steady_bind_keys; [auto with text|]. intros l Hl.
    eapply steady_bind_ok; [apply steady_ret|]. by apply steady_afinish. }
  set (versions := e :: vs) in *. apply steady_assoc.
  assert (incremental s0 = true ∧ loads_field saved (key "cp") = Ok cp ∧ channel_versions cp = Ok versions)
    as (Hinc&Hcp&Hvs).
  { revert Hdec. unfold view_decode. destruct (loads_field saved (key "cp")) as [x| |]; cbn [mbind result_bind]; [|done..].
    unfold detached. destruct (incremental s0); cbn [mbind result_bind]; [|done].
    destruct (py_in (key "channel_values") x) as [[]| |]; cbn [negb mbind result_bind]; [done| |done..].
    destruct (channel_versions x) as [y| |] eqn:E; cbn [mbind result_bind]; [|done..].
    intros [= -> ->]. by rewrite E. }
  eapply steady_bind_ok.
  { replace ((λ e, (blobs_ns t c, blob_key e.1 e.2)) <$> versions)
      with ((λ k, (blobs_ns t c, k)) <$> ((λ e, blob_key e.1 e.2) <$> versions))
      by (by rewrite <-list_fmap_compose).
    apply steady_aget_many; [auto with text|]. apply Forall_fmap. by eapply (Hb Hinc). }
  apply steady_assoc. apply steady_bind_keys; [auto with text|]. intros l Hl. apply steady_assoc.
  apply steady_bind; [apply steady_lift|]. intros cp' _.
  eapply steady_bind_ok; [apply steady_ret|]. by apply steady_afinish.
Qed.

(** The stored checkpoint a read finds has versions, when it must. *)
Definition resolved_versions (inc indexed : bool) m (config : RunnableConfig) : Prop :=
  ∀ t c i saved, view_resolve m indexed config = Some (t, c, i, saved) → has_versions inc saved.

Theorem aget_tuple_impl_at s config :
  sok s → valid_config config → content_ok (incremental s) (sview s) →
  resolved_versions (incremental s) (store_indexes_max_key s) (sview s) config →
  ∃ s', aget_tuple_impl config s =
          (view_get_tuple (sview s) (incremental s) (store_indexes_max_key s) config, s') ∧
        at_view (view_published (sview s) (store_indexes_max_key s) config) s s'.
Proof.
  intros ??? Hv. unfold aget_tuple_impl. change (aresolve config) with (resolve (S:=S) config).
  apply get_tuple_by; [done..|]. intros m' t c i saved Hr ??????.
  apply steady_abuild_tuple; try done. by eapply Hv.
Qed.

Lemma wp_aget_tuple config s (Q : option CheckpointTuple → Saver S → Prop) :
  native_async s = true →
  wp (aget_tuple_impl config) s (λ r s', ∀ me tr, Q r (set_instruments me tr s')) →
  wp (aget_tuple config) s Q.
Proof.
  intros Hn (r&s'&E&HQ)%wp_elim. eapply wp_intro; [by apply aget_tuple_run|]. apply HQ.
Qed.

(** [alist] over anything asked for. *)
Lemma alist_at s config filter_by before limit md tup :
  let want_id := truthy_id (config ≫= get_checkpoint_id) in
  let before_id := truthy_id (before ≫= get_checkpoint_id) in
  native_async s = true →
  sok s → content_ok (incremental s) (sview s) →
  from_option config_text True config →
  (∀ t c i saved, config_names config t c = true → sview s !! (ckpt_ns t c, i) = Some saved →
    has_versions (incremental s) saved) →
  asked_decodes s config md tup →
  wp (alist config filter_by before limit) s (λ r s', ∃ names,
    lists_names (sview s) config names ∧
    r = room limit 0 (list_answer (sview s) filter_by before_id want_id md tup names) ∧
    at_view (sview s) s s').
Proof.
  intros want_id before_id Hn Hs Hm Hc Hver Hdec. unfold alist.
  apply wp_bind, wp_gets. rewrite Hn. cbn [negb]. apply list_by; try done.
  intros t c i Ht Hc' Hi _ _ Hcfg saved Hsaved. pose proof (sview_text s Hs) as Htext.
  apply steady_abuild_tuple; try done; [by apply (content_writes _ _ Hm)| |by eapply Hver].
  intros Hinc. pose proof (content_blobs _ _ Hm t c i Hinc) as Hb. unfold kv_get in Hb. by rewrite Hsaved in Hb.
Qed.

(** *** Writing *)

Lemma aset_many_writes s items : sok s → Forall item_ok items →
  writes_to (aset_many items) s (kv_set_many items (sview s)).
Proof. destruct (as_set_many Hasync) as [f Hf]. by apply (aset_many_at f). Qed.

(** Asking for all the blobs at once finds the same ones missing. *)
Lemma afresh_blobs_steady m s0 t c (blobs : list (pystr * pyval)) :
  valid_text t → valid_text c → Forall (λ b, valid_text b.1) blobs →
  steady m s0 (mapM (λ b, on_store (op_contains (blobs_ns t c) b.1)) blobs)
    (Ok ((λ b, bool_decide (is_Some (m !! (blobs_ns t c, b.1)))) <$> blobs)).
Proof.
  intros Ht Hc Hb.
  replace (Ok ((λ b : pystr * pyval, bool_decide (is_Some (m !! (blobs_ns t c, b.1)))) <$> blobs))
    with (mapM (λ b : pystr * pyval, Ok (bool_decide (is_Some (m !! (blobs_ns t c, b.1))))) blobs).
  { apply steady_mapM. intros b Hin. apply steady_contains; [auto with text|].
    by eapply Forall_forall in Hb. }
  clear. induction blobs as [|b blobs IH]; [done|]. cbn [mapM mbind result_bind]. by rewrite IH.
Qed.

Lemma afresh_blobs m t c (blobs : list (pystr * pyval)) :
  omap (λ e : (pystr * pyval) * bool, if e.2 then None else Some (blobs_ns t c, e.1.1, e.1.2))
    (zip blobs ((λ b : pystr * pyval, bool_decide (is_Some (m !! (blobs_ns t c, b.1)))) <$> blobs)) =
  fresh_blobs m t c blobs.
Proof.
  unfold fresh_blobs. induction blobs as [|b blobs IH]; [done|].
  cbn [fmap list_fmap zip zip_with omap list_omap fst snd]. rewrite filter_cons. cbn in IH. unfold zip in IH.
  case_bool_decide; case_decide; try done; cbn [fmap list_fmap]; by rewrite <-IH.
Qed.

Theorem aput_impl_wp s fuel config checkpoint metadata nv i tcp tmd blobs stored Q :
  let t := cfg_thread_id config in
  let c := cfg_ns config in
  sok s → valid_config config → text_ok i = true → opt_text_ok (cfg_checkpoint_id config) →
  Forall (λ b, valid_text b.1) blobs →
  put_encoded s config checkpoint metadata nv i tcp tmd blobs stored →
  (∀ s1, at_view (put_view (sview s) (publishes s t c i) t c i
                    (ck_record tcp tmd (cfg_checkpoint_id config)) blobs)
           (set_max_seen (hints_after s t c i) s) s1 →
     wp (match max_checkpoints_per_thread s with
         | Some _ => prune_thread fuel t c
         | None => mret tt
         end) s1 (λ _ s2, Q (mk_config t c i) s2)) →
  wp (aput_impl fuel config checkpoint metadata nv) s Q.
Proof.
  intros t c Hs Hc Hi Hparent Hb He HQ.
  eapply (put_by (λ thread_id checkpoint_ns blobs, match blobs with
    | [] => mret tt
    | _ =>
        stored ← mapM (λ b, on_store (op_contains (blobs_ns thread_id checkpoint_ns) b.1)) blobs;
        let new_blobs := omap (λ e : (pystr * pyval) * bool,
          if e.2 then None else Some (blobs_ns thread_id checkpoint_ns, e.1.1, e.1.2)) (zip blobs stored) in
        match new_blobs with [] => mret tt | _ => aset_many new_blobs end
    end) aset_many); try done; [|intros; by apply aset_many_writes].
  intros s0 H0 Hok. fold t c in Hok |- *. destruct blobs as [|b blobs]; [by apply wp_ret|].
  eapply wp_bind, steady_wp;
    [apply afresh_blobs_steady; [exact (proj1 Hc)|exact (proj1 (proj2 Hc))|done]|exact H0|].
  intros s1 H1. rewrite afresh_blobs.
  assert (wp (aset_many (fresh_blobs (sview s) t c (b :: blobs))) s1 (λ _ s2,
    at_view (kv_set_many (fresh_blobs (sview s) t c (b :: blobs)) (sview s)) s0 s2)) as Hset.
  { eapply wp_mono; [apply aset_many_writes; [by eapply at_view_ok|exact Hok]|].
    intros [] s2 H2. cbn beta in H2. rewrite (at_view_view _ _ _ H1) in H2. by eapply at_view_trans. }
  destruct (fresh_blobs (sview s) t c (b :: blobs)) as [|x l] eqn:E; [by apply wp_ret|exact Hset].
Qed.

Lemma wp_aput fuel config checkpoint metadata nv (i : pyval) s (Q : RunnableConfig → Saver S → Prop) :
  native_async s = true → py_getitem checkpoint (key "id") = Ok i →
  wp (aput_impl fuel config checkpoint metadata nv) s (λ r s', ∀ me tr, Q r (set_instruments me tr s')) →
  wp (aput fuel config checkpoint metadata nv) s Q.
Proof.
  intros Hn Hi (r&s'&E&HQ)%wp_elim. eapply wp_intro; [by eapply aput_run|]. apply HQ.
Qed.

Lemma wp_aput_writes config writes task_id task_path s (Q : unit → Saver S → Prop) :
  native_async s = true →
  wp (aput_writes_impl config writes task_id task_path) s (λ r s', ∀ me tr, Q r (set_instruments me tr s')) →
  wp (aput_writes config writes task_id task_path) s Q.
Proof.
  intros Hn (r&s'&E&HQ)%wp_elim. eapply wp_intro; [by apply aput_writes_run|]. apply HQ.
Qed.
End async.
