(* ===== verification/SnapshotBackends.v ===== *)
(** * The snapshots of the backends

    Every backend meets [SnapshotLaws]: the in-memory store, whose snapshots
    share its maps, and the three that copy their rows. *)

From S2P Require Import Prelude PyValue Store SnapshotLaws Snapshot WireRows Codec.
From S2P Require Import RustStore RustStoreTheorems RustStoreProps DiskStore DiskTheorems.
From S2P Require Import Redis RedisLaws RedisTheorems RedisProps Postgres PostgresLaws PostgresTheorems PostgresProps.

(** What a snapshot of a store in a good state holds: the content at the time. *)
Definition taken_of {S D : Type} (ok : S → Prop) (view : S → kv) (snapshot : Z → PyM S D) (d : D) (m : kv) : Prop :=
  ∃ now s s1, ok s ∧ snapshot now s = (Ok d, s1) ∧ view s = m.

Lemma taken_spec {S D : Type} (ok : S → Prop) (view : S → kv) (snapshot : Z → PyM S D) now s (Q : S → Prop) :
  ok s → wp (snapshot now) s (λ _, Q) →
  wp (snapshot now) s (λ d s', Q s' ∧ taken_of ok view snapshot d (view s)).
Proof.
  intros Hs (d&s'&E&HQ)%wp_elim. eapply wp_intro; [exact E|]. split; [done|].
  by exists now, s, s'.
Qed.

(** ** The in-memory store *)

Section Rust.
Context (hash : pystr → N).

Definition rust_snapshots : SnapshotOps RustStore := {|
  op_snapshot := RustStore_snapshot;
  op_restore := RustStore_restore;
|}.

#[refine] Definition rust_snapshot_laws :
  @SnapshotLaws valid_text RustStore (rust_ops hash) (rust_spec hash) rust_snapshots := {|
  snap_holds := (taken_of (rust_ok hash) rust_view RustStore_snapshot
    : @Snap RustStore rust_snapshots → kv → Prop);
|}.
Proof.
  - intros now s Hs. apply (taken_spec (rust_ok hash) rust_view RustStore_snapshot now s (λ s',
      rust_ok hash s' ∧ rust_view s' = rust_view s)); [done|].
    unfold wp, RustStore_snapshot, act. destruct Hs as [Hs Hr].
    split; [|done]. split; [by destruct Hs|done].
  - intros d m s _ (now&s0&s1&H0&E&<-).
    destruct (rust_restore_at hash now s0 d s1 s H0 E) as (s3&E3&Hok&Hv&_).
    eapply wp_intro; [exact E3|]. by split.
Defined.
End Rust.

(** ** SQLite *)

Section Disk.
Context (pack : pyval → result bytes) (unpack : bytes → result pyval).
Hypothesis unpack_pack : ∀ v, storable v → ∃ b, pack v = Ok b ∧ unpack b = Ok v.

Definition disk_snapshots : SnapshotOps Disk := {|
  op_snapshot := DiskStore_snapshot;
  op_restore := DiskStore_restore;
|}.

Lemma disk_snapshot_wp now (d : Disk) :
  disk_ok unpack d →
  wp (DiskStore_snapshot now) d (λ _ d', disk_ok unpack d' ∧ disk_view unpack d' = disk_view unpack d).
Proof.
  intros Hd. apply wp_bind, wp_query; [apply Hd|constructor|]. unfold wp, act.
  by destruct (SnapshotMeta_next now (disk_meta d)) as [meta m'].
Qed.

#[refine] Definition disk_snapshot_laws :
  @SnapshotLaws valid_text Disk (disk_ops pack unpack) (disk_spec pack unpack unpack_pack) disk_snapshots := {|
  snap_holds := (taken_of (disk_ok unpack) (disk_view unpack) DiskStore_snapshot
    : @Snap Disk disk_snapshots → kv → Prop);
|}.
Proof.
  - intros now s Hs. by apply (taken_spec (disk_ok unpack) (disk_view unpack) DiskStore_snapshot now s (λ s',
      disk_ok unpack s' ∧ disk_view unpack s' = disk_view unpack s)), disk_snapshot_wp.
  - intros d m s [Hq _] (now&s0&s1&[[H0 _] Hok]&E&<-). apply disk_snapshot_rows in E as Hrows; [|done].
    eapply wp_mono; [by apply (disk_restore_wp unpack d (committed s0))|].
    intros [] s' [Hs' Hc]. split; [done|]. unfold sv_view. cbn. unfold disk_view. by rewrite Hc.
Defined.
End Disk.

(** ** Redis *)

Section Redis.
Context {R : Type} {client : RedisClient R} {laws : RedisLaws R} (cfg : RedisConfig).
Context (pack : pyval → result bytes) (unpack : bytes → result pyval).
Hypothesis unpack_pack : ∀ v, storable v → ∃ b, pack v = Ok b ∧ unpack b = Ok v.
Hypothesis Hprefix : valid_text (redis_prefix cfg).
Hypothesis Honce : scans_once.

Definition redis_snapshots : SnapshotOps (RedisStore R) := {|
  op_snapshot := RedisStore_snapshot cfg;
  op_restore := RedisStore_restore cfg;
|}.

#[refine] Definition redis_snapshot_laws :
  @SnapshotLaws valid_text (RedisStore R) (redis_ops cfg pack unpack)
    (redis_spec cfg pack unpack Hprefix unpack_pack Honce) redis_snapshots := {|
  snap_holds := (taken_of (redis_ok cfg unpack) (redis_view cfg unpack) (RedisStore_snapshot cfg)
    : @Snap (RedisStore R) redis_snapshots → kv → Prop);
|}.
Proof.
  - intros now s Hs. apply (taken_spec (redis_ok cfg unpack) (redis_view cfg unpack) (RedisStore_snapshot cfg) now s (λ s',
      redis_ok cfg unpack s' ∧ redis_view cfg unpack s' = redis_view cfg unpack s)); [done|].
    eapply wp_mono; [by apply (snapshot_wp cfg unpack Hprefix now s)|].
    intros d s' [[Hs' Hr] _]. split; [done|]. unfold sv_view. cbn. unfold redis_view. by rewrite Hr.
  - intros d m s [Hup _] (now&s0&s1&H0&E&<-).
    pose proof (snapshot_wp cfg unpack Hprefix now s0 H0) as Hsnap. unfold wp in Hsnap.
    rewrite E in Hsnap. destruct Hsnap as (_&Hnd&Hinner&Hdata).
    eapply wp_mono; [by apply (redis_restore_wp cfg unpack Hprefix s0 s d)|].
    intros [] s' [Hup' Hrows]. unfold sv_ok, sv_view. cbn. unfold redis_ok, redis_view.
    rewrite Hrows. split; [|done]. split; [done|apply H0].
Defined.
End Redis.

(** ** PostgreSQL *)

Section Postgres.
Context {C : Type} {client : PgClient C} (cfg : PgConfig) {laws : PgLaws C (pg_table cfg)}.
Context (pack : pyval → result bytes) (unpack : bytes → result pyval).
Hypothesis unpack_pack : ∀ v, storable v → ∃ b, pack v = Ok b ∧ unpack b = Ok v.

Definition postgres_snapshots : SnapshotOps (PostgresStore C) := {|
  op_snapshot := PostgresStore_snapshot cfg;
  op_restore := PostgresStore_restore cfg;
|}.

Lemma pg_snapshot_wp now (s : PostgresStore C) :
  pg_ok cfg unpack s →
  wp (PostgresStore_snapshot cfg now) s (λ _ s',
    pg_ok cfg unpack s' ∧ pg_view cfg unpack s' = pg_view cfg unpack s).
Proof.
  intros Hs. unfold PostgresStore_snapshot. apply wp_bind, (connection_wp cfg unpack); [done|].
  eapply wp_bind_mono; [by apply (stmt_wp cfg unpack SAllRows)|].
  intros cur s' [[Hup Hrows] (l&Hl&_)]. rewrite Hl, cells_rows. apply wp_bind, (wp_lift _ l); [done|].
  unfold wp, act. destruct (SnapshotMeta_next now (pg_meta s')) as [meta m'].
  unfold pg_ok, pg_view. change (store_rows cfg (set_pg_meta m' s')) with (store_rows cfg s').
  rewrite Hrows. by destruct Hs.
Qed.

#[refine] Definition postgres_snapshot_laws :
  @SnapshotLaws pg_name (PostgresStore C) (postgres_ops cfg pack unpack)
    (postgres_spec cfg pack unpack unpack_pack) postgres_snapshots := {|
  snap_holds := (taken_of (pg_ok cfg unpack) (pg_view cfg unpack) (PostgresStore_snapshot cfg)
    : @Snap (PostgresStore C) postgres_snapshots → kv → Prop);
|}.
Proof.
  - intros now s Hs. by apply (taken_spec (pg_ok cfg unpack) (pg_view cfg unpack) (PostgresStore_snapshot cfg) now s (λ s',
      pg_ok cfg unpack s' ∧ pg_view cfg unpack s' = pg_view cfg unpack s)), pg_snapshot_wp.
  - intros d m s [[Hup Ho] _] (now&s0&s1&H0&E&<-).
    destruct (snapshot_rows cfg unpack now s0 d s1 H0 E) as [Hp Hn].
    eapply wp_mono; [by apply (pg_restore_wp cfg (snap_rows d) (store_rows cfg s0))|].
    intros [] s' [Hok Hrows]. unfold sv_ok, sv_view. cbn. unfold pg_ok, pg_view.
    rewrite Hrows. split; [|done]. split; [done|apply H0].
Defined.
End Postgres.
