(* ===== verification/SaverReference.v ===== *)
(** * The checkpointer LangGraph asks for

    A reference checkpointer, with nothing of the store in it: checkpoints are
    entries of a map from (thread, namespace, id), pending writes of a map from
    (task, index), and a read looks them up. [RefData] is the content, [RefSaver]
    adds the snapshots taken so far. [SaverRefinement] proves that
    [SwarmStateSaver] on any store answers as this does. *)

From S2P Require Import Prelude PyValue Store SnapshotLaws Saver SaverOps SaverRead.
From S2P Require Import SaverLemmas SaverSpec SaverPut SaverList SaverWrites.

(** ** The content *)

Abbreviation ckpt_name := (pystr * pystr * pystr)%type.
Abbreviation write_map := (gmap (pystr * Z) (pystr * pyval)).

Record RefEntry := { re_checkpoint : pyval; re_metadata : pyval; re_parent : option pystr }.

Record RefData := {
  rd_ckpts : gmap ckpt_name RefEntry;
  rd_writes : gmap ckpt_name write_map;
}.

Definition RefData_empty : RefData := {| rd_ckpts := ∅; rd_writes := ∅ |}.

(** [rs_high]: the greatest id each thread and namespace was ever given, which a
    restore does not take back (ids are made from the clock). *)
Record RefSaver := {
  rs_data : RefData;
  rs_snaps : list RefData;
  rs_high : gmap (pystr * pystr) pystr;
}.

Definition RefSaver_empty : RefSaver :=
  {| rs_data := RefData_empty; rs_snaps := []; rs_high := ∅ |}.

Definition writes_at (d : RefData) (t c i : pystr) : write_map :=
  from_option id ∅ (rd_writes d !! (t, c, i)).

(** The ids of a thread and namespace, in no particular order. *)
Definition ids_of (d : RefData) (t c : pystr) : list pystr :=
  snd <$> filter (λ p, p.1 = (t, c)) (map_to_list (rd_ckpts d)).*1.

Definition newest_of (d : RefData) (t c : pystr) : option pystr := py_max (ids_of d t c).

(** Pending writes in order of task, then index. *)
Definition pending_of (ws : write_map) : list pending :=
  omap (λ p, (λ w, (PStr p.1, PStr w.1, w.2)) <$> ws !! p)
    (merge_sort write_index_le (elements (dom ws))).

Definition tuple_of (d : RefData) (t c i : pystr) (e : RefEntry) : CheckpointTuple :=
  {| ct_config := mk_config t c i;
     ct_checkpoint := re_checkpoint e;
     ct_metadata := re_metadata e;
     ct_parent_config := mk_config t c <$> truthy_id (re_parent e);
     ct_pending_writes := pending_of (writes_at d t c i) |}.

(** ** The operations *)

Definition ref_put (t c i : pystr) (e : RefEntry) (d : RefData) : RefData :=
  {| rd_ckpts := <[(t, c, i) := e]> (rd_ckpts d); rd_writes := rd_writes d |}.

(** A write under a non-negative index that is already there is skipped. *)
Definition ref_write (task_id : pystr) (before ws : write_map) (w : Z * (pystr * pyval)) : write_map :=
  if (0 <=? w.1)%Z && bool_decide (is_Some (before !! (task_id, w.1))) then ws
  else <[(task_id, w.1) := w.2]> ws.

Definition ref_delete_thread (t : pystr) (d : RefData) : RefData :=
  {| rd_ckpts := filter (λ e, e.1.1.1 ≠ t) (rd_ckpts d);
     rd_writes := filter (λ e, e.1.1.1 ≠ t) (rd_writes d) |}.

(** Metadata that names the source names the target in the copy. *)
Definition moved_metadata (src t : pystr) (metadata : pyval) : pyval :=
  match metadata with
  | PDict md =>
      if py_eq (from_option id PNone (dict_get md (key "thread_id"))) (PStr src)
      then PDict (dict_set md (key "thread_id") (PStr t)) else metadata
  | _ => metadata
  end.

Definition moved_entry (src t : pystr) (e : RefEntry) : RefEntry :=
  {| re_checkpoint := re_checkpoint e; re_metadata := moved_metadata src t (re_metadata e);
     re_parent := re_parent e |}.

(** The part of a map that is about the source, said of the target. *)
Definition swap_thread (src t : pystr) (p : ckpt_name) : ckpt_name :=
  (if decide (p.1.1 = src) then t else if decide (p.1.1 = t) then src else p.1.1, p.1.2, p.2).

Definition renamed {V : Type} (src t : pystr) (x : gmap ckpt_name V) : gmap ckpt_name V :=
  kmap (swap_thread src t) (filter (λ e, e.1.1.1 = src) x).

Definition ref_copy_thread (src t : pystr) (d : RefData) : RefData :=
  {| rd_ckpts := (moved_entry src t <$> renamed src t (rd_ckpts d)) ∪ rd_ckpts d;
     rd_writes := union_with (λ a b, Some (a ∪ b)) (renamed src t (rd_writes d)) (rd_writes d) |}.

Definition raise_high (t c i : pystr) (h : gmap (pystr * pystr) pystr) : gmap (pystr * pystr) pystr :=
  match h !! (t, c) with
  | Some x => if str_ltb x i then <[(t, c) := i]> h else h
  | None => <[(t, c) := i]> h
  end.

(** The names and ids of a thread's checkpoints. *)
Definition thread_ids (d : RefData) (t : pystr) : list (pystr * pystr) :=
  (λ p, (p.1.2, p.2)) <$> filter (λ p, p.1.1 = t) (map_to_list (rd_ckpts d)).*1.

Definition raise_all (t : pystr) (l : list (pystr * pystr)) (h : gmap (pystr * pystr) pystr)
    : gmap (pystr * pystr) pystr := foldr (λ p, raise_high t p.1 p.2) h l.

(** The id a checkpoint carries. *)
Definition id_of (checkpoint : pyval) : option pystr :=
  match py_getitem checkpoint (key "id") with Ok (PStr i) => Some i | _ => None end.

Section LangGraph.
Context `{lg : !LangGraph}.

Definition ref_put_writes (config : RunnableConfig) (writes : list (pystr * pyval))
    (task_id : pystr) (d : RefData) : RefData :=
  let '(t, c) := (cfg_thread_id config, cfg_ns config) in
  let i := from_option id [] (cfg_checkpoint_id config) in
  let ws := writes_at d t c i in
  {| rd_ckpts := rd_ckpts d;
     rd_writes := <[(t, c, i) := foldl (ref_write task_id ws) ws (indexed_writes writes)]> (rd_writes d) |}.

(** The checkpoint named, or the newest. *)
Definition ref_find (config : RunnableConfig) (d : RefData) : option (pystr * RefEntry) :=
  let '(t, c) := (cfg_thread_id config, cfg_ns config) in
  i ← match truthy_id (get_checkpoint_id config) with
      | Some i => Some i
      | None => newest_of d t c
      end;
  pair i <$> rd_ckpts d !! (t, c, i).

Definition ref_get_tuple (config : RunnableConfig) (d : RefData) : option CheckpointTuple :=
  (λ p, tuple_of d (cfg_thread_id config) (cfg_ns config) p.1 p.2) <$> ref_find config d.

(** The names under which a configuration asks for checkpoints, of those that have any. *)
Definition ref_names (config : option RunnableConfig) (d : RefData) : list (pystr * pystr) :=
  elements (list_to_set (C:=gset (pystr * pystr))
    (filter (λ n, config_names config n.1 n.2 = true) (fst <$> (map_to_list (rd_ckpts d)).*1))).

(** Under one of them: the checkpoint asked for, or all, newest first, those before
    [before] that match. *)
Definition ref_listed (filter_by : list (pystr * pyval)) (before_id want_id : option pystr) (d : RefData)
    (t c : pystr) : list CheckpointTuple :=
  omap (λ i,
    e ← rd_ckpts d !! (t, c, i);
    if is_before before_id i && md_matches filter_by (re_metadata e) then Some (tuple_of d t c i e)
    else None) (match want_id with Some i => [i] | None => py_sorted_rev (ids_of d t c) end).

Definition ref_list (config : option RunnableConfig) (filter_by : list (pystr * pyval))
    (before : option RunnableConfig) (limit : option Z) (d : RefData) : list CheckpointTuple :=
  let want_id := truthy_id (config ≫= get_checkpoint_id) in
  let before_id := truthy_id (before ≫= get_checkpoint_id) in
  room limit 0 (ref_names config d ≫= λ n, ref_listed filter_by before_id want_id d n.1 n.2).

(** The order of the namespaces is the store's own: listings are compared with the
    tuples of each namespace together, and in their order. *)
Definition name_of (tup : CheckpointTuple) : pystr * pystr :=
  (cfg_thread_id (ct_config tup), cfg_ns (ct_config tup)).

Definition by_namespace (tups : list CheckpointTuple) : list CheckpointTuple :=
  elements (list_to_set (C:=gset (pystr * pystr)) (name_of <$> tups)) ≫= λ n,
    filter (λ tup, name_of tup = n) tups.

(** *** The history of delta channels

    The state of a delta channel is rebuilt from writes: those of the ancestors of a
    checkpoint, back to the nearest that holds a value of the channel. *)

Definition value_in (e : RefEntry) (ch : pystr) : option pyval :=
  match py_getitem (re_checkpoint e) (key "channel_values") with
  | Ok (PDict values) => dict_get values (PStr ch)
  | _ => None
  end.

(** The checkpoints from [cursor] up the parent chain, nearest first. *)
Fixpoint lineage (fuel : nat) (d : RefData) (t c : pystr) (cursor : option pystr)
    : list (pystr * RefEntry) :=
  match fuel, truthy_id cursor with
  | Datatypes.S fuel, Some i =>
      match rd_ckpts d !! (t, c, i) with
      | Some e => (i, e) :: lineage fuel d t c (re_parent e)
      | None => []
      end
  | _, _ => []
  end.

(** Those among them a channel is rebuilt from, and the value it starts with. *)
Fixpoint rebuilt_from (ch : pystr) (l : list (pystr * RefEntry)) : list pystr * option pyval :=
  match l with
  | [] => ([], None)
  | (i, e) :: l =>
      match value_in e ch with
      | Some v => ([i], Some v)
      | None => let '(ids, seed) := rebuilt_from ch l in (i :: ids, seed)
      end
  end.

(** The writes of the channel, the oldest ancestor's first. *)
Definition rebuilt (d : RefData) (t c : pystr) (l : list (pystr * RefEntry)) (ch : pystr) : DeltaEntry :=
  let '(ids, seed) := rebuilt_from ch l in
  {| de_writes := reverse ids ≫= (λ i, filter (wanted (Some {[ ch ]})) (pending_of (writes_at d t c i)));
     de_seed := seed |}.

Definition ref_history (config : RunnableConfig) (channels : list pystr) (d : RefData)
    : list (pystr * DeltaEntry) :=
  let '(t, c) := (cfg_thread_id config, cfg_ns config) in
  let cursor := p ← ref_find config d; re_parent p.2 in
  od_of_list ((λ ch, (ch, rebuilt d t c (lineage (length (ids_of d t c)) d t c cursor) ch)) <$> channels).

(** *** Dropping checkpoints *)

(** The checkpoints [gone] names go, with their writes. *)
Definition ref_drop (gone : ckpt_name → bool) (d : RefData) : RefData :=
  {| rd_ckpts := filter (λ e, gone e.1 = false) (rd_ckpts d);
     rd_writes := filter (λ e, gone e.1 = false) (rd_writes d) |}.

(** The names of the checkpoints that [which] picks. *)
Definition ckpt_with (d : RefData) (which : ckpt_name → RefEntry → bool) (p : ckpt_name) : bool :=
  match rd_ckpts d !! p with Some e => which p e | None => false end.

(** [metadata.get("run_id")] *)
Definition run_of (metadata : pyval) : pyval :=
  match metadata with PDict md => from_option id PNone (dict_get md (key "run_id")) | _ => PNone end.

Definition of_runs (run_ids : list pystr) (e : RefEntry) : bool :=
  match run_of (re_metadata e) with PStr run => bool_decide (run ∈ run_ids) | _ => false end.

Definition ref_delete_for_runs (run_ids : list pystr) (d : RefData) : RefData :=
  ref_drop (ckpt_with d (λ _, of_runs run_ids)) d.

(** The delta channels a checkpoint counts writes of. *)
Definition delta_names (metadata : pyval) : list pystr :=
  match delta_channels metadata with
  | Ok counters =>
      if truthy counters then match name_set counters with Ok names => elements names | _ => [] end else []
  | _ => []
  end.

(** The ancestors those without a value in the checkpoint are rebuilt from. *)
Definition needed_by (d : RefData) (t c : pystr) (e : RefEntry) : list pystr :=
  filter (λ ch, value_in e ch = None) (delta_names (re_metadata e)) ≫= λ ch,
    (rebuilt_from ch (lineage (length (ids_of d t c)) d t c (re_parent e))).1.

(** The newest checkpoint, and what it is rebuilt from. *)
Definition kept_of (d : RefData) (t c : pystr) : list pystr :=
  match newest_of d t c with
  | Some i => i :: from_option (needed_by d t c) [] (rd_ckpts d !! (t, c, i))
  | None => []
  end.

Definition superseded (d : RefData) (t : pystr) (p : ckpt_name) : bool :=
  bool_decide (p.1.1 = t ∧ p.2 ∉ kept_of d t p.1.2).

Definition ref_keep_latest (t : pystr) (d : RefData) : RefData :=
  ref_drop (ckpt_with d (λ p _, superseded d t p)) d.

Definition ref_prune (thread_ids : list pystr) (strategy : pystr) (d : RefData) : RefData :=
  foldl (λ d t, if str_eqb strategy (lit "delete") then ref_delete_thread t d else ref_keep_latest t d)
    d thread_ids.

(** ** Calls *)

(** Called directly, or awaited. Snapshots are only called. *)
Inductive Mode := Called | Awaited.

Inductive SCall :=
  | SPut (how : Mode) (config : RunnableConfig) (checkpoint metadata : pyval) (new_versions : pydict)
  | SPutWrites (how : Mode) (config : RunnableConfig) (writes : list (pystr * pyval)) (task_id task_path : pystr)
  | SGetTuple (how : Mode) (config : RunnableConfig)
  | SList (how : Mode) (config : option RunnableConfig) (filter_by : list (pystr * pyval))
      (before : option RunnableConfig) (limit : option Z)
  | SDeleteThread (how : Mode) (thread_id : pystr)
  | SCopyThread (how : Mode) (source target : pystr)
  | SHistory (how : Mode) (fuel : nat) (config : RunnableConfig) (channels : list pystr)
  | SDeleteForRuns (how : Mode) (run_ids : list pystr)
  | SPrune (how : Mode) (fuel : nat) (thread_ids : list pystr) (strategy : pystr)
  | SSnapshot (now : Z)
  | SRestore (n : nat).

Inductive SAnswer :=
  | SDone
  | SConfig (config : RunnableConfig)
  | STuple (tup : option CheckpointTuple)
  | STuples (tups : list CheckpointTuple)
  | SEntries (entries : list (pystr * DeltaEntry)).

Definition with_data (d : RefData) (r : RefSaver) : RefSaver :=
  {| rs_data := d; rs_snaps := rs_snaps r; rs_high := rs_high r |}.

Definition ref_scall (call : SCall) (r : RefSaver) : SAnswer * RefSaver :=
  let d := rs_data r in
  match call with
  | SPut _ config checkpoint metadata _ =>
      let '(t, c) := (cfg_thread_id config, cfg_ns config) in
      let i := from_option id [] (id_of checkpoint) in
      let e := {| re_checkpoint := checkpoint; re_metadata := get_checkpoint_metadata config metadata;
                  re_parent := cfg_checkpoint_id config |} in
      (SConfig (mk_config t c i),
       {| rs_data := ref_put t c i e d; rs_snaps := rs_snaps r; rs_high := raise_high t c i (rs_high r) |})
  | SPutWrites _ config writes task_id _ =>
      (SDone, with_data (ref_put_writes config writes task_id d) r)
  | SGetTuple _ config => (STuple (ref_get_tuple config d), r)
  | SList _ config filter_by before limit => (STuples (by_namespace (ref_list config filter_by before limit d)), r)
  | SDeleteThread _ t => (SDone, with_data (ref_delete_thread t d) r)
  | SCopyThread _ src t =>
      if str_eqb src t then (SDone, r)
      else (SDone, {| rs_data := ref_copy_thread src t d; rs_snaps := rs_snaps r;
                      rs_high := raise_all t (thread_ids d src) (rs_high r) |})
  | SHistory _ _ config channels => (SEntries (ref_history config channels d), r)
  | SDeleteForRuns _ run_ids => (SDone, with_data (ref_delete_for_runs run_ids d) r)
  | SPrune _ _ thread_ids strategy => (SDone, with_data (ref_prune thread_ids strategy d) r)
  | SSnapshot _ => (SDone, {| rs_data := d; rs_snaps := rs_snaps r ++ [d]; rs_high := rs_high r |})
  | SRestore n => (SDone, with_data (from_option id d (rs_snaps r !! n)) r)
  end.

Fixpoint ref_scalls (calls : list SCall) (r : RefSaver) : list SAnswer * RefSaver :=
  match calls with
  | [] => ([], r)
  | call :: calls =>
      let '(a, r1) := ref_scall call r in
      let '(l, r2) := ref_scalls calls r1 in (a :: l, r2)
  end.

(** ** What a caller must respect *)

(** Names are text without the separator. *)
Definition name_ok (t c : pystr) : Prop := valid_text t ∧ valid_text c ∧ (SEP ∉ t) ∧ (SEP ∉ c).

(** LangGraph's ids increase: a new id is above all the earlier ones of its
    thread, and a checkpoint may be put again while it is the newest. *)
Definition id_increases (r : RefSaver) (t c i : pystr) : Prop :=
  (∀ x, rs_high r !! (t, c) = Some x → str_lt x i) ∨ newest_of (rs_data r) t c = Some i.

(** A thread whose checkpoints hold values and were made after their parents. *)
Definition holds_values (e : RefEntry) : Prop :=
  ∃ values, py_getitem (re_checkpoint e) (key "channel_values") = Ok (PDict values).

Definition parents_older (d : RefData) (t c : pystr) : Prop :=
  ∀ i e p, rd_ckpts d !! (t, c, i) = Some e → re_parent e = Some p → str_lt p i.

Definition history_ok (d : RefData) (t c : pystr) : Prop :=
  parents_older d t c ∧ ∀ i e, rd_ckpts d !! (t, c, i) = Some e → holds_values e.

(** The counters of the delta channels, if any, are named. *)
Definition counters_ok (metadata : pyval) : Prop :=
  ∃ counters, delta_channels metadata = Ok counters ∧
    (truthy counters = true → ∃ names, name_set counters = Ok names).

Definition prune_ok (d : RefData) (fuel : nat) (t c : pystr) : Prop :=
  history_ok d t c ∧ (∀ i e, rd_ckpts d !! (t, c, i) = Some e → counters_ok (re_metadata e)) ∧
  length (ids_of d t c) < fuel.

(** A value a Python set can be asked about. *)
Definition hashable (v : pyval) : Prop := match v with PList _ | PDict _ => False | _ => True end.

Definition dumpable (v : pyval) : Prop := is_ok (dumps_typed v) = true.

Lemma dumpable_ok v : dumpable v → ∃ tv, dumps_typed v = Ok tv.
Proof. unfold dumpable. destruct (dumps_typed v); [by eexists|done..]. Qed.

Definition scall_ok (indexed : bool) (r : RefSaver) (call : SCall) : Prop :=
  match call with
  | SPut _ config checkpoint metadata _ =>
      let md := get_checkpoint_metadata config metadata in
      let i := from_option id [] (id_of checkpoint) in
      name_ok (cfg_thread_id config) (cfg_ns config) ∧ valid_config config ∧
      opt_text_ok (cfg_checkpoint_id config) ∧ text_ok i = true ∧ i ≠ [] ∧
      (indexed = true ∨ id_increases r (cfg_thread_id config) (cfg_ns config) i) ∧
      dumpable checkpoint ∧ dumpable md ∧ is_dict md = true
  | SPutWrites _ config writes task_id task_path =>
      name_ok (cfg_thread_id config) (cfg_ns config) ∧
      (∃ i, cfg_checkpoint_id config = Some i ∧ valid_text i) ∧
      writes_text task_id task_path writes ∧ Forall (λ w, dumpable w.2) writes
  | SGetTuple _ config => name_ok (cfg_thread_id config) (cfg_ns config) ∧ valid_config config
  | SList _ config _ _ limit =>
      from_option config_text True config ∧ (limit = None ∨ is_Some (config ≫= cfg_checkpoint_ns))
  | SDeleteThread _ t => valid_text t ∧ SEP ∉ t
  | SCopyThread _ src t =>
      valid_text src ∧ valid_text t ∧ (SEP ∉ src) ∧ (SEP ∉ t) ∧
      ∀ c i e, rd_ckpts (rs_data r) !! (src, c, i) = Some e → dumpable (moved_metadata src t (re_metadata e))
  | SHistory _ fuel config _ =>
      let '(t, c) := (cfg_thread_id config, cfg_ns config) in
      name_ok t c ∧ valid_config config ∧ history_ok (rs_data r) t c ∧ length (ids_of (rs_data r) t c) < fuel
  | SDeleteForRuns _ _ => ∀ p e, rd_ckpts (rs_data r) !! p = Some e → hashable (run_of (re_metadata e))
  | SPrune _ fuel thread_ids strategy =>
      strategy ∈ PRUNE_STRATEGIES ∧
      Forall (λ t, valid_text t ∧ (SEP ∉ t) ∧ ∀ c, prune_ok (rs_data r) fuel t c) thread_ids
  | SSnapshot _ => True
  | SRestore n => n < length (rs_snaps r)
  end.

Fixpoint scalls_ok (indexed : bool) (r : RefSaver) (calls : list SCall) : Prop :=
  match calls with
  | [] => True
  | call :: calls => scall_ok indexed r call ∧ scalls_ok indexed (ref_scall call r).2 calls
  end.
End LangGraph.

(** ** The same calls on a saver *)

Section Saver.
Context {S : Type} `{ops : !StoreOps S} `{snaps : !SnapshotOps S} `{lg : !LangGraph}.

(** [snaps]: the snapshots the client holds, in the order it took them. A
    snapshot is [saver.store.snapshot()], a restore [saver.store.restore(s)]. *)
Definition put_in (how : Mode) := match how with Called => put (S:=S) | Awaited => aput end.
Definition put_writes_in (how : Mode) := match how with Called => put_writes (S:=S) | Awaited => aput_writes end.
Definition get_tuple_in (how : Mode) := match how with Called => get_tuple (S:=S) | Awaited => aget_tuple end.
Definition list_in (how : Mode) := match how with Called => list_checkpoints (S:=S) | Awaited => alist end.
Definition delete_thread_in (how : Mode) :=
  match how with Called => delete_thread (S:=S) | Awaited => adelete_thread end.

Definition copy_thread_in (how : Mode) :=
  match how with Called => copy_thread (S:=S) | Awaited => acopy_thread end.
Definition delete_for_runs_in (how : Mode) :=
  match how with Called => delete_for_runs (S:=S) | Awaited => adelete_for_runs end.
Definition prune_in (how : Mode) := match how with Called => prune (S:=S) | Awaited => aprune end.
Definition history_in (how : Mode) :=
  match how with Called => get_delta_channel_history (S:=S) | Awaited => aget_delta_channel_history end.

Definition run_scall (fuel : nat) (held : list (Snap S)) (call : SCall)
    : PyM (Saver S) (SAnswer * list (Snap S)) :=
  match call with
  | SPut how config checkpoint metadata nv =>
      config' ← put_in how fuel config checkpoint metadata nv; mret (SConfig config', held)
  | SPutWrites how config writes task_id task_path =>
      put_writes_in how config writes task_id task_path ;; mret (SDone, held)
  | SGetTuple how config => tup ← get_tuple_in how config; mret (STuple tup, held)
  | SList how config filter_by before limit =>
      l ← list_in how config filter_by before limit; mret (STuples (by_namespace l), held)
  | SDeleteThread how t => delete_thread_in how t ;; mret (SDone, held)
  | SCopyThread how src t => copy_thread_in how src t ;; mret (SDone, held)
  | SHistory how fuel config channels =>
      l ← history_in how fuel config channels; mret (SEntries l, held)
  | SDeleteForRuns how run_ids => delete_for_runs_in how run_ids ;; mret (SDone, held)
  | SPrune how fuel thread_ids strategy => prune_in how fuel thread_ids strategy ;; mret (SDone, held)
  | SSnapshot now => d ← on_store (op_snapshot now); mret (SDone, held ++ [d])
  | SRestore n =>
      d ← lift (or_raise IndexError (held !! n)); on_store (op_restore d) ;; mret (SDone, held)
  end.

Fixpoint run_scalls (fuel : nat) (held : list (Snap S)) (calls : list SCall)
    : PyM (Saver S) (list SAnswer * list (Snap S)) :=
  match calls with
  | [] => mret ([], held)
  | call :: calls =>
      '(a, held1) ← run_scall fuel held call;
      '(l, held2) ← run_scalls fuel held1 calls;
      mret (a :: l, held2)
  end.
End Saver.
