(* ===== verification/SaverRefinement.v ===== *)
(** * The saver implements the reference checkpointer

    What the store of a saver holds, read as the content of the reference
    checkpointer ([agrees]), and that every operation keeps the two together and
    answers alike. *)

From S2P Require Import Prelude PyValue Store SnapshotLaws Saver SaverOps SaverRead.
From S2P Require Import SaverLemmas SaverSpec SaverPut SaverMeasure SaverTheorems SaverAdmin.
From S2P Require Import SaverList SaverWrites SaverReference.

Section agreement.
Context `{lg : !LangGraph} `{lgspec : !LangGraphSpec}.
Implicit Types (t c i : pystr) (m : kv) (d : RefData).

(** ** A store content, read as the reference's content *)

Definition stored_as (saved : pyval) (e : RefEntry) : Prop :=
  ∃ tcp tmd, dumps_typed (re_checkpoint e) = Ok tcp ∧ dumps_typed (re_metadata e) = Ok tmd ∧
    saved = ck_record tcp tmd (re_parent e).

Definition written_as (task : pystr) (saved : pyval) (w : pystr * pyval) : Prop :=
  ∃ path tv, dumps_typed w.2 = Ok tv ∧ saved = write_record task w.1 path tv.

(** A live pointer names the newest checkpoint. *)
Definition pointer_newest m t c : Prop :=
  ∀ i, m !! (LATEST_NS, latest_key t c) = Some (PStr i) → is_Some (m !! (ckpt_ns t c, i)) →
    ∀ j, is_Some (m !! (ckpt_ns t c, j)) → str_le j i.

Record agrees (indexed : bool) m d : Prop := {
  ag_content : content_ok false m;
  ag_pointer t c : indexed = false → SEP ∉ t → pointer_newest m t c;
  ag_ckpts t c i : SEP ∉ t →
    option_Forall2 stored_as (m !! (ckpt_ns t c, i)) (rd_ckpts d !! (t, c, i));
  ag_writes t c i task idx : SEP ∉ t → SEP ∉ c →
    option_Forall2 (written_as task) (m !! (writes_ns t c i, write_key task idx))
      (writes_at d t c i !! (task, idx));
  ag_ids t c i e : rd_ckpts d !! (t, c, i) = Some e → i ≠ [] ∧ is_dict (re_metadata e) = true ∧ SEP ∉ c;
  ag_threads t c i e : rd_ckpts d !! (t, c, i) = Some e → SEP ∉ t;
}.

Lemma agrees_empty indexed : agrees indexed ∅ RefData_empty.
Proof.
  split.
  - apply content_ok_empty.
  - intros t c _ _ i Hp. by rewrite lookup_empty in Hp.
  - intros. rewrite !lookup_empty. constructor.
  - intros. unfold writes_at. rewrite !lookup_empty. constructor.
  - intros t c i e He. cbn in He. by rewrite lookup_empty in He.
  - intros t c i e He. cbn in He. by rewrite lookup_empty in He.
Qed.

Lemma option_Forall2_is_Some {A B} (P : A → B → Prop) oa ob :
  option_Forall2 P oa ob → is_Some oa ↔ is_Some ob.
Proof. intros [x y _|]; split; by intros []. Qed.

Lemma ids_of_elem d t c i : i ∈ ids_of d t c ↔ is_Some (rd_ckpts d !! (t, c, i)).
Proof.
  unfold ids_of. rewrite list_elem_of_fmap. split.
  - intros ([p j]&->&[Hp Hin]%list_elem_of_filter). cbn in *. subst p.
    by apply elem_of_map_to_list_fst.
  - intros Hi. exists (t, c, i). split; [done|]. apply list_elem_of_filter.
    split; [done|]. by apply elem_of_map_to_list_fst.
Qed.

Lemma ids_of_NoDup d t c : NoDup (ids_of d t c).
Proof.
  unfold ids_of. apply NoDup_fmap_2_strong.
  - intros [p i] [q j] [Hp _]%list_elem_of_filter [Hq _]%list_elem_of_filter ?. cbn in *. congruence.
  - apply NoDup_filter, NoDup_fst_map_to_list.
Qed.

(** Listings compared namespace by namespace. *)
Lemma list_bind_ext_in {A B} (f g : A → list B) l : (∀ x, x ∈ l → f x = g x) → l ≫= f = l ≫= g.
Proof.
  intros H. induction l as [|x l IH]; [done|]. cbn [mbind list_bind].
  rewrite (H x) by by left. f_equal. apply IH. intros y Hy. apply H. by right.
Qed.

Lemma Permutation_of_one {A} (a : A) l l' : NoDup l → (∀ x, x ∈ l → x = a) → l' ≡ₚ l → l = l'.
Proof.
  intros Hnd Ha Hp. destruct l as [|x [|y l]].
  - by apply Permutation_nil_r in Hp as ->.
  - by apply Permutation_singleton_r in Hp as ->.
  - exfalso. apply NoDup_cons in Hnd as [Hx _]. apply Hx. rewrite (Ha x), (Ha y) by set_solver. by left.
Qed.

Lemma ref_listed_names filter_by before_id want_id d n tup :
  tup ∈ ref_listed filter_by before_id want_id d n.1 n.2 → name_of tup = n.
Proof.
  unfold ref_listed. intros (i&_&Hi)%list_elem_of_omap. destruct (rd_ckpts d !! _) as [e|]; [|done].
  cbn [mbind option_bind] in Hi. destruct (_ && _); [|done]. injection Hi as <-. by destruct n.
Qed.

Lemma bind_of_name (f : pystr * pystr → list CheckpointTuple) names n :
  (∀ n tup, tup ∈ f n → name_of tup = n) → NoDup names →
  filter (λ tup, name_of tup = n) (names ≫= f) = if decide (n ∈ names) then f n else [].
Proof.
  intros Hf Hnd. induction Hnd as [|x names Hx _ IH]; [done|]. cbn [mbind list_bind].
  change (names ≫= f) with (mbind f names) in *. rewrite filter_app, IH.
  destruct (decide (x = n)) as [->|Hne].
  - rewrite (decide_False _ _ Hx), decide_True, app_nil_r by by left. apply filter_all, Forall_forall. apply Hf.
  - replace (filter _ (f x)) with (@nil CheckpointTuple).
    + cbn [app]. apply decide_ext. set_solver.
    + symmetry. apply filter_none, Forall_forall. intros tup Htup%Hf Hn. congruence.
Qed.

Lemma by_namespace_perm (f : pystr * pystr → list CheckpointTuple) names names' :
  (∀ n tup, tup ∈ f n → name_of tup = n) → NoDup names → names ≡ₚ names' →
  by_namespace (names ≫= f) = by_namespace (names' ≫= f).
Proof.
  intros Hf Hnd Hp. assert (NoDup names') as Hnd' by by rewrite <-Hp. unfold by_namespace.
  assert (list_to_set (C:=gset (pystr * pystr)) (name_of <$> (names ≫= f)) =
          list_to_set (name_of <$> (names' ≫= f))) as ->.
  { apply set_eq. intros n. rewrite !elem_of_list_to_set. by rewrite Hp. }
  apply list_bind_ext; [|done]. intros n. rewrite !bind_of_name by done. apply decide_ext. by rewrite Hp.
Qed.

Section reading.
Context (indexed : bool) m d (Hag : agrees indexed m d).

Lemma agrees_ids t c : SEP ∉ t → ref_keys m (ckpt_ns t c) ≡ₚ ids_of d t c.
Proof.
  intros Ht. destruct (ref_keys_lists m (ckpt_ns t c)) as [Hnd Hl].
  apply NoDup_Permutation; [done|apply ids_of_NoDup|]. intros i. rewrite Hl, ids_of_elem. cbn.
  rewrite (option_Forall2_is_Some _ _ _ (ag_ckpts _ _ _ Hag t c i Ht)). tauto.
Qed.

Lemma agrees_newest t c : SEP ∉ t → py_max (ref_keys m (ckpt_ns t c)) = newest_of d t c.
Proof. intros Ht. by apply py_max_perm, agrees_ids. Qed.

Lemma agrees_record t c i : SEP ∉ t →
  match rd_ckpts d !! (t, c, i) with
  | Some e => ∃ saved, m !! (ckpt_ns t c, i) = Some saved ∧ stored_as saved e
  | None => m !! (ckpt_ns t c, i) = None
  end.
Proof. intros Ht. destruct (ag_ckpts _ _ _ Hag t c i Ht); [by eexists|done]. Qed.

Lemma stored_not_none saved e : stored_as saved e → is_none saved = false.
Proof. by intros (?&?&_&_&->). Qed.

(** *** Pending writes *)

Lemma agrees_write_keys t c i : SEP ∉ t → SEP ∉ c →
  ref_keys m (writes_ns t c i) ≡ₚ wkey <$> elements (dom (writes_at d t c i)).
Proof.
  intros Ht Hc. destruct (ref_keys_lists m (writes_ns t c i)) as [Hnd Hl].
  apply NoDup_Permutation; [done| |].
  { apply NoDup_fmap_2; [apply _|apply NoDup_elements]. }
  intros k. rewrite Hl, list_elem_of_fmap. cbn. split.
  - intros [Hk _]. destruct (content_writes _ _ (ag_content _ _ _ Hag) t c i k Hk) as [[task idx] ->].
    exists (task, idx). split; [done|]. rewrite elem_of_elements, elem_of_dom.
    by apply (option_Forall2_is_Some _ _ _ (ag_writes _ _ _ Hag t c i task idx Ht Hc)).
  - intros ([task idx]&->&Hin). split; [|done]. rewrite elem_of_elements, elem_of_dom in Hin.
    by apply (option_Forall2_is_Some _ _ _ (ag_writes _ _ _ Hag t c i task idx Ht Hc)).
Qed.

Lemma agrees_pending_in channels t c i : SEP ∉ t → SEP ∉ c →
  view_pending m t c i channels = Ok (filter (wanted channels) (pending_of (writes_at d t c i))).
Proof.
  intros Ht Hc. unfold view_pending, pending_of. set (ws := writes_at d t c i).
  rewrite (sort_write_keys_perm _ (wkey <$> elements (dom ws))).
  2:{ eapply listed_wkeys; [by apply (content_writes _ _ (ag_content _ _ _ Hag))|apply ref_keys_lists]. }
  2:{ by apply agrees_write_keys. }
  rewrite sort_write_keys_wkeys. cbn [mbind result_bind]. apply decode_records_in.
  assert (∀ p, p ∈ merge_sort write_index_le (elements (dom ws)) → is_Some (ws !! p)) as Hin.
  { intros p. by rewrite merge_sort_Permutation, elem_of_elements, elem_of_dom. }
  revert Hin. generalize (merge_sort write_index_le (elements (dom ws))).
  intros l. induction l as [|[task idx] l IH]; intros Hin; [constructor|].
  destruct (Hin (task, idx)) as [[ch v] Hw]; [by left|].
  cbn [fmap list_fmap omap list_omap]. rewrite Hw. cbn [fmap option_fmap option_map].
  constructor; [|apply IH; intros p Hp; apply Hin; by right].
  pose proof (ag_writes _ _ _ Hag t c i task idx Ht Hc) as Hs. fold ws in Hs. rewrite Hw in Hs.
  inversion Hs as [saved ? (path&tv&Htv&->) Hm|]; subst. unfold kv_get, wkey. cbn [fst snd].
  rewrite <-Hm. cbn. by exists task, ch, path, v, tv.
Qed.

Lemma agrees_pending t c i : SEP ∉ t → SEP ∉ c →
  view_pending m t c i None = Ok (pending_of (writes_at d t c i)).
Proof. intros Ht Hc. rewrite agrees_pending_in by done. f_equal. by apply filter_all, Forall_true. Qed.

(** *** Tuples *)

(** [metadata] is [PNone], or the metadata already read. *)
Lemma agrees_tuple t c i e saved metadata : SEP ∉ t → SEP ∉ c →
  stored_as saved e → metadata = PNone ∨ metadata = re_metadata e ∧ is_none metadata = false →
  view_tuple m false t c i saved metadata = Ok (tuple_of d t c i e).
Proof.
  intros Ht Hc (tcp&tmd&Hcp&Hmd&->) Hm. unfold view_tuple, view_checkpoint, view_metadata.
  erewrite ck_record_cp by done. cbn [mbind result_bind detached].
  assert ((if is_none metadata then loads_field (ck_record tcp tmd (re_parent e)) (key "md")
           else Ok metadata) = Ok (re_metadata e)) as ->.
  { destruct Hm as [->|[-> ->]]; [|done]. cbn [is_none]. by erewrite ck_record_md. }
  cbn [mbind result_bind]. rewrite agrees_pending by done. cbn [mbind result_bind].
  by rewrite ck_record_parent.
Qed.

Lemma agrees_latest t c : SEP ∉ t → view_latest m indexed t c = newest_of d t c.
Proof.
  intros Ht. rewrite <-agrees_newest by done.
  assert (∀ j, is_Some (m !! (ckpt_ns t c, j)) → j ≠ []) as Hne.
  { intros j Hj. apply (option_Forall2_is_Some _ _ _ (ag_ckpts _ _ _ Hag t c j Ht)) in Hj as [e He].
    by apply (ag_ids _ _ _ Hag) in He as [? _]. }
  destruct indexed eqn:Eix; [by apply latest_of_index|].
  apply latest_of_pointer; [|done|by apply (ag_pointer _ _ _ Hag)].
  apply (content_pointers _ _ (ag_content _ _ _ Hag)).
Qed.

Lemma agrees_resolve config : name_ok (cfg_thread_id config) (cfg_ns config) →
  let '(t, c) := (cfg_thread_id config, cfg_ns config) in
  match ref_find config d with
  | Some (i, e) => ∃ saved, view_resolve m indexed config = Some (t, c, i, saved) ∧
      saved = kv_get m (ckpt_ns t c) i ∧ stored_as saved e ∧ rd_ckpts d !! (t, c, i) = Some e
  | None => view_resolve m indexed config = None
  end.
Proof.
  intros (_&_&Ht&_). unfold view_resolve, ref_find. rewrite agrees_latest by done.
  set (t := cfg_thread_id config) in *. set (c := cfg_ns config) in *.
  destruct (match truthy_id _ with Some i => _ | None => _ end) as [i|]; cbn [mbind option_bind]; [|done].
  unfold kv_get. pose proof (agrees_record t c i Ht) as Hr.
  destruct (rd_ckpts d !! (t, c, i)) as [e|] eqn:Ee; cbn [fmap option_fmap option_map].
  - destruct Hr as (saved&->&Hs). cbn [from_option id]. exists saved. by rewrite (stored_not_none _ _ Hs).
  - by rewrite Hr.
Qed.

Theorem agrees_get config : name_ok (cfg_thread_id config) (cfg_ns config) →
  view_get_tuple m false indexed config = Ok (ref_get_tuple config d).
Proof.
  intros Hname. pose proof (agrees_resolve config Hname) as Hr. destruct Hname as (_&_&Ht&Hc).
  unfold view_get_tuple, ref_get_tuple. destruct (ref_find config d) as [[i e]|]; [|by rewrite Hr].
  destruct Hr as (saved&->&_&Hs&_). erewrite agrees_tuple by (try done; by left). done.
Qed.

(** Reading may publish the pointer it did not find. *)
Lemma agrees_published config : name_ok (cfg_thread_id config) (cfg_ns config) →
  agrees indexed (view_published m indexed config) d.
Proof.
  intros (_&_&Ht&_). unfold view_published.
  destruct (truthy_id _); [done|]. destruct (indexed || _) eqn:Eix; [done|].
  apply orb_false_iff in Eix as [Eix _].
  destruct (py_max _) as [i|] eqn:Emax; [|done]. apply py_max_ref_keys in Emax as [Hi Hmax].
  set (t := cfg_thread_id config) in *. set (c := cfg_ns config) in *.
  assert (∀ ns k, ns ≠ LATEST_NS → <[(LATEST_NS, latest_key t c):=PStr i]> m !! (ns, k) = m !! (ns, k)) as Hns.
  { intros ns k Hne. apply lookup_insert_ne. by intros [= ? _]. }
  split.
  - by apply content_pointer_set, (ag_content _ _ _ Hag).
  - intros t' c' _ Ht' j.
    assert (∀ j', <[(LATEST_NS, latest_key t c):=PStr i]> m !! (ckpt_ns t' c', j') = m !! (ckpt_ns t' c', j'))
      as Hck by (intros; apply Hns; auto with text).
    setoid_rewrite Hck.
    destruct (decide (latest_key t' c' = latest_key t c)) as [Heq|Hne].
    + rewrite Heq, lookup_insert_eq. apply latest_key_inj in Heq as [-> ->]; [|done..].
      intros [= <-] _. exact Hmax.
    + rewrite lookup_insert_ne by congruence. by apply (ag_pointer _ _ _ Hag).
  - intros t' c' j Ht'. rewrite Hns by auto with text. by apply (ag_ckpts _ _ _ Hag).
  - intros t' c' j task idx Ht' Hc'. rewrite Hns by auto with text. by apply (ag_writes _ _ _ Hag).
  - apply (ag_ids _ _ _ Hag).
  - apply (ag_threads _ _ _ Hag).
Qed.

(** *** Listing *)

(** The entry under a name, and the tuple it makes. *)
Definition entry_at (t c i : pystr) : RefEntry :=
  from_option id {| re_checkpoint := PNone; re_metadata := PNone; re_parent := None |} (rd_ckpts d !! (t, c, i)).
Definition md_found (t c i : pystr) : pyval := re_metadata (entry_at t c i).
Definition tuple_found (t c i : pystr) : CheckpointTuple := tuple_of d t c i (entry_at t c i).

Lemma agrees_decodes {S : Type} (s : Saver S) t c i :
  incremental s = false → SEP ∉ t → SEP ∉ c → decodes m s md_found tuple_found t c i.
Proof.
  intros Hinc Ht Hc. unfold decodes, md_found, tuple_found, entry_at. pose proof (agrees_record t c i Ht) as Hr.
  destruct (rd_ckpts d !! (t, c, i)) as [e|] eqn:He; [|by rewrite Hr].
  destruct Hr as (saved&Hs&Hst). rewrite Hs. cbn [from_option id].
  destruct (ag_ids _ _ _ Hag _ _ _ _ He) as (_&Hdict&_). split; [by eapply stored_not_none|].
  split_and!; [|done|].
  - destruct Hst as (tcp&tmd&_&Hmd&->). by erewrite ck_record_md.
  - rewrite Hinc. apply agrees_tuple; try done. right. split; [done|]. by destruct (re_metadata e).
Qed.

Lemma agrees_listed filter_by before_id want_id t c : SEP ∉ t →
  listed m filter_by before_id md_found tuple_found t c (ids_at m want_id t c) =
  ref_listed filter_by before_id want_id d t c.
Proof.
  intros Ht. unfold ref_listed, listed, selected.
  assert (ids_at m want_id t c = match want_id with Some i => [i] | None => py_sorted_rev (ids_of d t c) end) as ->.
  { destruct want_id; [done|]. by apply py_sorted_rev_eq, agrees_ids. }
  generalize (match want_id with Some i => [i] | None => py_sorted_rev (ids_of d t c) end). intros l.
  induction l as [|i l IH]; [done|]. rewrite filter_cons. cbn [omap list_omap].
  pose proof (agrees_record t c i Ht) as Hr. unfold md_found, tuple_found, entry_at in *.
  destruct (rd_ckpts d !! (t, c, i)) as [e|] eqn:He; cbn [mbind option_bind from_option id].
  2:{ rewrite Hr, decide_False; [done|]. by intros [[? [=]] _]. }
  destruct Hr as (saved&Hs&_). rewrite Hs.
  destruct (is_before before_id i); cbn [andb]; [|by rewrite decide_False by naive_solver].
  destruct (md_matches filter_by (re_metadata e)); [|by rewrite decide_False by naive_solver].
  rewrite decide_True by done. cbn [fmap list_fmap]. rewrite He. cbn [from_option id]. by f_equal.
Qed.

(** The names listed are those of the reference. *)
Lemma ref_names_elem config t c :
  (t, c) ∈ ref_names config d ↔ config_names config t c = true ∧ ∃ i, is_Some (rd_ckpts d !! (t, c, i)).
Proof.
  unfold ref_names. rewrite elem_of_elements, elem_of_list_to_set, list_elem_of_filter, list_elem_of_fmap.
  cbn [fst snd]. apply and_iff_compat_l. split.
  - intros ([[t' c'] i]&[= <- <-]&Hi). exists i. by apply elem_of_map_to_list_fst.
  - intros [i Hi]. exists (t, c, i). split; [done|]. by apply elem_of_map_to_list_fst.
Qed.

Lemma agrees_names config names : lists_names m config names → names ≡ₚ ref_names config d.
Proof.
  intros [Hnd Hl]. apply NoDup_Permutation; [done|apply NoDup_elements|]. intros [t c].
  rewrite Hl, ref_names_elem. split.
  - intros (Hn&Ht&_&i&Hi). split; [done|]. exists i.
    by apply (option_Forall2_is_Some _ _ _ (ag_ckpts _ _ _ Hag t c i Ht)).
  - intros (Hn&i&[e He]). pose proof (ag_threads _ _ _ Hag _ _ _ _ He) as Ht.
    destruct (ag_ids _ _ _ Hag _ _ _ _ He) as (_&_&Hc). split_and!; [done..|]. exists i.
    apply (option_Forall2_is_Some _ _ _ (ag_ckpts _ _ _ Hag t c i Ht)). by exists e.
Qed.

(** Either all is listed, or there is one namespace to list. *)
Lemma agrees_list config filter_by before limit names :
  lists_names m config names → limit = None ∨ is_Some (config ≫= cfg_checkpoint_ns) →
  by_namespace (room limit 0 (list_answer m filter_by (truthy_id (before ≫= get_checkpoint_id))
    (truthy_id (config ≫= get_checkpoint_id)) md_found tuple_found names)) =
  by_namespace (ref_list config filter_by before limit d).
Proof.
  intros Hnames Hlimit. pose proof (agrees_names _ _ Hnames) as Hperm. unfold ref_list, list_answer.
  set (before_id := truthy_id _). set (want_id := truthy_id _).
  rewrite (list_bind_ext_in _ (λ n, ref_listed filter_by before_id want_id d n.1 n.2) names).
  2:{ intros [t c] (_&Ht&_)%Hnames. by apply agrees_listed. }
  destruct Hlimit as [->|[c Hc]].
  - cbn [room]. apply by_namespace_perm; [|apply Hnames|done].
    intros n tup. apply ref_listed_names.
  - replace (ref_names config d) with names; [done|]. symmetry in Hperm.
    destruct config as [config|]; [|done]. cbn in Hc.
    apply (Permutation_of_one (cfg_thread_id config, c) names _ (proj1 Hnames)); [|done].
    intros [t c'] [Hn _]%Hnames. cbn in Hn. rewrite Hc in Hn. apply andb_true_iff in Hn as [Ht Hc'].
    by destruct (str_eqb_spec t (cfg_thread_id config)) as [->|], (str_eqb_spec c' c) as [->|].
Qed.
End reading.

(** *** Putting *)

Lemma put_pointer_newest m pub t c i record :
  SEP ∉ t → pointer_newest m t c →
  (if pub : bool then ∀ j, is_Some (m !! (ckpt_ns t c, j)) → str_le j i
   else is_Some (m !! (ckpt_ns t c, i))) →
  pointer_newest (put_view m pub t c i record []) t c.
Proof.
  intros Ht Hp Hi j. rewrite put_view_pointers, decide_True by done.
  setoid_rewrite put_view_records. destruct pub.
  - intros [= <-] _ k [[= ->]|Hk]; [done|by apply Hi].
  - intros Hj Hlive k Hk. apply (Hp j Hj).
    + by destruct Hlive as [[= ->]|].
    + by destruct Hk as [[= ->]|].
Qed.

Lemma agrees_put indexed m d pub t c i e record :
  agrees indexed m d → SEP ∉ t → SEP ∉ c → text_ok i = true → i ≠ [] →
  is_dict (re_metadata e) = true → stored_as record e →
  (indexed = false → pointer_newest (put_view m pub t c i record []) t c) →
  agrees indexed (put_view m pub t c i record []) (ref_put t c i e d).
Proof.
  intros Hag Ht Hc Hti Hi Hdict Hrec Hptr.
  assert (∀ t' c' j, (t', c', j) ≠ (t, c, i) → SEP ∉ t' →
    put_view m pub t c i record [] !! (ckpt_ns t' c', j) = m !! (ckpt_ns t' c', j)) as Hother.
  { intros t' c' j Hne Ht'. apply put_view_other; [| |auto with text].
    - intros Heq. pose proof (f_equal snd Heq) as Hj. apply (f_equal fst) in Heq. cbn in Hj, Heq.
      apply ckpt_ns_inj in Heq as [-> ->]; [|done..]. by subst.
    - intros Heq%(f_equal fst). by apply (ckpt_ne_latest t' c'). }
  split.
  - apply put_view_content; [apply (ag_content _ _ _ Hag)|done..].
  - intros t' c' Hix Ht'. destruct (decide ((t', c') = (t, c))) as [[= -> ->]|Hne]; [by apply Hptr|].
    intros j. rewrite put_view_pointers, decide_False by done.
    assert (∀ k, put_view m pub t c i record [] !! (ckpt_ns t' c', k) = m !! (ckpt_ns t' c', k)) as Hk.
    { intros k. apply Hother; [congruence|done]. }
    setoid_rewrite Hk. by apply (ag_pointer _ _ _ Hag).
  - intros t' c' j Ht'. cbn [rd_ckpts ref_put].
    destruct (decide ((t', c', j) = (t, c, i))) as [[= -> -> ->]|Hne].
    + rewrite put_view_record, lookup_insert_eq. by constructor.
    + rewrite Hother, lookup_insert_ne by congruence. by apply (ag_ckpts _ _ _ Hag).
  - intros t' c' j task idx Ht' Hc'. rewrite put_view_other; [by apply (ag_writes _ _ _ Hag)|..].
    + intros Heq%(f_equal fst). by apply (ckpt_ne_writes t c t' c' j).
    + intros Heq%(f_equal fst). by apply (writes_ne_latest t' c' j).
    + auto with text.
  - intros t' c' j e'. cbn [rd_ckpts ref_put].
    intros [[[= <- <- <-] <-]|[_ He]]%lookup_insert_Some; [done|]. by apply (ag_ids _ _ _ Hag) in He.
  - intros t' c' j e'. cbn [rd_ckpts ref_put].
    intros [[[= <- <- <-] _]|[_ He]]%lookup_insert_Some; [done|]. by apply (ag_threads _ _ _ Hag) in He.
Qed.

(** *** Pending writes *)

Definition writes_agree m (ns : pystr) (ws : write_map) : Prop :=
  ∀ task idx, option_Forall2 (written_as task) (m !! (ns, write_key task idx)) (ws !! (task, idx)).

Lemma agree_insert m ns ws task idx saved w :
  writes_agree m ns ws → written_as task saved w →
  writes_agree (<[(ns, write_key task idx) := saved]> m) ns (<[(task, idx) := w]> ws).
Proof.
  intros Hws Hw task' idx'. destruct (decide ((task', idx') = (task, idx))) as [[= -> ->]|Hne].
  - rewrite !lookup_insert_eq. by constructor.
  - rewrite !lookup_insert_ne; [done|congruence|]. intros Heq%(f_equal snd). cbn in Heq.
    apply write_key_inj in Heq as [-> ->]. done.
Qed.

Lemma agree_writes m ns ws0 task path (l : list (Z * (pystr * pyval))) rows :
  writes_agree m ns ws0 → Forall2 (row_of task path) l rows →
  ∀ m1 ws1, writes_agree m1 ns ws1 →
    writes_agree (kv_set_many (free_rows m ns rows) m1) ns (foldl (ref_write task ws0) ws1 l).
Proof.
  intros H0 Hrows. induction Hrows as [|[idx [ch v]] r l rows (tv&Htv&->) _ IH]; intros m1 ws1 H1; [done|].
  cbn [foldl free_rows omap list_omap fst snd]. unfold ref_write at 2. cbn [fst snd].
  replace (bool_decide (is_Some (m !! (ns, write_key task idx))))
    with (bool_decide (is_Some (ws0 !! (task, idx))))
    by (apply bool_decide_ext; symmetry; eapply option_Forall2_is_Some, H0).
  destruct (_ && _); [by apply IH|]. apply (IH (<[_:=_]> m1)). apply agree_insert; [done|].
  by exists path, tv.
Qed.

Lemma agrees_put_writes indexed m d t c i task path l rows :
  agrees indexed m d → SEP ∉ t → SEP ∉ c → Forall2 (row_of task path) l rows →
  agrees indexed (writes_view m (writes_ns t c i) rows)
    {| rd_ckpts := rd_ckpts d;
       rd_writes := <[(t, c, i) := foldl (ref_write task (writes_at d t c i)) (writes_at d t c i) l]>
                      (rd_writes d) |}.
Proof.
  intros Hag Ht Hc Hrows.
  assert (∀ ns k, ns ≠ writes_ns t c i → writes_view m (writes_ns t c i) rows !! (ns, k) = m !! (ns, k))
    as Hother by (intros; by apply writes_view_other).
  split.
  - apply writes_view_content; [apply (ag_content _ _ _ Hag)|]. by eapply rows_are_wkeys.
  - intros t' c' Hix Ht' j. rewrite Hother by auto with text.
    assert (∀ k, writes_view m (writes_ns t c i) rows !! (ckpt_ns t' c', k) = m !! (ckpt_ns t' c', k)) as Hk
      by (intros; apply Hother; auto with text).
    setoid_rewrite Hk. by apply (ag_pointer _ _ _ Hag).
  - intros t' c' j Ht'. rewrite Hother by auto with text. by apply (ag_ckpts _ _ _ Hag).
  - intros t' c' j task' idx Ht' Hc'. unfold writes_at at 1. cbn [rd_writes].
    destruct (decide ((t', c', j) = (t, c, i))) as [[= -> -> ->]|Hne].
    + rewrite lookup_insert_eq. cbn [from_option id].
      apply (agree_writes m (writes_ns t c i) (writes_at d t c i) task path l rows); [|done|].
      * intros ??. by apply (ag_writes _ _ _ Hag).
      * intros ??. by apply (ag_writes _ _ _ Hag).
    + rewrite lookup_insert_ne, Hother by (congruence || (intros (->&->&->)%writes_ns_inj; done)).
      by apply (ag_writes _ _ _ Hag).
  - apply (ag_ids _ _ _ Hag).
  - apply (ag_threads _ _ _ Hag).
Qed.

(** *** Deleting a thread *)

Lemma without_lookup {V : Type} (x : gmap ckpt_name V) t t' c i :
  filter (λ e, e.1.1.1 ≠ t) x !! (t', c, i) = if decide (t' = t) then None else x !! (t', c, i).
Proof.
  case_decide as Hd.
  - apply map_lookup_filter_None. right. intros v _ Hne. by apply Hne.
  - destruct (x !! (t', c, i)) as [v|] eqn:E.
    + by apply map_lookup_filter_Some.
    + apply map_lookup_filter_None. by left.
Qed.

Lemma agrees_delete indexed m d t :
  agrees indexed m d → SEP ∉ t → agrees indexed (without_thread indexed t m) (ref_delete_thread t d).
Proof.
  intros Hag Ht.
  assert (∀ t' c i k, SEP ∉ t' →
    without_thread indexed t m !! (ckpt_ns t' c, k) =
      (if decide (t' = t) then None else m !! (ckpt_ns t' c, k)) ∧
    without_thread indexed t m !! (writes_ns t' c i, k) =
      (if decide (t' = t) then None else m !! (writes_ns t' c i, k)) ∧
    (t' ≠ t → without_thread indexed t m !! (LATEST_NS, latest_key t' c) = m !! (LATEST_NS, latest_key t' c)))
    as Hrows.
  { intros t' c i k Ht'. unfold without_thread. rewrite !filter_lookup. case_decide as Heq.
    - subst. by destruct (owned_names indexed t c i k) as (->&->&_).
    - by destruct (not_owned_names indexed t t' c i k) as (->&->&_&->). }
  assert (∀ t' c i, writes_at (ref_delete_thread t d) t' c i =
    if decide (t' = t) then ∅ else writes_at d t' c i) as Hws.
  { intros t' c i. unfold writes_at. cbn [rd_writes ref_delete_thread]. rewrite without_lookup.
    by case_decide. }
  split.
  - eapply content_subset; [|apply (ag_content _ _ _ Hag)]. apply map_filter_subseteq.
  - intros t' c Hix Ht' i. destruct (decide (t' = t)) as [->|Hne].
    + intros _ Hi. destruct (Hrows t c [] i Ht) as (Hck&_). rewrite Hck, decide_True in Hi by done.
      by destruct Hi.
    + assert (∀ k, without_thread indexed t m !! (ckpt_ns t' c, k) = m !! (ckpt_ns t' c, k)) as Hck.
      { intros k. destruct (Hrows t' c [] k Ht') as (->&_). by rewrite decide_False. }
      setoid_rewrite Hck. destruct (Hrows t' c [] [] Ht') as (_&_&->); [|done].
      by apply (ag_pointer _ _ _ Hag).
  - intros t' c i Ht'. destruct (Hrows t' c [] i Ht') as (->&_). cbn [rd_ckpts ref_delete_thread].
    rewrite without_lookup. case_decide; [constructor|]. by apply (ag_ckpts _ _ _ Hag).
  - intros t' c i task idx Ht' Hc'. destruct (Hrows t' c i (write_key task idx) Ht') as (_&->&_).
    rewrite Hws. case_decide; [rewrite lookup_empty; constructor|]. by apply (ag_writes _ _ _ Hag).
  - intros t' c i e. cbn [rd_ckpts ref_delete_thread]. rewrite without_lookup. case_decide; [done|].
    apply (ag_ids _ _ _ Hag).
  - intros t' c i e. cbn [rd_ckpts ref_delete_thread]. rewrite without_lookup. case_decide; [done|].
    apply (ag_threads _ _ _ Hag).
Qed.
End agreement.
