(* ===== verification/SaverHistory.v ===== *)
(** * The history of delta channels

    [get_delta_channel_history] walks the parent chain once for all channels and
    stops early. What it answers for a channel is what the reference says of that
    channel alone: the writes of the ancestors back to the nearest that holds a
    value of it, and that value. *)

From S2P Require Import Prelude PyValue Store SnapshotLaws Saver SaverOps SaverRead.
From S2P Require Import SaverLemmas SaverSpec SaverPut SaverMeasure SaverTheorems SaverAdmin.
From S2P Require Import SaverList SaverWrites SaverReference SaverRefinement.

Abbreviation to_channel ch := (wanted (Some {[ ch ]})).

(** ** Collecting *)

(** The list a channel has collected grows by its writes. *)
Lemma collect_all (ws : list pending) col :
  Forall (λ w : pending, ∃ ch, w.1.2 = PStr ch ∧ is_Some (col !! ch)) ws →
  ∃ col', foldR ws (λ col w, collect w col) col = Ok col' ∧
    ∀ ch, col' !! ch = (λ l, l ++ filter (to_channel ch) ws) <$> col !! ch.
Proof.
  revert col. induction ws as [|w ws IH]; intros col Hws.
  - exists col. split; [done|]. intros ch. destruct (col !! ch); cbn; [by rewrite app_nil_r|done].
  - apply Forall_cons in Hws as [(ch&Hch&[l Hl]) Hws]. cbn [foldR].
    assert (collect w col = Ok (<[ch := l ++ [w]]> col)) as ->.
    { unfold collect. rewrite Hch. cbn [as_str mbind result_bind]. by rewrite Hl. }
    cbn [mbind result_bind]. destruct (IH (<[ch := l ++ [w]]> col)) as (col'&Hcol&Hget).
    { eapply Forall_impl; [exact Hws|]. intros w' (ch'&Hch'&Hin). exists ch'. split; [done|].
      destruct (decide (ch' = ch)) as [->|?]; [by rewrite lookup_insert_eq|by rewrite lookup_insert_ne]. }
    exists col'. split; [done|]. intros ch'. rewrite Hget, filter_cons.
    assert (to_channel ch' w = bool_decide (ch ∈ ({[ ch' ]} : gset pystr))) as -> by (unfold wanted; by rewrite Hch).
    destruct (decide (ch' = ch)) as [->|Hne].
    + rewrite lookup_insert_eq, Hl, decide_True by (rewrite bool_decide_true; set_solver).
      cbn. by rewrite <-app_assoc.
    + rewrite lookup_insert_ne, decide_False by (done || rewrite bool_decide_false; set_solver). done.
Qed.

(** A walk that sets each key it finds. *)
Lemma insert_all_lookup (l : list (pystr * pyval)) (seeds : gmap pystr pyval) ch :
  NoDup l.*1 →
  foldl (λ m e, <[e.1 := e.2]> m) seeds l !! ch =
    match od_get l ch with Some v => Some v | None => seeds !! ch end.
Proof.
  revert seeds. induction l as [|[k v] l IH]; intros seeds Hl; [done|].
  cbn [fmap list_fmap] in Hl. apply NoDup_cons in Hl as [Hk Hl]. cbn [foldl od_get fst snd].
  rewrite IH by done. case_decide as Heq.
  - subst k. destruct (od_get l ch) as [v'|] eqn:E; [|by rewrite lookup_insert_eq].
    destruct Hk. apply od_get_Some_keys. by eexists.
  - by rewrite lookup_insert_ne.
Qed.

Section values.
Context `{lg : !LangGraph} `{lgspec : !LangGraphSpec}.
Implicit Types (t c i : pystr) (m : kv) (d : RefData) (e : RefEntry).

Lemma holds_inline e : holds_values e → py_in (key "channel_values") (re_checkpoint e) = Ok true.
Proof.
  intros [values Hv]. destruct (re_checkpoint e) as [| | | | | | | |cd|]; try done. cbn in *.
  unfold dict_has. by destruct (dict_get cd _).
Qed.

(** The values found for the channels that remain. *)
Lemma values_found m t c (saved : pyval) e (remaining : gset pystr) :
  stored_as saved e → holds_values e →
  ∃ present, view_channel_values m t c saved remaining = Ok present ∧ NoDup present.*1 ∧
    ∀ ch, od_get present ch = if decide (ch ∈ remaining) then value_in e ch else None.
Proof.
  intros (tcp&tmd&Hcp&_&->) [values Hv]. unfold view_channel_values, value_in.
  erewrite ck_record_cp by done. cbn [mbind result_bind]. rewrite Hv.
  rewrite holds_inline by by exists values. cbn [mbind result_bind].
  enough (∀ l acc, NoDup acc.*1 → ∃ present,
    foldR l (λ out ch, present ← py_in (PStr ch) (PDict values);
      if present : bool then v ← py_getitem (PDict values) (PStr ch); Ok (od_set out ch v)
      else Ok out) acc = Ok present ∧ NoDup present.*1 ∧
    ∀ ch, od_get present ch =
      if decide (ch ∈ l) then match dict_get values (PStr ch) with Some v => Some v | None => od_get acc ch end
      else od_get acc ch) as H.
  { destruct (H (elements remaining) [] ltac:(constructor)) as (present&Hp&Hnd&Hget).
    exists present. split_and!; [done..|]. intros ch. rewrite Hget. cbn [od_get].
    rewrite (decide_ext _ _ _ _ (elem_of_elements remaining ch)).
    by destruct (decide _), (dict_get values (PStr ch)). }
  intros l. induction l as [|k l IH]; intros acc Hacc.
  { exists acc. split_and!; [done..|]. intros ch. rewrite decide_False by apply not_elem_of_nil. done. }
  cbn [foldR py_in mbind result_bind py_getitem]. unfold dict_has.
  destruct (dict_get values (PStr k)) as [v|] eqn:Ek; cbn [mbind result_bind or_raise].
  - destruct (IH (od_set acc k v)) as (present&Hp&Hnd&Hget); [by apply od_set_NoDup|].
    exists present. split_and!; [done..|]. intros ch. rewrite Hget, od_get_set.
    destruct (decide (k = ch)) as [->|Hne].
    + rewrite Ek, (decide_True (P := ch ∈ ch :: l)) by left. by case_decide.
    + rewrite (decide_ext (ch ∈ k :: l) (ch ∈ l)) by set_solver. done.
  - destruct (IH acc Hacc) as (present&Hp&Hnd&Hget). exists present. split_and!; [done..|]. intros ch.
    rewrite Hget. destruct (decide (k = ch)) as [->|Hne].
    + rewrite Ek, (decide_True (P := ch ∈ ch :: l)) by left. by case_decide.
    + rewrite (decide_ext (ch ∈ k :: l) (ch ∈ l)) by set_solver. done.
Qed.
End values.

(** ** The parent chain *)

Section lineage.
Context `{lg : !LangGraph}.
Implicit Types (t c i : pystr) (d : RefData).

(** The ids of the thread at or below the cursor: a bound on the walk. *)
Definition below d t c (cursor : option pystr) : nat :=
  match cursor with Some x => length (filter (λ j, str_le j x) (ids_of d t c)) | None => 0 end.

Lemma below_size d t c cursor : below d t c cursor ≤ length (ids_of d t c).
Proof. destruct cursor as [x|]; cbn [below]; [apply length_filter|lia]. Qed.

Lemma below_parent d t c i e : parents_older d t c →
  rd_ckpts d !! (t, c, i) = Some e → below d t c (re_parent e) < below d t c (Some i).
Proof.
  intros Hold He. assert (i ∈ ids_of d t c) as Hi by by apply ids_of_elem.
  assert (i ∈ filter (λ j, str_le j i) (ids_of d t c)) as Hin by by apply list_elem_of_filter.
  destruct (re_parent e) as [p|] eqn:Ep; cbn [below].
  - pose proof (Hold _ _ _ He Ep) as Hlt. pose proof (ids_of_NoDup d t c) as Hnd.
    assert (submseteq (i :: filter (λ j, str_le j p) (ids_of d t c)) (filter (λ j, str_le j i) (ids_of d t c))) as Hs.
    { apply NoDup_submseteq.
      - constructor; [|by apply NoDup_filter]. intros [Hip _]%list_elem_of_filter.
        by apply (str_lt_irrefl p), (str_lt_le_trans _ i).
      - intros j [->|[Hj ?]%list_elem_of_filter]%elem_of_cons; [done|]. apply list_elem_of_filter.
        split; [|done]. apply str_lt_le. by apply (str_le_lt_trans _ p). }
    apply submseteq_length in Hs. cbn [length] in Hs. lia.
  - destruct (filter _ _); [by apply not_elem_of_nil in Hin|cbn; lia].
Qed.
End lineage.

(** ** The walk *)

Section walk.
Context {S : Type} `{ops : !StoreOps S} `{spec : !StoreSpec S} `{lg : !LangGraph} `{lgspec : !LangGraphSpec}.
Context (indexed : bool) (m : kv) (d : RefData) (s0 : Saver S) (t c : pystr).
Context (Hag : agrees indexed m d) (Htext : text_keys m) (Hstored : ∀ ns k v, m !! (ns, k) = Some v → storable v).
Context (Hname : name_ok t c) (Hold : parents_older d t c).
Context (Hvalues : ∀ i e, rd_ckpts d !! (t, c, i) = Some e → holds_values e).

Definition from_writes (ch i : pystr) : list pending := filter (to_channel ch) (pending_of (writes_at d t c i)).

(** What the walk adds for each channel still looked for. *)
Definition extends (l : list (pystr * RefEntry)) (w w' : DeltaWalk) : Prop :=
  ∀ ch, dw_collected w' !! ch =
      (λ x, x ++ (if decide (ch ∈ dw_remaining w)
                  then (rebuilt_from ch l).1 ≫= λ i, reverse (from_writes ch i) else [])) <$> dw_collected w !! ch ∧
    dw_seeds w' !! ch =
      if decide (ch ∈ dw_remaining w)
      then match (rebuilt_from ch l).2 with Some v => Some v | None => dw_seeds w !! ch end
      else dw_seeds w !! ch.

Definition collecting (w : DeltaWalk) : Prop := ∀ ch, ch ∈ dw_remaining w → is_Some (dw_collected w !! ch).

Lemma extends_nil w : extends [] w w.
Proof.
  intros ch. cbn. split; [|by case_decide].
  destruct (dw_collected w !! ch); [|done]. cbn. case_decide; by rewrite app_nil_r.
Qed.

Lemma extends_done l w : dw_remaining w = ∅ → extends l w w.
Proof.
  intros Hr ch. rewrite Hr, !decide_False by set_solver. split; [|done].
  destruct (dw_collected w !! ch); [|done]. cbn. by rewrite app_nil_r.
Qed.

(** One ancestor. *)
Definition advanced (w : DeltaWalk) (i : pystr) (e : RefEntry) (w' : DeltaWalk) : Prop :=
  (∀ ch, dw_collected w' !! ch =
    (λ x, x ++ (if decide (ch ∈ dw_remaining w) then reverse (from_writes ch i) else [])) <$> dw_collected w !! ch) ∧
  (∀ ch, dw_seeds w' !! ch =
    if decide (ch ∈ dw_remaining w) then match value_in e ch with Some v => Some v | None => dw_seeds w !! ch end
    else dw_seeds w !! ch) ∧
  (∀ ch, ch ∈ dw_remaining w' ↔ ch ∈ dw_remaining w ∧ value_in e ch = None).

Lemma extends_cons i e l w w1 w2 : advanced w i e w1 → extends l w1 w2 → extends ((i, e) :: l) w w2.
Proof.
  intros (Hcol&Hseed&Hrem) Hext ch. destruct (Hext ch) as [Hc2 Hs2]. rewrite Hcol in Hc2. rewrite Hseed in Hs2.
  cbn [rebuilt_from]. destruct (decide (ch ∈ dw_remaining w)) as [Hin|Hout].
  - destruct (value_in e ch) as [v|] eqn:Ev.
    + rewrite decide_False in Hc2 by naive_solver. rewrite decide_False in Hs2 by naive_solver. cbn [fst snd]. split; [|done]. rewrite Hc2.
      destruct (dw_collected w !! ch); [|done]. cbn. by rewrite !app_nil_r.
    + rewrite decide_True in Hc2 by naive_solver. rewrite decide_True in Hs2 by naive_solver. destruct (rebuilt_from ch l) as [ids seed].
      cbn [fst snd] in *. split; [|done]. rewrite Hc2. destruct (dw_collected w !! ch); [|done]. cbn.
      by rewrite <-app_assoc.
  - rewrite decide_False in Hc2 by naive_solver. rewrite decide_False in Hs2 by naive_solver. split; [|done]. rewrite Hc2.
    destruct (dw_collected w !! ch); [|done]. cbn. by rewrite !app_nil_r.
Qed.

Lemma advanced_collecting w i e w' : collecting w → advanced w i e w' → collecting w'.
Proof.
  intros Hw (Hcol&_&Hrem) ch [Hin _]%Hrem. rewrite Hcol. destruct (Hw ch Hin) as [x ->]. by eexists.
Qed.

Lemma parent_text i e : rd_ckpts d !! (t, c, i) = Some e → from_option valid_text True (re_parent e).
Proof.
  intros He. destruct Hname as (_&_&Ht&_). pose proof (agrees_record _ _ _ Hag t c i Ht) as Hr.
  rewrite He in Hr. destruct Hr as (saved&Hm&tcp&tmd&_&_&->).
  destruct (Hstored _ _ _ Hm) as [Hw _]. destruct (re_parent e) as [p|]; [|done].
  cbn in Hw. rewrite !andb_true_iff in Hw. apply text_ok_valid. naive_solver.
Qed.

Lemma steady_values saved e remaining :
  stored_as saved e → holds_values e →
  steady m s0 (channel_values t c saved remaining) (view_channel_values m t c saved remaining).
Proof.
  intros (tcp&tmd&Hcp&_&->) [values Hv]. unfold channel_values, view_channel_values.
  erewrite ck_record_cp by done. cbn [mbind result_bind].
  eapply steady_bind_ok; [apply steady_lift|].
  rewrite holds_inline by by exists values. cbn [mbind result_bind]. eapply steady_bind_ok; [apply steady_lift|].
  apply steady_bind; [apply steady_lift|]. intros ? _. apply steady_lift.
Qed.

(** The writes of an ancestor, with those to other channels left out. *)
Lemma steady_collect i w : collecting w → valid_text i →
  ∃ ws col, steady m s0 (pending_writes t c i (Some (dw_remaining w))) (Ok ws) ∧
    steady m s0 (for_fold (reverse ws) (λ col x, lift (collect x col)) (dw_collected w)) (Ok col) ∧
    ∀ ch, col !! ch = (λ x, x ++ (if decide (ch ∈ dw_remaining w) then reverse (from_writes ch i) else []))
      <$> dw_collected w !! ch.
Proof.
  intros Hw Hi. destruct Hname as (Hvt&Hvc&Ht&Hc).
  set (ws := filter (wanted (Some (dw_remaining w))) (pending_of (writes_at d t c i))).
  destruct (collect_all (reverse ws) (dw_collected w)) as (col&Hcol&Hget).
  { apply Forall_forall. intros x Hx. apply elem_of_reverse, list_elem_of_filter in Hx as [Hx _].
    unfold wanted in Hx. destruct (x.1.2) as [| | | |ch| | | | |] eqn:Ex; try done.
    exists ch. split; [done|]. apply Hw. by apply bool_decide_unpack in Hx. }
  exists ws, col. split_and!.
  - unfold ws. rewrite <-(agrees_pending_in _ _ _ Hag _ t c i Ht Hc). apply steady_pending_writes; try done.
    apply (content_writes _ _ (ag_content _ _ _ Hag)).
  - rewrite <-Hcol. apply steady_foldR. intros. apply steady_lift.
  - intros ch. rewrite Hget. destruct (dw_collected w !! ch) as [x|]; [|done]. cbn. do 2 f_equal.
    rewrite filter_reverse. case_decide as Hin.
    + f_equal. apply list_filter_filter_l. intros y. unfold wanted. destruct (y.1.2); try done.
      intros Hy%bool_decide_unpack. apply bool_decide_pack. set_solver.
    + change (@nil pending) with (reverse (@nil pending)). f_equal. apply filter_none.
      apply Forall_forall. intros y [Hy _]%list_elem_of_filter Hch. unfold wanted in *. destruct (y.1.2); try done.
      apply bool_decide_unpack in Hy, Hch. set_solver.
Qed.

Lemma walk_over (fuel : nat) cursor w :
  truthy_id cursor = None ∨ dw_remaining w = ∅ →
  history_walk (S:=S) fuel t c (opt_str cursor) w = mret w.
Proof.
  intros Hover. assert (negb (truthy (opt_str cursor)) || bool_decide (dw_remaining w = ∅) = true) as E.
  { destruct Hover as [Hc|Hr]; [by destruct cursor as [[]|]|]. by rewrite (bool_decide_true _ Hr), orb_true_r. }
  destruct fuel; cbn [history_walk]; by rewrite E.
Qed.

Lemma walk_on (i : pystr) w (Hi : i ≠ []) (Hr : dw_remaining w ≠ ∅) :
  negb (truthy (PStr i)) || bool_decide (dw_remaining w = ∅) = false.
Proof. rewrite (bool_decide_false _ Hr). by destruct i. Qed.

Lemma walk_missing fuel i w : i ≠ [] → valid_text i → rd_ckpts d !! (t, c, i) = None →
  steady m s0 (history_walk (Datatypes.S fuel) t c (PStr i) w) (Ok w).
Proof.
  intros Hi Hv He. destruct Hname as (Hvt&Hvc&Ht&_). cbn [history_walk].
  destruct (decide (dw_remaining w = ∅)) as [Hr|Hr].
  { rewrite (bool_decide_true _ Hr), orb_true_r. apply steady_ret. }
  rewrite walk_on by done. eapply steady_bind_ok; [exact (steady_lift m s0 (Ok i))|].
  eapply steady_bind_ok; [apply steady_get; auto with text|].
  pose proof (agrees_record _ _ _ Hag t c i Ht) as Hrec. rewrite He in Hrec. unfold kv_get. rewrite Hrec.
  apply steady_ret.
Qed.

Lemma walk_step fuel i e w :
  i ≠ [] → valid_text i → rd_ckpts d !! (t, c, i) = Some e → dw_remaining w ≠ ∅ → collecting w →
  ∃ w1, advanced w i e w1 ∧ ∀ r, steady m s0 (history_walk fuel t c (opt_str (re_parent e)) w1) r →
    steady m s0 (history_walk (Datatypes.S fuel) t c (PStr i) w) r.
Proof.
  intros Hi Hv He Hr Hw. destruct Hname as (Hvt&Hvc&Ht&_).
  pose proof (agrees_record _ _ _ Hag t c i Ht) as Hrec. rewrite He in Hrec. destruct Hrec as (saved&Hm&Hs).
  destruct (steady_collect i w Hw Hv) as (ws&col&Hws&Hcol&Hget).
  destruct (values_found m t c saved e (dw_remaining w) Hs (Hvalues _ _ He)) as (present&Hp&Hnd&Hpres).
  exists {| dw_collected := col; dw_seeds := foldl (λ m e, <[e.1 := e.2]> m) (dw_seeds w) present;
            dw_remaining := dw_remaining w ∖ list_to_set present.*1 |}.
  split; [split_and!; cbn [dw_collected dw_seeds dw_remaining]|].
  - exact Hget.
  - intros ch. rewrite insert_all_lookup, Hpres by done. by case_decide.
  - intros ch. rewrite elem_of_difference, elem_of_list_to_set, <-od_get_Some_keys, Hpres.
    case_decide; [|naive_solver]. destruct (value_in e ch); naive_solver.
  - intros r Hrest. cbn [history_walk]. rewrite walk_on by done.
    eapply steady_bind_ok; [exact (steady_lift m s0 (Ok i))|].
    eapply steady_bind_ok; [apply steady_get; auto with text|].
    unfold kv_get. rewrite Hm. cbn [from_option id]. rewrite (stored_not_none _ _ Hs).
    eapply steady_bind_ok; [exact Hws|]. eapply steady_bind_ok; [exact Hcol|].
    eapply steady_bind_ok; [rewrite <-Hp; by eapply steady_values, Hvalues|].
    eapply steady_bind_ok; [|exact Hrest].
    destruct Hs as (tcp&tmd&_&_&->). exact (steady_lift m s0 (Ok (opt_str (re_parent e)))).
Qed.

Lemma history_walk_steady n fuel cursor w :
  from_option valid_text True cursor → below d t c cursor ≤ n → n < fuel → collecting w →
  ∃ w', steady m s0 (history_walk fuel t c (opt_str cursor) w) (Ok w') ∧ extends (lineage n d t c cursor) w w'.
Proof.
  revert fuel cursor w. induction n as [|n IH]; intros [|fuel] cursor w Hcur Hb Hfuel Hw; try lia.
  all: destruct (truthy_id cursor) as [i|] eqn:Ei;
    [apply truthy_id_Some in Ei as [-> Hi]|
     exists w; rewrite walk_over by (by left); split; [apply steady_ret|]; cbn [lineage]; rewrite ?Ei; apply extends_nil].
  - exists w. split; [|apply extends_nil]. apply walk_missing; [done..|].
    destruct (rd_ckpts d !! (t, c, i)) as [e|] eqn:E; [|done]. pose proof (below_parent _ _ _ _ _ Hold E). lia.
  - destruct (decide (dw_remaining w = ∅)) as [Hr|Hr].
    { exists w. rewrite walk_over by (by right). split; [apply steady_ret|by apply extends_done]. }
    cbn [lineage]. replace (truthy_id (Some i)) with (Some i) by by destruct i.
    destruct (rd_ckpts d !! (t, c, i)) as [e|] eqn:E.
    + destruct (walk_step fuel i e w Hi Hcur E Hr Hw) as (w1&Hadv&Hstep).
      destruct (IH fuel (re_parent e) w1) as (w2&H2&Hext).
      * by eapply parent_text.
      * pose proof (below_parent _ _ _ _ _ Hold E). lia.
      * lia.
      * by eapply advanced_collecting.
      * exists w2. split; [by apply Hstep|by eapply extends_cons].
    + exists w. split; [by apply walk_missing|apply extends_nil].
Qed.
End walk.

(** ** The answer *)

Lemma reverse_bind {A B : Type} (f : A → list B) (l : list A) :
  reverse (l ≫= λ x, reverse (f x)) = reverse l ≫= f.
Proof.
  induction l as [|x l IH]; [done|]. rewrite reverse_cons, bind_app. cbn [mbind list_bind].
  by rewrite reverse_app, reverse_involutive, app_nil_r, <-IH.
Qed.

Section history.
Context {S : Type} `{ops : !StoreOps S} `{spec : !StoreSpec S} `{lg : !LangGraph} `{lgspec : !LangGraphSpec}.
Implicit Types (s : Saver S) (t c i : pystr) (d : RefData).

Definition new_walk (channels : list pystr) : DeltaWalk :=
  {| dw_collected := list_to_map ((λ ch, (ch, [])) <$> channels); dw_seeds := ∅;
     dw_remaining := list_to_set channels |}.

Lemma new_walk_collected channels ch : ch ∈ channels → dw_collected (new_walk channels) !! ch = Some [].
Proof.
  intros Hch. cbn. induction channels as [|k l IH]; [by apply not_elem_of_nil in Hch|]. cbn.
  destruct (decide (k = ch)) as [->|Hne]; [by rewrite lookup_insert_eq|].
  rewrite lookup_insert_ne by done. apply IH. set_solver.
Qed.

Lemma new_walk_collecting channels : collecting (new_walk channels).
Proof. intros ch Hch%elem_of_list_to_set. rewrite new_walk_collected by done. by eexists. Qed.

(** What is made of a finished walk. *)
Lemma history_entries d t c l w channels :
  extends d t c l (new_walk channels) w →
  (λ ch, (ch, {| de_writes := reverse (from_option id [] (dw_collected w !! ch));
                 de_seed := dw_seeds w !! ch |})) <$> channels =
  (λ ch, (ch, rebuilt d t c l ch)) <$> channels.
Proof.
  intros Hext. apply list_fmap_ext. intros j ch Hch%list_elem_of_lookup_2. f_equal.
  destruct (Hext ch) as [Hcol Hseed]. rewrite new_walk_collected in Hcol by done.
  rewrite decide_True in Hcol by by apply elem_of_list_to_set.
  rewrite decide_True in Hseed by by apply elem_of_list_to_set.
  unfold rebuilt. destruct (rebuilt_from ch l) as [ids seed]. cbn [fst snd] in *. rewrite Hcol, Hseed.
  cbn [fmap option_fmap option_map from_option id app dw_seeds new_walk]. rewrite lookup_empty. f_equal.
  - by rewrite reverse_bind.
  - by destruct seed.
Qed.

Lemma history_at s indexed d fuel config channels :
  let t := cfg_thread_id config in
  let c := cfg_ns config in
  sok s → valid_config config → agrees indexed (sview s) d → store_indexes_max_key s = indexed →
  name_ok t c → history_ok d t c → length (ids_of d t c) < fuel →
  wp (get_delta_channel_history fuel config channels) s (λ l s',
    l = ref_history config channels d ∧ ∃ m', agrees indexed m' d ∧ at_view m' s s').
Proof.
  intros t c Hs Hc Hag Hix Hname [Hold Hvalues] Hfuel. unfold get_delta_channel_history.
  destruct channels as [|ch0 chs]; [|set (channels := ch0 :: chs)].
  { apply wp_ret. split; [done|]. exists (sview s). split; [done|by apply at_view_refl]. }
  eapply wp_bind_mono; [by apply (resolve_at s config false), (ag_content _ _ _ Hag)|].
  intros r s1 [-> H1]. rewrite Hix in H1 |- *.
  set (m' := view_published (sview s) indexed config) in *.
  assert (agrees indexed m' d) as Hag' by by apply agrees_published.
  pose proof (at_view_ok _ _ _ H1) as Hs1. pose proof (at_view_view _ _ _ H1) as Hv1.
  assert (text_keys m') as Htext by (rewrite <-Hv1; by apply sview_text).
  assert (∀ ns k v, m' !! (ns, k) = Some v → storable v) as Hst.
  { intros ns k v. rewrite <-Hv1. intros Hk. by apply (sv_text _ _ _ _ Hs1 Hk). }
  pose proof (agrees_resolve _ _ _ Hag config Hname) as Hr. fold t c in Hr.
  unfold ref_history. fold t c. set (n := length (ids_of d t c)) in *.
  assert (∀ cursor, from_option valid_text True cursor → ∀ s2, at_view m' s s2 →
    wp (d ← history_walk fuel t c (opt_str cursor) (new_walk channels);
        mret (od_of_list ((λ ch, (ch, {|
          de_writes := reverse (from_option id [] (dw_collected d !! ch));
          de_seed := dw_seeds d !! ch |})) <$> channels))) s2 (λ l s',
      l = od_of_list ((λ ch, (ch, rebuilt d t c (lineage n d t c cursor) ch)) <$> channels) ∧
      ∃ m', agrees indexed m' d ∧ at_view m' s s')) as Hwalk.
  { intros cursor Hcur s2 H2.
    destruct (history_walk_steady indexed m' d s t c Hag' Htext Hst Hname Hold Hvalues n fuel cursor
      (new_walk channels) Hcur (below_size d t c cursor) Hfuel (new_walk_collecting channels)) as (w&Hw&Hext).
    eapply wp_bind, (steady_wp m' s); [exact Hw|exact H2|]. intros s3 H3. apply wp_ret.
    split; [by rewrite (history_entries _ _ _ _ _ _ Hext)|]. by exists m'. }
  destruct (ref_find config d) as [[i e]|]; cbn [mbind option_bind snd].
  - destruct Hr as (saved&->&_&Hrec&He). cbn [from_option id].
    eapply wp_bind, (steady_wp m' s); [|exact H1|].
    { destruct Hrec as (tcp&tmd&_&_&->). exact (steady_lift m' s (Ok (opt_str (re_parent e)))). }
    apply Hwalk. by eapply (parent_text indexed m' d t c).
  - rewrite Hr. cbn [from_option id].
    eapply wp_bind, (steady_wp m' s); [exact (steady_lift m' s (Ok PNone))|exact H1|].
    intros s2 H2. change (Build_DeltaWalk _ _ _) with (new_walk channels).
    apply wp_bind. change PNone with (opt_str None). rewrite walk_over by by left. do 2 apply wp_ret.
    split; [|by exists m'].
    replace (lineage n d t c None) with (@nil (pystr * RefEntry)) by by destruct n.
    by rewrite (history_entries d t c [] _ _ (extends_nil d t c _)).
Qed.
End history.
