(* ===== verification/SaverCopy.v ===== *)
(** * Copying a thread

    What [copy_thread] leaves in the store: under each name of the target, the
    row of the source where the source has one, and the target's latest pointers. *)

From S2P Require Import Prelude PyValue Store SnapshotLaws Saver SaverOps SaverRead.
From S2P Require Import SaverLemmas SaverSpec SaverPut SaverMeasure SaverTheorems SaverAdmin.
From S2P Require Import SaverList SaverWrites SaverReference SaverRefinement.

(** ** Names *)

(** A namespace of a kind and a thread. *)
Definition kind_ns (kind t rest : pystr) : pystr := kind ++ SEP :: t ++ SEP :: rest.

Lemma kind_ns_starts kind t ns :
  starts_with (thread_prefix kind t) ns = true ↔ ∃ rest, ns = kind_ns kind t rest.
Proof.
  unfold kind_ns, thread_prefix. rewrite starts_with_spec. split; intros [r ->]; exists r;
    by rewrite <-?app_assoc; cbn; rewrite <-?app_assoc.
Qed.

Lemma kind_ns_inj kind t rest kind' t' rest' :
  SEP ∉ kind → SEP ∉ kind' → SEP ∉ t → SEP ∉ t' →
  kind_ns kind t rest = kind_ns kind' t' rest' → kind = kind' ∧ t = t' ∧ rest = rest'.
Proof.
  unfold kind_ns. intros ???? Heq. apply sep_inj in Heq as [-> Heq]; [|done..]. by apply sep_inj in Heq as [-> ->].
Qed.

Lemma retarget_kind_ns kind s t rest : SEP ∉ kind → SEP ∉ s →
  retarget_ns (kind_ns kind s rest) t = kind_ns kind t rest.
Proof.
  intros Hk Hs. unfold retarget_ns, kind_ns. rewrite !split_on_app by done. cbn [insert list_insert].
  pose proof (join_split_on SEP rest) as Hj. pose proof (split_on_not_nil SEP rest) as Hn.
  destruct (split_on SEP rest) as [|p ps]; [done|]. cbn [join_with] in *. by rewrite Hj.
Qed.

Lemma valid_kind_ns kind t rest :
  valid_text (kind_ns kind t rest) ↔ valid_text kind ∧ valid_text t ∧ valid_text rest.
Proof.
  unfold kind_ns. rewrite !valid_text_app, !valid_text_cons, valid_text_app, valid_text_cons.
  assert (scalar SEP = true) by done. naive_solver.
Qed.

(** ** The rows *)

(** [m'] is [m] with the rows of one namespace put under another. *)
Definition copied_at (f : pyval → pyval) (ns ns' : pystr) (m m' : kv) : Prop :=
  (∀ k, m' !! (ns', k) = match m !! (ns, k) with
                         | Some v => if is_none v then m !! (ns', k) else Some (f v)
                         | None => m !! (ns', k)
                         end) ∧
  ∀ ns0 k, ns0 ≠ ns' → m' !! (ns0, k) = m !! (ns0, k).

Definition copied_rows (f : pyval → pyval) (m : kv) (ns ns' : pystr) (l : list pystr)
    : list (pystr * pystr * pyval) :=
  omap (λ k, let v := kv_get m ns k in if is_none v then None else Some (ns', k, f v)) l.

Lemma copied_rows_keys f m ns ns' l p :
  p ∈ (copied_rows f m ns ns' l).*1 ↔ p.1 = ns' ∧ p.2 ∈ l ∧ is_none (kv_get m ns p.2) = false.
Proof.
  unfold copied_rows. rewrite list_elem_of_fmap. split.
  - intros ([q v]&->&(k&Hk&Hq)%list_elem_of_omap). cbn in *. destruct (is_none _) eqn:E; [done|]. by simplify_eq.
  - destruct p as [ns0 k]. cbn. intros (->&Hk&Hn). exists (ns', k, f (kv_get m ns k)). split; [done|].
    apply list_elem_of_omap. exists k. cbn. by rewrite Hn.
Qed.

Lemma copied_rows_NoDup f m ns ns' l : NoDup l → NoDup (copied_rows f m ns ns' l).*1.
Proof.
  intros Hl. induction Hl as [|k l Hk _ IH]; [constructor|]. unfold copied_rows in *. cbn [omap list_omap].
  destruct (is_none _); [done|]. cbn [fmap list_fmap]. constructor; [|done].
  intros Hin. apply (copied_rows_keys f) in Hin as (_&?&_). done.
Qed.

Lemma copied_rows_set f m ns ns' l :
  lists_keys m ns None l → copied_at f ns ns' m (kv_set_many (copied_rows f m ns ns' l) m).
Proof.
  intros [Hnd Hl]. split.
  - intros k. destruct (m !! (ns, k)) as [v|] eqn:Ev.
    + destruct (is_none v) eqn:En.
      * apply kv_set_many_lookup_ne. intros (_&_&Hn)%copied_rows_keys. cbn in Hn. unfold kv_get in Hn.
        rewrite Ev in Hn. cbn in Hn. congruence.
      * apply kv_set_many_lookup; [by apply copied_rows_NoDup|]. apply list_elem_of_omap. exists k.
        split; [apply Hl; split; [by rewrite Ev|done]|]. unfold kv_get. rewrite Ev. cbn. by rewrite En.
    + apply kv_set_many_lookup_ne. intros (_&Hk&_)%copied_rows_keys. apply Hl in Hk as [[v Hv] _]. cbn in Hv.
      congruence.
  - intros ns0 k Hne. apply kv_set_many_lookup_ne. by intros (Heq&_)%copied_rows_keys.
Qed.

Section copy.
Context {S : Type} `{ops : !StoreOps S} `{spec : !StoreSpec S} `{lg : !LangGraph} `{lgspec : !LangGraphSpec}.
Implicit Types (s : Saver S) (src t c i ns rest kind : pystr) (m : kv).

(** How a row is changed on the way. *)
Definition converts (src t kind : pystr) (f : pyval → pyval) (m : kv) : Prop :=
  ∀ rest k v, m !! (kind_ns kind src rest, k) = Some v → is_none v = false →
    (if str_eqb kind (lit "ck") then retarget v src t else Ok v) = Ok (f v) ∧ storable (f v).

(** The body of [copy_thread]'s loop over the namespaces of a kind. *)
Definition copy_ns (src t kind ns : pystr) : PyM (Saver S) unit :=
  let target_ns := retarget_ns ns t in
  ks ← on_store (op_keys ns None);
  vs ← get_many ns ks;
  rows ← for_fold (zip ks vs) (λ rows e,
      let '(k, value) := e in
      if is_none value then mret rows
      else
        value ← (if str_eqb kind (lit "ck") then lift (retarget value src t) else mret value);
        mret (rows ++ [(target_ns, k, value)])) [];
  set_many rows.

Lemma built_rows src t kind f m ns ns' l s :
  Forall (λ k, is_none (kv_get m ns k) = false →
    (if str_eqb kind (lit "ck") then retarget (kv_get m ns k) src t else Ok (kv_get m ns k)) =
      Ok (f (kv_get m ns k))) l →
  for_fold (zip l (kv_get m ns <$> l)) (λ rows e,
      let '(k, value) := e in
      if is_none value then mret rows
      else
        value ← (if str_eqb kind (lit "ck") then lift (retarget value src t) else mret value);
        mret (rows ++ [(ns', k, value)])) [] s = (Ok (copied_rows f m ns ns' l), s).
Proof.
  intros Hl. unfold copied_rows.
  enough (∀ acc, for_fold (zip l (kv_get m ns <$> l)) (λ rows e,
      let '(k, value) := e in
      if is_none value then mret rows
      else
        value ← (if str_eqb kind (lit "ck") then lift (retarget value src t) else mret value);
        mret (rows ++ [(ns', k, value)])) acc s = (Ok (acc ++ omap (λ k, let v := kv_get m ns k in
          if is_none v then None else Some (ns', k, f v)) l), s)) as H by apply (H []).
  induction Hl as [|k l Hk _ IH]; intros acc; cbn [fmap list_fmap zip zip_with for_fold omap list_omap].
  { by rewrite app_nil_r. }
  destruct (is_none (kv_get m ns k)) eqn:En; [exact (IH acc)|]. specialize (Hk eq_refl).
  unfold mbind at 1, pym_bind at 1.
  assert ((value ← (if str_eqb kind (lit "ck") then lift (retarget (kv_get m ns k) src t)
                    else mret (kv_get m ns k)); mret (acc ++ [(ns', k, value)])) s =
          (Ok (acc ++ [(ns', k, f (kv_get m ns k))]), s)) as ->.
  { unfold mbind, pym_bind. destruct (str_eqb kind (lit "ck")).
    - unfold lift. by rewrite Hk.
    - unfold mret, pym_ret. by injection Hk as <-. }
  rewrite IH. by rewrite <-app_assoc.
Qed.

Lemma copy_ns_at src t kind f s rest :
  sok s → kind ∈ kinds → SEP ∉ src → valid_text t → converts src t kind f (sview s) →
  valid_text (kind_ns kind src rest) →
  wp (copy_ns src t kind (kind_ns kind src rest)) s (λ _ s',
    ∃ m', at_view m' s s' ∧ copied_at f (kind_ns kind src rest) (kind_ns kind t rest) (sview s) m').
Proof.
  intros Hs Hk Hsrc Hvt Hconv Hv. unfold copy_ns. set (m := sview s) in *.
  rewrite retarget_kind_ns by (done || by apply kinds_nosep). set (ns := kind_ns kind src rest) in *.
  set (ns' := kind_ns kind t rest).
  assert (valid_text ns') as Hv' by (apply valid_kind_ns in Hv as (?&_&?); by apply valid_kind_ns).
  destruct (keys_at s ns Hs Hv) as (l&(s1&E&H1)&Hl). fold m in H1, Hl.
  pose proof (at_view_ok _ _ _ H1) as Hs1. pose proof (at_view_view _ _ _ H1) as Hv1.
  pose proof (lists_keys_valid s _ _ _ Hs Hl) as Hvl.
  eapply wp_bind, wp_intro; [exact E|].
  destruct (reads_get_many s1 ns l Hs1 Hv Hvl) as (s2&E2&H2). rewrite Hv1 in E2, H2.
  eapply wp_bind, wp_intro; [exact E2|]. pose proof (at_view_trans _ _ _ _ _ H1 H2) as H12.
  assert (∀ k, k ∈ l → ∃ v, m !! (ns, k) = Some v ∧ kv_get m ns k = v) as Hget.
  { intros k [[v Hkv] _]%Hl. exists v. split; [done|]. unfold kv_get. by rewrite Hkv. }
  eapply wp_bind, wp_intro.
  { apply (built_rows src t kind f m ns ns'). apply Forall_forall. intros k (v&Hkv&->)%Hget Hn.
    by apply (Hconv rest k v). }
  eapply wp_mono; [apply writes_set_many; [by eapply at_view_ok|]|].
  - apply Forall_forall. intros [[ns0 k] w] Hin.
    assert ((ns0, k) ∈ (copied_rows f m ns ns' l).*1) as (Hns0&Hkl&Hn)%copied_rows_keys
      by (apply list_elem_of_fmap; by exists (ns0, k, w)). cbn [fst snd] in *. subst ns0.
    apply list_elem_of_omap in Hin as (k0&Hk0&Hw). cbn in Hw. destruct (is_none (kv_get m ns k0)) eqn:En0; [done|].
    simplify_eq. destruct (Hget k Hkl) as (v&Hkv&Hgv). rewrite Hgv in Hn |- *.
    split_and!; [done|by eapply Forall_forall in Hvl|]. by apply (Hconv rest k v).
  - intros [] s3 H3. cbn beta in H3. rewrite (at_view_view _ _ _ H12) in H3. eexists.
    split; [by eapply at_view_trans|]. by apply copied_rows_set.
Qed.

(** *** All the namespaces of a kind *)

Definition copied (f : pyval → pyval) (kind src t : pystr) (m m' : kv) : Prop :=
  (∀ rest k, m' !! (kind_ns kind t rest, k) =
     match m !! (kind_ns kind src rest, k) with
     | Some v => if is_none v then m !! (kind_ns kind t rest, k) else Some (f v)
     | None => m !! (kind_ns kind t rest, k)
     end) ∧
  ∀ ns k, starts_with (thread_prefix kind t) ns = false → m' !! (ns, k) = m !! (ns, k).

Lemma kind_ns_other kind kind' t t' rest :
  SEP ∉ kind → SEP ∉ kind' → SEP ∉ t → SEP ∉ t' → (kind, t) ≠ (kind', t') →
  starts_with (thread_prefix kind t) (kind_ns kind' t' rest) = false.
Proof.
  intros Hk Hk' Ht Ht' Hne. apply not_true_iff_false. intros [r Heq]%kind_ns_starts.
  apply kind_ns_inj in Heq as (->&->&_); done.
Qed.

Lemma copy_kind_at src t kind f s :
  sok s → kind ∈ kinds → valid_text src → valid_text t → SEP ∉ src → SEP ∉ t → src ≠ t →
  converts src t kind f (sview s) →
  wp (l ← thread_namespaces kind src; for_each l (copy_ns src t kind)) s (λ _ s',
    ∃ m', at_view m' s s' ∧ copied f kind src t (sview s) m').
Proof.
  intros Hs Hk Hvs Hvt Hsrc Ht Hne Hconv. set (m := sview s) in *. pose proof (kinds_nosep _ Hk) as Hks.
  destruct (thread_namespaces_at s kind src) as (l&s1&E&H1&Hl); [done..|]. fold m in H1, Hl.
  eapply wp_bind, wp_intro; [exact E|].
  set (row := λ rest k, match m !! (kind_ns kind src rest, k) with
                        | Some v => if is_none v then m !! (kind_ns kind t rest, k) else Some (f v)
                        | None => m !! (kind_ns kind t rest, k)
                        end).
  assert (∀ rest, starts_with (thread_prefix kind t) (kind_ns kind src rest) = false) as Hapart.
  { intros rest. apply kind_ns_other; [done..|]. congruence. }
  eapply wp_mono.
  { apply (wp_for_each (λ l1 s', ∃ m', at_view m' s s' ∧
      (∀ rest k, m' !! (kind_ns kind t rest, k) =
         if decide (kind_ns kind src rest ∈ l1) then row rest k else m !! (kind_ns kind t rest, k)) ∧
      ∀ ns k, starts_with (thread_prefix kind t) ns = false → m' !! (ns, k) = m !! (ns, k))).
    - exists m. split_and!; [done| |done]. intros rest k. by rewrite decide_False by apply not_elem_of_nil.
    - intros l1 ns l2 s' Heq (m'&H'&Hrows&Hother).
      assert (ns ∈ l) as Hin by (rewrite Heq; set_solver). apply (proj2 Hl) in Hin as Hns.
      destruct Hns as [_ [rest ->]%kind_ns_starts].
      pose proof (at_view_view _ _ _ H') as Hv'. pose proof (at_view_ok _ _ _ H') as Hs'.
      assert (∀ r k, m' !! (kind_ns kind src r, k) = m !! (kind_ns kind src r, k)) as Hsame
        by (intros; by apply Hother).
      pose proof (lists_namespaces_valid s _ _ Hs Hl) as Hvl.
      eapply wp_mono; [apply (copy_ns_at src t kind f s' rest); try done|].
      + rewrite Hv'. intros r k v. rewrite Hsame. apply Hconv.
      + by eapply Forall_forall in Hvl.
      + intros [] s2 (m2&H2&Hc2&Ho2). rewrite Hv' in Hc2, Ho2. exists m2. split_and!.
        * by eapply at_view_trans.
        * intros r k. destruct (decide (r = rest)) as [->|Hr].
          -- rewrite Hc2, Hsame, decide_True by set_solver. unfold row.
             assert (kind_ns kind src rest ∉ l1) as Hnew.
             { destruct Hl as [Hnd _]. rewrite Heq in Hnd. apply NoDup_app in Hnd as (_&Hd&_).
               intros Hin1. apply (Hd _ Hin1). left. }
             rewrite Hrows, decide_False by done. done.
          -- rewrite Ho2, Hrows by (intros (_&_&?)%kind_ns_inj; done).
             apply decide_ext. rewrite elem_of_app, list_elem_of_singleton. split; [auto|].
             intros [|(_&_&?)%kind_ns_inj]; done.
        * intros ns k Hns. rewrite Ho2; [by apply Hother|]. intros ->.
          assert (starts_with (thread_prefix kind t) (kind_ns kind t rest) = true)
            by (apply kind_ns_starts; by exists rest). congruence. }
  intros [] s' (m'&H'&Hrows&Hother). exists m'. split; [done|]. split; [|done].
  intros rest k. rewrite Hrows. case_decide as Hin; [done|].
  destruct (m !! (kind_ns kind src rest, k)) as [v|] eqn:Ev; [|done]. destruct Hin. apply (proj2 Hl).
  split; [exists k; by rewrite Ev|]. apply kind_ns_starts. by exists rest.
Qed.

(** *** All the kinds *)

Definition moved (src t kind : pystr) (v : pyval) : pyval :=
  if str_eqb kind (lit "ck") then match retarget v src t with Ok w => w | _ => v end else v.

Definition copied_thread (src t : pystr) (m m' : kv) : Prop :=
  (∀ kind rest k, kind ∈ kinds → m' !! (kind_ns kind t rest, k) =
     match m !! (kind_ns kind src rest, k) with
     | Some v => if is_none v then m !! (kind_ns kind t rest, k) else Some (moved src t kind v)
     | None => m !! (kind_ns kind t rest, k)
     end) ∧
  ∀ ns k, (∀ kind, kind ∈ kinds → starts_with (thread_prefix kind t) ns = false) → m' !! (ns, k) = m !! (ns, k).

Lemma copy_kinds_at src t s :
  sok s → valid_text src → valid_text t → SEP ∉ src → SEP ∉ t → src ≠ t →
  (∀ kind, kind ∈ kinds → converts src t kind (moved src t kind) (sview s)) →
  wp (for_each kinds (λ kind, l ← thread_namespaces kind src; for_each l (copy_ns src t kind))) s (λ _ s',
    ∃ m', at_view m' s s' ∧ copied_thread src t (sview s) m').
Proof.
  intros Hs Hvs Hvt Hsrc Ht Hne Hconv. set (m := sview s) in *.
  set (row := λ kind rest k, match m !! (kind_ns kind src rest, k) with
                             | Some v => if is_none v then m !! (kind_ns kind t rest, k) else Some (moved src t kind v)
                             | None => m !! (kind_ns kind t rest, k)
                             end).
  eapply wp_mono.
  { apply (wp_for_each (λ l1 s', ∃ m', at_view m' s s' ∧
      (∀ kind rest k, kind ∈ kinds → m' !! (kind_ns kind t rest, k) =
         if decide (kind ∈ l1) then row kind rest k else m !! (kind_ns kind t rest, k)) ∧
      ∀ ns k, (∀ kind, kind ∈ kinds → starts_with (thread_prefix kind t) ns = false) → m' !! (ns, k) = m !! (ns, k))).
    - exists m. split_and!; [by apply at_view_refl| |done]. intros kind rest k _.
      by rewrite decide_False by apply not_elem_of_nil.
    - intros l1 kind l2 s' Heq (m'&H'&Hrows&Hother). assert (kind ∈ kinds) as Hk by (rewrite Heq; set_solver).
      pose proof (at_view_view _ _ _ H') as Hv'. pose proof (at_view_ok _ _ _ H') as Hs'.
      assert (∀ kind r k, kind ∈ kinds → m' !! (kind_ns kind src r, k) = m !! (kind_ns kind src r, k)) as Hsame.
      { intros kind' r k Hk'. apply Hother. intros kind0 Hk0. apply kind_ns_other; auto using kinds_nosep. congruence. }
      assert (kind ∉ l1) as Hnew.
      { assert (NoDup kinds) as Hnd by by apply (bool_decide_unpack _). rewrite Heq in Hnd.
        apply NoDup_app in Hnd as (_&Hd&_). intros Hin1. apply (Hd _ Hin1). left. }
      eapply wp_mono; [apply (copy_kind_at src t kind (moved src t kind) s'); try done|].
      + rewrite Hv'. intros r k v. rewrite Hsame by done. by apply Hconv.
      + intros [] s2 (m2&H2&Hc2&Ho2). rewrite Hv' in Hc2, Ho2. exists m2. split_and!.
        * by eapply at_view_trans.
        * intros kind' r k Hk'. destruct (decide (kind' = kind)) as [->|Hkne].
          -- rewrite Hc2, Hsame, decide_True by set_solver. rewrite Hrows, decide_False by done. done.
          -- rewrite Ho2, Hrows by (done || apply kind_ns_other; auto using kinds_nosep; congruence).
             apply decide_ext. rewrite elem_of_app, list_elem_of_singleton. naive_solver.
        * intros ns k Hns. rewrite Ho2; [by apply Hother|]. by apply Hns. }
  intros [] s' (m'&H'&Hrows&Hother). exists m'. split; [done|]. split; [|done].
  intros kind rest k Hk. rewrite Hrows by done. by rewrite decide_True.
Qed.

(** *** The pointers of the target *)

Definition newest_in (m : kv) t c : option pystr := py_max (ref_keys m (ckpt_ns t c)).

Record pointers_set (t : pystr) (seen : pystr → Prop) (m m' : kv) (hints hints' : gmap (pystr * pystr) pystr) : Prop := {
  ps_rows ns k : ns ≠ LATEST_NS → m' !! (ns, k) = m !! (ns, k);
  ps_pointers k v : m' !! (LATEST_NS, k) = Some v → m !! (LATEST_NS, k) = Some v ∨ ∃ i, v = PStr i;
  ps_target c : seen (ckpt_ns t c) → m' !! (LATEST_NS, latest_key t c) = PStr <$> newest_in m t c;
  ps_others t' c : SEP ∉ t' → ¬ (t' = t ∧ seen (ckpt_ns t c)) →
    m' !! (LATEST_NS, latest_key t' c) = m !! (LATEST_NS, latest_key t' c);
  ps_hints t' c x : hints' !! (t', c) = Some x →
    hints !! (t', c) = Some x ∨ t' = t ∧ newest_in m t c = Some x;
}.

Definition set_pointer (t ns : pystr) : PyM (Saver S) unit :=
  newest ← on_store (op_max_key ns);
  match truthy_id newest with
  | None => mret tt
  | Some newest =>
      checkpoint_ns ← lift (third_part ns);
      on_store (op_set LATEST_NS (latest_key t checkpoint_ns) (PStr newest)) ;;
      modify (λ s, set_max_seen (bounded_set (max_seen s) (t, checkpoint_ns) newest) s)
  end.

Lemma set_pointer_at t c s s0 (seen seen' : pystr → Prop) m m' hints' :
  at_view m' (set_max_seen hints' s0) s → pointers_set t seen m m' (max_seen s0) hints' →
  valid_text t → valid_text c → SEP ∉ t → SEP ∉ c →
  (∀ ns, seen' ns ↔ seen ns ∨ ns = ckpt_ns t c) →
  (∃ i, newest_in m t c = Some i ∧ i ≠ [] ∧ text_ok i = true) →
  wp (set_pointer t (ckpt_ns t c)) s (λ _ s', ∃ m2 hints2,
    at_view m2 (set_max_seen hints2 s0) s' ∧ pointers_set t seen' m m2 (max_seen s0) hints2).
Proof.
  intros H' [Hrows Hptrs Htgt Hoth Hhints] Hvt Hvc Ht Hc Hseen (i&Hnew&Hi&Hti). unfold set_pointer.
  pose proof (at_view_ok _ _ _ H') as Hs. pose proof (at_view_view _ _ _ H') as Hv.
  assert (∀ k, m' !! (ckpt_ns t c, k) = m !! (ckpt_ns t c, k)) as Hck by (intros; apply Hrows, ckpt_ne_latest).
  assert (lists_keys (sview s) (ckpt_ns t c) None (ref_keys m (ckpt_ns t c))) as Hl.
  { rewrite Hv. destruct (ref_keys_lists m (ckpt_ns t c)) as [Hnd Hl]. split; [done|]. intros k. by rewrite Hl, Hck. }
  destruct (reads_max_key s (ckpt_ns t c) _ Hs ltac:(auto with text) Hl) as (s1&E&H1).
  change (py_max (ref_keys m (ckpt_ns t c))) with (newest_in m t c) in E. rewrite Hnew in E. rewrite Hv in H1.
  eapply wp_bind, wp_intro; [exact E|]. replace (truthy_id (Some i)) with (Some i) by by destruct i.
  eapply wp_bind, (wp_lift _ c).
  { unfold third_part. by rewrite ckpt_ns_split. }
  pose proof (at_view_trans _ _ _ _ _ H' H1) as H1'.
  eapply wp_bind_mono.
  { apply writes_set; [by eapply at_view_ok|auto with text..|by apply storable_str]. }
  intros [] s2 H2. cbn beta in H2. rewrite (at_view_view _ _ _ H1') in H2.
  apply (at_view_trans _ _ _ _ _ H1') in H2. pose proof (at_view_max_seen _ _ _ H2) as Hms. cbn in Hms.
  destruct H2 as (st&b&->&Hst&Hstv). apply wp_modify.
  exists (<[(LATEST_NS, latest_key t c) := PStr i]> m'), (bounded_set hints' (t, c) i).
  split. { exists st, b. split; [|done]. by rewrite Hms. }
  split.
  - intros ns k Hne. rewrite lookup_insert_ne by congruence. by apply Hrows.
  - intros k v [[_ <-]|[_ Hk]]%lookup_insert_Some; [right; by eexists|by apply Hptrs].
  - intros c' [Hs'|Heq]%Hseen.
    + destruct (decide (c' = c)) as [->|Hne]; [by rewrite lookup_insert_eq, Hnew|].
      rewrite lookup_insert_ne; [by apply Htgt|]. intros [= Heq]. by apply latest_key_inj in Heq as [_ ?].
    + apply ckpt_ns_inj in Heq as [_ ->]; [|done..]. by rewrite lookup_insert_eq, Hnew.
  - intros t' c' Ht' Hno. rewrite lookup_insert_ne.
    + apply Hoth; [done|]. intros [-> Hs']. apply Hno. split; [done|]. apply Hseen. by left.
    + intros [= Heq]. apply latest_key_inj in Heq as [<- <-]; [|done..]. apply Hno. split; [done|].
      apply Hseen. by right.
  - intros t' c' x. destruct (decide ((t', c') = (t, c))) as [[= -> ->]|Hne].
    + rewrite bounded_set_eq. intros [= <-]. by right.
    + intros Hx%bounded_set_ne; [|done]. by apply Hhints.
Qed.

Lemma set_pointers_at t s :
  let m := sview s in
  sok s → valid_text t → SEP ∉ t →
  (∀ c i, is_Some (m !! (ckpt_ns t c, i)) → i ≠ [] ∧ (SEP ∉ c) ∧ text_ok i = true) →
  wp (l ← thread_namespaces (lit "ck") t; for_each l (set_pointer t)) s (λ _ s', ∃ m' hints',
    at_view m' (set_max_seen hints' s) s' ∧
    pointers_set t (λ ns, ∃ k, is_Some (m !! (ns, k))) m m' (max_seen s) hints').
Proof.
  intros m Hs Hvt Ht Hm. assert (lit "ck" ∈ kinds) as Hk by left.
  destruct (thread_namespaces_at s (lit "ck") t) as (l&s1&E&H1&Hl); [done..|].
  pose proof (lists_namespaces_valid s _ _ Hs Hl) as Hvl. fold m in H1, Hl.
  eapply wp_bind, wp_intro; [exact E|].
  eapply wp_mono.
  { apply (wp_for_each (λ l1 s', ∃ m' hints', at_view m' (set_max_seen hints' s) s' ∧
      pointers_set t (λ ns, ns ∈ l1) m m' (max_seen s) hints')).
    - exists m, (max_seen s). split.
      + destruct H1 as (st&b&->&?&?). exists st, b. split; [|done]. by destruct s.
      + split; try done; [by auto|by intros c ?%not_elem_of_nil|by auto].
    - intros l1 ns l2 s' Heq (m'&hints'&H'&Hps). assert (ns ∈ l) as Hin by (rewrite Heq; set_solver).
      apply (proj2 Hl) in Hin as Hns. destruct Hns as [[k0 Hrow] [c ->]%kind_ns_starts].
      change (kind_ns (lit "ck") t c) with (ckpt_ns t c) in *.
      destruct (Hm c k0 Hrow) as (_&Hc&_).
      assert (valid_text c) as Hvc.
      { eapply Forall_forall in Hvl; [|exact Hin]. by apply (valid_kind_ns (lit "ck") t c) in Hvl as (_&_&?). }
      eapply (set_pointer_at t c s' s (λ ns, ns ∈ l1)); try done.
      + intros ns. rewrite elem_of_app, list_elem_of_singleton. done.
      + destruct (newest_in m t c) as [i|] eqn:En.
        * exists i. apply py_max_ref_keys in En as [Hi _]. destruct (Hm c i Hi) as (?&_&?). done.
        * apply py_max_None in En. destruct (ref_keys_lists m (ckpt_ns t c)) as [_ Hlk].
          assert (k0 ∈ ref_keys m (ckpt_ns t c)) as Hin0 by (by apply Hlk). rewrite En in Hin0.
          by apply not_elem_of_nil in Hin0. }
  intros [] s' (m'&hints'&H'&[Hrows Hptrs Htgt Hoth Hhints]). exists m', hints'. split; [done|].
  assert (∀ c, ckpt_ns t c ∈ l ↔ ∃ k, is_Some (m !! (ckpt_ns t c, k))) as Hiff.
  { intros c. rewrite (proj2 Hl). split; [by intros [? _]|]. intros H. split; [done|].
    apply kind_ns_starts. by exists c. }
  split; try done.
  - intros c Hc. by apply Htgt, Hiff.
  - intros t' c Ht' Hno. apply Hoth; [done|]. intros [-> Hin%Hiff]. by apply Hno.
Qed.

(** [copy_thread], from the content it finds. *)
Lemma copy_thread_at src t s :
  let m := sview s in
  let indexed := store_indexes_max_key s in
  sok s → valid_text src → valid_text t → SEP ∉ src → SEP ∉ t → src ≠ t →
  (∀ kind, kind ∈ kinds → converts src t kind (moved src t kind) m) →
  (∀ m1, copied_thread src t m m1 →
     ∀ c i, is_Some (m1 !! (ckpt_ns t c, i)) → i ≠ [] ∧ (SEP ∉ c) ∧ text_ok i = true) →
  wp (copy_thread src t) s (λ _ s', ∃ m1 m' hints',
    copied_thread src t m m1 ∧ at_view m' (set_max_seen hints' s) s' ∧
    if indexed then m' = m1 ∧ hints' = max_seen s
    else pointers_set t (λ ns, ∃ k, is_Some (m1 !! (ns, k))) m1 m' (max_seen s) hints').
Proof.
  intros m indexed Hs Hvs Hvt Hsrc Ht Hne Hconv Hids. unfold copy_thread. rewrite str_eqb_neq by done.
  eapply wp_bind_mono; [by apply (copy_kinds_at src t s)|]. intros [] s1 (m1&H1&Hm1). fold m in Hm1.
  pose proof (at_view_view _ _ _ H1) as Hv1. pose proof (at_view_ok _ _ _ H1) as Hs1.
  apply wp_bind, wp_gets. rewrite (at_view_indexes _ _ _ H1). fold indexed. destruct indexed.
  { apply wp_ret. exists m1, m1, (max_seen s). split_and!; [done| |done..].
    destruct H1 as (st&b&->&?&?). exists st, b. split; [|done]. by destruct s. }
  eapply wp_mono; [apply (set_pointers_at t s1); [done..|]|].
  { rewrite Hv1. by apply Hids. }
  intros [] s2 (m'&hints'&H2&Hps). rewrite Hv1 in Hps. rewrite (at_view_max_seen _ _ _ H1) in Hps.
  exists m1, m', hints'. split_and!; [done| |done].
  destruct H1 as (st&b&->&?&?), H2 as (st2&b2&->&?&?). exists st2, b2. by split.
Qed.
End copy.

(** ** The copy in the reference *)

Section reference.
Implicit Types (src t c i : pystr) (d : RefData).

#[local] Instance swap_thread_inj src t : Inj (=) (=) (swap_thread src t).
Proof. intros [[a c] i] [[b c'] i']. unfold swap_thread. cbn. repeat case_decide; intros [=]; congruence. Qed.

Lemma renamed_lookup {V : Type} src t (x : gmap ckpt_name V) t' c i : src ≠ t →
  renamed src t x !! (t', c, i) = if decide (t' = t) then x !! (src, c, i) else None.
Proof.
  intros Hne. unfold renamed.
  assert (∃ u, swap_thread src t (u, c, i) = (t', c, i) ∧ (t' = t ↔ u = src)) as (u&Heq&Hu).
  { unfold swap_thread. cbn. destruct (decide (t' = t)) as [->|]; [|destruct (decide (t' = src)) as [->|]].
    - exists src. by rewrite decide_True.
    - exists t. rewrite decide_False, decide_True by congruence. split; [done|]. split; congruence.
    - exists t'. rewrite !decide_False by congruence. split; [done|]. split; congruence. }
  rewrite <-Heq, (lookup_kmap (swap_thread src t)). destruct (decide (t' = t)) as [Ht|Ht].
  - apply Hu in Ht as ->. destruct (x !! (src, c, i)) as [v|] eqn:E.
    + by apply map_lookup_filter_Some.
    + apply map_lookup_filter_None. by left.
  - apply map_lookup_filter_None. right. intros v _ Hsrc. cbn in Hsrc. by apply Ht, Hu.
Qed.

Lemma ref_copy_ckpts src t d t' c i : src ≠ t →
  rd_ckpts (ref_copy_thread src t d) !! (t', c, i) =
    if decide (t' = t)
    then match rd_ckpts d !! (src, c, i) with Some e => Some (moved_entry src t e) | None => rd_ckpts d !! (t, c, i) end
    else rd_ckpts d !! (t', c, i).
Proof.
  intros Hne. cbn [rd_ckpts ref_copy_thread]. rewrite lookup_union, lookup_fmap, renamed_lookup by done.
  destruct (decide (t' = t)) as [->|]; [|by rewrite option_union_left_id].
  destruct (rd_ckpts d !! (src, c, i)); cbn; [by destruct (rd_ckpts d !! _)|by rewrite option_union_left_id].
Qed.

Lemma ref_copy_writes src t d t' c i : src ≠ t →
  writes_at (ref_copy_thread src t d) t' c i =
    if decide (t' = t) then writes_at d src c i ∪ writes_at d t c i else writes_at d t' c i.
Proof.
  intros Hne. unfold writes_at. cbn [rd_writes ref_copy_thread]. rewrite lookup_union_with, renamed_lookup by done.
  destruct (decide (t' = t)) as [->|]; [|by destruct (rd_writes d !! _)].
  destruct (rd_writes d !! (src, c, i)), (rd_writes d !! (t, c, i)); cbn;
    rewrite ?(left_id_L ∅ (∪)), ?(right_id_L ∅ (∪)); done.
Qed.

Lemma thread_ids_elem d t c i : (c, i) ∈ thread_ids d t ↔ is_Some (rd_ckpts d !! (t, c, i)).
Proof.
  unfold thread_ids. rewrite list_elem_of_fmap. split.
  - intros ([[t' c'] i']&[= <- <-]&[Ht Hin]%list_elem_of_filter). cbn in *. subst. by apply elem_of_map_to_list_fst.
  - intros Hi. exists (t, c, i). split; [done|]. apply list_elem_of_filter. split; [done|].
    by apply elem_of_map_to_list_fst.
Qed.
End reference.

(** ** The copy in the store *)

Section agreement.
Context `{lg : !LangGraph} `{lgspec : !LangGraphSpec}.
Implicit Types (src t c i : pystr) (m : kv) (d : RefData).

Lemma storable_parent tcp tmd parent : storable (ck_record tcp tmd parent) → opt_text_ok parent.
Proof.
  intros [Hw _]. destruct parent as [p|]; [|done]. cbn in Hw. rewrite !andb_true_iff in Hw. cbn. naive_solver.
Qed.

(** [_retarget] of a stored checkpoint. *)
Lemma retarget_stored src t (saved : pyval) e :
  stored_as saved e → storable saved → dumpable (moved_metadata src t (re_metadata e)) →
  ∃ w, retarget saved src t = Ok w ∧ stored_as w (moved_entry src t e) ∧ storable w.
Proof.
  intros (tcp&tmd&Hcp&Hmd&->) Hst Hd. pose proof (storable_parent _ _ _ Hst) as Hp.
  assert (loads_typed [tmd.1; tmd.2] = Ok (re_metadata e)) as Hload
    by exact (ck_record_md tcp tmd (re_parent e) _ Hmd).
  pose proof (dumps_typed_ok _ _ Hcp) as Htcp. pose proof (dumps_typed_ok _ _ Hmd) as Htmd.
  unfold retarget. change (py_getitem (ck_record tcp tmd (re_parent e)) (key "md")) with (Ok (PList [tmd.1; tmd.2])).
  cbn [mbind result_bind py_iter]. rewrite Hload. cbn [mbind result_bind].
  assert (Ok (ck_record tcp tmd (re_parent e)) = Ok (ck_record tcp tmd (re_parent e)) ∧
    moved_metadata src t (re_metadata e) = re_metadata e →
    ∃ w, Ok (ck_record tcp tmd (re_parent e)) = Ok w ∧ stored_as w (moved_entry src t e) ∧ storable w) as Hsame.
  { intros [_ Heq]. exists (ck_record tcp tmd (re_parent e)). split_and!; [done| |done].
    exists tcp, tmd. unfold moved_entry. cbn [re_checkpoint re_metadata re_parent]. by rewrite Heq. }
  unfold moved_metadata in *. destruct (re_metadata e) as [| | | | | | | |md|] eqn:Emd; try (by apply Hsame).
  destruct (py_eq _ _) eqn:Eeq; [|by apply Hsame].
  apply dumpable_ok in Hd as [tb Htb]. rewrite Htb. cbn [mbind result_bind].
  exists (ck_record tcp tb (re_parent e)). split_and!; [done| |].
  - exists tcp, tb. unfold moved_entry, moved_metadata. cbn [re_checkpoint re_metadata re_parent]. rewrite Emd, Eeq. done.
  - apply storable_ck_record; [done|by eapply dumps_typed_ok|done].
Qed.

Section copied.
Context (indexed : bool) (m m1 : kv) (d : RefData) (src t : pystr).
Context (Hag : agrees indexed m d) (Hcopy : copied_thread src t m m1) (Hst : ∀ ns k v, m !! (ns, k) = Some v → storable v).
Context (Hsrc : SEP ∉ src) (Ht : SEP ∉ t) (Hne : src ≠ t).
Context (Hdump : ∀ c i e, rd_ckpts d !! (src, c, i) = Some e → dumpable (moved_metadata src t (re_metadata e))).

(** A row of the target. *)
Lemma copied_row kind rest k v : kind ∈ kinds → m1 !! (kind_ns kind t rest, k) = Some v →
  (∃ w, m !! (kind_ns kind src rest, k) = Some w ∧ v = moved src t kind w) ∨ m !! (kind_ns kind t rest, k) = Some v.
Proof.
  intros Hk. rewrite (proj1 Hcopy) by done. destruct (m !! (kind_ns kind src rest, k)) as [w|]; [|by right].
  destruct (is_none w); [by right|]. intros [= <-]. left. by exists w.
Qed.

(** A row of neither. *)
Lemma uncopied_row kind t' rest k : kind ∈ kinds → SEP ∉ t' → t' ≠ t →
  m1 !! (kind_ns kind t' rest, k) = m !! (kind_ns kind t' rest, k).
Proof.
  intros Hk Ht' Hne'. apply (proj2 Hcopy). intros kind' Hk'.
  apply kind_ns_other; auto using kinds_nosep. congruence.
Qed.

Lemma uncopied_pointer k : m1 !! (LATEST_NS, k) = m !! (LATEST_NS, k).
Proof. apply (proj2 Hcopy). intros kind Hk. by apply not_latest_kind. Qed.

(** Every row of [m1] comes from a row of [m]. *)
Lemma row_origin (ns k : pystr) v : m1 !! (ns, k) = Some v →
  (∃ kind rest, kind ∈ kinds ∧ ns = kind_ns kind t rest ∧ is_Some (m !! (kind_ns kind src rest, k))) ∨
  m !! (ns, k) = Some v.
Proof.
  intros Hv. destruct (existsb (λ kind, starts_with (thread_prefix kind t) ns) kinds) eqn:E.
  - apply existsb_exists in E as (kind&Hk%list_elem_of_In&[rest ->]%kind_ns_starts).
    apply copied_row in Hv as [(w&Hw&_)|Hv]; [|by right|done]. left. exists kind, rest. by rewrite Hw.
  - right. rewrite <-Hv. symmetry. apply (proj2 Hcopy). intros kind Hk.
    apply not_true_iff_false. intros Hp. apply not_true_iff_false in E. apply E, existsb_exists.
    exists kind. by split; [apply list_elem_of_In|].
Qed.

Lemma copied_ckpts t' c i : SEP ∉ t' →
  option_Forall2 stored_as (m1 !! (ckpt_ns t' c, i)) (rd_ckpts (ref_copy_thread src t d) !! (t', c, i)).
Proof.
  intros Ht'. rewrite ref_copy_ckpts by done. destruct (decide (t' = t)) as [->|Hne'].
  - change (ckpt_ns t c) with (kind_ns (lit "ck") t c). rewrite (proj1 Hcopy) by left.
    change (kind_ns (lit "ck") t c) with (ckpt_ns t c). change (kind_ns (lit "ck") src c) with (ckpt_ns src c).
    pose proof (agrees_record _ _ _ Hag src c i Hsrc) as Hr.
    destruct (rd_ckpts d !! (src, c, i)) as [e|] eqn:Ee.
    + destruct Hr as (saved&Hm&Hs). rewrite Hm, (stored_not_none _ _ Hs).
      destruct (retarget_stored src t saved e Hs (Hst _ _ _ Hm) (Hdump _ _ _ Ee)) as (w&Hw&Hsw&_).
      unfold moved. cbn [str_eqb]. rewrite Hw. by constructor.
    + rewrite Hr. by apply (ag_ckpts _ _ _ Hag).
  - change (ckpt_ns t' c) with (kind_ns (lit "ck") t' c). rewrite uncopied_row by (done || by left).
    by apply (ag_ckpts _ _ _ Hag).
Qed.

Lemma copied_writes t' c i task idx : SEP ∉ t' → SEP ∉ c →
  option_Forall2 (written_as task) (m1 !! (writes_ns t' c i, write_key task idx))
    (writes_at (ref_copy_thread src t d) t' c i !! (task, idx)).
Proof.
  intros Ht' Hc. rewrite ref_copy_writes by done. assert (lit "wr" ∈ kinds) as Hk by (right; left).
  change (writes_ns t' c i) with (kind_ns (lit "wr") t' (c ++ SEP :: i)). destruct (decide (t' = t)) as [->|Hne'].
  - rewrite (proj1 Hcopy) by done.
    change (kind_ns (lit "wr") t (c ++ SEP :: i)) with (writes_ns t c i).
    change (kind_ns (lit "wr") src (c ++ SEP :: i)) with (writes_ns src c i).
    rewrite lookup_union. pose proof (ag_writes _ _ _ Hag src c i task idx Hsrc Hc) as Hs.
    pose proof (ag_writes _ _ _ Hag t c i task idx Ht Hc) as Htw.
    destruct Hs as [v w Hvw|].
    + assert (is_none v = false) as -> by (by destruct Hvw as (?&?&_&->)).
      rewrite union_Some_l. by constructor.
    + by rewrite option_union_left_id.
  - rewrite uncopied_row by done. by apply (ag_writes _ _ _ Hag).
Qed.

Lemma tail_after_thread (t' c i rest : pystr) :
  t' ++ SEP :: c ++ SEP :: i = t ++ SEP :: rest → ∃ c', rest = c' ++ SEP :: i.
Proof.
  intros Heq. destruct (decide (SEP ∈ t')) as [Hin|Hin].
  - apply list_elem_of_split_l in Hin as (a&b&->&Ha). rewrite <-app_assoc in Heq. cbn [app] in Heq.
    apply sep_inj in Heq as [_ <-]; [|done..]. exists (b ++ SEP :: c). by rewrite <-app_assoc.
  - apply sep_inj in Heq as [_ <-]; [|done..]. by exists c.
Qed.

Lemma copied_content : content_ok false m1.
Proof.
  pose proof (ag_content _ _ _ Hag) as Hm. split.
  - intros k v. rewrite uncopied_pointer. apply (content_pointers _ _ Hm).
  - intros t' c i [v [(kind&rest&Hk&Heq&Hw)|Hv]%row_origin]; [|eapply (content_ids _ _ Hm); by eexists].
    apply sep_inj in Heq as [<- _]; [|apply (kinds_nosep (lit "ck")); left|by apply kinds_nosep].
    by apply (content_ids _ _ Hm src rest i).
  - intros t' c i k [v [(kind&rest&Hk&Heq&Hw)|Hv]%row_origin]; [|eapply (content_writes _ _ Hm); by eexists].
    apply sep_inj in Heq as [<- Heq]; [|apply (kinds_nosep (lit "wr")); right; left|by apply kinds_nosep].
    apply tail_after_thread in Heq as [c' ->]. by apply (content_writes _ _ Hm src c' i).
  - done.
Qed.

Lemma copied_ids t' c i : SEP ∉ t' → is_Some (m1 !! (ckpt_ns t' c, i)) → i ≠ [] ∧ (SEP ∉ c) ∧ text_ok i = true.
Proof.
  intros Ht' Hi. assert (text_ok i = true) as Hti by by apply (content_ids _ _ copied_content t' c).
  apply (option_Forall2_is_Some _ _ _ (copied_ckpts t' c i Ht')) in Hi as [e He].
  rewrite ref_copy_ckpts in He by done.
  assert (∀ t0 e0, rd_ckpts d !! (t0, c, i) = Some e0 → i ≠ [] ∧ (SEP ∉ c)) as Hids.
  { intros t0 e0 (?&_&?)%(ag_ids _ _ _ Hag). done. }
  destruct (decide (t' = t)); [destruct (rd_ckpts d !! (src, c, i)) eqn:E|];
    (edestruct Hids; [eassumption|by split_and!]).
Qed.

(** The pointers as they are, or set. *)
Lemma copied_agrees m' hints hints' :
  (indexed = true → m' = m1) →
  (indexed = false → pointers_set t (λ ns, ∃ k, is_Some (m1 !! (ns, k))) m1 m' hints hints') →
  agrees indexed m' (ref_copy_thread src t d).
Proof.
  intros Hix Hno.
  assert (∀ ns k, ns ≠ LATEST_NS → m' !! (ns, k) = m1 !! (ns, k)) as Hrows.
  { intros ns k Hns. destruct indexed; [by rewrite Hix|]. by apply (ps_rows _ _ _ _ _ _ (Hno eq_refl)). }
  split.
  - pose proof copied_content as Hm1. split.
    + intros k v Hv. destruct indexed; [rewrite Hix in Hv by done; by eapply content_pointers|].
      apply (ps_pointers _ _ _ _ _ _ (Hno eq_refl)) in Hv as [Hv|?]; [by eapply content_pointers|done].
    + intros t' c i. rewrite Hrows by auto with text. apply (content_ids _ _ Hm1).
    + intros t' c i k. rewrite Hrows by auto with text. apply (content_writes _ _ Hm1).
    + done.
  - intros t' c Hf Ht' i. specialize (Hno Hf).
    rewrite (Hrows (ckpt_ns t' c) i) by auto with text. intros Hp Hlive j.
    rewrite (Hrows (ckpt_ns t' c) j) by auto with text. destruct (decide (t' = t)) as [->|Hne'].
    + rewrite (ps_target _ _ _ _ _ _ Hno) in Hp by by exists i.
      destruct (newest_in m1 t c) as [n|] eqn:En; [|done]. cbn in Hp. injection Hp as ->.
      apply py_max_ref_keys in En as [_ Hmax]. apply Hmax.
    + rewrite (ps_others _ _ _ _ _ _ Hno) in Hp by (done || by intros [? _]). rewrite uncopied_pointer in Hp.
      change (ckpt_ns t' c) with (kind_ns (lit "ck") t' c) in *.
      assert (∀ k, m1 !! (kind_ns (lit "ck") t' c, k) = m !! (kind_ns (lit "ck") t' c, k)) as Hsame
        by (intros k; apply uncopied_row; [by left|done..]).
      rewrite Hsame in Hlive |- *. by apply (ag_pointer _ _ _ Hag).
  - intros t' c i Ht'. rewrite Hrows by auto with text. by apply copied_ckpts.
  - intros t' c i task idx Ht' Hc. rewrite Hrows by auto with text. by apply copied_writes.
  - intros t' c i e. rewrite ref_copy_ckpts by done. destruct (decide (t' = t)).
    + destruct (rd_ckpts d !! (src, c, i)) as [e'|] eqn:E; [|apply (ag_ids _ _ _ Hag)].
      intros [= <-]. apply (ag_ids _ _ _ Hag) in E as (?&Hdict&?). split_and!; [done| |done].
      unfold moved_entry, moved_metadata. cbn [re_metadata]. destruct (re_metadata e'); try done. by case_match.
    + apply (ag_ids _ _ _ Hag).
  - intros t' c i e. rewrite ref_copy_ckpts by done. destruct (decide (t' = t)) as [->|]; [done|].
    apply (ag_threads _ _ _ Hag).
Qed.
End copied.
End agreement.
