(* ===== verification/SaverDrop.v ===== *)
(** * Dropping checkpoints: runs and pruning

    [delete_for_runs] and [prune] leave in the store what the reference says: the
    checkpoints of the runs are gone, or all but the newest of each namespace and
    what it is rebuilt from. Both are loops that drop some checkpoints of one
    namespace after the other ([drops_all]). *)

From S2P Require Import Prelude PyValue Store SnapshotLaws Saver SaverOps SaverRead.
From S2P Require Import SaverLemmas SaverSpec SaverPut SaverMeasure SaverTheorems SaverAdmin SaverRetention.
From S2P Require Import SaverList SaverWrites SaverReference SaverRefinement SaverHistory SaverCopy.

(** ** The reference *)

Section reference.
Context `{lg : !LangGraph}.
Implicit Types (t c i : pystr) (d : RefData) (gone : ckpt_name → bool) (p : ckpt_name).

Lemma drop_ckpts gone d p : rd_ckpts (ref_drop gone d) !! p = if gone p then None else rd_ckpts d !! p.
Proof. apply (filter_lookup gone (rd_ckpts d)). Qed.

Lemma drop_writes gone d t c i :
  writes_at (ref_drop gone d) t c i = if gone (t, c, i) then ∅ else writes_at d t c i.
Proof. unfold writes_at. cbn [rd_writes ref_drop]. rewrite (filter_lookup gone). by destruct (gone _). Qed.

Lemma drop_ckpts_Some gone d p e : rd_ckpts (ref_drop gone d) !! p = Some e → rd_ckpts d !! p = Some e.
Proof. rewrite drop_ckpts. by destruct (gone p). Qed.

Lemma drop_nothing gone d : (∀ p, gone p = false) → ref_drop gone d = d.
Proof.
  intros H. destruct d as [x y]. unfold ref_drop. cbn [rd_ckpts rd_writes]. f_equal;
    apply map_filter_id; intros p v _; apply H.
Qed.

Lemma drop_ext gone gone' d : (∀ p, gone p = gone' p) → ref_drop gone d = ref_drop gone' d.
Proof.
  intros H. unfold ref_drop. f_equal; apply map_eq; intros p;
    by rewrite (filter_lookup gone), (filter_lookup gone'), H.
Qed.

Lemma drop_twice gone gone' d : ref_drop gone' (ref_drop gone d) = ref_drop (λ p, gone' p || gone p) d.
Proof.
  unfold ref_drop. cbn [rd_ckpts rd_writes]. f_equal; apply map_eq; intros p;
    rewrite (filter_lookup gone'), (filter_lookup gone), (filter_lookup (λ p, gone' p || gone p));
    by destruct (gone' p).
Qed.

(** The checkpoints of one namespace that are dropped. *)
Definition doomed_at t c (doomed : list pystr) (p : ckpt_name) : bool :=
  bool_decide (p.1 = (t, c) ∧ p.2 ∈ doomed).

(** Dropping more of one namespace. *)
Lemma drop_more (done : pystr * pystr → bool) which t c (doomed : list pystr) d :
  done (t, c) = false →
  (∀ i, i ∈ doomed ↔ ∃ e, rd_ckpts d !! (t, c, i) = Some e ∧ which (t, c, i) e = true) →
  ref_drop (doomed_at t c doomed)
    (ref_drop (ckpt_with d (λ p e, done p.1 && which p e)) d) =
  ref_drop (ckpt_with d (λ p e, (bool_decide (p.1 = (t, c)) || done p.1) && which p e)) d.
Proof.
  intros Hdone Hd.
  assert (∀ p, doomed_at t c doomed p || ckpt_with d (λ p e, done p.1 && which p e) p =
    ckpt_with d (λ p e, (bool_decide (p.1 = (t, c)) || done p.1) && which p e) p) as H.
  { intros [q i]. unfold doomed_at, ckpt_with. cbn [fst snd]. destruct (decide (q = (t, c))) as [->|Hne].
    - rewrite (bool_decide_true ((t, c) = (t, c))), Hdone by done. cbn [orb andb].
      replace (bool_decide ((t, c) = (t, c) ∧ i ∈ doomed)) with (bool_decide (i ∈ doomed))
        by (apply bool_decide_ext; tauto).
      specialize (Hd i). destruct (rd_ckpts d !! (t, c, i)) as [e|]; rewrite orb_false_r.
      + destruct (which (t, c, i) e) eqn:Ew.
        * apply bool_decide_eq_true, Hd. by exists e.
        * apply bool_decide_eq_false. intros (e'&[= <-]&He)%Hd. congruence.
      + apply bool_decide_eq_false. by intros (e'&?&_)%Hd.
    - rewrite !bool_decide_false by naive_solver. done. }
  rewrite drop_twice. by apply drop_ext.
Qed.
End reference.

(** ** The store *)

Section agreement.
Context `{lg : !LangGraph} `{lgspec : !LangGraphSpec}.
Implicit Types (t c i : pystr) (m : kv) (d : RefData).

Lemma ids_kept d d0 : (∀ p e, rd_ckpts d0 !! p = Some e → rd_ckpts d !! p = Some e) →
  (∀ t c i e, rd_ckpts d !! (t, c, i) = Some e → i ≠ [] ∧ is_dict (re_metadata e) = true ∧ SEP ∉ c) →
  ∀ t c i e, rd_ckpts d0 !! (t, c, i) = Some e → i ≠ [] ∧ is_dict (re_metadata e) = true ∧ SEP ∉ c.
Proof. intros H Hd t c i e He%H. by apply Hd in He. Qed.

(** Threads that cannot be named do not matter. *)
Lemma agrees_drop_ext indexed m m0 d gone gone' :
  agrees indexed m0 d → (∀ p, SEP ∉ p.1.1 → gone p = gone' p) →
  agrees indexed m (ref_drop gone d) → agrees indexed m (ref_drop gone' d).
Proof.
  intros Hag0 Heq Hag. split; [apply Hag|apply Hag| | | |].
  - intros t c i Ht. rewrite drop_ckpts, <-Heq, <-drop_ckpts by done. by apply Hag.
  - intros t c i task idx Ht Hc. rewrite drop_writes, <-Heq, <-drop_writes by done. by apply Hag.
  - eapply ids_kept; [|apply (ag_ids _ _ _ Hag0)]. apply drop_ckpts_Some.
  - intros t c i e He%drop_ckpts_Some. by apply (ag_threads _ _ _ Hag0) in He.
Qed.

(** Which rows go. *)
Lemma drop_rows_ckpts t c doomed keep t' c' k : SEP ∉ t → SEP ∉ t' →
  drop_rows false t c doomed keep (ckpt_ns t' c', k) = bool_decide ((t', c') = (t, c) ∧ k ∈ doomed).
Proof.
  intros Ht Ht'. destruct (decide ((t', c') = (t, c))) as [[= -> ->]|Hne].
  - rewrite drop_rows_ckpt. apply bool_decide_ext. tauto.
  - unfold drop_rows. cbn [fst snd andb orb]. rewrite str_eqb_neq.
    + cbn [andb]. rewrite !bool_decide_false; [done|naive_solver|].
      intros (j&Heq&_)%list_elem_of_fmap. by apply (ckpt_ne_writes t' c' t c j).
    + intros [-> ->]%ckpt_ns_inj; done.
Qed.

Lemma drop_rows_pending t c doomed keep t' c' i k : SEP ∉ t → SEP ∉ c → SEP ∉ t' → SEP ∉ c' →
  drop_rows false t c doomed keep (writes_ns t' c' i, k) = bool_decide ((t', c') = (t, c) ∧ i ∈ doomed).
Proof.
  intros Ht Hc Ht' Hc'. unfold drop_rows. cbn [fst snd andb orb]. rewrite str_eqb_neq by auto with text.
  cbn [andb]. rewrite orb_false_r. apply bool_decide_ext. rewrite list_elem_of_fmap. split.
  - intros (j&Heq&Hj). apply writes_ns_inj in Heq as (->&->&->); done.
  - intros [[= -> ->] Hi]. by exists i.
Qed.

Lemma drop_rows_latest t c doomed keep k : drop_rows false t c doomed keep (LATEST_NS, k) = false.
Proof.
  unfold drop_rows. cbn [fst snd andb orb]. rewrite str_eqb_neq by (intros Heq; by apply (ckpt_ne_latest t c)).
  rewrite bool_decide_false; [done|]. intros (i&Heq&_)%list_elem_of_fmap. by apply (writes_ne_latest t c i).
Qed.

Lemma drop_view_other indexed t c doomed kept keep m ns k : ns ≠ LATEST_NS →
  drop_view false indexed t c doomed kept keep m !! (ns, k) =
    if drop_rows false t c doomed keep (ns, k) then None else m !! (ns, k).
Proof.
  intros Hns. unfold drop_view. destruct indexed; [apply (filter_lookup (drop_rows _ _ _ _ _))|].
  rewrite repointed_other by done. apply (filter_lookup (drop_rows _ _ _ _ _)).
Qed.

Lemma dropped_latest t c doomed keep m k : dropped false t c doomed keep m !! (LATEST_NS, k) = m !! (LATEST_NS, k).
Proof. unfold dropped. by rewrite (filter_lookup (drop_rows _ _ _ _ _)), drop_rows_latest. Qed.

(** The pointers that are left. *)
Lemma drop_view_pointer t c doomed kept keep m k :
  drop_view false false t c doomed kept keep m !! (LATEST_NS, k) =
    if decide (k = latest_key t c) then
      if pointer_doomed m t c doomed then PStr <$> py_max kept else m !! (LATEST_NS, k)
    else m !! (LATEST_NS, k).
Proof.
  unfold drop_view, repointed.
  replace (pointer_doomed (dropped false t c doomed keep m) t c doomed) with (pointer_doomed m t c doomed)
    by (unfold pointer_doomed, kv_get; by rewrite dropped_latest).
  destruct (decide (k = latest_key t c)) as [->|Hne]; destruct (pointer_doomed m t c doomed).
  - destruct (py_max kept); [by rewrite lookup_insert_eq|by rewrite lookup_delete_eq].
  - apply dropped_latest.
  - destruct (py_max kept); rewrite ?lookup_insert_ne, ?lookup_delete_ne by congruence; apply dropped_latest.
  - apply dropped_latest.
Qed.

Section one.
Context (indexed : bool) m d t c (doomed kept : list pystr) (keep : gset pystr).
Context (Hag : agrees indexed m d) (Ht : SEP ∉ t) (Hc : SEP ∉ c).
Context (Hkept : ∀ j, j ∈ kept ↔ j ∈ ids_of d t c ∧ j ∉ doomed).

Local Abbreviation m' := (drop_view false indexed t c doomed kept keep m).

Lemma dropped_ckpt t' c' k : SEP ∉ t' →
  m' !! (ckpt_ns t' c', k) = if doomed_at t c doomed (t', c', k) then None else m !! (ckpt_ns t' c', k).
Proof. intros Ht'. by rewrite drop_view_other, drop_rows_ckpts by auto with text. Qed.

Lemma dropped_pending t' c' i k : SEP ∉ t' → SEP ∉ c' →
  m' !! (writes_ns t' c' i, k) = if doomed_at t c doomed (t', c', i) then None else m !! (writes_ns t' c' i, k).
Proof. intros Ht' Hc'. by rewrite drop_view_other, drop_rows_pending by auto with text. Qed.

Lemma live_ids j : is_Some (m !! (ckpt_ns t c, j)) ↔ j ∈ ids_of d t c.
Proof. rewrite ids_of_elem. by apply (option_Forall2_is_Some _ _ _ (ag_ckpts _ _ _ Hag t c j Ht)). Qed.

Lemma kept_live j : is_Some (m' !! (ckpt_ns t c, j)) ↔ j ∈ kept.
Proof.
  rewrite Hkept, dropped_ckpt by done. unfold doomed_at. cbn [fst snd]. case_bool_decide as Hj.
  - split; [by intros []|tauto].
  - rewrite live_ids. tauto.
Qed.

Lemma dropped_content : content_ok false m'.
Proof.
  pose proof (ag_content _ _ _ Hag) as Hm. assert (content_ok false (dropped false t c doomed keep m)) as Hd.
  { eapply content_subset; [|exact Hm]. apply map_filter_subseteq. }
  unfold drop_view, repointed. destruct indexed; [done|]. destruct (pointer_doomed _ _ _ _); [|done].
  destruct (py_max kept); [by apply content_pointer_set|].
  eapply content_subset; [|exact Hd]. apply delete_subseteq.
Qed.

Lemma dropped_newest t' c' : indexed = false → SEP ∉ t' → pointer_newest m' t' c'.
Proof.
  intros Hix Ht' i Hp Hi j Hj. rewrite Hix, drop_view_pointer in Hp.
  assert (∀ k, is_Some (m' !! (ckpt_ns t' c', k)) → is_Some (m !! (ckpt_ns t' c', k))) as Hold.
  { intros k. rewrite dropped_ckpt by done. destruct (doomed_at _ _ _ _); [by intros []|done]. }
  destruct (decide (latest_key t' c' = latest_key t c)) as [Heq|Hne];
    [|by apply (ag_pointer _ _ _ Hag t' c' Hix Ht'); [exact Hp|apply Hold..]].
  destruct (pointer_doomed m t c doomed) eqn:Ed;
    [|by apply (ag_pointer _ _ _ Hag t' c' Hix Ht'); [exact Hp|apply Hold..]].
  apply latest_key_inj in Heq as [-> ->]; [|done..].
  destruct (py_max kept) as [x|] eqn:Ex; [|done]. injection Hp as ->.
  apply py_max_Some in Ex as [_ Hmax]. by apply Hmax, kept_live.
Qed.

Theorem agrees_drop : agrees indexed m' (ref_drop (doomed_at t c doomed) d).
Proof.
  split; [apply dropped_content|intros; by apply dropped_newest| | | |].
  - intros t' c' i Ht'. rewrite dropped_ckpt, drop_ckpts by done.
    destruct (doomed_at _ _ _ _); [constructor|by apply Hag].
  - intros t' c' i task idx Ht' Hc'. rewrite dropped_pending, drop_writes by done.
    destruct (doomed_at _ _ _ _); [rewrite lookup_empty; constructor|by apply Hag].
  - eapply ids_kept; [|apply (ag_ids _ _ _ Hag)]. apply drop_ckpts_Some.
  - intros t' c' i e He%drop_ckpts_Some. by apply (ag_threads _ _ _ Hag) in He.
Qed.
End one.
End agreement.

(** ** The operations *)

Section drop.
Context {S : Type} `{ops : !StoreOps S} `{spec : !StoreSpec S} `{lg : !LangGraph} `{lgspec : !LangGraphSpec}.
Implicit Types (s : Saver S) (t c i ns : pystr) (d : RefData).

(** [s'] is [s] with another store, perhaps fewer hints, and other floors. *)
Definition narrowed s s' : Prop :=
  ∃ hints floors, hints ⊆ max_seen s ∧ at_view (sview s') (set_prune_floor floors (set_max_seen hints s)) s'.

Lemma at_view_here m s s' : at_view m s s' → at_view (sview s') s s'.
Proof. intros H. by rewrite (at_view_view _ _ _ H). Qed.

Lemma hints_narrowed m hints s s' : hints ⊆ max_seen s → at_view m (set_max_seen hints s) s' → narrowed s s'.
Proof.
  intros Hh H. exists hints, (prune_floor s). split; [done|]. apply at_view_here in H. by destruct s.
Qed.

Lemma at_view_narrowed m s s' : at_view m s s' → narrowed s s'.
Proof. intros H. apply (hints_narrowed m (max_seen s)); [done|]. by rewrite set_max_seen_id. Qed.

Lemma narrowed_trans s s1 s2 : narrowed s s1 → narrowed s1 s2 → narrowed s s2.
Proof.
  intros (h1&f1&Hh1&st1&b1&->&_) (h2&f2&Hh2&st2&b2&->&?&?). exists h2, f2. split.
  - etrans; [exact Hh2|exact Hh1].
  - by exists st2, b2.
Qed.

Lemma narrowed_ok s s' : narrowed s s' → sok s'.
Proof. intros (h&f&_&H). by apply (at_view_ok _ _ _ H). Qed.

Lemma narrowed_incremental s s' : narrowed s s' → incremental s' = incremental s.
Proof. intros (h&f&_&H). by rewrite (at_view_incremental _ _ _ H). Qed.

Lemma narrowed_indexes s s' : narrowed s s' → store_indexes_max_key s' = store_indexes_max_key s.
Proof. intros (h&f&_&H). by rewrite (at_view_indexes _ _ _ H). Qed.

(** A body that drops, in the namespace of its item, the checkpoints that [which]
    picks: over a list of namespaces it drops all of them. *)
Section loop.
Context (indexed : bool) (d : RefData) (which : ckpt_name → RefEntry → bool).
Context {A : Type} (name : A → pystr * pystr) (body : A → PyM (Saver S) unit).

Definition drops (s : Saver S) (x : A) (d1 : RefData) : Prop :=
  wp (body x) s (λ _ s', ∃ doomed,
    (∀ i, i ∈ doomed ↔ ∃ e, rd_ckpts d !! (name x, i) = Some e ∧ which (name x, i) e = true) ∧
    agrees indexed (sview s') (ref_drop (doomed_at (name x).1 (name x).2 doomed) d1) ∧ narrowed s s').

Lemma drops_all (l : list A) s :
  sok s → agrees indexed (sview s) d → NoDup (name <$> l) →
  (∀ p e, SEP ∉ p.1.1 → rd_ckpts d !! p = Some e → which p e = true → p.1 ∈ name <$> l) →
  (∀ x s1 gone, x ∈ l → narrowed s s1 → agrees indexed (sview s1) (ref_drop gone d) →
     (∀ i, gone (name x, i) = false) → drops s1 x (ref_drop gone d)) →
  wp (for_each l body) s (λ _ s', agrees indexed (sview s') (ref_drop (ckpt_with d which) d) ∧ narrowed s s').
Proof.
  intros Hs Hag Hnd Hall Hbody. eapply wp_mono.
  { apply (wp_for_each (λ l1 s', agrees indexed (sview s')
      (ref_drop (ckpt_with d (λ p e, bool_decide (p.1 ∈ name <$> l1) && which p e)) d) ∧ narrowed s s')).
    - split; [|by eapply at_view_narrowed, at_view_refl]. rewrite drop_nothing; [done|].
      intros p. unfold ckpt_with. destruct (rd_ckpts d !! p); [|done]. by rewrite bool_decide_false by apply not_elem_of_nil.
    - intros l1 x l2 s1 Heq [Hag1 Hn1]. assert (x ∈ l) as Hx by (rewrite Heq; set_solver).
      assert (name x ∉ name <$> l1) as Hnew.
      { rewrite Heq, fmap_app in Hnd. apply NoDup_app in Hnd as (_&Hd&_). intros Hin. apply (Hd _ Hin). left. }
      eapply wp_mono; [apply (Hbody x s1 _ Hx Hn1 Hag1)|].
      + intros i. unfold ckpt_with. destruct (rd_ckpts d !! _); [|done]. by rewrite bool_decide_false.
      + intros [] s2 (doomed&Hd&Hag2&Hn2). split; [|by eapply narrowed_trans].
        destruct (name x) as [t c] eqn:Ex. cbn [fst snd] in Hag2.
        pose proof (drop_more (λ q, bool_decide (q ∈ name <$> l1)) which t c doomed d (bool_decide_eq_false_2 _ Hnew) Hd) as Hmore. cbn beta in Hmore.
        rewrite Hmore in Hag2.
        erewrite drop_ext; [exact Hag2|]. intros p. unfold ckpt_with. destruct (rd_ckpts d !! p); [|done].
        f_equal. rewrite fmap_app. cbn [fmap list_fmap]. rewrite Ex, <-bool_decide_or. apply bool_decide_ext.
        rewrite elem_of_app, list_elem_of_singleton. tauto. }
  intros [] s' [Hag' Hn']. split; [|done]. eapply agrees_drop_ext; [exact Hag| |exact Hag'].
  intros p Hp. unfold ckpt_with. destruct (rd_ckpts d !! p) as [e|] eqn:E; [|done].
  destruct (which p e) eqn:Ew; [|by rewrite andb_false_r]. rewrite andb_true_r. apply bool_decide_eq_true. by eapply Hall.
Qed.
End loop.

(** *** Keeping the newest *)

(** What one namespace of the store holds, read as the reference's. *)
Definition holds_ns (m : kv) d t c : Prop :=
  ∀ i, option_Forall2 stored_as (m !! (ckpt_ns t c, i)) (rd_ckpts d !! (t, c, i)).

Section needed.
Context (m : kv) d t c (Hns : holds_ns m d t c) (Hold : parents_older d t c).
Context (Hvalues : ∀ i e, rd_ckpts d !! (t, c, i) = Some e → holds_values e).

Lemma ns_get i : match rd_ckpts d !! (t, c, i) with
  | Some e => stored_as (kv_get m (ckpt_ns t c) i) e
  | None => kv_get m (ckpt_ns t c) i = PNone
  end.
Proof. unfold kv_get. by destruct (Hns i). Qed.

Lemma walk_ends fuel cursor missing :
  truthy_id cursor = None ∨ missing = ∅ → view_walk fuel m t c (opt_str cursor) missing = Ok [].
Proof.
  intros Hend. assert (bool_decide (missing = ∅) || negb (truthy (opt_str cursor)) = true) as E.
  { destruct Hend as [Hc|Hr]; [by destruct cursor as [[]|]; rewrite ?orb_true_r|by rewrite (bool_decide_true _ Hr)]. }
  destruct fuel; cbn [view_walk]; by rewrite E.
Qed.

(** The walk visits what the channels it looks for are rebuilt from. *)
Lemma walk_visits n fuel cursor missing :
  below d t c cursor ≤ n → n < fuel →
  ∃ vs, view_walk fuel m t c (opt_str cursor) missing = Ok vs ∧
    ∀ j, j ∈ vs ↔ ∃ ch, ch ∈ missing ∧ j ∈ (rebuilt_from ch (lineage n d t c cursor)).1.
Proof.
  assert (∀ j, j ∈ @nil pystr ↔ ∃ ch, ch ∈ missing ∧ j ∈ (rebuilt_from ch []).1) as Hnil.
  { intros j. split; [by intros ?%not_elem_of_nil|by intros (ch&_&?%not_elem_of_nil)]. }
  revert fuel cursor missing Hnil.
  induction n as [|n IH]; intros [|fuel] cursor missing Hnil Hb Hfuel; try lia.
  all: destruct (truthy_id cursor) as [i|] eqn:Ei;
    [|exists []; rewrite walk_ends by auto; cbn [lineage]; rewrite ?Ei; done].
  all: destruct (decide (missing = ∅)) as [->|Hm];
    [exists []; rewrite walk_ends by auto; split; [done|intros j; split; [by intros ?%not_elem_of_nil|set_solver]]|].
  all: apply truthy_id_Some in Ei as [-> Hi]; cbn [view_walk opt_str];
    rewrite (bool_decide_false _ Hm); replace (truthy (PStr i)) with true by (by destruct i);
    cbn [orb negb as_str mbind result_bind]; pose proof (ns_get i) as Hget;
    destruct (rd_ckpts d !! (t, c, i)) as [e|] eqn:Ee; cbn [lineage];
    [|rewrite Hget; exists []; replace (truthy_id (Some i)) with (Some i) by (by destruct i); rewrite ?Ee; done].
  - exfalso. pose proof (below_parent d t c i e Hold Ee). lia.
  - rewrite (stored_not_none _ _ Hget). replace (truthy_id (Some i)) with (Some i) by (by destruct i). rewrite Ee.
    destruct (values_found m t c _ e missing Hget (Hvalues _ _ Ee)) as (found&->&_&Hfound). cbn [mbind result_bind].
    destruct Hget as (tcp&tmd&_&_&->). change (py_get _ (key "parent")) with (Ok (opt_str (re_parent e))).
    cbn [mbind result_bind]. set (rest := missing ∖ list_to_set found.*1).
    assert (∀ ch, ch ∈ rest ↔ ch ∈ missing ∧ value_in e ch = None) as Hrest.
    { intros ch. unfold rest. rewrite elem_of_difference, elem_of_list_to_set, <-od_get_Some_keys, Hfound.
      case_decide; [|naive_solver]. destruct (value_in e ch); naive_solver. }
    pose proof (below_parent d t c i e Hold Ee) as Hlt.
    destruct (IH fuel (re_parent e) rest) as (vs&->&Hvs); [|lia..|].
    { intros j. split; [by intros ?%not_elem_of_nil|by intros (ch&_&?%not_elem_of_nil)]. }
    exists (i :: vs). split; [done|]. intros j. rewrite elem_of_cons, Hvs. setoid_rewrite Hrest.
    cbn [rebuilt_from]. split.
    + intros [->|(ch&[Hch Hv]&Hj)].
      * apply set_choose_L in Hm as [ch Hch]. exists ch. split; [done|].
        destruct (value_in e ch); [by left|]. destruct (rebuilt_from ch _); by left.
      * exists ch. split; [done|]. rewrite Hv. destruct (rebuilt_from ch _); by right.
    + intros (ch&Hch&Hj). destruct (value_in e ch) eqn:Hv; [left; by apply list_elem_of_singleton in Hj|].
      destruct (rebuilt_from ch _) as [ids seed] eqn:Er. cbn [fst] in Hj. apply elem_of_cons in Hj as [->|Hj]; [by left|].
      right. exists ch. rewrite Er. done.
Qed.

Lemma needs i e fuel : rd_ckpts d !! (t, c, i) = Some e → counters_ok (re_metadata e) →
  length (ids_of d t c) < fuel →
  ∃ vs, view_needed fuel m t c i = Ok vs ∧ ∀ j, j ∈ vs ↔ j ∈ needed_by d t c e.
Proof.
  intros He (counters&Hc&Hnames) Hfuel. unfold view_needed, needed_by, delta_names. rewrite Hc.
  pose proof (ns_get i) as Hget. rewrite He in Hget. rewrite (stored_not_none _ _ Hget).
  destruct Hget as (tcp&tmd&Hcp&Hmd&Hrec). rewrite Hrec. erewrite ck_record_md by done.
  cbn [mbind result_bind]. rewrite Hc. cbn [mbind result_bind].
  destruct (truthy counters); [|by exists []]. destruct (Hnames eq_refl) as [names ->]. cbn [negb mbind result_bind].
  assert (stored_as (ck_record tcp tmd (re_parent e)) e) as Hs by by exists tcp, tmd.
  destruct (values_found m t c _ e names Hs (Hvalues _ _ He)) as (found&->&_&Hfound). cbn [mbind result_bind].
  change (py_get _ (key "parent")) with (Ok (opt_str (re_parent e))). cbn [mbind result_bind].
  destruct (walk_visits (length (ids_of d t c)) fuel (re_parent e) (names ∖ list_to_set found.*1)
    (below_size d t c _) Hfuel) as (vs&->&Hvs). exists vs. split; [done|]. intros j.
  rewrite Hvs, list_elem_of_bind. apply exist_proper. intros ch.
  rewrite list_elem_of_filter, elem_of_elements, elem_of_difference, elem_of_list_to_set, <-od_get_Some_keys, Hfound.
  case_decide; [|tauto]. destruct (value_in e ch); naive_solver.
Qed.
End needed.

(** The last of the sorted ids is the newest. *)
Lemma slice_last_one (l : list pystr) :
  slice_last 1 (py_sorted l) = match py_max l with Some i => [i] | None => [] end.
Proof.
  rewrite <-(py_max_perm _ _ (py_sorted_perm l)). pose proof (py_sorted_sorted l) as Hs. revert Hs.
  generalize (py_sorted l). intros k Hk. unfold slice_last. change (Z.to_nat 1) with 1.
  cbn [Z.leb Z.compare]. destruct k as [|x k _] using rev_ind; [done|].
  assert (py_max (k ++ [x]) = Some x) as ->.
  { apply py_max_Some. split; [set_solver|]. intros y Hy. apply elem_of_app in Hy as [Hy|Hy]; [|by apply list_elem_of_singleton in Hy as ->].
    eapply StronglySorted_app_1_elem_of; [exact Hk|done|left]. }
  rewrite length_app. cbn [length]. by rewrite (Nat.add_sub (length k) 1), drop_app_length.
Qed.

Lemma kept_of_elem d t c i : newest_of d t c = Some i →
  ∀ j, j ∈ kept_of d t c ↔ j = i ∨ j ∈ from_option (needed_by d t c) [] (rd_ckpts d !! (t, c, i)).
Proof. intros Hi j. unfold kept_of. rewrite Hi. apply elem_of_cons. Qed.

(** [_trim] with one survivor keeps it and what it needs. *)
Lemma keeps m d t c fuel (ids : list pystr) : holds_ns m d t c → prune_ok d fuel t c →
  ids ≡ₚ ids_of d t c → 
  ∃ anc, view_ancestors fuel m t c (slice_last 1 (py_sorted ids)) = Ok anc ∧
    ∀ j, j ∈ kept_set 1 (py_sorted ids) anc ↔ j ∈ kept_of d t c.
Proof.
  intros Hns ([Hold Hvalues]&Hcounters&Hfuel) Hids. unfold kept_set. rewrite slice_last_one, (py_max_perm _ _ Hids).
  fold (newest_of d t c). destruct (newest_of d t c) as [i|] eqn:Ei.
  - pose proof (proj1 (proj1 (py_max_Some _ _) Ei)) as Hi. apply ids_of_elem in Hi as [e He].
    destruct (needs m d t c Hns Hold Hvalues i e fuel He (Hcounters _ _ He) Hfuel) as (vs&Hvs&Hj).
    exists (list_to_set vs). unfold view_ancestors. cbn [foldR]. rewrite Hvs. cbn [mbind result_bind]. split.
    + by rewrite union_empty_r_L.
    + intros j. rewrite (kept_of_elem _ _ _ _ Ei), He. cbn [from_option]. rewrite <-Hj. set_solver.
  - exists ∅. split; [done|]. unfold kept_of. rewrite Ei. set_solver.
Qed.

Lemma trim_drops indexed m d t c ids anc blobs :
  agrees indexed m d → SEP ∉ t → SEP ∉ c → ids ≡ₚ ids_of d t c →
  (∀ j, j ∈ anc → is_Some (m !! (ckpt_ns t c, j))) →
  agrees indexed (trim_view false indexed t c (py_sorted ids) 1 anc blobs m)
    (ref_drop (doomed_at t c (doomed_ids 1 (py_sorted ids) anc)) d).
Proof.
  intros Hag Ht Hc Hids Hanc. unfold trim_view.
  assert (∀ j, j ∈ py_sorted ids ↔ j ∈ ids_of d t c) as Hin by (intros j; by rewrite elem_of_py_sorted, Hids).
  destruct (doomed_ids 1 (py_sorted ids) anc) as [|x doomed] eqn:E.
  - rewrite drop_nothing; [done|]. intros p. apply bool_decide_eq_false. by intros [_ ?%not_elem_of_nil].
  - rewrite <-E. apply (agrees_drop indexed); [done..|]. intros j.
    rewrite doomed_elem, Hin, elem_of_py_sorted, elem_of_elements.
    split; [|by destruct (decide (j ∈ kept_set 1 (py_sorted ids) anc)); tauto].
    intros Hj. split; [|tauto]. unfold kept_set in Hj. apply elem_of_union in Hj as [Hj|Hj].
    + apply elem_of_list_to_set, slice_last_sub in Hj. by apply Hin.
    + by apply (live_ids indexed m d t c Hag Ht), Hanc.
Qed.

(** A saver that stores what the reference holds. *)
Record holding (indexed : bool) s d : Prop := {
  ho_ok : sok s;
  ho_whole : incremental s = false;
  ho_indexed : store_indexes_max_key s = indexed;
  ho_agrees : agrees indexed (sview s) d;
}.

Lemma holding_narrowed indexed s d s' d' :
  holding indexed s d → narrowed s s' → agrees indexed (sview s') d' → holding indexed s' d'.
Proof.
  intros [_ Hinc Hix _] Hn Hag. split; [by eapply narrowed_ok| | |done].
  - by rewrite (narrowed_incremental _ _ Hn).
  - by rewrite (narrowed_indexes _ _ Hn).
Qed.

(** The body of [prune]'s loop over the namespaces of a thread. *)
Definition keep_newest_ns (fuel : nat) t ns : PyM (Saver S) unit :=
  checkpoint_ns ← lift (third_part ns);
  ids ← on_store (op_keys ns None);
  trim fuel t checkpoint_ns (py_sorted ids) 1 ;; mret tt.

Definition ns_name t ns : pystr * pystr := (t, from_option id [] (split_on SEP ns !! 2%nat)).

Lemma ns_name_ckpt t c : SEP ∉ t → SEP ∉ c → ns_name t (ckpt_ns t c) = (t, c).
Proof. intros Ht Hc. unfold ns_name. by rewrite ckpt_ns_split. Qed.

Lemma keeps_newest indexed s d t c fuel gone :
  holding indexed s (ref_drop gone d) → (∀ i, gone (t, c, i) = false) →
  valid_text t → valid_text c → SEP ∉ t → SEP ∉ c → prune_ok d fuel t c →
  drops indexed d (λ p _, superseded d t p) (ns_name t) (keep_newest_ns fuel t) s (ckpt_ns t c) (ref_drop gone d).
Proof.
  intros [Hs Hinc Hix Hag] Hgone Hvt Hvc Ht Hc Hok. unfold drops, keep_newest_ns. rewrite ns_name_ckpt by done.
  cbn [fst snd]. set (m := sview s) in *. set (d1 := ref_drop gone d) in *.
  assert (∀ i, rd_ckpts d1 !! (t, c, i) = rd_ckpts d !! (t, c, i)) as Hsame.
  { intros i. unfold d1. by rewrite drop_ckpts, Hgone. }
  assert (holds_ns m d t c) as Hns by (intros i; rewrite <-Hsame; by apply Hag).
  assert (ids_of d1 t c ≡ₚ ids_of d t c) as Hperm.
  { apply NoDup_Permutation; [apply ids_of_NoDup..|]. intros i. by rewrite !ids_of_elem, Hsame. }
  eapply wp_bind, (wp_lift _ c). { unfold third_part. by rewrite ckpt_ns_split. }
  destruct (keys_at s (ckpt_ns t c)) as (ids&(s1&E&H1)&Hl); [done|auto with text|]. fold m in H1, Hl.
  eapply wp_bind, wp_intro; [exact E|].
  pose proof (lists_keys_perm _ _ _ _ _ Hl (ref_keys_lists m (ckpt_ns t c))) as Hids.
  rewrite (agrees_ids _ _ _ Hag t c Ht) in Hids.
  destruct (keeps m d t c fuel ids Hns Hok) as (anc&Hanc&Hkept); [by rewrite Hids|].
  assert (∀ j, j ∈ anc → is_Some (m !! (ckpt_ns t c, j))) as Hstored by (intros j; by eapply view_ancestors_stored).
  pose proof (ag_content _ _ _ Hag) as Hm.
  eapply wp_bind_mono.
  { apply (trim_wp s1 fuel t c (py_sorted ids) 1 anc ∅); rewrite ?(at_view_view _ _ _ H1); try done.
    - by eapply at_view_ok.
    - rewrite (at_view_incremental _ _ _ H1), Hinc. exact Hm.
    - intros i cp vs Hcp Hin. exfalso. pose proof (ns_get m d t c Hns i) as Hget.
      destruct (rd_ckpts d !! (t, c, i)) as [e|] eqn:Ee; [|by rewrite Hget in Hcp].
      destruct Hget as (tcp&tmd&Hd&_&Hrec). rewrite Hrec in Hcp. erewrite ck_record_cp in Hcp by done.
      injection Hcp as <-. rewrite holds_inline in Hin; [done|]. by eapply Hok.
    - intros i v Hv p ->. pose proof (ns_get m d t c Hns i) as Hget.
      destruct (rd_ckpts d !! (t, c, i)) as [e|] eqn:Ee; [|by rewrite Hget in Hv].
      destruct Hget as (tcp&tmd&_&_&Hrec). rewrite Hrec in Hv.
      change (py_get _ (key "parent")) with (Ok (opt_str (re_parent e))) in Hv. injection Hv as Hv.
      assert (from_option valid_text True (re_parent e)) as Hp; [|by destruct (re_parent e); simplify_eq/=].
      rewrite <-Hsame in Ee. eapply (parent_text indexed m d1 t c Hag); [|done|exact Ee].
      intros ns k v Hk. by apply (sv_text _ _ _ _ Hs Hk).
    - apply Forall_forall. intros i. rewrite elem_of_py_sorted, Hids, ids_of_elem, Hsame. intros Hi.
      eapply content_ids; [exact Hm|]. by apply (option_Forall2_is_Some _ _ _ (Hns i)).
    - intros i Hi. eapply content_ids; [exact Hm|]. by apply Hstored.
    - rewrite (at_view_incremental _ _ _ H1), Hinc. done. }
  intros n s2 [_ (hints&Hh&H2)]. rewrite (at_view_incremental _ _ _ H1), Hinc, (at_view_indexes _ _ _ H1), Hix,
    (at_view_view _ _ _ H1) in H2. apply wp_ret. exists (doomed_ids 1 (py_sorted ids) anc). split_and!.
  - intros i. rewrite doomed_elem, Hkept, elem_of_py_sorted, Hids, ids_of_elem, Hsame. unfold superseded. cbn [fst snd].
    split; [intros [[e He] Hi]; exists e; split; [done|by apply bool_decide_eq_true]|].
    intros (e&He&[_ Hi]%bool_decide_eq_true). split; [by eexists|done].
  - rewrite (at_view_view _ _ _ H2). by apply trim_drops.
  - eapply narrowed_trans; [by eapply at_view_narrowed|]. by eapply hints_narrowed.
Qed.

(** A namespace of checkpoints that is listed. *)
Lemma listed_ckpts indexed m d t k c : agrees indexed m d → text_keys m → SEP ∉ t →
  is_Some (m !! (ckpt_ns t c, k)) → (SEP ∉ c) ∧ valid_text c.
Proof.
  intros Hag Htext Ht Hk. split.
  - apply (option_Forall2_is_Some _ _ _ (ag_ckpts _ _ _ Hag t c k Ht)) in Hk as [e He].
    by apply (ag_ids _ _ _ Hag) in He as (_&_&?).
  - apply Htext in Hk as [Hv _]. by apply (valid_kind_ns (lit "ck") t c) in Hv as (_&_&?).
Qed.

Lemma keep_thread_at indexed s d t fuel : holding indexed s d → valid_text t → SEP ∉ t →
  (∀ c, prune_ok d fuel t c) →
  wp (l ← thread_namespaces (lit "ck") t; for_each l (keep_newest_ns fuel t)) s (λ _ s',
    agrees indexed (sview s') (ref_keep_latest t d) ∧ narrowed s s').
Proof.
  intros Hh Hvt Ht Hok. pose proof Hh as [Hs _ _ Hag]. set (m := sview s) in *.
  destruct (thread_namespaces_at s (lit "ck") t) as (l&s1&E&H1&[Hnd Hl]); [done|by left|done..|]. fold m in H1, Hl.
  eapply wp_bind, wp_intro; [exact E|].
  assert (∀ ns, ns ∈ l ↔ ∃ c, ns = ckpt_ns t c ∧ (SEP ∉ c) ∧ valid_text c ∧ ∃ k, is_Some (m !! (ckpt_ns t c, k))) as Hin.
  { intros ns. rewrite Hl. cbn [has_prefix]. rewrite (kind_ns_starts (lit "ck") t ns). split.
    - intros [[k Hk] [c ->]]. exists c. change (kind_ns (lit "ck") t c) with (ckpt_ns t c) in *.
      destruct (listed_ckpts indexed m d t k c Hag (sview_text s Hs) Ht Hk). split_and!; [done..|by exists k].
    - intros (c&->&_&_&Hk). split; [done|]. by exists c. }
  assert (narrowed s s1) as Hn1 by by eapply at_view_narrowed.
  assert (holding indexed s1 d) as [Hs1 _ _ Hag1].
  { eapply holding_narrowed; [exact Hh|done|]. by rewrite (at_view_view _ _ _ H1). }
  eapply wp_mono.
  { apply (drops_all indexed d (λ p _, superseded d t p) (ns_name t) (keep_newest_ns fuel t) l s1 Hs1 Hag1).
    - apply NoDup_fmap_2_strong; [|done]. intros x y (c&->&Hc&_)%Hin (c'&->&Hc'&_)%Hin.
      rewrite !ns_name_ckpt by done. by intros [= ->].
    - intros [[t' c] i] e _ He Hw. apply bool_decide_eq_true in Hw as [Hw _]. cbn [fst] in *. subst t'. apply list_elem_of_fmap.
      destruct (ag_ids _ _ _ Hag _ _ _ _ He) as (_&_&Hc). exists (ckpt_ns t c). rewrite ns_name_ckpt by done. split; [done|].
      assert (is_Some (m !! (ckpt_ns t c, i))) as Hi
        by (apply (option_Forall2_is_Some _ _ _ (ag_ckpts _ _ _ Hag t c i Ht)); by rewrite He).
      apply Hin. exists c. split_and!; [done..| |by exists i].
      by eapply (listed_ckpts indexed m d t i c Hag (sview_text s Hs)).
    - intros ns s2 gone (c&->&Hc&Hvc&_)%Hin Hn2 Hag2 Hgone. rewrite ns_name_ckpt in Hgone by done.
      apply keeps_newest; try done. eapply holding_narrowed; [exact Hh| |done]. by eapply narrowed_trans. }
  intros [] s' [Hag' Hn']. split; [exact Hag'|]. by eapply narrowed_trans.
Qed.

(** *** Pruning *)

(** What holds of the checkpoints of a thread holds when there are fewer. *)
Lemma prune_ok_less d d' fuel t c : (∀ p e, rd_ckpts d' !! p = Some e → rd_ckpts d !! p = Some e) →
  prune_ok d fuel t c → prune_ok d' fuel t c.
Proof.
  intros Hless ([Hold Hvalues]&Hcounters&Hfuel).
  split; [split; intros i e; eauto|]. split; [intros i e; eauto|].
  eapply Nat.le_lt_trans; [|exact Hfuel]. apply submseteq_length, NoDup_submseteq; [apply ids_of_NoDup|].
  intros i. rewrite !ids_of_elem. intros [e He%Hless]. by eexists.
Qed.

Lemma deletes_thread indexed s d t : holding indexed s d → valid_text t → SEP ∉ t →
  wp (delete_thread t) s (λ _ s', agrees indexed (sview s') (ref_delete_thread t d) ∧ narrowed s s').
Proof.
  intros [Hs _ Hix Hag] Hvt Ht. eapply wp_mono; [by apply delete_thread_run|]. intros [] s' H'. cbn beta in H'.
  rewrite Hix in H'. split; [rewrite (at_view_view _ _ _ H'); by apply agrees_delete|].
  eexists (forget_thread t (max_seen s)), _. split; [apply map_filter_subseteq|by eapply at_view_here].
Qed.

Definition prune_step (strategy : pystr) d t : RefData :=
  if str_eqb strategy (lit "delete") then ref_delete_thread t d else ref_keep_latest t d.

Lemma prune_step_less strategy d t p e :
  rd_ckpts (prune_step strategy d t) !! p = Some e → rd_ckpts d !! p = Some e.
Proof.
  unfold prune_step. destruct (str_eqb _ _); [|apply drop_ckpts_Some].
  cbn [rd_ckpts ref_delete_thread]. by intros [? _]%map_lookup_filter_Some.
Qed.

Lemma prune_less (thread_ids : list pystr) strategy d p e :
  rd_ckpts (ref_prune thread_ids strategy d) !! p = Some e → rd_ckpts d !! p = Some e.
Proof.
  revert d. induction thread_ids as [|t ts IH]; intros d; [done|]. intros H%IH. by apply prune_step_less in H.
Qed.

Theorem prune_at indexed s d fuel (thread_ids : list pystr) (strategy : pystr) :
  holding indexed s d → strategy ∈ PRUNE_STRATEGIES →
  Forall (λ t, valid_text t ∧ (SEP ∉ t) ∧ ∀ c, prune_ok d fuel t c) thread_ids →
  wp (prune fuel thread_ids strategy) s (λ _ s',
    agrees indexed (sview s') (ref_prune thread_ids strategy d) ∧ narrowed s s').
Proof.
  intros Hh Hst. revert s d Hh. unfold prune. rewrite (bool_decide_true _ Hst). cbn [negb].
  induction thread_ids as [|t ts IH]; intros s d Hh Hts.
  { cbn [for_each]. apply wp_ret. split; [apply Hh|]. eapply at_view_narrowed, at_view_refl, Hh. }
  apply Forall_cons in Hts as [(Hvt&Ht&Hok) Hts]. cbn [for_each].
  eapply (wp_bind_mono _ _ _ (λ _ s1, agrees indexed (sview s1) (prune_step strategy d t) ∧ narrowed s s1)).
  - unfold prune_step. destruct (str_eqb strategy (lit "delete")); [by apply deletes_thread|].
    by apply (keep_thread_at indexed s d t fuel).
  - intros [] s1 [Hag1 Hn1]. eapply wp_mono.
    { apply (IH s1 (prune_step strategy d t)); [by eapply holding_narrowed|]. eapply Forall_impl; [exact Hts|].
      intros x (?&?&Hx). split_and!; [done..|]. intros c. eapply prune_ok_less; [apply prune_step_less|apply Hx]. }
    intros [] s2 [Hag2 Hn2]. split; [exact Hag2|]. by eapply narrowed_trans.
Qed.

(** *** Runs *)

(** The checkpoints of a namespace that belong to the runs. *)
Definition find_doomed (run_ids : list pystr) (es : list (pystr * pyval)) (found : gset pystr)
    : PyM (Saver S) (gset pystr) :=
  for_fold es (λ (doomed : gset pystr) e,
    let '(checkpoint_id, saved) := e in
    if is_none saved then mret doomed
    else
      metadata ← lift (loads_field saved (key "md"));
      hit ← (if is_dict metadata
             then run ← lift (py_get metadata (key "run_id")); lift (in_names run (list_to_set run_ids))
             else mret false);
      mret (if hit : bool then {[ checkpoint_id ]} ∪ doomed else doomed)) found.

Definition drop_runs (run_ids : list pystr) (target : pystr * pystr * pystr) : PyM (Saver S) unit :=
  let '(thread_id, checkpoint_ns, ns) := target in
  ids ← on_store (op_keys ns None);
  vs ← get_many ns ids;
  doomed ← find_doomed run_ids (zip ids vs) ∅;
  if bool_decide (doomed = ∅) then mret tt
  else
    let kept := filter (λ i, i ∉ doomed) ids in
    drop_checkpoints thread_id checkpoint_ns (py_sorted (elements doomed)) kept ∅.

Lemma run_hit run_ids e : is_dict (re_metadata e) = true → hashable (run_of (re_metadata e)) →
  ∃ run, py_get (re_metadata e) (key "run_id") = Ok run ∧
    in_names run (list_to_set run_ids) = Ok (of_runs run_ids e).
Proof.
  unfold of_runs. destruct (re_metadata e) as [| | | | | | | |md|]; try done. intros _ Hh.
  exists (run_of (PDict md)). split; [done|]. destruct (run_of (PDict md)); try done. cbn. f_equal.
  apply bool_decide_ext. apply elem_of_list_to_set.
Qed.

Lemma finds_doomed m s0 d t c run_ids (ids : list pystr) found :
  holds_ns m d t c →
  Forall (λ i, ∃ e, rd_ckpts d !! (t, c, i) = Some e ∧ is_dict (re_metadata e) = true ∧
    hashable (run_of (re_metadata e))) ids →
  ∃ doomed, steady m s0 (find_doomed run_ids (zip ids (kv_get m (ckpt_ns t c) <$> ids)) found) (Ok doomed) ∧
    ∀ i, i ∈ doomed ↔ i ∈ found ∨ i ∈ ids ∧ ∃ e, rd_ckpts d !! (t, c, i) = Some e ∧ of_runs run_ids e = true.
Proof.
  intros Hns Hids. revert found. induction Hids as [|i ids (e&He&Hdict&Hhash) _ IH]; intros found.
  { exists found. split; [apply steady_ret|]. intros i. split; [by left|]. by intros [?|[?%not_elem_of_nil _]]. }
  destruct (IH (if of_runs run_ids e then {[ i ]} ∪ found else found)) as (doomed&Hst&Hd). exists doomed. split.
  - unfold find_doomed. cbn [fmap list_fmap zip zip_with for_fold].
    pose proof (ns_get m d t c Hns i) as Hget. rewrite He in Hget. rewrite (stored_not_none _ _ Hget).
    destruct Hget as (tcp&tmd&_&Hmd&->). destruct (run_hit run_ids e Hdict Hhash) as (run&Hrun&Hhit).
    eapply steady_bind_ok; [|exact Hst]. eapply steady_bind_ok; [rewrite <-(ck_record_md tcp tmd (re_parent e) _ Hmd); apply steady_lift|].
    rewrite Hdict. eapply steady_bind_ok; [|apply steady_ret].
    eapply steady_bind_ok; [rewrite <-Hrun; apply steady_lift|]. rewrite <-Hhit. apply steady_lift.
  - intros j. rewrite Hd, elem_of_cons. clear Hd IH Hst. destruct (of_runs run_ids e) eqn:Er.
    + rewrite elem_of_union, elem_of_singleton. split; [|tauto].
      intros [[->|?]|[??]]; [right; split; [by left|by exists e]|by left|tauto].
    + split; [tauto|]. intros [?|[[->|?] He']]; [by left| |tauto].
      destruct He' as (e'&He'&Hr). rewrite He in He'. injection He' as <-. congruence.
Qed.

Lemma drops_runs indexed s d t c run_ids gone :
  holding indexed s (ref_drop gone d) → (∀ i, gone (t, c, i) = false) →
  valid_text t → valid_text c → SEP ∉ t → SEP ∉ c →
  (∀ i e, rd_ckpts d !! (t, c, i) = Some e → is_dict (re_metadata e) = true ∧ hashable (run_of (re_metadata e))) →
  drops indexed d (λ _, of_runs run_ids) fst (drop_runs run_ids) s (t, c, ckpt_ns t c) (ref_drop gone d).
Proof.
  intros [Hs Hinc Hix Hag] Hgone Hvt Hvc Ht Hc Hmds. unfold drops, drop_runs. cbn [fst snd].
  set (m := sview s) in *. set (d1 := ref_drop gone d) in *.
  assert (∀ i, rd_ckpts d1 !! (t, c, i) = rd_ckpts d !! (t, c, i)) as Hsame.
  { intros i. unfold d1. by rewrite drop_ckpts, Hgone. }
  assert (holds_ns m d t c) as Hns by (intros i; rewrite <-Hsame; by apply Hag).
  destruct (keys_at s (ckpt_ns t c)) as (ids&(s1&E&H1)&Hl); [done|auto with text|]. fold m in H1, Hl.
  eapply wp_bind, wp_intro; [exact E|].
  assert (∀ i, i ∈ ids ↔ i ∈ ids_of d1 t c) as Hids.
  { intros i. by rewrite (lists_keys_perm _ _ _ _ _ Hl (ref_keys_lists m (ckpt_ns t c))), (agrees_ids _ _ _ Hag t c Ht). }
  pose proof (lists_keys_valid s _ _ _ Hs Hl) as Hvl. pose proof (ag_content _ _ _ Hag) as Hm.
  eapply wp_bind, (steady_wp m s); [apply steady_get_many; auto with text|exact H1|]. intros s2 H2.
  destruct (finds_doomed m s d t c run_ids ids ∅ Hns) as (doomed&Hst&Hd).
  { apply Forall_forall. intros i [e He]%Hids%ids_of_elem. rewrite Hsame in He. exists e. split; [done|by eapply Hmds]. }
  eapply wp_bind, (steady_wp m s); [exact Hst|exact H2|]. intros s3 H3.
  assert (∀ i, i ∈ doomed ↔ ∃ e, rd_ckpts d !! (t, c, i) = Some e ∧ of_runs run_ids e = true) as Hdoomed.
  { intros i. rewrite Hd, Hids, ids_of_elem, Hsame. split; [set_solver|]. intros (e&He&Hr). right. split; by exists e. }
  case_bool_decide as Hempty.
  { subst doomed. apply wp_ret. exists []. split_and!.
    - intros i. rewrite <-Hdoomed. split; [by intros ?%not_elem_of_nil|by intros ?%not_elem_of_empty].
    - rewrite drop_nothing; [by rewrite (at_view_view _ _ _ H3)|].
      intros p. apply bool_decide_eq_false. by intros [_ ?%not_elem_of_nil].
    - by eapply at_view_narrowed. }
  set (dl := py_sorted (elements doomed)).
  assert (∀ i, i ∈ dl ↔ i ∈ doomed) as Hdl by (intros i; unfold dl; by rewrite elem_of_py_sorted, elem_of_elements).
  assert (∀ i, i ∈ ids → text_ok i = true) as Htext.
  { intros i Hi%Hids. eapply content_ids; [exact Hm|]. by apply (live_ids indexed m d1 t c Hag Ht). }
  eapply wp_mono.
  { apply (drop_checkpoints_wp s3 t c dl _ ∅ ∅); rewrite ?(at_view_view _ _ _ H3), ?(at_view_incremental _ _ _ H3), ?Hinc; try done.
    - by eapply at_view_ok.
    - apply Forall_forall. intros i [e [He _]]%Hdl%Hdoomed. apply text_ok_valid, Htext, Hids, ids_of_elem.
      rewrite Hsame. by exists e.
    - apply Forall_forall. intros i [_ Hi]%list_elem_of_filter. by apply Htext. }
  intros [] s4 H4. rewrite (at_view_incremental _ _ _ H3), Hinc, (at_view_indexes _ _ _ H3), Hix, (at_view_view _ _ _ H3) in H4.
  exists dl. split_and!.
  - intros i. by rewrite Hdl.
  - rewrite (at_view_view _ _ _ H4). apply (agrees_drop indexed); [done..|]. intros j.
    by rewrite list_elem_of_filter, Hids, Hdl, (comm and).
  - eapply narrowed_trans; [by eapply at_view_narrowed|]. eapply hints_narrowed; [|exact H4]. apply drop_hints_sub.
Qed.

Theorem delete_for_runs_at indexed s d (run_ids : list pystr) :
  holding indexed s d → (∀ p e, rd_ckpts d !! p = Some e → hashable (run_of (re_metadata e))) →
  wp (delete_for_runs run_ids) s (λ _ s',
    agrees indexed (sview s') (ref_delete_for_runs run_ids d) ∧ narrowed s s').
Proof.
  intros Hh Hhash. pose proof Hh as [Hs _ _ Hag]. set (m := sview s) in *. unfold delete_for_runs.
  case_bool_decide as Hempty.
  { apply wp_ret. split; [|by eapply at_view_narrowed, at_view_refl].
    unfold ref_delete_for_runs. rewrite drop_nothing; [done|]. intros p. unfold ckpt_with, of_runs.
    destruct (rd_ckpts d !! p) as [e|]; [|done]. destruct (run_of _); try done. apply bool_decide_eq_false.
    intros Hin. apply (elem_of_list_to_set (C:=gset pystr)) in Hin. rewrite Hempty in Hin. by apply not_elem_of_empty in Hin. }
  destruct (list_targets_at s None Hs I) as (names&s1&E&H1&[Hnd Hl]). fold m in H1, Hl.
  eapply wp_bind, wp_intro; [exact E|].
  assert (∀ x, x ∈ target <$> names ↔ ∃ t c, x = (t, c, ckpt_ns t c) ∧ (SEP ∉ t) ∧ (SEP ∉ c) ∧
    ∃ k, is_Some (m !! (ckpt_ns t c, k))) as Hin.
  { intros x. rewrite list_elem_of_fmap. split.
    - intros ([t c]&->&(_&Ht&Hc&Hk)%Hl). by exists t, c.
    - intros (t&c&->&Ht&Hc&Hk). exists (t, c). split; [done|]. by apply Hl. }
  assert (narrowed s s1) as Hn1 by by eapply at_view_narrowed.
  assert (holding indexed s1 d) as [Hs1 _ _ Hag1].
  { eapply holding_narrowed; [exact Hh|done|]. by rewrite (at_view_view _ _ _ H1). }
  eapply wp_mono.
  { apply (drops_all indexed d (λ _, of_runs run_ids) fst (drop_runs run_ids) (target <$> names) s1 Hs1 Hag1).
    - rewrite <-list_fmap_compose, (list_fmap_ext _ id), list_fmap_id; [done|]. by intros _ [t c] _.
    - intros [[t c] i] e Ht He _. cbn [fst] in *. apply list_elem_of_fmap. exists (t, c, ckpt_ns t c). split; [done|].
      apply Hin. exists t, c. destruct (ag_ids _ _ _ Hag _ _ _ _ He) as (_&_&Hc). split_and!; [done..|].
      exists i. apply (option_Forall2_is_Some _ _ _ (ag_ckpts _ _ _ Hag t c i Ht)). by rewrite He.
    - intros x s2 gone (t&c&->&Ht&Hc&k&Hk)%Hin Hn2 Hag2 Hgone. cbn [fst] in Hgone.
      pose proof (sview_text s Hs _ _ Hk) as [Hv _]. apply (valid_kind_ns (lit "ck") t c) in Hv as (_&Hvt&Hvc).
      apply drops_runs; try done.
      + eapply holding_narrowed; [exact Hh| |done]. by eapply narrowed_trans.
      + intros i e He. split; [by apply (ag_ids _ _ _ Hag) in He as (_&?&_)|by eapply Hhash]. }
  intros [] s' [Hag' Hn']. split; [exact Hag'|]. by eapply narrowed_trans.
Qed.
End drop.
