(* ===== verification/SaverSimulation.v ===== *)
(** * Runs of the saver and of the reference checkpointer

    [implements] relates a saver (and the snapshots its client holds) to the
    reference checkpointer. Every call of the interface keeps it and gets the
    same answer, so any sequence of calls does. *)

From S2P Require Import Prelude PyValue Store SnapshotLaws Saver SaverOps SaverRead.
From S2P Require Import SaverLemmas SaverSpec SaverPut SaverMeasure SaverTheorems SaverAdmin.
From S2P Require Import SaverList SaverWrites SaverAsync SaverReference SaverRefinement SaverHistory SaverCopy SaverDrop SaverExample.

(** ** Bounds on the ids *)

Abbreviation id_bounds := (gmap (pystr * pystr) pystr).

(** [x] is at most the bound of its thread. *)
Definition bounded_by (h : id_bounds) (t c x : pystr) : Prop := ∃ y, h !! (t, c) = Some y ∧ str_le x y.

Definition ids_bounded (h : id_bounds) (d : RefData) : Prop :=
  ∀ t c i, is_Some (rd_ckpts d !! (t, c, i)) → bounded_by h t c i.

Definition hints_bounded (h hints : id_bounds) : Prop :=
  ∀ t c x, hints !! (t, c) = Some x → bounded_by h t c x.

Lemma raise_high_bounds t c i h : bounded_by (raise_high t c i h) t c i.
Proof.
  unfold bounded_by, raise_high. destruct (h !! (t, c)) as [x|] eqn:E.
  - destruct (str_ltb x i) eqn:Hx; [exists i; by rewrite lookup_insert_eq|].
    exists x. split; [done|]. apply str_nlt_le. unfold str_lt. congruence.
  - exists i. by rewrite lookup_insert_eq.
Qed.

Lemma raise_high_grows t c i h t' c' x : bounded_by h t' c' x → bounded_by (raise_high t c i h) t' c' x.
Proof.
  intros (y&Hy&Hxy). destruct (decide ((t', c') = (t, c))) as [[= -> ->]|Hne].
  - destruct (raise_high_bounds t c i h) as (z&Hz&Hiz). exists z. split; [done|].
    revert Hz. unfold raise_high. rewrite Hy. destruct (str_ltb y i) eqn:Hyi.
    + rewrite lookup_insert_eq. intros [= ->]. etrans; [exact Hxy|]. by apply str_lt_le.
    + rewrite Hy. by intros [= ->].
  - exists y. split; [|done]. unfold raise_high. destruct (h !! (t, c)) as [z|]; [destruct (str_ltb z i)|];
      by rewrite ?lookup_insert_ne by congruence.
Qed.

Lemma raise_all_grows t l h t' c' x : bounded_by h t' c' x → bounded_by (raise_all t l h) t' c' x.
Proof. intros Hx. induction l as [|p l IH]; [done|]. by apply raise_high_grows. Qed.

Lemma raise_all_bounds t l h c i : (c, i) ∈ l → bounded_by (raise_all t l h) t c i.
Proof.
  induction l as [|p l IH]; [by intros ?%not_elem_of_nil|]. cbn [raise_all foldr].
  intros [<-|Hin]%elem_of_cons; [apply raise_high_bounds|by apply raise_high_grows, IH].
Qed.

Lemma ids_bounded_copy src t h d : src ≠ t → ids_bounded h d →
  ids_bounded (raise_all t (thread_ids d src) h) (ref_copy_thread src t d).
Proof.
  intros Hne Hd t' c i. rewrite ref_copy_ckpts by done. destruct (decide (t' = t)) as [->|].
  - destruct (rd_ckpts d !! (src, c, i)) as [e|] eqn:E.
    + intros _. apply raise_all_bounds, thread_ids_elem. by rewrite E.
    + intros Hi. by apply raise_all_grows, Hd.
  - intros Hi. by apply raise_all_grows, Hd.
Qed.

Lemma ids_bounded_put t c i e h d : ids_bounded h d → ids_bounded (raise_high t c i h) (ref_put t c i e d).
Proof.
  intros Hd t' c' j [e' He]. cbn [rd_ckpts ref_put] in He.
  apply lookup_insert_Some in He as [[[= <- <- <-] _]|[_ He]]; [apply raise_high_bounds|].
  apply raise_high_grows, Hd. by eexists.
Qed.

Lemma ids_bounded_delete t h d : ids_bounded h d → ids_bounded h (ref_delete_thread t d).
Proof.
  intros Hd t' c i. cbn [rd_ckpts ref_delete_thread]. rewrite without_lookup.
  case_decide; [by intros []|apply Hd].
Qed.

Lemma ids_bounded_less h d d' : (∀ p e, rd_ckpts d' !! p = Some e → rd_ckpts d !! p = Some e) →
  ids_bounded h d → ids_bounded h d'.
Proof. intros Hless Hd t c i [e He%Hless]. apply Hd. by exists e. Qed.

Lemma hints_bounded_forget t h hints : hints_bounded h hints → hints_bounded h (forget_thread t hints).
Proof. intros Hh t' c x. rewrite forget_thread_lookup. case_decide; [done|apply Hh]. Qed.

(** ** The relation *)

Section simulation.
Context {S : Type} {ops : StoreOps S} {spec : StoreSpec S} {snaps : SnapshotOps S}.
Context {snaplaws : SnapshotLaws valid_text S} `{lg : !LangGraph} `{lgspec : !LangGraphSpec}.
Implicit Types (s : Saver S) (held : list (Snap S)) (t c i : pystr) (r : RefSaver).
Hypothesis Hnative : op_supports_async = true → async_store.

Record implements (indexed : bool) s held r : Prop := {
  im_ok : sok s;
  im_whole : incremental s = false;
  im_unbounded : max_checkpoints_per_thread s = None;
  im_indexed : store_indexes_max_key s = indexed;
  im_native : native_async s = op_supports_async;
  im_agrees : agrees indexed (sview s) (rs_data r);
  im_hints : hints_bounded (rs_high r) (max_seen s);
  im_ids : ids_bounded (rs_high r) (rs_data r);
  im_snaps : Forall2 (λ snap d, ids_bounded (rs_high r) d ∧ ∃ m, snap_holds snap m ∧ agrees indexed m d)
               held (rs_snaps r);
}.

(** A state with the store at [m]; hints and instruments may differ. *)
Lemma implements_move indexed s s0 s1 m me tr held r r' :
  implements indexed s held r → at_view m s0 s1 → same_setup s s0 → native_async s0 = native_async s →
  rs_high r' = rs_high r → rs_snaps r' = rs_snaps r →
  agrees indexed m (rs_data r') → hints_bounded (rs_high r) (max_seen s0) →
  ids_bounded (rs_high r) (rs_data r') →
  implements indexed (set_instruments me tr s1) held r'.
Proof.
  intros Him H1 (Hinc&Hix&Hmax) Hna Hhigh Hsnaps Hag Hh Hids.
  split; rewrite ?Hhigh, ?Hsnaps; cbn [sview store incremental max_checkpoints_per_thread
    store_indexes_max_key max_seen set_instruments].
  - by apply (at_view_ok _ _ _ H1).
  - rewrite (at_view_incremental _ _ _ H1), Hinc. apply Him.
  - rewrite (at_view_max_checkpoints _ _ _ H1), Hmax. apply Him.
  - rewrite (at_view_indexes _ _ _ H1), Hix. apply Him.
  - change (native_async s1 = op_supports_async). rewrite (at_view_native _ _ _ H1), Hna. apply Him.
  - change (agrees indexed (sview s1) (rs_data r')). by rewrite (at_view_view _ _ _ H1).
  - by rewrite (at_view_max_seen _ _ _ H1).
  - done.
  - apply Him.
Qed.

(** Bounds may be raised. *)
Lemma implements_raise indexed s held r h :
  implements indexed s held r → (∀ t c x, bounded_by (rs_high r) t c x → bounded_by h t c x) →
  implements indexed s held {| rs_data := rs_data r; rs_snaps := rs_snaps r; rs_high := h |}.
Proof.
  intros [H2 H3 H4 H5 Hn H6 H7 H8 H9] Hh. split; cbn [rs_data rs_snaps rs_high]; try done.
  - intros t c x Hx. by apply Hh, H7.
  - intros t c i Hi. by apply Hh, H8.
  - eapply Forall2_impl; [exact H9|]. intros sn d [Hd Hm]. split; [|done].
    intros t c i Hi. by apply Hh, Hd.
Qed.

Lemma implements_plain indexed s s0 s1 m held r r' :
  implements indexed s held r → at_view m s0 s1 → same_setup s s0 → native_async s0 = native_async s →
  rs_high r' = rs_high r → rs_snaps r' = rs_snaps r →
  agrees indexed m (rs_data r') → hints_bounded (rs_high r) (max_seen s0) →
  ids_bounded (rs_high r) (rs_data r') →
  implements indexed s1 held r'.
Proof. intros. rewrite <-(set_instruments_id s1). by eapply implements_move. Qed.

Lemma same_setup_refl s : same_setup s s.
Proof. done. Qed.

(** *** Either way of calling *)

Lemma native_async_store indexed s held r :
  implements indexed s held r → native_async s = true → async_store.
Proof. intros Him Hn. apply Hnative. by rewrite <-(im_native _ _ _ _ Him). Qed.

Lemma wp_put_in how s fuel config checkpoint metadata nv i tcp tmd blobs stored
    (Q : RunnableConfig → Saver S → Prop) :
  let t := cfg_thread_id config in
  let c := cfg_ns config in
  (native_async s = true → async_store) →
  sok s → valid_config config → text_ok i = true → opt_text_ok (cfg_checkpoint_id config) →
  Forall (λ b, valid_text b.1) blobs →
  put_encoded s config checkpoint metadata nv i tcp tmd blobs stored →
  (∀ s1, at_view (put_view (sview s) (publishes s t c i) t c i
                    (ck_record tcp tmd (cfg_checkpoint_id config)) blobs)
           (set_max_seen (hints_after s t c i) s) s1 →
     wp (match max_checkpoints_per_thread s with
         | Some _ => prune_thread fuel t c
         | None => mret tt
         end) s1 (λ _ s2, ∀ me tr, Q (mk_config t c i) (set_instruments me tr s2))) →
  wp (put_in how fuel config checkpoint metadata nv) s Q.
Proof.
  intros t c Hn Hs Hc Hi Hpar Hb He HQ. pose proof (pe_id _ _ _ _ _ _ _ _ _ _ He) as Hid.
  assert (wp (put fuel config checkpoint metadata nv) s Q) as Hput.
  { eapply wp_put; [exact Hid|]. by eapply put_impl_wp. }
  destruct how; [exact Hput|]. cbn [put_in]. destruct (native_async s) eqn:En.
  - eapply wp_aput; [done|exact Hid|]. by eapply aput_impl_wp; [apply Hn|..].
  - unfold aput. apply wp_bind, wp_gets. by rewrite En.
Qed.

Lemma wp_put_writes_in how s config writes task_id task_path ns rows (Q : unit → Saver S → Prop) :
  (native_async s = true → async_store) →
  sok s → valid_text ns → writes_text task_id task_path writes →
  write_rows config writes task_id task_path = Ok (ns, rows) →
  (∀ s1, at_view (writes_view (sview s) ns rows) s s1 → ∀ me tr, Q tt (set_instruments me tr s1)) →
  wp (put_writes_in how config writes task_id task_path) s Q.
Proof.
  intros Hn Hs Hns Htext Hrows HQ.
  assert (wp (put_writes config writes task_id task_path) s Q) as Hput.
  { apply wp_put_writes. eapply wp_mono; [by apply put_writes_impl_at|].
    intros [] s1 H1 me tr. by apply HQ. }
  destruct how; [exact Hput|]. cbn [put_writes_in]. destruct (native_async s) eqn:En.
  - destruct (Hn eq_refl) as [[f Hf] _ Hp]. apply wp_aput_writes; [done|].
    eapply wp_mono; [by eapply (aput_writes_impl_at f)|]. intros [] s1 H1 me tr. by apply HQ.
  - unfold aput_writes. apply wp_bind, wp_gets. by rewrite En.
Qed.

Lemma wp_get_tuple_in how s config (Q : option CheckpointTuple → Saver S → Prop) :
  (native_async s = true → async_store) →
  sok s → valid_config config → content_ok (incremental s) (sview s) → incremental s = false →
  (∃ tup, view_get_tuple (sview s) false (store_indexes_max_key s) config = Ok tup ∧
     ∀ s1, at_view (view_published (sview s) (store_indexes_max_key s) config) s s1 →
       ∀ me tr, Q tup (set_instruments me tr s1)) →
  wp (get_tuple_in how config) s Q.
Proof.
  intros Hn Hs Hc Hm Hinc (tup&Htup&HQ). rewrite <-Hinc in Htup.
  assert (wp (get_tuple config) s Q) as Hget.
  { destruct (get_tuple_impl_at s config Hs Hc Hm) as (s1&E&H1). rewrite Htup in E.
    apply wp_get_tuple. eapply wp_intro; [exact E|]. intros me tr. by apply HQ. }
  destruct how; [exact Hget|]. cbn [get_tuple_in]. destruct (native_async s) eqn:En.
  - destruct (aget_tuple_impl_at (Hn eq_refl) s config Hs Hc Hm) as (s1&E&H1).
    { rewrite Hinc. intros t c i saved _. apply has_versions_whole. }
    rewrite Htup in E. apply wp_aget_tuple; [done|]. eapply wp_intro; [exact E|].
    intros me tr. by apply HQ.
  - unfold aget_tuple. apply wp_bind, wp_gets. by rewrite En.
Qed.

Lemma list_in_at how s config filter_by before limit md tup :
  let m := sview s in
  (native_async s = true → async_store) → incremental s = false →
  sok s → content_ok (incremental s) m →
  from_option config_text True config → asked_decodes s config md tup →
  wp (list_in how config filter_by before limit) s (λ l s', ∃ names, lists_names m config names ∧
    l = room limit 0 (list_answer m filter_by (truthy_id (before ≫= get_checkpoint_id))
          (truthy_id (config ≫= get_checkpoint_id)) md tup names) ∧ at_view m s s').
Proof.
  intros m Hn Hinc Hs Hm Hc Hd.
  destruct how; [by apply list_checkpoints_at|]. cbn [list_in]. destruct (native_async s) eqn:En.
  - apply alist_at; try done; [by apply Hn|]. intros t c i saved _ _. rewrite Hinc. apply has_versions_whole.
  - unfold alist. apply wp_bind, wp_gets. rewrite En. cbn [negb]. by apply list_checkpoints_at.
Qed.

(** *** Putting *)

(** The pointer that [put] leaves names the newest checkpoint. *)
Lemma put_leaves_newest s held r t c i record :
  implements false s held r → SEP ∉ t → id_increases r t c i →
  pointer_newest (put_view (sview s) (publishes s t c i) t c i record []) t c.
Proof.
  intros Him Ht Hi. pose proof (im_agrees _ _ _ _ Him) as Hag.
  assert (∀ j, is_Some (sview s !! (ckpt_ns t c, j)) ↔ j ∈ ids_of (rs_data r) t c) as Hids.
  { intros j. rewrite ids_of_elem. by apply (option_Forall2_is_Some _ _ _ (ag_ckpts _ _ _ Hag t c j Ht)). }
  apply put_pointer_newest; [done|by apply (ag_pointer _ _ _ Hag)|].
  assert (∀ j, is_Some (sview s !! (ckpt_ns t c, j)) → str_le j i) as Hmax.
  { intros j Hj%Hids. destruct Hi as [Hi|[_ Hi]%py_max_Some]; [|by apply Hi].
    apply ids_of_elem in Hj. destruct (im_ids _ _ _ _ Him t c j Hj) as (y&Hy&Hjy).
    apply str_lt_le, (str_le_lt_trans j y i); [done|by apply Hi]. }
  unfold publishes. rewrite (im_indexed _ _ _ _ Him). cbn [negb andb].
  destruct (max_seen s !! (t, c)) as [h|] eqn:Eh; [|exact Hmax].
  destruct (str_ltb h i) eqn:Ehi; [exact Hmax|].
  destruct Hi as [Hi|[Hi _]%py_max_Some]; [|by apply Hids].
  destruct (im_hints _ _ _ _ Him t c h Eh) as (y&Hy&Hhy).
  specialize (Hi y Hy). pose proof (str_le_lt_trans _ _ _ Hhy Hi) as Hlt. unfold str_lt in Hlt. congruence.
Qed.

Lemma hints_after_bounded s h t c i :
  hints_bounded h (max_seen s) → hints_bounded (raise_high t c i h) (hints_after s t c i).
Proof.
  intros Hh t' c' x. unfold hints_after. destruct (publishes s t c i).
  - destruct (decide ((t', c') = (t, c))) as [[= -> ->]|Hne].
    + rewrite bounded_set_eq. intros [= <-]. apply raise_high_bounds.
    + intros Hx%bounded_set_ne; [|done]. by apply raise_high_grows, Hh.
  - intros Hx. by apply raise_high_grows, Hh.
Qed.

Lemma id_of_Some checkpoint i :
  from_option id [] (id_of checkpoint) = i → i ≠ [] → py_getitem checkpoint (key "id") = Ok (PStr i).
Proof.
  unfold id_of. destruct (py_getitem _ _) as [[| | | | |j| | | |]| |]; cbn; try (by intros <-).
Qed.

Lemma simulates_put indexed fuel s held r how config checkpoint metadata nv :
  implements indexed s held r → scall_ok indexed r (SPut how config checkpoint metadata nv) →
  wp (put_in how fuel config checkpoint metadata nv) s (λ config' s',
    SConfig config' = (ref_scall (SPut how config checkpoint metadata nv) r).1 ∧
    implements indexed s' held (ref_scall (SPut how config checkpoint metadata nv) r).2).
Proof.
  intros Him. cbn [scall_ok ref_scall fst snd]. set (t := cfg_thread_id config). set (c := cfg_ns config).
  remember (from_option id [] (id_of checkpoint)) as i eqn:Ei. symmetry in Ei.
  set (md := get_checkpoint_metadata config metadata). set (e := Build_RefEntry _ _ _).
  intros ((_&_&Ht&Hc)&Hconf&Hpar&Hti&Hne&Hinc&[tcp Hcp]%dumpable_ok&[tmd Hmd]%dumpable_ok&Hdict).
  pose proof (id_of_Some _ _ Ei Hne) as Hid. pose proof (im_agrees _ _ _ _ Him) as Hag.
  eapply (wp_put_in how s fuel config checkpoint metadata nv i tcp tmd []);
    try done; [by apply (native_async_store _ _ _ _ Him)|apply Him| |].
  { split; [done|by rewrite (im_whole _ _ _ _ Him)|exact Hcp|exact Hmd]. }
  fold t c. intros s1 H1. rewrite (im_unbounded _ _ _ _ Him). apply wp_ret. intros me tr. split; [done|].
  set (record := ck_record tcp tmd (cfg_checkpoint_id config)) in *.
  assert (agrees indexed (put_view (sview s) (publishes s t c i) t c i record []) (ref_put t c i e (rs_data r)))
    as Hag'.
  { apply agrees_put; try done; [by exists tcp, tmd|].
    intros ->. apply (put_leaves_newest s held r); [done..|]. by destruct Hinc. }
  pose proof (implements_raise _ _ _ _ (raise_high t c i (rs_high r)) Him (raise_high_grows t c i _)) as Him'.
  eapply implements_move; [exact Him'|exact H1|done|done|done|done|exact Hag'| |].
  - by apply hints_after_bounded, Him.
  - by apply ids_bounded_put, Him.
Qed.

(** *** The other calls *)

Lemma simulates_put_writes indexed s held r how config writes task path :
  implements indexed s held r → scall_ok indexed r (SPutWrites how config writes task path) →
  wp (put_writes_in how config writes task path) s (λ _ s',
    implements indexed s' held (ref_scall (SPutWrites how config writes task path) r).2).
Proof.
  intros Him ((Hvt&Hvc&Ht&Hc)&(i&Hi&Hvi)&Htext&Hdump). pose proof (im_agrees _ _ _ _ Him) as Hag.
  destruct (write_rows_total config writes task path i Hi Hdump) as [rows Hrows].
  pose proof (write_rows_inv _ _ _ _ _ _ Hrows) as (i'&Hi'&_&Hr).
  rewrite Hi in Hi'. injection Hi' as <-.
  eapply wp_put_writes_in; [by apply (native_async_store _ _ _ _ Him)|apply Him| |exact Htext|exact Hrows|].
  { auto with text. }
  intros s1 H1 me tr. cbn [ref_scall snd].
  eapply implements_move; [exact Him|exact H1|done|done|done|done| |apply Him|].
  - unfold ref_put_writes. rewrite Hi. cbn [from_option id with_data rs_data].
    by apply (agrees_put_writes _ _ _ _ _ _ task path).
  - apply Him.
Qed.

Lemma simulates_get_tuple indexed s held r how config :
  implements indexed s held r → scall_ok indexed r (SGetTuple how config) →
  wp (get_tuple_in how config) s (λ tup s', tup = ref_get_tuple config (rs_data r) ∧ implements indexed s' held r).
Proof.
  intros Him [Hname Hconf]. pose proof (im_agrees _ _ _ _ Him) as Hag.
  eapply wp_get_tuple_in; [by apply (native_async_store _ _ _ _ Him)|apply Him|done| | |].
  { rewrite (im_whole _ _ _ _ Him). apply Hag. }
  { apply (im_whole _ _ _ _ Him). }
  rewrite (im_indexed _ _ _ _ Him), (agrees_get _ _ _ Hag config Hname).
  eexists. split; [done|]. intros s1 H1 me tr. split; [done|].
  eapply implements_move; [exact Him|exact H1|done|done|done|done| |apply Him|apply Him].
  by apply agrees_published.
Qed.

Lemma simulates_list indexed s held r how config filter_by before limit :
  implements indexed s held r → scall_ok indexed r (SList how config filter_by before limit) →
  wp (list_in how config filter_by before limit) s (λ l s',
    by_namespace l = by_namespace (ref_list config filter_by before limit (rs_data r)) ∧
    implements indexed s' held r).
Proof.
  intros Him [Hc Hlimit]. pose proof (im_agrees _ _ _ _ Him) as Hag.
  eapply wp_mono.
  { apply (list_in_at how s config filter_by before limit (md_found (rs_data r)) (tuple_found (rs_data r))); try done.
    - by apply (native_async_store _ _ _ _ Him).
    - apply Him.
    - apply Him.
    - rewrite (im_whole _ _ _ _ Him). apply Hag.
    - intros t c i _ Ht Hc' _. eapply agrees_decodes; [exact Hag|apply Him|done..]. }
  intros l s1 (names&Hnames&->&H1). split; [by eapply agrees_list|].
  eapply implements_plain; [exact Him|exact H1|done|done|done|done|exact Hag|apply Him|apply Him].
Qed.

Lemma simulates_delete indexed s held r how t :
  implements indexed s held r → scall_ok indexed r (SDeleteThread how t) →
  wp (delete_thread_in how t) s (λ _ s', implements indexed s' held (ref_scall (SDeleteThread how t) r).2).
Proof.
  intros Him [Hvt Ht]. pose proof (im_agrees _ _ _ _ Him) as Hag.
  replace (delete_thread_in how t) with (delete_thread (S:=S) t) by by destruct how.
  eapply wp_mono; [apply delete_thread_run; [apply Him|done..]|]. intros [] s1 H1. cbn beta in H1.
  rewrite (im_indexed _ _ _ _ Him) in H1.
  eapply implements_plain; [exact Him|exact H1|done|done|done|done|by apply agrees_delete| |].
  - by apply hints_bounded_forget, Him.
  - by apply ids_bounded_delete, Him.
Qed.

Lemma simulates_copy indexed s held r how src t :
  implements indexed s held r → scall_ok indexed r (SCopyThread how src t) →
  wp (copy_thread_in how src t) s (λ _ s', implements indexed s' held (ref_scall (SCopyThread how src t) r).2).
Proof.
  intros Him (Hvs&Hvt&Hsrc&Ht&Hdump). replace (copy_thread_in how) with (copy_thread (S:=S)) by by destruct how.
  cbn [ref_scall]. destruct (str_eqb_spec src t) as [->|Hne].
  { unfold copy_thread. rewrite str_eqb_refl. by apply wp_ret. }
  pose proof (im_agrees _ _ _ _ Him) as Hag. pose proof (im_ok _ _ _ _ Him) as Hs. set (d := rs_data r) in *.
  assert (∀ ns k v, sview s !! (ns, k) = Some v → storable v) as Hst by (intros ns k v Hk; by apply (sv_text _ _ _ _ Hs Hk)).
  eapply wp_mono.
  { apply (copy_thread_at src t s); try done.
    - intros kind Hk rest k v Hv _. unfold moved. destruct (str_eqb_spec kind (lit "ck")) as [->|]; [|by eauto].
      pose proof (agrees_record _ _ _ Hag src rest k Hsrc) as Hr.
      change (kind_ns (lit "ck") src rest) with (ckpt_ns src rest) in Hv.
      destruct (rd_ckpts d !! (src, rest, k)) as [e|] eqn:Ee; [|congruence].
      destruct Hr as (saved&Hm&Hse). rewrite Hv in Hm. injection Hm as <-.
      destruct (retarget_stored src t v e Hse (Hst _ _ _ Hv) (Hdump _ _ _ Ee)) as (w&->&_&Hw). done.
    - intros m1 Hm1 c i Hi. by apply (copied_ids indexed (sview s) m1 d src t) with (t' := t). }
  intros [] s' (m1&m'&hints'&Hm1&H'&Hps). rewrite (im_indexed _ _ _ _ Him) in Hps.
  assert (agrees indexed m' (ref_copy_thread src t d)) as Hag'.
  { eapply (copied_agrees indexed (sview s) m1 d src t); try done.
    - intros ->. by destruct Hps.
    - intros ->. exact Hps. }
  pose proof (implements_raise _ _ _ _ (raise_all t (thread_ids d src) (rs_high r)) Him
    (raise_all_grows t (thread_ids d src) _)) as Him'.
  eapply implements_plain; [exact Him'|exact H'|done|done|done|done|exact Hag'| |].
  - cbn [rs_high max_seen set_max_seen]. intros t' c x Hx.
    assert (max_seen s !! (t', c) = Some x ∨ (indexed = false ∧ t' = t ∧ newest_in m1 t c = Some x)) as [Hold|(->&->&Hnew)].
    { destruct indexed; [left; by destruct Hps as [_ <-]|].
      apply (ps_hints _ _ _ _ _ _ Hps) in Hx as [?|[? ?]]; [by left|by right]. }
    + by apply raise_all_grows, (im_hints _ _ _ _ Him).
    + apply (ids_bounded_copy src t (rs_high r) d Hne (im_ids _ _ _ _ Him)).
      apply py_max_ref_keys in Hnew as [Hi _].
      by apply (option_Forall2_is_Some _ _ _ (copied_ckpts false (sview s) m1 d src t Hag Hm1 Hst Hsrc Ht Hne Hdump t c x Ht)).
  - by apply ids_bounded_copy, Him.
Qed.

Lemma simulates_history indexed s held r how fuel config channels :
  implements indexed s held r → scall_ok indexed r (SHistory how fuel config channels) →
  wp (history_in how fuel config channels) s (λ l s',
    l = ref_history config channels (rs_data r) ∧ implements indexed s' held r).
Proof.
  intros Him (Hname&Hc&Hok&Hfuel). pose proof (im_agrees _ _ _ _ Him) as Hag.
  replace (history_in how) with (get_delta_channel_history (S:=S)) by by destruct how.
  eapply wp_mono; [apply (history_at s indexed (rs_data r)); try done; apply Him|].
  intros l s1 [-> (m'&Hag'&H1)]. split; [done|].
  eapply implements_plain; [exact Him|exact H1|done|done|done|done|exact Hag'|apply Him|apply Him].
Qed.

(** An operation that only drops checkpoints. *)
Lemma implements_less indexed s held r s' d' :
  implements indexed s held r → narrowed s s' → agrees indexed (sview s') d' →
  (∀ p e, rd_ckpts d' !! p = Some e → rd_ckpts (rs_data r) !! p = Some e) →
  implements indexed s' held (with_data d' r).
Proof.
  intros Him (hints&floors&Hh&H') Hag Hless.
  eapply implements_plain; [exact Him|exact H'|done|done|done|done|exact Hag| |].
  - intros t c x Hx. apply (im_hints _ _ _ _ Him). by eapply lookup_weaken.
  - eapply ids_bounded_less; [exact Hless|apply Him].
Qed.

Lemma implements_holding indexed s held r : implements indexed s held r → holding indexed s (rs_data r).
Proof. intros Him. split; apply Him. Qed.

Lemma simulates_delete_for_runs indexed s held r how run_ids :
  implements indexed s held r → scall_ok indexed r (SDeleteForRuns how run_ids) →
  wp (delete_for_runs_in how run_ids) s (λ _ s',
    implements indexed s' held (ref_scall (SDeleteForRuns how run_ids) r).2).
Proof.
  intros Him Hok. replace (delete_for_runs_in how) with (delete_for_runs (S:=S)) by by destruct how.
  eapply wp_mono; [by eapply delete_for_runs_at; [by eapply implements_holding|]|]. intros [] s' [Hag Hn].
  eapply implements_less; [done..|]. apply drop_ckpts_Some.
Qed.

Lemma simulates_prune indexed s held r how fuel thread_ids strategy :
  implements indexed s held r → scall_ok indexed r (SPrune how fuel thread_ids strategy) →
  wp (prune_in how fuel thread_ids strategy) s (λ _ s',
    implements indexed s' held (ref_scall (SPrune how fuel thread_ids strategy) r).2).
Proof.
  intros Him [Hst Hts]. replace (prune_in how) with (prune (S:=S)) by by destruct how.
  eapply wp_mono; [by eapply prune_at; [by eapply implements_holding|..]|]. intros [] s' [Hag Hn].
  eapply implements_less; [done..|]. apply prune_less.
Qed.

Lemma simulates_snapshot indexed s held r now :
  implements indexed s held r →
  wp (on_store (op_snapshot now)) s (λ d s',
    implements indexed s' (held ++ [d]) (ref_scall (SSnapshot now) r).2).
Proof.
  intros Him. eapply wp_mono.
  { apply (on_store_at _ _ (sview s) (λ d, snap_holds d (sview s))), snapshot_spec, Him. }
  intros d s1 [H1 Hd].
  assert (implements indexed s1 held r) as [H2 H3 H4 H5 Hn H6 H7 H8 H9].
  { eapply implements_plain; [exact Him|exact H1|done|done|done|done|apply Him|apply Him|apply Him]. }
  cbn [ref_scall snd]. split; cbn [rs_data rs_snaps rs_high]; try done.
  apply Forall2_app; [done|]. constructor; [|constructor]. split; [apply Him|].
  exists (sview s). split; [done|apply Him].
Qed.

Lemma simulates_restore indexed s held r n :
  implements indexed s held r → scall_ok indexed r (SRestore n) →
  ∃ snap, held !! n = Some snap ∧
    wp (on_store (op_restore snap)) s (λ _ s', implements indexed s' held (ref_scall (SRestore n) r).2).
Proof.
  intros Him Hn. cbn [scall_ok ref_scall snd] in *. apply lookup_lt_is_Some_2 in Hn as [d Hd].
  destruct (Forall2_lookup_r _ _ _ _ _ (im_snaps _ _ _ _ Him) Hd) as (snap&Hsnap&Hids&m&Hm&Hag).
  exists snap. split; [done|]. rewrite Hd. eapply wp_mono.
  { apply (on_store_at _ _ m (λ _, True)). eapply wp_mono; [by apply restore_spec; [apply Him|]|].
    by intros [] st ?. }
  intros [] s1 [H1 _]. eapply implements_plain; [exact Him|exact H1|done|done|done|done|exact Hag|apply Him|done].
Qed.

(** *** Runs *)

Lemma simulates_call indexed fuel s held r call :
  implements indexed s held r → scall_ok indexed r call →
  wp (run_scall fuel held call) s (λ a s',
    a.1 = (ref_scall call r).1 ∧ implements indexed s' a.2 (ref_scall call r).2).
Proof.
  intros Him Hok. destruct call; cbn [run_scall].
  - eapply wp_bind_mono; [by apply (simulates_put indexed)|]. intros config' s' [? ?]. by apply wp_ret.
  - eapply wp_bind_mono; [by apply (simulates_put_writes indexed)|]. intros [] s' ?. by apply wp_ret.
  - eapply wp_bind_mono; [by apply (simulates_get_tuple indexed)|].
    intros tup s' [-> ?]. by apply wp_ret.
  - eapply wp_bind_mono; [by apply (simulates_list indexed)|]. intros l s' [Hl ?]. apply wp_ret. by rewrite Hl.
  - eapply wp_bind_mono; [by apply (simulates_delete indexed)|]. intros [] s' ?. by apply wp_ret.
  - eapply wp_bind_mono; [by apply (simulates_copy indexed)|]. intros [] s' ?. apply wp_ret.
    split; [|done]. cbn [ref_scall]. by destruct (str_eqb _ _).
  - eapply wp_bind_mono; [by apply (simulates_history indexed)|]. intros l s' [-> ?]. by apply wp_ret.
  - eapply wp_bind_mono; [by apply (simulates_delete_for_runs indexed)|]. intros [] s' ?. by apply wp_ret.
  - eapply wp_bind_mono; [by apply (simulates_prune indexed)|]. intros [] s' ?. by apply wp_ret.
  - eapply wp_bind_mono; [by apply (simulates_snapshot indexed)|]. intros d s' ?. by apply wp_ret.
  - destruct (simulates_restore indexed s held r n Him Hok) as (snap&Hsnap&Hr).
    rewrite Hsnap. apply wp_bind, (wp_lift _ snap); [done|].
    eapply wp_bind_mono; [exact Hr|]. intros [] s' ?. by apply wp_ret.
Qed.

Lemma simulates_calls indexed fuel calls s held r :
  implements indexed s held r → scalls_ok indexed r calls →
  wp (run_scalls fuel held calls) s (λ a s',
    a.1 = (ref_scalls calls r).1 ∧ implements indexed s' a.2 (ref_scalls calls r).2).
Proof.
  revert s held r. induction calls as [|call calls IH]; intros s held r Him Hok; [done|].
  destruct Hok as [Hcall Hcalls]. cbn [run_scalls ref_scalls].
  eapply wp_bind_mono; [by apply simulates_call|]. intros [a held1] s1 [Ha H1].
  destruct (ref_scall call r) as [a' r1]. cbn [fst snd] in *. subst a'.
  eapply wp_bind_mono; [by apply IH|]. intros [l held2] s2 [Hl H2].
  destruct (ref_scalls calls r1) as [l' r2]. cbn [fst snd] in *. subst l'. by apply wp_ret.
Qed.

(** A new saver on an empty store. *)
Lemma implements_init st me tr s :
  sv_ok st → sv_view st = ∅ → Saver_init st false None me tr = Ok s →
  implements op_indexed_max_key s [] RefSaver_empty.
Proof.
  intros Hok Hv [= <-]. split; try done.
  - change (agrees op_indexed_max_key (sv_view st) RefData_empty). rewrite Hv. apply agrees_empty.
  - intros t c i Hi. cbn in Hi. rewrite lookup_empty in Hi. by destruct Hi.
Qed.

(** The answers a new saver gives. *)
Lemma run_answers fuel st me tr s calls :
  sv_ok st → sv_view st = ∅ → Saver_init st false None me tr = Ok s →
  scalls_ok op_indexed_max_key RefSaver_empty calls →
  ∃ held s', run_scalls fuel [] calls s = (Ok ((ref_scalls calls RefSaver_empty).1, held), s').
Proof.
  intros Hok Hv Hinit Hcalls.
  destruct (wp_elim _ _ _ (simulates_calls _ fuel calls s [] RefSaver_empty
    (implements_init st me tr s Hok Hv Hinit) Hcalls)) as ([a held]&s'&E&Ha&_).
  cbn [fst] in Ha. subst a. by exists held, s'.
Qed.
End simulation.

Section theorems.
Context {S : Type} {ops : StoreOps S} {spec : StoreSpec S} {snaps : SnapshotOps S}.
Context {snaplaws : SnapshotLaws valid_text S} `{lg : !LangGraph} `{lgspec : !LangGraphSpec}.
Implicit Types (s : Saver S).

(** C1: [SwarmStateSaver] is a LangGraph checkpointer. Start one on an empty store
    that keeps the contract (not [incremental], no retention bound) and make any
    sequence of [put], [put_writes], [get_tuple], [list], [delete_thread],
    [copy_thread], [delete_for_runs], [prune] and [get_delta_channel_history] calls
    (all the methods of a checkpointer), each direct or awaited, over
    any threads and namespaces, with snapshots and restores of the whole store in
    between: every call returns, and answers what a
    checkpointer answers that is nothing but a map from (thread, namespace, id) to
    checkpoints and pending writes. Namespaces of the store, encoded records, latest
    pointers, hints, the backend's optional methods and the async twins never show.
    [list] is asked with any filter and any [before], over the whole store, a thread, a
    namespace or one checkpoint id; over several namespaces it is asked without a
    limit, and its tuples are compared namespace by namespace, since the order of the
    namespaces is the store's own.
    The caller must give ids that increase (as LangGraph's do), text names without the
    separator, metadata that are dictionaries, and values the serializer takes (metadata
    of a copied thread included); runs are deleted where the [run_id]s can be hashed, and
    threads pruned where the counters of delta channels have names; the walks up a parent chain need
    parents older than their children, and more rounds than there are checkpoints. *)
Theorem saver_refines_reference fuel st me tr s calls :
  (op_supports_async = true → async_store) →
  sv_ok st → sv_view st = ∅ → Saver_init st false None me tr = Ok s →
  scalls_ok op_indexed_max_key RefSaver_empty calls →
  ∃ held s',
    run_scalls fuel [] calls s = (Ok ((ref_scalls calls RefSaver_empty).1, held), s').
Proof. intros Hnative. by apply run_answers. Qed.
End theorems.

(** ** Example

    A thread is put, written to, snapshot, put again, read, restored and read; its
    history is read, and it is copied to another thread and deleted. The copy is
    pruned to its newest checkpoint, whose run is deleted in the end. *)

Definition ex_other : pystr := lit "t2".

(** Metadata with the counters of a delta channel and a run. *)
Definition ex_run_metadata : pyval :=
  PDict [(PStr DELTA_COUNTERS, PDict [(key "a", PInt 3)]); (key "run_id", key "r1")].

Definition ex_put_in (t : pystr) (i : String.string) (parent : option pystr) (metadata : pyval) : SCall :=
  SPut Called {| cfg_thread_id := t; cfg_checkpoint_ns := Some []; cfg_checkpoint_id := parent;
                 cfg_metadata := PNone |} (PDict (ex_checkpoint i)) metadata ex_versions.

Definition ex_put (i : String.string) (parent : option pystr) : SCall :=
  ex_put_in ex_thread i parent ex_metadata.

Definition ex_calls : list SCall :=
  [ex_put "c1" None;
   SPutWrites Awaited (ex_config (Some (lit "c1"))) [(lit "a", PInt 8)] (lit "task") [];
   SSnapshot 5;
   ex_put "c2" (Some (lit "c1"));
   SGetTuple Called (ex_config None);
   SRestore 0;
   SGetTuple Awaited (ex_config None);
   ex_put "c3" (Some (lit "c1"));
   SHistory Awaited 3 (ex_config None) [lit "a"; lit "z"];
   SList Awaited (Some (ex_config None)) [(lit "step", PInt 1)] None (Some 1%Z);
   SCopyThread Awaited ex_thread ex_other;
   SList Called (Some (mk_config ex_thread [] (lit "c1"))) [] None None;
   SList Awaited None [] (Some (mk_config ex_thread [] (lit "c2"))) None;
   SDeleteThread Called ex_thread;
   SGetTuple Called (ex_config None);
   SGetTuple Called (mk_config ex_other [] (lit "c1"));
   ex_put_in ex_other "c5" (Some (lit "c3")) ex_run_metadata;
   SPrune Awaited 9 [ex_other] (lit "keep_latest");
   SGetTuple Called (mk_config ex_other [] (lit "c1"));
   SGetTuple Called (mk_config ex_other [] (lit "c5"));
   SDeleteForRuns Called [lit "r0"; lit "r1"];
   SGetTuple Called (mk_config ex_other [] (lit "c5"))].

Definition ex_tuple (i : String.string) (parent : option pystr) (pending_writes : list pending) : CheckpointTuple :=
  {| ct_config := mk_config ex_thread [] (lit i); ct_checkpoint := PDict (ex_checkpoint i);
     ct_metadata := ex_metadata; ct_parent_config := mk_config ex_thread [] <$> parent;
     ct_pending_writes := pending_writes |}.

Definition ex_copied : CheckpointTuple :=
  {| ct_config := mk_config ex_other [] (lit "c1"); ct_checkpoint := PDict (ex_checkpoint "c1");
     ct_metadata := ex_metadata; ct_parent_config := None;
     ct_pending_writes := [(key "task", key "a", PInt 8)] |}.

Definition ex_answers : list SAnswer :=
  [SConfig (mk_config ex_thread [] (lit "c1")); SDone; SDone;
   SConfig (mk_config ex_thread [] (lit "c2"));
   STuple (Some (ex_tuple "c2" (Some (lit "c1")) []));
   SDone;
   STuple (Some (ex_tuple "c1" None [(key "task", key "a", PInt 8)]));
   SConfig (mk_config ex_thread [] (lit "c3"));
   SEntries [(lit "a", {| de_writes := [(key "task", key "a", PInt 8)]; de_seed := Some (PInt 7) |});
             (lit "z", {| de_writes := []; de_seed := None |})];
   STuples [ex_tuple "c3" (Some (lit "c1")) []];
   SDone;
   STuples [ex_tuple "c1" None [(key "task", key "a", PInt 8)]];
   STuples [ex_copied; ex_tuple "c1" None [(key "task", key "a", PInt 8)]];
   SDone;
   STuple None;
   STuple (Some ex_copied);
   SConfig (mk_config ex_other [] (lit "c5"));
   SDone;
   STuple None;
   STuple (Some {| ct_config := mk_config ex_other [] (lit "c5"); ct_checkpoint := PDict (ex_checkpoint "c5");
                   ct_metadata := ex_run_metadata; ct_parent_config := Some (mk_config ex_other [] (lit "c3"));
                   ct_pending_writes := [] |});
   SDone;
   STuple None].

(** The new saver of the examples. *)
Definition ex_new_saver : Saver kv := mkSaver ∅ false None None None ∅ ∅ true false true.

Lemma ex_name_ok (parent : option pystr) : name_ok (cfg_thread_id (ex_config parent)) (cfg_ns (ex_config parent)).
Proof. split_and!; by apply (bool_decide_unpack _). Qed.

Lemma ex_put_ok r t (i : String.string) (parent : option pystr) metadata :
  name_ok t [] → text_ok (lit i) = true → lit i ≠ [] → opt_text_ok parent →
  dumpable (PDict (ex_checkpoint i)) → dumpable metadata → is_dict metadata = true →
  match rs_high r !! (t, []) with Some x => str_ltb x (lit i) | None => true end = true →
  scall_ok false r (ex_put_in t i parent metadata).
Proof.
  intros Ht Hti Hi Hp Hd Hdm Hdict Hh. cbn [scall_ok ex_put_in].
  change (from_option id [] (id_of (PDict (ex_checkpoint i)))) with (lit i).
  split_and!; try done; try apply Ht.
  - split_and!; [apply Ht..|]. intros j. cbn. intros ->. by apply text_ok_valid.
  - right. left. intros x Hx. change (rs_high r !! (t, []) = Some x) in Hx. by rewrite Hx in Hh.
Qed.

Lemma ex_get_ok how r : scall_ok false r (SGetTuple how (ex_config None)).
Proof. split; [apply ex_name_ok|by apply ex_config_valid]. Qed.

Lemma ex_other_ok r i : valid_text i → scall_ok false r (SGetTuple Called (mk_config ex_other [] i)).
Proof.
  intros Hi. split; [split_and!; by apply (bool_decide_unpack _)|].
  split_and!; [by apply (bool_decide_unpack _)..|]. by intros j [= <-].
Qed.

(** [history_ok], computed. *)
Definition history_check (d : RefData) (t c : pystr) : bool :=
  forallb (λ p, let '((t', c', i), e) := p in
    negb (bool_decide ((t', c') = (t, c))) ||
    match re_parent e with Some q => bool_decide (str_lt q i) | None => true end &&
    match py_getitem (re_checkpoint e) (key "channel_values") with Ok (PDict _) => true | _ => false end)
    (map_to_list (rd_ckpts d)).

Lemma history_checked d t c : history_check d t c = true → history_ok d t c.
Proof.
  unfold history_check. rewrite forallb_forall. intros H.
  assert (∀ i e, rd_ckpts d !! (t, c, i) = Some e →
    match re_parent e with Some q => bool_decide (str_lt q i) | None => true end = true ∧ holds_values e) as Hall.
  { intros i e He. apply elem_of_map_to_list, list_elem_of_In, H in He. cbn beta iota zeta in He.
    rewrite bool_decide_true in He by done. apply andb_true_iff in He as [Hp Hv]. split; [done|].
    unfold holds_values. destruct (py_getitem _ _) as [[| | | | | | | |values|]| |]; try done. by exists values. }
  split.
  - intros i e p [He _]%Hall Hp. rewrite Hp in He. by apply bool_decide_eq_true in He.
  - intros i e [_ He]%Hall. exact He.
Qed.

(** [prune_ok] of a thread, computed. *)
Definition prune_check (d : RefData) (fuel : nat) (t : pystr) : bool :=
  (length (map_to_list (rd_ckpts d)) <? fuel) &&
  forallb (λ p, negb (bool_decide (p.1.1.1 = t)) || history_check d t p.1.1.2 &&
    match delta_channels (re_metadata p.2) with
    | Ok counters => negb (truthy counters) || is_ok (name_set counters)
    | _ => false
    end) (map_to_list (rd_ckpts d)).

Lemma prune_checked d fuel t c : prune_check d fuel t = true → prune_ok d fuel t c.
Proof.
  unfold prune_check. rewrite andb_true_iff, forallb_forall. intros [Hfuel%Nat.ltb_lt Hall].
  assert (∀ i e, rd_ckpts d !! (t, c, i) = Some e → history_check d t c = true ∧ counters_ok (re_metadata e)) as H.
  { intros i e He. apply elem_of_map_to_list, list_elem_of_In, Hall in He. cbn [fst snd] in He.
    rewrite bool_decide_true in He by done. apply andb_true_iff in He as [Hh Hc]. split; [done|].
    unfold counters_ok. destruct (delta_channels _) as [counters| |]; [|done..]. exists counters. split; [done|].
    intros Ht. rewrite Ht in Hc. cbn [negb orb] in Hc. destruct (name_set counters); [by eexists|done..]. }
  split; [split|split].
  - intros i e p He. destruct (H _ _ He) as [Hh _]. by apply (proj1 (history_checked _ _ _ Hh)).
  - intros i e He. destruct (H _ _ He) as [Hh _]. by apply (proj2 (history_checked _ _ _ Hh) i).
  - intros i e He. by destruct (H _ _ He).
  - eapply Nat.le_lt_trans; [|exact Hfuel]. unfold ids_of. rewrite length_fmap, <-(length_fmap fst (map_to_list _)).
    apply length_filter.
Qed.

Definition runs_check (d : RefData) : bool :=
  forallb (λ p, match run_of (re_metadata p.2) with PList _ | PDict _ => false | _ => true end)
    (map_to_list (rd_ckpts d)).

Lemma runs_checked d p e : runs_check d = true → rd_ckpts d !! p = Some e → hashable (run_of (re_metadata e)).
Proof.
  unfold runs_check. rewrite forallb_forall. intros H He. apply elem_of_map_to_list, list_elem_of_In, H in He.
  cbn [snd] in He. by destruct (run_of _).
Qed.

(** The metadata of a thread can be stored again. *)
Definition copy_check (d : RefData) (src t : pystr) : bool :=
  forallb (λ p, negb (bool_decide (p.1.1.1 = src)) || is_ok (dumps_typed (moved_metadata src t (re_metadata p.2))))
    (map_to_list (rd_ckpts d)).

Lemma copy_checked d src t c i e : copy_check d src t = true →
  rd_ckpts d !! (src, c, i) = Some e → dumpable (moved_metadata src t (re_metadata e)).
Proof.
  unfold copy_check. rewrite forallb_forall. intros H He.
  apply elem_of_map_to_list, list_elem_of_In, H in He. cbn [fst snd] in He. by rewrite bool_decide_true in He.
Qed.

Lemma ex_calls_ok : scalls_ok false RefSaver_empty ex_calls.
Proof.
  cbn [scalls_ok ex_calls].
  split; [apply ex_put_ok; [apply (ex_name_ok None)|by vm_compute..]|].
  split.
  { split_and!; [apply ex_name_ok| | |].
    - exists (lit "c1"). split; [done|by apply (bool_decide_unpack _)].
    - split_and!; [by vm_compute..|]. by repeat constructor.
    - by repeat constructor. }
  split; [done|]. split; [apply ex_put_ok; [apply (ex_name_ok None)|by vm_compute..]|]. split; [apply ex_get_ok|].
  split; [cbn; lia|]. split; [apply ex_get_ok|]. split; [apply ex_put_ok; [apply (ex_name_ok None)|by vm_compute..]|].
  split.
  { split_and!; [apply ex_name_ok|by apply ex_config_valid|apply history_checked; by vm_compute|].
    apply (bool_decide_unpack _). by vm_compute. }
  split. { split; [split; [by apply (bool_decide_unpack _)|done]|right; by eexists]. }
  split.
  { split_and!; [by apply (bool_decide_unpack _)..|]. intros c i e. apply copy_checked. by vm_compute. }
  split. { split; [split; by apply (bool_decide_unpack _)|by left]. }
  split. { split; [done|by left]. }
  split. { split; by apply (bool_decide_unpack _). }
  split; [apply ex_get_ok|]. split; [apply ex_other_ok; by apply (bool_decide_unpack _)|].
  split; [apply ex_put_ok; [split_and!; by apply (bool_decide_unpack _)|by vm_compute..]|].
  split.
  { split; [by left|]. constructor; [|done]. split_and!; [by apply (bool_decide_unpack _)..|].
    intros c. apply prune_checked. by vm_compute. }
  do 2 (split; [apply ex_other_ok; by apply (bool_decide_unpack _)|]).
  split. { intros p e. apply runs_checked. by vm_compute. }
  split; [|done]. apply ex_other_ok; by apply (bool_decide_unpack _).
Qed.

Lemma ref_async_store indexed : async_store (ops:=ref_ops true true indexed) (spec:=ref_spec true true indexed).
Proof. split; [by eexists..|done]. Qed.

Lemma saver_refines_reference_witness : ∃ held s',
  run_scalls (ops:=full_ops) (snaps:=ref_snapshots) 0 [] ex_calls ex_new_saver =
    (Ok (ex_answers, held), s').
Proof.
  pose proof (saver_refines_reference (ops:=full_ops) (spec:=ref_spec true true false)
    (snaps:=ref_snapshots) (snaplaws:=ref_snapshot_laws true true false) 0 ∅ None None ex_new_saver ex_calls
    (λ _, ref_async_store false) kv_ok_empty eq_refl eq_refl ex_calls_ok) as (held&s'&E).
  exists held, s'. rewrite E.
  replace (ref_scalls ex_calls RefSaver_empty).1 with ex_answers by (vm_compute; reflexivity). done.
Defined.
