(* ===== verification/SaverRuns.v ===== *)
(** * What runs of the saver tell

    Consequences of the simulation: restoring a snapshot rewinds every thread,
    threads do not see each other, and the default store is one of the stores
    all of this holds for. *)

From S2P Require Import Prelude PyValue Store SnapshotLaws Saver SaverOps SaverRead.
From S2P Require Import SaverLemmas SaverSpec SaverPut SaverTheorems SaverWrites SaverList.
From S2P Require Import SaverAsync SaverReference SaverRefinement SaverHistory SaverCopy SaverDrop SaverSimulation SaverExample.
From S2P Require Import RustStore RustStoreTheorems RustStoreProps SnapshotBackends.

Section reference.
Context `{lg : !LangGraph}.
Implicit Types (r : RefSaver) (call : SCall) (calls : list SCall).

Lemma ref_scalls_app l1 l2 r :
  ref_scalls (l1 ++ l2) r =
    ((ref_scalls l1 r).1 ++ (ref_scalls l2 (ref_scalls l1 r).2).1,
     (ref_scalls l2 (ref_scalls l1 r).2).2).
Proof.
  revert r. induction l1 as [|call l1 IH]; intros r; cbn [app ref_scalls fst snd].
  - by destruct (ref_scalls l2 r).
  - destruct (ref_scall call r) as [a r1]. rewrite IH. destruct (ref_scalls l1 r1) as [l r2]. done.
Qed.

Lemma scalls_ok_app indexed l1 l2 r :
  scalls_ok indexed r (l1 ++ l2) ↔ scalls_ok indexed r l1 ∧ scalls_ok indexed (ref_scalls l1 r).2 l2.
Proof.
  revert r. induction l1 as [|call l1 IH]; intros r; cbn [app scalls_ok ref_scalls snd]; [tauto|].
  rewrite IH. destruct (ref_scall call r) as [a r1]. cbn [snd]. destruct (ref_scalls l1 r1). cbn [snd]. tauto.
Qed.

(** ** Snapshots are kept *)

Lemma snaps_kept calls r n d : rs_snaps r !! n = Some d → rs_snaps (ref_scalls calls r).2 !! n = Some d.
Proof.
  revert r. induction calls as [|call calls IH]; intros r Hn; [done|]. cbn [ref_scalls].
  assert (rs_snaps (ref_scall call r).2 !! n = Some d) as Hn'.
  { destruct call; try done; cbn; [by destruct (str_eqb _ _)|by apply lookup_app_l_Some]. }
  destruct (ref_scall call r) as [a r1]. cbn [snd] in Hn'. apply IH in Hn'.
  by destruct (ref_scalls calls r1).
Qed.

(** A call that only reads. *)
Definition is_read call : Prop :=
  match call with SGetTuple _ _ | SList _ _ _ _ _ | SHistory _ _ _ _ => True | _ => False end.

Lemma reads_same calls r r' :
  Forall is_read calls → rs_data r = rs_data r' → (ref_scalls calls r).1 = (ref_scalls calls r').1.
Proof.
  intros Hreads Hd. induction Hreads as [|call calls Hc _ IH]; [done|]. cbn [ref_scalls].
  assert (ref_scall call r = ((ref_scall call r').1, r) ∧ ref_scall call r' = ((ref_scall call r').1, r'))
    as [-> ->] by (destruct call; try done; cbn; by rewrite Hd).
  destruct (ref_scalls calls r), (ref_scalls calls r'). cbn in *. by rewrite IH.
Qed.

Definition is_snapshot call : bool := match call with SSnapshot _ => true | _ => false end.
Definition snapshots_in calls : nat := length (filter is_snapshot calls).

Lemma snapshots_counted calls r :
  length (rs_snaps (ref_scalls calls r).2) = length (rs_snaps r) + snapshots_in calls.
Proof.
  revert r. induction calls as [|call calls IH]; intros r; [cbn; lia|]. cbn [ref_scalls].
  unfold snapshots_in in *. rewrite filter_cons. specialize (IH (ref_scall call r).2).
  assert (length (rs_snaps (ref_scall call r).2) =
    length (rs_snaps r) + if is_snapshot call then 1 else 0) as Hone.
  { destruct call; cbn; try (destruct (str_eqb _ _); cbn); rewrite ?length_app; cbn; lia. }
  destruct (ref_scall call r) as [a r1]. cbn [snd] in *. destruct (ref_scalls calls r1). cbn [snd] in *.
  rewrite IH, Hone. destruct (is_snapshot call); cbn [Is_true]; case_decide; try done; cbn [length]; lia.
Qed.

Lemma ref_scalls_length calls r : length (ref_scalls calls r).1 = length calls.
Proof.
  revert r. induction calls as [|call calls IH]; intros r; [done|]. cbn [ref_scalls length].
  destruct (ref_scall call r) as [a r1]. specialize (IH r1). destruct (ref_scalls calls r1).
  cbn [fst length] in *. by rewrite IH.
Qed.

(** The restore brings the content of the snapshot back. *)
Lemma restored_data before now between r :
  let r2 := (ref_scall (SSnapshot now) (ref_scalls before r).2).2 in
  rs_data (ref_scall (SRestore (length (rs_snaps r) + snapshots_in before)) (ref_scalls between r2).2).2 = rs_data r2.
Proof.
  intros r2. rewrite <-snapshots_counted.
  assert (rs_snaps (ref_scalls between r2).2 !! length (rs_snaps (ref_scalls before r).2) = Some (rs_data r2)) as Hn.
  { apply snaps_kept. cbn. rewrite lookup_app_r by done. by rewrite Nat.sub_diag. }
  cbn [ref_scall snd with_data rs_data]. by rewrite Hn.
Qed.

(** After the restore, the reads get what they would have got at the snapshot. *)
Lemma ref_rewinds before now between reads r :
  Forall is_read reads →
  let n := length (rs_snaps r) + snapshots_in before in
  ∃ a b answers,
    (ref_scalls (before ++ SSnapshot now :: reads) r).1 = a ++ answers ∧
    (ref_scalls (before ++ SSnapshot now :: between ++ SRestore n :: reads) r).1 = a ++ b ++ answers ∧
    length a = Datatypes.S (length before) ∧ length b = Datatypes.S (length between) ∧
    length answers = length reads.
Proof.
  intros Hreads n. set (r1 := (ref_scalls before r).2).
  set (r2 := (ref_scall (SSnapshot now) r1).2). set (r3 := (ref_scalls between r2).2).
  set (r4 := (ref_scall (SRestore n) r3).2).
  assert (rs_data r4 = rs_data r2) as Hdata by apply restored_data.
  exists ((ref_scalls before r).1 ++ [SDone]), ((ref_scalls between r2).1 ++ [SDone]), (ref_scalls reads r2).1.
  split_and!.
  - rewrite ref_scalls_app. fold r1. cbn [fst ref_scalls]. change (ref_scall (SSnapshot now) r1) with (SDone, r2).
    cbn [fst snd]. destruct (ref_scalls reads r2) as [l r5]. cbn [fst]. by rewrite <-app_assoc.
  - rewrite ref_scalls_app. fold r1. cbn [fst ref_scalls]. change (ref_scall (SSnapshot now) r1) with (SDone, r2).
    cbn [fst snd]. rewrite ref_scalls_app. fold r3. cbn [fst snd ref_scalls].
    change (ref_scall (SRestore n) r3) with (SDone, r4). cbn [fst snd].
    rewrite (reads_same reads r2 r4) by done. destruct (ref_scalls reads r4). cbn [fst].
    by rewrite <-!app_assoc.
  - rewrite length_app, ref_scalls_length. cbn. lia.
  - rewrite length_app, ref_scalls_length. cbn. lia.
  - apply ref_scalls_length.
Qed.

Lemma reads_allowed indexed r r' calls :
  Forall is_read calls → rs_data r = rs_data r' → scalls_ok indexed r calls → scalls_ok indexed r' calls.
Proof.
  intros Hreads Hd. induction Hreads as [|call calls Hc _ IH]; [done|]. cbn [scalls_ok].
  assert ((ref_scall call r).2 = r ∧ (ref_scall call r').2 = r') as [-> ->] by by destruct call.
  intros [Hok Hoks]. split; [|by apply IH]. destruct call; try done. cbn [scall_ok] in *. by rewrite <-Hd.
Qed.

(** ** Threads apart *)

Definition call_thread call : option pystr :=
  match call with
  | SPut _ config _ _ _ | SPutWrites _ config _ _ _ | SGetTuple _ config | SHistory _ _ config _ =>
      Some (cfg_thread_id config)
  | SList _ config _ _ _ => cfg_thread_id <$> config
  | SDeleteThread _ t | SCopyThread _ _ t => Some t
  | SDeleteForRuns _ _ | SPrune _ _ _ _ | SSnapshot _ | SRestore _ => None
  end.

(** A call on the thread, or on the store as a whole (but not a listing of the
    whole store, which shows all threads). *)
Definition concerns (t : pystr) call : bool :=
  match call with
  | SPrune _ _ thread_ids _ => bool_decide (t ∈ thread_ids)
  | SList _ None _ _ _ => false
  | _ => match call_thread call with Some t' => bool_decide (t' = t) | None => true end
  end.

(** A copy into a thread says something of another thread. *)
Definition copies_into (t : pystr) call : bool :=
  match call with SCopyThread _ _ t' => bool_decide (t' = t) | _ => false end.

Definition data_same (t : pystr) (d d' : RefData) : Prop :=
  (∀ c i, rd_ckpts d !! (t, c, i) = rd_ckpts d' !! (t, c, i)) ∧
  (∀ c i, writes_at d t c i = writes_at d' t c i).

Record thread_same (t : pystr) r r' : Prop := {
  ts_data : data_same t (rs_data r) (rs_data r');
  ts_snaps : Forall2 (data_same t) (rs_snaps r) (rs_snaps r');
  ts_high c : rs_high r !! (t, c) = rs_high r' !! (t, c);
}.

#[export] Instance data_same_equiv t : Equivalence (data_same t).
Proof.
  split; [done| |].
  - intros d d' [H1 H2]. by split.
  - intros d1 d2 d3 [H1 H2] [H3 H4]. split; intros; [by rewrite H1|by rewrite H2].
Qed.

#[export] Instance thread_same_equiv t : Equivalence (thread_same t).
Proof.
  split.
  - by intros r.
  - intros r r' [H1 H2 H3]. by split.
  - intros r1 r2 r3 [Ha Hb Hc] [Hd He Hf]. split; [by etrans|by etrans|]. intros. by rewrite Hc.
Qed.

Section same.
Context (t : pystr) (d d' : RefData) (Hd : data_same t d d').

Lemma same_ids c : ids_of d t c ≡ₚ ids_of d' t c.
Proof.
  apply NoDup_Permutation; [apply ids_of_NoDup..|]. intros i.
  by rewrite !ids_of_elem, (proj1 Hd).
Qed.

Lemma same_tuple c i e : tuple_of d t c i e = tuple_of d' t c i e.
Proof. unfold tuple_of. by rewrite (proj2 Hd). Qed.

Lemma same_newest c : newest_of d t c = newest_of d' t c.
Proof. apply py_max_perm, same_ids. Qed.

Lemma same_find config : cfg_thread_id config = t → ref_find config d = ref_find config d'.
Proof.
  intros Ht. unfold ref_find. rewrite Ht, same_newest.
  destruct (match truthy_id _ with Some i => _ | None => _ end) as [i|]; [|done].
  cbn [mbind option_bind]. by rewrite (proj1 Hd).
Qed.

Lemma same_get config : cfg_thread_id config = t → ref_get_tuple config d = ref_get_tuple config d'.
Proof.
  intros Ht. unfold ref_get_tuple. rewrite same_find by done. rewrite Ht.
  destruct (ref_find config d') as [[i e]|]; [|done]. cbn. by rewrite same_tuple.
Qed.

Lemma same_names config : cfg_thread_id config = t → ref_names (Some config) d = ref_names (Some config) d'.
Proof.
  intros Ht. unfold ref_names. f_equal. apply set_eq. intros [t' c].
  rewrite <-!(elem_of_elements (C:=gset (pystr * pystr))).
  change ((t', c) ∈ ref_names (Some config) d ↔ (t', c) ∈ ref_names (Some config) d').
  rewrite !ref_names_elem. cbn [config_names]. rewrite Ht.
  destruct (str_eqb_spec t' t) as [->|]; [|by split; intros [? _]]. by setoid_rewrite (proj1 Hd).
Qed.

Lemma same_list config filter_by before limit : cfg_thread_id config = t →
  ref_list (Some config) filter_by before limit d = ref_list (Some config) filter_by before limit d'.
Proof.
  intros Ht. unfold ref_list. rewrite same_names by done. f_equal. apply list_bind_ext_in.
  intros [t' c] [Hn _]%ref_names_elem. cbn [config_names fst snd] in *. rewrite Ht in Hn.
  destruct (str_eqb_spec t' t) as [->|]; [|done]. unfold ref_listed. rewrite (py_sorted_rev_eq _ _ (same_ids c)).
  apply list_omap_ext, Forall_Forall2_diag, Forall_true. intros i. rewrite (proj1 Hd).
  destruct (rd_ckpts d' !! _) as [e|]; [|done]. cbn. by rewrite same_tuple.
Qed.

Lemma same_lineage n c cursor : lineage n d t c cursor = lineage n d' t c cursor.
Proof.
  revert cursor. induction n as [|n IH]; intros cursor; [done|]. cbn [lineage].
  destruct (truthy_id cursor) as [i|]; [|done]. rewrite (proj1 Hd).
  destruct (rd_ckpts d' !! _) as [e|]; [|done]. by rewrite IH.
Qed.

Lemma same_history config channels :
  cfg_thread_id config = t → ref_history config channels d = ref_history config channels d'.
Proof.
  intros Ht. unfold ref_history. rewrite same_find by done. rewrite Ht, same_lineage.
  rewrite (Permutation_length (same_ids (cfg_ns config))). f_equal. apply list_fmap_ext. intros _ ch _.
  f_equal. unfold rebuilt. destruct (rebuilt_from _ _) as [ids seed]. f_equal.
  apply list_bind_ext; [|done]. intros i. by rewrite (proj2 Hd).
Qed.
End same.

Lemma same_put_writes t d d' config writes task :
  data_same t d d' → cfg_thread_id config = t →
  data_same t (ref_put_writes config writes task d) (ref_put_writes config writes task d').
Proof.
  intros [Hck Hws] <-. split; [exact Hck|]. intros c i. unfold ref_put_writes, writes_at.
  cbn [rd_writes]. set (k := (cfg_thread_id config, cfg_ns config, _)).
  destruct (decide ((cfg_thread_id config, c, i) = k)) as [->|Hne].
  - rewrite !lookup_insert_eq. subst k. fold (writes_at d (cfg_thread_id config) (cfg_ns config)
      (from_option id [] (cfg_checkpoint_id config))). fold (writes_at d' (cfg_thread_id config) (cfg_ns config)
      (from_option id [] (cfg_checkpoint_id config))). by rewrite Hws.
  - rewrite !lookup_insert_ne by done. apply Hws.
Qed.

Lemma same_put t d d' c i e : data_same t d d' → data_same t (ref_put t c i e d) (ref_put t c i e d').
Proof.
  intros [Hck Hws]. split; [|exact Hws]. intros c' j. cbn [rd_ckpts ref_put].
  destruct (decide ((t, c', j) = (t, c, i))) as [->|Hne]; [by rewrite !lookup_insert_eq|].
  by rewrite !lookup_insert_ne by congruence.
Qed.

Lemma same_delete t t' d d' : data_same t d d' → data_same t (ref_delete_thread t' d) (ref_delete_thread t' d').
Proof.
  intros [Hck Hws]. split; intros c i.
  - cbn [rd_ckpts ref_delete_thread]. rewrite !without_lookup. by case_decide.
  - unfold writes_at in *. cbn [rd_writes ref_delete_thread]. rewrite !without_lookup. by case_decide.
Qed.

Lemma same_drop t d d' gone gone' :
  data_same t d d' → (∀ c i, gone (t, c, i) = gone' (t, c, i)) →
  data_same t (ref_drop gone d) (ref_drop gone' d').
Proof.
  intros [Hck Hws] Heq. split; intros c i; rewrite ?drop_ckpts, ?drop_writes, Heq; by case_match.
Qed.

Lemma same_delete_for_runs t d d' run_ids :
  data_same t d d' → data_same t (ref_delete_for_runs run_ids d) (ref_delete_for_runs run_ids d').
Proof. intros Hd. apply same_drop; [done|]. intros c i. unfold ckpt_with. by rewrite (proj1 Hd). Qed.

Lemma same_kept t d d' c : data_same t d d' → kept_of d t c = kept_of d' t c.
Proof.
  intros Hd. unfold kept_of. rewrite (same_newest t d d' Hd). destruct (newest_of d' t c) as [i|]; [|done].
  rewrite (proj1 Hd). destruct (rd_ckpts d' !! (t, c, i)) as [e|]; [|done]. cbn [from_option]. f_equal.
  unfold needed_by. rewrite (Permutation_length (same_ids t d d' Hd c)). apply list_bind_ext; [|done].
  intros ch. by rewrite (same_lineage t d d' Hd).
Qed.

Lemma same_prune_step t t' strategy d d' :
  data_same t d d' → data_same t (prune_step strategy d t') (prune_step strategy d' t').
Proof.
  intros Hd. unfold prune_step. destruct (str_eqb _ _); [by apply same_delete|]. apply same_drop; [done|].
  intros c i. unfold ckpt_with. rewrite (proj1 Hd). destruct (rd_ckpts d' !! _); [|done].
  unfold superseded. cbn [fst snd]. apply bool_decide_ext. split; intros [<- ?]; split; try done;
    by rewrite ?(same_kept t d d' c Hd) in *.
Qed.

Lemma same_prune t thread_ids strategy d d' :
  data_same t d d' → data_same t (ref_prune thread_ids strategy d) (ref_prune thread_ids strategy d').
Proof.
  revert d d'. induction thread_ids as [|t' ts IH]; intros d d' Hd; [done|].
  by apply IH, (same_prune_step t t' strategy).
Qed.

Lemma other_prune t thread_ids strategy d :
  t ∉ thread_ids → data_same t (ref_prune thread_ids strategy d) d.
Proof.
  revert d. induction thread_ids as [|t' ts IH]; intros d; [done|]. intros [Hne Hts]%not_elem_of_cons.
  etrans; [by apply IH|]. change (data_same t (prune_step strategy d t') d). unfold prune_step, ref_keep_latest.
  destruct (str_eqb _ _); split; intros c i.
  - cbn [rd_ckpts ref_delete_thread]. by rewrite without_lookup, decide_False.
  - unfold writes_at. cbn [rd_writes ref_delete_thread]. by rewrite without_lookup, decide_False.
  - rewrite drop_ckpts. replace (ckpt_with _ _ (t, c, i)) with false; [done|]. unfold ckpt_with, superseded.
    destruct (rd_ckpts d !! _); [|done]. symmetry. apply bool_decide_eq_false. naive_solver.
  - rewrite drop_writes. replace (ckpt_with _ _ (t, c, i)) with false; [done|]. unfold ckpt_with, superseded.
    destruct (rd_ckpts d !! _); [|done]. symmetry. apply bool_decide_eq_false. naive_solver.
Qed.

(** A call that concerns the thread gets the same answer from both. *)
Lemma same_call t call r r' :
  concerns t call = true → copies_into t call = false → thread_same t r r' →
  (ref_scall call r).1 = (ref_scall call r').1 ∧ thread_same t (ref_scall call r).2 (ref_scall call r').2.
Proof.
  unfold concerns. intros Hc Hinto [Hd Hs Hh].
  destruct call as [how config cp md nv|how config ws task path|how config|how config f b l|how t'|how src t'|how fuel config chs|how run_ids|how fuel ts strategy|now|n]; cbn [call_thread] in Hc;
    try apply bool_decide_eq_true in Hc as Ht; cbn [ref_scall fst snd].
  - split; [done|]. rewrite Ht. split; cbn [rs_data rs_snaps rs_high]; [by apply same_put|done|].
    intros c'. unfold raise_high. rewrite <-(Hh (cfg_ns config)).
    destruct (rs_high r !! _) as [x|]; [destruct (str_ltb x _); [|done]|];
      (destruct (decide ((t, c') = (t, cfg_ns config))) as [->|Hne];
        [by rewrite !lookup_insert_eq|by rewrite !lookup_insert_ne by congruence]).
  - split; [done|]. split; cbn [with_data rs_data rs_snaps rs_high]; [by apply same_put_writes|done..].
  - split; [by rewrite (same_get t _ _ Hd config Ht)|]. by split.
  - destruct config as [config|]; [|done]. cbn in Hc. apply bool_decide_eq_true in Hc as Ht.
    split; [by rewrite (same_list t _ _ Hd config f b l Ht)|]. by split.
  - split; [done|]. split; cbn [with_data rs_data rs_snaps rs_high]; [by apply same_delete|done..].
  - cbn in Hinto. by rewrite bool_decide_true in Hinto.
  - split; [by rewrite (same_history t _ _ Hd config chs Ht)|]. by split.
  - split; [done|]. split; cbn [with_data rs_data rs_snaps rs_high]; [by apply same_delete_for_runs|done..].
  - split; [done|]. split; cbn [with_data rs_data rs_snaps rs_high]; [by apply same_prune|done..].
  - split; [done|]. split; cbn [rs_data rs_snaps rs_high]; [done| |done].
    apply Forall2_app; [done|]. by constructor.
  - split; [done|]. split; cbn [with_data rs_data rs_snaps rs_high]; [|done..].
    destruct (rs_snaps r !! n) as [d|] eqn:E.
    + destruct (Forall2_lookup_l _ _ _ _ _ Hs E) as (d'&->&?). done.
    + apply lookup_ge_None in E. rewrite (Forall2_length _ _ _ Hs) in E.
      by rewrite (proj2 (lookup_ge_None _ _) E).
Qed.

Lemma raise_all_other t t' l h c : t' ≠ t → raise_all t' l h !! (t, c) = h !! (t, c).
Proof.
  intros Hne. induction l as [|p l IH]; [done|]. cbn [raise_all foldr]. fold (raise_all t' l h). rewrite <-IH.
  unfold raise_high. destruct (raise_all t' l h !! (t', p.1)) as [x|]; [destruct (str_ltb x p.2); [|done]|];
    by rewrite lookup_insert_ne by congruence.
Qed.

(** A call that does not leaves the thread as it was. *)
Lemma other_call t call r : concerns t call = false → thread_same t (ref_scall call r).2 r.
Proof.
  unfold concerns. intros Hc. assert (thread_same t r r) as [Hd Hs Hh] by done.
  destruct call as [how config cp md nv|how config ws task path|how config|how config f b l|how t'|how src t'|how fuel config chs|how run_ids|how fuel ts strategy|now|n]; cbn [call_thread] in Hc;
    try apply bool_decide_eq_false in Hc as Ht; cbn [ref_scall fst snd]; try done.
  - split; cbn [rs_data rs_snaps rs_high]; [|done|].
    + split; [|done]. intros c i. cbn [rd_ckpts ref_put]. rewrite lookup_insert_ne by congruence. done.
    + intros c. unfold raise_high.
      destruct (rs_high r !! (cfg_thread_id config, cfg_ns config)) as [x|];
        [destruct (str_ltb x (from_option id [] (id_of cp))); [|done]|];
        by rewrite lookup_insert_ne by congruence.
  - split; cbn [with_data rs_data rs_snaps rs_high]; [|done..]. split; [done|]. intros c i.
    unfold ref_put_writes, writes_at. cbn [rd_writes]. by rewrite lookup_insert_ne by congruence.
  - split; cbn [with_data rs_data rs_snaps rs_high]; [|done..]. split; intros c i.
    + cbn [rd_ckpts ref_delete_thread]. by rewrite without_lookup, decide_False by congruence.
    + unfold writes_at. cbn [rd_writes ref_delete_thread].
      by rewrite without_lookup, decide_False by congruence.
  - destruct (str_eqb_spec src t') as [|Hne]; [done|]. split; cbn [snd rs_data rs_snaps rs_high]; [split|done|].
    + intros c i. by rewrite ref_copy_ckpts, decide_False by congruence.
    + intros c i. by rewrite ref_copy_writes, decide_False by congruence.
    + intros c. by apply raise_all_other.
  - split; cbn [with_data rs_data rs_snaps rs_high]; [by apply other_prune|done..].
Qed.

(** What the calls on the thread made holds nothing of other threads. *)
Definition only_thread (t : pystr) (d : RefData) : Prop := ∀ p e, rd_ckpts d !! p = Some e → p.1.1 = t.
Definition only (t : pystr) r : Prop := only_thread t (rs_data r) ∧ Forall (only_thread t) (rs_snaps r).

Lemma only_less t d d' : (∀ p e, rd_ckpts d' !! p = Some e → rd_ckpts d !! p = Some e) →
  only_thread t d → only_thread t d'.
Proof. intros Hless Hd p e He%Hless. by eapply Hd. Qed.

Lemma only_call t call r :
  concerns t call = true → copies_into t call = false → only t r → only t (ref_scall call r).2.
Proof.
  unfold concerns. intros Hc Hinto [Hd Hs].
  destruct call as [how config cp md nv|how config ws task path|how config|how config f b l|how t'|how src t'|how fuel config chs|how run_ids|how fuel ts strategy|now|n]; cbn [call_thread] in Hc;
    try apply bool_decide_eq_true in Hc as Ht; cbn [ref_scall fst snd]; try done.
  - split; [|done]. intros p e. cbn [rs_data ref_put rd_ckpts].
    intros [[<- _]|[_ He]]%lookup_insert_Some; [done|by eapply Hd].
  - split; [|done]. eapply only_less; [|exact Hd]. intros p e. cbn. by intros [? _]%map_lookup_filter_Some.
  - cbn in Hinto. by rewrite bool_decide_true in Hinto.
  - split; [|done]. eapply only_less; [|exact Hd]. apply drop_ckpts_Some.
  - split; [|done]. eapply only_less; [|exact Hd]. apply prune_less.
  - split; [done|]. cbn [rs_snaps]. apply Forall_app. split; [done|by repeat constructor].
  - split; [|done]. cbn [with_data rs_data]. destruct (rs_snaps r !! n) as [d|] eqn:E; [|done].
    by eapply Forall_lookup_1 in E.
Qed.

Lemma same_call_ok indexed t call r r' :
  concerns t call = true → copies_into t call = false → only t r' → thread_same t r r' →
  scall_ok indexed r call → scall_ok indexed r' call.
Proof.
  unfold concerns. intros Hc Hinto [Honly _] [Hd Hs Hh].
  assert (∀ p e, rd_ckpts (rs_data r') !! p = Some e → rd_ckpts (rs_data r) !! p = Some e) as Hless.
  { intros [[t' c] i] e He. pose proof (Honly _ _ He) as Ht. cbn in Ht. subst t'. by rewrite (proj1 Hd). }
  destruct call as [how config cp md nv| | | | |how src t'|how fuel config chs|how run_ids|how fuel ts strategy| |n]; cbn [call_thread scall_ok] in *; try done.
  - apply bool_decide_eq_true in Hc as Ht. intros (H1&H2&H3&H4&H5&Hi&H6).
    split_and!; try done; try apply H6. destruct Hi as [?|[Hi|Hi]]; [by left|right; left|right; right].
    + intros x. rewrite Ht, <-Hh, <-Ht. apply Hi.
    + rewrite Ht, <-(same_newest t _ _ Hd), <-Ht. exact Hi.
  - cbn in Hinto. congruence.
  - apply bool_decide_eq_true in Hc as Ht. rewrite Ht. intros (H1&H2&[Hold Hval]&Hlen). split_and!; [done..|split|].
    + intros i e p. rewrite <-(proj1 Hd). apply Hold.
    + intros i e. rewrite <-(proj1 Hd). apply Hval.
    + by rewrite <-(Permutation_length (same_ids t _ _ Hd (cfg_ns config))).
  - intros Hok p e He%Hless. by eapply Hok.
  - intros [Hst Hts]. split; [done|]. eapply Forall_impl; [exact Hts|]. intros x (?&?&Hx). split_and!; [done..|].
    intros c. by eapply prune_ok_less, Hx.
  - by rewrite (Forall2_length _ _ _ Hs).
Qed.

(** The answers to the calls that concern the thread. *)
Definition answers_to (t : pystr) calls (answers : list SAnswer) : list SAnswer :=
  (filter (λ e, concerns t e.1) (zip calls answers)).*2.

Lemma calls_apart indexed t calls r r' :
  Forall (λ call, copies_into t call = false) calls → only t r' → thread_same t r r' → scalls_ok indexed r calls →
  scalls_ok indexed r' (filter (concerns t) calls) ∧
  answers_to t calls (ref_scalls calls r).1 = (ref_scalls (filter (concerns t) calls) r').1.
Proof.
  intros Hinto. revert r r'. induction Hinto as [|call calls Hi _ IH]; intros r r' Honly Hr; [done|]. intros [Hok Hoks].
  rewrite filter_cons. cbn [ref_scalls]. specialize (IH (ref_scall call r).2).
  unfold answers_to in *. destruct (concerns t call) eqn:Ec; cbn [Is_true].
  - destruct (same_call t call r r' Ec Hi Hr) as [Ha Hr1]. rewrite decide_True by done.
    specialize (IH _ (only_call t call r' Ec Hi Honly) Hr1 Hoks) as [IHok IH]. split; [by split; [eapply same_call_ok|]|].
    cbn [ref_scalls]. destruct (ref_scall call r) as [a r1], (ref_scall call r') as [a' r1']. cbn [fst snd] in *.
    destruct (ref_scalls calls r1), (ref_scalls _ r1'). cbn [fst snd zip zip_with] in *.
    rewrite filter_cons. cbn [fst]. rewrite Ec, decide_True by done. cbn [fmap list_fmap snd]. by rewrite IH, Ha.
  - rewrite decide_False by tauto.
    specialize (IH r' Honly (transitivity (other_call t call r Ec) Hr) Hoks) as [IHok IH].
    split; [done|]. destruct (ref_scall call r) as [a r1]. cbn [fst snd] in *. destruct (ref_scalls calls r1).
    cbn [fst snd zip zip_with] in *. rewrite filter_cons. cbn [fst].
    rewrite Ec, decide_False by tauto. exact IH.
Qed.
End reference.

(** ** The default store *)

(** [SwarmStateSaver()], on a [Store()] of its own. *)
Lemma default_saver_answers `{lg : !LangGraph, lgspec : !LangGraphSpec} hash max fuel me tr st s calls :
  RustStore_new (lit "memory") (lit "msgpack") max = Ok st →
  Saver_init (ops:=rust_ops hash) st false None me tr = Ok s →
  scalls_ok false RefSaver_empty calls →
  ∃ held s',
    run_scalls (ops:=rust_ops hash) (snaps:=rust_snapshots) fuel [] calls s =
      (Ok ((ref_scalls calls RefSaver_empty).1, held), s').
Proof.
  intros [Hok Hv]%(new_store_ok hash) Hinit Hcalls.
  by apply (run_answers (ops:=rust_ops hash) (spec:=rust_spec hash) (snaps:=rust_snapshots)
    (snaplaws:=rust_snapshot_laws hash) (λ H, match Bool.diff_false_true H with end) fuel st me tr s calls).
Qed.

(** ** Properties *)

Section theorems.
Context {S : Type} {ops : StoreOps S} {spec : StoreSpec S} {snaps : SnapshotOps S}.
Context {snaplaws : SnapshotLaws valid_text S} `{lg : !LangGraph} `{lgspec : !LangGraphSpec}.
Implicit Types (s : Saver S).

(** C2: one [store.restore] rewinds every thread at once. Take a snapshot of the
    store at any point of any run, carry on with any calls (puts, writes and
    deletions in any thread, other snapshots and restores), then restore it:
    [get_tuple], [list] and the history of every thread answer as they did at the
    snapshot. The runs are those of [saver_refines_reference]: a saver that is not
    [incremental] and has no retention bound, started on an empty store; ids that
    increase, text names without the separator, values the serializer takes, [list]
    with a limit only where a namespace is named. *)
Theorem restore_rewinds_threads fuel st me tr s before now between reads :
  let after_snapshot := before ++ SSnapshot now :: reads in
  let after_restore := before ++ SSnapshot now :: between ++ SRestore (snapshots_in before) :: reads in
  (op_supports_async = true → async_store) →
  sv_ok st → sv_view st = ∅ → Saver_init st false None me tr = Ok s →
  Forall is_read reads → scalls_ok op_indexed_max_key RefSaver_empty after_restore →
  ∃ a b answers h1 s1 h2 s2,
    run_scalls fuel [] after_snapshot s = (Ok (a ++ answers, h1), s1) ∧
    run_scalls fuel [] after_restore s = (Ok (a ++ b ++ answers, h2), s2) ∧
    length a = Datatypes.S (length before) ∧ length b = Datatypes.S (length between) ∧
    length answers = length reads.
Proof.
  intros after_snapshot after_restore Hasync Hok Hv Hinit Hreads Hcalls.
  assert (scalls_ok op_indexed_max_key RefSaver_empty after_snapshot) as Hcalls'.
  { unfold after_restore, after_snapshot in *. rewrite scalls_ok_app in Hcalls |- *.
    destruct Hcalls as [Hb [_ Hrest]]. split; [done|]. split; [done|].
    apply scalls_ok_app in Hrest as [_ [_ Hr]]. eapply reads_allowed; [done| |exact Hr].
    apply (restored_data before now between RefSaver_empty). }
  destruct (run_answers Hasync fuel st me tr s after_snapshot Hok Hv Hinit Hcalls') as (h1&s1&E1).
  destruct (run_answers Hasync fuel st me tr s after_restore Hok Hv Hinit Hcalls) as (h2&s2&E2).
  destruct (ref_rewinds before now between reads RefSaver_empty Hreads) as (a&b&answers&H1&H2&Hlen).
  cbn [RefSaver_empty rs_snaps length plus] in H2. unfold after_snapshot, after_restore in *.
  rewrite H1 in E1. rewrite H2 in E2. exists a, b, answers, h1, s1, h2, s2. by destruct Hlen as (?&?&?).
Qed.

(** C3: threads do not see each other. In any run over any threads, the calls
    on one thread (with the snapshots, restores and deletions of runs, which are on
    the whole store) get the answers they get when the calls on all other threads
    are left out, as long as no thread is copied into it. The runs are those of
    [saver_refines_reference]: a saver that is not [incremental] and has no retention
    bound, started on an empty store; ids that increase, text names without the
    separator, values the serializer takes, [list] with a limit only where a
    namespace is named. *)
Theorem threads_apart fuel st me tr s t calls :
  (op_supports_async = true → async_store) →
  sv_ok st → sv_view st = ∅ → Saver_init st false None me tr = Ok s →
  scalls_ok op_indexed_max_key RefSaver_empty calls → Forall (λ call, copies_into t call = false) calls →
  ∃ answers h1 s1 h2 s2,
    run_scalls fuel [] calls s = (Ok (answers, h1), s1) ∧
    run_scalls fuel [] (filter (concerns t) calls) s = (Ok (answers_to t calls answers, h2), s2).
Proof.
  intros Hasync Hok Hv Hinit Hcalls Hinto.
  destruct (calls_apart op_indexed_max_key t calls RefSaver_empty RefSaver_empty) as [Hcalls' Ha]; [done|by split|done..|].
  destruct (run_answers Hasync fuel st me tr s calls Hok Hv Hinit Hcalls) as (h1&s1&E1).
  destruct (run_answers Hasync fuel st me tr s _ Hok Hv Hinit Hcalls') as (h2&s2&E2).
  eexists _, h1, s1, h2, s2. split; [exact E1|]. by rewrite Ha.
Qed.
End theorems.

(** ** Examples *)

Definition ex_before : list SCall :=
  [ex_put "c1" None;
   SPutWrites Awaited (ex_config (Some (lit "c1"))) [(lit "a", PInt 8)] (lit "task") []].
Definition ex_between : list SCall := [ex_put "c2" (Some (lit "c1")); SGetTuple Called (ex_config None)].
Definition ex_reads : list SCall := [SGetTuple Awaited (ex_config None)].

Lemma ex_rewound_ok :
  scalls_ok false RefSaver_empty (ex_before ++ SSnapshot 5 :: ex_between ++ SRestore 0 :: ex_reads).
Proof. exact (proj1 (proj1 (scalls_ok_app false (take 7 ex_calls) (drop 7 ex_calls) RefSaver_empty) ex_calls_ok)). Qed.

Lemma restore_rewinds_threads_witness : ∃ a b answers h1 s1 h2 s2,
  run_scalls (ops:=full_ops) (snaps:=ref_snapshots) 0 [] (ex_before ++ SSnapshot 5 :: ex_reads) ex_new_saver =
    (Ok (a ++ answers, h1), s1) ∧
  run_scalls (ops:=full_ops) (snaps:=ref_snapshots) 0 []
    (ex_before ++ SSnapshot 5 :: ex_between ++ SRestore 0 :: ex_reads) ex_new_saver =
    (Ok (a ++ b ++ answers, h2), s2) ∧
  length a = 3 ∧ length b = 3 ∧ length answers = 1.
Proof.
  refine (restore_rewinds_threads (ops:=full_ops) (spec:=ref_spec true true false)
    (snaps:=ref_snapshots) (snaplaws:=ref_snapshot_laws true true false) 0 ∅ None None ex_new_saver
    ex_before 5 ex_between ex_reads (λ _, ref_async_store false) kv_ok_empty eq_refl eq_refl _ ex_rewound_ok).
  by repeat constructor.
Defined.

(** Two threads in turn. *)
Definition ex_both : list SCall :=
  [ex_put "c1" None; ex_put_in ex_other "d1" None ex_metadata; SSnapshot 5; ex_put_in ex_other "d2" (Some (lit "d1")) ex_metadata;
   SGetTuple Called (ex_config None); SDeleteThread Awaited ex_other; SGetTuple Awaited (ex_config None)].

Lemma ex_both_ok : scalls_ok false RefSaver_empty ex_both.
Proof.
  assert (name_ok ex_other []) as Hname by (split_and!; by apply (bool_decide_unpack _)).
  cbn [scalls_ok ex_both].
  split; [apply ex_put_ok; [apply (ex_name_ok None)|by vm_compute..]|].
  split; [apply ex_put_ok; [done|by vm_compute..]|]. split; [done|].
  split; [apply ex_put_ok; [done|by vm_compute..]|]. split; [apply ex_get_ok|].
  split; [split; apply Hname|]. split; [apply ex_get_ok|done].
Qed.

Lemma threads_apart_witness : ∃ answers h1 s1 h2 s2,
  run_scalls (ops:=full_ops) (snaps:=ref_snapshots) 0 [] ex_both ex_new_saver = (Ok (answers, h1), s1) ∧
  run_scalls (ops:=full_ops) (snaps:=ref_snapshots) 0 []
    [ex_put "c1" None; SSnapshot 5; SGetTuple Called (ex_config None); SGetTuple Awaited (ex_config None)]
    ex_new_saver = (Ok (answers_to ex_thread ex_both answers, h2), s2).
Proof.
  exact (threads_apart (ops:=full_ops) (spec:=ref_spec true true false)
    (snaps:=ref_snapshots) (snaplaws:=ref_snapshot_laws true true false) 0 ∅ None None ex_new_saver
    ex_thread ex_both (λ _, ref_async_store false) kv_ok_empty eq_refl eq_refl ex_both_ok
    ltac:(by repeat constructor)).
Defined.

(** ** What the hypotheses exclude *)

(** An id below one put before a restore (it does not increase, [id_increases]):
    the saver's hint still holds the id that the restore took back, so [put] does
    not publish the pointer and the newest checkpoint is not the one read. *)
Definition ex_stale : list SCall :=
  [ex_put "c1" None; SSnapshot 5; ex_put "c3" (Some (lit "c1")); SRestore 0; ex_put "c2" (Some (lit "c1"));
   SGetTuple Called (ex_config None)].

Lemma stale_hint_hides_newest : ∃ held s',
  run_scalls (ops:=full_ops) (snaps:=ref_snapshots) 0 [] ex_stale ex_new_saver =
    (Ok ([SConfig (mk_config ex_thread [] (lit "c1")); SDone; SConfig (mk_config ex_thread [] (lit "c3"));
          SDone; SConfig (mk_config ex_thread [] (lit "c2")); STuple (Some (ex_tuple "c1" None []))], held), s') ∧
  (ref_scalls ex_stale RefSaver_empty).1 !! 5 = Some (STuple (Some (ex_tuple "c2" (Some (lit "c1")) []))).
Proof.
  destruct (run_scalls (ops:=full_ops) (snaps:=ref_snapshots) 0 [] ex_stale ex_new_saver) as [r s'] eqn:E.
  assert (∃ held, r = Ok ([SConfig (mk_config ex_thread [] (lit "c1")); SDone;
    SConfig (mk_config ex_thread [] (lit "c3")); SDone; SConfig (mk_config ex_thread [] (lit "c2"));
    STuple (Some (ex_tuple "c1" None []))], held)) as [held ->].
  { assert (r = (run_scalls (ops:=full_ops) (snaps:=ref_snapshots) 0 [] ex_stale ex_new_saver).1) as ->
      by (by rewrite E). eexists. vm_compute. reflexivity. }
  exists held, s'. split; [done|by vm_compute].
Qed.

(** An incremental checkpoint that names no version (see [has_versions]): what
    [get_tuple] answers has empty [channel_values], what [aget_tuple] answers has
    none. *)
Definition ex_bare_checkpoint : pydict :=
  [(key "id", key "c1"); (key "channel_values", PDict []); (key "channel_versions", PDict [])].

Definition ex_bare_read (how : Mode) : result (option pyval) :=
  ((put (ops:=full_ops) 0 (ex_config None) (PDict ex_bare_checkpoint) ex_metadata [] ;;
    tup ← get_tuple_in (ops:=full_ops) how (ex_config None); mret (ct_checkpoint <$> tup))
   (mkSaver ∅ true None None None ∅ ∅ true false true)).1.

Lemma aget_tuple_leaves_values_out :
  ex_bare_read Called = Ok (Some (PDict
    [(key "id", key "c1"); (key "channel_versions", PDict []); (key "channel_values", PDict [])])) ∧
  ex_bare_read Awaited = Ok (Some (PDict [(key "id", key "c1"); (key "channel_versions", PDict [])])).
Proof. split; vm_compute; reflexivity. Qed.
