(* ===== verification/Examples.v ===== *)
(** * The programs of [examples/]

    [support_triage.py]: its router, and the functions its LangGraph workflow runs
    as nodes (the workflow's engine is LangGraph, which is not modelled), and
    [state_portability.py], whole. Both use the library as its users do: the graph
    with its conditions, and the store with the codec. *)

From Stdlib Require Import ZifyBool.
From S2P Require Import Prelude PyValue PyFloat Codec CodecLemmas CodecTheorems Condition ConditionLexer Graph.
From S2P Require Import Crew Portability Store RustStore RustStoreTheorems RustStoreProps GraphTheorems.

(** ** [support_triage.py] *)

Section Triage.
Context (tables : CharTables) (objs : Objects) (str_of : pyval → pystr).

(** [router]: built when the module is loaded. *)
Definition router : result HandoffGraph :=
  g ← HandoffGraph_new (lit "error");
  fst ((HandoffGraph_add_edge tables (lit "triage") (lit "billing") (Some (lit "category == 'billing'")) ;;
        HandoffGraph_add_edge tables (lit "triage") (lit "technical")
          (Some (lit "category == 'technical' and priority >= 2")) ;;
        HandoffGraph_add_edge tables (lit "triage") (lit "human") None ;;
        get_state) g).

(** [Ticket], and the dictionary it is. *)
Record Ticket := {
  subject : pystr;
  category : pystr;
  priority : Z;
  route : pystr;
  resolution : pystr;
}.

Definition ticket_state (t : Ticket) : pydict :=
  [(key "subject", PStr (subject t)); (key "category", PStr (category t)); (key "priority", PInt (priority t));
   (key "route", PStr (route t)); (key "resolution", PStr (resolution t))].

(** [TICKETS], with the empty fields [main] adds. *)
Definition new_ticket (s c : String.string) (p : Z) : Ticket :=
  {| subject := lit s; category := lit c; priority := p; route := []; resolution := [] |}.

Definition TICKETS : list Ticket :=
  [new_ticket "double charge on invoice #42" "billing" 1;
   new_ticket "API returns 500 on /v1/run" "technical" 3;
   new_ticket "how do I rotate my key?" "other" 1].

(** [triage] *)
Definition triage (state : pydict) : result pydict :=
  g ← router;
  nxt ← HandoffGraph_route objs g (lit "triage") (Some (PDict state));
  Ok [(key "route", from_option PStr PNone nxt)].

(** [billing], [technical] and [human] *)
Definition resolve_as (prefix : String.string) (state : pydict) : result pydict :=
  s ← py_getitem (PDict state) (key "subject");
  Ok [(key "resolution", PStr (lit prefix ++ py_format str_of s))].

Definition billing := resolve_as "[billing] refunded: ".
Definition technical := resolve_as "[technical] escalated to on-call: ".
Definition human := resolve_as "[human] queued for an agent: ".

(** The nodes [build_graph] adds after [triage], by the names its conditional edge
    may lead to. *)
Definition leaves : list (pystr * (pydict → result pydict)) :=
  [(lit "billing", billing); (lit "technical", technical); (lit "human", human)].

(** The key of the conditional edge: [lambda s: s["route"]]. *)
Definition route_key (state : pydict) : result pyval := py_getitem (PDict state) (key "route").

(** *** What it does *)

(** The rule of the comments: billing tickets to billing, technical ones of
    priority 2 and more to the technicians, the others to a human. *)
Definition desk (t : Ticket) : String.string :=
  if str_eqb (category t) (lit "billing") then "billing"
  else if str_eqb (category t) (lit "technical") && (2 <=? priority t)%Z then "technical"
  else "human".

Definition reply (d : String.string) : String.string :=
  if String.eqb d "billing" then "[billing] refunded: "
  else if String.eqb d "technical" then "[technical] escalated to on-call: "
  else "[human] queued for an agent: ".

Lemma two_le_f64 z : num_leb (f64_of_Z 2) (f64_of_Z z) = (2 <=? z)%Z.
Proof.
  change (f64_of_Z 2) with (NFin 2 0). unfold f64_of_Z. set (k := (Z.log2 (Z.abs z) - 52)%Z).
  destruct (k <=? 0)%Z eqn:Hk; cbn [num_leb]; [by rewrite !Z.mul_1_r|].
  assert (0 < k)%Z as Hk' by lia. assert (2 ^ 52 * 2 ^ k <= Z.abs z)%Z as Hlow.
  { rewrite <-Z.pow_add_r by lia. replace (52 + k)%Z with (Z.log2 (Z.abs z)) by (unfold k; lia).
    apply Z.log2_spec. assert (z ≠ 0)%Z; [|lia]. intros ->. done. }
  assert (0 < 2 ^ k)%Z as Hpos by (apply Z.pow_pos_nonneg; lia).
  assert (2 ^ 52 <= div_even (Z.abs z) (2 ^ k))%Z as Hdiv.
  { assert (2 ^ 52 <= Z.abs z / 2 ^ k)%Z by (apply Z.div_le_lower_bound; lia).
    unfold div_even. repeat case_match; lia. }
  rewrite Z.min_l by lia. rewrite Z.sub_0_r, Z.mul_1_r.
  assert (2 <= 2 ^ k)%Z by (change 2%Z with (2 ^ 1)%Z at 1; apply Z.pow_le_mono_r; lia).
  destruct z as [|p|p]; cbn [Z.sgn Z.abs] in *; [lia|nia|nia].
Qed.

Lemma router_built : ∃ g, router = Ok g ∧
  node_paths g !! lit "triage" = Some [[lit "category"]; [lit "priority"]] ∧
  ∃ w1 w2, adj g !! lit "triage" = Some [
    {| edge_to := lit "billing"; edge_when_src := w1;
       edge_cond := Some (ECmp OEq (EVar [lit "category"]) (EStr (lit "billing"))) |};
    {| edge_to := lit "technical"; edge_when_src := w2;
       edge_cond := Some (EAnd [ECmp OEq (EVar [lit "category"]) (EStr (lit "technical"));
                                ECmp OGe (EVar [lit "priority"]) (EInt 2)]) |};
    {| edge_to := lit "human"; edge_when_src := None; edge_cond := None |}].
Proof.
  eexists. split; [vm_compute; reflexivity|]. split; [vm_compute; reflexivity|].
  eexists _, _. vm_compute. reflexivity.
Qed.

(** The ticket a state is about. *)
Definition state_holds (state : pydict) (t : Ticket) : Prop :=
  dict_get state (key "subject") = Some (PStr (subject t)) ∧
  dict_get state (key "category") = Some (PStr (category t)) ∧
  dict_get state (key "priority") = Some (PInt (priority t)).

(** The part of the state the conditions read. *)
Lemma partial_ticket g state t :
  node_paths g !! lit "triage" = Some [[lit "category"]; [lit "priority"]] →
  state_holds state t → valid_text (category t) → (- 2 ^ 63 <= priority t < 2 ^ 63)%Z →
  partial_state objs g (lit "triage") (PDict state) =
    Ok (VMap [(VString (lit "category"), VString (category t));
              (VString (lit "priority"), VInteger (priority t))]).
Proof.
  intros Hp (_&Hc&Hn) Hv Hz. unfold partial_state. rewrite Hp. cbn [foldR]. unfold add_path.
  cbn [resolve_path child]. unfold key in Hc, Hn. rewrite Hc. cbn [mbind result_bind].
  change (py_to_value (PStr (category t))) with (s ← as_string (category t); Ok (VString s)).
  unfold as_string. rewrite decide_True by done. cbn [mbind result_bind]. rewrite Hn. cbn [mbind result_bind].
  change (py_to_value (PInt (priority t))) with (value_int (priority t)). unfold value_int.
  destruct (_ && _) eqn:E; [done|lia].
Qed.

Lemma first_match_ticket t w1 w2 :
  first_match (VMap [(VString (lit "category"), VString (category t));
                     (VString (lit "priority"), VInteger (priority t))])
    [{| edge_to := lit "billing"; edge_when_src := w1;
        edge_cond := Some (ECmp OEq (EVar [lit "category"]) (EStr (lit "billing"))) |};
     {| edge_to := lit "technical"; edge_when_src := w2;
        edge_cond := Some (EAnd [ECmp OEq (EVar [lit "category"]) (EStr (lit "technical"));
                                 ECmp OGe (EVar [lit "priority"]) (EInt 2)]) |};
     {| edge_to := lit "human"; edge_when_src := None; edge_cond := None |}] = Some (lit (desk t)).
Proof.
  unfold desk. rewrite <-two_le_f64.
  change (first_match _ _) with
    (if str_eqb (category t) (lit "billing") then Some (lit "billing")
     else if str_eqb (category t) (lit "technical") && (num_leb (f64_of_Z 2) (f64_of_Z (priority t)) && true)
     then Some (lit "technical") else Some (lit "human")).
  rewrite andb_true_r. by repeat case_match.
Qed.

Lemma resolve_as_subject prefix state t :
  dict_get state (key "subject") = Some (PStr (subject t)) →
  resolve_as prefix state = Ok [(key "resolution", PStr (lit prefix ++ subject t))].
Proof. intros Hs. unfold resolve_as. cbn [py_getitem]. by rewrite Hs. Qed.

Lemma ticket_state_holds t : state_holds (ticket_state t) t.
Proof. done. Qed.

(** C40: the support desk of [examples/support_triage.py] routes as its comments
    say, whatever the state holds besides the ticket: [triage] answers [billing]
    for a ticket of that category, [technical] for a technical one of priority 2 or
    more (any 64-bit priority, although the condition compares floats), [human] for
    every other, and the node of that name answers with its line about the
    subject. *)
Theorem triage_routes state t :
  state_holds state t → valid_text (category t) → (- 2 ^ 63 <= priority t < 2 ^ 63)%Z →
  ∃ node, triage state = Ok [(key "route", key (desk t))] ∧
    (lit (desk t), node) ∈ leaves ∧
    node state = Ok [(key "resolution", PStr (lit (reply (desk t)) ++ subject t))].
Proof.
  intros Hst Hv Hz.
  assert (triage state = Ok [(key "route", key (desk t))]) as ->.
  { destruct router_built as (g&Hg&Hp&w1&w2&Hadj). unfold triage. rewrite Hg. cbn [mbind result_bind].
    unfold HandoffGraph_route. change (as_string (lit "triage")) with (Ok (lit "triage")).
    cbn [mbind result_bind]. rewrite (partial_ticket g state t), Hadj by done. cbn [mbind result_bind].
    by rewrite first_match_ticket. }
  unfold desk. destruct Hst as (Hs&_). destruct (str_eqb _ _); [|destruct (_ && _)].
  - exists billing. split_and!; [done|apply list_elem_of_lookup; by exists 0|by apply resolve_as_subject].
  - exists technical. split_and!; [done|apply list_elem_of_lookup; by exists 1|by apply resolve_as_subject].
  - exists human. split_and!; [done|apply list_elem_of_lookup; by exists 2|by apply resolve_as_subject].
Qed.
End Triage.

Lemma triage_routes_witness : ∃ node,
  triage ascii_only no_objects (ticket_state (new_ticket "urgent: prod down" "technical" 5))
    = Ok [(key "route", key "technical")] ∧
  (lit "technical", node) ∈ leaves (λ _, []) ∧
  node (ticket_state (new_ticket "urgent: prod down" "technical" 5))
    = Ok [(key "resolution", key "[technical] escalated to on-call: urgent: prod down")].
Proof.
  exact (triage_routes ascii_only no_objects (λ _, []) _
    (new_ticket "urgent: prod down" "technical" 5) (ticket_state_holds _)
    ltac:(by apply (bool_decide_unpack _)) ltac:(cbn; lia)).
Defined.

(** The routes and the lines the file expects for its tickets. *)
Lemma tickets_as_expected :
  (λ t, (triage ascii_only no_objects (ticket_state t), desk t, reply (desk t))) <$> TICKETS =
  [(Ok [(key "route", key "billing")], "billing"%string, "[billing] refunded: "%string);
   (Ok [(key "route", key "technical")], "technical"%string, "[technical] escalated to on-call: "%string);
   (Ok [(key "route", key "human")], "human"%string, "[human] queued for an agent: "%string)].
Proof. vm_compute. reflexivity. Qed.

(** ** [state_portability.py] *)

Section Portability.
Context (hash : pystr → N).

Definition assert_that (b : bool) : result unit := if b then Ok tt else Raise AssertionError.

(** [state] of [main] *)
Definition demo_state : pyval :=
  PDict [(key "step", PInt 3); (key "history", PList [key "greet"; key "collect"; key "verify"]);
         (key "user", PDict [(key "id", PInt 7); (key "vip", PBool true)])].

Definition workflow : pystr := lit "workflow".
Definition onboarding : pystr := lit "onboarding".

(** [main], with the state it writes as an argument. [unpackb] is the [msgpack]
    package, [None] if it is not installed. Its answer is what it prints: the
    number of bytes, what the other store reads, and whether the package agreed. *)
Definition carry (unpackb : option (bytes → result pyval)) (state : pyval) : result (nat * pyval * bool) :=
  store ← RustStore_new (lit "memory") (lit "msgpack") None;
  raw ← fst ((RustStore_set hash workflow onboarding state ;;
              v ← RustStore_get hash workflow onboarding PNone;
              lift (dumps v)) store);
  loaded ← loads raw;
  assert_that (py_eq loaded state) ;;
  store_b ← RustStore_new (lit "memory") (lit "msgpack") None;
  reread ← fst ((v ← lift (loads raw);
                 RustStore_set hash workflow onboarding v ;;
                 RustStore_get hash workflow onboarding PNone) store_b);
  agreed ← (match unpackb with
            | Some unpackb => v ← unpackb raw; assert_that (py_eq v state) ;; Ok true
            | None => Ok false
            end);
  Ok (length raw, reread, agreed).

Definition main (unpackb : option (bytes → result pyval)) : result (nat * pyval * bool) :=
  carry unpackb demo_state.

(** What is set is what is read. *)
Lemma set_then_get {B : Type} (k : pyval → PyM RustStore B) b state st :
  rust_ok hash st → storable state → (∀ s, (k state s).1 = Ok b) →
  ((RustStore_set hash workflow onboarding state ;;
    v ← RustStore_get hash workflow onboarding PNone; k v) st).1 = Ok b.
Proof.
  intros Hst Hv Hk. assert (valid_text workflow ∧ valid_text onboarding) as [Hw Ho]
    by (split; by apply (bool_decide_unpack _)).
  destruct (wp_elim (RustStore_set hash workflow onboarding state ;;
    v ← RustStore_get hash workflow onboarding PNone; k v) st (λ x _, x = b)) as (x&s'&E&->).
  - eapply wp_bind_mono; [by apply rust_set_ok|]. intros [] s1 [H1 Hview].
    eapply wp_bind_mono; [by apply rust_get_ok|]. intros v s2 [_ ->]. rewrite Hview. unfold kv_get.
    rewrite lookup_insert_eq. cbn [from_option id]. specialize (Hk s2). unfold wp.
    destruct (k state s2). cbn in Hk. by subst.
  - by rewrite E.
Qed.

(** Every state of the wire format is carried from one store to the other. *)
Lemma carries unpackb state :
  storable state → py_eq state state = true →
  (∀ u raw, unpackb = Some u → encode state = Ok raw → u raw = Ok state) →
  ∃ n, carry unpackb state = Ok (n, state, bool_decide (is_Some unpackb)).
Proof.
  intros Hs Heq Hu. destruct (codec_round_trip state Hs) as (raw&Hraw&Hback). exists (length raw).
  unfold carry, loads, dumps, assert_that. destruct (RustStore_new _ _ _) as [st| |] eqn:Enew; [|discriminate Enew..].
  destruct (new_store_ok hash _ st Enew) as [Hst _]. cbn [mbind result_bind].
  rewrite (set_then_get (λ v, lift (encode v)) raw) by (done || by rewrite ?Hraw). cbn [mbind result_bind].
  rewrite Hback. cbn [mbind result_bind]. rewrite Heq. cbn [mbind result_bind].
  assert (((v ← lift (Ok state); RustStore_set hash workflow onboarding v ;;
            RustStore_get hash workflow onboarding PNone) st).1 = Ok state) as ->.
  { etrans; [|by apply (set_then_get mret state state st)]. unfold mbind, pym_bind, lift. cbn [fst].
    destruct (RustStore_set _ _ _ _ _) as [[[]|e|] s1]; [|done..].
    by destruct (RustStore_get _ _ _ _ _) as [[v|e|] s2]. }
  cbn [mbind result_bind]. destruct unpackb as [u|]; [|done]. rewrite (Hu u raw) by done.
  cbn [mbind result_bind]. by rewrite Heq.
Qed.

(** The demo prints the state it wrote, and so agrees with any reader of msgpack
    that reads its bytes as the library does. *)
Lemma main_carries unpackb :
  (∀ u raw v, unpackb = Some u → decode raw = Ok v → u raw = Ok v) →
  ∃ n, main unpackb = Ok (n, demo_state, bool_decide (is_Some unpackb)).
Proof.
  intros Hu. assert (storable demo_state) as Hs by by apply (bool_decide_unpack _).
  apply carries; [done|by vm_compute|]. intros u raw -> Hraw. apply (Hu u); [done|].
  destruct (codec_round_trip demo_state Hs) as (raw'&Hraw'&Hback). congruence.
Qed.
End Portability.
